(* ===== verification/_CoqProject ===== *)
-Q . S2P
Prelude.v
Containers.v
Strings.v
RangeList.v
RangeListProofs.v
Nfa.v
NfaProofs.v
Term.v
TermGraph.v
TermCorrect.v
TermTheorems.v
CombinedFilters.v
CombinedFiltersProofs.v
CombinedFiltersTheorems.v
NfaSkeleton.v
PrefixTreeNet.v
SubtreeStack.v
SubtreeWalk.v
SubtreeMeasure.v
SubtreeLoop.v
ProcessProofs.v
YarrParser.v
UrlFilterParser.v
YarrProofs.v
UrlFilterTotal.v
UrlFilterSimplify.v
UrlFilterParse.v
UrlFilterTokens.v
UrlFilterTheorems.v
Dfa.v
Worklist.v
NfaToDfa.v
NfaClosures.v
NfaToDfaProofs.v
ProcessTheorems.v
DfaMerger.v
DfaMinimizer.v
PartitionProofs.v
SingularRanges.v
MinimizerGraph.v
MinimizerTables.v
MinimizerRefine.v
MinimizerProofs.v
MinimizerRelocate.v
MinimizerTheorems.v
FreshDfa.v
DfaCombiner.v
ResourceLoad.v
Bytecode.v
Rules.v
RulesSerialize.v
BytecodeCompiler.v
BytecodeInterpreter.v
TransitionTables.v
BytecodeLayout.v
BytecodeLink.v
BytecodeCorrect.v
BytecodeStream.v
BytecodeTheorems.v
Backend.v
BackendTheorems.v
FileNames.v
PosixFiles.v
RuleListParser.v
RuleListTheorems.v
RuleListCompiler.v
IpcCoders.v
ExtensionStore.v
StoreSafety.v
StoreSystem.v
StoreTheorems.v
FilterDfas.v
FilterTheorems.v
RuleMatching.v
EndToEnd.v
ContentControllers.v
ControllerSync.v
ControllerSystem.v
Deployment.v
