(* ===== verification/Prelude.v ===== *)
(** * WebKit content extensions: a verified model

    The program is the content-blocker engine of WebCore, the code under
    src/Source/WebCore/contentextensions with the parts of WTF, of
    WebCore/loader and of the YARR parser it is built on, and the code of WebKit2
    that keeps compiled rule lists on disk and brings them to the web processes.
    (The code is compiled where ENABLE(CONTENT_EXTENSIONS) is set.)  A rule list
    in JSON is compiled once to bytecode and stored in a file; the application
    adds extensions to controllers, whose pages live in several processes; for
    every load of a page the bytecode is run on the URL and the actions of the
    matching rules are applied.

    ** The parts and how they interact

    - JSON text is parsed to rules, a trigger and an action each
      (ContentExtensionParser.cpp): RuleListParser, with the errors of
      ContentExtensionError.cpp as values.
    - The actions are serialized to bytes; a rule refers to its action by
      location (serializeActions of ContentExtensionCompiler.cpp,
      ContentExtensionRule.cpp): Rules.
    - The url-filter of a trigger is parsed by the YARR parser
      (JavaScriptCore/yarr/YarrParser.h: YarrParser, over a delegate that is a
      record of operations) with the delegate of URLFilterParser.cpp:
      UrlFilterParser.  The result is a sequence of terms (Term.h: Term).
    - The terms of all rules are collected in a prefix tree
      (CombinedURLFilters.cpp, CombinedFiltersAlphabet.cpp: CombinedFilters),
      which is turned into NFAs (ImmutableNFA.h, ImmutableNFANodeBuilder.h: Nfa)
      through sorted range lists (MutableRangeList.h: RangeList).
    - NFAs become DFAs (NFAToDFA.cpp: NfaToDfa; DFA.cpp, DFANode.cpp: Dfa), which
      are minimized (DFAMinimizer.cpp: DfaMinimizer) and, when small, combined
      (DFACombiner.cpp: DfaMerger for the product of two, DfaCombiner).
    - DFAs are compiled to bytecode (DFABytecode.h: Bytecode;
      DFABytecodeCompiler.cpp: BytecodeCompiler) and run by an interpreter
      (DFABytecodeInterpreter.cpp: BytecodeInterpreter).  Actions are 64-bit words
      with the resource flags of loader/ResourceLoadInfo.h (ResourceLoad).
    - compileRuleList composes all of this (RuleListCompiler); the installed
      extensions and their effect on loads are ContentExtension.cpp,
      ContentExtensionsBackend.cpp and ContentExtensionStyleSheet.cpp (Backend).
    - The store compiles rule lists to files, looks them up and removes them
      (APIUserContentExtensionStore.cpp: ExtensionStore), under names escaped by
      encodeForFileName (FileSystem.cpp: FileNames), with the file functions of
      FileSystemPOSIX.cpp and NetworkCacheData.cpp and the shared memory of
      SharedMemoryMac.cpp (PosixFiles).
    - Arguments of messages between processes are encoded and decoded by
      ArgumentEncoder.cpp, ArgumentDecoder.cpp and the coders (IpcCoders; a class
      as the template of the code is one).
    - A controller in the UI process (WebUserContentControllerProxy.cpp) tells the
      processes of its pages about its extensions; each has a controller of its
      own while it has such a page (WebUserContentController.cpp, WebProcess.cpp,
      WebCore/page/UserContentController.cpp): ContentControllers.

    ** How the code is modelled

    Every operation is an executable definition with the name it has in the
    code.  Fallible code returns [outcome]: a failed release assertion or an
    access outside of a vector is [Crash].  Integers are [Z]; where the code
    stores them at a width the wrap-around is written out ([u8], [u16], [i8],
    ...).  A C++ vector is a list with checked access ([vget], [vset]).  Objects
    with an identity (the vertices of the prefix tree, the nodes of automata)
    live in a store and are named by their index.  A hash set is a list without
    duplicates whose order after every addition is arbitrary ([HashOrder] in
    Containers): all theorems hold for every order.  Code outside of the
    subsystem is a class with the operations that are called ([Parsers] for the
    JSON and CSS parsers, [Platform] for URLs and hosts), and what is used of it
    is a named law ([ParserLaws]).  Code that talks to the operating system is a
    tree of system calls ([io] in PosixFiles); an operating system ([OS]) may
    answer a call in every way that the relation [posix] allows, failures
    included, and [run] is a file system that works.  Several processes or tasks
    are a state and a step relation over it (StoreSystem, ControllerSystem): the
    tasks of the store interleave call by call, the processes message by message.
    The components rely on each other through classes: [ArgumentCoder] with its
    law, [StoreNames], and [LoadSpec], what the controllers need to know of an
    extension.

    ** What is proved

    - RangeListProofs, NfaToDfaProofs: [extend] keeps range lists sorted and is
      the pointwise merge of two lists.
    - TermGraph, TermCorrect, TermTheorems: character sets count their
      members; the graph generated for a term spells exactly the regular
      language of the term; the predicates the compiler asks of terms are sound.
    - CombinedFiltersProofs, CombinedFiltersTheorems: adding a pattern or a
      domain to the prefix tree adds exactly it.
    - NfaSkeleton, PrefixTreeNet, SubtreeStack, SubtreeWalk, SubtreeMeasure,
      SubtreeLoop, ProcessProofs and ProcessTheorems: generating an automaton for a subtree of the prefix tree
      keeps the graph of the term stack, shares suffixes only where that is
      sound, and removes what it has generated; the loop of [processNFAs] drains
      the tree, and its automata together perform exactly the collected
      patterns.
    - YarrProofs, UrlFilterTotal: the parser returns on every input, for every
      delegate, and with the filter delegate does not crash.
    - UrlFilterParse begins with a specification of the url-filter language that
      does not mention the parser; UrlFilterParse, UrlFilterTokens,
      UrlFilterSimplify and UrlFilterTheorems show that adding the text of a filter makes the combined
      filters accept exactly the URLs of the filter.
    - Worklist is the loop shared by the subset construction and the product of
      DFAs; NfaClosures, NfaToDfaProofs and DfaMerger show that both end, and
      that the resulting DFA performs on every word exactly the actions it
      should.
    - PartitionProofs: the refinable partition of the minimizer is a partition,
      marking and refining split its sets exactly.  SingularRanges,
      MinimizerGraph and MinimizerTables describe the reverse
      transitions the minimizer collects; MinimizerRefine and MinimizerProofs
      show that its loop ends in the coarsest stable partition;
      MinimizerRelocate that replacing nodes and compacting their transitions
      keeps every path; MinimizerTheorems that a minimized DFA performs the
      same actions and has no two nodes that behave alike, the order in which
      nodes list their actions included.
    - FreshDfa shows that what [convert] and [merge] build has the layout the
      minimizer relies on; DfaCombiner that combining DFAs keeps what they perform together.
    - TransitionTables, BytecodeLayout, BytecodeLink, BytecodeCorrect,
      BytecodeStream, BytecodeTheorems: compiling each DFA of a stream returns, its
      jumps are linked and large enough, and interpreting the bytes one after the
      other reports exactly the actions the DFAs collect along the URL, filtered
      by resource flags and domain, where the end-of-line edges are ones the
      bytecode can express ([eol_ok] in BytecodeCorrect).
    - Rules, RulesSerialize: serialized actions read back,
      and their locations are ordered as the rules wherever a rule ignores the
      previous ones; a rule with domains has a location that no other rule has.
    - BackendTheorems: which of the matching rules take effect, when a load is
      blocked, that the domain cache is transparent for hosts that are not null, and that the table of
      extensions is a map; creating an extension returns, and only selectors of universal actions move to the global style sheet.
    - RuleListTheorems: parsed rules are valid, and rule lists round trip through
      JSON.
    - FilterDfas and FilterTheorems compose the stages for one group of filters:
      the DFAs lowered from it, minimized and combined, and their bytecode
      report exactly the rules whose filter the URL matches.
    - RuleMatching and EndToEnd compose all of it: how the
      compiler distributes rules over the groups of filters, which locations a load
      collects, and that a rule list, compiled, installed and asked about a
      load, blocks it exactly when the rules say so.  The rules are hypothesized
      to have filters of the syntax in UrlFilterParse, automata the subset
      construction has fuel for, and end-of-line edges the bytecode can express; no
      filter with both anchors accepts the empty string; URL and host are ASCII,
      and the host is not null.  Loads of data: URLs are never blocked.

    - FileNames: escaping an identifier can be undone, and gives a name that file
      systems accept.
    - StoreSafety, StoreSystem, StoreTheorems: a program logic for the tasks of the
      store, in which a task owns its descriptors and its temporary file; with it,
      however tasks interleave and calls fail, a file in the place of an
      identifier is the whole result of a compilation, and an extension that was
      handed out keeps its memory.  On a file system that works, the store is a
      map, which removing all files empties.  Assumed is that writes are complete or fail, and that the descriptor
      of a failed write is not reused; two theorems show runs in which exactly one
      of the two fails, and what goes wrong.
    - IpcCoders: every coder reads back what it wrote, wherever in a message it
      is.  ControllerSync: a controller of a web process that mirrors a list of
      extensions decides loads as they do, and each message moves it to the list
      it stands for.  ControllerSystem: the invariant of the whole system, that
      the messages on their way to a process lead to what its proxies hold.
    - Deployment composes store, messages, controllers and the pipeline: a message
      carries the extensions of the store to a process; the controllers of all
      processes follow their proxies; and a page loads what the rules of its
      controller's extensions let it load.  It is assumed that no page is closed
      that is the last one of its controller in a process that goes on; a theorem
      shows that otherwise the next page of the controller has no extensions.

    Further theorems, most on concrete inputs, record where the code deviates
    from its intention: an end-of-line edge to the fallback target is lost and a fallback
    jump reads past the terminator (BytecodeTheorems), escapes in character
    classes can crash the parser, [^a?$] is taken to match everything and a
    class without the zero character for the end of the line
    (UrlFilterTheorems), a null host skips universal actions (BackendTheorems),
    short writes are published and a descriptor is closed twice (StoreTheorems),
    and a controller comes back empty (Deployment).

    ** Fuel

    Unbounded loops take fuel, and running out of it is the separate outcome
    [OutOfFuel].  The parser, the range lists, the epsilon closures, the prefix
    tree, the merger, the compiler and the interpreter compute their own fuel
    from the input, and the theorems show that it is enough.  The subset
    construction takes its fuel as an argument; [convert_language] gives an
    amount, exponential in the size of the NFA, with which it returns; the
    theorems on the composed stages take automata that fit the fuel given.  A
    write that is interrupted again and again is tried [retries] times; the
    theorems on the store hold for every number, and running out is an outcome
    that no reply is made from.

    ** Not modelled

    Logging, timers, the dot printers and the memory accounting; hash functions
    (only the order of hash tables is affected, and it is arbitrary here); JSON,
    CSS and URL parsing, security origins and the kernel, which are parameters;
    of the store, the release of extensions that were handed out, other programs
    that change its files, and the removal of all files while tasks run; of the
    controllers, user scripts, style sheets and message handlers, processes that
    are still being launched, and pages that a web process makes by itself; of
    loads, how the main document and the current document are found from the
    frame (they are arguments); of messages, sync messages, flags and everything
    that is not about extensions.  The encoder's memory, its growth included, is
    a list.  The rest of WebKit takes no part in compiling, storing,
    sending or matching rules. *)

From stdpp Require Export base list numbers sorting.
From Stdlib Require Export ZArith Lia.

#[global] Open Scope Z_scope.

(** ** Outcomes of a run

    [Done a] is a normal return.  [Crash] is a [RELEASE_ASSERT] that fails,
    [RELEASE_ASSERT_NOT_REACHED], or a vector access outside of the vector.
    [OutOfFuel] is produced only by the fuel parameter that stands for an
    unbounded C++ loop: the termination theorems show it does not occur. *)

Inductive outcome (A : Type) : Type :=
| Done (a : A)
| Crash
| OutOfFuel.
Arguments Done {A} a.
Arguments Crash {A}.
Arguments OutOfFuel {A}.

Definition obind {A B} (m : outcome A) (f : A -> outcome B) : outcome B :=
  match m with
  | Done a => f a
  | Crash => Crash
  | OutOfFuel => OutOfFuel
  end.

Declare Scope outcome_scope.
Delimit Scope outcome_scope with outcome.
Notation "'let*' x ':=' m 'in' k" := (obind m (fun x => k))
  (at level 10, x pattern, m at level 100, k at level 200) : outcome_scope.
#[global] Open Scope outcome_scope.

(** [RELEASE_ASSERT(b)]. *)
Definition release_assert (b : bool) : outcome unit :=
  if b then Done tt else Crash.

(** Left fold of a fallible body over a list: [for (x : l) s = body(s, x)]. *)
Fixpoint ofold {A S} (body : S -> A -> outcome S) (s : S) (l : list A) : outcome S :=
  match l with
  | [] => Done s
  | x :: l' => let* s' := body s x in ofold body s' l'
  end.

Lemma obind_Done {A B} (m : outcome A) (f : A -> outcome B) b :
  obind m f = Done b <-> exists a, m = Done a /\ f a = Done b.
Proof. destruct m; naive_solver. Qed.

Lemma ofold_app {A S} (body : S -> A -> outcome S) s l1 l2 :
  ofold body s (l1 ++ l2) = let* s' := ofold body s l1 in ofold body s' l2.
Proof.
  revert s; induction l1 as [|x l1 IH]; intros s; simpl; [done|].
  destruct (body s x); simpl; auto.
Qed.

Lemma ofold_ext {A S} (f g : S -> A -> outcome S) l : (forall s x, x ∈ l -> f s x = g s x) -> forall s, ofold f s l = ofold g s l.
Proof.
  induction l as [|x l IH]; intros Hfg s; [done|]. cbn [ofold]. rewrite Hfg by left. destruct (g s x) as [s'| |]; try done. cbn [obind].
  apply IH. intros s1 y Hy. apply Hfg. by right.
Qed.

Lemma ofold_map {A B S} (f : S -> B -> outcome S) (h : A -> B) l : forall s, ofold f s (map h l) = ofold (fun s x => f s (h x)) s l.
Proof. induction l as [|x l IH]; intros s; [done|]. cbn [ofold map]. destruct (f s (h x)) as [s'| |]; try done. apply IH. Qed.

Lemma ofold_total {A S} (body : S -> A -> outcome S) (I : list A -> S -> Prop) s l :
  (forall done x s, I done s -> done ++ [x] `prefix_of` l -> exists s', body s x = Done s' /\ I (done ++ [x]) s') ->
  I [] s -> exists s', ofold body s l = Done s' /\ I l s'.
Proof.
  intros Hstep. revert s.
  induction l as [|x l IH] using rev_ind; intros s HI; [by exists s|].
  destruct (IH) with (s := s) as (s1 & E1 & I1); [|done|].
  { intros done' y s' HI' Hp. apply Hstep; [done|]. by apply prefix_app_r. }
  destruct (Hstep l x s1 I1) as (s2 & E2 & I2); [done|].
  exists s2. split; [|done]. rewrite ofold_app, E1; simpl. by rewrite E2.
Qed.

(** ** Machine integers

    The widths the code names, as wrap-around on [Z]. *)

Definition u8 (z : Z) : Z := z mod 2 ^ 8.
Definition u16 (z : Z) : Z := z mod 2 ^ 16.
Definition u32 (z : Z) : Z := z mod 2 ^ 32.
Definition u64 (z : Z) : Z := z mod 2 ^ 64.
Definition i8 (z : Z) : Z := (z + 2 ^ 7) mod 2 ^ 8 - 2 ^ 7.
Definition i16 (z : Z) : Z := (z + 2 ^ 15) mod 2 ^ 16 - 2 ^ 15.
Definition i32 (z : Z) : Z := (z + 2 ^ 31) mod 2 ^ 32 - 2 ^ 31.

(** [std::numeric_limits<uint32_t>::max()]. *)
Definition UINT32_MAX : Z := 2 ^ 32 - 1.
Definition INT32_MAX : Z := 2 ^ 31 - 1.
Definition UINT16_MAX : Z := 2 ^ 16 - 1.
Definition UINT64_MAX : Z := 2 ^ 64 - 1.

Lemma u8_small z : 0 <= z < 2 ^ 8 -> u8 z = z.
Proof. apply Z.mod_small. Qed.
Lemma u16_small z : 0 <= z < 2 ^ 16 -> u16 z = z.
Proof. apply Z.mod_small. Qed.
Lemma u32_small z : 0 <= z < 2 ^ 32 -> u32 z = z.
Proof. apply Z.mod_small. Qed.
Lemma i8_small z : - 2 ^ 7 <= z < 2 ^ 7 -> i8 z = z.
Proof. intros. unfold i8. rewrite Z.mod_small; lia. Qed.
Lemma i16_small z : - 2 ^ 15 <= z < 2 ^ 15 -> i16 z = z.
Proof. intros. unfold i16. rewrite Z.mod_small; lia. Qed.
Lemma i32_small z : - 2 ^ 31 <= z < 2 ^ 31 -> i32 z = z.
Proof. intros. unfold i32. rewrite Z.mod_small; lia. Qed.

Lemma i32_u32 z : i32 (u32 z) = i32 z.
Proof. unfold i32, u32. by rewrite Zplus_mod_idemp_l. Qed.
Lemma u32_u32_add a b : u32 (u32 a + b) = u32 (a + b).
Proof. unfold u32. by rewrite Zplus_mod_idemp_l. Qed.
Lemma u8_range z : 0 <= u8 z < 256.
Proof. apply Z.mod_pos_bound. lia. Qed.
Lemma u32_range z : 0 <= u32 z < 2 ^ 32.
Proof. apply Z.mod_pos_bound. lia. Qed.

(** ** Vectors

    [WTF::Vector] as a list, indexed by machine integers.  An access outside
    of the vector is undefined behaviour or a crash in C++: [Crash] here. *)

Definition vsize {A} (v : list A) : Z := Z.of_nat (length v).

Definition vget {A} (v : list A) (i : Z) : outcome A :=
  if i <? 0 then Crash
  else match v !! Z.to_nat i with
       | Some x => Done x
       | None => Crash
       end.

Definition vset {A} (v : list A) (i : Z) (x : A) : outcome (list A) :=
  if (0 <=? i) && (i <? vsize v) then Done (<[Z.to_nat i := x]> v) else Crash.

(** The elements [v[b], ..., v[e-1]], the way a counted loop reads them. *)
Definition vslice {A} (v : list A) (b e : Z) : outcome (list A) :=
  if e <=? b then Done []
  else if (0 <=? b) && (e <=? vsize v)
       then Done (take (Z.to_nat (e - b)) (drop (Z.to_nat b) v))
       else Crash.

Lemma vsize_nonneg {A} (v : list A) : 0 <= vsize v.
Proof. unfold vsize. lia. Qed.

Lemma vsize_app {A} (v w : list A) : vsize (v ++ w) = vsize v + vsize w.
Proof. unfold vsize. rewrite length_app. lia. Qed.

Lemma vsize_cons {A} (x : A) v : vsize (x :: v) = vsize v + 1.
Proof. unfold vsize. simpl. lia. Qed.

Lemma vget_Done {A} (v : list A) i x :
  vget v i = Done x <-> 0 <= i /\ v !! Z.to_nat i = Some x.
Proof.
  unfold vget. destruct (Z.ltb_spec i 0).
  - split; [done|lia].
  - destruct (v !! Z.to_nat i) eqn:E; naive_solver.
Qed.

Lemma vget_total {A} (v : list A) i :
  0 <= i < vsize v -> exists x, vget v i = Done x /\ v !! Z.to_nat i = Some x.
Proof.
  intros Hi. destruct (lookup_lt_is_Some_2 v (Z.to_nat i)) as [x Hx].
  { unfold vsize in Hi. lia. }
  exists x. split; [|done]. apply vget_Done. split; [lia|done].
Qed.

Lemma vget_range {A} (v : list A) i x : vget v i = Done x -> 0 <= i < vsize v.
Proof.
  intros [Hi Hx]%vget_Done. apply lookup_lt_Some in Hx. unfold vsize. lia.
Qed.

Lemma vget_app_l {A} (v w : list A) i : i < vsize v -> vget (v ++ w) i = vget v i.
Proof.
  intros Hi. unfold vget, vsize in *. destruct (Z.ltb_spec i 0); [done|].
  rewrite lookup_app_l; [done|lia].
Qed.

Lemma vget_app_r {A} (v w : list A) i : vsize v <= i -> vget (v ++ w) i = vget w (i - vsize v).
Proof.
  intros Hi. unfold vget, vsize in *.
  destruct (Z.ltb_spec i 0); [lia|]. destruct (Z.ltb_spec (i - Z.of_nat (length v)) 0); [lia|].
  rewrite lookup_app_r by lia.
  by replace (Z.to_nat (i - Z.of_nat (length v))) with (Z.to_nat i - length v)%nat by lia.
Qed.

Lemma vget_app_here {A} (v w : list A) x i : i = vsize v -> vget (v ++ x :: w) i = Done x.
Proof. intros ->. rewrite vget_app_r by lia. by rewrite Z.sub_diag. Qed.

Lemma vset_Done {A} (v : list A) i x :
  0 <= i < vsize v -> vset v i x = Done (<[Z.to_nat i := x]> v).
Proof.
  intros [H1 H2]. unfold vset. apply Z.leb_le in H1. apply Z.ltb_lt in H2.
  by rewrite H1, H2.
Qed.

Lemma vset_inv {A} (v w : list A) i x :
  vset v i x = Done w -> 0 <= i < vsize v /\ w = <[Z.to_nat i := x]> v.
Proof.
  unfold vset. destruct (Z.leb_spec 0 i), (Z.ltb_spec i (vsize v)); simpl; naive_solver lia.
Qed.

Lemma vsize_insert {A} (v : list A) i x : vsize (<[i := x]> v) = vsize v.
Proof. unfold vsize. by rewrite length_insert. Qed.

Lemma vget_insert {A} (v : list A) i j x :
  0 <= i < vsize v ->
  vget (<[Z.to_nat i := x]> v) j = if j =? i then Done x else vget v j.
Proof.
  intros Hi. unfold vget. destruct (Z.ltb_spec j 0), (Z.eqb_spec j i); try lia; try done.
  - subst. rewrite list_lookup_insert_eq; [done|]. unfold vsize in Hi. lia.
  - rewrite list_lookup_insert_ne; [done|lia].
Qed.

Lemma vslice_app {A} (v w : list A) b e :
  0 <= b -> b = vsize v -> e = vsize v + vsize w -> vslice (v ++ w) b e = Done w.
Proof.
  intros H0 Hb He. unfold vslice. destruct (Z.leb_spec e b).
  { destruct w; [done|]. rewrite vsize_cons in He. pose proof (vsize_nonneg w). lia. }
  destruct (Z.leb_spec 0 b); [|lia]. rewrite vsize_app. destruct (Z.leb_spec e (vsize v + vsize w)); [|lia].
  simpl. f_equal. rewrite drop_app_ge by (unfold vsize in *; lia).
  replace (Z.to_nat b - length v)%nat with 0%nat by (unfold vsize in *; lia).
  rewrite drop_0, take_ge; [done|]. unfold vsize in *. lia.
Qed.

Lemma vslice_mono {A} (v w : list A) b e l : vslice v b e = Done l -> vslice (v ++ w) b e = Done l.
Proof.
  unfold vslice. destruct (Z.leb_spec e b); [done|].
  destruct (Z.leb_spec 0 b); [|done]. destruct (Z.leb_spec e (vsize v)); [|done].
  rewrite vsize_app. pose proof (vsize_nonneg w).
  destruct (Z.leb_spec e (vsize v + vsize w)); [|lia]. simpl. intros [= <-]. f_equal.
  unfold vsize in *. rewrite drop_app_le by lia. rewrite take_app_le; [done|].
  rewrite length_drop. lia.
Qed.

Lemma vslice_elem {A} (v : list A) b e l x : vslice v b e = Done l -> x ∈ l -> x ∈ v.
Proof.
  unfold vslice. destruct (e <=? b); [by intros [= <-] ?%elem_of_nil|]. destruct (_ && _); [|done]. intros [= <-] Hx.
  apply elem_of_take in Hx as (i & Hi & _). rewrite lookup_drop in Hi. by eapply list_elem_of_lookup_2.
Qed.

(** ** Automation *)

Create HintDb ce.
#[export] Hint Resolve vsize_nonneg u8_range : ce.
#[export] Hint Rewrite @vsize_app @vsize_cons @vsize_insert : ce.

(** Case analysis on the integer tests of the goal. *)
Ltac ztest :=
  repeat match goal with
  | |- context [?a <? ?b] => destruct (Z.ltb_spec a b)
  | |- context [?a <=? ?b] => destruct (Z.leb_spec a b)
  | |- context [?a =? ?b] => destruct (Z.eqb_spec a b)
  end; simpl in *.

(** The same, on the hypotheses too. *)
Ltac ztest_all :=
  repeat match goal with
  | |- context [?a <? ?b] => destruct (Z.ltb_spec a b)
  | |- context [?a <=? ?b] => destruct (Z.leb_spec a b)
  | |- context [?a =? ?b] => destruct (Z.eqb_spec a b)
  | H : context [?a <? ?b] |- _ => destruct (Z.ltb_spec a b)
  | H : context [?a <=? ?b] |- _ => destruct (Z.leb_spec a b)
  | H : context [?a =? ?b] |- _ => destruct (Z.eqb_spec a b)
  end; simpl in *.

(** Turn the boolean integer tests among the hypotheses into propositions. *)
Ltac zprop :=
  rewrite ?andb_true_iff, ?orb_true_iff, ?negb_true_iff, ?andb_false_iff, ?orb_false_iff,
    ?Z.ltb_lt, ?Z.leb_le, ?Z.eqb_eq, ?Z.ltb_ge, ?Z.leb_gt, ?Z.eqb_neq in *.

(** Invert one bind of a successful run. *)
Ltac obind_inv H :=
  let a := fresh "a" in let E := fresh "E" in
  apply obind_Done in H as (a & E & H).
