(* ===== verification/Containers.v ===== *)
(** * WTF containers and character classes

    [HashSet] (Source/WTF/wtf/HashSet.h) and the ASCII helpers of
    Source/WTF/wtf/ASCIICType.h, as far as the content-extension code uses
    them.

    A hash set is the duplicate-free list of its members in the order in
    which iterating the table enumerates them.  Adding a member may rehash the
    table, so the new enumeration is an arbitrary rearrangement: the class
    [HashOrder] is the only thing the rest of the library knows about it. *)

From S2P Require Import Prelude.

(** [hash_place x s] is the enumeration of the table after inserting the new
    member [x] into a table enumerated as [s]; [hash_rehash s] is the one after
    a removal that left the members [s]. *)
Class HashOrder := {
  hash_place : forall {A : Type}, A -> list A -> list A;
  hash_place_perm : forall {A : Type} (x : A) s, hash_place x s ≡ₚ x :: s;
  hash_rehash : forall {A : Type}, list A -> list A;
  hash_rehash_perm : forall {A : Type} (s : list A), hash_rehash s ≡ₚ s
}.

(** The enumeration in insertion order: one admissible behaviour. *)
#[global] Instance insertion_order : HashOrder | 100 := {
  hash_place _ x s := s ++ [x];
  hash_place_perm _ x s := symmetry (Permutation_cons_append s x);
  hash_rehash _ s := s;
  hash_rehash_perm _ s := reflexivity s
}.

Section HashSet.
Context `{HashOrder} {A : Type} `{EqDecision A}.
Implicit Types (x y : A) (s l : list A).

(** [HashSet::contains]. *)
Definition hs_contains (s : list A) (x : A) : bool := bool_decide (x ∈ s).

(** [HashSet::add(value)]. *)
Definition hs_add (s : list A) (x : A) : list A :=
  if hs_contains s x then s else hash_place x s.

(** [HashSet::add(begin, end)]. *)
Definition hs_add_range (s : list A) (l : list A) : list A := foldl hs_add s l.

Lemma hs_contains_spec s x : hs_contains s x = true <-> x ∈ s.
Proof. unfold hs_contains. apply bool_decide_eq_true. Qed.

Lemma elem_of_hs_add s x y : y ∈ hs_add s x <-> y = x \/ y ∈ s.
Proof.
  unfold hs_add. destruct (hs_contains s x) eqn:E.
  - apply hs_contains_spec in E. naive_solver.
  - rewrite hash_place_perm. apply elem_of_cons.
Qed.

Lemma NoDup_hs_add s x : NoDup s -> NoDup (hs_add s x).
Proof.
  intros Hs. unfold hs_add. destruct (hs_contains s x) eqn:E; [done|].
  rewrite hash_place_perm. constructor; [|done].
  intros Hx%hs_contains_spec. congruence.
Qed.

Lemma elem_of_hs_add_range s l y : y ∈ hs_add_range s l <-> y ∈ l \/ y ∈ s.
Proof.
  unfold hs_add_range. revert s. induction l as [|x l IH]; intros s; simpl.
  - rewrite elem_of_nil. naive_solver.
  - rewrite IH, elem_of_hs_add, elem_of_cons. naive_solver.
Qed.

Lemma NoDup_hs_add_range s l : NoDup s -> NoDup (hs_add_range s l).
Proof.
  unfold hs_add_range. revert s. induction l as [|x l IH]; intros s Hs; simpl; [done|].
  by apply IH, NoDup_hs_add.
Qed.

Lemma hs_add_nonempty s x : hs_add s x <> [].
Proof.
  intros E. assert (Hx : x ∈ hs_add s x) by (apply elem_of_hs_add; auto).
  rewrite E in Hx. by apply not_elem_of_nil in Hx.
Qed.
End HashSet.

#[export] Hint Resolve NoDup_hs_add NoDup_hs_add_range : ce.
#[export] Hint Resolve NoDup_nil_2 : ce.

(** ** ASCIICType.h *)

Definition isASCII (c : Z) : bool := Z.land c (Z.lnot 127) =? 0.
Definition isASCIILower (c : Z) : bool := (97 <=? c) && (c <=? 122).
Definition isASCIIUpper (c : Z) : bool := (65 <=? c) && (c <=? 90).
Definition toASCIILowerUnchecked (c : Z) : Z := Z.lor c 32.
Definition isASCIIAlpha (c : Z) : bool := isASCIILower (toASCIILowerUnchecked c).
Definition isASCIIDigit (c : Z) : bool := (48 <=? c) && (c <=? 57).
Definition isASCIIAlphanumeric (c : Z) : bool := isASCIIDigit c || isASCIIAlpha c.
Definition isASCIIHexDigit (c : Z) : bool :=
  isASCIIDigit c || ((97 <=? toASCIILowerUnchecked c) && (toASCIILowerUnchecked c <=? 102)).
Definition isASCIIOctalDigit (c : Z) : bool := (48 <=? c) && (c <=? 55).

(** [toASCIILower<char>] reads [asciiCaseFoldTable], which maps ['A'..'Z'] to
    ['a'..'z'] and every other byte to itself. *)
Definition toASCIILower (c : Z) : Z := Z.lor c (Z.shiftl (Z.b2z (isASCIIUpper c)) 5).
Definition toASCIIUpper (c : Z) : Z := Z.land c (Z.lnot (Z.shiftl (Z.b2z (isASCIILower c)) 5)).

(** Every statement over the 128 ASCII characters can be decided by running it
    on each of them. *)
Definition ascii_chars : list Z := seqZ 0 128.

Lemma ascii_chars_spec c : c ∈ ascii_chars <-> 0 <= c < 128.
Proof. unfold ascii_chars. rewrite elem_of_seqZ. lia. Qed.

Lemma forall_ascii (P : Z -> bool) :
  forallb P ascii_chars = true -> forall c, 0 <= c < 128 -> P c = true.
Proof.
  intros HP c Hc. rewrite forallb_forall in HP. apply HP, list_elem_of_In, ascii_chars_spec, Hc.
Qed.

Lemma toASCIILower_spec c : 0 <= c < 128 -> toASCIILower c = if isASCIIUpper c then c + 32 else c.
Proof.
  intros Hc. apply Z.eqb_eq. revert c Hc.
  apply (forall_ascii (fun c => toASCIILower c =? if isASCIIUpper c then c + 32 else c)).
  by vm_compute.
Qed.

Lemma toASCIIUpper_spec c : 0 <= c < 128 -> toASCIIUpper c = if isASCIILower c then c - 32 else c.
Proof.
  intros Hc. apply Z.eqb_eq. revert c Hc.
  apply (forall_ascii (fun c => toASCIIUpper c =? if isASCIILower c then c - 32 else c)).
  by vm_compute.
Qed.

Lemma isASCIIAlpha_spec c : 0 <= c < 128 -> isASCIIAlpha c = isASCIIUpper c || isASCIILower c.
Proof.
  intros Hc. apply eqb_prop. revert c Hc.
  apply (forall_ascii (fun c => Bool.eqb (isASCIIAlpha c) (isASCIIUpper c || isASCIILower c))).
  by vm_compute.
Qed.
