(* ===== verification/Strings.v ===== *)
(** * Strings (WTF/wtf/text: WTFString.h, StringBuilder.h)

    A string is its code units with the width of its buffer.  The width is not
    part of equality, but the serialization of selectors depends on it. *)

From stdpp Require Import strings.
From S2P Require Import Prelude Containers.

Record WTFString := mkString { s_is8Bit : bool; s_chars : list Z }.

Definition emptyString : WTFString := mkString true [].

Definition s_length (s : WTFString) : Z := vsize (s_chars s).
Definition s_isEmpty (s : WTFString) : bool := s_length s =? 0.

(** The buffer holds what its width allows. *)
Definition width_ok (s : WTFString) : Prop := Forall (fun c => 0 <= c < if s_is8Bit s then 256 else 65536) (s_chars s).

Definition width_okb (s : WTFString) : bool := forallb (fun c => (0 <=? c) && (c <? if s_is8Bit s then 256 else 65536)) (s_chars s).

Lemma width_okb_sound s : width_okb s = true -> width_ok s.
Proof.
  unfold width_okb, width_ok. rewrite forallb_forall. intros Hs. apply Forall_forall. intros c Hc%list_elem_of_In. apply Hs in Hc.
  apply andb_true_iff in Hc as [H1 H2]. lia.
Qed.

(** [operator==] on strings compares the characters. *)
Definition s_equal (a b : WTFString) : bool := bool_decide (s_chars a = s_chars b).

(** The characters of a literal. *)
Fixpoint literal (s : string) : list Z :=
  match s with
  | EmptyString => []
  | String c s' => Z.of_nat (Ascii.nat_of_ascii c) :: literal s'
  end.

(** [string == "literal"]. *)
Definition s_is (s : WTFString) (l : string) : bool := bool_decide (s_chars s = literal l).

Definition s_literal (l : string) : WTFString := mkString true (literal l).

Definition containsOnlyASCII (s : WTFString) : bool := forallb isASCII (s_chars s).

(** ** StringBuilder

    The builder keeps the string built so far; appending 16-bit characters to
    8-bit ones widens the buffer. *)

Definition sb_append (builder string : WTFString) : WTFString :=
  if s_isEmpty string then builder
  else if s_isEmpty builder then string
  else
    let narrow := s_is8Bit builder &&
                  (s_is8Bit string || ((s_length string =? 1) && forallb (fun c => c <=? 255) (s_chars string))) in
    mkString narrow (s_chars builder ++ s_chars string).

(** [append(char)]. *)
Definition sb_appendChar (builder : WTFString) (c : Z) : WTFString := mkString (s_is8Bit builder) (s_chars builder ++ [c]).

Lemma sb_append_chars a b : s_chars (sb_append a b) = s_chars a ++ s_chars b.
Proof.
  unfold sb_append, s_isEmpty, s_length. destruct a as [wa la], b as [wb lb]. cbn [s_chars]. destruct lb as [|y lb]; [by rewrite app_nil_r|].
  rewrite vsize_cons. pose proof (vsize_nonneg lb). destruct (Z.eqb_spec (vsize lb + 1) 0); [lia|]. destruct la as [|x la]; [done|].
  rewrite vsize_cons. pose proof (vsize_nonneg la). by destruct (Z.eqb_spec (vsize la + 1) 0); [lia|].
Qed.

Lemma Forall_width (n : bool) l : Forall (fun c => 0 <= c < if n then 256 else 65536) l -> Forall (fun c => 0 <= c < 65536) l.
Proof. intros Hl. eapply Forall_impl; [exact Hl|]. intros c Hc. destruct n; lia. Qed.

(** The buffer of the builder holds its characters. *)
Lemma sb_append_width a b : width_ok a -> width_ok b -> width_ok (sb_append a b).
Proof.
  unfold width_ok. intros Ha Hb. unfold sb_append. destruct (s_isEmpty b); [done|]. destruct (s_isEmpty a); [done|]. cbn [s_is8Bit s_chars]. apply Forall_app.
  destruct (s_is8Bit a && _) eqn:E; [|by split; eapply Forall_width].
  apply andb_true_iff in E as [Ea Eb]. rewrite Ea in Ha. split; [done|]. apply orb_true_iff in Eb as [Eb|[_ Eb]%andb_true_iff]; [by rewrite Eb in Hb|].
  rewrite forallb_forall in Eb. apply Forall_forall. intros c Hc. pose proof (Eb c (proj1 (list_elem_of_In _ _) Hc)) as Hle.
  rewrite Forall_forall in Hb. pose proof (Hb c Hc) as Hc'. cbn beta in *. destruct (s_is8Bit b); lia.
Qed.

Lemma sb_appendChar_width a c : 0 <= c < 256 -> width_ok a -> width_ok (sb_appendChar a c).
Proof.
  unfold width_ok. intros Hc Ha. cbn [sb_appendChar s_is8Bit s_chars]. apply Forall_app. split; [done|]. constructor; [destruct (s_is8Bit a); lia|constructor].
Qed.
