(* ===== verification/RangeList.v ===== *)
(** * Sorted range lists (MutableRange.h, MutableRangeList.h)

    A range list keeps disjoint character ranges, each with data, sorted by a
    chain of indices through a vector.  [extend] merges another sorted list of
    ranges into it, splitting ranges where they overlap. *)

From S2P Require Import Prelude Containers.

(** ** The data structure *)

Record MutableRange (D : Type) := mkMutableRange { mr_data : D; mr_nextRangeIndex : Z; mr_first : Z; mr_last : Z }.
Arguments mkMutableRange {D}.
Arguments mr_data {D}.
Arguments mr_nextRangeIndex {D}.
Arguments mr_first {D}.
Arguments mr_last {D}.

(** What a [RangeIterator] of the other list shows at one position. *)
Record OtherRange (E : Type) := mkOtherRange { or_first : Z; or_last : Z; or_data : E }.
Arguments mkOtherRange {E}.
Arguments or_first {E}.
Arguments or_last {E}.
Arguments or_data {E}.

(** The [DataConverter] parameter. *)
Record DataConverter (D E : Type) := mkDataConverter { dc_convert : E -> outcome D; dc_extend : D -> E -> outcome D }.
Arguments mkDataConverter {D E}.
Arguments dc_convert {D E}.
Arguments dc_extend {D E}.

Section MutableRangeList.
Context {D : Type}.

Abbreviation ranges := (list (MutableRange D)).

Definition set_nextRangeIndex (r : MutableRange D) (n : Z) : MutableRange D := mkMutableRange (mr_data r) n (mr_first r) (mr_last r).
Definition set_first (r : MutableRange D) (c : Z) : MutableRange D := mkMutableRange (mr_data r) (mr_nextRangeIndex r) c (mr_last r).
Definition set_data (r : MutableRange D) (d : D) : MutableRange D := mkMutableRange d (mr_nextRangeIndex r) (mr_first r) (mr_last r).

(** [begin()], [operator++] and [end()]: the ranges in the order of the chain. *)
Fixpoint iterate_from (fuel : nat) (v : ranges) (index : Z) : outcome (list (MutableRange D)) :=
  match fuel with
  | O => OutOfFuel
  | S fuel' =>
      let* r := vget v index in
      if mr_nextRangeIndex r =? 0 then Done [r]
      else let* rest := iterate_from fuel' v (mr_nextRangeIndex r) in Done (r :: rest)
  end.

Definition iterate (v : ranges) : outcome (list (MutableRange D)) :=
  match v with [] => Done [] | _ => iterate_from (length v) v 0 end.

Definition appendRange (v : ranges) (lastRangeIndex first last : Z) (data : D) : outcome (ranges * Z) :=
  let newRangeIndex := vsize v in
  let v1 := v ++ [mkMutableRange data 0 first last] in
  if newRangeIndex =? 0 then Done (v1, 0)
  else
    let* r := vget v1 lastRangeIndex in
    let* v2 := vset v1 lastRangeIndex (set_nextRangeIndex r newRangeIndex) in
    Done (v2, newRangeIndex).

(** [insertBetween(left, right, first, last, data)]: the list and the two
    indices, which are passed by reference. *)
Definition insertBetween (v : ranges) (leftRangeIndex rightRangeIndex first last : Z) (data : D) : outcome (ranges * Z * Z) :=
  if rightRangeIndex =? 0 then
    let movedRangeIndex := vsize v in
    let* r0 := vget v 0 in
    let* v2 := vset (v ++ [r0]) 0 (mkMutableRange data movedRangeIndex first last) in
    Done (v2, 0, movedRangeIndex)
  else
    let newRangeIndex := vsize v in
    let v1 := v ++ [mkMutableRange data rightRangeIndex first last] in
    let* l := vget v1 leftRangeIndex in
    let* v2 := vset v1 leftRangeIndex (set_nextRangeIndex l newRangeIndex) in
    Done (v2, newRangeIndex, rightRangeIndex).

Context {E : Type} (converter : DataConverter D E).

(** The loop of [initializeFrom]. *)
Fixpoint initialize_loop (v : ranges) (loopCounter : Z) (other : list (OtherRange E)) : outcome ranges :=
  match other with
  | [] => Done v
  | o :: os =>
      let* d := dc_convert converter (or_data o) in
      initialize_loop (v ++ [mkMutableRange d (loopCounter + 1) (or_first o) (or_last o)]) (loopCounter + 1) os
  end.

Definition initializeFrom (v : ranges) (other : list (OtherRange E)) : outcome ranges :=
  let* v' := initialize_loop v 0 other in
  match last v' with
  | None => Done v'
  | Some r => vset v' (vsize v' - 1) (set_nextRangeIndex r 0)
  end.

(** The variables of the loop of [extend]; [x_other] is what is left of
    [otherIterator..otherEnd]. *)
Record extend_state := mkExtendState {
  x_ranges : ranges;
  x_reachedSelfEnd : bool;
  x_lastSelfRangeIndex : Z;
  x_selfRangeIndex : Z;
  x_other : list (OtherRange E);
  x_otherRangeOffset : Z
}.

(** The part of the two active ranges on the left of where both have
    characters gets a range of its own.  Returns the list, the two indices and
    the offset. *)
Definition split_left (v : ranges) (lastSelf self : Z) (o : OtherRange E) (offset : Z) : outcome (ranges * Z * Z * Z) :=
  let* active := vget v self in
  let otherFirst := or_first o + offset in
  if mr_first active <? otherFirst then
    let* v1 := vset v self (set_first active (i8 otherFirst)) in
    let* (v2, l, s) := insertBetween v1 lastSelf self (mr_first active) (i8 (otherFirst - 1)) (mr_data active) in
    Done (v2, l, s, offset)
  else if otherFirst <? mr_first active then
    let* d := dc_convert converter (or_data o) in
    let* (v1, l, s) := insertBetween v lastSelf self (i8 otherFirst) (i8 (mr_first active - 1)) d in
    let* active' := vget v1 s in
    Done (v1, l, s, i8 (mr_first active' - or_first o))
  else Done (v, lastSelf, self, offset).

(** Both active ranges start at the same character: merge the intersection. *)
Definition merge_active (v : ranges) (lastSelf self : Z) (o : OtherRange E) (os : list (OtherRange E)) (offset : Z) : outcome extend_state :=
  let* active := vget v self in
  if mr_last active =? or_last o then
    let* d := dc_extend converter (mr_data active) (or_data o) in
    let* v1 := vset v self (set_data active d) in
    let next := mr_nextRangeIndex active in
    Done (mkExtendState v1 (next =? 0) self next os 0)
  else if or_last o <? mr_last active then
    let* v1 := vset v self (set_first active (i8 (or_last o + 1))) in
    let* d := dc_extend converter (mr_data active) (or_data o) in
    let* (v2, l, s) := insertBetween v1 lastSelf self (mr_first active) (or_last o) d in
    Done (mkExtendState v2 false l s os 0)
  else
    let* d := dc_extend converter (mr_data active) (or_data o) in
    let* v1 := vset v self (set_data active d) in
    let next := mr_nextRangeIndex active in
    Done (mkExtendState v1 (next =? 0) self next (o :: os) (i8 (mr_last active - or_first o + 1))).

(** One iteration of the [do] loop. *)
Definition extend_step (x : extend_state) : outcome extend_state :=
  match x_other x with
  | [] => Crash
  | o :: os =>
      let v := x_ranges x in
      let* active := vget v (x_selfRangeIndex x) in
      if mr_last active <? or_first o + x_otherRangeOffset x then
        let next := mr_nextRangeIndex active in
        Done (mkExtendState v (next =? 0) (x_selfRangeIndex x) next (o :: os) (x_otherRangeOffset x))
      else if or_last o <? mr_first active then
        let* d := dc_convert converter (or_data o) in
        let* (v1, l, s) := insertBetween v (x_lastSelfRangeIndex x) (x_selfRangeIndex x)
                             (i8 (or_first o + x_otherRangeOffset x)) (or_last o) d in
        Done (mkExtendState v1 (x_reachedSelfEnd x) l s os 0)
      else
        let* (v1, l, s, offset) := split_left v (x_lastSelfRangeIndex x) (x_selfRangeIndex x) o (x_otherRangeOffset x) in
        merge_active v1 l s o os offset
  end.

(** [do ... while (!reachedSelfEnd && otherIterator != otherEnd)]. *)
Fixpoint extend_loop (fuel : nat) (x : extend_state) : outcome extend_state :=
  match fuel with
  | O => OutOfFuel
  | S fuel' =>
      let* x' := extend_step x in
      if negb (x_reachedSelfEnd x') && negb (match x_other x' with [] => true | _ => false end)
      then extend_loop fuel' x' else Done x'
  end.

(** The other ranges past the end of the list. *)
Fixpoint append_rest (v : ranges) (lastSelf : Z) (other : list (OtherRange E)) (offset : Z) : outcome ranges :=
  match other with
  | [] => Done v
  | o :: os =>
      let* d := dc_convert converter (or_data o) in
      let* (v1, l) := appendRange v lastSelf (i8 (or_first o + offset)) (or_last o) d in
      append_rest v1 l os 0
  end.

Definition extend (v : ranges) (other : list (OtherRange E)) : outcome ranges :=
  match other with
  | [] => Done v
  | _ =>
      match v with
      | [] => initializeFrom v other
      | _ =>
          let* x := extend_loop (length v + length other) (mkExtendState v false 0 0 other 0) in
          append_rest (x_ranges x) (x_lastSelfRangeIndex x) (x_other x) (x_otherRangeOffset x)
      end
  end.
End MutableRangeList.
