(* ===== verification/RangeListProofs.v ===== *)
(** * Range lists are sorted maps from characters to data

    The chain of a range list is a sorted list of disjoint ranges; [extend]
    computes the pointwise merge of two such lists. *)

From S2P Require Import Prelude Containers RangeList.

(** ** Sorted lists of ranges *)

Section Ranges.
Context {D : Type}.
Implicit Types (r : OtherRange D) (l L R : list (OtherRange D)).

Definition range_covers (r : OtherRange D) (c : Z) : bool := (or_first r <=? c) && (c <=? or_last r).

Fixpoint ranges_lookup (l : list (OtherRange D)) (c : Z) : option D :=
  match l with
  | [] => None
  | r :: l' => if range_covers r c then Some (or_data r) else ranges_lookup l' c
  end.

(** Sorted, disjoint, not empty, over the ASCII alphabet. *)
Fixpoint ranges_sorted (lo : Z) (l : list (OtherRange D)) : Prop :=
  match l with
  | [] => True
  | r :: l' => lo <= or_first r <= or_last r /\ or_last r < 128 /\ ranges_sorted (or_last r + 1) l'
  end.

Lemma ranges_sorted_weaken lo lo' l : ranges_sorted lo l -> lo' <= lo -> ranges_sorted lo' l.
Proof. destruct l; simpl; [done|]. intuition lia. Qed.

Lemma ranges_lookup_sorted lo l c : ranges_sorted lo l -> c < lo -> ranges_lookup l c = None.
Proof.
  revert lo. induction l as [|r l IH]; intros lo Hs Hc; [done|]. destruct Hs as (H1 & H2 & H3). simpl.
  unfold range_covers. ztest; try lia; eapply IH; eauto; lia.
Qed.

Lemma ranges_lookup_app l l' c : ranges_lookup (l ++ l') c = match ranges_lookup l c with Some d => Some d | None => ranges_lookup l' c end.
Proof. induction l as [|r l IH]; [done|]. simpl. by destruct (range_covers r c). Qed.

(** The end of the last range of a sorted list. *)
Definition ranges_end (lo : Z) (l : list (OtherRange D)) : Z := match last l with None => lo | Some r => or_last r + 1 end.

Lemma ranges_end_cons lo r l : ranges_end lo (r :: l) = ranges_end (or_last r + 1) l.
Proof. unfold ranges_end. rewrite last_cons. by destruct (last l). Qed.

Lemma ranges_end_snoc lo l r : ranges_end lo (l ++ [r]) = or_last r + 1.
Proof. unfold ranges_end. by rewrite last_snoc. Qed.

Lemma ranges_sorted_app lo l l' : ranges_sorted lo (l ++ l') <-> ranges_sorted lo l /\ ranges_sorted (ranges_end lo l) l'.
Proof.
  revert lo. induction l as [|r l IH]; intros lo; [simpl; tauto|]. simpl. rewrite IH, ranges_end_cons. tauto.
Qed.

Lemma ranges_end_ge lo l : ranges_sorted lo l -> lo <= ranges_end lo l.
Proof.
  revert lo. induction l as [|r l IH]; intros lo; [unfold ranges_end; simpl; lia|]. intros (H1 & H2 & H3). rewrite ranges_end_cons.
  specialize (IH _ H3). lia.
Qed.

Lemma ranges_lookup_above lo l c : ranges_sorted lo l -> ranges_end lo l <= c -> ranges_lookup l c = None.
Proof.
  revert lo. induction l as [|r l IH]; intros lo Hs Hc; [done|]. destruct Hs as (H1 & H2 & H3). rewrite ranges_end_cons in Hc.
  pose proof (ranges_end_ge _ _ H3). simpl. unfold range_covers. ztest; try lia; eapply IH; eauto.
Qed.

(** Taking one range out of the middle. *)
Lemma ranges_lookup_mid lo L r R c :
  ranges_sorted lo (L ++ r :: R) ->
  ranges_lookup (L ++ r :: R) c = if range_covers r c then Some (or_data r) else ranges_lookup (L ++ R) c.
Proof.
  intros Hs. rewrite !ranges_lookup_app. apply ranges_sorted_app in Hs as [HL HR]. destruct HR as (H1 & H2 & H3). simpl.
  destruct (range_covers r c) eqn:E; [|done]. unfold range_covers in E. zprop.
  by rewrite (ranges_lookup_above lo) by (done || lia).
Qed.

Lemma ranges_sorted_mid lo L r R : ranges_sorted lo (L ++ r :: R) -> ranges_sorted lo (L ++ R).
Proof.
  rewrite !ranges_sorted_app. intros [HL (H1 & H2 & H3)]. split; [done|]. eapply ranges_sorted_weaken; [done|lia].
Qed.

(** What is outside of the middle range does not cover it. *)
Lemma ranges_lookup_gap lo L r R c :
  ranges_sorted lo (L ++ r :: R) -> range_covers r c = true -> ranges_lookup (L ++ R) c = None.
Proof.
  intros Hs Hc. apply ranges_sorted_app in Hs as [HL (H1 & H2 & H3)]. unfold range_covers in Hc. zprop. rewrite ranges_lookup_app.
  rewrite (ranges_lookup_above lo) by (done || lia). eapply ranges_lookup_sorted; [done|lia].
Qed.

Lemma ranges_lookup_Some l c d : ranges_lookup l c = Some d -> exists r, r ∈ l /\ range_covers r c = true /\ or_data r = d.
Proof.
  induction l as [|r l IH]; simpl; [done|]. destruct (range_covers r c) eqn:E.
  - intros [= <-]. exists r. split; [left|done].
  - intros (r' & ? & ? & ?)%IH. exists r'. split; [by right|done].
Qed.

Lemma ranges_lookup_elem lo l r c : ranges_sorted lo l -> r ∈ l -> range_covers r c = true -> ranges_lookup l c = Some (or_data r).
Proof.
  intros Hs Hr Hc. apply list_elem_of_split in Hr as (L & R & ->). rewrite (ranges_lookup_mid lo) by done. by rewrite Hc.
Qed.

(** A range is not empty, and its data is the data of its first character. *)
Lemma ranges_elem_first lo l r : ranges_sorted lo l -> r ∈ l -> lo <= or_first r <= or_last r /\ or_last r < 128 /\ ranges_lookup l (or_first r) = Some (or_data r).
Proof.
  intros Hs Hr. assert (H : lo <= or_first r <= or_last r /\ or_last r < 128).
  { revert lo Hs. induction l as [|r' l IH]; intros lo Hs; [by apply elem_of_nil in Hr|]. destruct Hs as (H1 & H2 & H3).
    apply elem_of_cons in Hr as [->|Hr]; [done|]. specialize (IH Hr _ H3). lia. }
  destruct H as [H1 H2]. split_and!; try lia. eapply ranges_lookup_elem; eauto. unfold range_covers. ztest; lia.
Qed.
End Ranges.

(** ** The chain of a range list *)

Section Chain.
Context {D : Type}.
Implicit Types (v : list (MutableRange D)) (L R : list (OtherRange D)) (Li Ri : list Z).

Definition link_range (r : OtherRange D) (next : Z) : MutableRange D := mkMutableRange (or_data r) next (or_first r) (or_last r).

(** The positions [idxs] hold the ranges [rs], each pointing to the next and
    the last one to [stop]. *)
Fixpoint segment (v : list (MutableRange D)) (idxs : list Z) (stop : Z) (rs : list (OtherRange D)) : Prop :=
  match idxs, rs with
  | [], [] => True
  | i :: js, r :: rs' => vget v i = Done (link_range r (hd stop js)) /\ segment v js stop rs'
  | _, _ => False
  end.

Lemma segment_length v idxs stop rs : segment v idxs stop rs -> length idxs = length rs.
Proof. revert rs. induction idxs as [|i js IH]; intros [|r rs]; simpl; try done. intros [_ H]. by rewrite (IH _ H). Qed.

Lemma hd_app (d : Z) l l' : hd d (l ++ l') = hd (hd d l') l.
Proof. by destruct l. Qed.

Lemma segment_app v Li Ri stop L R :
  length Li = length L -> segment v (Li ++ Ri) stop (L ++ R) <-> segment v Li (hd stop Ri) L /\ segment v Ri stop R.
Proof.
  revert L. induction Li as [|i js IH]; intros [|r L] Hl; simpl in *; try done; [tauto|].
  rewrite IH by lia. rewrite hd_app. tauto.
Qed.

Lemma segment_bound v idxs stop rs i : segment v idxs stop rs -> i ∈ idxs -> 0 <= i < vsize v.
Proof.
  revert rs. induction idxs as [|j js IH]; intros [|r rs] Hs Hi; simpl in *; try done; [by apply elem_of_nil in Hi|].
  destruct Hs as [H1 H2]. apply elem_of_cons in Hi as [->|Hi]; [by apply vget_range in H1|eauto].
Qed.

Lemma segment_frame v v' idxs stop rs :
  segment v idxs stop rs -> (forall i, i ∈ idxs -> vget v' i = vget v i) -> segment v' idxs stop rs.
Proof.
  revert rs. induction idxs as [|j js IH]; intros [|r rs] Hs Hf; simpl in *; try done.
  destruct Hs as [H1 H2]. split; [rewrite Hf; [done|left]|]. apply IH; [done|]. intros i Hi. apply Hf. by right.
Qed.

(** Redirecting the end of a segment. *)
Lemma segment_snoc v Li i stop L r : segment v (Li ++ [i]) stop (L ++ [r]) -> length Li = length L ->
  segment v Li i L /\ vget v i = Done (link_range r stop).
Proof. intros Hs Hl. apply segment_app in Hs as [H1 H2]; [|done]. simpl in H2. tauto. Qed.

(** The list split at the current position. *)
Record zipped (v : list (MutableRange D)) (Li Ri : list Z) (L R : list (OtherRange D)) : Prop := {
  z_segment : segment v (Li ++ Ri) 0 (L ++ R);
  z_nodup : NoDup (Li ++ Ri);
  z_head : hd 0 (Li ++ Ri) = 0;
  z_length : length Li = length L;
  z_size : length (Li ++ Ri) = length v
}.

Definition last0 (l : list Z) : Z := match last l with Some i => i | None => 0 end.

Lemma zipped_tail_nonzero v Li Ri L R i l l' : zipped v Li Ri L R -> Li ++ Ri = l ++ i :: l' -> l <> [] -> i <> 0.
Proof.
  intros Hz E Hne ->. pose proof (z_head _ _ _ _ _ Hz) as Hh. pose proof (z_nodup _ _ _ _ _ Hz) as Hn. rewrite E in Hh, Hn.
  destruct l as [|j l]; [done|]. simpl in Hh. subst j. simpl in Hn. apply NoDup_cons in Hn as [Hn _]. apply Hn.
  apply elem_of_app. right. left.
Qed.

Lemma zipped_advance v Li i Ri L r R : zipped v Li (i :: Ri) L (r :: R) -> zipped v (Li ++ [i]) Ri (L ++ [r]) R.
Proof. intros [H1 H2 H3 H4 H5]. constructor; rewrite <- ?app_assoc; simpl; try done. rewrite !length_app, H4. done. Qed.

Lemma zipped_active v Li Ri L r R :
  zipped v Li Ri L (r :: R) -> exists i Ri', Ri = i :: Ri' /\ vget v i = Done (link_range r (hd 0 Ri')) /\ (hd 0 Ri' =? 0) = match R with [] => true | _ => false end.
Proof.
  intros Hz. pose proof (z_segment _ _ _ _ _ Hz) as Hs. apply segment_app in Hs as [_ Hs]; [|apply (z_length _ _ _ _ _ Hz)].
  destruct Ri as [|i Ri']; [done|]. destruct Hs as [H1 H2]. exists i, Ri'. split_and!; [done|done|].
  destruct R as [|r' R], Ri' as [|j Ri']; try done. apply Z.eqb_neq. simpl.
  eapply (zipped_tail_nonzero _ _ _ _ _ _ (Li ++ [i]) Ri' Hz); [by rewrite <- app_assoc|]. by destruct Li.
Qed.

(** Changing the active range in place. *)
Lemma zipped_update v Li i Ri L r r' R :
  zipped v Li (i :: Ri) L (r :: R) ->
  exists v', vset v i (link_range r' (hd 0 Ri)) = Done v' /\ zipped v' Li (i :: Ri) L (r' :: R).
Proof.
  intros [H1 H2 H3 H4 H5]. apply segment_app in H1 as [Ha Hb]; [|done]. destruct Hb as [Hi Hb]. pose proof (vget_range _ _ _ Hi) as Hr.
  rewrite vset_Done by done. eexists. split; [done|]. apply NoDup_app in H2 as (Hn1 & Hn2 & Hn3). apply NoDup_cons in Hn3 as [Hn3 Hn4].
  constructor; [| |done|done|by rewrite length_insert].
  - apply segment_app; [done|]. split; [|split].
    + eapply segment_frame; [done|]. intros j Hj. rewrite vget_insert by done.
      destruct (Z.eqb_spec j i) as [->|]; [|done]. exfalso. apply (Hn2 i Hj). left.
    + rewrite vget_insert by done. by rewrite Z.eqb_refl.
    + eapply segment_frame; [done|]. intros j Hj. rewrite vget_insert by done. destruct (Z.eqb_spec j i) as [->|]; done.
  - apply NoDup_app. split_and!; [done|done|]. by constructor.
Qed.

(** Appending one element and replacing another. *)
Lemma vget_link {A} (v : list A) i x y j :
  0 <= i < vsize v -> 0 <= j <= vsize v ->
  vget (<[Z.to_nat i := x]> (v ++ [y])) j = if j =? i then Done x else if j =? vsize v then Done y else vget v j.
Proof.
  intros Hi Hj. rewrite vget_insert by (rewrite vsize_app; change (vsize [y]) with 1; lia).
  destruct (j =? i); [done|]. destruct (Z.eqb_spec j (vsize v)) as [->|]; [by rewrite vget_app_here|]. apply vget_app_l. lia.
Qed.

Lemma vset_link {A} (v : list A) i x y : 0 <= i < vsize v -> vset (v ++ [y]) i x = Done (<[Z.to_nat i := x]> (v ++ [y])).
Proof. intros Hi. apply vset_Done. rewrite vsize_app. change (vsize [y]) with 1. lia. Qed.

Lemma zipped_bound v Li Ri L R j : zipped v Li Ri L R -> j ∈ Li ++ Ri -> 0 <= j < vsize v.
Proof. intros Hz Hj. eapply segment_bound; [apply (z_segment _ _ _ _ _ Hz)|done]. Qed.

Lemma zipped_fresh v Li Ri L R : zipped v Li Ri L R -> vsize v ∉ Li ++ Ri.
Proof. intros Hz Hj%(zipped_bound _ _ _ _ _ _ Hz). lia. Qed.

(** Writing a new cell at the end and redirecting the cell [left] to it. *)
Lemma zipped_link v Li left Ri L r0 R r :
  zipped v (Li ++ [left]) Ri (L ++ [r0]) R ->
  zipped (<[Z.to_nat left := link_range r0 (vsize v)]> (v ++ [link_range r (hd 0 Ri)])) ((Li ++ [left]) ++ [vsize v]) Ri
         ((L ++ [r0]) ++ [r]) R.
Proof.
  intros Hz. pose proof Hz as [H1 H2 H3 H4 H5]. pose proof (zipped_fresh _ _ _ _ _ Hz) as Hfresh.
  pose proof (zipped_bound _ _ _ _ _ left Hz ltac:(apply elem_of_app; left; apply elem_of_app; right; left)) as Hlr.
  apply segment_app in H1 as [Ha Hb]; [|done]. assert (H4' : length Li = length L) by (rewrite !length_app in H4; simpl in H4; lia).
  destruct (segment_snoc _ _ _ _ _ _ Ha H4') as [Ha1 Hleft].
  apply NoDup_app in H2 as (Hn1 & Hn2 & Hn3). apply NoDup_app in Hn1 as (Hn1 & Hn4 & _).
  assert (Hget : forall j, j ∈ (Li ++ [left]) ++ Ri -> j <> left ->
    vget (<[Z.to_nat left := link_range r0 (vsize v)]> (v ++ [link_range r (hd 0 Ri)])) j = vget v j).
  { intros j Hj Hne. pose proof (zipped_bound _ _ _ _ _ _ Hz Hj). rewrite vget_link by lia. ztest; lia || done. }
  constructor.
  - apply segment_app; [rewrite !length_app in *; simpl in *; lia|]. split.
    + apply segment_app; [done|]. split.
      * apply segment_app; [done|]. split.
        -- eapply segment_frame; [exact Ha1|]. intros j Hj. apply Hget; [rewrite !elem_of_app; auto|]. intros ->. apply (Hn4 left Hj). left.
        -- simpl. rewrite vget_link by lia. by rewrite Z.eqb_refl.
      * simpl. rewrite vget_link by lia. rewrite Z.eqb_refl. destruct (Z.eqb_spec (vsize v) left); [lia|done].
    + eapply segment_frame; [exact Hb|]. intros j Hj. apply Hget; [rewrite !elem_of_app; auto|].
      intros ->. apply (Hn2 left); [|done]. apply elem_of_app. right. left.
  - rewrite not_elem_of_app in Hfresh. apply NoDup_app. split_and!; [apply NoDup_app; split_and!; [apply NoDup_app; split_and!; [done|done|apply NoDup_singleton]| |apply NoDup_singleton]| |done].
    + intros j Hj ->%list_elem_of_singleton. tauto.
    + intros j [Hj| ->%list_elem_of_singleton]%elem_of_app; [by apply Hn2|tauto].
  - rewrite <- !app_assoc in *. destruct Li; done.
  - rewrite !length_app in *. simpl in *. lia.
  - rewrite length_insert, !length_app in *. simpl in *. lia.
Qed.

(** Inserting in front: the first range moves to the end of the vector. *)
Lemma zipped_insert_front v Ri R f l d :
  zipped v [] Ri [] R -> R <> [] ->
  exists v' Ri', insertBetween v 0 (hd 0 Ri) f l d = Done (v', 0, hd 0 Ri') /\ zipped v' [0] Ri' [mkOtherRange f l d] R.
Proof.
  intros Hz HR. pose proof Hz as [H1 H2 H3 H4 H5]. pose proof (zipped_fresh _ _ _ _ _ Hz) as Hfresh.
  destruct R as [|r R]; [done|]. destruct (zipped_active _ _ _ _ _ _ Hz) as (i & Ri' & -> & Hi & _). pose proof (vget_range _ _ _ Hi) as Hir.
  simpl in H3. subst i. unfold insertBetween. simpl hd. rewrite Z.eqb_refl, Hi. cbn [obind]. rewrite vset_link by lia. cbn [obind].
  eexists _, (vsize v :: Ri'). split; [done|]. destruct H1 as [_ Hb]. simpl app in *. apply NoDup_cons in H2 as [Hn1 Hn2].
  rewrite not_elem_of_cons in Hfresh. constructor; simpl; [| |done|done|rewrite length_insert, length_app; simpl in *; lia].
  - rewrite !vget_link by lia. rewrite !Z.eqb_refl. destruct (Z.eqb_spec (vsize v) 0); [lia|]. split_and!; [done|done|].
    eapply segment_frame; [done|]. intros j Hj. pose proof (zipped_bound _ _ _ _ _ j Hz ltac:(simpl; by right)).
    rewrite vget_link by lia. ztest; try lia; try done. by subst.
  - constructor; [rewrite not_elem_of_cons; split; [lia|done]|]. constructor; tauto.
Qed.

(** A new range between the two parts. *)
Lemma zipped_insert v Li Ri L R f l d :
  zipped v Li Ri L R -> R <> [] ->
  exists v' Li' Ri', insertBetween v (last0 Li) (hd 0 Ri) f l d = Done (v', last0 Li', hd 0 Ri') /\
    zipped v' Li' Ri' (L ++ [mkOtherRange f l d]) R.
Proof.
  intros Hz HR. destruct Li as [|left Li _] using rev_ind.
  - pose proof (z_length _ _ _ _ _ Hz). destruct L; [|done]. destruct (zipped_insert_front v Ri R f l d Hz HR) as (v' & Ri' & E & Hz').
    exists v', [0], Ri'. done.
  - pose proof (z_length _ _ _ _ _ Hz) as Hl. destruct L as [|r0 L _] using rev_ind; [by rewrite length_app in Hl; simpl in Hl; lia|].
    destruct R as [|r R]; [done|]. destruct (zipped_active _ _ _ _ _ _ Hz) as (i & Ri' & -> & Hi & _).
    assert (Hi0 : i <> 0) by (eapply (zipped_tail_nonzero _ _ _ _ _ i (Li ++ [left]) Ri' Hz); [done|by destruct Li]).
    pose proof (zipped_bound _ _ _ _ _ left Hz ltac:(apply elem_of_app; left; apply elem_of_app; right; left)) as Hlr.
    pose proof (z_segment _ _ _ _ _ Hz) as Hs. apply segment_app in Hs as [Ha _]; [|done].
    apply segment_snoc in Ha as [_ Hleft]; [|rewrite !length_app in Hl; simpl in Hl; lia].
    unfold insertBetween, last0. rewrite last_snoc. simpl hd. destruct (Z.eqb_spec i 0); [done|].
    rewrite vget_app_l by lia. rewrite Hleft. cbn [obind]. rewrite vset_link by lia. cbn [obind].
    eexists _, ((Li ++ [left]) ++ [vsize v]), (i :: Ri'). rewrite last_snoc. split; [done|].
    apply (zipped_link v Li left (i :: Ri') L r0 (r :: R) (mkOtherRange f l d) Hz).
Qed.

(** A new range at the end. *)
Lemma zipped_append v Li L f l d :
  zipped v Li [] L [] -> L <> [] ->
  exists v' Li', appendRange v (last0 Li) f l d = Done (v', last0 Li') /\ zipped v' Li' [] (L ++ [mkOtherRange f l d]) [].
Proof.
  intros Hz HL. pose proof (z_length _ _ _ _ _ Hz) as Hl.
  destruct L as [|r0 L _] using rev_ind; [done|]. destruct Li as [|left Li _] using rev_ind; [by rewrite length_app in Hl; simpl in Hl; lia|].
  pose proof (zipped_bound _ _ _ _ _ left Hz ltac:(apply elem_of_app; left; apply elem_of_app; right; left)) as Hlr.
  pose proof (z_segment _ _ _ _ _ Hz) as Hs. apply segment_app in Hs as [Ha _]; [|done].
  apply segment_snoc in Ha as [_ Hleft]; [|rewrite !length_app in Hl; simpl in Hl; lia].
  unfold appendRange, last0. rewrite last_snoc. destruct (Z.eqb_spec (vsize v) 0); [lia|].
  rewrite vget_app_l by lia. rewrite Hleft. cbn [obind]. rewrite vset_link by lia. cbn [obind].
  eexists _, ((Li ++ [left]) ++ [vsize v]). rewrite last_snoc. split; [done|].
  apply (zipped_link v Li left [] L r0 [] (mkOtherRange f l d) Hz).
Qed.

(** ** Well-formed lists *)

(** The list [v] represents the ranges [l], in order. *)
Definition represents (v : list (MutableRange D)) (l : list (OtherRange D)) : Prop :=
  exists idxs, zipped v [] idxs [] l.

Lemma represents_nil : represents [] [].
Proof. exists []. constructor; simpl; try done. constructor. Qed.

Lemma zipped_represents v Li Ri L R : zipped v Li Ri L R -> represents v (L ++ R).
Proof. intros [H1 H2 H3 H4 H5]. by exists (Li ++ Ri). Qed.

Lemma represents_empty v l : represents v l -> v = [] <-> l = [].
Proof.
  intros [idxs [H1 _ _ _ H5]]. apply segment_length in H1. simpl in *. destruct v, l; simpl in *; split; intros; try done; lia.
Qed.

Lemma iterate_segment v idxs rs fuel i :
  segment v (i :: idxs) 0 rs -> Forall (fun j => j <> 0) idxs -> (length idxs < fuel)%nat ->
  exists l, iterate_from fuel v i = Done l /\ map (fun r => mkOtherRange (mr_first r) (mr_last r) (mr_data r)) l = rs.
Proof.
  revert i rs fuel. induction idxs as [|j idxs IH]; intros i rs fuel Hs Hn Hf; (destruct fuel as [|fuel]; [lia|]); destruct rs as [|r rs]; try done;
    destruct Hs as [Hi Hs]; cbn [iterate_from]; rewrite Hi; cbn [obind link_range mr_nextRangeIndex hd].
  - destruct rs; [|done]. eexists. split; [done|]. simpl. by destruct r.
  - apply Forall_cons in Hn as [Hj Hn]. destruct (Z.eqb_spec j 0); [done|].
    destruct (IH j rs fuel Hs Hn) as (l & -> & E); [simpl in Hf; lia|]. eexists. split; [done|]. simpl. rewrite E. by destruct r.
Qed.

(** Iterating over the list shows its ranges in order. *)
Lemma iterate_represents v l :
  represents v l -> exists rs, iterate v = Done rs /\ map (fun r => mkOtherRange (mr_first r) (mr_last r) (mr_data r)) rs = l.
Proof.
  intros Hr. unfold iterate. destruct v as [|x v].
  { exists []. split; [done|]. by rewrite (proj1 (represents_empty _ _ Hr) eq_refl). }
  destruct Hr as [idxs Hz]. pose proof Hz as [H1 H2 H3 H4 H5]. cbn [app] in *. destruct idxs as [|i idxs]; [done|]. simpl in H3. subst i.
  apply (iterate_segment (x :: v) idxs l (length (x :: v)) 0); [done| |simpl in *; lia].
  apply Forall_forall. intros j Hj ->. apply NoDup_cons in H2 as [? _]. done.
Qed.

End Chain.

(** ** Merging *)

Section Merge.
Context {D E : Type} (cv : E -> D) (ex : D -> E -> D).

(** What merging makes of the data of a character. *)
Definition merged (d : option D) (e : option E) : option D :=
  match e with
  | None => d
  | Some e => match d with None => Some (cv e) | Some d => Some (ex d e) end
  end.

Context (self0 : Z -> option D) (other0 : list (OtherRange E)).

(** The first character that is not merged yet. *)
Definition position (O : list (OtherRange E)) (offset : Z) : Z :=
  match O with [] => 128 | o :: _ => or_first o + offset end.

(** The list holds the merged data up to the position, the original data from
    it on; [O] is what remains of the other list. *)
Record merging (L R : list (OtherRange D)) (O : list (OtherRange E)) (offset : Z) : Prop := {
  mg_sorted : ranges_sorted 0 (L ++ R);
  mg_other : match O with
             | [] => True
             | o :: os => 0 <= offset /\ 0 <= or_first o /\ or_first o + offset <= or_last o < 128 /\ ranges_sorted (or_last o + 1) os
             end;
  mg_done : ranges_end 0 L <= position O offset;
  mg_lookup : forall c, 0 <= c < 128 -> ranges_lookup (L ++ R) c =
                if c <? position O offset then merged (self0 c) (ranges_lookup other0 c) else self0 c;
  mg_rest : forall c, position O offset <= c < 128 -> ranges_lookup other0 c = ranges_lookup O c
}.

Lemma position_os (o : OtherRange E) (os : list (OtherRange E)) offset :
  or_first o + offset <= or_last o < 128 -> ranges_sorted (or_last o + 1) os -> or_last o < position os 0 <= 128.
Proof. destruct os as [|o' os]; simpl; [lia|]. intros H (H1 & H2 & _). lia. Qed.

(** It is enough to look at the characters between the two positions. *)
Lemma merging_step L R O offset L' R' O' offset' :
  merging L R O offset -> position O offset <= position O' offset' ->
  ranges_sorted 0 (L' ++ R') ->
  match O' with
  | [] => True
  | o :: os => 0 <= offset' /\ 0 <= or_first o /\ or_first o + offset' <= or_last o < 128 /\ ranges_sorted (or_last o + 1) os
  end ->
  ranges_end 0 L' <= position O' offset' ->
  (forall c, 0 <= c < 128 -> ranges_lookup (L' ++ R') c =
     if (position O offset <=? c) && (c <? position O' offset') then merged (ranges_lookup (L ++ R) c) (ranges_lookup O c)
     else ranges_lookup (L ++ R) c) ->
  (forall c, position O' offset' <= c < 128 -> ranges_lookup O c = ranges_lookup O' c) ->
  merging L' R' O' offset'.
Proof.
  intros [H1 H2 H3 H4 H5] Hp Hs Ho He Hl Hr. constructor; [done|done|done| |].
  - intros c Hc. rewrite Hl by done. rewrite H4 by done. ztest; try lia; try done. by rewrite H5 by lia.
  - intros c Hc. rewrite H5 by lia. by apply Hr.
Qed.

(** The lookup in the rest of the other list. *)
Lemma other_lookup (o : OtherRange E) (os : list (OtherRange E)) offset c :
  or_first o + offset <= or_last o < 128 -> 0 <= offset -> ranges_sorted (or_last o + 1) os -> or_first o + offset <= c ->
  ranges_lookup (o :: os) c = if c <=? or_last o then Some (or_data o) else ranges_lookup os c.
Proof. intros H1 H2 H3 H4. simpl. unfold range_covers. ztest; lia || done. Qed.

Lemma os_lookup_before (o : OtherRange E) (os : list (OtherRange E)) offset c :
  or_first o + offset <= or_last o < 128 -> ranges_sorted (or_last o + 1) os -> c < position os 0 -> c < 128 -> ranges_lookup os c = None.
Proof.
  intros H1 H2 H3 H4. destruct os as [|o' os]; [done|]. simpl in H3. destruct H2 as (H5 & H6 & H7).
  simpl. unfold range_covers. ztest; try lia; eapply ranges_lookup_sorted; eauto; lia.
Qed.

Lemma os_ok (o : OtherRange E) (os : list (OtherRange E)) offset :
  0 <= or_first o -> or_first o + offset <= or_last o < 128 -> 0 <= offset -> ranges_sorted (or_last o + 1) os ->
  match os with
  | [] => True
  | o :: os => 0 <= 0 /\ 0 <= or_first o /\ or_first o + 0 <= or_last o < 128 /\ ranges_sorted (or_last o + 1) os
  end.
Proof. intros H1 H2 H3 H4. destruct os as [|o' os]; [done|]. destruct H4 as (H5 & H6 & H7). split_and!; try lia; done. Qed.

Implicit Types (L R : list (OtherRange D)).

(** The active range lies before the other range. *)
Lemma merging_advance L r R o os offset :
  merging L (r :: R) (o :: os) offset -> or_last r < or_first o + offset -> merging (L ++ [r]) R (o :: os) offset.
Proof.
  intros [H1 H2 H3 H4 H5] Hlt. constructor; rewrite <- ?app_assoc; try done. rewrite ranges_end_snoc. simpl. lia.
Qed.

(** The other range lies before the active range, or there is none. *)
Lemma merging_insert L R o os offset :
  merging L R (o :: os) offset -> ranges_sorted (or_last o + 1) R ->
  merging (L ++ [mkOtherRange (or_first o + offset) (or_last o) (cv (or_data o))]) R os 0.
Proof.
  intros Hm HR. pose proof Hm as [H1 (Ho1 & Ho2 & Ho3 & Ho4) H3 H4 H5]. simpl in H3. set (new := mkOtherRange _ _ _).
  pose proof (position_os o os offset Ho3 Ho4) as Hp.
  assert (Hs : ranges_sorted 0 (L ++ new :: R)).
  { apply ranges_sorted_app in H1 as [HL _]. apply ranges_sorted_app. split; [done|]. simpl. split_and!; try lia; done. }
  eapply merging_step; [exact Hm|simpl; lia|by rewrite <- app_assoc|by eapply os_ok|rewrite ranges_end_snoc; simpl; lia| |].
  - intros c Hc. rewrite <- app_assoc. simpl app. rewrite (ranges_lookup_mid 0) by done. simpl position.
    assert (Hol : or_first o + offset <= c -> ranges_lookup (o :: os) c = if c <=? or_last o then Some (or_data o) else ranges_lookup os c)
      by (intros; by eapply other_lookup). set (X := ranges_lookup (o :: os) c) in *.
    destruct (range_covers new c) eqn:Ec; unfold range_covers in Ec; simpl in Ec.
    + rewrite (ranges_lookup_gap 0 L new R c Hs) by done. zprop. rewrite Hol by lia. ztest; lia || done.
    + apply andb_false_iff in Ec. rewrite !Z.leb_gt in Ec.
      destruct (Z.leb_spec (or_first o + offset) c), (Z.ltb_spec c (position os 0)); simpl; try done.
      rewrite Hol, (os_lookup_before o os offset) by (done || lia). ztest; lia || done.
  - intros c Hc. rewrite other_lookup with (offset := offset) by (done || lia). ztest; try lia. done.
Qed.

(** The active range starts before the other one. *)
Lemma merging_split_self L r R o os offset :
  merging L (r :: R) (o :: os) offset -> or_first r < or_first o + offset <= or_last r ->
  merging (L ++ [mkOtherRange (or_first r) (or_first o + offset - 1) (or_data r)])
          (mkOtherRange (or_first o + offset) (or_last r) (or_data r) :: R) (o :: os) offset.
Proof.
  intros Hm Hlt. pose proof Hm as [H1 H2 H3 H4 H5]. set (a := mkOtherRange _ _ _). set (b := mkOtherRange _ _ _).
  assert (Hs : ranges_sorted 0 (L ++ a :: b :: R)).
  { apply ranges_sorted_app in H1 as [HL (Hr1 & Hr2 & Hr3)]. apply ranges_sorted_app. split; [done|]. simpl. split_and!; try lia; done. }
  eapply merging_step; [exact Hm|lia|by rewrite <- app_assoc|done|rewrite ranges_end_snoc; simpl; lia| |done].
  intros c Hc. rewrite <- app_assoc. simpl app. rewrite (ranges_lookup_mid 0) by done. rewrite (ranges_lookup_mid 0) by (eapply ranges_sorted_mid; done).
  rewrite (ranges_lookup_mid 0 L r R) by done. unfold range_covers. simpl. ztest; lia || done.
Qed.

(** The other range starts before the active one. *)
Lemma merging_split_other L r R o os offset :
  merging L (r :: R) (o :: os) offset -> or_first o + offset < or_first r <= or_last o ->
  merging (L ++ [mkOtherRange (or_first o + offset) (or_first r - 1) (cv (or_data o))]) (r :: R) (o :: os) (or_first r - or_first o).
Proof.
  intros Hm Hlt. pose proof Hm as [H1 (Ho1 & Ho2 & Ho3 & Ho4) H3 H4 H5]. simpl in H3. set (new := mkOtherRange _ _ _).
  assert (Hs : ranges_sorted 0 (L ++ new :: r :: R)).
  { apply ranges_sorted_app in H1 as [HL (Hr1 & Hr2 & Hr3)]. apply ranges_sorted_app. split; [done|]. simpl. split_and!; try lia; done. }
  eapply merging_step; [exact Hm|simpl; lia|by rewrite <- app_assoc| |rewrite ranges_end_snoc; simpl; lia| |done].
  - split_and!; try lia; done.
  - intros c Hc. rewrite <- app_assoc. simpl app. rewrite (ranges_lookup_mid 0 L new) by done. simpl position.
    assert (Hol : or_first o + offset <= c -> ranges_lookup (o :: os) c = if c <=? or_last o then Some (or_data o) else ranges_lookup os c)
      by (intros; by eapply other_lookup). set (X := ranges_lookup (o :: os) c) in *.
    destruct (range_covers new c) eqn:Ec; unfold range_covers in Ec; simpl in Ec.
    + rewrite (ranges_lookup_gap 0 L new (r :: R) c Hs) by done. zprop. rewrite Hol by lia. ztest; lia || done.
    + apply andb_false_iff in Ec. rewrite !Z.leb_gt in Ec. generalize (ranges_lookup (L ++ r :: R) c). intros y. ztest; lia || done.
Qed.

(** Both start together; the data is merged up to the end of the shorter. *)
Lemma merging_meet L r R o os offset last rest O' offset' :
  merging L (r :: R) (o :: os) offset -> or_first r = or_first o + offset -> last = Z.min (or_last r) (or_last o) ->
  rest = (if or_last o <? or_last r then mkOtherRange (or_last o + 1) (or_last r) (or_data r) :: R else R) ->
  (O', offset') = (if or_last r <? or_last o then (o :: os, or_last r - or_first o + 1) else (os, 0)) ->
  merging (L ++ [mkOtherRange (or_first r) last (ex (or_data r) (or_data o))]) rest O' offset'.
Proof.
  intros Hm Hf -> -> HO. pose proof Hm as [H1 (Ho1 & Ho2 & Ho3 & Ho4) H3 H4 H5]. simpl in H3. set (new := mkOtherRange _ _ _).
  pose proof (position_os o os offset Ho3 Ho4) as Hp. pose proof H1 as [HL (Hr1 & Hr2 & Hr3)]%ranges_sorted_app.
  assert (Hpos : Z.min (or_last r) (or_last o) < position O' offset' <= 128 /\ (position O' offset' = or_last r + 1 \/ O' = os /\ offset' = 0)).
  { destruct (or_last r <? or_last o) eqn:Eo; injection HO as -> ->; zprop; simpl; [split; [lia|left; lia]|split; [lia|by right]]. }
  assert (Hs : ranges_sorted 0 (L ++ new :: (if or_last o <? or_last r then mkOtherRange (or_last o + 1) (or_last r) (or_data r) :: R else R))).
  { apply ranges_sorted_app. split; [done|]. simpl. destruct (Z.ltb_spec (or_last o) (or_last r)); simpl; split_and!; try lia; try done.
    eapply ranges_sorted_weaken; [done|lia]. }
  eapply merging_step; [exact Hm|simpl; lia|by rewrite <- app_assoc| |rewrite ranges_end_snoc; simpl; lia| |].
  - destruct (or_last r <? or_last o) eqn:Eo; injection HO as -> ->; zprop; [split_and!; try lia; done|by eapply os_ok].
  - intros c Hc. rewrite <- app_assoc. simpl app. rewrite (ranges_lookup_mid 0 L new) by done. rewrite (ranges_lookup_mid 0 L r R) by done.
    assert (Htail : ranges_lookup (L ++ (if or_last o <? or_last r then mkOtherRange (or_last o + 1) (or_last r) (or_data r) :: R else R)) c =
      if (or_last o <? c) && (c <=? or_last r) && (or_last o <? or_last r) then Some (or_data r) else ranges_lookup (L ++ R) c).
    { destruct (or_last o <? or_last r) eqn:Elt; [|by rewrite andb_false_r]. apply ranges_sorted_mid in Hs.
      rewrite (ranges_lookup_mid 0) by done. unfold range_covers. simpl. ztest; lia || done. }
    assert (Hol : or_first o + offset <= c -> ranges_lookup (o :: os) c = if c <=? or_last o then Some (or_data o) else ranges_lookup os c)
      by (intros; by eapply other_lookup). set (X := ranges_lookup (o :: os) c) in *.
    rewrite Htail. unfold range_covers. simpl. destruct Hpos as [Hpos1 Hpos2].
    destruct (Z.ltb_spec (or_last r) (or_last o)); injection HO as -> ->; simpl in Hpos1, Hpos2 |- *.
    + destruct (Z.leb_spec (or_first o + offset) c); [rewrite Hol by lia|]; ztest; lia || done.
    + assert (Hbefore : or_last o < c -> c < position os 0 -> ranges_lookup os c = None) by (intros; apply (os_lookup_before o os offset); done || lia).
      destruct (Z.leb_spec (or_first o + offset) c); [rewrite Hol by lia|ztest; lia || done].
      destruct (Z.leb_spec c (or_last o)); [|destruct (Z.ltb_spec c (position os 0)); [rewrite Hbefore by lia|]]; ztest; lia || done.
  - intros c Hc. destruct (Z.ltb_spec (or_last r) (or_last o)); injection HO as -> ->; [done|].
    rewrite other_lookup with (offset := offset) by (done || lia). ztest; try lia. done.
Qed.
End Merge.

(** ** [extend] merges *)

Section Extend.
Context {D E : Type} (converter : DataConverter D E) (cv : E -> D) (ex : D -> E -> D).
Context (self0 : Z -> option D) (other0 : list (OtherRange E)).
Context (Hcv : forall o, o ∈ other0 -> dc_convert converter (or_data o) = Done (cv (or_data o))).
Context (Hex : forall d o, o ∈ other0 -> dc_extend converter d (or_data o) = Done (ex d (or_data o))).

Abbreviation is_nil l := (match l with [] => true | _ => false end).

(** The state of the loop with its ghost split. *)
Record loop_ok (x : extend_state) (Li Ri : list Z) (L R : list (OtherRange D)) : Prop := {
  lo_zipped : zipped (x_ranges x) Li Ri L R;
  lo_merging : merging cv ex self0 other0 L R (x_other x) (x_otherRangeOffset x);
  lo_last : x_lastSelfRangeIndex x = last0 Li;
  lo_self : x_selfRangeIndex x = hd 0 Ri;
  lo_end : x_reachedSelfEnd x = is_nil R;
  lo_elem : Forall (fun o => o ∈ other0) (x_other x);
  lo_nonempty : L ++ R <> []
}.

Definition loop_measure (x : extend_state (D := D) (E := E)) (R : list (OtherRange D)) : nat := (length R + length (x_other x))%nat.

Lemma last0_snoc (l : list Z) i : last0 (l ++ [i]) = i.
Proof. unfold last0. by rewrite last_snoc. Qed.

(** The ranges split off on the left. *)
Lemma split_left_spec v Li Ri L r R o os offset :
  zipped v Li Ri L (r :: R) -> merging cv ex self0 other0 L (r :: R) (o :: os) offset -> o ∈ other0 ->
  or_first o + offset <= or_last r -> or_first r <= or_last o ->
  exists v' Li' Ri' L' r' offset',
    split_left converter v (last0 Li) (hd 0 Ri) o offset = Done (v', last0 Li', hd 0 Ri', offset') /\
    zipped v' Li' Ri' L' (r' :: R) /\ merging cv ex self0 other0 L' (r' :: R) (o :: os) offset' /\
    or_first r' = or_first o + offset' /\ or_last r' = or_last r.
Proof.
  intros Hz Hm Ho Hl1 Hl2. destruct (zipped_active _ _ _ _ _ _ Hz) as (i & Ri' & -> & Hi & _).
  pose proof (mg_other _ _ _ _ _ _ _ _ Hm) as (Ho1 & Ho2 & Ho3 & Ho4).
  pose proof (mg_sorted _ _ _ _ _ _ _ _ Hm) as [HL (Hr1 & Hr2 & Hr3)]%ranges_sorted_app.
  pose proof (ranges_end_ge _ _ HL) as HL0.
  unfold split_left. simpl hd. rewrite Hi. cbn [obind link_range mr_first mr_last mr_data mr_nextRangeIndex].
  destruct (Z.ltb_spec (or_first r) (or_first o + offset)).
  - unfold set_first, link_range. cbn [mr_data mr_nextRangeIndex mr_last]. rewrite !i8_small by lia.
    destruct (zipped_update v Li i Ri' L r (mkOtherRange (or_first o + offset) (or_last r) (or_data r)) R Hz) as (v1 & E1 & Hz1).
    unfold link_range in E1. cbn [or_data or_first or_last] in E1. rewrite E1. cbn [obind].
    destruct (zipped_insert v1 Li (i :: Ri') L _ (or_first r) (or_first o + offset - 1) (or_data r) Hz1) as (v2 & Li2 & Ri2 & E2 & Hz2); [done|].
    simpl hd in E2. rewrite E2. cbn [obind]. eexists _, _, _, _, _, _. split; [done|]. split; [exact Hz2|].
    split; [apply merging_split_self; [done|lia]|]. simpl. lia.
  - destruct (Z.ltb_spec (or_first o + offset) (or_first r)).
    + rewrite Hcv by done. cbn [obind]. rewrite !i8_small by lia.
      destruct (zipped_insert v Li (i :: Ri') L _ (or_first o + offset) (or_first r - 1) (cv (or_data o)) Hz) as (v2 & Li2 & Ri2 & E2 & Hz2); [done|].
      simpl hd in E2. rewrite E2. cbn [obind]. destruct (zipped_active _ _ _ _ _ _ Hz2) as (i2 & Ri2' & -> & Hi2 & _). simpl hd. rewrite Hi2.
      cbn [obind link_range mr_first]. rewrite i8_small by lia.
      eexists _, Li2, (i2 :: Ri2'), _, _, _. split; [done|]. split; [exact Hz2|]. split; [apply merging_split_other; [done|lia]|]. lia.
    + eexists _, _, (i :: Ri'), _, _, _. split; [done|]. split; [exact Hz|]. split; [done|]. lia.
Qed.

Lemma merge_active_spec v Li Ri L r R o os offset :
  zipped v Li Ri L (r :: R) -> merging cv ex self0 other0 L (r :: R) (o :: os) offset -> Forall (fun o => o ∈ other0) (o :: os) ->
  or_first r = or_first o + offset ->
  exists x Li' Ri' L' R', merge_active converter v (last0 Li) (hd 0 Ri) o os offset = Done x /\ loop_ok x Li' Ri' L' R' /\
    (loop_measure x R' < S (length R + S (length os)))%nat.
Proof.
  intros Hz Hm Ho Hf. destruct (zipped_active _ _ _ _ _ _ Hz) as (i & Ri' & -> & Hi & Hnext). apply Forall_cons in Ho as [Ho Hos].
  pose proof (mg_other _ _ _ _ _ _ _ _ Hm) as (Ho1 & Ho2 & Ho3 & Ho4).
  pose proof (mg_sorted _ _ _ _ _ _ _ _ Hm) as [HL (Hr1 & Hr2 & Hr3)]%ranges_sorted_app. pose proof (ranges_end_ge _ _ HL) as HL0.
  pose proof (merging_meet cv ex self0 other0 L r R o os offset _ _ _ _ Hm Hf eq_refl eq_refl (eq_sym (surjective_pairing _))) as Hmeet.
  unfold merge_active. simpl hd. rewrite Hi. cbn [obind link_range mr_first mr_last mr_data mr_nextRangeIndex].
  rewrite Hex by done. unfold set_data, set_first, link_range. cbn [obind mr_data mr_nextRangeIndex mr_last mr_first].
  destruct (zipped_update v Li i Ri' L r (mkOtherRange (or_first r) (or_last r) (ex (or_data r) (or_data o))) R Hz) as (v1 & E1 & Hz1).
  apply zipped_advance in Hz1. unfold link_range in E1. cbn [or_data or_first or_last] in E1.
  destruct (Z.eqb_spec (or_last r) (or_last o)) as [El|El].
  - rewrite E1. cbn [obind]. destruct (Z.ltb_spec (or_last o) (or_last r)); [lia|]. destruct (Z.ltb_spec (or_last r) (or_last o)); [lia|].
    rewrite Z.min_l in Hmeet by lia. simpl in Hmeet.
    eexists _, _, _, _, _. split; [done|]. split; [constructor; [exact Hz1|exact Hmeet|by rewrite last0_snoc|done|done|done|by destruct L]|].
    unfold loop_measure. simpl. lia.
  - destruct (Z.ltb_spec (or_last o) (or_last r)).
    + rewrite i8_small by lia.
      destruct (zipped_update v Li i Ri' L r (mkOtherRange (or_last o + 1) (or_last r) (or_data r)) R Hz) as (v2 & E2 & Hz2).
      unfold link_range in E2. cbn [or_data or_first or_last] in E2. rewrite E2. cbn [obind].
      destruct (zipped_insert v2 Li (i :: Ri') L _ (or_first r) (or_last o) (ex (or_data r) (or_data o)) Hz2) as (v3 & Li3 & Ri3 & E3 & Hz3); [done|].
      simpl hd in E3. rewrite E3. cbn [obind]. destruct (Z.ltb_spec (or_last r) (or_last o)); [lia|]. rewrite Z.min_r in Hmeet by lia. simpl in Hmeet.
      eexists _, _, _, _, _. split; [done|]. split; [constructor; [exact Hz3|exact Hmeet|done|done|done|done|by destruct L]|]. unfold loop_measure. simpl. lia.
    + rewrite E1. cbn [obind]. destruct (Z.ltb_spec (or_last r) (or_last o)); [|lia]. rewrite Z.min_l in Hmeet by lia. simpl in Hmeet.
      rewrite i8_small by lia. eexists _, _, _, _, _. split; [done|].
      split; [constructor; [exact Hz1|exact Hmeet|by rewrite last0_snoc|done|done|by constructor|by destruct L]|]. unfold loop_measure. simpl. lia.
Qed.

Lemma extend_step_spec x Li Ri L R :
  loop_ok x Li Ri L R -> R <> [] -> x_other x <> [] ->
  exists x' Li' Ri' L' R', extend_step converter x = Done x' /\ loop_ok x' Li' Ri' L' R' /\ (loop_measure x' R' < loop_measure x R)%nat.
Proof.
  intros [Hz Hm Hla Hse Hen Hel _] HR HO. destruct x as [v e la se O offset]. cbn [x_ranges x_reachedSelfEnd x_lastSelfRangeIndex x_selfRangeIndex x_other x_otherRangeOffset] in *.
  destruct R as [|r R]; [done|]. destruct O as [|o os]; [done|]. subst la se e.
  destruct (zipped_active _ _ _ _ _ _ Hz) as (i & Ri' & -> & Hi & Hnext). pose proof Hel as [Ho Hos]%Forall_cons.
  pose proof (mg_other _ _ _ _ _ _ _ _ Hm) as (Ho1 & Ho2 & Ho3 & Ho4).
  pose proof (mg_sorted _ _ _ _ _ _ _ _ Hm) as [HL (Hr1 & Hr2 & Hr3)]%ranges_sorted_app.
  unfold extend_step. cbn [x_ranges x_reachedSelfEnd x_lastSelfRangeIndex x_selfRangeIndex x_other x_otherRangeOffset]. simpl hd. rewrite Hi.
  cbn [obind link_range mr_first mr_last mr_data mr_nextRangeIndex]. unfold loop_measure. cbn [x_other length].
  destruct (Z.ltb_spec (or_last r) (or_first o + offset)).
  - eexists _, _, _, _, _. split; [done|].
    split; [constructor; [exact (zipped_advance _ _ _ _ _ _ _ Hz)|by apply merging_advance|by rewrite last0_snoc|done|done|done|by destruct L]|]. simpl. lia.
  - destruct (Z.ltb_spec (or_last o) (or_first r)).
    + rewrite Hcv by done. cbn [obind]. rewrite i8_small by lia.
      destruct (zipped_insert v Li (i :: Ri') L _ (or_first o + offset) (or_last o) (cv (or_data o)) Hz) as (v2 & Li2 & Ri2 & E2 & Hz2); [done|].
      simpl hd in E2. rewrite E2. cbn [obind]. eexists _, _, _, _, _. split; [done|].
      split; [constructor; [exact Hz2| |done|done|done|done|by destruct L]|simpl; lia]. apply merging_insert; [done|]. simpl. split_and!; try lia; done.
    + destruct (split_left_spec v Li (i :: Ri') L r R o os offset Hz Hm Ho) as (v1 & Li1 & Ri1 & L1 & r1 & off1 & E1 & Hz1 & Hm1 & Hf1 & Hl1); [lia|lia|].
      simpl hd in E1. rewrite E1. cbn [obind].
      destruct (merge_active_spec v1 Li1 Ri1 L1 r1 R o os off1 Hz1 Hm1 Hel Hf1) as (x' & Li' & Ri'' & L' & R' & E2 & Hok & Hlt).
      exists x', Li', Ri'', L', R'. split_and!; [done|done|]. unfold loop_measure in Hlt. lia.
Qed.

Lemma extend_loop_spec fuel : forall x Li Ri L R,
  loop_ok x Li Ri L R -> R <> [] -> x_other x <> [] -> (loop_measure x R <= fuel)%nat ->
  exists x' Li' Ri' L' R', extend_loop converter fuel x = Done x' /\ loop_ok x' Li' Ri' L' R' /\ (R' = [] \/ x_other x' = []).
Proof.
  induction fuel as [|fuel IH]; intros x Li Ri L R Hok HR HO Hf.
  { destruct R; [done|]. unfold loop_measure in Hf. simpl in Hf. lia. }
  destruct (extend_step_spec x Li Ri L R Hok HR HO) as (x' & Li' & Ri' & L' & R' & Ex & Hok' & Hlt).
  cbn [extend_loop]. rewrite Ex. cbn [obind]. rewrite (lo_end _ _ _ _ _ Hok').
  destruct R' as [|r' R']; [eexists _, _, _, _, _; split_and!; [done|done|by left]|].
  destruct (x_other x') as [|o' os'] eqn:EO; [eexists _, _, _, _, _; split_and!; [done|done|by right]|].
  cbn [negb andb]. apply (IH x' Li' Ri' L' (r' :: R')); [done|done|by rewrite EO|lia].
Qed.

Lemma append_rest_spec O : forall v Li L offset,
  zipped v Li [] L [] -> L <> [] -> merging cv ex self0 other0 L [] O offset -> Forall (fun o => o ∈ other0) O ->
  exists v' Li' L', append_rest converter v (last0 Li) O offset = Done v' /\ zipped v' Li' [] L' [] /\ merging cv ex self0 other0 L' [] [] 0.
Proof.
  induction O as [|o os IH]; intros v Li L offset Hz HL Hm Ho.
  { exists v, Li, L. split_and!; try done. destruct Hm as [H1 H2 H3 H4 H5]. by constructor. }
  apply Forall_cons in Ho as [Ho Hos]. cbn [append_rest]. rewrite Hcv by done. cbn [obind].
  pose proof (mg_other _ _ _ _ _ _ _ _ Hm) as (Ho1 & Ho2 & Ho3 & Ho4). rewrite i8_small by lia.
  destruct (zipped_append v Li L (or_first o + offset) (or_last o) (cv (or_data o)) Hz HL) as (v1 & Li1 & E1 & Hz1). rewrite E1. cbn [obind].
  eapply IH; [exact Hz1|by destruct L|by apply merging_insert|done].
Qed.

(** The empty list is filled in order. *)
Lemma initialize_loop_spec O : forall v, Forall (fun o => o ∈ other0) O ->
  initialize_loop converter v (vsize v) O =
    Done (v ++ imap (fun k o => mkMutableRange (cv (or_data o)) (vsize v + Z.of_nat k + 1) (or_first o) (or_last o)) O).
Proof.
  induction O as [|o os IH]; intros v Ho; [by rewrite app_nil_r|]. apply Forall_cons in Ho as [Ho Hos]. cbn [initialize_loop].
  rewrite Hcv by done. cbn [obind]. set (r := mkMutableRange _ _ _ _). replace (vsize v + 1) with (vsize (v ++ [r])) by apply vsize_app.
  rewrite IH by done. rewrite <- app_assoc. f_equal. f_equal. rewrite imap_cons. simpl. f_equal.
  - unfold r. f_equal. lia.
  - apply imap_ext. intros k x _. unfold compose. f_equal. rewrite vsize_app. change (vsize [r]) with 1. lia.
Qed.

Definition converted (o : OtherRange E) : OtherRange D := mkOtherRange (or_first o) (or_last o) (cv (or_data o)).

Lemma consecutive_segment (v : list (MutableRange D)) (O : list (OtherRange E)) : forall k,
  (forall j o, O !! j = Some o ->
     vget v (k + Z.of_nat j) = Done (link_range (converted o) (if (S j =? length O)%nat then 0 else k + Z.of_nat j + 1))) ->
  segment v (seqZ k (vsize O)) 0 (map converted O).
Proof.
  induction O as [|o os IH]; intros k Hv; [done|]. rewrite vsize_cons. pose proof (vsize_nonneg os).
  rewrite seqZ_cons by lia. cbn [map segment]. replace (Z.pred (vsize os + 1)) with (vsize os) by lia. split.
  - specialize (Hv 0%nat o eq_refl). rewrite Z.add_0_r in Hv. rewrite Hv. f_equal. f_equal. destruct os as [|o' os]; [done|].
    pose proof (vsize_nonneg os). rewrite vsize_cons, seqZ_cons by lia. simpl. lia.
  - apply IH. intros j o' Ho'. specialize (Hv (S j) o' Ho'). replace (Z.succ k + Z.of_nat j) with (k + Z.of_nat (S j)) by lia.
    rewrite Hv. simpl. destruct (Nat.eqb (S j) (length os)); [done|]. done.
Qed.

Lemma initializeFrom_spec :
  other0 <> [] -> exists v, initializeFrom converter [] other0 = Done v /\ represents v (map converted other0).
Proof.
  intros Hne. unfold initializeFrom. change 0 with (vsize (@nil (MutableRange D))) at 1. rewrite initialize_loop_spec by (by apply Forall_forall).
  change (vsize (@nil (MutableRange D))) with 0. cbn [obind app]. set (v := imap _ other0).
  assert (Hlen : length v = length other0) by (unfold v; apply length_imap). assert (Hvs : vsize v = vsize other0) by (unfold vsize; by rewrite Hlen).
  assert (Hpos : 0 < vsize other0) by (destruct other0; [done|rewrite vsize_cons; pose proof (vsize_nonneg l); lia]).
  destruct (last v) as [r|] eqn:Er.
  2: { apply last_None in Er. rewrite Er in Hlen. destruct other0; done. }
  rewrite vset_Done by lia. eexists. split; [done|]. exists (seqZ 0 (vsize other0)).
  constructor; cbn [app].
  - apply consecutive_segment. intros j o Ho. pose proof (lookup_lt_Some _ _ _ Ho) as Hj.
    assert (Hvj : vget v (0 + Z.of_nat j) = Done (mkMutableRange (cv (or_data o)) (0 + Z.of_nat j + 1) (or_first o) (or_last o))).
    { apply vget_Done. split; [lia|]. replace (Z.to_nat (0 + Z.of_nat j)) with j by lia. unfold v. rewrite list_lookup_imap, Ho. done. }
    rewrite vget_insert by lia. destruct (Z.eqb_spec (0 + Z.of_nat j) (vsize v - 1)) as [Ej|Ej].
    + destruct (Nat.eqb_spec (S j) (length other0)); [|unfold vsize in *; lia]. rewrite last_lookup in Er.
      replace (Init.Nat.pred (length v)) with j in Er by (unfold vsize in *; lia). apply vget_Done in Hvj as [_ Hvj].
      replace (Z.to_nat (0 + Z.of_nat j)) with j in Hvj by lia. rewrite Hvj in Er. by injection Er as <-.
    + destruct (Nat.eqb_spec (S j) (length other0)); [unfold vsize in *; lia|]. rewrite Hvj. done.
  - apply NoDup_seqZ.
  - by rewrite seqZ_cons by lia.
  - done.
  - rewrite length_insert, Hlen, length_seqZ. unfold vsize. lia.
Qed.

Lemma converted_lookup O c : ranges_lookup (map converted O) c = option_map cv (ranges_lookup O c).
Proof. induction O as [|o os IH]; [done|]. simpl. unfold range_covers in *. simpl. by destruct (_ && _). Qed.

Lemma converted_sorted lo O : ranges_sorted lo O -> ranges_sorted lo (map converted O).
Proof. revert lo. induction O as [|o os IH]; intros lo; simpl; [done|]. intros (? & ? & ?). auto. Qed.

(** The state before the first iteration. *)
Lemma loop_start v idxs l :
  zipped v [] idxs [] l -> l <> [] -> ranges_sorted 0 l -> ranges_sorted 0 other0 -> other0 <> [] -> self0 = ranges_lookup l ->
  loop_ok (mkExtendState v false 0 0 other0 0) [] idxs [] l.
Proof.
  intros Hz Hne Hl Ho Hone Hself.
  assert (Hpos : 0 <= position other0 0 /\ ranges_sorted (position other0 0) other0 /\ position other0 0 < 128).
  { clear Hcv Hex. destruct other0 as [|o os]; [done|]. simpl in *. rewrite Z.add_0_r. intuition lia. }
  destruct Hpos as (Hp1 & Hp2 & Hp3). constructor; cbn [x_ranges x_reachedSelfEnd x_lastSelfRangeIndex x_selfRangeIndex x_other x_otherRangeOffset]; try done.
  - constructor; cbn [app]; [done| |unfold ranges_end; simpl; lia| |done].
    + clear Hcv Hex. destruct other0 as [|o os]; [done|]. destruct Ho as (H1 & H2 & H3). split_and!; try lia; done.
    + intros c Hc. rewrite Hself. destruct (Z.ltb_spec c (position other0 0)); [|done].
      by rewrite (ranges_lookup_sorted (position other0 0) other0) by (done || lia).
  - pose proof (z_head _ _ _ _ _ Hz) as Hh. done.
  - by destruct l.
  - by apply Forall_forall.
Qed.

Lemma extend_nonempty v :
  other0 <> [] -> extend converter v other0 =
    match v with
    | [] => initializeFrom converter v other0
    | _ => let* x := extend_loop converter (length v + length other0) (mkExtendState v false 0 0 other0 0) in
           append_rest converter (x_ranges x) (x_lastSelfRangeIndex x) (x_other x) (x_otherRangeOffset x)
    end.
Proof. clear Hcv Hex. by destruct other0. Qed.

(** The merge of two sorted lists is sorted, and is the pointwise merge. *)
Lemma extend_spec v l :
  represents v l -> ranges_sorted 0 l -> ranges_sorted 0 other0 -> self0 = ranges_lookup l ->
  exists v' l', extend converter v other0 = Done v' /\ represents v' l' /\ ranges_sorted 0 l' /\
    forall c, 0 <= c < 128 -> ranges_lookup l' c = merged cv ex (ranges_lookup l c) (ranges_lookup other0 c).
Proof.
  intros Hr Hl Ho Hself. assert (Hcase : other0 = [] \/ other0 <> []) by (clear; destruct other0; [by left|by right]).
  destruct Hcase as [Hnil|Hne]; [exists v, l; rewrite Hnil; by split_and!|]. rewrite extend_nonempty by done. destruct v as [|x v].
  - assert (l = []) as -> by (by apply (represents_empty _ _ Hr)). destruct (initializeFrom_spec Hne) as (v' & E1 & Hr').
    exists v', (map converted other0). split_and!; [done|done|by apply converted_sorted|]. intros c Hc. rewrite converted_lookup. simpl.
    by destruct (ranges_lookup other0 c).
  - assert (Hlne : l <> []) by (intros Hn; by apply (represents_empty _ _ Hr) in Hn).
    destruct Hr as [idxs Hz]. pose proof (loop_start _ _ _ Hz Hlne Hl Ho Hne Hself) as Hok. set (x0 := mkExtendState (x :: v) false 0 0 other0 0) in *.
    destruct (extend_loop_spec (length (x :: v) + length other0) x0 [] idxs [] l Hok Hlne Hne) as (x' & Li & Ri & L & R & E1 & Hok' & Hend).
    { unfold loop_measure. cbn [x_other x0]. pose proof (z_size _ _ _ _ _ Hz) as H1. pose proof (segment_length _ _ _ _ (z_segment _ _ _ _ _ Hz)) as H2.
      cbn [app] in *. lia. }
    rewrite E1. cbn [obind]. pose proof Hok' as [Hz' Hm' Hla _ _ Hel Hne']. rewrite Hla.
    assert (Hfin : exists v'' Li' Ri' L' R', append_rest converter (x_ranges x') (last0 Li) (x_other x') (x_otherRangeOffset x') = Done v'' /\
      zipped v'' Li' Ri' L' R' /\ merging cv ex self0 other0 L' R' [] 0).
    { destruct Hend as [-> | HO].
      - destruct Ri; [|pose proof (segment_length _ _ _ _ (z_segment _ _ _ _ _ Hz')) as H2; pose proof (z_length _ _ _ _ _ Hz'); rewrite !length_app in H2; simpl in H2; lia].
        destruct (append_rest_spec (x_other x') (x_ranges x') Li L (x_otherRangeOffset x') Hz') as (v'' & Li' & L' & ? & ? & ?); [|done|done|].
        + by rewrite app_nil_r in Hne'.
        + eexists _, _, [], _, []. eauto.
      - rewrite HO in *. eexists _, _, _, _, _. split; [done|]. split; [exact Hz'|]. destruct Hm' as [H1 H2 H3 H4 H5]. by constructor. }
    destruct Hfin as (v'' & Li' & Ri' & L' & R' & E2 & Hz'' & [H1 _ _ H4 _]). exists v'', (L' ++ R'). split_and!; [done|by eapply zipped_represents|done|].
    intros c Hc. rewrite H4 by done. simpl. rewrite Hself. destruct (Z.ltb_spec c 128); [done|lia].
Qed.
End Extend.
