(* ===== verification/Nfa.v ===== *)
(** * The NFA and its node builder (ImmutableNFA.h, ImmutableNFANodeBuilder.h, NFA.h)

    A node under construction lives in a builder; when the builder is
    finalized its edges and actions are written to the vectors of the NFA. *)

From S2P Require Import Prelude Containers RangeList RangeListProofs.

Record ImmutableRange := mkImmutableRange { ir_targetStart : Z; ir_targetEnd : Z; ir_first : Z; ir_last : Z }.

Record ImmutableNFANode := mkImmutableNFANode {
  n_rangesStart : Z;
  n_rangesEnd : Z;
  n_epsilonTransitionTargetsStart : Z;
  n_epsilonTransitionTargetsEnd : Z;
  n_actionStart : Z;
  n_actionEnd : Z
}.

Definition newNFANode : ImmutableNFANode := mkImmutableNFANode 0 0 0 0 0 0.

Record NFA := mkNFA {
  nfa_nodes : list ImmutableNFANode;
  nfa_transitions : list ImmutableRange;
  nfa_targets : list Z;
  nfa_epsilonTransitionsTargets : list Z;
  nfa_actions : list Z
}.

Definition emptyNFA : NFA := mkNFA [] [] [] [] [].

(** [ImmutableNFA::root()]. *)
Definition nfa_root (nfa : NFA) : outcome Z :=
  let* _ := release_assert (match nfa_nodes nfa with [] => false | _ => true end) in Done 0.

Definition set_nodes (nfa : NFA) (v : list ImmutableNFANode) : NFA :=
  mkNFA v (nfa_transitions nfa) (nfa_targets nfa) (nfa_epsilonTransitionsTargets nfa) (nfa_actions nfa).

(** ** Reading an NFA *)

Fixpoint omap_all {A B} (f : A -> outcome B) (l : list A) : outcome (list B) :=
  match l with
  | [] => Done []
  | x :: l' => let* y := f x in let* ys := omap_all f l' in Done (y :: ys)
  end.

(** [transitionsForNode(nodeId)]: the ranges with [data()], the targets. *)
Definition transitionsForNode (nfa : NFA) (nodeId : Z) : outcome (list (OtherRange (list Z))) :=
  let* node := vget (nfa_nodes nfa) nodeId in
  let* ranges := vslice (nfa_transitions nfa) (n_rangesStart node) (n_rangesEnd node) in
  omap_all (fun r => let* ts := vslice (nfa_targets nfa) (ir_targetStart r) (ir_targetEnd r) in
                     Done (mkOtherRange (ir_first r) (ir_last r) ts)) ranges.

Definition epsilonTargetsForNode (nfa : NFA) (nodeId : Z) : outcome (list Z) :=
  let* node := vget (nfa_nodes nfa) nodeId in
  vslice (nfa_epsilonTransitionsTargets nfa) (n_epsilonTransitionTargetsStart node) (n_epsilonTransitionTargetsEnd node).

Definition actionsForNode (nfa : NFA) (nodeId : Z) : outcome (list Z) :=
  let* node := vget (nfa_nodes nfa) nodeId in
  vslice (nfa_actions nfa) (n_actionStart node) (n_actionEnd node).

(** ** The builder *)

Record builder := mkBuilder {
  b_ranges : list (MutableRange (list Z));
  b_epsilonTransitionTargets : list Z;
  b_actions : list Z;
  b_nodeId : Z
}.

Section Builder.
Context `{HashOrder}.

(** [ImmutableNFANodeBuilder(nfa)]: a new node. *)
Definition newBuilder (nfa : NFA) : NFA * builder :=
  (set_nodes nfa (nfa_nodes nfa ++ [newNFANode]), mkBuilder [] [] [] (vsize (nfa_nodes nfa))).

(** The [Converter] of [addTransition]. *)
Definition target_converter : DataConverter (list Z) Z :=
  mkDataConverter (fun target => Done (hs_add [] target)) (fun targets target => Done (hs_add targets target)).

Definition addTransition (b : builder) (first last targetNodeId : Z) : outcome builder :=
  let* ranges := extend target_converter (b_ranges b) [mkOtherRange first last targetNodeId] in
  Done (mkBuilder ranges (b_epsilonTransitionTargets b) (b_actions b) (b_nodeId b)).

Definition addEpsilonTransition (b : builder) (targetNodeId : Z) : builder :=
  mkBuilder (b_ranges b) (hs_add (b_epsilonTransitionTargets b) targetNodeId) (b_actions b) (b_nodeId b).

(** [setActions(begin, end)]. *)
Definition builder_setActions (b : builder) (actions : list Z) : builder :=
  mkBuilder (b_ranges b) (b_epsilonTransitionTargets b) (hs_add_range (b_actions b) actions) (b_nodeId b).

Definition sinkActions (nfa : NFA) (b : builder) (node : ImmutableNFANode) : NFA * ImmutableNFANode :=
  let actions := nfa_actions nfa ++ b_actions b in
  (mkNFA (nfa_nodes nfa) (nfa_transitions nfa) (nfa_targets nfa) (nfa_epsilonTransitionsTargets nfa) actions,
   mkImmutableNFANode (n_rangesStart node) (n_rangesEnd node)
     (n_epsilonTransitionTargetsStart node) (n_epsilonTransitionTargetsEnd node)
     (vsize (nfa_actions nfa)) (vsize actions)).

Definition sinkEpsilonTransitions (nfa : NFA) (b : builder) (node : ImmutableNFANode) : NFA * ImmutableNFANode :=
  let targets := nfa_epsilonTransitionsTargets nfa ++ b_epsilonTransitionTargets b in
  (mkNFA (nfa_nodes nfa) (nfa_transitions nfa) (nfa_targets nfa) targets (nfa_actions nfa),
   mkImmutableNFANode (n_rangesStart node) (n_rangesEnd node)
     (vsize (nfa_epsilonTransitionsTargets nfa)) (vsize targets) (n_actionStart node) (n_actionEnd node)).

(** One range of [sinkTransitions]. *)
Definition sink_range (nfa : NFA) (r : MutableRange (list Z)) : NFA :=
  let targets := nfa_targets nfa ++ mr_data r in
  mkNFA (nfa_nodes nfa)
        (nfa_transitions nfa ++ [mkImmutableRange (vsize (nfa_targets nfa)) (vsize targets) (mr_first r) (mr_last r)])
        targets (nfa_epsilonTransitionsTargets nfa) (nfa_actions nfa).

Definition sinkTransitions (nfa : NFA) (b : builder) (node : ImmutableNFANode) : outcome (NFA * ImmutableNFANode) :=
  let transitionsStart := vsize (nfa_transitions nfa) in
  let* ranges := iterate (b_ranges b) in
  let nfa' := foldl sink_range nfa ranges in
  Done (nfa', mkImmutableNFANode transitionsStart (vsize (nfa_transitions nfa'))
          (n_epsilonTransitionTargetsStart node) (n_epsilonTransitionTargetsEnd node) (n_actionStart node) (n_actionEnd node)).

(** [finalize()], which the destructor and the move assignment run. *)
Definition finalize (nfa : NFA) (b : builder) : outcome NFA :=
  let* node := vget (nfa_nodes nfa) (b_nodeId b) in
  let (nfa1, node1) := sinkActions nfa b node in
  let (nfa2, node2) := sinkEpsilonTransitions nfa1 b node1 in
  let* (nfa3, node3) := sinkTransitions nfa2 b node2 in
  let* nodes := vset (nfa_nodes nfa3) (b_nodeId b) node3 in
  Done (set_nodes nfa3 nodes).
End Builder.

(** ** Labelled graphs

    The meaning of nodes and builders: edges with a character or the empty
    label. *)

Definition graph : Type := Z -> option Z -> Z -> Prop.

Inductive path (E : graph) : Z -> list Z -> Z -> Prop :=
| path_refl p : path E p [] p
| path_eps p q w r : E p None q -> path E q w r -> path E p w r
| path_char p c q w r : E p (Some c) q -> path E q w r -> path E p (c :: w) r.

Definition graph_union (E1 E2 : graph) : graph := fun p l q => E1 p l q \/ E2 p l q.
Definition graph_sub (E1 E2 : graph) : Prop := forall p l q, E1 p l q -> E2 p l q.

#[export] Hint Constructors path : ce.

Lemma path_app E p w1 q w2 r : path E p w1 q -> path E q w2 r -> path E p (w1 ++ w2) r.
Proof. induction 1; simpl; eauto with ce. Qed.

Lemma path_mono (E1 E2 : graph) p w q : graph_sub E1 E2 -> path E1 p w q -> path E2 p w q.
Proof. intros Hs. induction 1; eauto with ce. Qed.

(** A character edge of a sorted list of ranges whose data are target lists. *)
Definition ranges_edge (l : list (OtherRange (list Z))) (c t : Z) : Prop :=
  exists ts, ranges_lookup l c = Some ts /\ t ∈ ts.

(** The edges of a finalized node. *)
Definition nfa_edge (nfa : NFA) : graph := fun p lab q =>
  match lab with
  | None => exists ts, epsilonTargetsForNode nfa p = Done ts /\ q ∈ ts
  | Some c => exists l, transitionsForNode nfa p = Done l /\ ranges_edge l c q
  end.

Definition nfa_action (nfa : NFA) (p a : Z) : Prop := exists l, actionsForNode nfa p = Done l /\ a ∈ l.

(** The edges of a builder. *)
Record builder_holds (b : builder) (l : list (OtherRange (list Z))) : Prop := {
  bh_represents : represents (b_ranges b) l;
  bh_sorted : ranges_sorted 0 l
}.

Definition builder_edge (b : builder) : graph := fun p lab q =>
  p = b_nodeId b /\
  match lab with
  | None => q ∈ b_epsilonTransitionTargets b
  | Some c => exists l, builder_holds b l /\ ranges_edge l c q
  end.
