(* ===== verification/NfaProofs.v ===== *)
(** * Builders and finalization

    Adding edges to a builder adds exactly those edges; finalizing it gives its
    node exactly the edges and actions of the builder and leaves every other
    node alone. *)

From S2P Require Import Prelude Containers RangeList RangeListProofs Nfa.

#[local] Arguments vsize {A} v : simpl never.

(** ** Facts on ranges *)

Lemma ranges_lookup_bound {D} (l : list (OtherRange D)) c d : ranges_sorted 0 l -> ranges_lookup l c = Some d -> 0 <= c < 128.
Proof.
  intros Hs (r & Hr & Hc & _)%ranges_lookup_Some. destruct (ranges_elem_first _ _ _ Hs Hr) as (? & ? & _).
  unfold range_covers in Hc. zprop. lia.
Qed.

Lemma exists_Some {A} (a : A) (P : A -> Prop) : (exists x, Some a = Some x /\ P x) <-> P a.
Proof. naive_solver. Qed.

Lemma exists_None {A} (P : A -> Prop) : (exists x, None = Some x /\ P x) <-> False.
Proof. naive_solver. Qed.

Lemma represents_functional {D} (v : list (MutableRange D)) l l' : represents v l -> represents v l' -> l = l'.
Proof. intros (rs & E & <-)%iterate_represents (rs' & E' & <-)%iterate_represents. congruence. Qed.

Lemma builder_holds_functional b l l' : builder_holds b l -> builder_holds b l' -> l = l'.
Proof. intros [H1 _] [H2 _]. by eapply represents_functional. Qed.

(** ** Reading nodes *)

(** The node [n] can be read, and holds this. *)
Record node_is (nfa : NFA) (n : Z) (l : list (OtherRange (list Z))) (eps acts : list Z) : Prop := {
  ni_transitions : transitionsForNode nfa n = Done l;
  ni_epsilon : epsilonTargetsForNode nfa n = Done eps;
  ni_actions : actionsForNode nfa n = Done acts
}.

Lemma node_is_bound nfa n l eps acts : node_is nfa n l eps acts -> 0 <= n < vsize (nfa_nodes nfa).
Proof. intros [_ He _]. unfold epsilonTargetsForNode in He. obind_inv He. by apply vget_range in E. Qed.

Lemma nfa_edge_node nfa n l eps acts lab q : node_is nfa n l eps acts ->
  nfa_edge nfa n lab q <-> match lab with None => q ∈ eps | Some c => ranges_edge l c q end.
Proof.
  intros [H1 H2 H3]. destruct lab as [c|]; simpl.
  - rewrite H1. naive_solver.
  - rewrite H2. naive_solver.
Qed.

Lemma nfa_action_node nfa n l eps acts a : node_is nfa n l eps acts -> nfa_action nfa n a <-> a ∈ acts.
Proof. intros [H1 H2 H3]. unfold nfa_action. rewrite H3. naive_solver. Qed.

Lemma omap_all_mono {A B} (f g : A -> outcome B) l ys :
  (forall x y, f x = Done y -> g x = Done y) -> omap_all f l = Done ys -> omap_all g l = Done ys.
Proof.
  intros Hfg. revert ys. induction l as [|x l IH]; intros ys E; simpl in *; [done|].
  obind_inv E. obind_inv E. injection E as <-. rewrite (Hfg _ _ E0). simpl. by rewrite (IH _ E1).
Qed.

(** Appending to the vectors and rewriting other nodes keeps a node. *)
Lemma node_is_mono nfa nfa' n l eps acts tr tg ep ac :
  node_is nfa n l eps acts -> vget (nfa_nodes nfa') n = vget (nfa_nodes nfa) n ->
  nfa_transitions nfa' = nfa_transitions nfa ++ tr -> nfa_targets nfa' = nfa_targets nfa ++ tg ->
  nfa_epsilonTransitionsTargets nfa' = nfa_epsilonTransitionsTargets nfa ++ ep -> nfa_actions nfa' = nfa_actions nfa ++ ac ->
  node_is nfa' n l eps acts.
Proof.
  intros [H1 H2 H3] Hn Htr Htg Hep Hac. unfold transitionsForNode, epsilonTargetsForNode, actionsForNode in *.
  constructor; unfold transitionsForNode, epsilonTargetsForNode, actionsForNode; rewrite Hn.
  - obind_inv H1. obind_inv H1. rewrite E. cbn [obind]. rewrite Htr. erewrite vslice_mono by done. cbn [obind].
    eapply omap_all_mono; [|done]. intros r y Hy. simpl in *. obind_inv Hy. rewrite Htg. erewrite vslice_mono by done. done.
  - obind_inv H2. rewrite E. cbn [obind]. rewrite Hep. by apply vslice_mono.
  - obind_inv H3. rewrite E. cbn [obind]. rewrite Hac. by apply vslice_mono.
Qed.

(** Every node can be read; its ranges are sorted. *)
Definition nfa_wf (nfa : NFA) : Prop :=
  forall n, 0 <= n < vsize (nfa_nodes nfa) -> exists l eps acts, node_is nfa n l eps acts /\ ranges_sorted 0 l.

(** [nfa'] has all the nodes of [nfa], as they were, but for node [n]. *)
Definition extends_but (n : Z) (nfa nfa' : NFA) : Prop :=
  vsize (nfa_nodes nfa) <= vsize (nfa_nodes nfa') /\
  forall m l eps acts, m <> n -> node_is nfa m l eps acts -> node_is nfa' m l eps acts.

Definition extends (nfa nfa' : NFA) : Prop :=
  vsize (nfa_nodes nfa) <= vsize (nfa_nodes nfa') /\
  forall m l eps acts, node_is nfa m l eps acts -> node_is nfa' m l eps acts.

Lemma extends_refl nfa : extends nfa nfa.
Proof. split; [lia|done]. Qed.

Lemma extends_trans a b c : extends a b -> extends b c -> extends a c.
Proof. intros [H1 H2] [H3 H4]. split; [lia|auto]. Qed.

(** ** Builder operations *)

Section Builder.
Context `{HashOrder}.

Lemma empty_node_is nfa v n :
  vget v n = Done newNFANode -> node_is (set_nodes nfa v) n [] [] [].
Proof.
  intros Hv. constructor; unfold transitionsForNode, epsilonTargetsForNode, actionsForNode; cbn; by rewrite Hv.
Qed.

Lemma newBuilder_spec nfa nfa' b :
  newBuilder nfa = (nfa', b) ->
  extends nfa nfa' /\ vsize (nfa_nodes nfa') = vsize (nfa_nodes nfa) + 1 /\ b_nodeId b = vsize (nfa_nodes nfa) /\
  node_is nfa' (b_nodeId b) [] [] [] /\ builder_holds b [] /\ b_epsilonTransitionTargets b = [] /\ b_actions b = [].
Proof.
  unfold newBuilder. intros [= <- <-]. cbn. split_and!; try done.
  - split; [cbn; rewrite vsize_app; change (vsize [newNFANode]) with 1; lia|]. intros m l eps acts Hm.
    eapply (node_is_mono _ _ m l eps acts [] [] [] [] Hm); cbn; rewrite ?app_nil_r; try done.
    apply vget_app_l. apply node_is_bound in Hm. lia.
  - apply vsize_app.
  - apply empty_node_is. by apply vget_app_here.
  - constructor; [apply represents_nil|done].
Qed.

Lemma newBuilder_wf nfa nfa' b : newBuilder nfa = (nfa', b) -> nfa_wf nfa -> nfa_wf nfa'.
Proof.
  intros Hb Hw n Hn. destruct (newBuilder_spec _ _ _ Hb) as ([_ He] & Hs & Hid & Hnew & _).
  destruct (Z.eq_dec n (b_nodeId b)) as [->|Hne]; [exists [], [], []; done|].
  destruct (Hw n) as (l & eps & acts & Hi & Hsl); [lia|]. exists l, eps, acts. auto.
Qed.

(** Adding a transition. *)
Lemma addTransition_spec b l first last target :
  builder_holds b l -> 0 <= first <= last -> last < 128 ->
  exists b' l', addTransition b first last target = Done b' /\ builder_holds b' l' /\ b_nodeId b' = b_nodeId b /\
    b_epsilonTransitionTargets b' = b_epsilonTransitionTargets b /\ b_actions b' = b_actions b /\
    forall c q, ranges_edge l' c q <-> ranges_edge l c q \/ (first <= c <= last /\ q = target).
Proof.
  intros [Hr Hs] Hf Hl. unfold addTransition. set (other := [mkOtherRange first last target]).
  destruct (extend_spec target_converter (fun t => hs_add [] t) (fun ts t => hs_add ts t) (ranges_lookup l) other) with (v := b_ranges b) (l := l)
    as (v' & l' & E & Hr' & Hs' & Hm); try done.
  rewrite E. cbn [obind]. eexists _, l'. split; [done|]. split; [by constructor|]. split_and!; try done.
  assert (Hother : forall c, ranges_lookup other c = if (first <=? c) && (c <=? last) then Some target else None) by done.
  intros c q. unfold ranges_edge. destruct (decide (0 <= c < 128)) as [Hc|Hc].
  - rewrite (Hm c Hc), Hother. unfold merged. destruct (ranges_lookup l c) as [ts|];
      destruct (Z.leb_spec first c), (Z.leb_spec c last); cbn [andb]; rewrite ?exists_Some, ?exists_None, ?elem_of_hs_add, ?elem_of_nil;
      intuition lia.
  - assert (Hno : forall l0, ranges_sorted 0 l0 -> ranges_lookup (D := list Z) l0 c = None).
    { intros l0 Hl0. destruct (ranges_lookup l0 c) eqn:El; [|done]. apply ranges_lookup_bound in El; [lia|done]. }
    rewrite !Hno by done. naive_solver lia.
Qed.

(** ** Finalization *)

Definition shown (r : MutableRange (list Z)) : OtherRange (list Z) := mkOtherRange (mr_first r) (mr_last r) (mr_data r).

(** Sinking ranges appends them. *)
Lemma sink_ranges_spec rs : forall nfa,
  exists tr tg, foldl sink_range nfa rs =
    mkNFA (nfa_nodes nfa) (nfa_transitions nfa ++ tr) (nfa_targets nfa ++ tg) (nfa_epsilonTransitionsTargets nfa) (nfa_actions nfa) /\
    length tr = length rs /\
    forall more, omap_all (fun r => let* ts := vslice (nfa_targets nfa ++ tg ++ more) (ir_targetStart r) (ir_targetEnd r) in
                            Done (mkOtherRange (ir_first r) (ir_last r) ts)) tr = Done (map shown rs).
Proof.
  induction rs as [|r rs IH]; intros nfa; cbn [foldl].
  { exists [], []. rewrite !app_nil_r. split_and!; [by destruct nfa|done|done]. }
  destruct (IH (sink_range nfa r)) as (tr & tg & E & Hl & Ho). rewrite E. unfold sink_range in *. cbn in *.
  exists (mkImmutableRange (vsize (nfa_targets nfa)) (vsize (nfa_targets nfa ++ mr_data r)) (mr_first r) (mr_last r) :: tr), (mr_data r ++ tg).
  rewrite <- !app_assoc. split_and!; [done|simpl; lia|]. intros more. cbn.
  assert (Hv : vslice (nfa_targets nfa ++ (mr_data r ++ tg) ++ more) (vsize (nfa_targets nfa)) (vsize (nfa_targets nfa ++ mr_data r)) = Done (mr_data r)).
  { rewrite <- app_assoc, app_assoc. apply vslice_mono, vslice_app; [apply vsize_nonneg|done|apply vsize_app]. }
  rewrite Hv. cbn [obind]. specialize (Ho more). rewrite <- !app_assoc in Ho |- *. rewrite Ho. done.
Qed.

Lemma finalize_spec nfa b l :
  builder_holds b l -> 0 <= b_nodeId b < vsize (nfa_nodes nfa) ->
  exists nfa', finalize nfa b = Done nfa' /\ extends_but (b_nodeId b) nfa nfa' /\ vsize (nfa_nodes nfa') = vsize (nfa_nodes nfa) /\
    node_is nfa' (b_nodeId b) l (b_epsilonTransitionTargets b) (b_actions b).
Proof.
  intros [Hr Hs] Hid. unfold finalize. destruct (vget_total _ _ Hid) as (node & En & _). rewrite En. cbn [obind sinkActions sinkEpsilonTransitions].
  unfold sinkTransitions. destruct (iterate_represents _ _ Hr) as (rs & Ei & Es). rewrite Ei. cbn [obind].
  match goal with |- context [foldl sink_range ?n rs] => destruct (sink_ranges_spec rs n) as (tr & tg & E & Hl & Ho); rewrite E end. cbn in *.
  rewrite vset_Done by done. cbn [obind]. eexists. split; [done|]. split; [split|split].
  - cbn. rewrite vsize_insert. lia.
  - intros m l0 eps acts Hm Hi. eapply (node_is_mono _ _ m l0 eps acts tr tg _ _ Hi); cbn; try done.
    rewrite vget_insert by done. by destruct (Z.eqb_spec m (b_nodeId b)).
  - cbn. apply vsize_insert.
  - constructor; unfold transitionsForNode, epsilonTargetsForNode, actionsForNode; cbn; rewrite vget_insert by done; rewrite Z.eqb_refl; cbn.
    + rewrite vslice_app; [|apply vsize_nonneg|done|apply vsize_app]. cbn [obind]. specialize (Ho []). rewrite app_nil_r in Ho. rewrite Ho. by rewrite <- Es.
    + apply vslice_app; [apply vsize_nonneg|done|apply vsize_app].
    + apply vslice_app; [apply vsize_nonneg|done|apply vsize_app].
Qed.

Lemma finalize_wf nfa b l nfa' : builder_holds b l -> finalize nfa b = Done nfa' -> nfa_wf nfa -> nfa_wf nfa'.
Proof.
  intros Hb Hf Hw n Hn. pose proof Hf as Hf'. unfold finalize in Hf'. obind_inv Hf'. pose proof (vget_range _ _ _ E) as Hid.
  destruct (finalize_spec nfa b l Hb Hid) as (nfa'' & E'' & [_ He] & Hs & Hi). rewrite Hf in E''. injection E'' as <-.
  destruct (Z.eq_dec n (b_nodeId b)) as [->|Hne].
  - exists l, (b_epsilonTransitionTargets b), (b_actions b). split; [done|]. apply (bh_sorted _ _ Hb).
  - destruct (Hw n) as (l0 & eps & acts & Hi0 & Hs0); [lia|]. exists l0, eps, acts. auto.
Qed.
End Builder.
