(* ===== verification/Term.v ===== *)
(** * Terms of a URL filter (Term.h)

    A parsed filter is a sequence of terms: character sets and groups with a
    quantifier.  [generateGraph] adds to an NFA the edges for one term between
    two given nodes. *)

From S2P Require Import Prelude Containers RangeList Nfa.

Inductive AtomQuantifier := One | ZeroOrOne | ZeroOrMore | OneOrMore.

#[global] Instance AtomQuantifier_eq_dec : EqDecision AtomQuantifier.
Proof. solve_decision. Defined.

(** ** Character sets: two 64-bit words *)

Record CharacterSet := mkCharacterSet { m_inverted : bool; m_characters0 : Z; m_characters1 : Z }.

#[global] Instance CharacterSet_eq_dec : EqDecision CharacterSet.
Proof. solve_decision. Defined.

Definition emptyCharacterSet : CharacterSet := mkCharacterSet false 0 0.

Definition word_bit (character : Z) : Z := Z.shiftl 1 (character mod 64).

Definition cs_set (cs : CharacterSet) (character : Z) : outcome CharacterSet :=
  let* _ := release_assert (character <? 128) in
  Done (if character / 64 =? 0
        then mkCharacterSet (m_inverted cs) (Z.lor (m_characters0 cs) (word_bit character)) (m_characters1 cs)
        else mkCharacterSet (m_inverted cs) (m_characters0 cs) (Z.lor (m_characters1 cs) (word_bit character))).

Definition cs_word (cs : CharacterSet) (character : Z) : Z :=
  if character / 64 =? 0 then m_characters0 cs else m_characters1 cs.

Definition cs_get (cs : CharacterSet) (character : Z) : outcome bool :=
  let* _ := release_assert (character <? 128) in
  Done (negb (Z.land (cs_word cs character) (word_bit character) =? 0)).

Definition cs_invert (cs : CharacterSet) : CharacterSet := mkCharacterSet true (m_characters0 cs) (m_characters1 cs).

(** The result of [cs_get] where its assertion holds. *)
Definition cs_mem (cs : CharacterSet) (character : Z) : bool :=
  match cs_get cs character with Done b => b | _ => false end.

(** [WTF::bitCount] of StdLibExtras.h, on 32 and on 64 bits. *)
Definition bitCount32 (bits : Z) : Z :=
  let bits := u32 (bits - Z.land (Z.shiftr bits 1) 0x55555555) in
  let bits := u32 (Z.land bits 0x33333333 + Z.land (Z.shiftr bits 2) 0x33333333) in
  Z.shiftr (u32 (Z.land (u32 (bits + Z.shiftr bits 4)) 0xF0F0F0F * 0x1010101)) 24.

Definition bitCount64 (bits : Z) : Z := bitCount32 (u32 bits) + bitCount32 (u32 (Z.shiftr bits 32)).

Definition cs_bitCount (cs : CharacterSet) : Z := bitCount64 (m_characters0 cs) + bitCount64 (m_characters1 cs).

(** ** Terms *)

Inductive Term :=
| EmptyTerm (quantifier : AtomQuantifier)
| CharacterSetTerm (characterSet : CharacterSet) (quantifier : AtomQuantifier)
| GroupTerm (terms : list Term) (quantifier : AtomQuantifier).

Definition m_quantifier (t : Term) : AtomQuantifier :=
  match t with EmptyTerm q | CharacterSetTerm _ q | GroupTerm _ q => q end.

Definition Term_ind' (P : Term -> Prop) (He : forall q, P (EmptyTerm q)) (Hc : forall cs q, P (CharacterSetTerm cs q))
    (Hg : forall ts q, Forall P ts -> P (GroupTerm ts q)) : forall t, P t :=
  fix F t :=
    match t with
    | EmptyTerm q => He q
    | CharacterSetTerm cs q => Hc cs q
    | GroupTerm ts q => Hg ts q ((fix G ts := match ts return Forall P ts with
                                              | [] => Forall_nil_2 P
                                              | t :: ts' => Forall_cons_2 P t ts' (F t) (G ts')
                                              end) ts)
    end.

(** [Term::operator==]. *)
Fixpoint Term_eqb (a b : Term) : bool :=
  let fix terms_eqb (l1 l2 : list Term) : bool :=
    match l1, l2 with
    | [], [] => true
    | x :: l1', y :: l2' => Term_eqb x y && terms_eqb l1' l2'
    | _, _ => false
    end in
  bool_decide (m_quantifier a = m_quantifier b) &&
  match a, b with
  | EmptyTerm _, EmptyTerm _ => true
  | CharacterSetTerm c1 _, CharacterSetTerm c2 _ => bool_decide (c1 = c2)
  | GroupTerm l1 _, GroupTerm l2 _ => terms_eqb l1 l2
  | _, _ => false
  end.

(** [isValid()]. *)
Definition Term_isValid (t : Term) : bool := match t with EmptyTerm _ => false | _ => true end.

(** [addCharacter(character, isCaseSensitive)]; a no-op on other terms. *)
Definition cs_addCharacter (cs : CharacterSet) (character : Z) (isCaseSensitive : bool) : outcome CharacterSet :=
  if isCaseSensitive || negb (isASCIIAlpha character) then cs_set cs character
  else let* cs1 := cs_set cs (toASCIIUpper character) in cs_set cs1 (toASCIILower character).

Definition addCharacter (t : Term) (character : Z) (isCaseSensitive : bool) : outcome Term :=
  match t with
  | CharacterSetTerm cs q => let* cs' := cs_addCharacter cs character isCaseSensitive in Done (CharacterSetTerm cs' q)
  | _ => Done t
  end.

(** A code unit that is passed as a [char] (of eight bits, signed) and then as a
    [UChar]. *)
Definition through_char (character : Z) : Z := let byte := u8 character in u16 (if byte <? 128 then byte else byte - 256).

Lemma through_char_ascii c : 0 <= c < 128 -> through_char c = c.
Proof. intros Hc. unfold through_char. rewrite u8_small by lia. destruct (Z.ltb_spec c 128); [|lia]. apply u16_small. lia. Qed.

(** The constructors; [Term(character, isCaseSensitive)] takes a [char]. *)
Definition Term_character (character : Z) (isCaseSensitive : bool) : outcome Term :=
  addCharacter (CharacterSetTerm emptyCharacterSet One) (through_char character) isCaseSensitive.

Definition Term_universalTransition : outcome Term :=
  let* cs := ofold cs_set emptyCharacterSet (seqZ 1 127) in Done (CharacterSetTerm cs One).

Definition Term_characterSet (isInverted : bool) : Term :=
  CharacterSetTerm (if isInverted then cs_invert emptyCharacterSet else emptyCharacterSet) One.

Definition Term_group : Term := GroupTerm [] One.

Definition Term_endOfLineAssertion : outcome Term :=
  let* cs := cs_set emptyCharacterSet 0 in Done (CharacterSetTerm cs One).

Definition extendGroupSubpattern (t term : Term) : Term :=
  match t with GroupTerm terms q => GroupTerm (terms ++ [term]) q | _ => t end.

Definition quantify (t : Term) (q : AtomQuantifier) : Term :=
  match t with
  | EmptyTerm _ => EmptyTerm q
  | CharacterSetTerm cs _ => CharacterSetTerm cs q
  | GroupTerm terms _ => GroupTerm terms q
  end.

Definition isEndOfLineAssertion (t : Term) : bool :=
  match t with CharacterSetTerm cs _ => (cs_bitCount cs =? 1) && cs_mem cs 0 | _ => false end.

Fixpoint matchesAtLeastOneCharacter (t : Term) : bool :=
  if bool_decide (m_quantifier t = ZeroOrOne) || bool_decide (m_quantifier t = ZeroOrMore) then false
  else if isEndOfLineAssertion t then false
  else match t with
       | GroupTerm terms _ => existsb matchesAtLeastOneCharacter terms
       | _ => true
       end.

Fixpoint isUniversalTransition (t : Term) : bool :=
  match t with
  | EmptyTerm _ => false
  | CharacterSetTerm cs _ =>
      (m_inverted cs && (cs_bitCount cs =? 0))
      || (negb (m_inverted cs) && (cs_bitCount cs =? 127) && negb (cs_mem cs 0))
  | GroupTerm terms _ => match terms with [t1] => isUniversalTransition t1 | _ => false end
  end.

Fixpoint isKnownToMatchAnyString (t : Term) : bool :=
  match t with
  | EmptyTerm _ => false
  | CharacterSetTerm _ q => isUniversalTransition t && bool_decide (q = ZeroOrMore)
  | GroupTerm terms q =>
      match terms with
      | [t1] =>
          if isKnownToMatchAnyString t1 then true
          else if isUniversalTransition t1 then
            bool_decide (q = ZeroOrMore)
            || (bool_decide (q = ZeroOrOne) && bool_decide (m_quantifier t1 = OneOrMore))
            || (bool_decide (q = OneOrMore) && bool_decide (m_quantifier t1 = ZeroOrOne))
          else false
      | _ => false
      end
  end.

Fixpoint hasFixedLength (t : Term) : bool :=
  match t with
  | EmptyTerm _ => false
  | CharacterSetTerm _ q => bool_decide (q = One)
  | GroupTerm terms q => bool_decide (q = One) && forallb hasFixedLength terms
  end.

(** ** Graph generation *)

Section Graph.
Context `{HashOrder}.

(** [while (i < 128 && !p(i)) ++i]. *)
Fixpoint next_index (p : Z -> bool) (fuel : nat) (i : Z) : Z :=
  match fuel with
  | O => i
  | S fuel' => if (i <? 128) && negb (p i) then next_index p fuel' (i + 1) else i
  end.

(** The loop that adds one transition per run of characters of the set. *)
Fixpoint add_runs (p : Z -> bool) (fuel : nat) (i : Z) (source : builder) (destination : Z) : outcome builder :=
  match fuel with
  | O => OutOfFuel
  | S fuel' =>
      let start := next_index p 128 i in
      if start =? 128 then Done source
      else
        let stop := next_index (fun c => negb (p c)) 128 (start + 1) in
        let* source' := addTransition source start (stop - 1) destination in
        add_runs p fuel' stop source' destination
  end.

Definition add_character_set (cs : CharacterSet) (source : builder) (destination : Z) : outcome builder :=
  if negb (m_inverted cs) then add_runs (cs_mem cs) 130 0 source destination
  else add_runs (fun c => negb (cs_mem cs c)) 130 1 source destination.

(** [generateGraph(nfa, source, destination)], for the subgraph of the atom
    [atom]: the switch on the quantifier.  The builders of the loop are
    finalized at the end of their scope, the last one first. *)
Definition generate_quantified (atom : NFA -> builder -> Z -> outcome (NFA * builder)) (q : AtomQuantifier)
    (nfa : NFA) (source : builder) (destination : Z) : outcome (NFA * builder) :=
  match q with
  | One => atom nfa source destination
  | ZeroOrOne =>
      let* (nfa1, source1) := atom nfa source destination in
      Done (nfa1, addEpsilonTransition source1 destination)
  | ZeroOrMore =>
      let (nfa1, repeatStart) := newBuilder nfa in
      let source1 := addEpsilonTransition source (b_nodeId repeatStart) in
      let (nfa2, repeatEnd) := newBuilder nfa1 in
      let* (nfa3, repeatStart1) := atom nfa2 repeatStart (b_nodeId repeatEnd) in
      let repeatEnd1 := addEpsilonTransition repeatEnd (b_nodeId repeatStart1) in
      let repeatEnd2 := addEpsilonTransition repeatEnd1 destination in
      let source2 := addEpsilonTransition source1 destination in
      let* nfa4 := finalize nfa3 repeatEnd2 in
      let* nfa5 := finalize nfa4 repeatStart1 in
      Done (nfa5, source2)
  | OneOrMore =>
      let (nfa1, repeatStart) := newBuilder nfa in
      let source1 := addEpsilonTransition source (b_nodeId repeatStart) in
      let (nfa2, repeatEnd) := newBuilder nfa1 in
      let* (nfa3, repeatStart1) := atom nfa2 repeatStart (b_nodeId repeatEnd) in
      let repeatEnd1 := addEpsilonTransition repeatEnd (b_nodeId repeatStart1) in
      let repeatEnd2 := addEpsilonTransition repeatEnd1 destination in
      let* nfa4 := finalize nfa3 repeatEnd2 in
      let* nfa5 := finalize nfa4 repeatStart1 in
      Done (nfa5, source1)
  end.

(** The terms of a group after the first: [lastTarget] is replaced, and so
    finalized, at every step. *)
Definition generate_rest (gen : Term -> NFA -> builder -> Z -> outcome (NFA * builder)) (destination : Z) :=
  fix rest (ts : list Term) (nfa : NFA) (lastTarget : builder) : outcome NFA :=
    match ts with
    | [] => finalize nfa lastTarget
    | [t] =>
        let* (nfa1, lastTarget1) := gen t nfa lastTarget destination in
        finalize nfa1 lastTarget1
    | t :: ts' =>
        let (nfa1, newNode) := newBuilder nfa in
        let* (nfa2, lastTarget1) := gen t nfa1 lastTarget (b_nodeId newNode) in
        let* nfa3 := finalize nfa2 lastTarget1 in
        rest ts' nfa3 newNode
    end.

Fixpoint generateSubgraphForAtom (t : Term) (nfa : NFA) (source : builder) (destination : Z) {struct t} : outcome (NFA * builder) :=
  match t with
  | EmptyTerm _ => Done (nfa, addEpsilonTransition source destination)
  | CharacterSetTerm cs _ =>
      let* source1 := add_character_set cs source destination in Done (nfa, source1)
  | GroupTerm terms _ =>
      match terms with
      | [] => Done (nfa, addEpsilonTransition source destination)
      | [t1] => generate_quantified (generateSubgraphForAtom t1) (m_quantifier t1) nfa source destination
      | t1 :: rest =>
          let (nfa1, lastTarget) := newBuilder nfa in
          let* (nfa2, source1) := generate_quantified (generateSubgraphForAtom t1) (m_quantifier t1) nfa1 source (b_nodeId lastTarget) in
          let* nfa3 := generate_rest (fun t => generate_quantified (generateSubgraphForAtom t) (m_quantifier t))
                         destination rest nfa2 lastTarget in
          Done (nfa3, source1)
      end
  end.

(** [Term::generateGraph(nfa, source, destination)]. *)
Definition generateGraph (t : Term) : NFA -> builder -> Z -> outcome (NFA * builder) :=
  generate_quantified (generateSubgraphForAtom t) (m_quantifier t).

(** [Term::generateGraph(nfa, source, finalActions)]: also returns the builder
    of the new end node. *)
Definition generateGraphToNewNode (t : Term) (nfa : NFA) (source : builder) (finalActions : list Z) : outcome (NFA * builder * builder) :=
  let (nfa1, newEnd) := newBuilder nfa in
  let* (nfa2, source1) := generateGraph t nfa1 source (b_nodeId newEnd) in
  Done (nfa2, source1, builder_setActions newEnd finalActions).
End Graph.
