(* ===== verification/TermGraph.v ===== *)
(** * Counting bits

    [WTF::bitCount] sums bits in parallel in the fields of a word.  It counts
    the bits that are set, shown byte by byte: every step but the last acts on
    the bytes of the word independently. *)

From S2P Require Import Prelude Containers RangeList RangeListProofs Nfa NfaProofs Term.

(** [lia] on quotients and remainders. *)
#[local] Ltac Zify.zify_post_hook ::= Z.div_mod_to_equations.

(** ** Counting bits *)

(** The number of bits set among the lowest [n]. *)
Definition popcount (n x : Z) : Z := vsize (List.filter (Z.testbit x) (seqZ 0 n)).

Lemma filter_ext_in_Z (f g : Z -> bool) l : (forall i, i ∈ l -> f i = g i) -> List.filter f l = List.filter g l.
Proof. intros Hfg. apply List.filter_ext_in. intros i Hi. apply Hfg. by apply list_elem_of_In. Qed.

Lemma filter_fmap_length (f : Z -> bool) (g : Z -> Z) l : length (List.filter f (g <$> l)) = length (List.filter (fun i => f (g i)) l).
Proof. induction l as [|x l IH]; [done|]. rewrite fmap_cons. cbn [List.filter]. destruct (f (g x)); cbn [length]; lia. Qed.

Lemma popcount_split k n x : 0 <= k -> 0 <= n -> popcount (k + n) x = popcount k (x mod 2 ^ k) + popcount n (x / 2 ^ k).
Proof.
  intros Hk Hn. unfold popcount, vsize. rewrite seqZ_app, List.filter_app, length_app by lia. rewrite Nat2Z.inj_add. f_equal.
  - f_equal. f_equal. apply filter_ext_in_Z. intros i [? ?]%elem_of_seqZ. rewrite Z.mod_pow2_bits_low; [done|lia].
  - f_equal. replace (seqZ (0 + k) n) with (Z.add k <$> seqZ 0 n) by (rewrite fmap_add_seqZ; f_equal; lia).
    rewrite filter_fmap_length. f_equal. apply filter_ext_in_Z. intros i [? ?]%elem_of_seqZ.
    rewrite <- Z.shiftr_div_pow2, Z.shiftr_spec by lia. f_equal. lia.
Qed.

(** A statement over all bytes is decided by running it on each of them. *)
Lemma forall_bytes (P : Z -> bool) : forallb P (seqZ 0 256) = true -> forall b, 0 <= b < 256 -> P b = true.
Proof. intros HP b Hb. rewrite forallb_forall in HP. apply HP, list_elem_of_In, elem_of_seqZ. lia. Qed.

Definition bytes (b0 b1 b2 b3 : Z) : Z := b0 + 256 * (b1 + 256 * (b2 + 256 * b3)).

Lemma land_mod a b k : 0 <= k -> Z.land a b mod 2 ^ k = Z.land (a mod 2 ^ k) (b mod 2 ^ k).
Proof.
  intros Hk. apply Z.bits_inj'. intros i Hi. rewrite Z.land_spec. destruct (Z.lt_ge_cases i k).
  - by rewrite !Z.mod_pow2_bits_low, Z.land_spec by lia.
  - by rewrite !Z.mod_pow2_bits_high by lia.
Qed.

Lemma land_div a b k : 0 <= k -> Z.land a b / 2 ^ k = Z.land (a / 2 ^ k) (b / 2 ^ k).
Proof. intros Hk. by rewrite <- !Z.shiftr_div_pow2, Z.shiftr_land by done. Qed.

Lemma land_small_r a m k : 0 <= k -> 0 <= m < 2 ^ k -> Z.land a m = Z.land (a mod 2 ^ k) m.
Proof.
  intros Hk Hm. rewrite <- (Z.land_ones a k), <- Z.land_assoc, (Z.land_comm (Z.ones k)), Z.land_ones by done. by rewrite (Z.mod_small m).
Qed.

(** A mask that drops the bits shifted in from the byte above acts byte by byte. *)
Lemma land_shift_byte j m M h b : 0 <= j <= 8 -> 0 <= m < 2 ^ (8 - j) -> 0 <= b < 256 ->
  Z.land (Z.shiftr (b + 256 * h) j) (m + 256 * M) = Z.land (Z.shiftr b j) m + 256 * Z.land (Z.shiftr h j) M.
Proof.
  intros Hj Hm Hb. assert (Hm8 : m < 2 ^ 8) by (eapply Z.lt_le_trans; [apply Hm|]; apply Z.pow_le_mono_r; lia).
  assert (H256 : 256 = 2 ^ j * 2 ^ (8 - j)) by (rewrite <- Z.pow_add_r by lia; by replace (j + (8 - j)) with 8 by lia).
  assert (Hmm : (m + 256 * M) mod 256 = m) by (rewrite (Z.mul_comm 256), Z_mod_plus_full; apply Z.mod_small; lia).
  assert (Hmd : (m + 256 * M) / 256 = M) by (rewrite (Z.mul_comm 256), Z.div_add, Z.div_small; lia).
  rewrite (Z.div_mod (Z.land (Z.shiftr (b + 256 * h) j) (m + 256 * M)) (2 ^ 8)) by lia. rewrite land_mod, land_div by lia.
  change (2 ^ 8) with 256. rewrite Hmm, Hmd, Z.add_comm. f_equal; [|f_equal; f_equal].
  - rewrite (land_small_r _ m (8 - j)) by lia. rewrite (land_small_r (Z.shiftr b j) m (8 - j)) by lia. f_equal.
    rewrite Z.mod_mod_divide by (exists (2 ^ j); lia). rewrite !Z.shiftr_div_pow2 by lia. rewrite H256.
    replace (b + 2 ^ j * 2 ^ (8 - j) * h) with (b + 2 ^ (8 - j) * h * 2 ^ j) by lia. rewrite Z.div_add by lia.
    by rewrite (Z.mul_comm (2 ^ (8 - j))), Z_mod_plus_full.
  - rewrite !Z.shiftr_div_pow2, Z.div_div, (Z.mul_comm (2 ^ j) 256), <- Z.div_div by lia.
    replace ((b + 256 * h) / 256) with h; [done|]. clear - Hb. lia.
Qed.

Definition byte (b : Z) : Prop := 0 <= b < 256.

Lemma land_shift_bytes j m b0 b1 b2 b3 : 0 <= j <= 8 -> 0 <= m < 2 ^ (8 - j) -> byte b0 -> byte b1 -> byte b2 -> byte b3 ->
  let f b := Z.land (Z.shiftr b j) m in
  Z.land (Z.shiftr (bytes b0 b1 b2 b3) j) (bytes m m m m) = bytes (f b0) (f b1) (f b2) (f b3).
Proof. unfold byte, bytes. intros Hj Hm H0 H1 H2 H3. by rewrite !land_shift_byte. Qed.

Lemma land_bytes m b0 b1 b2 b3 : byte m -> byte b0 -> byte b1 -> byte b2 -> byte b3 ->
  Z.land (bytes b0 b1 b2 b3) (bytes m m m m) = bytes (Z.land b0 m) (Z.land b1 m) (Z.land b2 m) (Z.land b3 m).
Proof. intros Hm H0 H1 H2 H3. rewrite <- (Z.shiftr_0_r (bytes b0 b1 b2 b3)), land_shift_bytes by (try done; lia). cbv zeta. by rewrite !Z.shiftr_0_r. Qed.

(** The three steps of the count, on one byte. *)
Definition swar1 (b : Z) : Z := b - Z.land (Z.shiftr b 1) 0x55.
Definition swar2 (b : Z) : Z := Z.land (swar1 b) 0x33 + Z.land (Z.shiftr (swar1 b) 2) 0x33.
Definition swar3 (b : Z) : Z := swar2 b + swar2 b / 16.

Lemma swar_byte b : byte b ->
  byte (swar1 b) /\ byte (swar2 b) /\ 0 <= swar3 b < 128 /\ 0 <= swar2 b mod 16 < 8 /\ swar3 b mod 16 = popcount 8 b /\ 0 <= popcount 8 b <= 8.
Proof.
  intros Hb. unfold byte in *.
  pose proof (forall_bytes (fun b => (0 <=? swar1 b) && (swar1 b <? 256) && (0 <=? swar2 b) && (swar2 b <? 256) && (0 <=? swar3 b) && (swar3 b <? 128)
    && (0 <=? swar2 b mod 16) && (swar2 b mod 16 <? 8) && (swar3 b mod 16 =? popcount 8 b) && (0 <=? popcount 8 b) && (popcount 8 b <=? 8))
    ltac:(by vm_compute) b Hb) as E.
  cbv beta in E. rewrite !andb_true_iff, !Z.leb_le, !Z.ltb_lt, Z.eqb_eq in E. intuition.
Qed.

Lemma bytes_range b0 b1 b2 b3 : byte b0 -> byte b1 -> byte b2 -> byte b3 -> 0 <= bytes b0 b1 b2 b3 < 2 ^ 32.
Proof. unfold byte, bytes. lia. Qed.

Lemma bytes_fold y0 y1 y2 y3 :
  bytes y0 y1 y2 y3 + bytes y0 y1 y2 y3 / 16 =
  bytes (y0 + y0 / 16 + 16 * (y1 mod 16)) (y1 + y1 / 16 + 16 * (y2 mod 16)) (y2 + y2 / 16 + 16 * (y3 mod 16)) (y3 + y3 / 16).
Proof.
  unfold bytes. replace (y0 + 256 * (y1 + 256 * (y2 + 256 * y3))) with (y0 + 16 * (y1 + 256 * (y2 + 256 * y3)) * 16) at 2 by lia.
  rewrite Z.div_add by lia. lia.
Qed.

Lemma bytes_sum p0 p1 p2 p3 : 0 <= p0 <= 8 -> 0 <= p1 <= 8 -> 0 <= p2 <= 8 -> 0 <= p3 <= 8 ->
  u32 (bytes p0 p1 p2 p3 * 0x1010101) / 2 ^ 24 = p0 + p1 + p2 + p3.
Proof.
  intros. unfold u32, bytes. set (low := p0 + 2 ^ 8 * (p0 + p1) + 2 ^ 16 * (p0 + p1 + p2)).
  replace (_ * 0x1010101) with (low + (p0 + p1 + p2 + p3) * 2 ^ 24 + (p1 + p2 + p3 + 2 ^ 8 * (p2 + p3) + 2 ^ 16 * p3) * 2 ^ 32) by (unfold low; ring).
  rewrite Z_mod_plus_full, Z.mod_small by (unfold low; lia). rewrite Z.div_add by lia. rewrite Z.div_small; [done|]. unfold low. lia.
Qed.

Lemma bitCount32_bytes b0 b1 b2 b3 : byte b0 -> byte b1 -> byte b2 -> byte b3 ->
  bitCount32 (bytes b0 b1 b2 b3) = popcount 8 b0 + popcount 8 b1 + popcount 8 b2 + popcount 8 b3.
Proof.
  intros H0 H1 H2 H3. unfold bitCount32.
  destruct (swar_byte _ H0) as (P0 & Q0 & R0 & S0 & T0 & U0). destruct (swar_byte _ H1) as (P1 & Q1 & R1 & S1 & T1 & U1).
  destruct (swar_byte _ H2) as (P2 & Q2 & R2 & S2 & T2 & U2). destruct (swar_byte _ H3) as (P3 & Q3 & R3 & S3 & T3 & U3).
  change 0x55555555 with (bytes 0x55 0x55 0x55 0x55). rewrite land_shift_bytes by (try done; lia). cbv zeta.
  replace (u32 (bytes b0 b1 b2 b3 - _)) with (bytes (swar1 b0) (swar1 b1) (swar1 b2) (swar1 b3)).
  2:{ symmetry. etransitivity; [|apply u32_small; by apply bytes_range]. f_equal. unfold swar1, bytes. lia. }
  change 0x33333333 with (bytes 0x33 0x33 0x33 0x33). rewrite land_shift_bytes, land_bytes by (try done; lia). cbv zeta.
  replace (u32 (bytes _ _ _ _ + bytes _ _ _ _)) with (bytes (swar2 b0) (swar2 b1) (swar2 b2) (swar2 b3)).
  2:{ symmetry. etransitivity; [|apply u32_small; by apply bytes_range]. f_equal. unfold swar2, bytes. lia. }
  set (carry b := 16 * (swar2 b mod 16)).
  replace (u32 (bytes (swar2 b0) _ _ _ + _)) with (bytes (swar3 b0 + carry b1) (swar3 b1 + carry b2) (swar3 b2 + carry b3) (swar3 b3)).
  2:{ symmetry. etransitivity; [|apply u32_small; apply bytes_range; unfold byte, carry in *; lia]. f_equal.
      rewrite Z.shiftr_div_pow2 by lia. change (2 ^ 4) with 16. apply bytes_fold. }
  change 0xF0F0F0F with (bytes 0xF 0xF 0xF 0xF). rewrite land_bytes by (unfold byte, carry in *; lia).
  change 0xF with (Z.ones 4). rewrite !Z.land_ones by lia.
  assert (Hc : forall x b, (x + carry b) mod 2 ^ 4 = x mod 16) by (intros x b; unfold carry; rewrite Z.mul_comm, Z_mod_plus_full; done).
  rewrite !Hc. change (2 ^ 4) with 16. rewrite T0, T1, T2, T3. rewrite Z.shiftr_div_pow2 by lia. by apply bytes_sum.
Qed.

Lemma bitCount32_popcount x : 0 <= x < 2 ^ 32 -> bitCount32 x = popcount 32 x.
Proof.
  intros Hx. assert (Hb : forall y, byte (y mod 256)) by (intros y; apply Z.mod_pos_bound; lia).
  replace (bitCount32 x) with (bitCount32 (bytes (x mod 256) (x / 256 mod 256) (x / 256 / 256 mod 256) (x / 256 / 256 / 256 mod 256))).
  2:{ f_equal. unfold bytes. lia. }
  rewrite bitCount32_bytes by done.
  change 32 with (8 + (8 + (8 + 8))). rewrite !popcount_split by lia. change (2 ^ 8) with 256.
  rewrite (Z.mod_small (x / 256 / 256 / 256)) by lia. lia.
Qed.

Lemma bitCount64_popcount x : 0 <= x < 2 ^ 64 -> bitCount64 x = popcount 64 x.
Proof.
  intros Hx. unfold bitCount64. assert (Hs : 0 <= Z.shiftr x 32 < 2 ^ 32) by (rewrite Z.shiftr_div_pow2 by lia; lia).
  rewrite (u32_small (Z.shiftr x 32)) by done. rewrite !bitCount32_popcount by (try done; apply u32_range).
  change 64 with (32 + 32). rewrite popcount_split by lia. by rewrite Z.shiftr_div_pow2 by lia.
Qed.

(** ** The graph of a term spells the language of the term

    [generateGraph] adds edges between the source node, the destination node
    and fresh nodes; the paths from source to destination over these edges
    spell exactly the words the term matches. *)

(** ** Languages *)

Definition lang : Type := list Z -> Prop.

Definition lang_concat (A B : lang) : lang := fun w => exists u v, w = u ++ v /\ A u /\ B v.

Inductive lang_star (A : lang) : lang :=
| star_nil : lang_star A []
| star_app u v : A u -> lang_star A v -> lang_star A (u ++ v).

Definition lang_quantified (q : AtomQuantifier) (A : lang) : lang := fun w =>
  match q with
  | One => A w
  | ZeroOrOne => w = [] \/ A w
  | ZeroOrMore => lang_star A w
  | OneOrMore => exists u v, w = u ++ v /\ A u /\ lang_star A v
  end.

(** The characters a set matches; a zero is the end of the line. *)
Definition cs_matches (cs : CharacterSet) (c : Z) : bool :=
  if m_inverted cs then (1 <=? c) && (c <? 128) && negb (cs_mem cs c) else (0 <=? c) && (c <? 128) && cs_mem cs c.

Fixpoint atom_lang (t : Term) : lang :=
  match t with
  | EmptyTerm _ => fun w => w = []
  | CharacterSetTerm cs _ => fun w => exists c, w = [c] /\ cs_matches cs c = true
  | GroupTerm terms _ =>
      (fix terms_lang (ts : list Term) : lang :=
         match ts with
         | [] => fun w => w = []
         | t :: ts' => lang_concat (lang_quantified (m_quantifier t) (atom_lang t)) (terms_lang ts')
         end) terms
  end.

Definition term_lang (t : Term) : lang := lang_quantified (m_quantifier t) (atom_lang t).

(** The language of a sequence of terms. *)
Fixpoint terms_lang (ts : list Term) : lang :=
  match ts with
  | [] => fun w => w = []
  | t :: ts' => lang_concat (term_lang t) (terms_lang ts')
  end.

Lemma atom_lang_group ts q w : atom_lang (GroupTerm ts q) w <-> terms_lang ts w.
Proof.
  simpl. revert w. induction ts as [|t ts IH]; intros w; [done|]. simpl. unfold lang_concat, term_lang.
  split; intros (u & v & -> & Hu & Hv); exists u, v; (split_and!; [done|done|by apply IH]).
Qed.

Lemma lang_concat_nil_l A w : lang_concat (fun w => w = []) A w <-> A w.
Proof. split; [by intros (u & v & -> & -> & Hv)|]. intros Ha. by exists [], w. Qed.

Lemma lang_concat_nil_r A w : lang_concat A (fun w => w = []) w <-> A w.
Proof. split; [intros (u & v & -> & Hu & ->); by rewrite app_nil_r|]. intros Ha. exists w, []. by rewrite app_nil_r. Qed.

Lemma lang_concat_assoc A B C w : lang_concat (lang_concat A B) C w <-> lang_concat A (lang_concat B C) w.
Proof.
  split.
  - intros (x & v & -> & (u & u' & -> & Ha & Hb) & Hc). exists u, (u' ++ v). rewrite app_assoc. split_and!; try done. by exists u', v.
  - intros (u & x & -> & Ha & (u' & v & -> & Hb & Hc)). exists (u ++ u'), v. rewrite app_assoc. split_and!; try done. by exists u, u'.
Qed.

Lemma terms_lang_app a b w : terms_lang (a ++ b) w <-> lang_concat (terms_lang a) (terms_lang b) w.
Proof.
  revert w. induction a as [|t a IH]; intros w; simpl; [by rewrite lang_concat_nil_l|].
  rewrite lang_concat_assoc. unfold lang_concat at 1 3. setoid_rewrite IH. done.
Qed.

(** ** Fragments

    A fragment leads from [s] to [d] through the fresh nodes [lo..hi-1]; no
    edge of it enters [s] or leaves [d]. *)

Record fragment (E : graph) (lo hi s d : Z) (A : lang) : Prop := {
  fr_source : forall p l q, E p l q -> p = s \/ lo <= p < hi;
  fr_target : forall p l q, E p l q -> q = d \/ lo <= q < hi;
  fr_outside : s < lo /\ d < lo /\ s <> d;
  fr_lang : forall w, path E s w d <-> A w
}.

(** A path in a union of graphs that never leaves the first one. *)
Lemma path_stays (E1 E2 : graph) (inside : Z -> Prop) p w q :
  (forall a l b, inside a -> E2 a l b -> False) -> (forall a l b, inside a -> E1 a l b -> inside b) ->
  path (graph_union E1 E2) p w q -> inside p -> path E1 p w q.
Proof.
  intros H2 H1. induction 1 as [p|p q w r He Hp IH|p c q w r He Hp IH]; intros Hi; [constructor|..]; destruct He as [He|He]; [|naive_solver| |naive_solver].
  - eapply path_eps; [done|]. apply IH. eauto.
  - eapply path_char; [done|]. apply IH. eauto.
Qed.

(** Graphs that agree on the nodes a path can visit have the same paths. *)
Lemma path_agree (E1 E2 : graph) (inside : Z -> Prop) s w d :
  (forall p l q, inside p -> E1 p l q <-> E2 p l q) -> (forall p l q, inside p -> E1 p l q -> inside q) -> inside s ->
  path E1 s w d <-> path E2 s w d.
Proof.
  intros He Hin Hs. split; intros Hp; revert Hs.
  - induction Hp as [|p q w r Hq Hp IH|p c q w r Hq Hp IH]; intros Hs; [constructor|..]; (pose proof Hq as Hq'; apply He in Hq'; [|done]); eauto with ce.
  - induction Hp as [|p q w r Hq Hp IH|p c q w r Hq Hp IH]; intros Hs; [constructor|..]; apply He in Hq; try done; eauto with ce.
Qed.

(** A path from a node of the first graph to a node of the second passes
    through the node they share. *)
Lemma path_through (E1 E2 : graph) (inside : Z -> Prop) m p w q :
  (forall a l b, inside a -> a <> m -> E2 a l b -> False) ->
  (forall a l b, inside a -> E1 a l b -> inside b) ->
  (forall l b, E1 m l b -> False) ->
  (forall a, inside a \/ ~ inside a) ->
  path (graph_union E1 E2) p w q -> inside p -> ~ inside q ->
  exists u v, w = u ++ v /\ path E1 p u m /\ path (graph_union E1 E2) m v q.
Proof.
  intros H2 H1 Hm Hdec. induction 1 as [p|p q w r He Hp IH|p c q w r He Hp IH]; intros Hi Hq; [done|..];
    destruct (Z.eq_dec p m) as [->|Hpm].
  - exists [], w. split_and!; [done|constructor|by eapply path_eps].
  - destruct He as [He|He]; [|naive_solver]. destruct IH as (u & v & -> & Hu & Hv); [eauto|done|]. exists u, v. split_and!; eauto with ce.
  - exists [], (c :: w). split_and!; [done|constructor|by eapply path_char].
  - destruct He as [He|He]; [|naive_solver]. destruct IH as (u & v & -> & Hu & Hv); [eauto|done|]. exists (c :: u), v. split_and!; eauto with ce.
Qed.

(** ** Composing fragments *)

(** One empty edge. *)
Definition eps_edge (s d : Z) : graph := fun p l q => p = s /\ l = None /\ q = d.

(** Edges on the characters of a set. *)
Definition char_edges (s d : Z) (P : Z -> Prop) : graph := fun p l q => p = s /\ q = d /\ exists c, l = Some c /\ P c.

Lemma no_path_from (E : graph) d w q : (forall l b, ~ E d l b) -> path E d w q -> w = [] /\ q = d.
Proof. intros Hn Hp. inversion Hp; subst; [done|..]; exfalso; eapply Hn; eauto. Qed.

Lemma fragment_eps lo s d : s < lo -> d < lo -> s <> d -> fragment (eps_edge s d) lo lo s d (fun w => w = []).
Proof.
  intros H1 H2 H3. constructor; [intros p l q (-> & _)|intros p l q (_ & _ & ->)| |]; [by left|by left|done|]. intros w. split.
  - intros Hp. inversion Hp as [|? ? ? ? He Hp'|? ? ? ? ? He Hp']; subst; [done| |by destruct He as (_ & ? & _)].
    destruct He as (_ & _ & ->). eapply no_path_from in Hp' as [? _]; [done|]. intros l b (? & _). done.
  - intros ->. eapply path_eps; [done|constructor].
Qed.

Lemma fragment_chars lo s d P :
  s < lo -> d < lo -> s <> d -> fragment (char_edges s d P) lo lo s d (fun w => exists c, w = [c] /\ P c).
Proof.
  intros H1 H2 H3. constructor; [intros p l q (-> & _)|intros p l q (_ & -> & _)| |]; [by left|by left|done|]. intros w. split.
  - intros Hp. inversion Hp as [|? ? ? ? He Hp'|? c ? ? ? He Hp']; subst; [done|by destruct He as (_ & _ & ? & ? & _)|].
    destruct He as (_ & -> & c' & [= <-] & Hc). exists c. split; [|done]. eapply no_path_from in Hp' as [-> _]; [done|]. intros l b (? & _). done.
  - intros (c & -> & Hc). eapply path_char; [|constructor]. split_and!; try done. eauto.
Qed.

(** In sequence, through the node [x]. *)
Lemma fragment_seq E1 E2 lo hi lo1 hi1 lo2 hi2 s x d A B :
  fragment E1 lo1 hi1 s x A -> fragment E2 lo2 hi2 x d B ->
  lo <= x < hi -> lo <= lo1 -> hi1 <= lo2 -> lo1 <= hi1 -> lo2 <= hi2 -> hi2 <= hi -> s < lo -> d < lo -> s <> d ->
  fragment (graph_union E1 E2) lo hi s d (lang_concat A B).
Proof.
  intros [S1 T1 O1 L1] [S2 T2 O2 L2] Hx H1 H2 H3 H4 H5 Hs Hd Hsd. constructor; [..|done|].
  - intros p l q [He|He]; [apply S1 in He|apply S2 in He]; lia.
  - intros p l q [He|He]; [apply T1 in He|apply T2 in He]; lia.
  - intros w. split.
    + intros Hp. apply (path_through E1 E2 (fun a => a = s \/ lo1 <= a < hi1 \/ a = x) x) in Hp as (u & v & -> & Hu & Hv).
      * exists u, v. split_and!; [done|by apply L1|]. apply L2.
        apply (path_stays E2 E1 (fun a => a = x \/ lo2 <= a < hi2 \/ a = d)); [..|by left].
        -- intros a l b Ha He. apply S1 in He. lia.
        -- intros a l b Ha He. apply T2 in He. lia.
        -- eapply path_mono; [|done]. intros p l q [?|?]; [by right|by left].
      * intros a l b Ha Hax He. apply S2 in He. lia.
      * intros a l b Ha He. apply T1 in He. lia.
      * intros l b He. apply S1 in He. lia.
      * intros a. lia.
      * by left.
      * lia.
    + intros (u & v & -> & Hu & Hv). apply path_app with x.
      * apply L1 in Hu. eapply path_mono; [|done]. by left.
      * apply L2 in Hv. eapply path_mono; [|done]. by right.
Qed.

Lemma fragment_opt E lo hi s d A : fragment E lo hi s d A -> fragment (graph_union E (eps_edge s d)) lo hi s d (lang_quantified ZeroOrOne A).
Proof.
  intros [S T O L]. constructor; [..|done|].
  - intros p l q [He|(-> & _)]; [eauto|by left].
  - intros p l q [He|(_ & _ & ->)]; [eauto|by left].
  - intros w. simpl. split.
    + intros Hp. assert (Hd : forall l b, ~ graph_union E (eps_edge s d) d l b).
      { intros l b [He|(? & _)]; [apply S in He; lia|lia]. }
      assert (Hin : forall p w q, path (graph_union E (eps_edge s d)) p w q -> lo <= p < hi \/ p = d -> path E p w q).
      { intros p w' q Hp' Hi. apply (path_stays E (eps_edge s d) (fun a => lo <= a < hi \/ a = d)); [..|done].
        - intros a l b Ha (-> & _). lia.
        - intros a l b Ha He. apply T in He. lia.
        - done. }
      inversion Hp as [|? q ? ? He Hp'|? c q ? ? He Hp']; subst; [lia|..]; destruct He as [He|He].
      * right. apply L. eapply path_eps; [done|]. apply Hin; [done|]. apply T in He. lia.
      * destruct He as (_ & _ & ->). left. by eapply no_path_from in Hp' as [? _].
      * right. apply L. eapply path_char; [done|]. apply Hin; [done|]. apply T in He. lia.
      * by destruct He as (_ & ? & _).
    + intros [->|Hw]; [eapply path_eps; [by right|constructor]|]. apply L in Hw. eapply path_mono; [|done]. by left.
Qed.

(** The loop: from [s] to the start [rs], the atom to the end [re], back and
    out.  [skip] adds the edge past the loop. *)
Definition loop_graph (E : graph) (s rs re d : Z) (skip : bool) : graph := fun p l q =>
  E p l q \/ eps_edge s rs p l q \/ eps_edge re rs p l q \/ eps_edge re d p l q \/ (skip = true /\ eps_edge s d p l q).

Section Loop.
Context (E : graph) (lo hi s d rs re : Z) (A : lang) (skip : bool).
Context (Hf : fragment E lo hi rs re A) (Hhi : lo <= hi) (Hs : s < rs) (Hd : d < rs) (Hre : rs < re < lo) (Hsd : s <> d).

Abbreviation G := (loop_graph E s rs re d skip).

(** What remains to be read on the way out, by position. *)
Lemma loop_sound p w q : path G p w q -> q = d ->
  (p = d -> w = []) /\ (p = re -> lang_star A w) /\
  (p = rs \/ lo <= p < hi -> exists u v, w = u ++ v /\ path E p u re /\ lang_star A v).
Proof.
  destruct Hf as [S T O L]. induction 1 as [p|p q w r He Hp IH|p c q w r He Hp IH]; intros ->.
  - split_and!; [done|lia|lia].
  - destruct (IH eq_refl) as (I1 & I2 & I3). destruct He as [He|[(-> & _ & ->)|[(-> & _ & ->)|[(-> & _ & ->)|(_ & -> & _ & ->)]]]].
    + pose proof (S _ _ _ He). pose proof (T _ _ _ He) as Hq. split_and!; [lia|lia|]. intros _. destruct Hq as [->|Hq].
      * exists [], w. split_and!; [done|by eapply path_eps; [|constructor]|auto].
      * destruct I3 as (u & v & -> & Hu & Hv); [lia|]. exists u, v. split_and!; eauto with ce.
    + split_and!; lia.
    + split_and!; [lia| |lia]. intros _. destruct I3 as (u & v & -> & Hu & Hv); [by left|]. apply L in Hu. by constructor.
    + split_and!; [lia| |lia]. intros _. rewrite (I1 eq_refl). constructor.
    + split_and!; lia.
  - destruct (IH eq_refl) as (I1 & I2 & I3). destruct He as [He|[(_ & ? & _)|[(_ & ? & _)|[(_ & ? & _)|(_ & _ & ? & _)]]]]; try done.
    pose proof (S _ _ _ He). pose proof (T _ _ _ He) as Hq. split_and!; [lia|lia|]. intros _. destruct Hq as [->|Hq].
    + exists [c], w. split_and!; [done|eapply path_char; [done|constructor]|auto].
    + destruct I3 as (u & v & -> & Hu & Hv); [lia|]. exists (c :: u), v. split_and!; eauto with ce.
Qed.

Lemma loop_complete w : lang_star A w -> path G re w d.
Proof.
  destruct Hf as [S T O L]. induction 1 as [|u v Hu Hv IH].
  - eapply path_eps; [|constructor]. unfold loop_graph, eps_edge. auto 10.
  - eapply path_eps; [right; right; left; done|]. apply L in Hu. eapply path_app; [|exact IH]. eapply path_mono; [|exact Hu]. by left.
Qed.

Lemma fragment_loop : fragment G rs hi s d (lang_quantified (if skip then ZeroOrMore else OneOrMore) A).
Proof.
  pose proof Hf as [S T O L]. constructor; [..|lia|].
  - intros p l q [He|[(-> & _)|[(-> & _)|[(-> & _)|(_ & -> & _)]]]]; try lia. apply S in He. lia.
  - intros p l q [He|[(_ & _ & ->)|[(_ & _ & ->)|[(_ & _ & ->)|(_ & _ & _ & ->)]]]]; try lia. apply T in He. lia.
  - assert (Hplus : forall w, path G rs w d <-> exists u v, w = u ++ v /\ A u /\ lang_star A v).
    { intros w. split.
      - intros Hp. destruct (loop_sound _ _ _ Hp eq_refl) as (_ & _ & H3). destruct H3 as (u & v & -> & Hu & Hv); [by left|].
        exists u, v. split_and!; try done. by apply L.
      - intros (u & v & -> & Hu & Hv). apply path_app with re; [|by apply loop_complete]. apply L in Hu. eapply path_mono; [|done]. by left. }
    assert (Hstar : forall w, lang_star A w <-> w = [] \/ exists u v, w = u ++ v /\ A u /\ lang_star A v).
    { intros w. split; [destruct 1; eauto 10|intros [->|(u & v & -> & ? & ?)]; by constructor]. }
    assert (Hfirst : forall w, path G s w d <-> path G rs w d \/ skip = true /\ w = []).
    { intros w. split.
      - intros Hp. inversion Hp as [|? q ? ? He Hp'|? c q ? ? He Hp']; subst; [lia|..];
          destruct He as [He|[He|[(? & _)|[(? & _)|(Hk & He)]]]]; try lia; try (apply S in He; lia); try (by destruct He as (_ & ? & _)).
        + destruct He as (_ & _ & ->). by left.
        + destruct He as (_ & _ & ->). right. split; [done|]. destruct (loop_sound _ _ _ Hp' eq_refl) as (H1 & _). auto.
      - intros [Hp|[Hk ->]].
        + eapply path_eps; [|done]. right. left. done.
        + eapply path_eps; [|constructor]. right. right. right. right. done. }
    intros w. rewrite Hfirst, Hplus. destruct skip; simpl; [rewrite Hstar; tauto|]. split; [intros [?|[? _]]; done|tauto].
Qed.
End Loop.

(** ** The edges of builders *)

Section Edges.
Context `{HashOrder}.

(** The builder can be finalized. *)
Definition builder_ok (b : builder) : Prop := exists l, builder_holds b l.

Lemma builder_edge_eps b t p lab q :
  builder_edge (addEpsilonTransition b t) p lab q <-> builder_edge b p lab q \/ eps_edge (b_nodeId b) t p lab q.
Proof.
  unfold builder_edge, eps_edge, addEpsilonTransition. destruct lab as [c|]; cbn [b_nodeId b_epsilonTransitionTargets b_ranges].
  - split; [intros (-> & l & [H1 H2] & Hl); left|intros [(-> & l & [H1 H2] & Hl)|(_ & ? & _)]; [|done]];
      (split; [done|]); exists l; (split; [by constructor|done]).
  - rewrite elem_of_hs_add. naive_solver.
Qed.

Lemma builder_ok_eps b t : builder_ok b -> builder_ok (addEpsilonTransition b t).
Proof. intros [l [H1 H2]]. exists l. by constructor. Qed.

Lemma builder_edge_holds b l lab q : builder_holds b l ->
  builder_edge b (b_nodeId b) lab q <-> match lab with None => q ∈ b_epsilonTransitionTargets b | Some c => ranges_edge l c q end.
Proof.
  intros Hl. unfold builder_edge. destruct lab as [c|]; [|naive_solver]. split; [|eauto].
  intros [_ (l' & Hl' & He)]. by rewrite (builder_holds_functional _ _ _ Hl Hl').
Qed.

(** A finalized node has the edges of its builder. *)
Lemma finalize_edges nfa b :
  builder_ok b -> nfa_wf nfa -> 0 <= b_nodeId b < vsize (nfa_nodes nfa) ->
  exists nfa', finalize nfa b = Done nfa' /\ nfa_wf nfa' /\ extends_but (b_nodeId b) nfa nfa' /\
    vsize (nfa_nodes nfa') = vsize (nfa_nodes nfa) /\
    (forall lab q, nfa_edge nfa' (b_nodeId b) lab q <-> builder_edge b (b_nodeId b) lab q) /\
    (forall a, nfa_action nfa' (b_nodeId b) a <-> a ∈ b_actions b).
Proof.
  intros [l Hl] Hw Hid. destruct (finalize_spec nfa b l Hl Hid) as (nfa' & E & He & Hs & Hi). exists nfa'. split_and!; try done.
  - eapply finalize_wf; eauto.
  - intros lab q. rewrite (nfa_edge_node _ _ _ _ _ _ _ Hi), (builder_edge_holds _ _ _ _ Hl). done.
  - intros a. by rewrite (nfa_action_node _ _ _ _ _ _ Hi).
Qed.

(** Nodes kept as they were. *)
Lemma extends_but_edges n nfa nfa' p lab q :
  nfa_wf nfa -> extends_but n nfa nfa' -> p <> n -> 0 <= p < vsize (nfa_nodes nfa) -> nfa_edge nfa' p lab q <-> nfa_edge nfa p lab q.
Proof.
  intros Hw [_ He] Hp Hb. destruct (Hw p Hb) as (l & eps & acts & Hi & _).
  rewrite (nfa_edge_node _ _ _ _ _ _ _ Hi), (nfa_edge_node nfa' p l eps acts); [done|auto].
Qed.

Lemma extends_but_actions n nfa nfa' p a :
  nfa_wf nfa -> extends_but n nfa nfa' -> p <> n -> 0 <= p < vsize (nfa_nodes nfa) -> nfa_action nfa' p a <-> nfa_action nfa p a.
Proof.
  intros Hw [_ He] Hp Hb. destruct (Hw p Hb) as (l & eps & acts & Hi & _).
  rewrite (nfa_action_node _ _ _ _ _ _ Hi), (nfa_action_node nfa' p l eps acts); [done|auto].
Qed.

Lemma extends_extends_but n nfa nfa' : extends nfa nfa' -> extends_but n nfa nfa'.
Proof. intros [H1 H2]. split; [done|auto]. Qed.

Lemma extends_edges nfa nfa' p lab q :
  nfa_wf nfa -> extends nfa nfa' -> 0 <= p < vsize (nfa_nodes nfa) -> nfa_edge nfa' p lab q <-> nfa_edge nfa p lab q.
Proof. intros Hw He Hp. apply (extends_but_edges (-1)); [done|by apply extends_extends_but|lia|done]. Qed.

Lemma extends_actions nfa nfa' p a :
  nfa_wf nfa -> extends nfa nfa' -> 0 <= p < vsize (nfa_nodes nfa) -> nfa_action nfa' p a <-> nfa_action nfa p a.
Proof. intros Hw He Hp. apply (extends_but_actions (-1)); [done|by apply extends_extends_but|lia|done]. Qed.

(** Changes to nodes that did not exist are no changes. *)
Lemma extends_but_fresh n a b c : extends a b -> extends_but n b c -> vsize (nfa_nodes a) <= n -> extends a c.
Proof.
  intros [H1 H2] [H3 H4] Hn. split; [lia|]. intros m l eps acts Hi. apply H4; [|auto]. apply node_is_bound in Hi. lia.
Qed.

(** *** Character sets *)

Lemma next_index_spec p fuel : forall i, i <= 128 -> (Z.to_nat (128 - i) <= fuel)%nat ->
  i <= next_index p fuel i <= 128 /\ (forall k, i <= k < next_index p fuel i -> p k = false) /\
  (next_index p fuel i = 128 \/ p (next_index p fuel i) = true).
Proof.
  induction fuel as [|fuel IH]; intros i Hi Hf; simpl.
  - split_and!; [lia|lia|lia|left; lia].
  - destruct (Z.ltb_spec i 128); simpl; [|split_and!; [lia|lia|lia|left; lia]]. destruct (p i) eqn:Ep; simpl.
    + split_and!; [lia|lia|lia|by right].
    + destruct (IH (i + 1)) as (H1 & H2 & H3); [lia|lia|]. split_and!; [lia|lia| |done].
      intros k Hk. destruct (Z.eq_dec k i) as [->|]; [done|]. apply H2. lia.
Qed.

Lemma add_runs_spec p destination fuel : forall i b l,
  builder_holds b l -> 0 <= i <= 128 -> (Z.to_nat (128 - i) < fuel)%nat ->
  exists b' l', add_runs p fuel i b destination = Done b' /\ builder_holds b' l' /\ b_nodeId b' = b_nodeId b /\
    b_epsilonTransitionTargets b' = b_epsilonTransitionTargets b /\ b_actions b' = b_actions b /\
    forall c q, ranges_edge l' c q <-> ranges_edge l c q \/ (i <= c < 128 /\ p c = true /\ q = destination).
Proof.
  induction fuel as [|fuel IH]; intros i b l Hb Hi Hf; [lia|]. cbn [add_runs].
  destruct (next_index_spec p 128 i) as (H1 & H2 & H3); [lia|lia|]. set (start := next_index p 128 i) in *.
  destruct (Z.eqb_spec start 128) as [Es|Es].
  - exists b, l. split_and!; try done. intros c q. split; [auto|]. intros [?|(Hc & Hp & _)]; [done|]. rewrite H2 in Hp; [done|lia].
  - destruct H3 as [?|H3]; [done|].
    destruct (next_index_spec (fun c => negb (p c)) 128 (start + 1)) as (H4 & H5 & H6); [lia|lia|]. set (stop := next_index _ 128 (start + 1)) in *.
    destruct (addTransition_spec b l start (stop - 1) destination Hb) as (b1 & l1 & E1 & Hb1 & Hid & Heps & Hact & Hl1); [lia|lia|].
    rewrite E1. cbn [obind]. destruct (IH stop b1 l1 Hb1) as (b2 & l2 & E2 & Hb2 & Hid2 & Heps2 & Hact2 & Hl2); [lia|lia|].
    exists b2, l2. split_and!; try congruence. intros c q. rewrite Hl2, Hl1.
    assert (Hrun : start <= c <= stop - 1 -> p c = true).
    { intros Hc. destruct (Z.eq_dec c start) as [->|]; [done|]. apply negb_false_iff, H5. lia. }
    split.
    + intros [[?|[Hc ->]]|(Hc & Hp & ->)]; [by left|right..]; (split_and!; [lia|lia|auto|done]).
    + intros [?|(Hc & Hp & ->)]; [by left; left|]. destruct (Z.le_gt_cases c (stop - 1)); [|right; split_and!; [lia|lia|done|done]].
      left. right. split; [|done]. destruct (Z.lt_ge_cases c start); [|lia]. rewrite H2 in Hp; [done|lia].
Qed.

(** The edges added for a character set. *)
Lemma add_character_set_spec cs destination b :
  builder_ok b ->
  exists b', add_character_set cs b destination = Done b' /\ builder_ok b' /\ b_nodeId b' = b_nodeId b /\ b_actions b' = b_actions b /\
    forall p lab q, builder_edge b' p lab q <-> builder_edge b p lab q \/ char_edges (b_nodeId b) destination (fun c => cs_matches cs c = true) p lab q.
Proof.
  intros [l Hl]. unfold add_character_set.
  assert (Hrun : exists b' l', (if negb (m_inverted cs) then add_runs (cs_mem cs) 130 0 b destination
      else add_runs (fun c => negb (cs_mem cs c)) 130 1 b destination) = Done b' /\ builder_holds b' l' /\ b_nodeId b' = b_nodeId b /\
    b_epsilonTransitionTargets b' = b_epsilonTransitionTargets b /\ b_actions b' = b_actions b /\
    forall c q, ranges_edge l' c q <-> ranges_edge l c q \/ (cs_matches cs c = true /\ q = destination)).
  { unfold cs_matches. destruct (m_inverted cs); cbn [negb].
    - destruct (add_runs_spec (fun c => negb (cs_mem cs c)) destination 130 1 b l Hl) as (b' & l' & E & H1 & H2 & H3 & H4 & H5); [lia|lia|].
      exists b', l'. split_and!; try done. intros c q. rewrite H5, !andb_true_iff, Z.leb_le, Z.ltb_lt. tauto.
    - destruct (add_runs_spec (cs_mem cs) destination 130 0 b l Hl) as (b' & l' & E & H1 & H2 & H3 & H4 & H5); [lia|lia|].
      exists b', l'. split_and!; try done. intros c q. rewrite H5, !andb_true_iff, Z.leb_le, Z.ltb_lt. tauto. }
  destruct Hrun as (b' & l' & E & Hb' & Hid & Heps & Hact & Hl'). exists b'. split_and!; try done; [by exists l'|].
  intros p lab q. unfold char_edges. destruct (Z.eq_dec p (b_nodeId b)) as [->|Hp].
  - rewrite <- Hid at 1. rewrite (builder_edge_holds _ _ _ _ Hb'), (builder_edge_holds _ _ _ _ Hl). destruct lab as [c|].
    + rewrite Hl', (exists_Some c (fun c => cs_matches cs c = true)). tauto.
    + rewrite Heps, (exists_None (fun c => cs_matches cs c = true)). tauto.
  - unfold builder_edge. rewrite Hid. tauto.
Qed.
End Edges.
