(* ===== verification/TermCorrect.v ===== *)
(** * Graph generation is correct

    By induction on the term: the edges [generateGraph] adds form a fragment
    that spells the language of the term, between the source and the
    destination it is given. *)

From S2P Require Import Prelude Containers RangeList RangeListProofs Nfa NfaProofs Term TermGraph.

#[local] Arguments vsize {A} v : simpl never.

Section Generate.
Context `{HashOrder}.

Abbreviation size nfa := (vsize (nfa_nodes nfa)).

(** The nodes [from..], fresh with respect to [nfa], carry the edges of [E] and no actions. *)
Record fresh_nodes (nfa nfa' : NFA) (E : graph) : Prop := {
  fn_edges : forall p l q, size nfa <= p < size nfa' -> nfa_edge nfa' p l q <-> E p l q;
  fn_actions : forall p a, size nfa <= p < size nfa' -> ~ nfa_action nfa' p a
}.

(** What one call leaves behind: the NFA grew by the inner nodes of a fragment
    and the builder of the source got the edges that leave the source. *)
Record generated (nfa : NFA) (src : builder) (dst : Z) (A : lang) (nfa' : NFA) (src' : builder) : Prop := {
  gen_extends : extends nfa nfa';
  gen_wf : nfa_wf nfa';
  gen_ok : builder_ok src';
  gen_id : b_nodeId src' = b_nodeId src;
  gen_actions : b_actions src' = b_actions src;
  gen_graph : exists E, fragment E (size nfa) (size nfa') (b_nodeId src) dst A /\ fresh_nodes nfa nfa' E /\
    forall p l q, builder_edge src' p l q <-> builder_edge src p l q \/ (p = b_nodeId src /\ E p l q)
}.

Definition generates (gen : NFA -> builder -> Z -> outcome (NFA * builder)) (A : lang) : Prop :=
  forall nfa src dst, nfa_wf nfa -> builder_ok src -> 0 <= b_nodeId src < size nfa -> 0 <= dst < size nfa -> b_nodeId src <> dst ->
  exists nfa' src', gen nfa src dst = Done (nfa', src') /\ generated nfa src dst A nfa' src'.

Lemma fragment_ext E lo hi s d A B : fragment E lo hi s d A -> (forall w, A w <-> B w) -> fragment E lo hi s d B.
Proof. intros [S T O L] HAB. constructor; [done..|]. intros w. by rewrite L. Qed.

Lemma generates_ext gen A B : generates gen A -> (forall w, A w <-> B w) -> generates gen B.
Proof.
  intros Hg HAB nfa src dst H1 H2 H3 H4 H5. destruct (Hg nfa src dst H1 H2 H3 H4 H5) as (nfa' & src' & E & [G1 G2 G3 G4 G5 (F & Hf & Hr)]).
  exists nfa', src'. split; [done|]. constructor; try done. exists F. split; [by eapply fragment_ext|done].
Qed.

(** Nothing new: all the edges of the fragment leave the source. *)
Lemma generated_in_place nfa src dst A src' E :
  nfa_wf nfa -> builder_ok src' -> b_nodeId src' = b_nodeId src -> b_actions src' = b_actions src ->
  fragment E (size nfa) (size nfa) (b_nodeId src) dst A ->
  (forall p l q, builder_edge src' p l q <-> builder_edge src p l q \/ E p l q) ->
  generated nfa src dst A nfa src'.
Proof.
  intros H1 H2 H3 H4 Hf He. constructor; try done. exists E. split_and!; [done|constructor; lia|].
  intros p l q. rewrite He. split; [|tauto]. intros [?|HE]; [by left|right]. split; [|done]. destruct (fr_source _ _ _ _ _ _ Hf _ _ _ HE); lia.
Qed.

Lemma generates_eps : generates (fun nfa src dst => Done (nfa, addEpsilonTransition src dst)) (fun w => w = []).
Proof.
  intros nfa src dst Hw Hb Hs Hd Hne. eexists nfa, _. split; [done|]. eapply generated_in_place; try done.
  - by apply builder_ok_eps.
  - by apply fragment_eps; [lia|lia|].
  - intros p l q. apply builder_edge_eps.
Qed.

Lemma generates_characters cs :
  generates (fun nfa src dst => let* src1 := add_character_set cs src dst in Done (nfa, src1)) (fun w => exists c, w = [c] /\ cs_matches cs c = true).
Proof.
  intros nfa src dst Hw Hb Hs Hd Hne. destruct (add_character_set_spec cs dst src Hb) as (src' & E & H1 & H2 & H3 & H4).
  exists nfa, src'. rewrite E. split; [done|]. eapply generated_in_place; try done. apply fragment_chars; lia.
Qed.

(** ** Quantifiers *)

Lemma generates_optional gen A : generates gen A ->
  generates (fun nfa src dst => let* (nfa1, src1) := gen nfa src dst in Done (nfa1, addEpsilonTransition src1 dst)) (lang_quantified ZeroOrOne A).
Proof.
  intros Hg nfa src dst H1 H2 H3 H4 H5. destruct (Hg nfa src dst H1 H2 H3 H4 H5) as (nfa' & src' & E & [G1 G2 G3 G4 G5 (F & Hf & [Hr1 Hr2] & Hb)]).
  exists nfa', (addEpsilonTransition src' dst). rewrite E. split; [done|]. constructor; try done; [by apply builder_ok_eps|].
  exists (graph_union F (eps_edge (b_nodeId src) dst)). split_and!; [by apply fragment_opt|constructor; [|done]|].
  - intros p l q Hp. rewrite Hr1 by done. unfold graph_union, eps_edge. split; [auto|]. intros [?|(? & _)]; [done|lia].
  - intros p l q. rewrite builder_edge_eps, Hb, G4. unfold graph_union, eps_edge. tauto.
Qed.

(** The edges of a freshly created node under construction. *)
Lemma newBuilder_edge nfa nfa' b p l q : newBuilder nfa = (nfa', b) -> ~ builder_edge b p l q.
Proof.
  intros Hb. destruct (newBuilder_spec _ _ _ Hb) as (_ & _ & Hid & _ & Hh & He & _). intros [-> Hl]. destruct l as [c|].
  - destruct Hl as (l & Hl & ts & Hlk & _). by rewrite (builder_holds_functional _ _ _ Hl Hh) in Hlk.
  - rewrite He in Hl. by apply elem_of_nil in Hl.
Qed.

Lemma newBuilder_ok nfa nfa' b : newBuilder nfa = (nfa', b) -> builder_ok b.
Proof. intros Hb. destruct (newBuilder_spec _ _ _ Hb) as (_ & _ & _ & _ & Hh & _). by exists []. Qed.

(** The two nodes of a loop, its body, and both nodes finalized. *)
Lemma generates_loop gen A nfa s d : generates gen A -> nfa_wf nfa -> 0 <= s < size nfa -> 0 <= d < size nfa ->
  exists nfa1 rs nfa2 re nfa3 rs1 nfa4 nfa5 E,
    newBuilder nfa = (nfa1, rs) /\ newBuilder nfa1 = (nfa2, re) /\ gen nfa2 rs (b_nodeId re) = Done (nfa3, rs1) /\
    finalize nfa3 (addEpsilonTransition (addEpsilonTransition re (b_nodeId rs1)) d) = Done nfa4 /\ finalize nfa4 rs1 = Done nfa5 /\
    b_nodeId rs = size nfa /\ b_nodeId re = size nfa + 1 /\ size nfa + 2 <= size nfa5 /\
    extends nfa nfa5 /\ nfa_wf nfa5 /\ fragment E (size nfa + 2) (size nfa5) (b_nodeId rs) (b_nodeId re) A /\
    forall skip, fresh_nodes nfa nfa5 (loop_graph E s (b_nodeId rs) (b_nodeId re) d skip).
Proof.
  intros Hg Hw Hs Hd. destruct (newBuilder nfa) as [nfa1 rs] eqn:E1. destruct (newBuilder nfa1) as [nfa2 re] eqn:E2.
  pose proof (newBuilder_spec _ _ _ E1) as (X1 & S1 & I1 & N1 & _ & _ & A1).
  pose proof (newBuilder_spec _ _ _ E2) as (X2 & S2 & I2 & N2 & _ & _ & A2).
  pose proof (newBuilder_wf _ _ _ E2 (newBuilder_wf _ _ _ E1 Hw)) as Hw2.
  destruct (Hg nfa2 rs (b_nodeId re) Hw2 (newBuilder_ok _ _ _ E1)) as (nfa3 & rs1 & E3 & [G1 G2 G3 G4 G5 (F & Hf & [Hr1 Hr2] & Hb)]); [lia..|].
  pose proof (proj1 G1) as S3.
  destruct (finalize_edges nfa3 (addEpsilonTransition (addEpsilonTransition re (b_nodeId rs1)) d)) as (nfa4 & E4 & W4 & X4 & S4 & Ed4 & Ac4);
    [by apply builder_ok_eps, builder_ok_eps, (newBuilder_ok _ _ _ E2)|done|cbn; lia|]. cbn in X4, Ed4, Ac4.
  destruct (finalize_edges nfa4 rs1) as (nfa5 & E5 & W5 & X5 & S5 & Ed5 & Ac5); [done|done|lia|].
  exists nfa1, rs, nfa2, re, nfa3, rs1, nfa4, nfa5, F. split_and!; try done; try lia.
  - eapply (extends_but_fresh _ _ nfa4); [|done|lia]. eapply (extends_but_fresh _ _ nfa3); [|done|lia]. eauto using extends_trans.
  - replace (size nfa + 2) with (size nfa2) by lia. rewrite S5, S4. done.
  - intros skip. assert (Hsrc : forall p l q, F p l q -> p = b_nodeId rs \/ size nfa2 <= p < size nfa3) by (intros p l q He; by apply Hf in He).
    constructor.
    + intros p l q Hp. destruct (Z.eq_dec p (b_nodeId rs1)) as [->|Hp1].
      * rewrite Ed5, Hb. unfold loop_graph, eps_edge. pose proof (newBuilder_edge _ _ _ (b_nodeId rs1) l q E1). intuition lia.
      * rewrite (extends_but_edges _ nfa4 nfa5) by (try done; lia). destruct (Z.eq_dec p (b_nodeId re)) as [->|Hp2].
        -- rewrite Ed4, !builder_edge_eps. cbn. pose proof (newBuilder_edge _ _ _ (b_nodeId re) l q E2). rewrite G4. unfold loop_graph, eps_edge.
           pose proof (Hsrc (b_nodeId re) l q). intuition lia.
        -- rewrite (extends_but_edges _ nfa3 nfa4) by (try done; lia). rewrite Hr1 by lia. unfold loop_graph, eps_edge. intuition lia.
    + intros p a Hp. destruct (Z.eq_dec p (b_nodeId rs1)) as [->|Hp1].
      * rewrite Ac5, G5, A1. apply not_elem_of_nil.
      * rewrite (extends_but_actions _ nfa4 nfa5) by (try done; lia). destruct (Z.eq_dec p (b_nodeId re)) as [->|Hp2].
        -- rewrite Ac4, A2. apply not_elem_of_nil.
        -- rewrite (extends_but_actions _ nfa3 nfa4) by (try done; lia). apply Hr2. lia.
Qed.

Lemma generates_quantified gen A q : generates gen A -> generates (generate_quantified gen q) (lang_quantified q A).
Proof.
  intros Hg. destruct q; [done|by apply generates_optional|..]; intros nfa src dst H1 H2 H3 H4 H5;
    destruct (generates_loop gen A nfa (b_nodeId src) dst Hg H1 H3 H4)
      as (nfa1 & rs & nfa2 & re & nfa3 & rs1 & nfa4 & nfa5 & E & E1 & E2 & E3 & E4 & E5 & I1 & I2 & S5 & X & W & Hf & Hr);
    cbn [generate_quantified]; rewrite E1, E2, E3; cbn [obind]; rewrite E4; cbn [obind]; rewrite E5; cbn [obind].
  - eexists nfa5, _. split; [done|]. constructor; try done; [by apply builder_ok_eps, builder_ok_eps|].
    exists (loop_graph E (b_nodeId src) (b_nodeId rs) (b_nodeId re) dst true). split_and!; [|apply Hr|].
    + rewrite <- I1. apply (fragment_loop E (size nfa + 2) (size nfa5) (b_nodeId src) dst (b_nodeId rs) (b_nodeId re) A true); try done; lia.
    + intros p l q. rewrite !builder_edge_eps. cbn. unfold loop_graph.
      pose proof (fr_source _ _ _ _ _ _ Hf p l q). unfold eps_edge. intuition (try lia).
  - eexists nfa5, _. split; [done|]. constructor; try done; [by apply builder_ok_eps|].
    exists (loop_graph E (b_nodeId src) (b_nodeId rs) (b_nodeId re) dst false). split_and!; [|apply Hr|].
    + rewrite <- I1. apply (fragment_loop E (size nfa + 2) (size nfa5) (b_nodeId src) dst (b_nodeId rs) (b_nodeId re) A false); try done; lia.
    + intros p l q. rewrite !builder_edge_eps. cbn. unfold loop_graph.
      pose proof (fr_source _ _ _ _ _ _ Hf p l q). unfold eps_edge. intuition (try lia); try done.
Qed.

(** ** Groups *)

(** The nodes from [x] on carry a fragment that starts at [x], itself finalized. *)
Record grown (nfa nfa' : NFA) (x dst : Z) (A : lang) : Prop := {
  gr_extends : extends_but x nfa nfa';
  gr_wf : nfa_wf nfa';
  gr_graph : exists E, fragment E (size nfa) (size nfa') x dst A /\ fresh_nodes nfa nfa' E /\
    forall l q, nfa_edge nfa' x l q <-> E x l q;
  gr_actions : forall a, ~ nfa_action nfa' x a
}.

(** Finalizing a source that had no edges and no actions. *)
Lemma generated_finalize nfa src dst A nfa1 src1 :
  generated nfa src dst A nfa1 src1 -> (forall l q, ~ builder_edge src (b_nodeId src) l q) -> b_actions src = [] ->
  0 <= b_nodeId src < size nfa ->
  exists nfa2, finalize nfa1 src1 = Done nfa2 /\ size nfa2 = size nfa1 /\ grown nfa nfa2 (b_nodeId src) dst A.
Proof.
  intros [G1 G2 G3 G4 G5 (F & Hf & [Hr1 Hr2] & Hb)] Hne Hna Hs. pose proof (proj1 G1) as S1.
  destruct (finalize_edges nfa1 src1) as (nfa2 & E2 & W2 & X2 & S2 & Ed2 & Ac2); [done|done|lia|]. rewrite G4 in X2, Ed2, Ac2.
  exists nfa2. split_and!; try done. constructor; try done.
  - destruct X2 as [X2 X2'], G1 as [X1 X1']. split; [lia|auto].
  - exists F. rewrite S2. split_and!; [done| |].
    + constructor; rewrite S2.
      * intros p l q Hp. rewrite (extends_but_edges (b_nodeId src) nfa1 nfa2) by (try done; lia). by apply Hr1.
      * intros p a Hp. rewrite (extends_but_actions (b_nodeId src) nfa1 nfa2) by (try done; lia). by apply Hr2.
    + intros l q. rewrite Ed2, Hb. specialize (Hne l q). tauto.
  - intros a. rewrite Ac2, G5, Hna. apply not_elem_of_nil.
Qed.

(** Putting a node [y] between a first fragment and the nodes grown from it. *)
Lemma grown_seq nfa nfa1 y nfa2 nfa3 x dst A B E1 :
  newBuilder nfa = (nfa1, y) -> nfa_wf nfa2 -> size nfa1 <= size nfa2 -> 0 <= x < size nfa -> 0 <= dst < size nfa -> x <> dst ->
  fragment E1 (size nfa1) (size nfa2) x (b_nodeId y) A -> fresh_nodes nfa1 nfa2 E1 -> grown nfa2 nfa3 (b_nodeId y) dst B ->
  exists E, fragment E (size nfa) (size nfa3) x dst (lang_concat A B) /\ fresh_nodes nfa nfa3 E /\ forall l q, E x l q <-> E1 x l q.
Proof.
  intros Hy Hw2 Hs2 Hx Hd Hxd Hf1 [Hr1 Hr2] [G1 G2 (E2 & Hf2 & [Hq1 Hq2] & He2) G4].
  destruct (newBuilder_spec _ _ _ Hy) as (_ & S1 & Iy & _). pose proof (proj1 G1) as S3.
  pose proof (fun p l q => fr_source _ _ _ _ _ _ Hf1 p l q) as So1. pose proof (fun p l q => fr_source _ _ _ _ _ _ Hf2 p l q) as So2.
  exists (graph_union E1 E2). split_and!.
  - eapply fragment_seq; try done; lia.
  - constructor.
    + intros p l q Hp. unfold graph_union. specialize (So1 p l q). specialize (So2 p l q). destruct (Z.eq_dec p (b_nodeId y)) as [->|Hpy].
      * rewrite He2. intuition lia.
      * destruct (Z.lt_ge_cases p (size nfa2)).
        -- rewrite (extends_but_edges _ nfa2 nfa3), Hr1 by (try done; lia). intuition lia.
        -- rewrite Hq1 by lia. intuition lia.
    + intros p a Hp. destruct (Z.eq_dec p (b_nodeId y)) as [->|Hpy]; [apply G4|]. destruct (Z.lt_ge_cases p (size nfa2)).
      * rewrite (extends_but_actions _ nfa2 nfa3) by (try done; lia). apply Hr2. lia.
      * apply Hq2. lia.
  - intros l q. unfold graph_union. specialize (So2 x l q). intuition lia.
Qed.

Lemma extends_but_weaken nfa nfa1 nfa2 nfa3 x y :
  extends_but x nfa1 nfa2 -> extends_but y nfa2 nfa3 -> extends nfa nfa1 -> size nfa <= y -> extends_but x nfa nfa3.
Proof.
  intros [H1 H1'] [H2 H2'] [H3 H3'] Hy. split; [lia|]. intros m l eps acts Hm Hi. pose proof (node_is_bound _ _ _ _ _ Hi).
  apply H2'; [lia|]. apply H1'; [done|]. auto.
Qed.

Lemma generate_rest_grown gen (L : Term -> lang) dst ts : ts <> [] -> Forall (fun t => generates (gen t) (L t)) ts ->
  forall nfa last, nfa_wf nfa -> builder_ok last -> (forall l q, ~ builder_edge last (b_nodeId last) l q) -> b_actions last = [] ->
  0 <= b_nodeId last < size nfa -> 0 <= dst < size nfa -> b_nodeId last <> dst ->
  exists nfa', generate_rest gen dst ts nfa last = Done nfa' /\
    grown nfa nfa' (b_nodeId last) dst (foldr (fun t A => lang_concat (L t) A) (fun w => w = []) ts).
Proof.
  intros Hne. induction ts as [|t [|t' ts] IH]; intros Hg nfa last Hw Hok He Ha Hl Hd Hld; [done|..]; apply Forall_cons in Hg as [Hg Hgs].
  - destruct (Hg nfa last dst Hw Hok Hl Hd Hld) as (nfa1 & last1 & E1 & G). cbn [generate_rest]. rewrite E1. cbn [obind].
    destruct (generated_finalize _ _ _ _ _ _ G He Ha Hl) as (nfa2 & E2 & _ & [R1 R2 (E & Hf & R3) R4]). exists nfa2. split; [done|].
    constructor; try done. exists E. split; [|done]. eapply fragment_ext; [done|]. intros w. cbn [foldr]. by rewrite lang_concat_nil_r.
  - cbn [generate_rest]. destruct (newBuilder nfa) as [nfa1 y] eqn:Ey. destruct (newBuilder_spec _ _ _ Ey) as (X1 & S1 & Iy & _ & _ & _ & Ay).
    destruct (Hg nfa1 last (b_nodeId y)) as (nfa2 & last1 & E2 & G); [by eapply newBuilder_wf|done|lia..|]. rewrite E2. cbn [obind].
    destruct (generated_finalize _ _ _ _ _ _ G He Ha) as (nfa3 & E3 & S3 & [R1 R2 (E & Hf & Hr & He') R4]); [lia|]. rewrite E3. cbn [obind].
    pose proof (proj1 R1) as S3'.
    destruct (IH ltac:(done) Hgs nfa3 y) as (nfa4 & E4 & G4); try done; try lia.
    { by eapply newBuilder_ok. } { intros l q. by eapply newBuilder_edge. }
    exists nfa4. split; [exact E4|]. destruct (grown_seq _ _ _ _ _ _ _ _ _ _ Ey R2 S3' Hl Hd Hld Hf Hr G4) as (F & HF & HFr & HFx).
    pose proof (gr_extends _ _ _ _ _ G4) as X4. constructor; [|apply G4|..].
    + apply (extends_but_weaken nfa nfa1 nfa3 nfa4 _ (b_nodeId y)); [done|done|done|lia].
    + exists F. split_and!; [done|done|]. intros l q. rewrite HFx, <- He'. apply (extends_but_edges (b_nodeId y)); [done|done|lia|lia].
    + intros a. rewrite (extends_but_actions (b_nodeId y) nfa3 nfa4); [apply R4|done|done|lia|lia].
Qed.

Lemma generates_group gen (L : Term -> lang) t ts : ts <> [] -> Forall (fun t => generates (gen t) (L t)) (t :: ts) ->
  generates (fun nfa src dst =>
      let (nfa1, last) := newBuilder nfa in
      let* (nfa2, src1) := gen t nfa1 src (b_nodeId last) in
      let* nfa3 := generate_rest gen dst ts nfa2 last in Done (nfa3, src1))
    (foldr (fun t A => lang_concat (L t) A) (fun w => w = []) (t :: ts)).
Proof.
  intros Hne [Hg Hgs]%Forall_cons nfa src dst Hw Hok Hs Hd Hsd. destruct (newBuilder nfa) as [nfa1 y] eqn:Ey.
  destruct (newBuilder_spec _ _ _ Ey) as (X1 & S1 & Iy & _ & _ & _ & Ay).
  destruct (Hg nfa1 src (b_nodeId y)) as (nfa2 & src1 & E2 & [G1 G2 G3 G4 G5 (E & Hf & Hr & He)]); [by eapply newBuilder_wf|done|lia..|].
  rewrite E2. cbn [obind]. pose proof (proj1 G1) as S2.
  destruct (generate_rest_grown gen L dst ts Hne Hgs nfa2 y) as (nfa3 & E3 & R); try done; try lia.
  { by eapply newBuilder_ok. } { intros l q. by eapply newBuilder_edge. }
  rewrite E3. cbn [obind]. exists nfa3, src1. split; [done|].
  destruct (grown_seq _ _ _ _ _ _ _ _ _ _ Ey G2 S2 Hs Hd Hsd Hf Hr R) as (F & HF & HFr & HFx).
  constructor; try done; [|apply R|].
  - eapply extends_but_fresh; [|apply R|lia]. by eapply extends_trans.
  - exists F. split_and!; [done|done|]. intros p l q. rewrite He. split; (intros [?|[-> ?]]; [by left|right]; split; [done|by apply HFx]).
Qed.

(** ** Terms *)

Lemma atom_generates t : generates (generateSubgraphForAtom t) (atom_lang t).
Proof.
  induction t as [q|cs q|ts q IH] using Term_ind'; [apply generates_eps|apply generates_characters|].
  assert (Hq : Forall (fun t => generates (generate_quantified (generateSubgraphForAtom t) (m_quantifier t)) (term_lang t)) ts).
  { eapply Forall_impl; [exact IH|]. intros t Ht. by apply generates_quantified. }
  eapply generates_ext; [|intros w; symmetry; apply atom_lang_group].
  destruct ts as [|t [|t' ts]]; [apply generates_eps|..].
  - apply Forall_cons in Hq as [Hq _]. eapply generates_ext; [exact Hq|]. intros w. simpl. by rewrite lang_concat_nil_r.
  - exact (generates_group _ term_lang t (t' :: ts) ltac:(done) Hq).
Qed.

Lemma term_generates t : generates (generateGraph t) (term_lang t).
Proof. apply generates_quantified, atom_generates. Qed.
End Generate.
