(* ===== verification/TermTheorems.v ===== *)
(** * Properties of terms

    Character sets store and count their members exactly; the predicates that
    the compiler asks of a term are sound for its language; the generated
    graph spells the language. *)

From S2P Require Import Prelude Containers RangeList RangeListProofs Nfa NfaProofs Term TermGraph TermCorrect.

(** ** Character sets *)

(** The two words of a set have 64 bits. *)
Definition cs_wf (cs : CharacterSet) : Prop := 0 <= m_characters0 cs < 2 ^ 64 /\ 0 <= m_characters1 cs < 2 ^ 64.

Lemma land_pow2 x i : 0 <= i -> negb (Z.land x (Z.shiftl 1 i) =? 0) = Z.testbit x i.
Proof.
  intros Hi. rewrite Z.shiftl_1_l. destruct (Z.testbit x i) eqn:E.
  - destruct (Z.eqb_spec (Z.land x (2 ^ i)) 0) as [E0|]; [|done]. apply (f_equal (fun z => Z.testbit z i)) in E0.
    rewrite Z.land_spec, Z.pow2_bits_true, E, Z.bits_0 in E0 by done. done.
  - replace (Z.land x (2 ^ i)) with 0; [done|]. symmetry. apply Z.bits_inj'. intros j Hj. rewrite Z.land_spec, Z.bits_0.
    rewrite Z.pow2_bits_eqb by done. destruct (Z.eqb_spec i j) as [->|]; [by rewrite E|apply andb_false_r].
Qed.

Lemma cs_mem_testbit cs c : 0 <= c < 128 -> cs_mem cs c = Z.testbit (if c <? 64 then m_characters0 cs else m_characters1 cs) (c mod 64).
Proof.
  intros Hc. unfold cs_mem, cs_get. destruct (Z.ltb_spec c 128); [|lia]. cbn [release_assert obind]. unfold word_bit.
  rewrite land_pow2 by (apply Z.mod_pos_bound; lia). unfold cs_word. destruct (Z.ltb_spec c 64).
  - by rewrite Z.div_small by lia.
  - destruct (Z.eqb_spec (c / 64) 0) as [E|]; [|done]. apply Z.div_small_iff in E; lia.
Qed.

Lemma lor_pow2_range x i n : 0 <= i < n -> 0 <= x < 2 ^ n -> 0 <= Z.lor x (Z.shiftl 1 i) < 2 ^ n.
Proof.
  intros Hi Hx. split; [apply Z.lor_nonneg; split; [lia|apply Z.shiftl_nonneg; lia]|].
  assert (E : Z.lor x (Z.shiftl 1 i) = Z.lor x (Z.shiftl 1 i) mod 2 ^ n); [|rewrite E; apply Z.mod_pos_bound; lia].
  rewrite <- Z.land_ones, Z.land_lor_distr_l, !Z.land_ones by lia. rewrite (Z.mod_small x) by done. f_equal.
  rewrite Z.shiftl_1_l. symmetry. apply Z.mod_small. split; [lia|]. apply Z.pow_lt_mono_r; lia.
Qed.

Lemma cs_set_spec cs c : cs_wf cs -> 0 <= c < 128 ->
  exists cs', cs_set cs c = Done cs' /\ cs_wf cs' /\ m_inverted cs' = m_inverted cs /\
    forall x, 0 <= x < 128 -> cs_mem cs' x = cs_mem cs x || (x =? c).
Proof.
  intros [H0 H1] Hc. unfold cs_set. destruct (Z.ltb_spec c 128); [|lia]. cbn [release_assert obind].
  assert (Hm : 0 <= c mod 64 < 64) by (apply Z.mod_pos_bound; lia). unfold word_bit.
  assert (Hbit : forall x, 0 <= x < 64 -> Z.testbit (Z.shiftl 1 (c mod 64)) x = (x =? c mod 64)).
  { intros x Hx. rewrite Z.shiftl_1_l, Z.pow2_bits_eqb by lia. apply Z.eqb_sym. }
  assert (Hd : c = 64 * (c / 64) + c mod 64) by (apply Z.div_mod; lia).
  eexists. split; [done|]. destruct (Z.eqb_spec (c / 64) 0) as [E|E]; cbn; (split_and!; [split; cbn; try done; by apply lor_pow2_range|done|]);
    intros x Hx; rewrite !cs_mem_testbit by done; cbn; (assert (Hxm : 0 <= x mod 64 < 64) by (apply Z.mod_pos_bound; lia));
    pose proof (Z.div_mod x 64 ltac:(lia)) as Hxd; destruct (Z.ltb_spec x 64); rewrite ?Z.lor_spec, ?Hbit by lia;
    try (rewrite (Z.mod_small x 64) in * by lia).
  - f_equal. f_equal. lia.
  - destruct (Z.eqb_spec x c); [lia|]. by rewrite orb_false_r.
  - destruct (Z.eqb_spec x c) as [->|]; [|by rewrite orb_false_r]. rewrite Z.div_small in E by lia. done.
  - f_equal. assert (x / 64 = 1) by (symmetry; apply (Z.div_unique_pos x 64 1 (x - 64)); lia).
    assert (c / 64 = 1). { assert (c / 64 < 2) by (apply Z.div_lt_upper_bound; lia). assert (0 <= c / 64) by (apply Z.div_pos; lia). lia. }
    destruct (Z.eqb_spec (x mod 64) (c mod 64)), (Z.eqb_spec x c); try done; lia.
Qed.

(** The members, as a list. *)
Definition cs_members (cs : CharacterSet) : list Z := List.filter (cs_mem cs) (seqZ 0 128).

Lemma cs_bitCount_members cs : cs_wf cs -> cs_bitCount cs = vsize (cs_members cs).
Proof.
  intros [H0 H1]. unfold cs_bitCount, cs_members. rewrite !bitCount64_popcount by done. unfold popcount.
  change 128 with (64 + 64). rewrite seqZ_app, List.filter_app, vsize_app by lia. f_equal.
  - f_equal. apply filter_ext_in_Z. intros i [? ?]%elem_of_seqZ. rewrite cs_mem_testbit by lia. destruct (Z.ltb_spec i 64); [|lia]. by rewrite Z.mod_small by lia.
  - replace (seqZ (0 + 64) 64) with (Z.add 64 <$> seqZ 0 64) by (by rewrite fmap_add_seqZ). unfold vsize. rewrite filter_fmap_length. f_equal. f_equal.
    apply filter_ext_in_Z. intros i [? ?]%elem_of_seqZ. rewrite cs_mem_testbit by lia. destruct (Z.ltb_spec (64 + i) 64); [lia|]. f_equal.
    rewrite Z.add_comm, <- (Z.mul_1_l 64) at 1. rewrite Z_mod_plus_full. by rewrite Z.mod_small by lia.
Qed.

Lemma elem_of_cs_members cs c : c ∈ cs_members cs <-> 0 <= c < 128 /\ cs_mem cs c = true.
Proof. unfold cs_members. rewrite list_elem_of_In, List.filter_In, <- list_elem_of_In, elem_of_seqZ. naive_solver lia. Qed.

Lemma cs_members_NoDup cs : NoDup (cs_members cs).
Proof. apply NoDup_ListNoDup, List.NoDup_filter, NoDup_ListNoDup, NoDup_seqZ. Qed.

Lemma full_members (l : list Z) n c : NoDup l -> (forall x, x ∈ l -> 1 <= x <= n) -> vsize l = n -> 1 <= c <= n -> c ∈ l.
Proof.
  intros Hl Hb Hn Hc. destruct (decide (c ∈ l)) as [?|Hc']; [done|]. exfalso.
  assert (Hs : c :: l ⊆+ seqZ 1 n).
  { apply NoDup_submseteq; [by constructor|]. intros x [->|Hx]%elem_of_cons; apply elem_of_seqZ; [lia|]. apply Hb in Hx. lia. }
  apply submseteq_length in Hs. rewrite length_seqZ in Hs. unfold vsize in Hn. cbn [length] in Hs. lia.
Qed.

(** Counting decides the two sets that match every character. *)
Lemma cs_bitCount_full cs : cs_wf cs -> cs_bitCount cs = 127 -> cs_mem cs 0 = false -> forall c, 1 <= c < 128 -> cs_mem cs c = true.
Proof.
  intros Hw Hn H0 c Hc. rewrite cs_bitCount_members in Hn by done.
  assert (Hin : c ∈ cs_members cs); [|by apply elem_of_cs_members in Hin as [_ ?]].
  apply (full_members _ 127); [apply cs_members_NoDup| |done|lia].
  intros x [Hx Hm]%elem_of_cs_members. destruct (Z.eq_dec x 0) as [->|]; [congruence|lia].
Qed.

Lemma cs_bitCount_empty cs : cs_wf cs -> cs_bitCount cs = 0 -> forall c, 0 <= c < 128 -> cs_mem cs c = false.
Proof.
  intros Hw Hn c Hc. rewrite cs_bitCount_members in Hn by done. destruct (cs_mem cs c) eqn:E; [|done].
  assert (Hin : c ∈ cs_members cs) by (by apply elem_of_cs_members). destruct (cs_members cs); [by apply elem_of_nil in Hin|].
  rewrite vsize_cons in Hn. pose proof (vsize_nonneg l). lia.
Qed.

#[local] Opaque cs_bitCount cs_mem.

(** ** Predicates on terms *)

(** A term as the parser builds it: words of 64 bits, no empty term. *)
Fixpoint term_wf (t : Term) : Prop :=
  match t with
  | EmptyTerm _ => False
  | CharacterSetTerm cs _ => cs_wf cs
  | GroupTerm ts _ => (fix all ts := match ts with [] => True | t :: ts' => term_wf t /\ all ts' end) ts
  end.

Lemma term_wf_group ts q : term_wf (GroupTerm ts q) <-> Forall term_wf ts.
Proof. simpl. induction ts as [|t ts IH]; [split; [constructor|done]|]. rewrite Forall_cons, <- IH. done. Qed.

Lemma lang_quantified_once q A w : A w -> lang_quantified q A w.
Proof.
  intros Ha. assert (Hs : lang_star A w) by (rewrite <- (app_nil_r w); by repeat constructor).
  destruct q; simpl; [done|by right|done|]. exists w, []. rewrite app_nil_r. split_and!; [done..|constructor].
Qed.

(** Words of URL characters; the end of the line is not one of them. *)
Definition url_word (w : list Z) : Prop := Forall (fun c => 1 <= c < 128) w.

Lemma universal_atom t c : term_wf t -> isUniversalTransition t = true -> 1 <= c < 128 -> atom_lang t [c].
Proof.
  induction t as [q|cs q|ts q IH] using Term_ind'; intros Hw Hu Hc; [done|..].
  - cbn [isUniversalTransition term_wf atom_lang] in *. exists c. split; [done|]. unfold cs_matches. destruct (m_inverted cs); cbn [andb orb negb] in Hu; rewrite ?orb_false_r in Hu.
    + apply Z.eqb_eq in Hu. rewrite (cs_bitCount_empty _ Hw Hu) by lia. by destruct (Z.leb_spec 1 c), (Z.ltb_spec c 128); try lia.
    + apply andb_true_iff in Hu as [Hu H0]. apply Z.eqb_eq in Hu. apply negb_true_iff in H0. rewrite (cs_bitCount_full _ Hw Hu H0) by done.
      by destruct (Z.leb_spec 0 c), (Z.ltb_spec c 128); try lia.
  - apply atom_lang_group. destruct ts as [|t [|? ?]]; [done| |done]. apply Forall_cons in IH as [IH _].
    apply term_wf_group, Forall_cons in Hw as [Hw _]. simpl. apply lang_concat_nil_r, lang_quantified_once. auto.
Qed.

Lemma lang_star_letters A w : (forall c, 1 <= c < 128 -> A [c]) -> url_word w -> lang_star A w.
Proof. intros HA Hw. induction Hw as [|c w Hc Hw IH]; [constructor|]. change (c :: w) with ([c] ++ w). constructor; auto. Qed.

Lemma lang_plus_letters A c w : (forall c, 1 <= c < 128 -> A [c]) -> url_word (c :: w) -> lang_quantified OneOrMore A (c :: w).
Proof. intros HA [Hc Hw]%Forall_cons. exists [c], w. split_and!; [done|auto|by apply lang_star_letters]. Qed.

Lemma any_string_sound t : term_wf t -> isKnownToMatchAnyString t = true -> forall w, url_word w -> term_lang t w.
Proof.
  induction t as [q|cs q|ts q IH] using Term_ind'; intros Hw Hk w Hu; [done|..].
  - cbn [isKnownToMatchAnyString] in Hk. apply andb_true_iff in Hk as [Hk ->%bool_decide_eq_true].
    apply lang_star_letters; [|done]. intros c Hc. by apply (universal_atom (CharacterSetTerm cs ZeroOrMore)).
  - cbn [isKnownToMatchAnyString] in Hk. destruct ts as [|t [|? ?]]; [done| |done].
    apply Forall_cons in IH as [IH _]. apply term_wf_group, Forall_cons in Hw as [Hw _].
    assert (Hatom : forall w, term_lang t w -> atom_lang (GroupTerm [t] q) w).
    { intros v Hv. apply atom_lang_group. simpl. by apply lang_concat_nil_r. }
    destruct (isKnownToMatchAnyString t); [apply lang_quantified_once, Hatom; auto|].
    destruct (isUniversalTransition t) eqn:Ht; [|done].
    assert (Hone : forall c, 1 <= c < 128 -> atom_lang (GroupTerm [t] q) [c]) by (intros c Hc; by apply Hatom, lang_quantified_once, universal_atom).
    rewrite !orb_true_iff, !andb_true_iff, !bool_decide_eq_true in Hk. destruct Hk as [[->|[-> Hq]]|[-> Hq]].
    + by apply lang_star_letters.
    + destruct w as [|c w]; [by left|]. right. apply Hatom. unfold term_lang. rewrite Hq. apply lang_plus_letters; [|done].
      intros c' Hc'. by apply universal_atom.
    + destruct w as [|c w]; [|by apply lang_plus_letters]. exists [], []. split_and!; [done| |constructor]. apply Hatom. unfold term_lang. rewrite Hq. by left.
Qed.

Lemma nonempty_quantified q (A : lang) : q <> ZeroOrOne -> q <> ZeroOrMore -> (~ A []) -> ~ lang_quantified q A [].
Proof. intros H1 H2 HA. destruct q; simpl; try done. intros (u & v & E & Hu & _). symmetry in E. by apply app_eq_nil in E as [-> ->]. Qed.

Lemma at_least_one_sound t : term_wf t -> matchesAtLeastOneCharacter t = true -> ~ term_lang t [].
Proof.
  induction t as [q|cs q|ts q IH] using Term_ind'; intros Hw Hk; [done|..]; cbn [matchesAtLeastOneCharacter m_quantifier] in Hk;
    (destruct (bool_decide_reflect (q = ZeroOrOne)); [done|]); (destruct (bool_decide_reflect (q = ZeroOrMore)); [done|]); cbn [orb] in Hk;
    apply nonempty_quantified; try done.
  - by intros (c & ? & _).
  - cbn [isEndOfLineAssertion] in Hk. rewrite atom_lang_group. apply term_wf_group in Hw. induction ts as [|t ts IHts]; [done|].
    apply Forall_cons in IH as [IH1 IH2]. apply Forall_cons in Hw as [Hw1 Hw2]. cbn [existsb] in Hk. intros (u & v & E & Hu & Hv).
    symmetry in E. apply app_eq_nil in E as [-> ->]. apply orb_true_iff in Hk as [Hk|Hk]; [by apply IH1|]. by apply IHts.
Qed.

Lemma fixed_length_sound t : hasFixedLength t = true -> exists n, forall w, term_lang t w -> length w = n.
Proof.
  induction t as [q|cs q|ts q IH] using Term_ind'; cbn [hasFixedLength]; intros Hk; [done|..].
  - apply bool_decide_eq_true in Hk as ->. exists 1%nat. by intros w (c & -> & _).
  - apply andb_true_iff in Hk as [->%bool_decide_eq_true Hk]. assert (Hn : exists n, forall w, terms_lang ts w -> length w = n).
    { induction ts as [|t ts IHts]; [exists 0%nat; by intros w ->|]. apply Forall_cons in IH as [IH1 IH2]. apply andb_true_iff in Hk as [Hk1 Hk2].
      destruct (IH1 Hk1) as [n Hn], (IHts IH2 Hk2) as [m Hm]. exists (n + m)%nat. intros w (u & v & -> & Hu & Hv). rewrite length_app. by rewrite (Hn u), (Hm v). }
    destruct Hn as [n Hn]. exists n. intros w Hw. apply Hn. exact (proj1 (atom_lang_group ts One w) Hw).
Qed.

(** ** The properties *)

Section Properties.
Context `{HashOrder}.

(** The graph of one term in a new NFA, between a source and an end node. *)
Definition term_nfa (t : Term) : outcome (NFA * Z * Z) :=
  let (nfa1, source) := newBuilder emptyNFA in
  let (nfa2, target) := newBuilder nfa1 in
  let* (nfa3, source3) := generateGraph t nfa2 source (b_nodeId target) in
  let* nfa4 := finalize nfa3 target in
  let* nfa5 := finalize nfa4 source3 in
  Done (nfa5, b_nodeId source, b_nodeId target).

Lemma emptyNFA_wf : nfa_wf emptyNFA.
Proof. intros n Hn. unfold emptyNFA, vsize in Hn. cbn in Hn. lia. Qed.

(** C13: Graph generation is total and exact: for every term, the paths from
    the source to the destination node in the generated NFA spell exactly the
    words of the term's regular language, for all quantifiers and nested
    groups. *)
Theorem generateGraph_spells_language t :
  exists nfa source target, term_nfa t = Done (nfa, source, target) /\
    forall w, path (nfa_edge nfa) source w target <-> term_lang t w.
Proof.
  unfold term_nfa. destruct (newBuilder emptyNFA) as [nfa1 src] eqn:E1. destruct (newBuilder nfa1) as [nfa2 tgt] eqn:E2.
  destruct (newBuilder_spec _ _ _ E1) as (X1 & S1 & I1 & _). destruct (newBuilder_spec _ _ _ E2) as (X2 & S2 & I2 & _).
  change (vsize (nfa_nodes emptyNFA)) with 0 in *.
  pose proof (newBuilder_wf _ _ _ E2 (newBuilder_wf _ _ _ E1 emptyNFA_wf)) as W2.
  destruct (term_generates t nfa2 src (b_nodeId tgt) W2 (newBuilder_ok _ _ _ E1)) as (nfa3 & src3 & E3 & [G1 G2 G3 G4 G5 (F & Hf & [Hr1 Hr2] & Hb)]); [lia..|].
  rewrite E3. cbn [obind]. pose proof (proj1 G1) as S3.
  destruct (finalize_edges nfa3 tgt) as (nfa4 & E4 & W4 & X4 & S4 & Ed4 & _); [by eapply newBuilder_ok|done|lia|]. rewrite E4. cbn [obind].
  destruct (finalize_edges nfa4 src3) as (nfa5 & E5 & W5 & X5 & S5 & Ed5 & _); [done|done|lia|]. rewrite E5. cbn [obind].
  eexists _, _, _. split; [done|]. intros w. rewrite <- (fr_lang _ _ _ _ _ _ Hf).
  assert (He : forall p l q, 0 <= p < vsize (nfa_nodes nfa5) -> nfa_edge nfa5 p l q <-> F p l q).
  { intros p l q Hp. pose proof (fr_source _ _ _ _ _ _ Hf p l q) as Hsrc. destruct (Z.eq_dec p (b_nodeId src3)) as [->|Hp1].
    - rewrite Ed5, Hb, G4. pose proof (newBuilder_edge _ _ _ (b_nodeId src) l q E1). tauto.
    - rewrite (extends_but_edges _ nfa4 nfa5) by (try done; lia). destruct (Z.eq_dec p (b_nodeId tgt)) as [->|Hp2].
      + rewrite Ed4. pose proof (newBuilder_edge _ _ _ (b_nodeId tgt) l q E2). intuition lia.
      + rewrite (extends_but_edges _ nfa3 nfa4) by (try done; lia). apply Hr1. lia. }
  assert (Hin : forall p l q, F p l q -> 0 <= q < vsize (nfa_nodes nfa5)) by (intros p l q Hq; apply (fr_target _ _ _ _ _ _ Hf) in Hq; lia).
  apply (path_agree _ _ (fun p => 0 <= p < vsize (nfa_nodes nfa5))); [done| |lia]. intros p l q Hp Hq%He; eauto.
Qed.

(** A term that [matchesAtLeastOneCharacter] accepts never matches the
    empty string: the test that keeps filters matching everything out of the
    automata is sound. *)
Theorem matchesAtLeastOneCharacter_sound t : term_wf t -> matchesAtLeastOneCharacter t = true -> forall w, term_lang t w -> w <> [].
Proof. intros Hw Hk w Hl ->. by apply (at_least_one_sound t). Qed.

(** A term that [isKnownToMatchAnyString] accepts matches every string of
    URL characters, so that dropping it from the end or the start of a filter
    does not change what the filter finds. *)
Theorem isKnownToMatchAnyString_sound t w : term_wf t -> isKnownToMatchAnyString t = true -> url_word w -> term_lang t w.
Proof. intros. by apply any_string_sound. Qed.

(** All the words a term with [hasFixedLength] matches have one length. *)
Lemma hasFixedLength_sound t u v : hasFixedLength t = true -> term_lang t u -> term_lang t v -> length u = length v.
Proof. intros Hk Hu Hv. destruct (fixed_length_sound t Hk) as [n Hn]. by rewrite (Hn u), (Hn v). Qed.

(** [CharacterSet::bitCount], which adds the bits of the two words in
    parallel, is the number of members of the set. *)
Theorem bitCount_counts_members cs : cs_wf cs -> cs_bitCount cs = vsize (cs_members cs).
Proof. apply cs_bitCount_members. Qed.
End Properties.

(** The term [a]. *)
Lemma matchesAtLeastOneCharacter_sound_witness : term_lang (CharacterSetTerm (mkCharacterSet false 0 (2 ^ 33)) One) [97] /\ [97] <> [].
Proof.
  assert (Hw : term_lang (CharacterSetTerm (mkCharacterSet false 0 (2 ^ 33)) One) [97]) by (exists 97; split; [reflexivity|vm_compute; reflexivity]).
  split; [exact Hw|]. apply (matchesAtLeastOneCharacter_sound (CharacterSetTerm (mkCharacterSet false 0 (2 ^ 33)) One)); [|vm_compute; reflexivity|exact Hw].
  unfold term_wf, cs_wf. cbn. lia.
Defined.

(** [.*], written as the inverted empty set. *)
Lemma isKnownToMatchAnyString_sound_witness : term_lang (CharacterSetTerm (mkCharacterSet true 0 0) ZeroOrMore) [104; 105].
Proof.
  apply isKnownToMatchAnyString_sound; [unfold term_wf, cs_wf; cbn; lia|vm_compute; reflexivity|]. unfold url_word. repeat (constructor; [lia|]). constructor.
Defined.

Lemma hasFixedLength_sound_witness : exists u v, term_lang (CharacterSetTerm (mkCharacterSet true 0 0) One) u /\ term_lang (CharacterSetTerm (mkCharacterSet true 0 0) One) v /\ length u = length v.
Proof.
  exists [97], [98].
  assert (Hu : term_lang (CharacterSetTerm (mkCharacterSet true 0 0) One) [97]) by (exists 97; split; [reflexivity|vm_compute; reflexivity]).
  assert (Hv : term_lang (CharacterSetTerm (mkCharacterSet true 0 0) One) [98]) by (exists 98; split; [reflexivity|vm_compute; reflexivity]).
  split; [exact Hu|split; [exact Hv|]]. apply (hasFixedLength_sound (CharacterSetTerm (mkCharacterSet true 0 0) One)); [vm_compute; reflexivity|exact Hu|exact Hv].
Defined.

Lemma bitCount_counts_members_witness : cs_bitCount (mkCharacterSet false (2 ^ 63 + 5) (2 ^ 64 - 1)) = 67.
Proof. rewrite bitCount_counts_members; [vm_compute; reflexivity|]. unfold cs_wf. cbn. lia. Defined.
