(* ===== verification/CombinedFilters.v ===== *)
(** * Combining URL filters (CombinedURLFilters.cpp, CombinedFiltersAlphabet.cpp,
    HashableActionList.h)

    The patterns of all rules are kept in a prefix tree.  [processNFAs] turns
    the tree into NFAs, each holding the vertices with the same last
    quantified term; inside one NFA, subtrees that end in the same actions
    share their suffixes.

    A vertex of the tree is an object with an identity: the table of actions is
    keyed by it.  The vertices are kept in a store and named by their position;
    the root is vertex 0.  A term of the tree is a pointer to the interned
    term: its position in the alphabet. *)

From stdpp Require Import gmap.
From S2P Require Import Prelude Containers RangeList Nfa Term.

(** ** The alphabet *)

(** [CombinedFiltersAlphabet::interned(term)]. *)
Fixpoint term_index (alphabet : list Term) (term : Term) : option nat :=
  match alphabet with
  | [] => None
  | t :: alphabet' => if Term_eqb t term then Some 0%nat else S <$> term_index alphabet' term
  end.

Definition interned (alphabet : list Term) (term : Term) : list Term * Z :=
  match term_index alphabet term with
  | Some i => (alphabet, Z.of_nat i)
  | None => (alphabet ++ [term], vsize alphabet)
  end.

(** ** The prefix tree *)

(** [e_term] is [None] for a null pointer: the edge will be removed. *)
Record PrefixTreeEdge := mkPrefixTreeEdge { e_term : option Z; e_child : Z }.

Abbreviation PrefixTreeVertex := (list PrefixTreeEdge).

Record CombinedURLFilters := mkCombinedURLFilters {
  m_alphabet : list Term;
  m_vertices : list PrefixTreeVertex;
  m_filterActions : gmap Z (list Z)
}.

Definition emptyCombinedURLFilters : CombinedURLFilters := mkCombinedURLFilters [] [[]] ∅.

Definition CombinedURLFilters_isEmpty (f : CombinedURLFilters) : outcome bool :=
  let* root := vget (m_vertices f) 0 in Done (match root with [] => true | _ => false end).

(** [*edge.term]. *)
Definition term_at (alphabet : list Term) (term : option Z) : outcome Term :=
  match term with Some i => vget alphabet i | None => Crash end.

(** The search for an edge with the same term. *)
Fixpoint find_edge (alphabet : list Term) (edges : list PrefixTreeEdge) (term : Term) : outcome (option Z) :=
  match edges with
  | [] => Done None
  | e :: edges' =>
      let* t := term_at alphabet (e_term e) in
      if Term_eqb t term then Done (Some (e_child e)) else find_edge alphabet edges' term
  end.

(** One step of the loop of [addPattern]: [lastPrefixTree] is the vertex reached. *)
Definition add_term (state : CombinedURLFilters * Z) (term : Term) : outcome (CombinedURLFilters * Z) :=
  let (f, lastPrefixTree) := state in
  let* edges := vget (m_vertices f) lastPrefixTree in
  let* next := find_edge (m_alphabet f) edges term in
  match next with
  | Some child => Done (f, child)
  | None =>
      let (alphabet, pointer) := interned (m_alphabet f) term in
      let child := vsize (m_vertices f) in
      let* vertices := vset (m_vertices f) lastPrefixTree (edges ++ [mkPrefixTreeEdge (Some pointer) child]) in
      Done (mkCombinedURLFilters alphabet (vertices ++ [[]]) (m_filterActions f), child)
  end.

Definition vector_append_unique (actions : list Z) (actionId : Z) : list Z :=
  if bool_decide (actionId ∈ actions) then actions else actions ++ [actionId].

Definition addPattern (f : CombinedURLFilters) (actionId : Z) (pattern : list Term) : outcome CombinedURLFilters :=
  match pattern with
  | [] => Done f
  | _ =>
      let* (f', lastPrefixTree) := ofold add_term (f, 0) pattern in
      let actions := default [] (m_filterActions f' !! lastPrefixTree) in
      Done (mkCombinedURLFilters (m_alphabet f') (m_vertices f')
              (<[lastPrefixTree := vector_append_unique actions actionId]> (m_filterActions f')))
  end.

(** The terms of the characters of a domain. *)
Fixpoint domain_terms (domain : list Z) : outcome (list Term) :=
  match domain with
  | [] => Done []
  | c :: domain' => let* t := Term_character c true in let* ts := domain_terms domain' in Done (t :: ts)
  end.

(** [addDomain(actionId, domain)]; 42 is ['*'] and 46 is ['.']. *)
Definition addDomain (f : CombinedURLFilters) (actionId : Z) (domain : list Z) : outcome CombinedURLFilters :=
  let* endOfLine := Term_endOfLineAssertion in
  match domain with
  | 42 :: rest =>
      let* universal := Term_universalTransition in
      let canonicalDotStar := quantify universal ZeroOrMore in
      let* dot := Term_character 46 true in
      let* characters := domain_terms rest in
      let prependDot := [canonicalDotStar; dot] ++ characters ++ [endOfLine] in
      let prependBeginningOfLine := characters ++ [endOfLine] in
      let* f1 := addPattern f actionId prependDot in
      addPattern f1 actionId prependBeginningOfLine
  | _ =>
      let* characters := domain_terms domain in
      addPattern f actionId (characters ++ [endOfLine])
  end.

(** ** The reverse suffix tree *)

Record ReverseSuffixTreeVertex := mkReverseSuffixTreeVertex { r_edges : list (Z * Z); r_nodeId : Z }.

(** The vertices, and the root of each list of actions. *)
Record ReverseSuffixTree := mkReverseSuffixTree { r_vertices : list ReverseSuffixTreeVertex; r_roots : list (list Z * Z) }.

Definition emptyReverseSuffixTree : ReverseSuffixTree := mkReverseSuffixTree [] [].

(** [HashableActionList(actions)] compares as the sorted vector. *)
Definition HashableActionList (actions : list Z) : list Z := merge_sort Z.le actions.

Definition find_root (t : ReverseSuffixTree) (key : list Z) : option Z :=
  snd <$> List.find (fun slot => bool_decide (fst slot = key)) (r_roots t).

(** ** Generating one NFA *)

(** [nfaNode] is [None] while the builder is not valid. *)
Record ActiveSubtree := mkActiveSubtree { a_vertex : Z; a_nfaNode : option builder; a_edgeIndex : Z }.

(** What [generateNFAForSubtree] changes. *)
Record subtree_state := mkSubtreeState {
  ss_nfa : NFA;
  ss_vertices : list PrefixTreeVertex;
  ss_tree : ReverseSuffixTree;
  ss_stack : list ActiveSubtree
}.

Section Generate.
Context `{HashOrder}.
Variable alphabet : list Term.
Variable actions : gmap Z (list Z).

(** [actions.get(vertex)]. *)
Definition actions_get (vertex : Z) : list Z := default [] (actions !! vertex).

Definition a_isValid (a : ActiveSubtree) : bool := match a_nfaNode a with Some _ => true | None => false end.

Definition with_node (a : ActiveSubtree) (b : builder) : ActiveSubtree := mkActiveSubtree (a_vertex a) (Some b) (a_edgeIndex a).
Definition with_edgeIndex (a : ActiveSubtree) (i : Z) : ActiveSubtree := mkActiveSubtree (a_vertex a) (a_nfaNode a) i.

Definition set_nfa_stack (s : subtree_state) (nfa : NFA) (stack : list ActiveSubtree) : subtree_state :=
  mkSubtreeState nfa (ss_vertices s) (ss_tree s) stack.

(** [subtree.vertex.edges[subtree.edgeIndex]]. *)
Definition active_edge (vertices : list PrefixTreeVertex) (a : ActiveSubtree) : outcome PrefixTreeEdge :=
  let* edges := vget vertices (a_vertex a) in vget edges (a_edgeIndex a).

(** The destructor of a builder. *)
Definition destroy (nfa : NFA) (b : option builder) : outcome NFA :=
  match b with Some b => finalize nfa b | None => Done nfa end.

(** The search for the last generated subtree below [end]. *)
Fixpoint find_beginning (stack : list ActiveSubtree) (i : nat) : outcome Z :=
  match i with
  | O => Crash
  | S beginning =>
      let* a := vget stack (Z.of_nat beginning) in
      if a_isValid a then Done (Z.of_nat beginning) else find_beginning stack beginning
  end.

(** Generates the node of [stackIndex] from the one below it. *)
Definition generate_infix_node (s : subtree_state) (stackIndex : Z) : outcome subtree_state :=
  let* sourceActiveSubtree := vget (ss_stack s) (stackIndex - 1) in
  let* destinationActiveSubtree := vget (ss_stack s) stackIndex in
  match a_nfaNode sourceActiveSubtree with
  | None => Crash
  | Some sourceNode =>
      let* edge := active_edge (ss_vertices s) sourceActiveSubtree in
      let* term := term_at alphabet (e_term edge) in
      let* (nfa, sourceNode', newEnd) := generateGraphToNewNode term (ss_nfa s) sourceNode (actions_get (a_vertex destinationActiveSubtree)) in
      let* nfa' := destroy nfa (a_nfaNode destinationActiveSubtree) in
      let* stack := vset (ss_stack s) (stackIndex - 1) (with_node sourceActiveSubtree sourceNode') in
      let* stack' := vset stack stackIndex (with_node destinationActiveSubtree newEnd) in
      Done (set_nfa_stack s nfa' stack')
  end.

(** The loop of [generateInfixUnsuitableForReverseSuffixTree] at the positions
    below [i]. *)
Fixpoint generate_infix_loop (s : subtree_state) (i : nat) : outcome subtree_state :=
  match i with
  | O => Done s
  | S i' =>
      let* activeSubtree := vget (ss_stack s) (Z.of_nat i') in
      if a_isValid activeSubtree then Done s
      else
        let* _ := release_assert (0 <? Z.of_nat i') in
        let hasActionInsideTree := bool_decide (is_Some (actions !! a_vertex activeSubtree)) in
        let* edges := vget (ss_vertices s) (a_vertex activeSubtree) in
        let hasSingleOutcome := vsize edges =? 1 in
        if hasActionInsideTree || negb hasSingleOutcome then
          let* beginning := find_beginning (ss_stack s) i' in
          ofold generate_infix_node s (seqZ (beginning + 1) (Z.of_nat i' - beginning))
        else generate_infix_loop s i'
  end.

Definition generateInfixUnsuitableForReverseSuffixTree (s : subtree_state) : outcome subtree_state :=
  generate_infix_loop s (Nat.pred (length (ss_stack s))).

(** [reverseSuffixTreeRoots.add(hashableActionList, ...)], and the new node. *)
Definition add_root (nfa : NFA) (tree : ReverseSuffixTree) (actionList : list Z) : outcome (NFA * ReverseSuffixTree * Z) :=
  let key := HashableActionList actionList in
  match find_root tree key with
  | Some root => Done (nfa, tree, root)
  | None =>
      let (nfa1, newNode) := newBuilder nfa in
      let newNode1 := builder_setActions newNode actionList in
      let root := vsize (r_vertices tree) in
      let tree' := mkReverseSuffixTree (r_vertices tree ++ [mkReverseSuffixTreeVertex [] (b_nodeId newNode1)])
                     (hash_place (key, root) (r_roots tree)) in
      let* nfa2 := finalize nfa1 newNode1 in
      Done (nfa2, tree', root)
  end.

(** The edge of the reverse suffix tree with the same term: a new vertex if
    there is none. *)
Definition reverse_step (nfa : NFA) (tree : ReverseSuffixTree) (active : Z) (pointer : option Z) (destinationNodeId : Z)
    : outcome (NFA * ReverseSuffixTree * Z) :=
  let* vertex := vget (r_vertices tree) active in
  match snd <$> List.find (fun e => bool_decide (pointer = Some (fst e))) (r_edges vertex) with
  | Some child => Done (nfa, tree, child)
  | None =>
      let* term := term_at alphabet pointer in
      let (nfa1, newNode) := newBuilder nfa in
      let* (nfa2, newNode1) := generateGraph term nfa1 newNode destinationNodeId in
      let child := vsize (r_vertices tree) in
      let* vertices := vset (r_vertices tree) active
            (mkReverseSuffixTreeVertex (r_edges vertex ++ [(default 0 pointer, child)]) (r_nodeId vertex)) in
      let tree' := mkReverseSuffixTree (vertices ++ [mkReverseSuffixTreeVertex [] (b_nodeId newNode1)]) (r_roots tree) in
      let* nfa3 := finalize nfa2 newNode1 in
      Done (nfa3, tree', child)
  end.

(** The loop of [generateSuffixWithReverseSuffixTree]; [i] is one more than
    [stackPosition]. *)
Fixpoint generate_suffix_loop (s : subtree_state) (active : Z) (i : nat) : outcome subtree_state :=
  match i with
  | O => Crash
  | S stackPosition =>
      let* activeVertex := vget (r_vertices (ss_tree s)) active in
      let destinationNodeId := r_nodeId activeVertex in
      let* source := vget (ss_stack s) (Z.of_nat stackPosition) in
      let* edge := active_edge (ss_vertices s) source in
      match a_nfaNode source with
      | Some sourceNode =>
          let* term := term_at alphabet (e_term edge) in
          let* (nfa, sourceNode') := generateGraph term (ss_nfa s) sourceNode destinationNodeId in
          let* stack := vset (take i (ss_stack s)) (Z.of_nat stackPosition) (with_node source sourceNode') in
          Done (set_nfa_stack s nfa stack)
      | None =>
          let* (nfa, tree, active') := reverse_step (ss_nfa s) (ss_tree s) active (e_term edge) destinationNodeId in
          let* vertices := vset (ss_vertices s) (a_vertex source) [] in
          generate_suffix_loop (mkSubtreeState nfa vertices tree (ss_stack s)) active' stackPosition
      end
  end.

Definition generateSuffixWithReverseSuffixTree (s : subtree_state) : outcome subtree_state :=
  let* leafSubtree := vget (ss_stack s) (vsize (ss_stack s) - 1) in
  let* (nfa, tree, root) := add_root (ss_nfa s) (ss_tree s) (actions_get (a_vertex leafSubtree)) in
  generate_suffix_loop (mkSubtreeState nfa (ss_vertices s) tree (ss_stack s)) root (Nat.pred (length (ss_stack s))).

(** [removeAllMatching]: the edges whose term was reset. *)
Definition remove_marked (edges : list PrefixTreeEdge) : list PrefixTreeEdge :=
  List.filter (fun e => match e_term e with Some _ => true | None => false end) edges.

(** The end of the main loop: the edge just done is marked when its child has
    become a leaf. *)
Definition mark_processed (s : subtree_state) : outcome subtree_state :=
  match ss_stack s with
  | [] => Done s
  | _ =>
      let top := vsize (ss_stack s) - 1 in
      let* activeSubtree := vget (ss_stack s) top in
      let* edges := vget (ss_vertices s) (a_vertex activeSubtree) in
      let* edge := vget edges (a_edgeIndex activeSubtree) in
      let* childEdges := vget (ss_vertices s) (e_child edge) in
      let edge' := match childEdges with [] => mkPrefixTreeEdge None (e_child edge) | _ => edge end in
      let* edges' := vset edges (a_edgeIndex activeSubtree) edge' in
      let* vertices := vset (ss_vertices s) (a_vertex activeSubtree) edges' in
      let* stack := vset (ss_stack s) top (with_edgeIndex activeSubtree (a_edgeIndex activeSubtree + 1)) in
      Done (mkSubtreeState (ss_nfa s) vertices (ss_tree s) stack)
  end.

(** One iteration of the loop, with [nfaTooBig]; [top] is the top of the stack. *)
Definition subtree_step (maxNFASize : Z) (s : subtree_state) (top : ActiveSubtree) (nfaTooBig : bool) : outcome (subtree_state * bool) :=
  let topIndex := vsize (ss_stack s) - 1 in
  let* edges := vget (ss_vertices s) (a_vertex top) in
  if a_edgeIndex top <? vsize edges then
    let* edge := vget edges (a_edgeIndex top) in
    if nfaTooBig then
      let* stack := vset (ss_stack s) topIndex (with_edgeIndex top (vsize edges)) in
      Done (set_nfa_stack s (ss_nfa s) stack, nfaTooBig)
    else
      let* term := term_at alphabet (e_term edge) in
      if negb (hasFixedLength term) then
        let* stack := vset (ss_stack s) topIndex (with_edgeIndex top (a_edgeIndex top + 1)) in
        Done (set_nfa_stack s (ss_nfa s) stack, nfaTooBig)
      else Done (set_nfa_stack s (ss_nfa s) (ss_stack s ++ [mkActiveSubtree (e_child edge) None 0]), nfaTooBig)
  else
    let* vertices := vset (ss_vertices s) (a_vertex top) (remove_marked edges) in
    let s1 := mkSubtreeState (ss_nfa s) vertices (ss_tree s) (ss_stack s) in
    match edges with
    | [] =>
        let* s2 := generateInfixUnsuitableForReverseSuffixTree s1 in
        let* s3 := generateSuffixWithReverseSuffixTree s2 in
        let* s4 := mark_processed s3 in
        Done (s4, nfaTooBig || (maxNFASize <? vsize (nfa_nodes (ss_nfa s3))))
    | _ =>
        let* nfa := destroy (ss_nfa s1) (a_nfaNode top) in
        let* s2 := mark_processed (set_nfa_stack s1 nfa (take (Nat.pred (length (ss_stack s1))) (ss_stack s1))) in
        Done (s2, nfaTooBig)
    end.

Fixpoint subtree_loop (fuel : nat) (maxNFASize : Z) (s : subtree_state) (nfaTooBig : bool) : outcome subtree_state :=
  match ss_stack s with
  | [] => Done s
  | _ =>
      match fuel with
      | O => OutOfFuel
      | S fuel' =>
          let* top := vget (ss_stack s) (vsize (ss_stack s) - 1) in
          let* (s', nfaTooBig') := subtree_step maxNFASize s top nfaTooBig in
          subtree_loop fuel' maxNFASize s' nfaTooBig'
      end
  end.

(** Every vertex is entered and left at most once and every edge is passed at
    most once. *)
Definition subtree_fuel (vertices : list PrefixTreeVertex) : nat :=
  (4 + 3 * length vertices + sum_list_with length vertices)%nat.

(** The NFA and the vertices after [generateNFAForSubtree]; the builder of the
    root is destroyed by the caller when it was not moved to the stack. *)
Definition generateNFAForSubtree (maxNFASize : Z) (nfa : NFA) (vertices : list PrefixTreeVertex) (subtreeRoot : builder) (root : Z)
    : outcome (NFA * list PrefixTreeVertex) :=
  let* edges := vget vertices root in
  match edges with
  | [] => let* nfa' := finalize nfa subtreeRoot in Done (nfa', vertices)
  | _ =>
      let s := mkSubtreeState nfa vertices emptyReverseSuffixTree [mkActiveSubtree root (Some subtreeRoot) 0] in
      let* s' := subtree_loop (subtree_fuel vertices) maxNFASize s false in
      Done (ss_nfa s', ss_vertices s')
  end.

(** ** The main loop *)

Definition vlast {A} (v : list A) : outcome A := vget v (vsize v - 1).

(** The path to a leaf through the last edges; the number of vertices bounds
    its length. *)
Fixpoint last_path (fuel : nat) (vertices : list PrefixTreeVertex) (vertex : Z) : outcome (list Z) :=
  let* edges := vget vertices vertex in
  match edges with
  | [] => Done [vertex]
  | _ =>
      match fuel with
      | O => OutOfFuel
      | S fuel' =>
          let* edge := vlast edges in
          let* path := last_path fuel' vertices (e_child edge) in
          Done (vertex :: path)
      end
  end.

(** Drops the vertices after the last term with a quantifier. *)
Fixpoint find_prefix (vertices : list PrefixTreeVertex) (stack : list Z) (n : nat) : outcome (list Z) :=
  match n with
  | O => Done (take 1 stack)
  | S n' =>
      let* vertex := vget stack (Z.of_nat n') in
      let* edges := vget vertices vertex in
      let* edge := vlast edges in
      let* term := term_at alphabet (e_term edge) in
      if negb (hasFixedLength term) then Done (take (S n) stack) else find_prefix vertices stack n'
  end.

(** Puts the prefix into the NFA. *)
Definition generate_prefix_edge (vertices : list PrefixTreeVertex) (state : NFA * builder) (vertex : Z) : outcome (NFA * builder) :=
  let (nfa, lastNode) := state in
  let* edges := vget vertices vertex in
  let* edge := vlast edges in
  let* term := term_at alphabet (e_term edge) in
  let* (nfa1, lastNode1, newNode) := generateGraphToNewNode term nfa lastNode (actions_get (e_child edge)) in
  let* nfa2 := finalize nfa1 lastNode1 in
  Done (nfa2, newNode).

(** Removes the processed leaves. *)
Fixpoint clean_up (vertices : list PrefixTreeVertex) (stack : list Z) (n : nat) : outcome (list PrefixTreeVertex) :=
  match n with
  | O => Done vertices
  | S n' =>
      let* vertex := vget stack (Z.of_nat n) in
      let* edges := vget vertices vertex in
      match edges with
      | [] =>
          let* parent := vget stack (Z.of_nat n') in
          let* parentEdges := vget vertices parent in
          let* vertices' := vset vertices parent (removelast parentEdges) in
          clean_up vertices' stack n'
      | _ => Done vertices
      end
  end.

(** One iteration: the NFA passed to the handler, or nothing when the tree has
    been processed. *)
Definition process_next (maxNFASize : Z) (vertices : list PrefixTreeVertex) : outcome (option (NFA * list PrefixTreeVertex)) :=
  let* path := last_path (length vertices) vertices 0 in
  if vsize path =? 1 then Done None
  else
    let* stack := find_prefix vertices path (Nat.pred (length path)) in
    let (nfa0, lastNode0) := newBuilder emptyNFA in
    let* (nfa1, lastNode1) := ofold (generate_prefix_edge vertices) (nfa0, lastNode0) (take (Nat.pred (length stack)) stack) in
    let* root := vlast stack in
    let* (nfa2, vertices2) := generateNFAForSubtree maxNFASize nfa1 vertices lastNode1 root in
    let* vertices3 := clean_up vertices2 stack (Nat.pred (length stack)) in
    Done (Some (nfa2, vertices3)).

(** The NFAs passed to the handler, in order; every iteration removes a leaf. *)
Fixpoint process_loop (fuel : nat) (maxNFASize : Z) (vertices : list PrefixTreeVertex) : outcome (list NFA) :=
  let* next := process_next maxNFASize vertices in
  match next with
  | None => Done []
  | Some (nfa, vertices') =>
      match fuel with
      | O => OutOfFuel
      | S fuel' => let* rest := process_loop fuel' maxNFASize vertices' in Done (nfa :: rest)
      end
  end.
End Generate.

(** [processNFAs(maxNFASize, handler)]. *)
Definition processNFAs `{HashOrder} (f : CombinedURLFilters) (maxNFASize : Z) : outcome (list NFA) :=
  process_loop (m_alphabet f) (m_filterActions f) (length (m_vertices f)) maxNFASize (m_vertices f).
