(* ===== verification/CombinedFiltersProofs.v ===== *)
(** * The prefix tree holds the patterns

    The tree with its actions stands for a set of pairs of an action and a
    pattern; adding a pattern or a domain adds what it should and nothing
    else. *)

From stdpp Require Import gmap.
From S2P Require Import Prelude Containers RangeList RangeListProofs Nfa NfaProofs Term TermGraph TermCorrect TermTheorems CombinedFilters.

(** ** Equality of terms *)

Lemma Term_eqb_refl t : Term_eqb t t = true.
Proof.
  induction t as [q|cs q|ts q IH] using Term_ind'; cbn [Term_eqb m_quantifier]; rewrite bool_decide_true by done; cbn [andb]; [done|by rewrite bool_decide_true|].
  induction IH as [|t ts Ht _ IH]; [done|]. by rewrite Ht.
Qed.

Lemma Term_eqb_eq t t' : Term_eqb t t' = true -> t = t'.
Proof.
  revert t'. induction t as [q|cs q|ts q IH] using Term_ind'; intros [q'|cs' q'|ts' q'] E; cbn [Term_eqb m_quantifier] in E;
    apply andb_true_iff in E as [->%bool_decide_eq_true E]; try done.
  - by apply bool_decide_eq_true in E as ->.
  - f_equal. revert ts' E. induction IH as [|t ts Ht _ IH]; intros [|t' ts'] E; try done.
    apply andb_true_iff in E as [E1 E2]. f_equal; auto.
Qed.

Lemma Term_eqb_spec t t' : reflect (t = t') (Term_eqb t t').
Proof. destruct (Term_eqb t t') eqn:E; constructor; [by apply Term_eqb_eq|]. intros ->. by rewrite Term_eqb_refl in E. Qed.

#[global] Instance Term_eq_dec : EqDecision Term.
Proof. intros t t'. destruct (Term_eqb_spec t t'); [by left|by right]. Defined.

(** ** Interned terms *)

Lemma term_index_Some alphabet t i : term_index alphabet t = Some i -> alphabet !! i = Some t.
Proof.
  revert i. induction alphabet as [|t' l IH]; intros i E; [done|]. cbn [term_index] in E. destruct (Term_eqb_spec t' t) as [->|].
  - by injection E as <-.
  - apply fmap_Some in E as (j & Ej & ->). by apply IH.
Qed.

Lemma term_index_None alphabet t : term_index alphabet t = None -> t ∉ alphabet.
Proof.
  induction alphabet as [|t' l IH]; intros E; [apply not_elem_of_nil|]. cbn [term_index] in E. destruct (Term_eqb_spec t' t) as [|Hne]; [done|].
  apply fmap_None in E. apply not_elem_of_cons. split; [congruence|auto].
Qed.

(** An interned term keeps the other pointers; equal terms have equal
    pointers. *)
Lemma interned_spec alphabet t alphabet' p : NoDup alphabet -> interned alphabet t = (alphabet', p) ->
  NoDup alphabet' /\ alphabet `prefix_of` alphabet' /\ vget alphabet' p = Done t.
Proof.
  intros Hnd E. unfold interned in E. destruct (term_index alphabet t) as [i|] eqn:Et; injection E as <- <-.
  - split_and!; [done|done|]. apply vget_Done. rewrite Nat2Z.id. split; [lia|by apply term_index_Some].
  - split_and!; [|by apply prefix_app_r|].
    + apply NoDup_app. split_and!; [done| |apply NoDup_singleton]. intros x Hx ->%list_elem_of_singleton. by eapply term_index_None.
    + apply vget_Done. unfold vsize. rewrite Nat2Z.id, lookup_app_r, Nat.sub_diag by lia. split; [lia|done].
Qed.

Lemma vget_prefix {A} (v v' : list A) i x : v `prefix_of` v' -> vget v i = Done x -> vget v' i = Done x.
Proof. intros [w ->] [Hi Hx]%vget_Done. apply vget_Done. split; [done|]. by apply lookup_app_l_Some. Qed.

Lemma vget_inj {A} (v : list A) i j x : NoDup v -> vget v i = Done x -> vget v j = Done x -> i = j.
Proof. intros Hnd [Hi Hx]%vget_Done [Hj Hy]%vget_Done. pose proof (NoDup_lookup _ _ _ _ Hnd Hx Hy). lia. Qed.

(** ** The tree as a set of patterns *)

Section Tree.
Implicit Types (f : CombinedURLFilters) (ts : list Term).

Definition tree_edge f (v : Z) (t : Term) (c : Z) : Prop :=
  exists edges e, vget (m_vertices f) v = Done edges /\ e ∈ edges /\ e_child e = c /\ term_at (m_alphabet f) (e_term e) = Done t.

Inductive tree_path f : list Term -> Z -> Prop :=
| tree_path_root : tree_path f [] 0
| tree_path_edge ts v t c : tree_path f ts v -> tree_edge f v t c -> tree_path f (ts ++ [t]) c.

(** The pairs of an action and a pattern. *)
Definition has_pattern f (a : Z) ts : Prop :=
  exists v actions, tree_path f ts v /\ m_filterActions f !! v = Some actions /\ a ∈ actions.

Record tree_ok f : Prop := {
  fo_alphabet : NoDup (m_alphabet f);
  fo_root : 0 < vsize (m_vertices f);
  fo_term : forall v edges e, vget (m_vertices f) v = Done edges -> e ∈ edges -> exists t, term_at (m_alphabet f) (e_term e) = Done t;
  fo_child : forall v t c, tree_edge f v t c -> v < c < vsize (m_vertices f);
  fo_parent : forall v t c v' t', tree_edge f v t c -> tree_edge f v' t' c -> v = v' /\ t = t';
  fo_distinct : forall v t c c', tree_edge f v t c -> tree_edge f v t c' -> c = c';
  fo_actions : forall v, is_Some (m_filterActions f !! v) -> 0 < v < vsize (m_vertices f);
  fo_nodup : forall v edges, vget (m_vertices f) v = Done edges -> NoDup (map e_child edges)
}.

(** Every leaf but the root has actions. *)
Definition leaf_ok f (v : Z) : Prop :=
  vget (m_vertices f) v = Done [] -> v = 0 \/ exists actions, m_filterActions f !! v = Some actions /\ actions <> [].

Definition filters_ok f : Prop := tree_ok f /\ forall v, leaf_ok f v.

Lemma tree_path_nil_inv f v : tree_path f [] v -> v = 0.
Proof. inversion 1 as [|ts u t c H1 H2 E]; [done|]. by destruct ts. Qed.

Lemma tree_path_snoc_inv f ts t c : tree_path f (ts ++ [t]) c -> exists v, tree_path f ts v /\ tree_edge f v t c.
Proof. inversion 1 as [E|ts' u t' c' H1 H2 E]; subst; [by destruct ts|]. apply app_inj_tail in E as [-> ->]. eauto. Qed.

Lemma tree_path_inv f ts c : tree_path f ts c -> ts = [] /\ c = 0 \/ exists ts' v t, ts = ts' ++ [t] /\ tree_path f ts' v /\ tree_edge f v t c.
Proof. destruct 1; [by left|right; eauto 10]. Qed.

Lemma tree_edge_source f v t c : tree_edge f v t c -> 0 <= v.
Proof. intros (edges & e & [Hv _]%vget_Done & _). done. Qed.

(** A vertex has one pattern. *)
Lemma tree_path_inj f ts ts' v : tree_ok f -> tree_path f ts v -> tree_path f ts' v -> ts = ts'.
Proof.
  intros Hf. revert ts' v. induction ts as [|t ts IH] using rev_ind; intros ts' v Hp Hp'.
  - apply tree_path_nil_inv in Hp as ->. destruct ts' as [|t' ts' _] using rev_ind; [done|].
    apply tree_path_snoc_inv in Hp' as (u & _ & He). pose proof (tree_edge_source _ _ _ _ He). apply (fo_child _ Hf) in He. lia.
  - apply tree_path_snoc_inv in Hp as (u & Hp & He). destruct ts' as [|t' ts' _] using rev_ind.
    + apply tree_path_nil_inv in Hp' as ->. pose proof (tree_edge_source _ _ _ _ He). apply (fo_child _ Hf) in He. lia.
    + apply tree_path_snoc_inv in Hp' as (u' & Hp' & He'). destruct (fo_parent _ Hf _ _ _ _ _ He He') as [<- <-]. by rewrite (IH ts' u Hp Hp').
Qed.

Lemma tree_path_bound f ts v : tree_ok f -> tree_path f ts v -> 0 <= v < vsize (m_vertices f).
Proof.
  intros Hf Hp. destruct ts as [|t ts _] using rev_ind; [apply tree_path_nil_inv in Hp as ->; split; [lia|apply (fo_root _ Hf)]|].
  apply tree_path_snoc_inv in Hp as (u & _ & He). pose proof (tree_edge_source _ _ _ _ He). apply (fo_child _ Hf) in He. lia.
Qed.

(** ** Adding a term *)

Lemma find_edge_spec f v edges term : tree_ok f -> vget (m_vertices f) v = Done edges ->
  exists r, find_edge (m_alphabet f) edges term = Done r /\
    match r with Some c => tree_edge f v term c | None => forall c, ~ tree_edge f v term c end.
Proof.
  intros Hf Hv. assert (Hloop : forall l, (forall e, e ∈ l -> e ∈ edges) -> exists r, find_edge (m_alphabet f) l term = Done r /\
    match r with Some c => tree_edge f v term c | None => forall e, e ∈ l -> term_at (m_alphabet f) (e_term e) <> Done term end).
  { induction l as [|e l IH]; intros Hl; [exists None; split; [done|by intros ? ?%elem_of_nil]|].
    destruct (fo_term _ Hf v edges e Hv) as [t Ht]; [apply Hl; left|]. cbn [find_edge]. rewrite Ht. cbn [obind]. destruct (Term_eqb_spec t term) as [->|Hne].
    - exists (Some (e_child e)). split; [done|]. exists edges, e. split_and!; try done. apply Hl. left.
    - destruct IH as (r & -> & Hr); [intros e' He'; apply Hl; by right|]. exists r. split; [done|]. destruct r; [done|].
      intros e' [->|He']%elem_of_cons; [congruence|by apply Hr]. }
  destruct (Hloop edges) as (r & E & Hr); [done|]. exists r. split; [done|]. destruct r; [done|].
  intros c (edges' & e & Hv' & He & _ & Ht). rewrite Hv in Hv'. injection Hv' as <-. by apply (Hr e He).
Qed.

(** What a step adds: at most one edge, to a new vertex without actions. *)
Record term_added f (v : Z) (t : Term) f' (c : Z) : Prop := {
  ta_edges : forall u s d, tree_edge f' u s d <-> tree_edge f u s d \/ (u = v /\ s = t /\ d = c);
  ta_actions : m_filterActions f' = m_filterActions f;
  ta_fresh : tree_edge f v t c \/ c = vsize (m_vertices f);
  ta_leaves : forall u, u <> c -> vget (m_vertices f') u = Done [] -> vget (m_vertices f) u = Done [] /\ u <> v
}.

Lemma vget_snoc_insert {A} (l : list A) v x y u r : 0 <= v < vsize l ->
  vget (<[Z.to_nat v := x]> l ++ [y]) u = Done r <-> (u = v /\ r = x) \/ (u = vsize l /\ r = y) \/ (u <> v /\ vget l u = Done r).
Proof.
  intros Hv. unfold vsize in *. rewrite !vget_Done, lookup_app, list_lookup_insert, length_insert.
  destruct (decide (Z.to_nat v = Z.to_nat u /\ (Z.to_nat v < length l)%nat)) as [[E _]|Hne].
  - split; [intros [Hu E']; left; split; [lia|congruence]|]. intros [[-> ->]|[[-> ->]|[Hu [? _]]]]; [split; [lia|done]|lia..].
  - destruct (l !! Z.to_nat u) as [z|] eqn:E.
    + pose proof (lookup_lt_Some _ _ _ E). split.
      * intros [Hu E']. right. right. split; [intros ->; lia|]. done.
      * intros [[-> ->]|[[-> ->]|[Hu ?]]]; [lia|lia|done].
    + pose proof (lookup_ge_None_1 _ _ E). destruct (decide (Z.to_nat u = length l)) as [E1|E1].
      * rewrite E1, Nat.sub_diag. split; [intros [Hu E']; right; left; split; [lia|by injection E'] |].
        intros [[-> ->]|[[-> ->]|[Hu [? ?]]]]; [lia|by split; [lia|]|done].
      * rewrite (lookup_ge_None_2 [y]) by (cbn; lia). split; [by intros []|]. intros [[-> ->]|[[-> ->]|[Hu [? ?]]]]; [lia|lia|done].
Qed.

Lemma term_at_prefix alphabet alphabet' p t : alphabet `prefix_of` alphabet' -> term_at alphabet p = Done t -> term_at alphabet' p = Done t.
Proof. intros Hp. destruct p; [by apply vget_prefix|done]. Qed.

(** The step that extends the tree. *)
Lemma add_edge_spec f v edges t alphabet p : tree_ok f -> 0 <= v < vsize (m_vertices f) -> vget (m_vertices f) v = Done edges ->
  (forall c, ~ tree_edge f v t c) -> interned (m_alphabet f) t = (alphabet, p) ->
  let c := vsize (m_vertices f) in
  let f' := mkCombinedURLFilters alphabet (<[Z.to_nat v := edges ++ [mkPrefixTreeEdge (Some p) c]]> (m_vertices f) ++ [[]]) (m_filterActions f) in
  tree_ok f' /\ term_added f v t f' c.
Proof.
  intros Hf Hv Hedges Hno Hi c f'. destruct (interned_spec _ _ _ _ (fo_alphabet _ Hf) Hi) as (Hnd & Hpre & Hp).
  assert (Hvs : forall u r, vget (m_vertices f') u = Done r <-> (u = v /\ r = edges ++ [mkPrefixTreeEdge (Some p) c]) \/ (u = c /\ r = []) \/ (u <> v /\ vget (m_vertices f) u = Done r)).
  { intros u r. by apply vget_snoc_insert. }
  assert (Hterm : forall u r e s, vget (m_vertices f) u = Done r -> e ∈ r -> term_at alphabet (e_term e) = Done s <-> term_at (m_alphabet f) (e_term e) = Done s).
  { intros u r e s Hu He. split; [|by apply term_at_prefix]. destruct (fo_term _ Hf u r e Hu He) as [s' Hs']. rewrite Hs', (term_at_prefix _ _ _ _ Hpre Hs'). done. }
  assert (Hed : forall u s d, tree_edge f' u s d <-> tree_edge f u s d \/ (u = v /\ s = t /\ d = c)).
  { intros u s d. split.
    - intros (r & e & Hr & He & <- & Hs). apply Hvs in Hr as [[-> ->]|[[-> ->]|[Hu Hr]]]; [|by apply elem_of_nil in He|].
      + apply elem_of_app in He as [He| ->%list_elem_of_singleton]; [left; exists edges, e; split_and!; try done; by eapply Hterm|].
        right. cbn in Hs. rewrite Hp in Hs. injection Hs as <-. done.
      + left. exists r, e. split_and!; try done. by eapply Hterm.
    - intros [(r & e & Hr & He & <- & Hs)|(-> & -> & ->)].
      + destruct (Z.eq_dec u v) as [->|Hne].
        * rewrite Hedges in Hr. injection Hr as <-. eexists _, e. split; [by apply Hvs; left|]. split_and!; [apply elem_of_app; by left|done|]. by eapply Hterm.
        * exists r, e. split; [apply Hvs; auto|]. split_and!; [done|done|]. by eapply Hterm.
      + eexists _, _. split; [by apply Hvs; left|]. split; [apply elem_of_app; right; by apply list_elem_of_singleton|]. done. }
  assert (Hsize : vsize (m_vertices f') = c + 1). { unfold f'. cbn [m_vertices]. rewrite vsize_app, vsize_insert. done. }
  assert (Hold : forall u s d, tree_edge f u s d -> u < d < c) by apply (fo_child _ Hf).
  split; [constructor|].
  - done.
  - rewrite Hsize. pose proof (fo_root _ Hf). unfold c. lia.
  - intros u r e Hr He. apply Hvs in Hr as [[-> ->]|[[-> ->]|[Hu Hr]]]; [|by apply elem_of_nil in He|].
    + apply elem_of_app in He as [He| ->%list_elem_of_singleton]; [|by exists t]. destruct (fo_term _ Hf _ _ _ Hedges He) as [s Hs]. exists s. by eapply term_at_prefix.
    + destruct (fo_term _ Hf _ _ _ Hr He) as [s Hs]. exists s. by eapply term_at_prefix.
  - intros u s d [Hd|(-> & -> & ->)]%Hed; [apply Hold in Hd|]; lia.
  - intros u s d u' s' [Hd|(-> & -> & Ed)]%Hed [Hd'|(-> & -> & Ed')]%Hed; [by eapply (fo_parent _ Hf)| | |done].
    + apply Hold in Hd. lia.
    + apply Hold in Hd'. lia.
  - intros u s d d' [Hd|(-> & -> & ->)]%Hed [Hd'|(Eu & Es & ->)]%Hed; [by eapply (fo_distinct _ Hf)| | |done].
    + subst. by apply Hno in Hd.
    + by apply Hno in Hd'.
  - intros u Hu. apply (fo_actions _ Hf) in Hu. lia.
  - intros u r Hr. apply Hvs in Hr as [[-> ->]|[[-> ->]|[Hu Hr]]]; [|constructor|by apply (fo_nodup _ Hf u)].
    rewrite map_app. cbn. apply NoDup_app. split_and!; [by apply (fo_nodup _ Hf v)| |apply NoDup_singleton].
    intros d (e & -> & He)%list_elem_of_fmap Hd%list_elem_of_singleton. destruct (fo_term _ Hf _ _ _ Hedges He) as [s Hs].
    assert (Hlt : v < e_child e < c) by (apply (Hold v s); by exists edges, e). lia.
  - constructor; [done|done|by right|]. intros u Hu Hr. apply Hvs in Hr as [[-> E]|[[-> _]|[Hne Hr]]]; [by destruct edges|done|done].
Qed.

Lemma add_term_spec f ts v t : tree_ok f -> tree_path f ts v ->
  exists f' c, add_term (f, v) t = Done (f', c) /\ tree_ok f' /\ term_added f v t f' c.
Proof.
  intros Hf Hp. pose proof (tree_path_bound _ _ _ Hf Hp) as Hv. unfold add_term. destruct (vget_total _ _ Hv) as (edges & Hedges & _).
  rewrite Hedges. cbn [obind]. destruct (find_edge_spec f v edges t Hf Hedges) as (r & -> & Hr). cbn [obind]. destruct r as [c|].
  - exists f, c. split_and!; [done|done|]. constructor; [|done|by left|].
    + intros u s d. split; [by left|]. intros [?|(-> & -> & ->)]; done.
    + intros u Hu E. split; [done|]. intros ->. destruct Hr as (r & e & Hr & He & _). rewrite E in Hr. injection Hr as <-. by apply elem_of_nil in He.
  - destruct (interned (m_alphabet f) t) as [alphabet p] eqn:Ei. rewrite vset_Done by done. cbn [obind]. eexists _, _. split; [done|]. by apply (add_edge_spec f v edges t alphabet p).
Qed.

(** ** Adding a pattern *)

Lemma term_added_path f v t f' c ts : tree_ok f -> term_added f v t f' c -> tree_path f ts v ->
  tree_path f' (ts ++ [t]) c /\ (forall q u, tree_path f q u -> tree_path f' q u) /\
  forall q u, tree_path f' q u -> tree_path f q u \/ (q = ts ++ [t] /\ u = c /\ m_filterActions f !! c = None).
Proof.
  intros Hf [He Ha Hfr _] Hp. assert (Hmono : forall q u, tree_path f q u -> tree_path f' q u).
  { induction 1 as [|q u s d Hq IH Hd]; [constructor|]. econstructor; [done|]. apply He. by left. }
  split_and!; [econstructor; [by apply Hmono|apply He; auto]|done|].
  induction 1 as [|q u s d Hq IH Hd]; [left; constructor|]. destruct IH as [IH|(-> & -> & Hn)].
  - apply He in Hd as [Hd|(-> & -> & ->)]; [left; by econstructor|]. rewrite (tree_path_inj _ _ _ _ Hf IH Hp).
    destruct Hfr as [Hfr| ->]; [left; by econstructor|]. right. split_and!; try done. destruct (m_filterActions f !! vsize (m_vertices f)) eqn:E; [|done].
    exfalso. assert (0 < vsize (m_vertices f) < vsize (m_vertices f)); [|lia]. apply (fo_actions _ Hf). by eexists.
  - destruct Hfr as [Hfr| ->]; [left; econstructor; [by econstructor|]|].
    + apply He in Hd as [Hd|(Ed & _)]; [done|]. apply (fo_child _ Hf) in Hfr. lia.
    + exfalso. apply He in Hd as [Hd|(Ed & _)].
      * destruct Hd as (r & e & [Hs Hr]%vget_Done & _). apply lookup_lt_Some in Hr. unfold vsize in *. lia.
      * pose proof (tree_path_bound _ _ _ Hf Hp). lia.
Qed.

(** The state after the first terms of a pattern. *)
Record pattern_added f ts f' (v : Z) : Prop := {
  pd_ok : tree_ok f';
  pd_path : tree_path f' ts v;
  pd_keeps : forall q u, tree_path f q u -> tree_path f' q u;
  pd_new : forall q u, tree_path f' q u -> tree_path f q u \/ m_filterActions f !! u = None;
  pd_actions : m_filterActions f' = m_filterActions f;
  pd_leaves : forall u, u <> v -> leaf_ok f' u
}.

Lemma add_terms_spec f pattern : filters_ok f -> exists f' v, ofold add_term (f, 0) pattern = Done (f', v) /\ pattern_added f pattern f' v.
Proof.
  intros [Hf Hleaf]. induction pattern as [|t ts IH] using rev_ind.
  { exists f, 0. split; [done|]. constructor; try done; [constructor|auto]. }
  destruct IH as (f1 & v & E & [Hok Hp Hk Hn Ha Hl]). rewrite ofold_app, E. cbn [obind ofold].
  destruct (add_term_spec f1 ts v t Hok Hp) as (f2 & c & E2 & Hok2 & Hadd). rewrite E2. cbn [obind]. exists f2, c. split; [done|].
  destruct (term_added_path _ _ _ _ _ _ Hok Hadd Hp) as (Hp2 & Hk2 & Hn2). pose proof (ta_actions _ _ _ _ _ Hadd) as Ha2. constructor; try done.
  - auto.
  - intros q u [Hq|(-> & -> & Hq)]%Hn2; [by apply Hn|]. right. congruence.
  - congruence.
  - intros u Hu E'. destruct (ta_leaves _ _ _ _ _ Hadd u Hu E') as [E1 Hne]. rewrite Ha2. by apply Hl.
Qed.

Lemma vector_append_unique_spec l a b : b ∈ vector_append_unique l a <-> b ∈ l \/ b = a.
Proof.
  unfold vector_append_unique. case_bool_decide; [|by rewrite elem_of_app, list_elem_of_singleton]. split; [by left|]. by intros [?| ->].
Qed.

Lemma addPattern_spec f a pattern : filters_ok f -> pattern <> [] ->
  exists f', addPattern f a pattern = Done f' /\ filters_ok f' /\
    forall b q, has_pattern f' b q <-> has_pattern f b q \/ (b = a /\ q = pattern).
Proof.
  intros Hf Hne. destruct (add_terms_spec f pattern Hf) as (f1 & v & E & [Hok Hp Hk Hn Ha Hl]). unfold addPattern. destruct pattern as [|t ts]; [done|].
  rewrite E. cbn [obind]. set (actions := vector_append_unique _ a). eexists. split; [done|].
  set (f' := mkCombinedURLFilters _ _ _). assert (He : forall u s d, tree_edge f' u s d <-> tree_edge f1 u s d) by done.
  assert (Hpath : forall q u, tree_path f' q u <-> tree_path f1 q u).
  { intros q u. split; (induction 1; [constructor|]; econstructor; [done|by apply He]). }
  assert (Hact : forall u l, m_filterActions f' !! u = Some l <-> (u = v /\ l = actions) \/ (u <> v /\ m_filterActions f !! u = Some l)).
  { intros u l. unfold f'. cbn [m_filterActions]. rewrite lookup_insert_Some, Ha. naive_solver. }
  pose proof (tree_path_bound _ _ _ Hok Hp) as Hv.
  assert (Hv0 : 0 < v). { destruct (tree_path_inv f1 _ _ Hp) as [[? _]|(ts' & u & s & _ & _ & He')]; [done|]. pose proof (tree_edge_source _ _ _ _ He'). apply (fo_child _ Hok) in He'. lia. }
  split; [split|].
  - destruct Hok as [O1 O2 O3 O4 O5 O6 O7 O8]. constructor; try done. intros u [l Hu]. apply Hact in Hu as [[-> _]|[_ Hu]]; [split; [done|apply Hv]|]. apply O7. rewrite Ha. by eexists.
  - intros u Hu. destruct (Z.eq_dec u v) as [->|Hne']; [right; exists actions; split; [apply Hact; auto|]; apply (elem_of_not_nil a), vector_append_unique_spec; auto|].
    destruct (Hl u Hne' Hu) as [->|(l & Hu' & ?)]; [by left|]. right. exists l. split; [|done]. apply Hact. right. split; [done|]. by rewrite <- Ha.
  - intros b q. split.
    + intros (u & l & Hq%Hpath & Hu & Hb). apply Hact in Hu as [[-> ->]|[Hne' Hu]].
      * apply vector_append_unique_spec in Hb as [Hb| ->]; [|right; split; [done|]; by apply (tree_path_inj f1 _ _ v)].
        left. rewrite Ha in Hb. destruct (m_filterActions f !! v) as [l|] eqn:El; [|by apply elem_of_nil in Hb]. exists v, l. split_and!; try done.
        destruct (Hn q v Hq) as [?|?]; [done|congruence].
      * left. exists u, l. split_and!; try done. destruct (Hn q u Hq) as [?|?]; [done|congruence].
    + intros [(u & l & Hq & Hu & Hb)|[-> ->]].
      * destruct (Z.eq_dec u v) as [->|Hne'].
        -- exists v, actions. split_and!; [by apply Hpath, Hk|by apply Hact; left|]. apply vector_append_unique_spec. left. by rewrite Ha, Hu.
        -- exists u, l. split_and!; [by apply Hpath, Hk|by apply Hact; right|done].
      * exists v, actions. split_and!; [by apply Hpath|by apply Hact; left|]. apply vector_append_unique_spec. by right.
Qed.
End Tree.
