(* ===== verification/CombinedFiltersTheorems.v ===== *)
(** * Properties of the combined filters: adding patterns and domains *)

From stdpp Require Import gmap.
From S2P Require Import Prelude Containers RangeList RangeListProofs Nfa NfaProofs Term TermGraph TermCorrect TermTheorems.
From S2P Require Import CombinedFilters CombinedFiltersProofs.

#[local] Opaque cs_mem.

(** ** The terms of a domain *)

Lemma emptyCharacterSet_mem c : 0 <= c < 128 -> cs_mem emptyCharacterSet c = false.
Proof. intros Hc. rewrite cs_mem_testbit by done. by destruct (c <? 64); cbn [emptyCharacterSet m_characters0 m_characters1]; rewrite Z.bits_0. Qed.

(** A set that holds one character matches that character. *)
Lemma single_lang c : 0 <= c < 128 -> exists cs, cs_set emptyCharacterSet c = Done cs /\
  forall w, term_lang (CharacterSetTerm cs One) w <-> w = [c].
Proof.
  intros Hc. destruct (cs_set_spec emptyCharacterSet c) as (cs & E & _ & Hi & Hm); [done|done|]. exists cs. split; [done|]. intros w. split.
  - intros (x & -> & Hx). unfold cs_matches in Hx. rewrite Hi in Hx. apply andb_true_iff in Hx as [Hb Hx]. apply andb_true_iff in Hb as [Hb1 Hb2].
    rewrite Hm, emptyCharacterSet_mem in Hx by lia. cbn [orb] in Hx. by apply Z.eqb_eq in Hx as ->.
  - intros ->. exists c. split; [done|]. unfold cs_matches. rewrite Hi, Hm, emptyCharacterSet_mem, Z.eqb_refl by done. cbn [m_inverted emptyCharacterSet].
    by destruct (Z.leb_spec 0 c), (Z.ltb_spec c 128); try lia.
Qed.

Lemma Term_character_lang c : 0 <= c < 128 -> exists t, Term_character c true = Done t /\ forall w, term_lang t w <-> w = [c].
Proof.
  intros Hc. destruct (single_lang c Hc) as (cs & E & Hl). exists (CharacterSetTerm cs One). split; [|done].
  unfold Term_character, addCharacter, cs_addCharacter. rewrite through_char_ascii by done. cbn [orb]. by rewrite E.
Qed.

Lemma endOfLine_lang : exists t, Term_endOfLineAssertion = Done t /\ forall w, term_lang t w <-> w = [0].
Proof.
  destruct (single_lang 0) as (cs & E & Hl); [lia|]. exists (CharacterSetTerm cs One). split; [|done]. unfold Term_endOfLineAssertion. by rewrite E.
Qed.

Lemma universal_star_lang : exists t, Term_universalTransition = Done t /\ forall w, term_lang (quantify t ZeroOrMore) w <-> url_word w.
Proof.
  unfold Term_universalTransition.
  destruct (ofold_total cs_set (fun done cs => cs_wf cs /\ m_inverted cs = false /\ forall x, 0 <= x < 128 -> cs_mem cs x = bool_decide (x ∈ done)) emptyCharacterSet (seqZ 1 127))
    as (cs & E & Hw & Hi & Hm).
  - intros l x cs (Hw & Hi & Hm) Hp. assert (Hx : x ∈ seqZ 1 127) by (eapply elem_of_prefix; [|done]; apply elem_of_app; right; by apply list_elem_of_singleton).
    apply elem_of_seqZ in Hx. destruct (cs_set_spec cs x) as (cs' & E & Hw' & Hi' & Hm'); [done|lia|]. exists cs'. split_and!; [done|done|congruence|].
    intros y Hy. rewrite Hm', Hm by done. destruct (Z.eqb_spec y x) as [->|Hne].
    + rewrite orb_true_r. symmetry. apply bool_decide_eq_true, elem_of_app. right. by apply list_elem_of_singleton.
    + rewrite orb_false_r. apply bool_decide_ext. rewrite elem_of_app, list_elem_of_singleton. tauto.
  - split_and!; [done|done|]. intros x Hx. rewrite emptyCharacterSet_mem by done. symmetry. apply bool_decide_eq_false, not_elem_of_nil.
  - rewrite E. cbn [obind]. exists (CharacterSetTerm cs One). split; [done|]. intros w.
    assert (Hc : forall c, cs_matches cs c = true <-> 1 <= c < 128).
    { intros c. unfold cs_matches. rewrite Hi. rewrite !andb_true_iff, Z.leb_le, Z.ltb_lt. split.
      - intros [Hc1 Hc2]. rewrite Hm in Hc2 by lia. apply bool_decide_eq_true, elem_of_seqZ in Hc2. lia.
      - intros Hc. rewrite Hm by lia. split; [lia|]. apply bool_decide_eq_true, elem_of_seqZ. lia. }
    cbn [quantify]. unfold term_lang. cbn [m_quantifier lang_quantified atom_lang]. split.
    + induction 1 as [|u v (c & -> & Hc') Hv IH]; [constructor|]. constructor; [by apply Hc|done].
    + intros Hu. apply lang_star_letters; [|done]. intros c Hc'. exists c. split; [done|]. by apply Hc.
Qed.

Lemma domain_terms_lang domain : Forall (fun c => 0 <= c < 128) domain ->
  exists ts, domain_terms domain = Done ts /\ forall w, terms_lang ts w <-> w = domain.
Proof.
  induction 1 as [|c domain Hc Hd (ts & E & IH)]; [by exists []|]. destruct (Term_character_lang c Hc) as (t & Et & Ht). cbn [domain_terms].
  rewrite Et, E. cbn [obind]. exists (t :: ts). split; [done|]. intros w. cbn [terms_lang]. split.
  - intros (u & v & -> & ->%Ht & ->%IH). done.
  - intros ->. exists [c], domain. split_and!; [done|by apply Ht|by apply IH].
Qed.

(** ** Adding a domain *)

(** The words that perform an action. *)
Definition filter_matches (f : CombinedURLFilters) (a : Z) (w : list Z) : Prop := exists p, has_pattern f a p /\ terms_lang p w.

(** What a domain of a rule stands for: the whole host, or with a star also
    each of its subdomains. *)
Definition domain_matches (domain w : list Z) : Prop :=
  match domain with
  | 42 :: rest => w = rest ++ [0] \/ exists sub, url_word sub /\ w = sub ++ [46] ++ rest ++ [0]
  | _ => w = domain ++ [0]
  end.

(** The match on the star, with one other case. *)
Lemma star_cases {A} (domain : list Z) (P : A -> Prop) (x : list Z -> A) (y : A) :
  (forall rest, domain = 42 :: rest -> P (x rest)) -> ((forall rest, domain <> 42 :: rest) -> P y) ->
  P (match domain with 42 :: rest => x rest | _ => y end).
Proof.
  intros Hx Hy. destruct domain as [|c rest]; [by apply Hy|]. destruct (Z.eq_dec c 42) as [->|Hne]; [by apply Hx|].
  assert (Hq : P y) by (apply Hy; intros r Er; injection Er as -> ->; done). by repeat (destruct c as [|c|c]; try done).
Qed.

Lemma filter_matches_addPattern f a p : filters_ok f -> p <> [] -> exists f', addPattern f a p = Done f' /\ filters_ok f' /\
  forall b w, filter_matches f' b w <-> filter_matches f b w \/ (b = a /\ terms_lang p w).
Proof.
  intros Hf Hp. destruct (addPattern_spec f a p Hf Hp) as (f' & E & Hf' & Hpat). exists f'. split_and!; [done|done|]. intros b w. unfold filter_matches. split.
  - intros (q & [Hq|[-> ->]]%Hpat & Hw); [left; eauto|by right].
  - intros [(q & Hq & Hw)|[-> Hw]]; [exists q|exists p]; rewrite Hpat; auto.
Qed.

Lemma snoc_not_nil {A} (l : list A) x : l ++ [x] <> [].
Proof. by destruct l. Qed.

Lemma terms_lang_snoc ts t w : terms_lang (ts ++ [t]) w <-> lang_concat (terms_lang ts) (term_lang t) w.
Proof.
  rewrite terms_lang_app. unfold lang_concat. cbn [terms_lang]. split; intros (u & v & -> & Hu & Hv); exists u, v; (split_and!; [done..|]); by apply lang_concat_nil_r.
Qed.

(** The characters of a domain up to the end of the line. *)
Lemma host_lang ts domain eol w : (forall w, terms_lang ts w <-> w = domain) -> (forall w, term_lang eol w <-> w = [0]) -> terms_lang (ts ++ [eol]) w <-> w = domain ++ [0].
Proof.
  intros Ht He. rewrite terms_lang_snoc. split; [intros (u & v & -> & ->%Ht & ->%He); done|]. intros ->. exists domain, [0]. rewrite Ht, He. done.
Qed.

Section Properties.
(** C24: Adding a pattern to the prefix tree adds exactly that pair of an action
    and a pattern: the tree invariant (terms interned, one edge per term,
    every leaf with actions) is kept, and the pairs the tree stands for are
    the old ones and the new one, although patterns share their prefixes. *)
Theorem addPattern_adds f a pattern : filters_ok f -> pattern <> [] ->
  exists f', addPattern f a pattern = Done f' /\ filters_ok f' /\
    forall b q, has_pattern f' b q <-> has_pattern f b q \/ (b = a /\ q = pattern).
Proof. intros. by apply addPattern_spec. Qed.

(** What adding a domain does. *)
Lemma addDomain_spec f a domain : filters_ok f -> url_word domain ->
  exists f', addDomain f a domain = Done f' /\ filters_ok f' /\
    forall b w, filter_matches f' b w <-> filter_matches f b w \/ (b = a /\ domain_matches domain w).
Proof.
  intros Hf Hd. assert (Hd' : Forall (fun c => 0 <= c < 128) domain) by (eapply Forall_impl; [done|]; cbn; lia).
  destruct endOfLine_lang as (eol & Ee & He). unfold addDomain, domain_matches. rewrite Ee. cbn [obind].
  apply (star_cases domain (fun m => exists f', m = Done f' /\ _)).
  - intros rest ->. destruct universal_star_lang as (t & -> & Ht). destruct (Term_character_lang 46) as (dot & -> & Hdot); [lia|].
    apply Forall_cons in Hd' as [_ Hd']. destruct (domain_terms_lang rest Hd') as (ts & -> & Hts). cbn [obind].
    destruct (filter_matches_addPattern f a ([quantify t ZeroOrMore; dot] ++ ts ++ [eol]) Hf) as (f1 & E1 & Hf1 & Hm1); [done|]. rewrite E1. cbn [obind].
    destruct (filter_matches_addPattern f1 a (ts ++ [eol]) Hf1) as (f2 & E2 & Hf2 & Hm2); [apply snoc_not_nil|]. exists f2. split_and!; [done|done|].
    intros b w. rewrite Hm2, Hm1, (host_lang ts rest eol w Hts He).
    assert (Hsub : terms_lang ([quantify t ZeroOrMore; dot] ++ ts ++ [eol]) w <-> exists sub, url_word sub /\ w = sub ++ [46] ++ rest ++ [0]).
    { change ([?a; ?b] ++ ?l) with (a :: b :: l). cbn [terms_lang]. split.
      - intros (u & v & -> & Hu%Ht & (x & y & -> & ->%Hdot & Hy)). apply (host_lang ts rest eol y Hts He) in Hy as ->. by exists u.
      - intros (sub & Hs & ->). exists sub, ([46] ++ rest ++ [0]). split_and!; [done|by apply Ht|]. exists [46], (rest ++ [0]). rewrite Hdot. split_and!; try done.
        by apply (host_lang ts rest eol). }
    rewrite Hsub. tauto.
  - intros Hns. destruct (domain_terms_lang domain Hd') as (ts & -> & Hts). cbn [obind].
    destruct (filter_matches_addPattern f a (ts ++ [eol]) Hf) as (f1 & E1 & Hf1 & Hm1); [apply snoc_not_nil|]. exists f1. split_and!; [done|done|].
    intros b w. rewrite Hm1, (host_lang ts domain eol w Hts He).
    apply (star_cases domain (fun P : Prop => _ \/ _ /\ _ <-> _ \/ _ /\ P)); [|done]. intros rest ->. by destruct (Hns rest).
Qed.

(** C23: Adding a domain makes the action match exactly the hosts of the domain:
    ["webkit.org"] only the host itself, ["*webkit.org"] the host and all of
    its subdomains, each followed by the end of the line; the words of the
    other patterns stay as they were. *)
Theorem addDomain_matches f a domain : filters_ok f -> url_word domain ->
  exists f', addDomain f a domain = Done f' /\ filters_ok f' /\
    forall b w, filter_matches f' b w <-> filter_matches f b w \/ (b = a /\ domain_matches domain w).
Proof. apply addDomain_spec. Qed.
End Properties.

(** ** Witnesses *)

Lemma empty_filters_ok : filters_ok emptyCombinedURLFilters.
Proof.
  assert (Hv : forall v edges, vget (m_vertices emptyCombinedURLFilters) v = Done edges -> v = 0 /\ edges = []).
  { intros v edges [Hv E]%vget_Done. destruct (Z.to_nat v) as [|n] eqn:En; [|by destruct n]. injection E as <-. split; [lia|done]. }
  assert (He : forall v t c, ~ tree_edge emptyCombinedURLFilters v t c) by (intros v t c (edges & e & [_ ->]%Hv & He%elem_of_nil & _); done).
  split; [constructor|].
  - constructor.
  - done.
  - intros v edges e [_ ->]%Hv He'%elem_of_nil. done.
  - intros v t c H. by apply He in H.
  - intros v t c v' t' H. by apply He in H.
  - intros v t c c' H. by apply He in H.
  - intros v [x Hx]. cbn in Hx. by rewrite lookup_empty in Hx.
  - intros v edges [_ ->]%Hv. constructor.
  - intros v [-> _]%Hv. by left.
Qed.

Definition sample_terms : list Term := [CharacterSetTerm (mkCharacterSet false 0 (2 ^ 33)) One; CharacterSetTerm (mkCharacterSet false 0 (2 ^ 34)) ZeroOrMore].

Lemma addPattern_adds_witness : exists f', addPattern emptyCombinedURLFilters 7 sample_terms = Done f' /\ filters_ok f' /\ has_pattern f' 7 sample_terms.
Proof.
  destruct (addPattern_adds emptyCombinedURLFilters 7 sample_terms) as (f' & E & Hf & Hp); [exact empty_filters_ok|discriminate|].
  exists f'. split; [exact E|]. split; [exact Hf|]. apply Hp. right. split; reflexivity.
Defined.

(** ["*a.b"] matches ["x.a.b"]. *)
Lemma addDomain_matches_witness : exists f', addDomain emptyCombinedURLFilters 7 [42; 97; 46; 98] = Done f' /\ filter_matches f' 7 [120; 46; 97; 46; 98; 0].
Proof.
  destruct (addDomain_matches emptyCombinedURLFilters 7 [42; 97; 46; 98]) as (f' & E & Hf & Hm); [exact empty_filters_ok| |].
  - unfold url_word. repeat (constructor; [lia|]). constructor.
  - exists f'. split; [exact E|]. apply Hm. right. split; [reflexivity|]. right. exists [120]. split; [|reflexivity].
    unfold url_word. repeat (constructor; [lia|]). constructor.
Defined.
