(* ===== verification/NfaSkeleton.v ===== *)
(** * NFAs built from the graphs of terms

    While an NFA is under construction some of its nodes live in builders.  Its
    main nodes are joined by the graphs of terms: the skeleton has one edge per
    graph, labelled with the term, and a path between main nodes spells a word
    of the terms along a path of the skeleton. *)

From S2P Require Import Prelude Containers RangeList RangeListProofs Nfa NfaProofs Term TermGraph TermCorrect.

#[local] Arguments vsize {A} v : simpl never.

(** ** Adding a fragment to a graph *)

Section Union.
Context (E F : graph) (lo hi s d : Z) (A : lang).
Context (HF : fragment F lo hi s d A) (Hlo : forall p l q, E p l q -> p < lo /\ q < lo).

(** A path that uses the fragment any number of times. *)
Inductive hops (q : Z) : Z -> list Z -> Prop :=
| hops_last p w : path E p w q -> hops q p w
| hops_next p u v w : path E p u s -> A v -> hops q d w -> hops q p (u ++ v ++ w).

Lemma hops_prepend q p u r w : path E p u r -> hops q r w -> hops q p (u ++ w).
Proof.
  intros Hu Hh. inversion Hh as [? ? Hp|? u' v w' Hp Hv Hn]; subst.
  - apply hops_last. by eapply path_app.
  - rewrite (app_assoc u u'). apply hops_next; [by eapply path_app|done|done].
Qed.

Lemma union_hops p w q : path (graph_union E F) p w q -> q < lo ->
  (p < lo -> hops q p w) /\ (lo <= p < hi -> exists v w', w = v ++ w' /\ path F p v d /\ hops q d w').
Proof.
  intros Hp Hq. destruct HF as [S T O L].
  assert (Hstep : forall p l r v, F p l r -> (l = None /\ v = [] \/ exists c, l = Some c /\ v = [c]) -> forall x, path F r x d -> path F p (v ++ x) d).
  { intros p' l r v He [[-> ->]|(c & -> & ->)] x Hx; cbn; eauto with ce. }
  assert (Hone : forall p l r v w, (E p l r \/ F p l r) -> (l = None /\ v = [] \/ exists c, l = Some c /\ v = [c]) ->
    ((r < lo -> hops q r w) /\ (lo <= r < hi -> exists x w', w = x ++ w' /\ path F r x d /\ hops q d w')) ->
    (p < lo -> hops q p (v ++ w)) /\ (lo <= p < hi -> exists x w', v ++ w = x ++ w' /\ path F p x d /\ hops q d w')).
  { intros p' l r v w' [He|He] Hv [IH1 IH2].
    - destruct (Hlo _ _ _ He). split; [|lia]. intros _. apply (hops_prepend q p' v r); [|by apply IH1].
      destruct Hv as [[-> ->]|(c & -> & ->)]; eauto with ce.
    - assert (Hr : exists x w1, w' = x ++ w1 /\ path F r x d /\ hops q d w1).
      { destruct (T _ _ _ He) as [->|Hr]; [|by apply IH2]. exists [], w'. split_and!; [done|constructor|]. apply IH1. lia. }
      destruct Hr as (x & w1 & -> & Hx & Hw1). pose proof (Hstep _ _ _ _ He Hv x Hx) as Hpx. split.
      + intros Hp'. destruct (S _ _ _ He) as [->|]; [|lia]. rewrite app_assoc. apply (hops_next q s [] (v ++ x) w1); [constructor|by apply L|done].
      + intros _. exists (v ++ x), w1. by rewrite app_assoc. }
  induction Hp as [p|p r w q He Hp IH|p c r w q He Hp IH].
  - split; [|lia]. intros _. apply hops_last. constructor.
  - apply (Hone p None r [] w); [done|by left|auto].
  - apply (Hone p (Some c) r [c] w); [done|right; eauto|auto].
Qed.

Lemma hops_union q p w : hops q p w -> path (graph_union E F) p w q.
Proof.
  destruct HF as [S T O L]. induction 1 as [p w Hp|p u v w Hp Hv Hh IH].
  - eapply path_mono; [|done]. by left.
  - apply path_app with s; [eapply path_mono; [|done]; by left|]. apply path_app with d; [|done]. eapply path_mono; [|by apply L]. by right.
Qed.
End Union.

(** ** The skeleton *)

(** The main nodes, the edges between them, and the actions of main nodes. *)
Record net := mkNet { n_main : list Z; n_edges : list (Z * Term * Z); n_acts : list (Z * list Z) }.

Inductive net_path (k : net) : Z -> list Term -> Z -> Prop :=
| net_path_nil p : net_path k p [] p
| net_path_cons p t r ts q : (p, t, r) ∈ n_edges k -> net_path k r ts q -> net_path k p (t :: ts) q.

Definition net_action (k : net) (p a : Z) : Prop := exists l, (p, l) ∈ n_acts k /\ a ∈ l.

Definition add_main (k : net) (p : Z) : net := mkNet (p :: n_main k) (n_edges k) (n_acts k).
Definition add_net_edge (k : net) (p : Z) (t : Term) (q : Z) : net := mkNet (n_main k) ((p, t, q) :: n_edges k) (n_acts k).
Definition add_net_acts (k : net) (p : Z) (l : list Z) : net := mkNet (n_main k) (n_edges k) ((p, l) :: n_acts k).

#[export] Hint Constructors net_path : ce.

Lemma net_path_app k p ts q us r : net_path k p ts q -> net_path k q us r -> net_path k p (ts ++ us) r.
Proof. induction 1; cbn; eauto with ce. Qed.

Lemma net_path_mono k k' p ts q : (forall e, e ∈ n_edges k -> e ∈ n_edges k') -> net_path k p ts q -> net_path k' p ts q.
Proof. intros Hk. induction 1; eauto with ce. Qed.

Record composed (E : graph) (size : Z) (k : net) : Prop := {
  co_edges : forall p l q, E p l q -> 0 <= p < size /\ 0 <= q < size;
  co_main : forall p, p ∈ n_main k -> 0 <= p < size;
  co_ends : forall p t q, (p, t, q) ∈ n_edges k -> p ∈ n_main k /\ q ∈ n_main k;
  co_acts : forall p l, (p, l) ∈ n_acts k -> p ∈ n_main k;
  co_paths : forall p q w, p ∈ n_main k -> q ∈ n_main k -> path E p w q <-> exists ts, net_path k p ts q /\ terms_lang ts w
}.

Lemma composed_ext E E' size k : (forall p l q, E' p l q <-> E p l q) -> composed E size k -> composed E' size k.
Proof.
  intros He [C1 C2 C3 C4 C5]. constructor; try done; [intros p l q ?%He; eauto|]. intros p q w Hp Hq. rewrite <- C5 by done.
  split; apply path_mono; intros ? ? ?; apply He.
Qed.

(** A node without edges. *)
Lemma composed_main E size k : composed E size k -> 0 <= size -> composed E (size + 1) (add_main k size).
Proof.
  intros [C1 C2 C3 C4 C5] Hsz. constructor; cbn.
  - intros p l q He. apply C1 in He. lia.
  - intros p [->|Hp]%elem_of_cons; [lia|]. apply C2 in Hp. lia.
  - intros p t q He. apply C3 in He as [? ?]. split; by right.
  - intros p l Hp. right. by eapply C4.
  - assert (Hnet : forall p ts q, net_path (add_main k size) p ts q <-> net_path k p ts q) by (intros; split; apply net_path_mono; done).
    assert (Hno : forall l q, ~ E size l q) by (intros l q He; apply C1 in He; lia).
    assert (Hfrom : forall w q, path E size w q <-> exists ts, net_path k size ts q /\ terms_lang ts w).
    { intros w q. split.
      - intros Hp. eapply no_path_from in Hp as [-> ->]; [|done]. exists []. split; [constructor|done].
      - intros (ts & Hp & Hw). inversion Hp as [|? t r ts' ? He]; subst; [rewrite Hw; constructor|]. apply C3 in He as [He _]. apply C2 in He. lia. }
    intros p q w Hp Hq. setoid_rewrite Hnet. apply elem_of_cons in Hp as [->|Hp]; [apply Hfrom|]. apply elem_of_cons in Hq as [->|Hq]; [|by apply C5].
    pose proof (C2 _ Hp). split.
    + intros Hw. exfalso. assert (Hin : forall a w b, path E a w b -> a < size -> b < size); [|apply Hin in Hw; lia].
      induction 1 as [|a b' w' c He _ IH|a x b' w' c He _ IH]; intros Ha; [done|..]; apply IH; apply C1 in He; lia.
    + intros (ts & Hw & _). exfalso. assert (Hin : forall a ts b, net_path k a ts b -> a < size -> b < size); [|apply Hin in Hw; lia].
      induction 1 as [|a t b' ts' c He _ IH]; intros Ha; [done|]. apply IH. apply C3 in He as [_ He]. apply C2 in He. lia.
Qed.

(** The graph of a term between two main nodes. *)
Lemma composed_edge E size k F size' s t d : composed E size k -> fragment F size size' s d (term_lang t) -> size <= size' -> s ∈ n_main k -> d ∈ n_main k ->
  composed (graph_union E F) size' (add_net_edge k s t d).
Proof.
  intros [C1 C2 C3 C4 C5] HF Hle Hs Hd. constructor; cbn.
  - pose proof (C2 _ Hs). pose proof (C2 _ Hd). intros p l q [He|He]; [apply C1 in He; lia|]. pose proof (fr_source _ _ _ _ _ _ HF _ _ _ He). pose proof (fr_target _ _ _ _ _ _ HF _ _ _ He). lia.
  - intros p Hp. apply C2 in Hp. lia.
  - intros p t' q [E1|He]%elem_of_cons; [injection E1 as -> -> ->; done|by eapply C3].
  - done.
  - assert (Hlo : forall p l q, E p l q -> p < size /\ q < size) by (intros p l q He; apply C1 in He; lia).
    intros p q w Hp Hq. split.
    + intros Hw. apply (union_hops E F size size' s d _ HF Hlo) in Hw as [Hw _]; [|apply C2 in Hq; lia]. specialize (Hw ltac:(apply C2 in Hp; lia)).
      induction Hw as [p w Hw|p u v w Hu Hv Hh IH].
      * apply C5 in Hw as (ts & Hw & Hl); [|done|done]. exists ts. split; [|done]. eapply net_path_mono; [|done]. intros e He. by right.
      * apply C5 in Hu as (ts & Hw & Hl); [|done|done]. destruct (IH Hd) as (us & Hus & Hlu). exists (ts ++ t :: us). split.
        -- eapply net_path_app; [eapply net_path_mono; [|done]; intros e He; by right|]. econstructor; [left|done].
        -- apply terms_lang_app. exists u, (v ++ w). split_and!; [done|done|]. by exists v, w.
    + intros (ts & Hw & Hl). apply (hops_union E F size size' s d _ HF). revert w Hl.
      induction Hw as [p|p t' r ts q He Hw IH]; intros w Hl; [cbn in Hl; subst; apply hops_last; constructor|].
      destruct Hl as (u & v & -> & Hu & Hv). apply elem_of_cons in He as [E1|He].
      * injection E1 as -> -> ->. apply (hops_next E s d _ q s [] u v); [constructor|done|]. by apply IH.
      * destruct (C3 _ _ _ He) as [_ Hr]. apply (hops_prepend E s d _ q p u r); [|by apply IH]. apply C5; [done|done|]. exists [t']. split; [by eapply net_path_cons; [|constructor]|].
        cbn. by apply lang_concat_nil_r.
Qed.

(** ** NFAs under construction *)

Section Building.
Context `{HashOrder}.

Abbreviation size nfa := (vsize (nfa_nodes nfa)).

(** The edges and actions of the NFA and of the builders that are alive. *)
Definition whole (nfa : NFA) (bs : list builder) : graph := fun p l q => nfa_edge nfa p l q \/ exists b, b ∈ bs /\ builder_edge b p l q.

Definition whole_action (nfa : NFA) (bs : list builder) (p a : Z) : Prop := nfa_action nfa p a \/ exists b, b ∈ bs /\ p = b_nodeId b /\ a ∈ b_actions b.

(** The node of a builder, still empty in the NFA. *)
Record live_builder (nfa : NFA) (k : net) (b : builder) : Prop := {
  lb_ok : builder_ok b;
  lb_main : b_nodeId b ∈ n_main k;
  lb_edges : forall l q, ~ nfa_edge nfa (b_nodeId b) l q;
  lb_actions : forall a, ~ nfa_action nfa (b_nodeId b) a
}.

Record building (nfa : NFA) (bs : list builder) (k : net) : Prop := {
  bu_wf : nfa_wf nfa;
  bu_live : forall b, b ∈ bs -> live_builder nfa k b;
  bu_ids : NoDup (map b_nodeId bs);
  bu_composed : composed (whole nfa bs) (size nfa) k;
  bu_actions : forall p a, whole_action nfa bs p a <-> net_action k p a;
  bu_vector : forall a, a ∈ nfa_actions nfa -> exists p, net_action k p a
}.

Lemma building_perm nfa bs bs' k : bs ≡ₚ bs' -> building nfa bs k -> building nfa bs' k.
Proof.
  intros Hp [B1 B2 B3 B4 B5 B6]. constructor; try done.
  - intros b Hb. apply B2. by rewrite Hp.
  - by rewrite <- Hp.
  - eapply composed_ext; [|done]. intros p l q. unfold whole. by setoid_rewrite Hp.
  - intros p a. rewrite <- B5. unfold whole_action. by setoid_rewrite Hp.
Qed.

Lemma empty_building : building emptyNFA [] (mkNet [] [] []).
Proof.
  assert (Hno : forall p l q, ~ nfa_edge emptyNFA p l q).
  { intros p [c|] q Hq; cbn in Hq; destruct Hq as (x & Hx & _); unfold transitionsForNode, epsilonTargetsForNode in Hx; cbn in Hx;
      destruct (vget [] p) as [n| |] eqn:E; try done; apply vget_Done in E as [_ E]; done. }
  assert (Ha : forall p a, ~ nfa_action emptyNFA p a).
  { intros p a (x & Hx & _). unfold actionsForNode in Hx. cbn in Hx. destruct (vget [] p) as [n| |] eqn:E; try done. apply vget_Done in E as [_ E]. done. }
  constructor.
  - intros n Hn. cbn in Hn. change (vsize (@nil ImmutableNFANode)) with 0 in Hn. lia.
  - by intros b ?%elem_of_nil.
  - constructor.
  - constructor; cbn; try (by intros ? ?%elem_of_nil).
    + intros p l q [He|(b & Hb%elem_of_nil & _)]; [|done]. by apply Hno in He.
    + by intros p t q ?%elem_of_nil.
    + by intros p l ?%elem_of_nil.
    + by intros p q w ?%elem_of_nil.
  - intros p a. split; [intros [He|(b & Hb%elem_of_nil & _)]; [by apply Ha in He|done]|]. by intros (l & Hl%elem_of_nil & _).
  - by intros a ?%elem_of_nil.
Qed.

(** A new node. *)
Lemma building_new nfa bs k nfa' b : building nfa bs k -> newBuilder nfa = (nfa', b) ->
  b_nodeId b = size nfa /\ b_actions b = [] /\ size nfa' = size nfa + 1 /\ building nfa' (b :: bs) (add_main k (size nfa)).
Proof.
  intros [B1 B2 B3 B4 B5 B6] Eb. destruct (newBuilder_spec _ _ _ Eb) as (X & S & I & N & _ & _ & A). pose proof (newBuilder_wf _ _ _ Eb B1) as W.
  assert (Hnew : forall l q, ~ nfa_edge nfa' (b_nodeId b) l q).
  { intros l q. rewrite (nfa_edge_node _ _ _ _ _ _ _ N). destruct l; [|apply not_elem_of_nil]. by intros (ts & E & _). }
  assert (Hacts : forall a, ~ nfa_action nfa' (b_nodeId b) a) by (intros a; rewrite (nfa_action_node _ _ _ _ _ _ N); apply not_elem_of_nil).
  assert (Hbound : forall p l q, nfa_edge nfa' p l q -> 0 <= p < size nfa').
  { intros p [c|] q (x & Hx & _); unfold transitionsForNode, epsilonTargetsForNode in Hx; apply obind_Done in Hx as (n & Hn & _); by apply vget_range in Hn. }
  assert (Hedge : forall p l q, nfa_edge nfa' p l q <-> nfa_edge nfa p l q).
  { intros p l q. destruct (decide (0 <= p < size nfa)) as [Hp|Hp]; [by apply extends_edges|]. split.
    - intros He. pose proof (Hbound _ _ _ He). replace p with (b_nodeId b) in He by lia. by apply Hnew in He.
    - intros He. destruct l; destruct He as (x & Hx & _); unfold transitionsForNode, epsilonTargetsForNode in Hx; apply obind_Done in Hx as (n & Hn & _); apply vget_range in Hn; lia. }
  assert (Hact : forall p a, nfa_action nfa' p a <-> nfa_action nfa p a).
  { intros p a. destruct (decide (0 <= p < size nfa)) as [Hp|Hp]; [by apply extends_actions|]. split; intros (x & Hx & Hax); pose proof Hx as Hx'; unfold actionsForNode in Hx';
      apply obind_Done in Hx' as (n & Hn & _); apply vget_range in Hn; [|lia]. exfalso. apply (Hacts a). replace (b_nodeId b) with p by lia. by exists x. }
  split_and!; [done|done|done|]. constructor.
  - done.
  - intros c [->|Hc]%elem_of_cons.
    + constructor; [by eapply newBuilder_ok|cbn; rewrite I; left|done|done].
    + destruct (B2 c Hc) as [L1 L2 L3 L4]. constructor; [done|by right| |]; [intros l q; by rewrite Hedge|intros a; by rewrite Hact].
  - rewrite map_cons. constructor; [|done]. rewrite I. intros (c & E & Hc)%list_elem_of_fmap. apply B2, lb_main, (co_main _ _ _ B4) in Hc. lia.
  - rewrite S. eapply composed_ext; [|apply composed_main; [done|apply vsize_nonneg]]. intros p l q. unfold whole. rewrite Hedge. setoid_rewrite elem_of_cons. split.
    + intros [?|(c & [->|Hc] & He)]; [by left|by apply (newBuilder_edge _ _ _ _ _ _ Eb) in He|right; eauto].
    + intros [?|(c & Hc & He)]; [by left|right; eauto].
  - intros p a. rewrite <- (B5 p a). unfold whole_action. rewrite Hact. setoid_rewrite elem_of_cons. split.
    + intros [?|(c & [->|Hc] & He)]; [by left| |right; eauto]. rewrite A in He. by destruct He as [_ ?%elem_of_nil].
    + intros [?|(c & Hc & He)]; [by left|right; eauto].
  - unfold newBuilder in Eb. injection Eb as <- _. done.
Qed.

(** Actions for the node of a builder. *)
Lemma building_acts nfa bs k b l : building nfa (b :: bs) k -> building nfa (builder_setActions b l :: bs) (add_net_acts k (b_nodeId b) l).
Proof.
  intros [B1 B2 B3 B4 B5 B6]. assert (Hb : live_builder nfa k b) by (apply B2; left).
  assert (Hedge : forall p l' q, builder_edge (builder_setActions b l) p l' q <-> builder_edge b p l' q).
  { intros p l' q. unfold builder_edge. cbn. destruct l'; [|done]. split; intros (? & x & [X1 X2] & ?); (split; [done|]); exists x; (split; [by constructor|done]). }
  constructor.
  - done.
  - intros c [->|Hc]%elem_of_cons; [|destruct (B2 c ltac:(by right)); by constructor]. destruct Hb as [[x [X1 X2]] L2 L3 L4]. constructor; try done. exists x. by constructor.
  - done.
  - destruct B4 as [C1 C2 C3 C4 C5]. assert (Hw : forall p l' q, whole nfa (builder_setActions b l :: bs) p l' q <-> whole nfa (b :: bs) p l' q).
    { intros p l' q. unfold whole. setoid_rewrite elem_of_cons. split; (intros [?|(c & [->|Hc] & He)]; [by left| |right; eauto]); right; eexists; (split; [by left|]); by apply Hedge. }
    constructor; cbn; try done; [intros p l' q ?%Hw; eauto|intros p l' [E|Hl]%elem_of_cons; [injection E as -> ->; apply Hb|eauto]|].
    intros p q w Hp Hq. assert (Hn : forall ts, net_path (add_net_acts k (b_nodeId b) l) p ts q <-> net_path k p ts q) by (intros ts; split; by apply net_path_mono).
    setoid_rewrite Hn. rewrite <- C5 by done. split; apply path_mono; intros ? ? ?; apply Hw.
  - assert (Hn : forall p a, net_action (add_net_acts k (b_nodeId b) l) p a <-> net_action k p a \/ (p = b_nodeId b /\ a ∈ l)).
    { intros p a. unfold net_action. cbn. setoid_rewrite elem_of_cons. split; [intros (x & [E|Hx] & Ha); [injection E as -> ->; auto|eauto]|]. intros [(x & Hx & Ha)|[-> Ha]]; eauto. }
    intros p a. rewrite Hn, <- B5. unfold whole_action. setoid_rewrite elem_of_cons. split.
    + intros [?|(c & [->|Hc] & He)]; [left; by left| |left; right; eauto]. cbn in He. destruct He as [-> [Ha|Ha]%elem_of_hs_add_range]; [by right|left; right; eauto].
    + intros [[?|(c & [->|Hc] & Hp & Ha)]|[-> Ha]]; [by left| |right; eauto|]; right; eexists; (split; [by left|]); cbn; (split; [done|]); apply elem_of_hs_add_range; auto.
  - intros a Ha. destruct (B6 a Ha) as (p & x & Hx & Hax). exists p, x. split; [by right|done].
Qed.

(** The action vector only grows when a builder with actions is finalized. *)
Definition keeps_vector (gen : NFA -> builder -> Z -> outcome (NFA * builder)) : Prop :=
  forall nfa src dst nfa' src', gen nfa src dst = Done (nfa', src') -> nfa_actions nfa' = nfa_actions nfa /\ b_actions src' = b_actions src.

Lemma sink_ranges_actions rs : forall nfa, nfa_actions (foldl sink_range nfa rs) = nfa_actions nfa.
Proof. induction rs as [|r rs IH]; intros nfa; [done|]. cbn [foldl]. by rewrite IH. Qed.

Lemma finalize_vector nfa b nfa' : finalize nfa b = Done nfa' -> nfa_actions nfa' = nfa_actions nfa ++ b_actions b.
Proof.
  unfold finalize, sinkActions, sinkEpsilonTransitions, sinkTransitions. intros E. apply obind_Done in E as (node & _ & E). cbn in E.
  apply obind_Done in E as ([nfa3 node3] & E3 & E). apply obind_Done in E3 as (rs & _ & E3). injection E3 as <- <-. apply obind_Done in E as (nodes & _ & E).
  injection E as <-. cbn. by rewrite sink_ranges_actions.
Qed.

Lemma add_runs_actions p dst fuel : forall i b b', add_runs p fuel i b dst = Done b' -> b_actions b' = b_actions b.
Proof.
  induction fuel as [|fuel IH]; intros i b b' E; [done|]. cbn [add_runs] in E. destruct (_ =? 128); [by injection E as <-|].
  apply obind_Done in E as (b1 & E1 & E). rewrite (IH _ _ _ E). unfold addTransition in E1. apply obind_Done in E1 as (r & _ & E1). by injection E1 as <-.
Qed.

Lemma keeps_quantified gen q : keeps_vector gen -> keeps_vector (generate_quantified gen q).
Proof.
  intros Hg. destruct q; [done|..]; intros nfa src dst nfa' src' E; cbn [generate_quantified] in E.
  - apply obind_Done in E as ([nfa1 src1] & E1 & E). injection E as <- <-. by apply Hg in E1.
  - cbn in E. apply obind_Done in E as ([nfa3 rs1] & E3 & E). apply Hg in E3 as [V3 A3]. cbn in V3, A3. apply obind_Done in E as (nfa4 & E4 & E).
    apply obind_Done in E as (nfa5 & E5 & E). injection E as <- <-. apply finalize_vector in E4, E5. cbn in E4. rewrite app_nil_r in E4. rewrite A3, app_nil_r in E5. split; [congruence|done].
  - cbn in E. apply obind_Done in E as ([nfa3 rs1] & E3 & E). apply Hg in E3 as [V3 A3]. cbn in V3, A3. apply obind_Done in E as (nfa4 & E4 & E).
    apply obind_Done in E as (nfa5 & E5 & E). injection E as <- <-. apply finalize_vector in E4, E5. cbn in E4. rewrite app_nil_r in E4. rewrite A3, app_nil_r in E5. split; [congruence|done].
Qed.

Lemma keeps_rest gen dst ts : Forall (fun t => keeps_vector (gen t)) ts -> forall nfa last nfa', b_actions last = [] -> generate_rest gen dst ts nfa last = Done nfa' -> nfa_actions nfa' = nfa_actions nfa.
Proof.
  induction ts as [|t [|t' ts] IH]; intros Hg nfa last nfa' Ha E; cbn [generate_rest] in E.
  - apply finalize_vector in E. by rewrite Ha, app_nil_r in E.
  - apply Forall_cons in Hg as [Hg _]. apply obind_Done in E as ([nfa1 l1] & E1 & E). apply Hg in E1 as [V1 A1]. apply finalize_vector in E. rewrite A1, Ha, app_nil_r in E. congruence.
  - apply Forall_cons in Hg as [Hg Hgs]. cbn [newBuilder] in E. apply obind_Done in E as ([nfa2 l1] & E2 & E). apply Hg in E2 as [V2 A2]. apply obind_Done in E as (nfa3 & E3 & E).
    apply finalize_vector in E3. rewrite A2, Ha, app_nil_r in E3. apply (IH Hgs) in E; [|done]. rewrite E, E3, V2. done.
Qed.

Lemma keeps_term t : keeps_vector (generateGraph t).
Proof.
  apply keeps_quantified. induction t as [q|cs q|ts q IH] using Term_ind'; intros nfa src dst nfa' src' E.
  - cbn in E. by injection E as <- <-.
  - cbn [generateSubgraphForAtom] in E. apply obind_Done in E as (b1 & E1 & E). injection E as <- <-. split; [done|]. unfold add_character_set in E1. destruct (negb _); by eapply add_runs_actions.
  - assert (Hq : Forall (fun t => keeps_vector (generate_quantified (generateSubgraphForAtom t) (m_quantifier t))) ts).
    { eapply Forall_impl; [exact IH|]. intros t Ht. by apply keeps_quantified. }
    destruct ts as [|t [|t' ts]]; cbn [generateSubgraphForAtom] in E; [by injection E as <- <-|apply Forall_cons in Hq as [Hq _]; by eapply Hq|].
    cbn [newBuilder] in E. apply Forall_cons in Hq as [Hq Hqs]. apply obind_Done in E as ([nfa2 src1] & E2 & E). apply Hq in E2 as [V2 A2].
    apply obind_Done in E as (nfa3 & E3 & E). injection E as <- <-. split; [|done]. apply (keeps_rest _ _ _ Hqs) in E3; [|done]. rewrite E3, V2. done.
Qed.

(** The graph of a term, from a builder to a main node. *)
Lemma building_edge nfa bs k b t dst : building nfa (b :: bs) k -> dst ∈ n_main k -> b_nodeId b <> dst ->
  exists nfa' b', generateGraph t nfa b dst = Done (nfa', b') /\ b_nodeId b' = b_nodeId b /\ size nfa <= size nfa' /\
    building nfa' (b' :: bs) (add_net_edge k (b_nodeId b) t dst).
Proof.
  intros [B1 B2 B3 B4 B5 B6] Hd Hne. destruct (B2 b) as [L1 L2 L3 L4]; [left|].
  destruct (term_generates t nfa b dst B1 L1) as (nfa' & b' & E & [G1 G2 G3 G4 G5 (F & Hf & [Hr1 Hr2] & Hb)]); [by apply (co_main _ _ _ B4)|by apply (co_main _ _ _ B4)|done|].
  destruct (keeps_term t _ _ _ _ _ E) as [Hvec _]. exists nfa', b'. pose proof (proj1 G1) as Hsz. split_and!; [done|done|done|].
  assert (Hmain : forall p, p ∈ n_main k -> 0 <= p < size nfa) by apply (co_main _ _ _ B4).
  assert (Hbound : forall p l q, nfa_edge nfa' p l q -> 0 <= p < size nfa').
  { intros p [c|] q (x & Hx & _); unfold transitionsForNode, epsilonTargetsForNode in Hx; apply obind_Done in Hx as (n & Hn & _); by apply vget_range in Hn. }
  assert (Hbound' : forall p l q, nfa_edge nfa p l q -> 0 <= p < size nfa).
  { intros p l q He. apply (co_edges _ _ _ B4 p l q). by left. }
  assert (Hedge : forall p l q, nfa_edge nfa' p l q <-> nfa_edge nfa p l q \/ (size nfa <= p < size nfa' /\ F p l q)).
  { intros p l q. destruct (decide (0 <= p < size nfa)) as [Hp|Hp]; [rewrite (extends_edges nfa nfa') by done; intuition lia|]. split.
    - intros He. pose proof (Hbound _ _ _ He). right. split; [lia|]. by apply Hr1; [lia|].
    - intros [He|[Hp' He]]; [by apply Hbound' in He|]. by apply Hr1. }
  assert (Hact : forall p a, nfa_action nfa' p a <-> nfa_action nfa p a).
  { intros p a. destruct (decide (0 <= p < size nfa)) as [Hp|Hp]; [by apply extends_actions|]. split; intros (x & Hx & Hax); pose proof Hx as Hx'; unfold actionsForNode in Hx';
      apply obind_Done in Hx' as (n & Hn & _); apply vget_range in Hn; [|lia]. exfalso. apply (Hr2 p a); [lia|]. by exists x. }
  constructor.
  - done.
  - intros c Hc. assert (Hlive : live_builder nfa k c -> builder_ok c -> live_builder nfa' (add_net_edge k (b_nodeId b) t dst) c).
    { intros [M1 M2 M3 M4] Hok. constructor; [done|done| |]; [|intros a; by rewrite Hact]. intros l q. rewrite Hedge. intros [He|[Hp _]]; [by apply M3 in He|]. apply Hmain in M2. lia. }
    apply elem_of_cons in Hc as [->|Hc]; [|assert (live_builder nfa k c) by (apply B2; by right); apply Hlive; [done|by apply lb_ok in H0]].
    constructor; [done|by rewrite G4| |]; [|intros a; rewrite Hact, G4; apply L4]. intros l q. rewrite Hedge, G4. intros [He|[Hp _]]; [by apply L3 in He|]. apply Hmain in L2. lia.
  - rewrite map_cons in *. by rewrite G4.
  - eapply composed_ext; [|apply (composed_edge _ _ _ F (size nfa') (b_nodeId b) t dst B4 Hf Hsz L2 Hd)].
    intros p l q. unfold whole, graph_union. rewrite Hedge. setoid_rewrite elem_of_cons. split.
    + intros [[?|[_ ?]]|(c & [->|Hc] & He)]; [by left; left|by right| |left; right; eauto]. apply Hb in He as [He|[_ He]]; [left; right; eauto|by right].
    + intros [[?|(c & [->|Hc] & He)]|He]; [by left; left|right; exists b'; split; [by left|apply Hb; by left]|right; eauto|].
      destruct (fr_source _ _ _ _ _ _ Hf _ _ _ He) as [->|Hp]; [right; exists b'; split; [by left|apply Hb; by right]|left; right; done].
  - intros p a. change (net_action (add_net_edge k (b_nodeId b) t dst) p a) with (net_action k p a). rewrite <- B5. unfold whole_action. rewrite Hact. setoid_rewrite elem_of_cons.
    split; (intros [?|(c & [->|Hc] & He)]; [by left| |right; eauto]); right; eexists; (split; [by left|]); [by rewrite <- G5, <- G4|by rewrite G5, G4].
  - intros a. rewrite Hvec. apply B6.
Qed.

(** The node of a builder, finished. *)
Lemma building_finalize nfa bs k b : building nfa (b :: bs) k -> exists nfa', finalize nfa b = Done nfa' /\ size nfa' = size nfa /\ building nfa' bs k.
Proof.
  intros [B1 B2 B3 B4 B5 B6]. destruct (B2 b) as [L1 L2 L3 L4]; [left|]. pose proof (co_main _ _ _ B4 _ L2) as Hid.
  destruct (finalize_edges nfa b L1 B1 Hid) as (nfa' & E & W & X & S & He & Ha). exists nfa'. split_and!; [done|done|].
  assert (Hnid : forall c, c ∈ bs -> b_nodeId c <> b_nodeId b).
  { rewrite map_cons in B3. apply NoDup_cons in B3 as [B3 _]. intros c Hc E'. apply B3. rewrite <- E'. by apply list_elem_of_fmap_2. }
  assert (Hedge : forall p l q, nfa_edge nfa' p l q <-> nfa_edge nfa p l q \/ builder_edge b p l q).
  { intros p l q. destruct (Z.eq_dec p (b_nodeId b)) as [->|Hp]; [rewrite He; split; [by right|]; by intros [?%L3|?]|].
    destruct (decide (0 <= p < size nfa)) as [Hb|Hb].
    - rewrite (extends_but_edges (b_nodeId b) nfa nfa') by done. unfold builder_edge. tauto.
    - split; [|intros [?|[? _]]; [|done]]; [intros He'|].
      + exfalso. apply Hb. rewrite <- S. destruct l; destruct He' as (x & Hx & _); unfold transitionsForNode, epsilonTargetsForNode in Hx; apply obind_Done in Hx as (n & Hn & _); by apply vget_range in Hn.
      + exfalso. apply Hb. apply (co_edges _ _ _ B4 p l q). by left. }
  assert (Hact : forall p a, nfa_action nfa' p a <-> nfa_action nfa p a \/ (p = b_nodeId b /\ a ∈ b_actions b)).
  { intros p a. destruct (Z.eq_dec p (b_nodeId b)) as [->|Hp]; [rewrite Ha; split; [by right|]; by intros [?%L4|[_ ?]]|].
    destruct (decide (0 <= p < size nfa)) as [Hb|Hb].
    - rewrite (extends_but_actions (b_nodeId b) nfa nfa') by done. tauto.
    - split; [|intros [Hx|[? _]]; [|done]]; intros; exfalso; apply Hb.
      + rewrite <- S. destruct H0 as (x & Hx & _). unfold actionsForNode in Hx. apply obind_Done in Hx as (n & Hn & _). by apply vget_range in Hn.
      + destruct Hx as (x & Hx & _). unfold actionsForNode in Hx. apply obind_Done in Hx as (n & Hn & _). by apply vget_range in Hn. }
  constructor.
  - done.
  - intros c Hc. destruct (B2 c) as [M1 M2 M3 M4]; [by right|]. constructor; [done|done| |].
    + intros l q. rewrite Hedge. intros [?%M3|[? _]]; [done|]. by apply (Hnid c).
    + intros a. rewrite Hact. intros [?%M4|[? _]]; [done|]. by apply (Hnid c).
  - rewrite map_cons in B3. by apply NoDup_cons in B3 as [_ ?].
  - rewrite S. eapply composed_ext; [|done]. intros p l q. unfold whole. rewrite Hedge. setoid_rewrite elem_of_cons. split.
    + intros [[?|?]|(c & Hc & He')]; [by left|right; eauto|right; eauto].
    + intros [?|(c & [->|Hc] & He')]; [by left; left|by left; right|right; eauto].
  - intros p a. rewrite <- B5. unfold whole_action. rewrite Hact. setoid_rewrite elem_of_cons. split.
    + intros [[?|?]|(c & Hc & He')]; [by left|right; eauto|right; eauto].
    + intros [?|(c & [->|Hc] & He')]; [by left; left|by left; right|right; eauto].
  - intros a. rewrite (finalize_vector _ _ _ E), elem_of_app. intros [Hv|Hv]; [by apply B6|]. exists (b_nodeId b). apply B5. right. exists b. split; [left|done].
Qed.
End Building.
