(* ===== verification/PrefixTreeNet.v ===== *)
(** * What the NFA of a prefix tree means

    Every main node of an NFA made by [processNFAs] stands for a vertex of the
    prefix tree, or for a suffix that leads to a list of actions: the nodes of
    the reverse suffix tree.  With these labels, the words that reach an action
    are the words of patterns with that action. *)

From stdpp Require Import gmap.
From S2P Require Import Prelude Containers RangeList RangeListProofs Nfa NfaProofs Term TermGraph TermCorrect CombinedFilters CombinedFiltersProofs NfaSkeleton.

#[local] Arguments vsize {A} v : simpl never.

(** ** Walks in the tree *)

Inductive tree_walk (f : CombinedURLFilters) : Z -> list Term -> Z -> Prop :=
| tree_walk_nil v : tree_walk f v [] v
| tree_walk_cons u t v ts x : tree_edge f u t v -> tree_walk f v ts x -> tree_walk f u (t :: ts) x.

Lemma tree_walk_path f us v ts x : tree_path f us v -> tree_walk f v ts x -> tree_path f (us ++ ts) x.
Proof.
  intros Hp Hw. revert us Hp. induction Hw as [v|u t v ts x He Hw IH]; intros us Hp; [by rewrite app_nil_r|].
  change (t :: ts) with ([t] ++ ts). rewrite app_assoc. apply IH. by econstructor.
Qed.

Lemma actions_get_pattern f ts x a : tree_path f ts x -> a ∈ actions_get (m_filterActions f) x -> has_pattern f a ts.
Proof. intros Hp Ha. unfold actions_get in Ha. destruct (m_filterActions f !! x) as [l|] eqn:E; [|by apply elem_of_nil in Ha]. by exists x, l. Qed.

Lemma pattern_actions_get f a ts : has_pattern f a ts -> exists x, tree_path f ts x /\ a ∈ actions_get (m_filterActions f) x.
Proof. intros (x & l & Hp & Hl & Ha). exists x. split; [done|]. unfold actions_get. by rewrite Hl. Qed.

(** ** Labels *)

Inductive label :=
| Fwd (vertex : Z)
| Bwd (suffix : list Term) (acts : list Z).

Section Labels.
Context (f : CombinedURLFilters) (Hf : tree_ok f).
Implicit Types (k : net) (lab : Z -> label).

Abbreviation acts_of := (actions_get (m_filterActions f)).

Definition edge_sound lab (p : Z) (t : Term) (q : Z) : Prop :=
  match lab p, lab q with
  | Fwd u, Fwd v => tree_edge f u t v
  | Fwd u, Bwd ts acts => exists v x, tree_edge f u t v /\ tree_walk f v ts x /\ forall a, a ∈ acts -> a ∈ acts_of x
  | Bwd us acts, Bwd ts acts' => us = t :: ts /\ acts = acts'
  | Bwd _ _, Fwd _ => False
  end.

Definition acts_sound lab (p : Z) (l : list Z) : Prop :=
  match lab p with
  | Fwd v => forall a, a ∈ l -> a ∈ acts_of v
  | Bwd ts acts => ts = [] /\ forall a, a ∈ l -> a ∈ acts /\ exists v, a ∈ acts_of v
  end.

Record net_sound k lab : Prop := {
  ns_root : 0 ∈ n_main k /\ lab 0 = Fwd 0;
  ns_edges : forall p t q, (p, t, q) ∈ n_edges k -> edge_sound lab p t q;
  ns_acts : forall p l, (p, l) ∈ n_acts k -> acts_sound lab p l
}.

Lemma net_sound_walk k lab p ts q a : net_sound k lab -> net_path k p ts q -> net_action k q a ->
  match lab p with
  | Fwd u => exists x, tree_walk f u ts x /\ a ∈ acts_of x
  | Bwd us acts => ts = us /\ a ∈ acts
  end.
Proof.
  intros [_ He Ha] Hp (l & Hl & Hal). induction Hp as [p|p t r ts q Hpr Hp IH].
  - apply Ha in Hl. unfold acts_sound in Hl. destruct (lab p); [eexists; split; [constructor|auto]|]. destruct Hl as [-> Hl]. split; [done|]. by apply Hl.
  - specialize (IH Hl). apply He in Hpr. unfold edge_sound in Hpr. destruct (lab p) as [u|us acts], (lab r) as [v|vs acts'].
    + destruct IH as (x & Hx & Hax). exists x. split; [by econstructor|done].
    + destruct IH as [-> IH], Hpr as (v & x & H1 & H2 & H3). exists x. split; [by econstructor|auto].
    + done.
    + destruct IH as [-> IH], Hpr as [-> ->]. done.
Qed.

(** An action is reached only along its patterns. *)
Lemma net_sound_pattern k lab ts q a : net_sound k lab -> net_path k 0 ts q -> net_action k q a -> has_pattern f a ts.
Proof.
  intros Hk Hp Ha. pose proof (net_sound_walk _ _ _ _ _ _ Hk Hp Ha) as Hw. destruct (ns_root _ _ Hk) as [_ E]. rewrite E in Hw. destruct Hw as (x & Hx & Hax).
  apply (actions_get_pattern f ts x a); [|done]. by apply (tree_walk_path f [] 0); [constructor|].
Qed.

(** ** Growing nets *)

Record grows k lab k' lab' : Prop := {
  gw_main : forall p, p ∈ n_main k -> p ∈ n_main k';
  gw_edges : forall e, e ∈ n_edges k -> e ∈ n_edges k';
  gw_acts : forall e, e ∈ n_acts k -> e ∈ n_acts k';
  gw_lab : forall p, p ∈ n_main k -> lab' p = lab p
}.

Lemma grows_refl k lab : grows k lab k lab.
Proof. by constructor. Qed.

Lemma grows_trans k1 l1 k2 l2 k3 l3 : grows k1 l1 k2 l2 -> grows k2 l2 k3 l3 -> grows k1 l1 k3 l3.
Proof. intros [A1 A2 A3 A4] [B1 B2 B3 B4]. constructor; auto. intros p Hp. rewrite B4; auto. Qed.

Lemma grows_path k lab k' lab' p ts q : grows k lab k' lab' -> net_path k p ts q -> net_path k' p ts q.
Proof. intros [_ He _ _]. by apply net_path_mono. Qed.

Lemma grows_action k lab k' lab' p a : grows k lab k' lab' -> net_action k p a -> net_action k' p a.
Proof. intros [_ _ Ha _] (l & Hl & Hal). exists l. auto. Qed.

Definition relabel lab (p : Z) (L : label) : Z -> label := fun q => if q =? p then L else lab q.

Lemma relabel_same lab p L : relabel lab p L p = L.
Proof. unfold relabel. by rewrite Z.eqb_refl. Qed.

Lemma relabel_other lab p L q : q <> p -> relabel lab p L q = lab q.
Proof. unfold relabel. by destruct (Z.eqb_spec q p). Qed.

(** *** The changes of a net *)

Lemma sound_main E size k lab L : composed E size k -> net_sound k lab ->
  net_sound (add_main k size) (relabel lab size L) /\ grows k lab (add_main k size) (relabel lab size L).
Proof.
  intros Hc [R He Ha]. assert (Hold : forall p, p ∈ n_main k -> relabel lab size L p = lab p).
  { intros p Hp. apply relabel_other. apply (co_main _ _ _ Hc) in Hp. lia. }
  split; [constructor|constructor]; cbn; try done.
  - split; [right; apply R|]. rewrite Hold; apply R.
  - intros p t q Hpq. destruct (co_ends _ _ _ Hc _ _ _ Hpq). unfold edge_sound. rewrite !Hold by done. by apply He.
  - intros p l Hp. unfold acts_sound. rewrite Hold by (by eapply co_acts). by apply Ha.
  - intros p Hp. by right.
Qed.

Lemma sound_edge k lab p t q : net_sound k lab -> edge_sound lab p t q -> net_sound (add_net_edge k p t q) lab /\ grows k lab (add_net_edge k p t q) lab.
Proof.
  intros [R He Ha] Hpq. split; [constructor|constructor]; cbn; try done.
  - intros p' t' q' [E|Hp']%elem_of_cons; [injection E as -> -> ->; done|auto].
  - intros e Hp. by right.
Qed.

Lemma sound_acts k lab p l : net_sound k lab -> acts_sound lab p l -> net_sound (add_net_acts k p l) lab /\ grows k lab (add_net_acts k p l) lab.
Proof.
  intros [R He Ha] Hpl. split; [constructor|constructor]; cbn; try done.
  - intros p' l' [E|Hp']%elem_of_cons; [injection E as -> ->; done|auto].
  - intros e Hp. by right.
Qed.

(** ** What a net performs *)

(** All patterns that end at the vertex. *)
Definition performed k (v : Z) : Prop := forall ts a, tree_path f ts v -> a ∈ acts_of v -> exists q, net_path k 0 ts q /\ net_action k q a.

(** The node of a vertex. *)
Definition forward k (p v : Z) : Prop := exists ts, tree_path f ts v /\ net_path k 0 ts p /\ forall a, a ∈ acts_of v -> net_action k p a.

Lemma forward_performed k p v : forward k p v -> performed k v.
Proof. intros (us & Hus & Hp & Ha) ts a Hts Hav. rewrite (tree_path_inj f ts us v Hf Hts Hus). eauto. Qed.

Lemma forward_grows k lab k' lab' p v : grows k lab k' lab' -> forward k p v -> forward k' p v.
Proof. intros Hg (us & Hus & Hp & Ha). exists us. split_and!; [done|by eapply grows_path|]. intros a Hav. eapply grows_action; eauto. Qed.

Lemma performed_grows k lab k' lab' v : grows k lab k' lab' -> performed k v -> performed k' v.
Proof. intros Hg Hp ts a Hts Ha. destruct (Hp ts a Hts Ha) as (q & Hq & Hqa). exists q. split; [by eapply grows_path|by eapply grows_action]. Qed.

(** The actions a suffix node leads to. *)
Definition backward k (p : Z) (ts : list Term) (acts : list Z) : Prop := exists q, net_path k p ts q /\ forall a, a ∈ acts -> net_action k q a.

Lemma backward_grows k lab k' lab' p ts acts : grows k lab k' lab' -> backward k p ts acts -> backward k' p ts acts.
Proof. intros Hg (q & Hq & Ha). exists q. split; [by eapply grows_path|]. intros a Haa. eapply grows_action; eauto. Qed.

(** ** The reverse suffix tree *)

Abbreviation alphabet := (m_alphabet f).

(** A vertex that stands for a suffix. *)
Definition suffix_vertex k lab (T : ReverseSuffixTree) (j : Z) (ts : list Term) (acts : list Z) : Prop :=
  exists x, vget (r_vertices T) j = Done x /\ r_nodeId x ∈ n_main k /\ lab (r_nodeId x) = Bwd ts acts /\ backward k (r_nodeId x) ts acts.

Record suffix_tree_ok k lab (T : ReverseSuffixTree) : Prop := {
  st_edges : forall j x e, vget (r_vertices T) j = Done x -> e ∈ r_edges x ->
    exists ts acts t, suffix_vertex k lab T j ts acts /\ vget alphabet (fst e) = Done t /\ suffix_vertex k lab T (snd e) (t :: ts) acts;
  st_roots : forall key root, (key, root) ∈ r_roots T -> exists acts, suffix_vertex k lab T root [] acts /\ forall a, a ∈ acts <-> a ∈ key
}.

Lemma suffix_vertex_grows k lab k' lab' T j ts acts : grows k lab k' lab' -> suffix_vertex k lab T j ts acts -> suffix_vertex k' lab' T j ts acts.
Proof.
  intros Hg (x & E & Hm & Hl & Hb). exists x. split_and!; [done|by eapply gw_main|by rewrite (gw_lab _ _ _ _ Hg)|by eapply backward_grows].
Qed.

Lemma suffix_tree_grows k lab k' lab' T : grows k lab k' lab' -> suffix_tree_ok k lab T -> suffix_tree_ok k' lab' T.
Proof.
  intros Hg [H1 H2]. constructor.
  - intros j x e Hx He. destruct (H1 j x e Hx He) as (ts & acts & t & A & B & C). exists ts, acts, t. split_and!; [by eapply suffix_vertex_grows|done|by eapply suffix_vertex_grows].
  - intros key root Hr. destruct (H2 key root Hr) as (acts & A & B). exists acts. split; [by eapply suffix_vertex_grows|done].
Qed.

Lemma empty_suffix_tree k lab : suffix_tree_ok k lab emptyReverseSuffixTree.
Proof. constructor; [|by intros ? ? ?%elem_of_nil]. intros j x e [_ E]%vget_Done. done. Qed.

(** More vertices. *)
Lemma suffix_vertex_app k lab T j ts acts more roots : suffix_vertex k lab T j ts acts -> suffix_vertex k lab (mkReverseSuffixTree (r_vertices T ++ more) roots) j ts acts.
Proof. intros (x & E & Hx). exists x. split; [|done]. cbn. by eapply vget_prefix; [apply prefix_app_r|]. Qed.
End Labels.

(** ** Sharing suffixes

    The reverse suffix tree gives every leaf an NFA node for each suffix of its
    path, shared with the other leaves that have the same suffix and the same
    actions. *)

#[local] Arguments vsize {A} v : simpl never.

Section Suffixes.
Context `{HashOrder} (f : CombinedURLFilters) (Hf : tree_ok f).
Implicit Types (k : net) (lab : Z -> label).

Abbreviation alphabet := (m_alphabet f).
Abbreviation acts_of := (actions_get (m_filterActions f)).
Abbreviation size nfa := (vsize (nfa_nodes nfa)).

(** The NFA under construction is a sound net with a suffix tree. *)
Record nfa_ok (nfa : NFA) (bs : list builder) (T : ReverseSuffixTree) k lab : Prop := {
  no_building : building nfa bs k;
  no_sound : net_sound f k lab;
  no_suffixes : suffix_tree_ok f k lab T
}.

Lemma nfa_ok_perm nfa bs bs' T k lab : bs ≡ₚ bs' -> nfa_ok nfa bs T k lab -> nfa_ok nfa bs' T k lab.
Proof. intros Hp [A B C]. constructor; try done. by eapply building_perm. Qed.

(** *** The elementary changes *)

Lemma nfa_ok_new nfa bs T k lab nfa' b L : nfa_ok nfa bs T k lab -> newBuilder nfa = (nfa', b) ->
  b_nodeId b = size nfa /\ nfa_ok nfa' (b :: bs) T (add_main k (size nfa)) (relabel lab (size nfa) L) /\
  grows k lab (add_main k (size nfa)) (relabel lab (size nfa) L).
Proof.
  intros [A B C] E. destruct (building_new _ _ _ _ _ A E) as (I & _ & _ & A'). destruct (sound_main f _ _ _ _ L (bu_composed _ _ _ A) B) as [B' G].
  split_and!; [done| |done]. constructor; [done|done|by eapply suffix_tree_grows].
Qed.

Lemma nfa_ok_acts nfa bs T k lab b l : nfa_ok nfa (b :: bs) T k lab -> acts_sound f lab (b_nodeId b) l ->
  nfa_ok nfa (builder_setActions b l :: bs) T (add_net_acts k (b_nodeId b) l) lab /\ grows k lab (add_net_acts k (b_nodeId b) l) lab.
Proof.
  intros [A B C] Hl. destruct (sound_acts f _ _ _ _ B Hl) as [B' G]. split; [|done]. constructor; [by apply building_acts|done|by eapply suffix_tree_grows].
Qed.

Lemma nfa_ok_edge nfa bs T k lab b t q : nfa_ok nfa (b :: bs) T k lab -> q ∈ n_main k -> b_nodeId b <> q -> edge_sound f lab (b_nodeId b) t q ->
  exists nfa' b', generateGraph t nfa b q = Done (nfa', b') /\ b_nodeId b' = b_nodeId b /\
    nfa_ok nfa' (b' :: bs) T (add_net_edge k (b_nodeId b) t q) lab /\ grows k lab (add_net_edge k (b_nodeId b) t q) lab.
Proof.
  intros [A B C] Hq Hne Hs. destruct (building_edge _ _ _ _ t _ A Hq Hne) as (nfa' & b' & E & I & _ & A'). destruct (sound_edge f _ _ _ _ _ B Hs) as [B' G].
  exists nfa', b'. split_and!; [done|done| |done]. constructor; [done|done|by eapply suffix_tree_grows].
Qed.

Lemma nfa_ok_finalize nfa bs T k lab b : nfa_ok nfa (b :: bs) T k lab -> exists nfa', finalize nfa b = Done nfa' /\ nfa_ok nfa' bs T k lab.
Proof. intros [A B C]. destruct (building_finalize _ _ _ _ A) as (nfa' & E & _ & A'). exists nfa'. split; [done|]. by constructor. Qed.

(** ** Roots *)

Lemma suffix_tree_root k lab T key j acts roots : suffix_tree_ok f k lab T -> suffix_vertex k lab T j [] acts -> (forall a, a ∈ acts <-> a ∈ key) ->
  (forall e, e ∈ roots -> e = (key, j) \/ e ∈ r_roots T) -> suffix_tree_ok f k lab (mkReverseSuffixTree (r_vertices T) roots).
Proof.
  intros [H1 H2] Hj Ha Hr. constructor.
  - intros j' x e Hx He. destruct (H1 j' x e Hx He) as (ts & as' & t & A & B & C). by exists ts, as', t.
  - intros key' root [E|Hk]%Hr; [injection E as -> ->; by exists acts|]. destruct (H2 key' root Hk) as (as' & A & B). by exists as'.
Qed.

(** A vertex without edges, for a new node. *)
Lemma suffix_tree_vertex k lab T x : suffix_tree_ok f k lab T -> r_edges x = [] ->
  suffix_tree_ok f k lab (mkReverseSuffixTree (r_vertices T ++ [x]) (r_roots T)).
Proof.
  intros [H1 H2] Hx. constructor.
  - intros j y e Hy He. destruct (decide (j < vsize (r_vertices T))) as [Hj|Hj].
    + cbn in Hy. pose proof (vget_range _ _ _ Hy) as Hb. rewrite vget_app_l in Hy by done.
      destruct (H1 j y e Hy He) as (ts & as' & t & A & B & C). exists ts, as', t. split_and!; [by apply suffix_vertex_app|done|by apply suffix_vertex_app].
    + pose proof (vget_range _ _ _ Hy) as Hb. cbn in Hb. rewrite vsize_app in Hb. change (vsize [x]) with 1 in Hb. cbn in Hy. rewrite vget_app_here in Hy by lia. injection Hy as <-. rewrite Hx in He. by apply elem_of_nil in He.
  - intros key root Hr. destruct (H2 key root Hr) as (as' & A & B). exists as'. split; [by apply suffix_vertex_app|done].
Qed.

Lemma add_root_spec nfa bs T k lab l : nfa_ok nfa bs T k lab -> (forall a, a ∈ l -> exists v, a ∈ acts_of v) ->
  exists nfa' T' root k' lab' acts, add_root nfa T l = Done (nfa', T', root) /\ nfa_ok nfa' bs T' k' lab' /\ grows k lab k' lab' /\
    suffix_vertex k' lab' T' root [] acts /\ forall a, a ∈ acts <-> a ∈ l.
Proof.
  intros Hok Hl. unfold add_root, find_root. set (key := HashableActionList l). assert (Hkey : forall a, a ∈ key <-> a ∈ l).
  { intros a. unfold key, HashableActionList. by rewrite merge_sort_Permutation. }
  destruct (List.find _ (r_roots T)) as [[key' root]|] eqn:E; cbn [fmap option_fmap option_map snd].
  { apply find_some in E as [Hin E]. apply bool_decide_eq_true in E. cbn in E. subst key'. apply list_elem_of_In in Hin.
    destruct (st_roots _ _ _ _ (no_suffixes _ _ _ _ _ Hok) key root Hin) as (acts & Hv & Ha). exists nfa, T, root, k, lab, acts. split_and!; [done|done|apply grows_refl|done|].
    intros a. by rewrite Ha. }
  destruct (newBuilder nfa) as [nfa1 b] eqn:Eb. destruct (nfa_ok_new _ _ _ _ _ _ _ (Bwd [] l) Hok Eb) as (I & Hok1 & G1).
  destruct (nfa_ok_acts _ _ _ _ _ b l Hok1) as [Hok2 G2]; [unfold acts_sound; rewrite I, relabel_same; auto|].
  destruct (nfa_ok_finalize _ _ _ _ _ _ Hok2) as (nfa2 & Ef & [A B C]). rewrite Ef. cbn [obind]. pose proof (grows_trans _ _ _ _ _ _ G1 G2) as G.
  set (k' := add_net_acts _ _ l) in *. set (lab' := relabel _ _ _) in *. set (x := mkReverseSuffixTreeVertex [] (b_nodeId b)).
  assert (Hv : suffix_vertex k' lab' (mkReverseSuffixTree (r_vertices T ++ [x]) (r_roots T)) (vsize (r_vertices T)) [] l).
  { exists x. cbn. split_and!; [by apply vget_app_here|rewrite I; left|rewrite I; apply relabel_same|]. exists (b_nodeId b). split; [constructor|]. intros a Ha. exists l. split; [left|done]. }
  eexists nfa2, _, _, k', lab', l. split_and!; [done| |done|exact Hv|done]. constructor; [done|done|].
  apply (suffix_tree_root k' lab' (mkReverseSuffixTree (r_vertices T ++ [x]) (r_roots T)) key (vsize (r_vertices T)) l); [by apply suffix_tree_vertex|done|intros a; by rewrite Hkey|].
  intros e He. cbn. rewrite hash_place_perm in He. by apply elem_of_cons.
Qed.

(** ** One step back along the path *)

Lemma suffix_vertex_set k lab T j ts acts active av es y : suffix_vertex k lab T j ts acts -> vget (r_vertices T) active = Done av ->
  suffix_vertex k lab (mkReverseSuffixTree (<[Z.to_nat active := mkReverseSuffixTreeVertex es (r_nodeId av)]> (r_vertices T) ++ [y]) (r_roots T)) j ts acts.
Proof.
  intros (x & E & Hm & Hl & Hb) Ha. pose proof (vget_range _ _ _ Ha) as Hr. destruct (Z.eq_dec j active) as [->|Hne].
  - rewrite E in Ha. injection Ha as <-. eexists. split; [apply vget_snoc_insert; [done|]; by left|]. done.
  - exists x. split; [apply vget_snoc_insert; [done|]; right; by right|done].
Qed.

Lemma reverse_step_spec nfa bs T k lab active ts acts pointer t dst : nfa_ok nfa bs T k lab -> suffix_vertex k lab T active ts acts ->
  term_at alphabet pointer = Done t -> (forall av, vget (r_vertices T) active = Done av -> r_nodeId av = dst) ->
  exists nfa' T' active' k' lab', reverse_step alphabet nfa T active pointer dst = Done (nfa', T', active') /\ nfa_ok nfa' bs T' k' lab' /\ grows k lab k' lab' /\
    suffix_vertex k' lab' T' active' (t :: ts) acts.
Proof.
  intros Hok Hv Ht Hdst. pose proof Hv as (av & Ea & Hm & Hl & Hb). pose proof (Hdst av Ea) as <-. unfold reverse_step. rewrite Ea. cbn [obind].
  destruct (List.find _ (r_edges av)) as [[ptr child]|] eqn:E; cbn [fmap option_fmap option_map snd].
  { apply find_some in E as [Hin E]. apply bool_decide_eq_true in E. cbn in E. subst pointer. cbn in Ht. apply list_elem_of_In in Hin.
    destruct (st_edges _ _ _ _ (no_suffixes _ _ _ _ _ Hok) active av _ Ea Hin) as (ts' & acts' & t' & Hv1 & Ht' & Hc). cbn in Ht', Hc.
    destruct Hv1 as (av' & Ea' & _ & Hl' & _). rewrite Ea in Ea'. injection Ea' as <-. rewrite Hl in Hl'. injection Hl' as <- <-. rewrite Ht in Ht'. injection Ht' as <-.
    exists nfa, T, child, k, lab. split_and!; [done|done|apply grows_refl|done]. }
  rewrite Ht. cbn [obind]. destruct pointer as [ptr|]; [|done]. cbn in Ht.
  destruct (newBuilder nfa) as [nfa1 b] eqn:Eb. destruct (nfa_ok_new _ _ _ _ _ _ _ (Bwd (t :: ts) acts) Hok Eb) as (I & Hok1 & G1).
  assert (Hne : r_nodeId av < size nfa). { apply (co_main _ _ _ (bu_composed _ _ _ (no_building _ _ _ _ _ Hok))) in Hm. lia. }
  destruct (nfa_ok_edge _ _ _ _ _ b t (r_nodeId av) Hok1) as (nfa2 & b1 & E2 & I2 & Hok2 & G2); [by right|lia| |].
  { unfold edge_sound. rewrite I, relabel_same, relabel_other by lia. by rewrite Hl. }
  rewrite E2. cbn [obind]. rewrite vset_Done by (by eapply vget_range). cbn [obind]. destruct (nfa_ok_finalize _ _ _ _ _ _ Hok2) as (nfa3 & E3 & [A B C]). rewrite E3. cbn [obind].
  pose proof (grows_trans _ _ _ _ _ _ G1 G2) as G. set (k' := add_net_edge _ _ _ _) in *. set (lab' := relabel _ _ _) in *.
  set (T' := mkReverseSuffixTree _ _). eexists nfa3, T', _, k', lab'. split; [done|]. pose proof (vget_range _ _ _ Ea) as Hr.
  assert (Hkeep : forall j us as', suffix_vertex k' lab' T j us as' -> suffix_vertex k' lab' T' j us as') by (intros; by apply suffix_vertex_set).
  assert (Hv' : suffix_vertex k' lab' T active ts acts) by (by eapply suffix_vertex_grows).
  assert (Hnew : suffix_vertex k' lab' T' (vsize (r_vertices T)) (t :: ts) acts).
  { eexists. split; [apply vget_snoc_insert; [done|]; right; by left|]. cbn [r_nodeId]. rewrite I2, I. split_and!; [left|apply relabel_same|].
    destruct (backward_grows _ _ _ _ _ _ _ G Hb) as (q & Hq & Hqa). exists q. split; [|done]. econstructor; [rewrite <- I; left|done]. }
  split_and!; [|done|done]. constructor; [done|done|]. constructor.
  - intros j x e Hx He. apply vget_snoc_insert in Hx as [[-> ->]|[[-> ->]|[Hj Hx]]]; [|by apply elem_of_nil in He| |done].
    + cbn in He. apply elem_of_app in He as [He| ->%list_elem_of_singleton].
      * destruct (st_edges _ _ _ _ C active av e Ea He) as (us & as' & u & H1 & H2 & H3). exists us, as', u. auto.
      * exists ts, acts, t. cbn. auto.
    + destruct (st_edges _ _ _ _ C j x e Hx He) as (us & as' & u & H1 & H2 & H3). exists us, as', u. auto.
  - intros key root Hk. cbn in Hk. destruct (st_roots _ _ _ _ C key root Hk) as (as' & H1 & H2). exists as'. auto.
Qed.
End Suffixes.
