(* ===== verification/SubtreeStack.v ===== *)
(** * The stack of the subtree walk

    [generateNFAForSubtree] keeps the path to the current vertex on a stack; the
    lower entries have NFA nodes, the upper ones do not yet.  At a leaf the
    missing nodes are made: those that cannot be shared forward, the others
    backward from the actions of the leaf. *)

From stdpp Require Import gmap.
From S2P Require Import Prelude Containers RangeList RangeListProofs Nfa NfaProofs Term TermGraph TermCorrect CombinedFilters CombinedFiltersProofs NfaSkeleton PrefixTreeNet.

#[local] Arguments vsize {A} v : simpl never.

Section Stack.
Context `{HashOrder} (f : CombinedURLFilters) (Hf : tree_ok f).
Implicit Types (k : net) (lab : Z -> label) (vs : list PrefixTreeVertex) (a : ActiveSubtree).

Abbreviation alphabet := (m_alphabet f).
Abbreviation acts_of := (actions_get (m_filterActions f)).

(** ** The tree while it is taken apart *)

(** Some edges have been removed, some are marked. *)
Record shrunk vs : Prop := {
  sh_size : vsize vs = vsize (m_vertices f);
  sh_edges : forall v edges e, vget vs v = Done edges -> e ∈ edges ->
    exists edges0 e0, vget (m_vertices f) v = Done edges0 /\ e0 ∈ edges0 /\ e_child e0 = e_child e /\ (e_term e = e_term e0 \/ e_term e = None);
  sh_nodup : forall v edges, vget vs v = Done edges -> NoDup (map e_child edges)
}.

Lemma shrunk_edge vs v edges e t : shrunk vs -> vget vs v = Done edges -> e ∈ edges -> term_at alphabet (e_term e) = Done t -> tree_edge f v t (e_child e).
Proof.
  intros Hs Hv He Ht. destruct (sh_edges _ Hs v edges e Hv He) as (edges0 & e0 & H1 & H2 & H3 & [H4|H4]); [|by rewrite H4 in Ht].
  exists edges0, e0. split_and!; try done. by rewrite <- H4.
Qed.

Lemma shrunk_child vs v edges e : shrunk vs -> vget vs v = Done edges -> e ∈ edges -> v < e_child e < vsize vs.
Proof.
  intros Hs Hv He. destruct (sh_edges _ Hs v edges e Hv He) as (edges0 & e0 & H1 & H2 & H3 & _). destruct (fo_term _ Hf _ _ _ H1 H2) as [t Ht].
  rewrite (sh_size _ Hs). apply (fo_child _ Hf v t). by exists edges0, e0.
Qed.

(** Fewer edges. *)
Lemma shrunk_set vs v edges : shrunk vs -> (forall e, e ∈ edges -> exists old e0, vget vs v = Done old /\ e0 ∈ old /\ e_child e0 = e_child e /\ (e_term e = e_term e0 \/ e_term e = None)) ->
  NoDup (map e_child edges) -> 0 <= v < vsize vs -> shrunk (<[Z.to_nat v := edges]> vs).
Proof.
  intros Hs He Hnd Hv. constructor.
  - rewrite vsize_insert. apply Hs.
  - intros u r e Hu Hr. rewrite vget_insert in Hu by done. destruct (Z.eqb_spec u v) as [->|Hne]; [|by eapply (sh_edges _ Hs)]. injection Hu as <-.
    destruct (He e Hr) as (old & e0 & H1 & H2 & H3 & H4). destruct (sh_edges _ Hs v old e0 H1 H2) as (r0 & e1 & K1 & K2 & K3 & K4). exists r0, e1.
    split_and!; [done|done|congruence|]. destruct H4 as [->|H4]; [done|by right].
  - intros u r Hu. rewrite vget_insert in Hu by done. destruct (Z.eqb_spec u v) as [->|Hne]; [|by eapply (sh_nodup _ Hs)]. by injection Hu as <-.
Qed.

Lemma shrunk_clear vs v : shrunk vs -> 0 <= v < vsize vs -> shrunk (<[Z.to_nat v := []]> vs).
Proof. intros Hs Hv. apply shrunk_set; [done| |constructor|done]. by intros e ?%elem_of_nil. Qed.

(** ** The path on the stack *)

Definition link vs a b (t : Term) : Prop := exists e, active_edge vs a = Done e /\ e_child e = a_vertex b /\ term_at alphabet (e_term e) = Done t.

Fixpoint chain vs (stack : list ActiveSubtree) : Prop :=
  match stack with
  | [] => True
  | a :: stack' => match stack' with [] => True | b :: _ => (exists t, link vs a b t) /\ chain vs stack' end
  end.

Lemma active_edge_Done vs a e : active_edge vs a = Done e <-> exists edges, vget vs (a_vertex a) = Done edges /\ vget edges (a_edgeIndex a) = Done e.
Proof.
  unfold active_edge. split; [intros E; apply obind_Done in E as (edges & E1 & E2); eauto|]. intros (edges & -> & E). done.
Qed.

Lemma link_edge vs a b t : shrunk vs -> link vs a b t -> tree_edge f (a_vertex a) t (a_vertex b).
Proof.
  intros Hs (e & (edges & E1 & E2)%active_edge_Done & Hc & Ht). rewrite <- Hc. eapply shrunk_edge; try done. apply vget_Done in E2 as [_ E2]. by eapply list_elem_of_lookup_2.
Qed.

Lemma link_less vs a b t : shrunk vs -> link vs a b t -> 0 <= a_vertex a < a_vertex b.
Proof. intros Hs Hl%link_edge; [|done]. pose proof (tree_edge_source _ _ _ _ Hl). apply (fo_child _ Hf) in Hl. lia. Qed.

Lemma chain_app vs l1 x l2 : chain vs (l1 ++ x :: l2) <-> chain vs (l1 ++ [x]) /\ chain vs (x :: l2).
Proof.
  induction l1 as [|a [|b l1] IH]; cbn [app].
  - cbn. tauto.
  - cbn. tauto.
  - cbn [chain app] in *. rewrite IH. tauto.
Qed.

Lemma chain_snoc vs l x y : chain vs (l ++ [x; y]) <-> chain vs (l ++ [x]) /\ exists t, link vs x y t.
Proof. rewrite (chain_app vs l x [y]). cbn. tauto. Qed.

(** Vertices grow along the path. *)
Lemma chain_less vs l x : shrunk vs -> chain vs (l ++ [x]) -> forall z, z ∈ l -> 0 <= a_vertex z < a_vertex x.
Proof.
  intros Hs. revert x. induction l as [|y l IH] using rev_ind; intros x Hc z Hz; [by apply elem_of_nil in Hz|].
  rewrite <- app_assoc in Hc. apply chain_snoc in Hc as [Hc [t Ht]]. apply (link_less _ _ _ _ Hs) in Ht. apply elem_of_app in Hz as [Hz| ->%list_elem_of_singleton]; [|done].
  specialize (IH y Hc z Hz). lia.
Qed.

(** Only the edges of the entries with a successor matter. *)
Lemma chain_ext vs vs' l x : (forall z, z ∈ l -> vget vs' (a_vertex z) = vget vs (a_vertex z)) -> chain vs (l ++ [x]) -> chain vs' (l ++ [x]).
Proof.
  intros Hz. revert x. induction l as [|y l IH] using rev_ind; intros x Hc; [done|]. rewrite <- app_assoc in *. cbn in *. apply chain_snoc in Hc as [Hc (t & e & He & Ht)].
  apply chain_snoc. split; [apply IH; [|done]; intros z Hin; apply Hz; apply elem_of_app; by left|]. exists t, e. split; [|done]. unfold active_edge. rewrite Hz; [done|].
  apply elem_of_app. right. by apply list_elem_of_singleton.
Qed.

(** A different builder in an entry. *)
Lemma link_with_node vs a b t c : link vs (with_node a c) b t <-> link vs a b t.
Proof. done. Qed.

(** ** The suffix of a leaf *)

(** The edges of the entries without a node are dropped, the last first. *)
Definition cleared vs (inv : list ActiveSubtree) : list PrefixTreeVertex := foldr (fun a vs => <[Z.to_nat (a_vertex a) := []]> vs) vs inv.

Lemma vget_at_middle {A} (l1 : list A) x l2 i : i = Z.of_nat (length l1) -> vget (l1 ++ x :: l2) i = Done x.
Proof. intros ->. apply vget_Done. rewrite Nat2Z.id, lookup_app_r, Nat.sub_diag by lia. split; [lia|done]. Qed.

Lemma suffix_loop_spec pre bs leaf inv : forall rest x s active ts acts valid b k lab,
  ss_stack s = pre ++ valid :: inv ++ x :: rest -> a_nfaNode valid = Some b -> Forall (fun a => a_nfaNode a = None) inv ->
  chain (ss_vertices s) (valid :: inv ++ [x]) -> shrunk (ss_vertices s) ->
  nfa_ok f (ss_nfa s) (b :: bs) (ss_tree s) k lab -> lab (b_nodeId b) = Fwd (a_vertex valid) ->
  suffix_vertex k lab (ss_tree s) active ts acts -> tree_walk f (a_vertex x) ts leaf -> (forall c, c ∈ acts -> c ∈ acts_of leaf) ->
  exists s' b' k' lab' us, generate_suffix_loop alphabet s active (length pre + 1 + length inv) = Done s' /\
    ss_stack s' = pre ++ [with_node valid b'] /\ ss_vertices s' = cleared (ss_vertices s) inv /\ b_nodeId b' = b_nodeId b /\
    nfa_ok f (ss_nfa s') (b' :: bs) (ss_tree s') k' lab' /\ grows k lab k' lab' /\
    tree_walk f (a_vertex valid) us leaf /\ backward k' (b_nodeId b) us acts.
Proof.
  induction inv as [|y inv IH] using rev_ind; intros rest x s active ts acts valid b k lab Hstack Hb Hinv Hchain Hs Hok Hlab Hv Hwalk Hacts.
  - replace (length pre + 1 + length [])%nat with (S (length pre)) by (cbn; lia). cbn [generate_suffix_loop]. cbn [app chain] in *. destruct Hchain as [(t & Ht) _].
    pose proof (link_edge _ _ _ _ Hs Ht) as Hte. destruct Ht as (e & He & Hc & Ht).
    destruct Hv as (av & Ea & Hm & Hl & Hbk). rewrite Ea. cbn [obind]. rewrite Hstack, vget_at_middle by done. cbn [obind]. rewrite He, Hb. cbn [obind]. rewrite Ht. cbn [obind].
    destruct (nfa_ok_edge f _ _ _ _ _ b t (r_nodeId av) Hok Hm) as (nfa' & b' & E2 & I2 & Hok2 & G2).
    { intros E. rewrite E, Hl in Hlab. done. } { unfold edge_sound. rewrite Hlab, Hl. exists (a_vertex x), leaf. auto. }
    rewrite E2. cbn [obind]. replace (take (S (length pre)) (pre ++ valid :: x :: rest)) with (pre ++ [valid]).
    2:{ replace (pre ++ valid :: x :: rest) with ((pre ++ [valid]) ++ x :: rest) by (by rewrite <- app_assoc). rewrite take_app_length'; [done|]. rewrite length_app. cbn. lia. }
    rewrite vset_Done by (unfold vsize; rewrite length_app; cbn; lia). cbn [obind]. rewrite Nat2Z.id, insert_app_r_alt, Nat.sub_diag by lia. cbn [insert list_insert].
    eexists _, b', _, lab, (t :: ts). split; [done|]. cbn. split_and!; [done|done|done|done|done|by econstructor|].
    destruct (backward_grows _ _ _ _ _ _ _ G2 Hbk) as (q & Hq & Hqa). exists q. split; [|done]. econstructor; [left|done].
  - replace (length pre + 1 + length (inv ++ [y]))%nat with (S (length pre + 1 + length inv)) by (rewrite length_app; cbn; lia). cbn [generate_suffix_loop].
    apply Forall_app in Hinv as [Hinv [Hy _]%Forall_cons].
    pose proof Hv as (av & Ea & Hm & Hl & Hbk). rewrite Ea. cbn [obind]. rewrite Hstack.
    replace (pre ++ valid :: (inv ++ [y]) ++ x :: rest) with ((pre ++ valid :: inv) ++ y :: x :: rest) in * by (rewrite <- !app_assoc; done).
    rewrite vget_at_middle by (rewrite length_app; cbn; lia). cbn [obind].
    replace (valid :: (inv ++ [y]) ++ [x]) with ((valid :: inv) ++ [y; x]) in Hchain by (cbn; rewrite <- app_assoc; done). apply chain_snoc in Hchain as [Hchain (t & Ht)].
    pose proof (link_edge _ _ _ _ Hs Ht) as Hte. destruct Ht as (e & He & Hc & Ht). rewrite He. cbn [obind]. rewrite Hy.
    destruct (reverse_step_spec f _ _ _ _ _ active ts acts (e_term e) t (r_nodeId av) Hok Hv Ht) as (nfa' & T' & active' & k1 & lab1 & E1 & Hok1 & G1 & Hv1).
    { intros av' Ea'. rewrite Ea in Ea'. by injection Ea' as <-. }
    rewrite E1. cbn [obind]. assert (Hyb : 0 <= a_vertex y < vsize (ss_vertices s)). { apply active_edge_Done in He as (r & Hr & _). by eapply vget_range. }
    rewrite vset_Done by done. cbn [obind]. pose proof (chain_less _ _ _ Hs Hchain) as Hless.
    destruct (IH (x :: rest) y (mkSubtreeState nfa' (<[Z.to_nat (a_vertex y) := []]> (ss_vertices s)) T' (ss_stack s)) active' (t :: ts) acts valid b k1 lab1)
      as (s' & b' & k' & lab' & us & E & Hst & Hvs & Hid & Hok' & G' & Hw & Hbk'); cbn [ss_stack ss_vertices ss_nfa ss_tree]; try done.
    + rewrite Hstack, <- app_assoc. done.
    + change (valid :: inv ++ [y]) with ((valid :: inv) ++ [y]). eapply chain_ext; [|done]. intros z Hz. rewrite vget_insert by done. destruct (Z.eqb_spec (a_vertex z) (a_vertex y)); [|done]. specialize (Hless z Hz). lia.
    + by apply shrunk_clear.
    + rewrite (gw_lab _ _ _ _ G1); [done|]. destruct Hok as [A _ _]. apply (bu_live _ _ _ A). left.
    + by econstructor.
    + exists s', b', k', lab', us. split; [rewrite <- Hstack; exact E|]. split_and!; try done; [|by eapply grows_trans]. rewrite Hvs. cbn. unfold cleared. by rewrite foldr_app.
Qed.

(** ** New forward nodes *)

Lemma to_new_node_spec nfa bs T k lab b u t v : nfa_ok f nfa (b :: bs) T k lab -> lab (b_nodeId b) = Fwd u -> forward f k (b_nodeId b) u -> tree_edge f u t v ->
  exists nfa' b' n k' lab', generateGraphToNewNode t nfa b (acts_of v) = Done (nfa', b', n) /\ b_nodeId b' = b_nodeId b /\
    nfa_ok f nfa' (n :: b' :: bs) T k' lab' /\ grows k lab k' lab' /\ lab' (b_nodeId n) = Fwd v /\ forward f k' (b_nodeId n) v.
Proof.
  intros Hok Hlab Hfw Ht. unfold generateGraphToNewNode. destruct (newBuilder nfa) as [nfa1 n] eqn:En.
  destruct (nfa_ok_new f _ _ _ _ _ _ _ (Fwd v) Hok En) as (I & Hok1 & G1). set (k1 := add_main _ _) in *. set (lab1 := relabel _ _ _) in *.
  assert (Hbm : b_nodeId b ∈ n_main k) by (destruct Hok as [A _ _]; apply (bu_live _ _ _ A); left).
  assert (Hlt : b_nodeId b < vsize (nfa_nodes nfa)) by (destruct Hok as [A _ _]; apply (co_main _ _ _ (bu_composed _ _ _ A)) in Hbm; lia).
  apply (nfa_ok_perm f _ _ (b :: n :: bs)) in Hok1; [|constructor].
  destruct (nfa_ok_edge f _ _ _ _ _ b t (b_nodeId n) Hok1) as (nfa2 & b' & E2 & I2 & Hok2 & G2).
  { rewrite I. left. } { lia. } { unfold edge_sound. rewrite I. unfold lab1. rewrite relabel_same, relabel_other, Hlab by lia. done. }
  rewrite E2. cbn [obind]. apply (nfa_ok_perm f _ _ (n :: b' :: bs)) in Hok2; [|constructor].
  destruct (nfa_ok_acts f _ _ _ _ _ n (acts_of v) Hok2) as [Hok3 G3]; [unfold acts_sound; rewrite I; unfold lab1; by rewrite relabel_same|].
  pose proof (grows_trans _ _ _ _ _ _ G1 (grows_trans _ _ _ _ _ _ G2 G3)) as G. eexists nfa2, b', _, _, lab1. split; [done|]. split_and!; [done|exact Hok3|done| |].
  - cbn. rewrite I. apply relabel_same.
  - cbn [builder_setActions b_nodeId]. destruct (forward_grows _ _ _ _ _ _ _ G Hfw) as (ts & Hts & Hp & _). exists (ts ++ [t]). split_and!.
    + by econstructor.
    + eapply net_path_app; [done|]. econstructor; [|constructor]. left.
    + intros c Hc. exists (acts_of v). split; [left|done].
Qed.

(** The entry has an NFA node, and it stands for the vertex. *)
Definition noded k lab a (b : builder) : Prop := a_nfaNode a = Some b /\ lab (b_nodeId b) = Fwd (a_vertex a) /\ forward f k (b_nodeId b) (a_vertex a).

Lemma noded_grows k lab k' lab' nfa bs T a b : nfa_ok f nfa bs T k lab -> b ∈ bs -> grows k lab k' lab' -> noded k lab a b -> noded k' lab' a b.
Proof.
  intros [A _ _] Hb G (H1 & H2 & H3). split_and!; [done| |by eapply forward_grows]. rewrite (gw_lab _ _ _ _ G); [done|]. by apply (bu_live _ _ _ A).
Qed.

Lemma nodeds_grow k lab k' lab' nfa bs T V bs1 : nfa_ok f nfa bs T k lab -> (forall b, b ∈ bs1 -> b ∈ bs) -> grows k lab k' lab' ->
  Forall2 (noded k lab) V bs1 -> Forall2 (noded k' lab') V bs1.
Proof.
  intros Hok Hin G H2. induction H2 as [|a b V bs1 Hab H2 IH]; [constructor|]. constructor; [|apply IH; intros c Hc; apply Hin; by right].
  eapply noded_grows; [done| |done|done]. apply Hin. left.
Qed.

(** Two stacks that differ in their nodes only. *)
Definition same_entry a a' : Prop := a_vertex a = a_vertex a' /\ a_edgeIndex a = a_edgeIndex a'.
Abbreviation same_shape := (Forall2 same_entry).

Lemma same_shape_refl l : same_shape l l.
Proof. induction l; by constructor. Qed.

Lemma same_shape_trans l1 l2 l3 : same_shape l1 l2 -> same_shape l2 l3 -> same_shape l1 l3.
Proof.
  intros H12. revert l3. induction H12 as [|a b l1 l2 [Hv Hi] H12 IH]; intros l3 H23; [done|]. inversion H23 as [|? c ? l3' [Hv' Hi'] H23']; subst.
  constructor; [split; congruence|auto].
Qed.

Lemma chain_shape vs l l' : same_shape l l' -> chain vs l -> chain vs l'.
Proof.
  induction 1 as [|a a' l l' [Hv Hi] Hl IH]; [done|]. cbn. destruct Hl as [|b b' l l' [Hv' Hi'] Hl]; [done|]. intros [(t & e & He & Hc & Ht) Hch].
  split; [|by apply IH]. exists t, e. unfold active_edge in *. by rewrite <- Hv, <- Hi, <- Hv'.
Qed.

Lemma infix_node_spec s V valid bs b y rest k lab : ss_stack s = V ++ valid :: y :: rest -> Forall2 (noded k lab) (V ++ [valid]) (bs ++ [b]) -> a_nfaNode y = None ->
  nfa_ok f (ss_nfa s) (bs ++ [b]) (ss_tree s) k lab -> chain (ss_vertices s) (valid :: y :: rest) -> shrunk (ss_vertices s) ->
  exists nfa' b' n k' lab', generate_infix_node alphabet (m_filterActions f) s (Z.of_nat (length V) + 1) = Done (set_nfa_stack s nfa' (V ++ with_node valid b' :: with_node y n :: rest)) /\
    nfa_ok f nfa' ((bs ++ [b']) ++ [n]) (ss_tree s) k' lab' /\ grows k lab k' lab' /\ Forall2 (noded k' lab') ((V ++ [with_node valid b']) ++ [with_node y n]) ((bs ++ [b']) ++ [n]).
Proof.
  intros Hst Hn Hy Hok Hch Hs. apply Forall2_app_inv in Hn as [Hn Hb]; [|apply Forall2_length in Hn; rewrite !length_app in Hn; cbn in Hn; lia].
  apply Forall2_cons in Hb as [(Hb1 & Hb2 & Hb3) _]. destruct Hch as [(t & Ht) _]. pose proof (link_edge _ _ _ _ Hs Ht) as Hte. destruct Ht as (e & He & Hc & Ht).
  unfold generate_infix_node. rewrite Hst. replace (Z.of_nat (length V) + 1 - 1) with (Z.of_nat (length V)) by lia. rewrite vget_at_middle by done. cbn [obind].
  replace (V ++ valid :: y :: rest) with ((V ++ [valid]) ++ y :: rest) by (by rewrite <- app_assoc). rewrite vget_at_middle by (rewrite length_app; cbn; lia). cbn [obind].
  rewrite Hb1, He. cbn [obind]. rewrite Ht. cbn [obind]. assert (Hok' : nfa_ok f (ss_nfa s) (b :: bs) (ss_tree s) k lab) by (eapply nfa_ok_perm; [|done]; symmetry; apply Permutation_cons_append).
  destruct (to_new_node_spec _ _ _ _ _ b _ t (a_vertex y) Hok' Hb2 Hb3 Hte) as (nfa' & b' & n & k' & lab' & E & I & Hok2 & G & Hl & Hfw). rewrite E. cbn [obind].
  rewrite Hy. cbn [destroy obind]. rewrite vset_Done by (unfold vsize; rewrite !length_app; cbn; lia). cbn [obind].
  rewrite <- app_assoc. cbn [app]. rewrite Nat2Z.id, insert_app_r_alt, Nat.sub_diag by lia. cbn [insert list_insert].
  rewrite vset_Done by (unfold vsize; rewrite !length_app; cbn; lia). cbn [obind]. rewrite insert_app_r_alt by lia. replace (Z.to_nat (Z.of_nat (length V) + 1) - length V)%nat with 1%nat by lia. cbn [insert list_insert].
  exists nfa', b', n, k', lab'. split; [done|]. assert (Hok3 : nfa_ok f nfa' ((bs ++ [b']) ++ [n]) (ss_tree s) k' lab').
  { eapply nfa_ok_perm; [|done]. rewrite <- !Permutation_cons_append. done. }
  split_and!; [done|done|]. apply Forall2_app; [apply Forall2_app|].
  - eapply nodeds_grow; [exact Hok'| |done|done]. intros c Hc'. by right.
  - constructor; [|constructor]. split_and!; [done| |].
    + cbn. rewrite I, (gw_lab _ _ _ _ G); [done|]. destruct Hok' as [A _ _]. apply (bu_live _ _ _ A). left.
    + cbn. rewrite I. by eapply forward_grows.
  - constructor; [|constructor]. done.
Qed.

Lemma infix_nodes_spec gen : forall s V valid bs b rest k lab, ss_stack s = V ++ valid :: gen ++ rest -> Forall2 (noded k lab) (V ++ [valid]) (bs ++ [b]) -> Forall (fun a => a_nfaNode a = None) gen ->
  nfa_ok f (ss_nfa s) (bs ++ [b]) (ss_tree s) k lab -> chain (ss_vertices s) (valid :: gen ++ rest) -> shrunk (ss_vertices s) ->
  exists nfa' V' bs' k' lab', ofold (generate_infix_node alphabet (m_filterActions f)) s (seqZ (Z.of_nat (length V) + 1) (Z.of_nat (length gen))) = Done (set_nfa_stack s nfa' (V' ++ rest)) /\
    same_shape (V ++ valid :: gen) V' /\ nfa_ok f nfa' bs' (ss_tree s) k' lab' /\ grows k lab k' lab' /\ Forall2 (noded k' lab') V' bs'.
Proof.
  induction gen as [|y gen IH]; intros s V valid bs b rest k lab Hst Hn Hg Hok Hch Hs.
  - cbn [length]. exists (ss_nfa s), (V ++ [valid]), (bs ++ [b]), k, lab. rewrite seqZ_nil by lia. cbn [ofold]. split_and!; [|apply same_shape_refl|done|apply grows_refl|done].
    destruct s. unfold set_nfa_stack. cbn in *. f_equal. f_equal. rewrite Hst. by rewrite <- app_assoc.
  - apply Forall_cons in Hg as [Hy Hg]. rewrite seqZ_cons by (cbn; lia). cbn [ofold]. cbn [app] in *.
    destruct (infix_node_spec s V valid bs b y (gen ++ rest) k lab Hst Hn Hy Hok Hch Hs) as (nfa1 & b' & n & k1 & lab1 & E & Hok1 & G1 & Hn1). rewrite E. cbn [obind].
    destruct (IH (set_nfa_stack s nfa1 (V ++ with_node valid b' :: with_node y n :: gen ++ rest)) (V ++ [with_node valid b']) (with_node y n) (bs ++ [b']) n rest k1 lab1)
      as (nfa' & V' & bs' & k' & lab' & E' & Hsh & Hok' & G' & Hn'); try done.
    + cbn. by rewrite <- app_assoc.
    + cbn [set_nfa_stack ss_vertices]. destruct Hch as [_ Hch]. eapply chain_shape; [|exact Hch]. constructor; [done|apply same_shape_refl].
    + exists nfa', V', bs', k', lab'. split.
      * replace (Z.of_nat (length (V ++ [with_node valid b'])) + 1) with (Z.succ (Z.of_nat (length V) + 1)) in E' by (rewrite length_app; cbn; lia).
        replace (Z.pred (Z.of_nat (length (y :: gen)))) with (Z.of_nat (length gen)) by (cbn; lia). rewrite E'. done.
      * split_and!; [|done|by eapply grows_trans|done]. eapply same_shape_trans; [|exact Hsh].
        rewrite <- app_assoc. apply Forall2_app; [apply same_shape_refl|]. cbn. constructor; [done|]. constructor; [done|]. apply same_shape_refl.
Qed.

(** ** The forward part of the path to a leaf *)

Lemma find_beginning_spec V valid inv rest : a_isValid valid = true -> Forall (fun a => a_nfaNode a = None) inv ->
  find_beginning (V ++ valid :: inv ++ rest) (length V + 1 + length inv) = Done (Z.of_nat (length V)).
Proof.
  intros Hv. revert rest. induction inv as [|y inv IH] using rev_ind; intros rest Hi.
  - replace (length V + 1 + length [])%nat with (S (length V)) by (cbn; lia). cbn [find_beginning]. rewrite vget_at_middle by done. cbn [obind]. by rewrite Hv.
  - apply Forall_app in Hi as [Hi [Hy _]%Forall_cons]. replace (length V + 1 + length (inv ++ [y]))%nat with (S (length V + 1 + length inv)) by (rewrite length_app; cbn; lia).
    cbn [find_beginning]. rewrite <- app_assoc. cbn [app]. replace (V ++ valid :: inv ++ y :: rest) with ((V ++ valid :: inv) ++ y :: rest) at 1 by (by rewrite <- app_assoc).
    rewrite vget_at_middle by (rewrite length_app; cbn; lia). cbn [obind]. unfold a_isValid at 1. rewrite Hy. by apply IH.
Qed.

(** Vertices that can be shared: no actions and one way out. *)
Definition sharable vs a : Prop := m_filterActions f !! a_vertex a = None /\ exists e, vget vs (a_vertex a) = Done [e].

Lemma infix_loop_spec inv : forall s V valid bs b rest k lab, ss_stack s = V ++ valid :: inv ++ rest -> Forall2 (noded k lab) (V ++ [valid]) (bs ++ [b]) -> Forall (fun a => a_nfaNode a = None) inv ->
  nfa_ok f (ss_nfa s) (bs ++ [b]) (ss_tree s) k lab -> chain (ss_vertices s) (valid :: inv ++ rest) -> shrunk (ss_vertices s) -> rest <> [] ->
  exists nfa' V' gen inv' bs' k' lab', generate_infix_loop alphabet (m_filterActions f) s (length V + 1 + length inv) = Done (set_nfa_stack s nfa' (V' ++ inv' ++ rest)) /\
    inv = gen ++ inv' /\ same_shape (V ++ valid :: gen) V' /\ nfa_ok f nfa' bs' (ss_tree s) k' lab' /\ grows k lab k' lab' /\ Forall2 (noded k' lab') V' bs' /\ Forall (sharable (ss_vertices s)) inv'.
Proof.
  induction inv as [|y inv IH] using rev_ind; intros s V valid bs b rest k lab Hst Hn Hi Hok Hch Hs Hr.
  - replace (length V + 1 + length [])%nat with (S (length V)) by (cbn; lia). cbn [generate_infix_loop]. rewrite Hst, vget_at_middle by done. cbn [obind].
    pose proof Hn as Hn'. apply Forall2_app_inv in Hn' as [_ Hb]; [|apply Forall2_length in Hn; rewrite !length_app in Hn; cbn in Hn; lia].
    apply Forall2_cons in Hb as [(Hb1 & _) _]. unfold a_isValid. rewrite Hb1.
    exists (ss_nfa s), (V ++ [valid]), [], [], (bs ++ [b]), k, lab. split_and!; [|done|apply same_shape_refl|done|apply grows_refl|done|constructor].
    destruct s. unfold set_nfa_stack. cbn in *. f_equal. f_equal. rewrite Hst. by rewrite <- app_assoc.
  - apply Forall_app in Hi as [Hi Hy]. pose proof Hy as [Hy' _]%Forall_cons. rewrite <- app_assoc in Hst, Hch. cbn [app] in Hst, Hch.
    replace (length V + 1 + length (inv ++ [y]))%nat with (S (length V + 1 + length inv)) by (rewrite length_app; cbn; lia). cbn [generate_infix_loop]. rewrite Hst.
    assert (Hget : vget (V ++ valid :: inv ++ y :: rest) (Z.of_nat (length V + 1 + length inv)) = Done y).
    { replace (V ++ valid :: inv ++ y :: rest) with ((V ++ valid :: inv) ++ y :: rest) by (by rewrite <- app_assoc). apply vget_at_middle. rewrite length_app. cbn. lia. }
    rewrite Hget. cbn [obind]. unfold a_isValid at 1. rewrite Hy'. destruct (Z.ltb_spec 0 (Z.of_nat (length V + 1 + length inv))); [|lia]. cbn [release_assert obind].
    assert (Hedges : exists edges, vget (ss_vertices s) (a_vertex y) = Done edges).
    { destruct rest as [|z rest]; [done|]. change (valid :: inv ++ y :: z :: rest) with ((valid :: inv) ++ y :: z :: rest) in Hch. apply chain_app in Hch as [_ [(t & e & He & _) _]].
      apply active_edge_Done in He as (edges & He & _). eauto. }
    destruct Hedges as (edges & Hedges). rewrite Hedges. cbn [obind]. destruct (bool_decide (is_Some _) || negb (vsize edges =? 1)) eqn:Ec.
    + rewrite (find_beginning_spec V valid inv (y :: rest)); [|unfold a_isValid|done].
      2:{ pose proof Hn as Hn'. apply Forall2_app_inv in Hn' as [_ Hb]; [|apply Forall2_length in Hn; rewrite !length_app in Hn; cbn in Hn; lia]. apply Forall2_cons in Hb as [(-> & _) _]. done. }
      cbn [obind]. destruct (infix_nodes_spec (inv ++ [y]) s V valid bs b rest k lab) as (nfa' & V' & bs' & k' & lab' & E & Hsh & Hok' & G' & Hn'); try done.
      * by rewrite <- app_assoc.
      * apply Forall_app. done.
      * by rewrite <- app_assoc.
      * exists nfa', V', (inv ++ [y]), [], bs', k', lab'. cbn [app]. rewrite app_nil_r. split; [|split_and!; try done; constructor].
        replace (Z.of_nat (length V + 1 + length inv) - Z.of_nat (length V)) with (Z.of_nat (length (inv ++ [y]))) by (rewrite length_app; cbn; lia). exact E.
    + destruct (IH s V valid bs b (y :: rest) k lab) as (nfa' & V' & gen & inv' & bs' & k' & lab' & E & Hinv & Hsh & Hok' & G' & Hn' & Hsr); try done.
      rewrite E. exists nfa', V', gen, (inv' ++ [y]), bs', k', lab'. split_and!; try done.
      * by rewrite <- app_assoc.
      * by rewrite Hinv, app_assoc.
      * apply Forall_app. split; [done|]. constructor; [|constructor]. apply orb_false_iff in Ec as [Ec1 Ec2]. apply bool_decide_eq_false in Ec1. apply negb_false_iff, Z.eqb_eq in Ec2.
        split; [by apply eq_None_not_Some|]. unfold vsize in Ec2. destruct edges as [|e [|? ?]]; [done| |cbn in Ec2; lia]. eauto.
Qed.
End Stack.
