(* ===== verification/SubtreeWalk.v ===== *)
(** * The walk over a subtree

    The main loop of [generateNFAForSubtree] keeps an invariant: the stack is a
    path of the tree, the edges that have been dropped lead to vertices whose
    patterns are in the NFA, and every other vertex can still be reached. *)

From stdpp Require Import gmap.
From S2P Require Import Prelude Containers RangeList RangeListProofs Nfa NfaProofs Term TermGraph TermCorrect CombinedFilters CombinedFiltersProofs NfaSkeleton PrefixTreeNet SubtreeStack.

#[local] Arguments vsize {A} v : simpl never.

Section Walk.
Context `{HashOrder} (f : CombinedURLFilters) (Hf : tree_ok f).
Implicit Types (k : net) (lab : Z -> label) (vs : list PrefixTreeVertex) (a : ActiveSubtree).

Abbreviation alphabet := (m_alphabet f).
Abbreviation acts_of := (actions_get (m_filterActions f)).

(** ** Reachable vertices *)

(** The tree with other edges. *)
Definition tree_with vs : CombinedURLFilters := mkCombinedURLFilters alphabet vs (m_filterActions f).

Definition reach vs (v : Z) : Prop := exists ts, tree_path (tree_with vs) ts v.

Lemma reach_cut vs vs' (cut : Z -> Prop) v :
  (forall u t c, tree_edge (tree_with vs) u t c -> tree_edge (tree_with vs') u t c \/ cut c) -> (forall u t c, cut u -> tree_edge (tree_with vs) u t c -> cut c) ->
  reach vs v -> reach vs' v \/ cut v.
Proof.
  intros H1 H2 (ts & Hp). induction Hp as [|ts u t c Hp IH He]; [left; exists []; constructor|].
  destruct IH as [[us Hus]|IH]; [|right; by eapply H2]. destruct (H1 u t c He) as [He'|He']; [left; eexists; by econstructor|by right].
Qed.

(** Everything is done by [D] or by the net, or can still be reached. *)
Definition covered (D : Z -> Prop) k vs : Prop := forall v, (exists ts, tree_path f ts v) -> D v \/ performed f k v \/ reach vs v.

Lemma covered_grows D k lab k' lab' vs : grows k lab k' lab' -> covered D k vs -> covered D k' vs.
Proof. intros G Hc v Hv. destruct (Hc v Hv) as [?|[?|?]]; [by left|right; left; by eapply performed_grows|by right; right]. Qed.

Lemma covered_cut D k vs vs' (cut : Z -> Prop) :
  (forall u t c, tree_edge (tree_with vs) u t c -> tree_edge (tree_with vs') u t c \/ cut c) -> (forall u t c, cut u -> tree_edge (tree_with vs) u t c -> cut c) ->
  (forall c, cut c -> performed f k c) -> covered D k vs -> covered D k vs'.
Proof. intros H1 H2 H3 Hc v Hv. destruct (Hc v Hv) as [?|[?|Hr]]; [by left|by right; left|]. destruct (reach_cut vs vs' cut v H1 H2 Hr); auto. Qed.

Lemma tree_edge_insert vs v edges u t c : 0 <= v < vsize vs ->
  tree_edge (tree_with (<[Z.to_nat v := edges]> vs)) u t c <->
  (u = v /\ exists e, e ∈ edges /\ e_child e = c /\ term_at alphabet (e_term e) = Done t) \/ (u <> v /\ tree_edge (tree_with vs) u t c).
Proof.
  intros Hv. unfold tree_edge. cbn. split.
  - intros (r & e & Hr & He & Hc & Ht). rewrite vget_insert in Hr by done. destruct (Z.eqb_spec u v) as [->|Hne]; [injection Hr as <-; left; eauto|right; eauto 10].
  - intros [(-> & e & He & Hc & Ht)|(Hne & r & e & Hr & He & Hc & Ht)].
    + exists edges, e. rewrite vget_insert, Z.eqb_refl by done. done.
    + exists r, e. rewrite vget_insert by done. destruct (Z.eqb_spec u v); done.
Qed.

(** ** The invariant *)

Record walk (D : Z -> Prop) (s : subtree_state) (V inv : list ActiveSubtree) (bs : list builder) k lab : Prop := {
  wk_stack : ss_stack s = V ++ inv;
  wk_nodes : Forall2 (noded f k lab) V bs;
  wk_bare : Forall (fun a => a_nfaNode a = None) inv;
  wk_bottom : V = [] -> inv = [];
  wk_ok : nfa_ok f (ss_nfa s) bs (ss_tree s) k lab;
  wk_shrunk : shrunk f (ss_vertices s);
  wk_chain : chain f (ss_vertices s) (V ++ inv);
  wk_index : forall a, a ∈ V ++ inv -> exists edges, vget (ss_vertices s) (a_vertex a) = Done edges /\ 0 <= a_edgeIndex a <= vsize edges;
  wk_full : forall a, a ∈ V -> vget (ss_vertices s) (a_vertex a) <> Done [];
  wk_marks : forall v edges i e, vget (ss_vertices s) v = Done edges -> vget edges i = Done e -> e_term e = None ->
    exists a, a ∈ V /\ a_vertex a = v /\ i < a_edgeIndex a;
  wk_covered : covered D k (ss_vertices s)
}.

(** *** Distinct entries *)

Lemma chain_distinct vs l a a' : shrunk f vs -> chain f vs l -> a ∈ l -> a' ∈ l -> a_vertex a = a_vertex a' -> a = a'.
Proof.
  intros Hs. induction l as [|x l IH] using rev_ind; intros Hc Ha Ha' E; [by apply elem_of_nil in Ha|].
  pose proof (chain_less f Hf _ _ _ Hs Hc) as Hl. assert (Hc' : chain f vs l).
  { destruct l as [|y l _] using rev_ind; [done|]. rewrite <- app_assoc in Hc. by apply chain_snoc in Hc as [Hc _]. }
  apply elem_of_app in Ha as [Ha| ->%list_elem_of_singleton], Ha' as [Ha'| ->%list_elem_of_singleton]; auto.
  - apply Hl in Ha. lia.
  - apply Hl in Ha'. lia.
Qed.

(** A lower entry is nearer to the root. *)
Lemma chain_apart vs l1 l2 x y : shrunk f vs -> chain f vs (l1 ++ l2) -> x ∈ l1 -> y ∈ l2 -> a_vertex x < a_vertex y.
Proof.
  intros Hs Hc Hx Hy. apply list_elem_of_split in Hx as (l3 & l4 & ->). apply list_elem_of_split in Hy as (l5 & l6 & ->).
  replace ((l3 ++ x :: l4) ++ l5 ++ y :: l6) with ((l3 ++ x :: l4 ++ l5) ++ y :: l6) in Hc by (cbn; rewrite <- !app_assoc; cbn; rewrite <- ?app_assoc; done). apply chain_app in Hc as [Hc _].
  apply (chain_less f Hf _ _ _ Hs Hc), elem_of_app. right. left.
Qed.

Lemma chain_init vs l x : chain f vs (l ++ [x]) -> chain f vs l.
Proof. intros Hc. destruct l as [|y l _] using rev_ind; [done|]. rewrite <- app_assoc in Hc. by apply chain_snoc in Hc as [Hc _]. Qed.

(** The edges at and after the index of an entry are not marked. *)
Lemma walk_unmarked D s V inv bs k lab a edges i e : walk D s V inv bs k lab -> a ∈ V ++ inv -> vget (ss_vertices s) (a_vertex a) = Done edges -> vget edges i = Done e ->
  a_edgeIndex a <= i -> exists t, term_at alphabet (e_term e) = Done t /\ tree_edge f (a_vertex a) t (e_child e).
Proof.
  intros W Ha Hv He Hi. pose proof He as [_ Hin]%vget_Done. apply list_elem_of_lookup_2 in Hin. destruct (e_term e) as [p|] eqn:Ep.
  - destruct (sh_edges _ _ (wk_shrunk _ _ _ _ _ _ _ W) _ _ _ Hv Hin) as (edges0 & e0 & H1 & H2 & H3 & [H4|H4]); [|congruence].
    destruct (fo_term _ Hf _ _ _ H1 H2) as [t Ht]. exists t. rewrite <- Ep, H4. split; [done|]. rewrite <- H3. by exists edges0, e0.
  - destruct (wk_marks _ _ _ _ _ _ _ W _ _ _ _ Hv He Ep) as (a' & Ha' & E & Hi'). assert (a' = a); [|subst; lia].
    eapply chain_distinct; [apply W|apply W| |done|done]. apply elem_of_app. by left.
Qed.

Lemma same_shape_elem l l' a : Forall2 same_entry l l' -> a ∈ l -> exists a', a' ∈ l' /\ same_entry a a'.
Proof. intros Hs Ha. induction Hs as [|x y l l' Hxy Hs IH]; [by apply elem_of_nil in Ha|]. apply elem_of_cons in Ha as [->|Ha]; [exists y; split; [left|done]|]. destruct (IH Ha) as (a' & ? & ?). exists a'. split; [by right|done]. Qed.

Lemma same_shape_elem_r l l' a : Forall2 same_entry l l' -> a ∈ l' -> exists a', a' ∈ l /\ same_entry a' a.
Proof. intros Hs Ha. induction Hs as [|x y l l' Hxy Hs IH]; [by apply elem_of_nil in Ha|]. apply elem_of_cons in Ha as [->|Ha]; [exists x; split; [left|done]|]. destruct (IH Ha) as (a' & ? & ?). exists a'. split; [by right|done]. Qed.

(** *** Moving on at the top *)

(** A later index. *)
Lemma walk_index_top D s V inv bs k lab L a i edges : walk D s V inv bs k lab -> V ++ inv = L ++ [a] -> vget (ss_vertices s) (a_vertex a) = Done edges -> a_edgeIndex a <= i <= vsize edges ->
  exists V' inv', V' ++ inv' = L ++ [with_edgeIndex a i] /\ (inv = [] -> inv' = []) /\ walk D (set_nfa_stack s (ss_nfa s) (L ++ [with_edgeIndex a i])) V' inv' bs k lab.
Proof.
  intros [W1 W2 W3 W4 W5 W6 W7 W8 W9 W10 W11] E Hv Hi.
  assert (Hsplit : exists V' inv', V' ++ inv' = L ++ [with_edgeIndex a i] /\ (inv = [] -> inv' = []) /\ Forall2 (noded f k lab) V' bs /\ Forall (fun a => a_nfaNode a = None) inv' /\
    (V' = [] -> inv' = []) /\ (forall x, x ∈ V' -> exists x', x' ∈ V /\ a_vertex x = a_vertex x') /\ forall x, x ∈ V -> exists x', x' ∈ V' /\ a_vertex x' = a_vertex x /\ a_edgeIndex x <= a_edgeIndex x').
  { destruct inv as [|y inv _] using rev_ind.
    - rewrite app_nil_r in E. subst V. exists (L ++ [with_edgeIndex a i]), []. rewrite app_nil_r. split_and!; try done.
      + pose proof W2 as Hbs. apply Forall2_app_inv_l in Hbs as (b1 & b2 & H1 & H2 & ->). apply Forall2_app; [done|]. inversion H2 as [|? b ? ? Hb Hn]; subst. inversion Hn; subst. constructor; [done|constructor].
      + intros x [Hx| ->%list_elem_of_singleton]%elem_of_app; [exists x; split; [apply elem_of_app; by left|done]|exists a; split; [apply elem_of_app; right; left|done]].
      + intros x [Hx| ->%list_elem_of_singleton]%elem_of_app; [exists x; split; [apply elem_of_app; by left|split; [done|lia]]|]. exists (with_edgeIndex a i). split; [apply elem_of_app; right; left|]. cbn. split; [done|lia].
    - rewrite app_assoc in E. apply app_inj_tail in E as [<- ->]. exists V, (inv ++ [with_edgeIndex a i]). rewrite <- app_assoc. split_and!; try done.
      + intros Ev. symmetry in Ev. by apply app_cons_not_nil in Ev.
      + apply Forall_app in W3 as [W3 Ha]. apply Forall_app. split; [done|]. apply Forall_cons in Ha as [Ha _]. by constructor.
      + intros ->. specialize (W4 eq_refl). symmetry in W4. by apply app_cons_not_nil in W4.
      + intros x Hx. by exists x.
      + intros x Hx. exists x. split; [done|]. split; [done|lia]. }
  destruct Hsplit as (V' & inv' & E' & Hinv & Hn & Hb & Hbot & Hsub & Hsup). exists V', inv'. split; [done|]. split; [done|]. constructor; cbn [set_nfa_stack ss_stack ss_nfa ss_vertices ss_tree]; try done.
  - rewrite E'. rewrite E in W7. destruct L as [|y L _] using rev_ind; [done|]. rewrite <- app_assoc in *. cbn [app] in *. apply chain_snoc in W7 as [W7 Ht]. apply chain_snoc. done.
  - intros x Hx. rewrite E' in Hx. apply elem_of_app in Hx as [Hx| ->%list_elem_of_singleton]; [apply W8; rewrite E; apply elem_of_app; by left|].
    exists edges. cbn. split; [done|]. destruct (W8 a) as (r & Hr & Hr'); [rewrite E; apply elem_of_app; right; left|]. lia.
  - intros x Hx. destruct (Hsub x Hx) as (x' & Hx' & ->). by apply W9.
  - intros v r j e Hr He Ht. destruct (W10 v r j e Hr He Ht) as (x & Hx & E1 & Hj). destruct (Hsup x Hx) as (x' & Hx' & E2 & Hj'). exists x'. split; [done|]. split; [congruence|lia].
Qed.

(** Entering a child. *)
Lemma walk_push D s V inv bs k lab L a edges e : walk D s V inv bs k lab -> V ++ inv = L ++ [a] -> vget (ss_vertices s) (a_vertex a) = Done edges -> vget edges (a_edgeIndex a) = Done e ->
  let c := mkActiveSubtree (e_child e) None 0 in walk D (set_nfa_stack s (ss_nfa s) (L ++ [a; c])) V (inv ++ [c]) bs k lab.
Proof.
  intros W E Hv He c. destruct (walk_unmarked _ _ _ _ _ _ _ a edges (a_edgeIndex a) e W) as (t & Ht & Hte); [rewrite E; apply elem_of_app; right; left|done|done|lia|].
  destruct W as [W1 W2 W3 W4 W5 W6 W7 W8 W9 W10 W11]. assert (E' : V ++ inv ++ [c] = L ++ [a; c]) by (rewrite app_assoc, E, <- app_assoc; done).
  constructor; cbn [set_nfa_stack ss_stack ss_nfa ss_vertices ss_tree]; try done.
  - apply Forall_app. split; [done|]. by constructor.
  - intros ->. specialize (W4 eq_refl). subst inv. by destruct L.
  - rewrite E'. apply chain_snoc. rewrite E in W7. split; [done|]. exists t, e. split; [|done]. apply active_edge_Done. eauto.
  - intros x Hx. rewrite app_assoc in Hx. apply elem_of_app in Hx as [Hx| ->%list_elem_of_singleton]; [by apply W8|]. cbn.
    apply vget_Done in He as [_ He]. apply list_elem_of_lookup_2 in He. pose proof (shrunk_child f Hf _ _ _ _ W6 Hv He) as Hc.
    destruct (vget_total (ss_vertices s) (e_child e)) as (r & Hr & _); [apply vget_range in Hv; lia|]. exists r. split; [done|]. pose proof (vsize_nonneg r). lia.
Qed.

(** ** Leaving a vertex *)

Lemma remove_marked_spec edges e : e ∈ remove_marked edges <-> e ∈ edges /\ e_term e <> None.
Proof.
  unfold remove_marked. rewrite list_elem_of_In, List.filter_In, <- list_elem_of_In. destruct (e_term e); naive_solver.
Qed.

Lemma remove_marked_nodup edges : NoDup (map e_child edges) -> NoDup (map e_child (remove_marked edges)).
Proof.
  induction edges as [|e edges IH]; [done|]. rewrite map_cons. intros [Hn Hnd]%NoDup_cons. unfold remove_marked in *. cbn [List.filter]. destruct (e_term e); [|auto].
  rewrite map_cons. constructor; [|auto]. intros (e' & E & He')%list_elem_of_fmap. apply Hn. rewrite E. apply list_elem_of_fmap_2. apply list_elem_of_In, List.filter_In in He' as [? _]. by apply list_elem_of_In.
Qed.

Lemma remove_marked_edges vs v edges u t c : vget vs v = Done edges -> tree_edge (tree_with (<[Z.to_nat v := remove_marked edges]> vs)) u t c <-> tree_edge (tree_with vs) u t c.
Proof.
  intros Hv. rewrite tree_edge_insert by (by eapply vget_range). split.
  - intros [(-> & e & [He _]%remove_marked_spec & Hc & Ht)|[_ ?]]; [by exists edges, e|done].
  - intros Hte. destruct (Z.eq_dec u v) as [->|]; [left|right; done]. split; [done|]. destruct Hte as (r & e & Hr & He & Hc & Ht). cbn in Hr. rewrite Hv in Hr. injection Hr as <-.
    exists e. split_and!; [|done|done]. apply remove_marked_spec. split; [done|]. intros E. cbn in Ht. by rewrite E in Ht.
Qed.

Lemma walk_split_top D s V inv bs k lab L a : walk D s V inv bs k lab -> V ++ inv = L ++ [a] ->
  (exists bs0 b, inv = [] /\ V = L ++ [a] /\ bs = bs0 ++ [b] /\ Forall2 (noded f k lab) L bs0 /\ noded f k lab a b) \/
  (exists inv0, inv = inv0 ++ [a] /\ L = V ++ inv0 /\ a ∉ V /\ a_nfaNode a = None /\ Forall (fun a => a_nfaNode a = None) inv0).
Proof.
  intros W E. destruct inv as [|y inv _] using rev_ind.
  - left. rewrite app_nil_r in E. subst V. pose proof (wk_nodes _ _ _ _ _ _ _ W) as Hbs. apply Forall2_app_inv_l in Hbs as (b1 & b2 & H1 & H2 & ->).
    inversion H2 as [|? b ? ? Hb Hn]; subst. inversion Hn; subst. exists b1, b. done.
  - right. rewrite app_assoc in E. apply app_inj_tail in E as [<- ->]. exists inv. pose proof (wk_bare _ _ _ _ _ _ _ W) as Hb. apply Forall_app in Hb as [Hb Ha]. apply Forall_cons in Ha as [Ha _].
    split_and!; try done. intros Hin. pose proof (wk_chain _ _ _ _ _ _ _ W) as Hc. rewrite app_assoc in Hc. pose proof (chain_less f Hf _ _ _ (wk_shrunk _ _ _ _ _ _ _ W) Hc a) as Hl.
    assert (0 <= a_vertex a < a_vertex a) by (apply Hl, elem_of_app; by left). lia.
Qed.

Lemma walk_pop D s V inv bs k lab L a edges : walk D s V inv bs k lab -> V ++ inv = L ++ [a] -> vget (ss_vertices s) (a_vertex a) = Done edges -> edges <> [] ->
  exists nfa' V' inv' bs', destroy (ss_nfa s) (a_nfaNode a) = Done nfa' /\ V' ++ inv' = L /\
    walk D (mkSubtreeState nfa' (<[Z.to_nat (a_vertex a) := remove_marked edges]> (ss_vertices s)) (ss_tree s) L) V' inv' bs' k lab /\
    (remove_marked edges = [] -> inv' = [] /\ performed f k (a_vertex a)).
Proof.
  intros W E Hv Hne. set (vs' := <[_ := _]> _). pose proof (vget_range _ _ _ Hv) as Hr.
  assert (Hother : forall x, x ∈ L -> vget vs' (a_vertex x) = vget (ss_vertices s) (a_vertex x)).
  { intros x Hx. unfold vs'. rewrite vget_insert by done. destruct (Z.eqb_spec (a_vertex x) (a_vertex a)) as [Ex|]; [|done]. pose proof (wk_chain _ _ _ _ _ _ _ W) as Hc. rewrite E in Hc.
    pose proof (chain_less f Hf _ _ _ (wk_shrunk _ _ _ _ _ _ _ W) Hc x Hx). lia. }
  assert (Hall : remove_marked edges = [] -> a ∈ V).
  { intros Hm. destruct edges as [|e edges]; [done|]. assert (Ht : e_term e = None).
    { destruct (e_term e) eqn:Et; [|done]. exfalso. assert (Hin : e ∈ remove_marked (e :: edges)) by (apply remove_marked_spec; split; [left|congruence]). rewrite Hm in Hin. by apply elem_of_nil in Hin. }
    destruct (wk_marks _ _ _ _ _ _ _ W _ _ 0 e Hv) as (a' & Ha' & Ea & _); [apply vget_Done; done|done|]. assert (a' = a); [|by subst].
    eapply chain_distinct; [apply W|apply W| | |done]; [apply elem_of_app; by left|rewrite E; apply elem_of_app; right; left]. }
  assert (Hnew : forall nfa' V' inv' bs', nfa_ok f nfa' bs' (ss_tree s) k lab -> V' ++ inv' = L -> Forall2 (noded f k lab) V' bs' -> Forall (fun a => a_nfaNode a = None) inv' -> (V' = [] -> inv' = []) ->
    (forall x, x ∈ V' <-> x ∈ V /\ x ∈ L) -> walk D (mkSubtreeState nfa' vs' (ss_tree s) L) V' inv' bs' k lab).
  { intros nfa' V' inv' bs' Hok E' H1 H2 H3 H4. destruct W as [W1 W2 W3 W4 W5 W6 W7 W8 W9 W10 W11]. constructor; cbn [ss_stack ss_nfa ss_vertices ss_tree]; try done.
    - apply shrunk_set; [done| |by apply remove_marked_nodup, (sh_nodup _ _ W6 (a_vertex a))|done]. intros e [He _]%remove_marked_spec. exists edges, e. split_and!; auto.
    - rewrite E'. rewrite E in W7. apply chain_init in W7. destruct L as [|y L _] using rev_ind; [done|]. eapply chain_ext; [|done]. intros z Hz. apply Hother. apply elem_of_app. by left.
    - intros x Hx. rewrite E' in Hx. rewrite Hother by done. apply W8. rewrite E. apply elem_of_app. by left.
    - intros x [Hx Hx']%H4. rewrite Hother by done. by apply W9.
    - intros v r i e Hvr He Ht. unfold vs' in Hvr. rewrite vget_insert in Hvr by done. destruct (Z.eqb_spec v (a_vertex a)) as [->|Hva].
      + injection Hvr as <-. apply vget_Done in He as [_ He]. apply list_elem_of_lookup_2, remove_marked_spec in He as [_ He]. done.
      + destruct (W10 v r i e Hvr He Ht) as (x & Hx & Ex & Hi). exists x. split; [|done]. apply H4. split; [done|]. assert (Hxs : x ∈ L ++ [a]) by (rewrite <- E; apply elem_of_app; by left).
        apply elem_of_app in Hxs as [?| ->%list_elem_of_singleton]; [done|congruence].
    - eapply (covered_cut D k (ss_vertices s) vs' (fun _ => False)); try done. intros u t c Hte. left. by apply remove_marked_edges. }
  destruct (walk_split_top _ _ _ _ _ _ _ _ _ W E) as [(bs0 & b & -> & -> & -> & Hn & Hb)|(inv0 & -> & -> & Ha & Hna & Hbare)].
  - pose proof (wk_ok _ _ _ _ _ _ _ W) as Hok. apply (nfa_ok_perm f _ _ (b :: bs0)) in Hok; [|symmetry; apply Permutation_cons_append].
    destruct (nfa_ok_finalize f _ _ _ _ _ _ Hok) as (nfa' & Ef & Hok'). exists nfa', L, [], bs0. rewrite app_nil_r. destruct Hb as (Hb1 & Hb2 & Hb3).
    split; [by rewrite Hb1|]. split; [done|]. split; [|intros _; split; [done|by eapply forward_performed]].
    apply Hnew; try done; [by rewrite app_nil_r|]. intros x. split; [intros Hx; split; [apply elem_of_app; by left|done]|by intros [_ ?]].
  - exists (ss_nfa s), V, inv0, bs. split; [by rewrite Hna|]. split; [done|]. split; [|intros Hm; by apply Hall in Hm].
    apply Hnew; try done; [apply W|apply W| |].
    + intros Hv0. pose proof (wk_bottom _ _ _ _ _ _ _ W Hv0) as Hi. symmetry in Hi. by apply app_cons_not_nil in Hi.
    + intros x. split; [intros Hx; split; [done|apply elem_of_app; by left]|by intros [? _]].
Qed.

(** ** The end of an iteration *)

Lemma mark_processed_spec s L a edges e ce : ss_stack s = L ++ [a] -> vget (ss_vertices s) (a_vertex a) = Done edges -> vget edges (a_edgeIndex a) = Done e -> vget (ss_vertices s) (e_child e) = Done ce ->
  mark_processed s = Done (mkSubtreeState (ss_nfa s)
    (<[Z.to_nat (a_vertex a) := <[Z.to_nat (a_edgeIndex a) := match ce with [] => mkPrefixTreeEdge None (e_child e) | _ => e end]> edges]> (ss_vertices s))
    (ss_tree s) (L ++ [with_edgeIndex a (a_edgeIndex a + 1)])).
Proof.
  intros Hst Hv He Hc. unfold mark_processed. rewrite Hst. clear Hst. destruct (L ++ [a]) as [|x l] eqn:Es; [by destruct L|]. rewrite <- Es. clear x l Es.
  assert (Hi : vsize (L ++ [a]) - 1 = Z.of_nat (length L)) by (unfold vsize; rewrite length_app; cbn; lia). rewrite Hi, vget_at_middle by done. cbn [obind]. rewrite Hv. cbn [obind]. rewrite He. cbn [obind]. rewrite Hc. cbn [obind].
  rewrite vset_Done by (by eapply vget_range). cbn [obind]. rewrite vset_Done by (by eapply vget_range). cbn [obind]. rewrite vset_Done by (unfold vsize; rewrite length_app; cbn; lia). cbn [obind].
  by rewrite Nat2Z.id, insert_app_r_alt, Nat.sub_diag by lia.
Qed.

Lemma map_child_insert edges i e e' : vget edges i = Done e -> e_child e' = e_child e -> map e_child (<[Z.to_nat i := e']> edges) = map e_child edges.
Proof.
  intros [_ He]%vget_Done Hc. rewrite list_fmap_insert, Hc. apply list_insert_id. by rewrite list_lookup_fmap, He.
Qed.

Lemma walk_advance D s V inv bs k lab L a edges e ce : walk D s V inv bs k lab -> V ++ inv = L ++ [a] -> vget (ss_vertices s) (a_vertex a) = Done edges -> vget edges (a_edgeIndex a) = Done e ->
  vget (ss_vertices s) (e_child e) = Done ce -> (ce = [] -> inv = [] /\ performed f k (e_child e)) ->
  let e' := match ce with [] => mkPrefixTreeEdge None (e_child e) | _ => e end in
  exists V' inv', V' ++ inv' = L ++ [with_edgeIndex a (a_edgeIndex a + 1)] /\
    walk D (mkSubtreeState (ss_nfa s) (<[Z.to_nat (a_vertex a) := <[Z.to_nat (a_edgeIndex a) := e']> edges]> (ss_vertices s)) (ss_tree s) (L ++ [with_edgeIndex a (a_edgeIndex a + 1)])) V' inv' bs k lab.
Proof.
  intros W E Hv He Hce Hp e'. pose proof (vget_range _ _ _ Hv) as Hr. pose proof (vget_range _ _ _ He) as Hre.
  destruct (walk_index_top _ _ _ _ _ _ _ L a (a_edgeIndex a + 1) edges W E Hv) as (V' & inv' & E' & Hinv & W'); [lia|]. exists V', inv'. split; [done|].
  set (vs' := <[_ := _]> (ss_vertices s)). assert (Hchild : e_child e' = e_child e) by (unfold e'; by destruct ce). pose proof (map_child_insert edges _ _ e' He Hchild) as Hmap.
  assert (Hlen : vsize (<[Z.to_nat (a_edgeIndex a) := e']> edges) = vsize edges) by apply vsize_insert.
  destruct W' as [W1 W2 W3 W4 W5 W6 W7 W8 W9 W10 W11]. cbn [set_nfa_stack ss_stack ss_nfa ss_vertices ss_tree] in *. pose proof (wk_chain _ _ _ _ _ _ _ W) as Hch. rewrite E in Hch.
  pose proof (chain_less f Hf _ _ _ W6 Hch) as Hless. constructor; cbn [ss_stack ss_nfa ss_vertices ss_tree]; try done.
  - apply shrunk_set; [done| | |done].
    + intros x Hx. apply list_elem_of_lookup_1 in Hx as [j Hj]. apply list_lookup_insert_Some in Hj as [(<- & <- & _)|[_ Hj]].
      * exists edges, e. split_and!; [done|apply vget_Done in He as [_ He]; by eapply list_elem_of_lookup_2|done|]. unfold e'. destruct ce; [by right|by left].
      * exists edges, x. split_and!; [done|by eapply list_elem_of_lookup_2|done|by left].
    + rewrite Hmap. by apply (sh_nodup _ _ W6 (a_vertex a)).
  - rewrite E' in *. eapply chain_ext; [|done]. intros z Hz. unfold vs'. rewrite vget_insert by done. destruct (Z.eqb_spec (a_vertex z) (a_vertex a)) as [Ez|]; [|done]. specialize (Hless z Hz). lia.
  - intros x Hx. destruct (W8 x Hx) as (r & Hxr & Hxi). unfold vs'. rewrite vget_insert by done. destruct (Z.eqb_spec (a_vertex x) (a_vertex a)) as [Ex|]; [|eauto].
    rewrite Ex, Hv in Hxr. injection Hxr as <-. eexists. split; [done|]. by rewrite Hlen.
  - intros x Hx. unfold vs'. rewrite vget_insert by done. destruct (Z.eqb_spec (a_vertex x) (a_vertex a)) as [Ex|]; [|by apply W9]. intros Hn. injection Hn as Hn. rewrite Hn in Hlen. change (vsize (@nil PrefixTreeEdge)) with 0 in Hlen. lia.
  - intros v r i x Hvr Hx Ht. unfold vs' in Hvr. rewrite vget_insert in Hvr by done. destruct (Z.eqb_spec v (a_vertex a)) as [->|Hva]; [|by eapply W10]. injection Hvr as <-.
    pose proof Hx as [Hxi Hxl]%vget_Done. apply list_lookup_insert_Some in Hxl as [(Ei & Ex & _)|[Hni Hxl]].
    + assert (ce = []) as ->. { subst x. unfold e' in Ht. destruct ce; [done|]. destruct (walk_unmarked _ _ _ _ _ _ _ a edges (a_edgeIndex a) e W) as (t & Ht' & _); [rewrite E; apply elem_of_app; right; left|done|done|lia|]. by rewrite Ht in Ht'. }
      destruct (Hp eq_refl) as [-> _]. rewrite (Hinv eq_refl), app_nil_r in E'. exists (with_edgeIndex a (a_edgeIndex a + 1)). split; [rewrite E'; apply elem_of_app; right; left|]. cbn. split; [done|lia].
    + apply (W10 (a_vertex a) edges i x); [done| |done]. apply vget_Done. done.
  - destruct ce as [|x ce].
    + destruct (Hp eq_refl) as [_ Hperf]. eapply (covered_cut D k (ss_vertices s) vs' (fun c => c = e_child e)); [| |by intros c ->|done].
      * intros u t c Hte. unfold vs'. rewrite (tree_edge_insert (ss_vertices s)) by done. destruct (Z.eq_dec u (a_vertex a)) as [->|Hu]; [|left; by right].
        destruct Hte as (r & x & Hvr & Hx & Hc & Ht). cbn in Hvr. rewrite Hv in Hvr. injection Hvr as <-. apply list_elem_of_lookup_1 in Hx as [j Hj]. destruct (decide (j = Z.to_nat (a_edgeIndex a))) as [->|Hji].
        -- right. apply vget_Done in He as [_ He]. rewrite He in Hj. injection Hj as <-. done.
        -- left. left. split; [done|]. exists x. split; [|done]. apply (list_elem_of_lookup_2 _ j). by rewrite list_lookup_insert_ne.
      * intros u t c -> (r & x & Hvr & Hx & _). cbn in Hvr. rewrite Hce in Hvr. injection Hvr as <-. by apply elem_of_nil in Hx.
    + unfold vs', e'. rewrite (list_insert_id edges) by (by apply vget_Done in He as [_ ?]). rewrite list_insert_id by (by apply vget_Done in Hv as [_ ?]). done.
Qed.
End Walk.

(** ** The walk at a leaf

    At a leaf the missing part of the path is generated; the edges of the
    vertices that were only on this path are dropped. *)

#[local] Arguments vsize {A} v : simpl never.

Section Leaf.
Context `{HashOrder} (f : CombinedURLFilters) (Hf : tree_ok f).
Implicit Types (k : net) (lab : Z -> label) (vs : list PrefixTreeVertex) (a : ActiveSubtree).

Abbreviation alphabet := (m_alphabet f).
Abbreviation acts_of := (actions_get (m_filterActions f)).

(** ** Cleared vertices *)

Lemma cleared_vget vs inv : Forall (fun a => 0 <= a_vertex a < vsize vs) inv ->
  vsize (cleared vs inv) = vsize vs /\ forall v, vget (cleared vs inv) v = if bool_decide (v ∈ map a_vertex inv) then Done [] else vget vs v.
Proof.
  induction 1 as [|a inv Ha Hi [IH1 IH2]]; [done|]. cbn [cleared foldr map]. fold (cleared vs inv). rewrite vsize_insert. split; [done|]. intros v. rewrite vget_insert by (by rewrite IH1).
  destruct (Z.eqb_spec v (a_vertex a)) as [->|Hne]; [rewrite bool_decide_true by left; done|]. rewrite IH2. repeat case_bool_decide; try done.
  - exfalso. apply H1. by right.
  - apply elem_of_cons in H1 as [?|?]; done.
Qed.

Lemma cleared_shrunk vs inv : shrunk f vs -> Forall (fun a => 0 <= a_vertex a < vsize vs) inv -> shrunk f (cleared vs inv).
Proof.
  intros Hs. induction 1 as [|a inv Ha Hi IH]; [done|]. cbn. apply shrunk_clear; [done|]. destruct (cleared_vget vs inv Hi) as [E _]. fold (cleared vs inv). by rewrite E.
Qed.

(** A sharable vertex leads to the next entry only. *)
Lemma sharable_next vs a b rest t c : chain f vs (a :: b :: rest) -> sharable f vs a -> tree_edge (tree_with f vs) (a_vertex a) t c -> c = a_vertex b.
Proof.
  intros [(t' & e & He & Hc & _) _] (_ & e0 & Hv) (r & x & Hr & Hx & Hxc & _). cbn in Hr. rewrite Hv in Hr. injection Hr as <-. apply list_elem_of_singleton in Hx as ->.
  apply active_edge_Done in He as (r & Hr & He). rewrite Hv in Hr. injection Hr as <-. apply vget_Done in He as [Hi He]. destruct (Z.to_nat (a_edgeIndex a)) as [|n]; [|by destruct n]. injection He as <-. congruence.
Qed.

(** ** The forward part *)

Lemma walk_infix D s V0 valid bs0 b inv leaf k lab : walk f D s (V0 ++ [valid]) (inv ++ [leaf]) (bs0 ++ [b]) k lab ->
  exists nfa' V' gen inv' bs' k' lab', generateInfixUnsuitableForReverseSuffixTree alphabet (m_filterActions f) s = Done (set_nfa_stack s nfa' (V' ++ inv' ++ [leaf])) /\
    inv = gen ++ inv' /\ Forall2 same_entry ((V0 ++ [valid]) ++ gen) V' /\ grows k lab k' lab' /\ Forall (sharable f (ss_vertices s)) inv' /\
    walk f D (set_nfa_stack s nfa' (V' ++ inv' ++ [leaf])) V' (inv' ++ [leaf]) bs' k' lab'.
Proof.
  intros W. pose proof W as [W1 W2 W3 W4 W5 W6 W7 W8 W9 W10 W11]. unfold generateInfixUnsuitableForReverseSuffixTree.
  assert (Hst : ss_stack s = V0 ++ valid :: inv ++ [leaf]) by (rewrite W1, <- app_assoc; done).
  replace (Nat.pred (length (ss_stack s))) with (length V0 + 1 + length inv)%nat by (rewrite Hst, length_app; cbn; rewrite length_app; cbn; lia).
  apply Forall_app in W3 as [W3 Hleaf]. rewrite <- app_assoc in W7.
  assert (Hch : chain f (ss_vertices s) (valid :: inv ++ [leaf])) by (by apply chain_app in W7 as [_ W7]).
  destruct (infix_loop_spec f inv s V0 valid bs0 b [leaf] k lab Hst W2 W3 W5 Hch W6) as (nfa' & V' & gen & inv' & bs' & k' & lab' & E & Hinv & Hsh & Hok & G & Hn & Hsr); [done|].
  exists nfa', V', gen, inv', bs', k', lab'. split; [exact E|]. assert (Hsh' : Forall2 same_entry ((V0 ++ [valid]) ++ gen) V') by (by rewrite <- app_assoc).
  split_and!; try done. subst inv. assert (Hall : Forall2 same_entry ((V0 ++ [valid]) ++ (gen ++ inv') ++ [leaf]) (V' ++ inv' ++ [leaf])).
  { rewrite <- (app_assoc gen), app_assoc. apply Forall2_app; [done|apply same_shape_refl]. }
  constructor; cbn [set_nfa_stack ss_stack ss_nfa ss_vertices ss_tree]; try done.
  - apply Forall_app. split; [|done]. by apply Forall_app in W3 as [_ ?].
  - intros ->. apply Forall2_length in Hsh'. rewrite !length_app in Hsh'. cbn in Hsh'. lia.
  - eapply chain_shape; [exact Hall|]. by rewrite <- app_assoc.
  - intros x Hx. destruct (same_shape_elem_r _ _ _ Hall Hx) as (x' & Hx' & <- & <-). by apply W8.
  - intros x Hx. destruct (same_shape_elem_r _ _ _ Hsh' Hx) as (x' & Hx' & <- & _). apply elem_of_app in Hx' as [Hx'|Hx']; [by apply W9|]. intros Hn0.
    apply list_elem_of_split in Hx' as (g1 & g2 & ->). replace (valid :: ((g1 ++ x' :: g2) ++ inv') ++ [leaf]) with ((valid :: g1) ++ x' :: g2 ++ inv' ++ [leaf]) in Hch by (cbn; rewrite <- !app_assoc; done).
    apply chain_app in Hch as [_ Hch]. destruct (g2 ++ inv' ++ [leaf]) as [|y l] eqn:El; [by destruct g2, inv'|]. destruct Hch as [(t & e & He & _) _].
    apply active_edge_Done in He as (r & Hr & He). rewrite Hn0 in Hr. injection Hr as <-. by apply vget_Done in He as [_ He].
  - intros v r i e Hv He Ht. destruct (W10 v r i e Hv He Ht) as (x & Hx & E1 & Hi). destruct (same_shape_elem _ _ x Hsh') as (x' & Hx' & E2 & E3); [apply elem_of_app; by left|].
    exists x'. split; [done|]. split; [congruence|lia].
  - by eapply covered_grows.
Qed.

(** ** The backward part *)

Lemma chain_bounds vs l x : chain f vs (l ++ [x]) -> Forall (fun a => 0 <= a_vertex a < vsize vs) l.
Proof.
  revert x. induction l as [|y l IH] using rev_ind; intros x Hc; [constructor|]. rewrite <- app_assoc in Hc. apply chain_snoc in Hc as [Hc (t & e & He & _)]. apply Forall_app. split; [by eapply IH|].
  constructor; [|constructor]. apply active_edge_Done in He as (r & Hr & _). by eapply vget_range.
Qed.

Lemma chain_tail vs a l : chain f vs (a :: l) -> chain f vs l.
Proof. destruct l; [done|]. by intros [_ ?]. Qed.

Lemma chain_drop vs l1 l2 : chain f vs (l1 ++ l2) -> chain f vs l2.
Proof. induction l1 as [|a l1 IH]; [done|]. intros Hc. cbn [app] in Hc. by apply chain_tail in Hc; apply IH. Qed.

Lemma walk_suffix D s V0 valid bs0 b inv leaf k lab : walk f D s (V0 ++ [valid]) (inv ++ [leaf]) (bs0 ++ [b]) k lab -> Forall (sharable f (ss_vertices s)) inv ->
  vget (ss_vertices s) (a_vertex leaf) = Done [] ->
  exists s' b' k' lab', generateSuffixWithReverseSuffixTree alphabet (m_filterActions f) s = Done s' /\ ss_vertices s' = cleared (ss_vertices s) inv /\ grows k lab k' lab' /\
    walk f D s' (V0 ++ [with_node valid b']) [] (bs0 ++ [b']) k' lab' /\ forall x, x ∈ inv ++ [leaf] -> performed f k' (a_vertex x).
Proof.
  intros W Hsr Hleaf. pose proof W as [W1 W2 W3 W4 W5 W6 W7 W8 W9 W10 W11]. unfold generateSuffixWithReverseSuffixTree.
  assert (Hst : ss_stack s = V0 ++ valid :: inv ++ [leaf]) by (rewrite W1, <- app_assoc; done).
  assert (Hget : vget (ss_stack s) (vsize (ss_stack s) - 1) = Done leaf).
  { rewrite W1, app_assoc. apply vget_at_middle. unfold vsize. rewrite length_app. cbn. lia. }
  rewrite Hget. cbn [obind]. destruct (add_root_spec f _ _ _ _ _ (acts_of (a_vertex leaf)) W5 ltac:(eauto)) as (nfa1 & T1 & root & k1 & lab1 & acts & E1 & Hok1 & G1 & Hv1 & Ha1). rewrite E1. cbn [obind].
  replace (Nat.pred (length (ss_stack s))) with (length V0 + 1 + length inv)%nat by (rewrite Hst, length_app; cbn; rewrite length_app; cbn; lia).
  rewrite <- app_assoc in W7. assert (Hch : chain f (ss_vertices s) (valid :: inv ++ [leaf])) by (by apply chain_app in W7 as [_ W7]).
  pose proof W2 as Hn. apply Forall2_app_inv in Hn as [Hn Hb]; [|apply Forall2_length in W2; rewrite !length_app in W2; cbn in W2; lia]. apply Forall2_cons in Hb as [(Hb1 & Hb2 & Hb3) _].
  pose proof Hok1 as Hok1'. apply (nfa_ok_perm f _ _ (b :: bs0)) in Hok1'; [|symmetry; apply Permutation_cons_append].
  assert (Hbm : b_nodeId b ∈ n_main k) by (destruct W5 as [A _ _]; apply (bu_live _ _ _ A), elem_of_app; right; left).
  apply Forall_app in W3 as [W3 _].
  destruct (suffix_loop_spec f Hf V0 bs0 (a_vertex leaf) inv [] leaf (mkSubtreeState nfa1 (ss_vertices s) T1 (ss_stack s)) root [] acts valid b k1 lab1)
    as (s' & b' & k' & lab' & us & E & Hst' & Hvs & I & Hok' & G' & Hw & Hbk); cbn [ss_stack ss_vertices ss_nfa ss_tree]; try done; [by rewrite (gw_lab _ _ _ _ G1)|constructor|intros c; by rewrite Ha1|].
  cbn [ss_vertices] in Hvs. exists s', b', k', lab'. split; [exact E|]. split; [done|]. pose proof (grows_trans _ _ _ _ _ _ G1 G') as G. split; [done|].
  assert (Hinvb : Forall (fun a => 0 <= a_vertex a < vsize (ss_vertices s)) inv) by (apply chain_tail in Hch; by apply chain_bounds in Hch).
  destruct (cleared_vget _ _ Hinvb) as [Hsz Hcl]. rewrite <- Hvs in Hsz, Hcl.
  assert (Hperf : forall x, x ∈ inv ++ [leaf] -> performed f k' (a_vertex x)).
  { intros x [Hx| ->%list_elem_of_singleton]%elem_of_app.
    - rewrite Forall_forall in Hsr. destruct (Hsr x Hx) as [Hna _]. intros ts c _ Hc. unfold actions_get in Hc. rewrite Hna in Hc. by apply elem_of_nil in Hc.
    - destruct (forward_grows _ _ _ _ _ _ _ G Hb3) as (ts & Hts & Hp & _). destruct Hbk as (q & Hq & Hqa). intros us' c Hus' Hc.
      rewrite (tree_path_inj f us' (ts ++ us) (a_vertex leaf) Hf Hus'); [|by eapply tree_walk_path]. exists q. split; [by eapply net_path_app|]. by apply Hqa, Ha1. }
  split; [|done]. assert (Hdis : forall x y, x ∈ V0 ++ [valid] -> y ∈ inv ++ [leaf] -> a_vertex x <> a_vertex y).
  { intros x y Hx Hy Exy. pose proof (chain_apart f Hf _ _ _ _ _ W6 (wk_chain _ _ _ _ _ _ _ _ W) Hx Hy). lia. }
  assert (Hsame : forall x, x ∈ V0 ++ [valid] -> vget (ss_vertices s') (a_vertex x) = vget (ss_vertices s) (a_vertex x)).
  { intros x Hx. rewrite Hcl. rewrite bool_decide_false; [done|]. intros (y & Ey & Hy)%list_elem_of_fmap. apply (Hdis x y Hx); [apply elem_of_app; by left|done]. }
  assert (Hsame' : forall x, x ∈ V0 ++ [with_node valid b'] -> exists x', x' ∈ V0 ++ [valid] /\ same_entry x x').
  { intros x Hx. apply (same_shape_elem (V0 ++ [with_node valid b']) (V0 ++ [valid])); [|done]. apply Forall2_app; [apply same_shape_refl|]. by constructor. }
  constructor; try done.
  - by rewrite Hst', app_nil_r.
  - apply Forall2_app.
    + eapply (nodeds_grow f k1 lab1); [exact Hok1'| |done|eapply (nodeds_grow f k lab); [exact W5| |done|done]]; [intros c Hc; by right|intros c Hc; apply elem_of_app; by left].
    + constructor; [|constructor]. split_and!; [done|cbn; by rewrite I, (gw_lab _ _ _ _ G)|]. cbn. rewrite I. by eapply forward_grows.
  - eapply nfa_ok_perm; [|done]. apply Permutation_cons_append.
  - rewrite Hvs. by apply cleared_shrunk.
  - rewrite app_nil_r. assert (Hc0 : chain f (ss_vertices s) (V0 ++ [with_node valid b'])).
    { apply (chain_shape f _ (V0 ++ [valid])); [apply Forall2_app; [apply same_shape_refl|]; by constructor|]. by apply (chain_app f _ V0 valid (inv ++ [leaf])) in W7 as [W7 _]. }
    eapply chain_ext; [|done]. intros z Hz. apply Hsame, elem_of_app. by left.
  - intros x Hx. rewrite app_nil_r in Hx. destruct (Hsame' x Hx) as (x' & Hx' & -> & ->). rewrite Hsame by done. apply W8, elem_of_app. by left.
  - intros x Hx. destruct (Hsame' x Hx) as (x' & Hx' & -> & _). rewrite Hsame by done. by apply W9.
  - intros v r i e Hv He Ht. rewrite Hcl in Hv. case_bool_decide as Hvi; [injection Hv as <-; by apply vget_Done in He as [_ He]|].
    destruct (W10 v r i e Hv He Ht) as (x & Hx & Ex & Hi). destruct (same_shape_elem (V0 ++ [valid]) (V0 ++ [with_node valid b']) x) as (x' & Hx' & E2 & E3); [apply Forall2_app; [apply same_shape_refl|]; by constructor|done|].
    exists x'. split; [done|]. split; [congruence|lia].
  - eapply (covered_cut f D k' (ss_vertices s) (ss_vertices s') (fun c => exists x, x ∈ inv ++ [leaf] /\ c = a_vertex x)); [| |by intros c (x & Hx & ->); apply Hperf|by eapply covered_grows].
    + intros u t c Hte. destruct (decide (u ∈ map a_vertex inv)) as [Hu|Hu].
      * right. apply list_elem_of_fmap in Hu as (x & -> & Hx). pose proof Hx as Hx'. apply list_elem_of_split in Hx' as (l1 & l2 & ->). apply chain_tail in Hch. rewrite <- app_assoc in Hch. apply chain_drop in Hch. cbn [app] in Hch.
        destruct (l2 ++ [leaf]) as [|y l] eqn:El; [by destruct l2|]. exists y. split; [rewrite <- app_assoc; apply elem_of_app; right; cbn; rewrite El; right; left|].
        eapply sharable_next; [exact Hch| |exact Hte]. rewrite Forall_forall in Hsr. by apply Hsr.
      * left. destruct Hte as (r & x & Hr & Hx). exists r, x. split; [|done]. cbn in *. by rewrite Hcl, bool_decide_false.
    + intros u t c (x & Hx & ->) Hte. apply elem_of_app in Hx as [Hx| ->%list_elem_of_singleton].
      * pose proof Hx as Hx'. apply list_elem_of_split in Hx' as (l1 & l2 & ->). apply chain_tail in Hch. rewrite <- app_assoc in Hch. apply chain_drop in Hch. cbn [app] in Hch.
        destruct (l2 ++ [leaf]) as [|y l] eqn:El; [by destruct l2|]. exists y. split; [rewrite <- app_assoc; apply elem_of_app; right; cbn; rewrite El; right; left|].
        eapply sharable_next; [exact Hch| |exact Hte]. rewrite Forall_forall in Hsr. by apply Hsr.
      * destruct Hte as (r & y & Hr & Hy & _). cbn in Hr. rewrite Hleaf in Hr. injection Hr as <-. by apply elem_of_nil in Hy.
Qed.
End Leaf.
