(* ===== verification/SubtreeMeasure.v ===== *)
(** * The walk ends and makes progress

    Every iteration of the walk is one of a few moves of the stack.  A move
    decreases what is left to visit; and as long as no leaf has been found, a
    leaf is still ahead. *)

From stdpp Require Import gmap.
From S2P Require Import Prelude Containers Nfa Term CombinedFilters CombinedFiltersProofs SubtreeStack SubtreeWalk.

#[local] Arguments vsize {A} v : simpl never.

Section Measure.
Context (f : CombinedURLFilters) (Hf : tree_ok f).
Implicit Types (vs : list PrefixTreeVertex) (a : ActiveSubtree) (stack : list ActiveSubtree).

Abbreviation alphabet := (m_alphabet f).

(** ** Moves *)

Inductive move vs stack vs' : list ActiveSubtree -> Prop :=
| move_index L a i edges : stack = L ++ [a] -> vget vs (a_vertex a) = Done edges -> a_edgeIndex a < i <= vsize edges -> vs' = vs -> move vs stack vs' (L ++ [with_edgeIndex a i])
| move_push L a edges e : stack = L ++ [a] -> vget vs (a_vertex a) = Done edges -> vget edges (a_edgeIndex a) = Done e -> vs' = vs -> move vs stack vs' (L ++ [a; mkActiveSubtree (e_child e) None 0])
| move_drop L a M L' a' edges edges' : stack = L ++ a :: M -> M <> [] -> Forall2 same_entry L L' -> same_entry a a' -> (forall v, v ∉ map a_vertex (a :: M) -> vget vs' v = vget vs v) ->
    vget vs (a_vertex a) = Done edges -> 0 <= a_edgeIndex a < vsize edges -> vget vs' (a_vertex a) = Done edges' -> map e_child edges' = map e_child edges ->
    move vs stack vs' (L' ++ [with_edgeIndex a' (a_edgeIndex a' + 1)])
| move_end a : stack = [a] -> (forall v, v <> a_vertex a -> vget vs' v = vget vs v) -> move vs stack vs' [].

(** ** What is left *)

Record unseen_ok (unseen : list Z) vs stack : Prop := {
  un_nodup : NoDup unseen;
  un_stack : forall a, a ∈ stack -> a_vertex a ∉ unseen;
  un_closed : forall v edges e, v ∈ unseen -> vget vs v = Done edges -> e ∈ edges -> e_child e ∈ unseen;
  un_later : forall a edges i e, a ∈ stack -> vget vs (a_vertex a) = Done edges -> vget edges i = Done e -> a_edgeIndex a < i -> e_child e ∈ unseen;
  un_next : forall L a edges e, stack = L ++ [a] -> vget vs (a_vertex a) = Done edges -> vget edges (a_edgeIndex a) = Done e -> e_child e ∈ unseen
}.

Definition size_at vs (v : Z) : nat := match vget vs v with Done edges => length edges | _ => 0%nat end.

Definition entry_work vs a : nat := (1 + (size_at vs (a_vertex a) - Z.to_nat (a_edgeIndex a)))%nat.

Definition todo vs (unseen : list Z) stack : nat := (sum_list_with (fun v => 2 + size_at vs v) unseen + sum_list_with (entry_work vs) stack)%nat.

Lemma sum_list_with_ext {A} (g h : A -> nat) l : (forall x, x ∈ l -> g x = h x) -> sum_list_with g l = sum_list_with h l.
Proof. induction l as [|x l IH]; intros E; [done|]. cbn. rewrite (E x) by left. f_equal. apply IH. intros y Hy. apply E. by right. Qed.

Lemma shrunk_parent vs v edges e v' edges' e' : shrunk f vs -> vget vs v = Done edges -> e ∈ edges -> vget vs v' = Done edges' -> e' ∈ edges' -> e_child e = e_child e' -> v = v'.
Proof.
  intros Hs Hv He Hv' He' Hc. destruct (sh_edges _ _ Hs v edges e Hv He) as (r & x & H1 & H2 & H3 & _). destruct (sh_edges _ _ Hs v' edges' e' Hv' He') as (r' & x' & H1' & H2' & H3' & _).
  destruct (fo_term _ Hf _ _ _ H1 H2) as [t Ht]. destruct (fo_term _ Hf _ _ _ H1' H2') as [t' Ht']. destruct (fo_parent _ Hf v t (e_child e) v' t') as [? _]; [by exists r, x|exists r', x'; split_and!; try done; congruence|done].
Qed.

Lemma unseen_index unseen vs L a i : unseen_ok unseen vs (L ++ [a]) -> a_edgeIndex a < i -> unseen_ok unseen vs (L ++ [with_edgeIndex a i]).
Proof.
  intros [U1 U2 U3 U4 U5] Hi. constructor; try done.
  - intros x [Hx| ->%list_elem_of_singleton]%elem_of_app; [apply U2, elem_of_app; by left|]. apply (U2 a), elem_of_app. right. left.
  - intros x r j e [Hx| ->%list_elem_of_singleton]%elem_of_app Hr He Hj; [eapply U4; try done; apply elem_of_app; by left|]. cbn in *. eapply (U4 a); try done; [apply elem_of_app; right; left|lia].
  - intros L0 x r e E Hr He. apply app_inj_tail in E as [<- <-]. cbn in *. eapply (U4 a); try done. apply elem_of_app. right. left.
Qed.

Lemma unseen_push unseen vs L a edges e : shrunk f vs -> chain f vs (L ++ [a]) -> unseen_ok unseen vs (L ++ [a]) -> vget vs (a_vertex a) = Done edges -> vget edges (a_edgeIndex a) = Done e ->
  exists unseen', unseen ≡ₚ e_child e :: unseen' /\ unseen_ok unseen' vs (L ++ [a; mkActiveSubtree (e_child e) None 0]).
Proof.
  intros Hs Hch [U1 U2 U3 U4 U5] Hv He. assert (Hc : e_child e ∈ unseen) by (by eapply U5). apply elem_of_Permutation in Hc as [unseen' Hp]. exists unseen'. split; [done|].
  assert (Hin : e ∈ edges) by (apply vget_Done in He as [_ He]; by eapply list_elem_of_lookup_2).
  assert (Hsub : forall x, x ∈ unseen -> x <> e_child e -> x ∈ unseen') by (intros x Hx Hne; rewrite Hp in Hx; by apply elem_of_cons in Hx as [?|?]).
  assert (Hsup : forall x, x ∈ unseen' -> x ∈ unseen) by (intros x Hx; rewrite Hp; by right).
  assert (Hnd : e_child e ∉ unseen' /\ NoDup unseen') by (rewrite Hp in U1; by apply NoDup_cons). destruct Hnd as [Hnc Hnd].
  assert (Hbelow : forall r x, vget vs (e_child e) = Done r -> x ∈ r -> e_child x ∈ unseen').
  { intros r x Hr Hx. apply Hsub; [eapply U3; [|done|done]; rewrite Hp; left|]. pose proof (shrunk_child f Hf _ _ _ _ Hs Hr Hx). lia. }
  constructor; try done.
  - intros x Hx. change (L ++ [a; ?c]) with (L ++ [a] ++ [c]) in Hx. rewrite app_assoc in Hx. apply elem_of_app in Hx as [Hx| ->%list_elem_of_singleton]; [intros Hx'%Hsup; by apply (U2 x)|done].
  - intros v r x Hv0 Hr Hx. apply Hsub; [eapply U3; [by apply Hsup|done|done]|]. intros Ex. assert (v = a_vertex a) as -> by (by eapply (shrunk_parent vs v r x (a_vertex a) edges e)).
    apply (U2 a); [apply elem_of_app; right; left|by apply Hsup].
  - intros x r j y Hx Hr Hy Hj. change (L ++ [a; ?c]) with (L ++ [a] ++ [c]) in Hx. rewrite app_assoc in Hx. pose proof Hy as [_ Hyl]%vget_Done. pose proof Hyl as Hyr%list_elem_of_lookup_2.
    apply elem_of_app in Hx as [Hx| ->%list_elem_of_singleton]; [|by eapply Hbelow].
    apply Hsub; [by eapply U4|]. intros Ex. assert (Hxa : a_vertex x = a_vertex a) by (by eapply (shrunk_parent vs _ r y _ edges e)). assert (x = a) as ->.
    { eapply chain_distinct; [exact Hf|exact Hs|exact Hch|done| |done]. apply elem_of_app. right. left. }
    rewrite Hv in Hr. injection Hr as <-. pose proof (sh_nodup _ _ Hs _ _ Hv) as Hndc. pose proof He as [Hi Hel]%vget_Done. pose proof (vget_range _ _ _ Hy).
    assert (Z.to_nat j = Z.to_nat (a_edgeIndex a)); [|lia]. eapply (NoDup_lookup (map e_child edges)); [done|rewrite list_lookup_fmap, Hyl; done|rewrite list_lookup_fmap, Hel; cbn; by rewrite Ex].
  - intros L0 x r y E Hr Hy. change (L ++ [a; ?c]) with (L ++ [a] ++ [c]) in E. rewrite app_assoc in E. apply app_inj_tail in E as [_ <-]. cbn [a_vertex a_edgeIndex] in *. apply vget_Done in Hy as [_ Hy]. apply list_elem_of_lookup_2 in Hy. by eapply Hbelow.
Qed.

Lemma map_child_lookup edges edges' i e : map e_child edges' = map e_child edges -> vget edges' i = Done e -> exists e0, vget edges i = Done e0 /\ e_child e0 = e_child e.
Proof.
  intros E [Hi He]%vget_Done. assert (Hl : map e_child edges !! Z.to_nat i = Some (e_child e)) by (rewrite <- E, list_lookup_fmap, He; done).
  rewrite list_lookup_fmap in Hl. apply fmap_Some in Hl as (e0 & H0 & E0). exists e0. split; [by apply vget_Done|done].
Qed.

Lemma unseen_drop unseen vs vs' L a M L' a' edges edges' : shrunk f vs -> chain f vs (L ++ a :: M) -> unseen_ok unseen vs (L ++ a :: M) -> Forall2 same_entry L L' -> same_entry a a' ->
  (forall v, v ∉ map a_vertex (a :: M) -> vget vs' v = vget vs v) -> vget vs (a_vertex a) = Done edges -> vget vs' (a_vertex a) = Done edges' -> map e_child edges' = map e_child edges ->
  unseen_ok unseen vs' (L' ++ [with_edgeIndex a' (a_edgeIndex a' + 1)]).
Proof.
  intros Hs Hch [U1 U2 U3 U4 U5] HL [Ea Ei] Hvs Hv Hv' Hmap.
  assert (HvL : forall x, x ∈ L -> vget vs' (a_vertex x) = vget vs (a_vertex x)).
  { intros x Hx. apply Hvs. intros (y & Ey & Hy)%list_elem_of_fmap. pose proof (chain_apart f Hf _ _ _ _ _ Hs Hch Hx Hy). lia. }
  assert (Hun : forall v, v ∈ unseen -> vget vs' v = vget vs v).
  { intros v Hu. apply Hvs. intros (y & -> & Hy)%list_elem_of_fmap. apply (U2 y); [apply elem_of_app; by right|done]. }
  constructor; try done.
  - intros x [Hx| ->%list_elem_of_singleton]%elem_of_app.
    + destruct (same_shape_elem_r _ _ _ HL Hx) as (x' & Hx' & <- & _). apply U2, elem_of_app. by left.
    + cbn. rewrite <- Ea. apply U2, elem_of_app. right. left.
  - intros v r e Hu Hr He. rewrite Hun in Hr by done. by eapply U3.
  - intros x r j e [Hx| ->%list_elem_of_singleton]%elem_of_app Hr He Hj.
    + destruct (same_shape_elem_r _ _ _ HL Hx) as (x' & Hx' & E1 & E2). rewrite <- E1, HvL in Hr by done. eapply (U4 x'); try done; [apply elem_of_app; by left|lia].
    + cbn in *. rewrite <- Ea, Hv' in Hr. injection Hr as <-. destruct (map_child_lookup _ _ _ _ Hmap He) as (e0 & He0 & <-). eapply (U4 a); try done; [apply elem_of_app; right; left|lia].
  - intros L0 x r e E Hr He. apply app_inj_tail in E as [_ <-]. cbn in *. rewrite <- Ea, Hv' in Hr. injection Hr as <-. destruct (map_child_lookup _ _ _ _ Hmap He) as (e0 & He0 & <-).
    eapply (U4 a); try done; [apply elem_of_app; right; left|lia].
Qed.

(** A move leaves less to do. *)
Lemma move_decreases unseen vs stack vs' stack' : shrunk f vs -> chain f vs stack -> unseen_ok unseen vs stack -> (forall a, a ∈ stack -> 0 <= a_edgeIndex a) -> move vs stack vs' stack' ->
  exists unseen', unseen_ok unseen' vs' stack' /\ (todo vs' unseen' stack' < todo vs unseen stack)%nat.
Proof.
  intros Hs Hch Hu Hidx Hm. destruct Hm as [L a i edges -> Hv Hi ->|L a edges e -> Hv He ->|L a M L' a' edges edges' -> HM HL Ha Hvs Hv Hi Hv' Hmap|a -> Hvs].
  - exists unseen. split; [apply unseen_index; [done|lia]|]. unfold todo. rewrite !sum_list_with_app. cbn. unfold entry_work, size_at. cbn. rewrite Hv. unfold vsize in Hi. specialize (Hidx a ltac:(apply elem_of_app; right; left)). lia.
  - destruct (unseen_push unseen vs L a edges e Hs Hch Hu Hv He) as (unseen' & Hp & Hu'). exists unseen'. split; [done|]. unfold todo. rewrite !sum_list_with_app.
    assert (E : sum_list_with (fun v => 2 + size_at vs v)%nat unseen = (2 + size_at vs (e_child e) + sum_list_with (fun v => 2 + size_at vs v)%nat unseen')%nat) by (rewrite Hp; done).
    rewrite E. cbn [sum_list_with]. change (entry_work vs (mkActiveSubtree (e_child e) None 0)) with (1 + (size_at vs (e_child e) - 0))%nat. lia.
  - exists unseen. split; [by eapply unseen_drop|]. pose proof (unseen_drop unseen vs vs' L a M L' a' edges edges' Hs Hch Hu HL Ha Hvs Hv Hv' Hmap) as Hu'. unfold todo. rewrite !sum_list_with_app. cbn [sum_list_with].
    assert (E1 : sum_list_with (fun v => 2 + size_at vs' v)%nat unseen = sum_list_with (fun v => 2 + size_at vs v)%nat unseen).
    { apply sum_list_with_ext. intros v Hvu. unfold size_at. rewrite Hvs; [done|]. intros (y & -> & Hy)%list_elem_of_fmap. apply (un_stack _ _ _ Hu y); [apply elem_of_app; by right|done]. }
    assert (HvL : forall x, x ∈ L -> vget vs' (a_vertex x) = vget vs (a_vertex x)).
    { intros x Hx. apply Hvs. intros (y & Ey & Hy)%list_elem_of_fmap. pose proof (chain_apart f Hf _ _ _ _ _ Hs Hch Hx Hy). lia. }
    assert (E2 : sum_list_with (entry_work vs') L' = sum_list_with (entry_work vs) L).
    { clear -HL HvL. induction HL as [|x y L L' [E1 E2] HL IH]; [done|]. cbn. rewrite IH by (intros z Hz; apply HvL; by right). f_equal. unfold entry_work, size_at. rewrite <- E1, HvL, E2 by left. done. }
    rewrite E1, E2. apply (f_equal length) in Hmap. rewrite !length_map in Hmap. destruct Ha as [Ea Ei]. assert (E3 : entry_work vs' (with_edgeIndex a' (a_edgeIndex a' + 1)) = (1 + (length edges' - Z.to_nat (a_edgeIndex a + 1)))%nat) by (unfold entry_work, size_at; cbn; by rewrite <- Ea, Hv', <- Ei).
    assert (E4 : entry_work vs a = (1 + (length edges - Z.to_nat (a_edgeIndex a)))%nat) by (unfold entry_work, size_at; by rewrite Hv). rewrite E3, E4. unfold vsize in Hi. lia.
  - exists unseen. destruct Hu as [U1 U2 U3 U4 U5]. assert (Hun : forall v, v ∈ unseen -> vget vs' v = vget vs v).
    { intros v Hvu. apply Hvs. intros ->. apply (U2 a); [left|done]. }
    split.
    + constructor; try done; try (by intros ? ?%elem_of_nil); try (by intros ? ? ? ? ?%elem_of_nil).
      * intros v r e Hvu Hr He. rewrite Hun in Hr by done. by eapply U3.
      * intros L x r e E. by destruct L.
    + unfold todo. rewrite (sum_list_with_ext (fun v => 2 + size_at vs' v)%nat (fun v => 2 + size_at vs v)%nat); [cbn; unfold entry_work; lia|]. intros v Hvu. unfold size_at. by rewrite Hun.
Qed.
End Measure.

(** ** A leaf ahead *)

Section Ahead.
Context (alphabet : list Term) (vs : list PrefixTreeVertex).
Implicit Types (a : ActiveSubtree) (stack : list ActiveSubtree).

(** The path through the last edges has no quantified terms. *)
Inductive fixed_path : Z -> Prop :=
| fixed_leaf v : vget vs v = Done [] -> fixed_path v
| fixed_step v edges e t : vget vs v = Done edges -> vlast edges = Done e -> term_at alphabet (e_term e) = Done t -> hasFixedLength t = true -> fixed_path (e_child e) -> fixed_path v.

Inductive ahead : list ActiveSubtree -> Prop :=
| ahead_here a rest edges : vget vs (a_vertex a) = Done edges -> fixed_path (a_vertex a) -> a_edgeIndex a < vsize edges - 1 -> ahead (a :: rest)
| ahead_last a edges : vget vs (a_vertex a) = Done edges -> fixed_path (a_vertex a) -> edges = [] \/ a_edgeIndex a = vsize edges - 1 -> ahead [a]
| ahead_down a b rest edges : vget vs (a_vertex a) = Done edges -> a_edgeIndex a = vsize edges - 1 -> ahead (b :: rest) -> ahead (a :: b :: rest).

(** The moves that find no leaf. *)
Inductive quiet stack : list ActiveSubtree -> Prop :=
| quiet_skip L a edges e t : stack = L ++ [a] -> vget vs (a_vertex a) = Done edges -> vget edges (a_edgeIndex a) = Done e -> term_at alphabet (e_term e) = Done t ->
    hasFixedLength t = false -> quiet stack (L ++ [with_edgeIndex a (a_edgeIndex a + 1)])
| quiet_push L a edges e : stack = L ++ [a] -> vget vs (a_vertex a) = Done edges -> vget edges (a_edgeIndex a) = Done e -> (exists ce, vget vs (e_child e) = Done ce) ->
    quiet stack (L ++ [a; mkActiveSubtree (e_child e) None 0])
| quiet_pop L a top edges edges' : stack = L ++ [a; top] -> vget vs (a_vertex a) = Done edges -> a_edgeIndex a < vsize edges -> vget vs (a_vertex top) = Done edges' -> edges' <> [] -> vsize edges' <= a_edgeIndex top ->
    quiet stack (L ++ [with_edgeIndex a (a_edgeIndex a + 1)])
| quiet_end top edges : stack = [top] -> vget vs (a_vertex top) = Done edges -> edges <> [] -> vsize edges <= a_edgeIndex top -> quiet stack [].

Lemma vsize_nonempty {A} (l : list A) : l <> [] -> 1 <= vsize l.
Proof. destruct l; [done|]. rewrite vsize_cons. pose proof (vsize_nonneg l). lia. Qed.

(** The last entry, one edge further. *)
Lemma ahead_step a edges : vget vs (a_vertex a) = Done edges -> fixed_path (a_vertex a) -> a_edgeIndex a < vsize edges - 1 -> ahead [with_edgeIndex a (a_edgeIndex a + 1)].
Proof.
  intros Hv Hp Hi. destruct (Z.eq_dec (a_edgeIndex a + 1) (vsize edges - 1)) as [E|E].
  - eapply ahead_last; [done|done|]. by right.
  - eapply ahead_here; [done|done|]. cbn. lia.
Qed.

(** A change above an entry that is not at its last edge does not matter; below, induction. *)
Lemma ahead_frame L x l y l' : (ahead (x :: l) -> ahead (y :: l')) -> ahead (L ++ x :: l) -> ahead (L ++ y :: l').
Proof.
  intros Hxy. induction L as [|z L IH]; [done|]. cbn [app]. intros Ha. remember (z :: L ++ x :: l) as stack eqn:E0. destruct Ha as [a rest edges Hv Hp Hi|a edges Hv Hp Hi|a b rest edges Hv Hi Hr]; injection E0 as -> E0.
  - by eapply ahead_here.
  - by destruct L.
  - rewrite E0 in Hr. apply IH in Hr as Hr'. destruct (L ++ y :: l') as [|b' r'] eqn:E; [by destruct L|]. by eapply ahead_down.
Qed.

Lemma quiet_ahead stack stack' : ahead stack -> quiet stack stack' -> ahead stack'.
Proof.
  intros Ha Hq. destruct Hq as [L a edges e t -> Hv He Ht Hfx|L a edges e -> Hv He [ce Hce]|L a top edges edges' -> Hv Hi Hv' Hne Hi'|top edges -> Hv Hne Hi].
  - revert Ha. apply ahead_frame. intros Ha. inversion Ha as [? ? r Hr Hp Hi|? r Hr Hp Hi|]; subst; rewrite Hv in Hr; injection Hr as <-; [by eapply ahead_step|].
    exfalso. destruct Hi as [->|Hi]; [by apply vget_Done in He as [_ He]|]. inversion Hp as [? Hl|? r e' t' Hr Hl Ht' Hfx']; subst.
    + rewrite Hv in Hl. injection Hl as ->. by apply vget_Done in He as [_ He].
    + rewrite Hv in Hr. injection Hr as <-. unfold vlast in Hl. rewrite <- Hi, He in Hl. injection Hl as <-. congruence.
  - revert Ha. apply ahead_frame. intros Ha. inversion Ha as [? ? r Hr Hp Hi|? r Hr Hp Hi|]; subst; rewrite Hv in Hr; injection Hr as <-; [by eapply ahead_here|].
    destruct Hi as [->|Hi]; [by apply vget_Done in He as [_ He]|]. inversion Hp as [? Hl|? r e' t' Hr Hl Ht' Hfx' Hch]; subst.
    + rewrite Hv in Hl. injection Hl as ->. by apply vget_Done in He as [_ He].
    + rewrite Hv in Hr. injection Hr as <-. unfold vlast in Hl. rewrite <- Hi, He in Hl. injection Hl as <-. eapply ahead_down; [done|done|].
      destruct ce as [|c [|c' ce]]; [eapply ahead_last; [done|done|by left]|eapply ahead_last; [done|done|by right]|].
      eapply ahead_here; [done|done|]. cbn. rewrite !vsize_cons. pose proof (vsize_nonneg ce). lia.
  - revert Ha. apply ahead_frame. intros Ha. inversion Ha as [? ? r Hr Hp Hi0|?|? b rest r Hr Hi0 Hr0]; subst; rewrite Hv in Hr; injection Hr as <-; [by eapply ahead_step|].
    exfalso. apply vsize_nonempty in Hne as Hs. inversion Hr0 as [? ? r Hr Hp Hi1|? r Hr Hp Hi1|]; subst; rewrite Hv' in Hr; injection Hr as <-; [lia|]. destruct Hi1 as [->|Hi1]; [done|lia].
  - exfalso. apply vsize_nonempty in Hne as Hs. inversion Ha as [? ? r Hr Hp Hi1|? r Hr Hp Hi1|]; subst; rewrite Hv in Hr; injection Hr as <-; [lia|]. destruct Hi1 as [->|Hi1]; [done|lia].
Qed.
End Ahead.

(** ** Live edges *)

Definition live (vs : list PrefixTreeVertex) : nat := sum_list_with (fun edges => length (remove_marked edges)) vs.

Lemma insert_middle {A} (l : list A) i x y : l !! i = Some x -> exists l1 l2, l = l1 ++ x :: l2 /\ <[i := y]> l = l1 ++ y :: l2.
Proof. revert i. induction l as [|z l IH]; intros [|i] E; [done|done|injection E as ->; by exists [], l|]. destruct (IH i E) as (l1 & l2 & -> & E'). exists (z :: l1), l2. split; [done|]. change (z :: <[i := y]> (l1 ++ x :: l2) = z :: l1 ++ y :: l2). by rewrite E'. Qed.

Lemma live_insert vs v old new : vget vs v = Done old -> (live (<[Z.to_nat v := new]> vs) + length (remove_marked old) = live vs + length (remove_marked new))%nat.
Proof.
  intros [_ Hv]%vget_Done. unfold live. destruct (insert_middle vs _ _ new Hv) as (l1 & l2 & -> & ->). rewrite !sum_list_with_app. cbn. lia.
Qed.

Lemma remove_marked_clean edges : (forall e, e ∈ edges -> e_term e <> None) -> remove_marked edges = edges.
Proof.
  induction edges as [|e edges IH]; intros Hc; [done|]. unfold remove_marked in *. cbn [List.filter]. destruct (e_term e) eqn:E; [|exfalso; apply (Hc e); [left|done]]. f_equal. apply IH. intros x Hx. apply Hc. by right.
Qed.

Lemma remove_marked_twice edges : remove_marked (remove_marked edges) = remove_marked edges.
Proof. apply remove_marked_clean. by intros e [_ ?]%remove_marked_spec. Qed.

Lemma remove_marked_mark edges i e : vget edges i = Done e -> e_term e <> None ->
  length (remove_marked edges) = S (length (remove_marked (<[Z.to_nat i := mkPrefixTreeEdge None (e_child e)]> edges))).
Proof.
  intros [_ Hi]%vget_Done He. destruct (insert_middle edges _ _ (mkPrefixTreeEdge None (e_child e)) Hi) as (l1 & l2 & -> & ->).
  unfold remove_marked. rewrite !List.filter_app. cbn [List.filter e_term]. destruct (e_term e); [|done]. rewrite !length_app. cbn. lia.
Qed.
