(* ===== verification/SubtreeLoop.v ===== *)
(** * The loop of the subtree walk *)

From stdpp Require Import gmap.
From S2P Require Import Prelude Containers RangeList RangeListProofs Nfa NfaProofs Term TermGraph TermCorrect CombinedFilters CombinedFiltersProofs NfaSkeleton PrefixTreeNet.
From S2P Require Import SubtreeStack SubtreeWalk SubtreeMeasure.

#[local] Arguments vsize {A} v : simpl never.

Section Loop.
Context `{HashOrder} (f : CombinedURLFilters) (Hf : tree_ok f).
Implicit Types (k : net) (lab : Z -> label) (vs : list PrefixTreeVertex) (a : ActiveSubtree).

Abbreviation alphabet := (m_alphabet f).
Abbreviation acts := (m_filterActions f).

(** No edge is marked. *)
Definition clean vs : Prop := forall v edges e, vget vs v = Done edges -> e ∈ edges -> e_term e <> None.

(** What an iteration does to the tree. *)
Definition progress vs stack (tooBig : bool) vs' stack' (tooBig' : bool) : Prop :=
  (live vs' < live vs)%nat \/ (live vs' = live vs /\ (clean vs -> tooBig = false -> vs' = vs /\ tooBig' = false /\ quiet alphabet vs stack stack')).

(** One iteration, from the invariant to the invariant. *)
Definition iterates (D : Z -> Prop) (s : subtree_state) (tooBig : bool) k lab (result : outcome (subtree_state * bool)) : Prop :=
  exists s' tooBig' V' inv' bs' k' lab', result = Done (s', tooBig') /\ walk f D s' V' inv' bs' k' lab' /\ grows k lab k' lab' /\
    move (ss_vertices s) (ss_stack s) (ss_vertices s') (ss_stack s') /\ progress (ss_vertices s) (ss_stack s) tooBig (ss_vertices s') (ss_stack s') tooBig'.

Lemma vset_last {A} (L : list A) x y : vset (L ++ [x]) (vsize (L ++ [x]) - 1) y = Done (L ++ [y]).
Proof.
  rewrite vset_Done by (unfold vsize; rewrite length_app; cbn; lia). replace (Z.to_nat (vsize (L ++ [x]) - 1)) with (length L) by (unfold vsize; rewrite length_app; cbn; lia).
  by rewrite insert_app_r_alt, Nat.sub_diag by lia.
Qed.

(** *** More edges at the top *)

Lemma step_edge D s V inv bs k lab L a tooBig max edges e : walk f D s V inv bs k lab -> V ++ inv = L ++ [a] -> vget (ss_vertices s) (a_vertex a) = Done edges -> vget edges (a_edgeIndex a) = Done e ->
  iterates D s tooBig k lab (subtree_step alphabet acts max s a tooBig).
Proof.
  intros W E Hv He. pose proof (vget_range _ _ _ He) as Hi. assert (Hst : ss_stack s = L ++ [a]) by (rewrite (wk_stack _ _ _ _ _ _ _ _ W); done).
  unfold subtree_step. rewrite Hv. cbn [obind]. destruct (Z.ltb_spec (a_edgeIndex a) (vsize edges)); [|lia]. rewrite He. cbn [obind]. rewrite Hst.
  assert (Hindex : forall i, a_edgeIndex a < i <= vsize edges -> exists V' inv', walk f D (set_nfa_stack s (ss_nfa s) (L ++ [with_edgeIndex a i])) V' inv' bs k lab).
  { intros i Hi'. destruct (walk_index_top f D s V inv bs k lab L a i edges W E Hv) as (V' & inv' & _ & _ & W'); [lia|]. eauto. }
  destruct tooBig.
  - rewrite vset_last. cbn [obind]. destruct (Hindex (vsize edges)) as (V' & inv' & W'); [lia|]. eexists _, true, V', inv', bs, k, lab. split; [done|]. cbn. split_and!; [done|apply grows_refl|rewrite Hst; by eapply move_index; [..|done]|].
    right. split; [done|]. done.
  - destruct (walk_unmarked f Hf _ _ _ _ _ _ _ a edges (a_edgeIndex a) e W) as (t & Ht & Hte); [rewrite E; apply elem_of_app; right; left|done|done|lia|]. rewrite Ht. cbn [obind].
    destruct (hasFixedLength t) eqn:Efx; cbn [negb].
    + eexists _, false, V, _, bs, k, lab. split; [done|]. rewrite <- app_assoc. cbn [app]. split; [by eapply (walk_push f Hf)|]. cbn. split_and!; [apply grows_refl|rewrite Hst; by eapply move_push|].
      right. split; [done|]. intros _ _. split_and!; [done|done|]. rewrite Hst. eapply quiet_push; [done|done|done|].
      apply vget_Done in He as [_ He]. apply list_elem_of_lookup_2 in He. pose proof (shrunk_child f Hf _ _ _ _ (wk_shrunk _ _ _ _ _ _ _ _ W) Hv He) as Hc.
      destruct (vget_total (ss_vertices s) (e_child e)) as (r & Hr & _); [apply vget_range in Hv; lia|]. eauto.
    + rewrite vset_last. cbn [obind]. destruct (Hindex (a_edgeIndex a + 1)) as (V' & inv' & W'); [lia|]. eexists _, false, V', inv', bs, k, lab. split; [done|]. cbn.
      split_and!; [done|apply grows_refl|rewrite Hst; eapply move_index; [done|done|lia|done]|]. right. split; [done|]. intros _ _. split_and!; [done|done|]. rewrite Hst. by eapply quiet_skip.
Qed.

(** *** Leaving a vertex *)

Lemma live_advance vs a edges e (ce : list PrefixTreeEdge) : vget vs (a_vertex a) = Done edges -> vget edges (a_edgeIndex a) = Done e -> e_term e <> None ->
  let vs' := <[Z.to_nat (a_vertex a) := <[Z.to_nat (a_edgeIndex a) := match ce with [] => mkPrefixTreeEdge None (e_child e) | _ => e end]> edges]> vs in
  (ce = [] -> live vs' < live vs)%nat /\ (ce <> [] -> vs' = vs).
Proof.
  intros Hv He Ht vs'. split.
  - intros ->. pose proof (live_insert vs _ _ (<[Z.to_nat (a_edgeIndex a) := mkPrefixTreeEdge None (e_child e)]> edges) Hv) as Hl. pose proof (remove_marked_mark edges _ _ He Ht). fold vs' in Hl. lia.
  - intros Hce. unfold vs'. destruct ce; [done|]. rewrite (list_insert_id edges) by (by apply vget_Done in He as [_ ?]). apply list_insert_id. by apply vget_Done in Hv as [_ ?].
Qed.

Lemma step_pop D s V inv bs k lab L a tooBig max edges : walk f D s V inv bs k lab -> V ++ inv = L ++ [a] -> vget (ss_vertices s) (a_vertex a) = Done edges -> edges <> [] -> vsize edges <= a_edgeIndex a ->
  iterates D s tooBig k lab (subtree_step alphabet acts max s a tooBig).
Proof.
  intros W E Hv Hne Hi. pose proof (vget_range _ _ _ Hv) as Hr. assert (Hst : ss_stack s = L ++ [a]) by (rewrite (wk_stack _ _ _ _ _ _ _ _ W); done).
  unfold subtree_step. rewrite Hv. cbn [obind]. destruct (Z.ltb_spec (a_edgeIndex a) (vsize edges)); [lia|]. rewrite vset_Done by done. cbn [obind].
  destruct (walk_pop f Hf D s V inv bs k lab L a edges W E Hv Hne) as (nfa' & V' & inv' & bs' & Ed & E' & W' & Hperf). cbn [ss_nfa ss_stack].
  replace (match edges with [] => _ | _ :: _ => _ end) with (let* nfa := destroy (ss_nfa s) (a_nfaNode a) in
    let* s2 := mark_processed (mkSubtreeState nfa (<[Z.to_nat (a_vertex a) := remove_marked edges]> (ss_vertices s)) (ss_tree s) (take (Nat.pred (length (ss_stack s))) (ss_stack s))) in Done (s2, tooBig)) by (by destruct edges).
  rewrite Ed. cbn [obind]. rewrite Hst, length_app. cbn [length]. replace (Nat.pred (length L + 1)) with (length L) by lia. rewrite take_app_length.
  set (vs1 := <[_ := _]> (ss_vertices s)) in *. assert (Hlive : live vs1 = live (ss_vertices s)). { pose proof (live_insert _ _ _ (remove_marked edges) Hv) as Hl. fold vs1 in Hl. rewrite remove_marked_twice in Hl. lia. }
  assert (Hclean : clean (ss_vertices s) -> vs1 = ss_vertices s /\ remove_marked edges = edges).
  { intros Hc. assert (Hm : remove_marked edges = edges) by (apply remove_marked_clean; intros x Hx; by eapply Hc). split; [|done]. unfold vs1. rewrite Hm. apply list_insert_id. by apply vget_Done in Hv as [_ ?]. }
  destruct L as [|p L _] using rev_ind.
  - cbn. eexists _, tooBig, V', inv', bs', k, lab. split; [done|]. cbn. split_and!; [done|apply grows_refl| |].
    + rewrite Hst. eapply (move_end _ _ _ a); [done|]. intros v Hva. unfold vs1. rewrite vget_insert by done. by destruct (Z.eqb_spec v (a_vertex a)).
    + right. split; [done|]. intros Hc Hb. split_and!; [by apply Hclean|done|]. rewrite Hst. by eapply quiet_end.
  - pose proof (wk_chain _ _ _ _ _ _ _ _ W) as Hch. rewrite E, <- app_assoc in Hch. apply chain_snoc in Hch as [Hch (t & e & He & Hc & Ht)]. apply active_edge_Done in He as (pe & Hpe & He).
    assert (Hlt : a_vertex p < a_vertex a). { eapply (link_less f Hf). { apply W. } { exists e. split_and!; [apply active_edge_Done; eauto|done|done]. } }
    assert (Hpe1 : vget vs1 (a_vertex p) = Done pe). { unfold vs1. rewrite vget_insert by done. destruct (Z.eqb_spec (a_vertex p) (a_vertex a)); [lia|done]. }
    assert (Hce1 : vget vs1 (e_child e) = Done (remove_marked edges)). { unfold vs1. rewrite vget_insert, Hc, Z.eqb_refl by done. done. }
    assert (Het : e_term e <> None) by (intros Hn; by rewrite Hn in Ht).
    rewrite (mark_processed_spec _ L p pe e (remove_marked edges)) by done. cbn [obind ss_nfa ss_vertices ss_tree].
    destruct (walk_advance f Hf D _ V' inv' bs' k lab L p pe e (remove_marked edges) W' E' Hpe1 He Hce1) as (V2 & inv2 & E2 & W2); [intros Hm; rewrite Hc; by apply Hperf|]. cbn [ss_nfa ss_vertices ss_tree] in W2.
    eexists _, tooBig, V2, inv2, bs', k, lab. split; [done|]. split; [exact W2|]. cbn. destruct (live_advance vs1 p pe e (remove_marked edges) Hpe1 He Het) as [Hl1 Hl2]. cbn zeta in Hl1, Hl2. set (vs2 := <[_ := _]> vs1) in *.
    pose proof (vget_range _ _ _ He) as Hpi. pose proof (vget_range _ _ _ Hpe1) as Hpr. split_and!; [apply grows_refl| |].
    + rewrite Hst, <- app_assoc. eapply (move_drop _ _ _ L p [a] L p pe); [done|done|apply same_shape_refl|done| |done|done| |].
      * intros v Hvn. rewrite !map_cons in Hvn. unfold vs2. rewrite vget_insert by done. destruct (Z.eqb_spec v (a_vertex p)) as [->|]; [exfalso; apply Hvn; left|]. unfold vs1. rewrite vget_insert by done.
        destruct (Z.eqb_spec v (a_vertex a)) as [->|]; [exfalso; apply Hvn; right; left|done].
      * unfold vs2. by rewrite vget_insert, Z.eqb_refl by done.
      * apply (map_child_insert _ _ e); [done|]. by destruct (remove_marked edges).
    + destruct (remove_marked edges) as [|m ms] eqn:Em; [left; specialize (Hl1 eq_refl); lia|]. specialize (Hl2 ltac:(done)). right. split; [congruence|]. intros Hcl Hb. destruct (Hclean Hcl) as [Hvs Hm].
      split_and!; [congruence|done|]. rewrite Hst, <- app_assoc. eapply quiet_pop; [done|done|lia|done|done|done].
Qed.

(** *** A leaf *)

Lemma live_cleared vs inv : Forall (fun a => 0 <= a_vertex a < vsize vs) inv -> (live (cleared vs inv) <= live vs)%nat.
Proof.
  induction 1 as [|a inv Ha Hi IH]; [done|]. cbn [cleared foldr]. fold (cleared vs inv). destruct (cleared_vget vs inv Hi) as [Hsz _].
  destruct (vget_total (cleared vs inv) (a_vertex a)) as (old & Ho & _); [by rewrite Hsz|]. pose proof (live_insert _ _ _ [] Ho). change (length (remove_marked [])) with 0%nat in *. lia.
Qed.

Lemma snoc_eq {A} (l : list A) : l <> [] -> exists l0 x, l = l0 ++ [x].
Proof. destruct l as [|x l _] using rev_ind; [done|]. eauto. Qed.

Lemma step_leaf D s V inv bs k lab L a tooBig max : walk f D s V inv bs k lab -> V ++ inv = L ++ [a] -> vget (ss_vertices s) (a_vertex a) = Done [] ->
  iterates D s tooBig k lab (subtree_step alphabet acts max s a tooBig).
Proof.
  intros W E Hv. assert (Hst : ss_stack s = L ++ [a]) by (rewrite (wk_stack _ _ _ _ _ _ _ _ W); done). unfold subtree_step. rewrite Hv. cbn [obind].
  assert (Hi : 0 <= a_edgeIndex a). { destruct (wk_index _ _ _ _ _ _ _ _ W a) as (r & _ & Hr); [rewrite E; apply elem_of_app; right; left|lia]. }
  change (vsize (@nil PrefixTreeEdge)) with 0. destruct (Z.ltb_spec (a_edgeIndex a) 0); [lia|]. rewrite vset_Done by (by eapply vget_range). cbn [obind remove_marked List.filter].
  rewrite list_insert_id by (by apply vget_Done in Hv as [_ ?]). replace (mkSubtreeState (ss_nfa s) (ss_vertices s) (ss_tree s) (ss_stack s)) with s by (by destruct s).
  destruct (walk_split_top f Hf _ _ _ _ _ _ _ _ _ W E) as [(bs0 & b & -> & -> & _)|(inv0 & -> & -> & _ & _ & _)].
  { exfalso. apply (wk_full _ _ _ _ _ _ _ _ W a); [apply elem_of_app; right; left|done]. }
  destruct (snoc_eq V) as (V0 & valid & ->). { intros ->. pose proof (wk_bottom _ _ _ _ _ _ _ _ W eq_refl) as Hb. symmetry in Hb. by apply app_cons_not_nil in Hb. }
  pose proof (wk_nodes _ _ _ _ _ _ _ _ W) as Hbs. apply Forall2_app_inv_l in Hbs as (bs0 & b2 & _ & H2 & ->). inversion H2 as [|? b ? ? _ Hn]; subst. inversion Hn; subst. clear H2 Hn.
  destruct (walk_infix f _ _ _ _ _ _ _ _ _ _ W) as (nfa1 & V1 & gen & inv1 & bs1 & k1 & lab1 & E1 & Einv & Hsh & G1 & Hsr & W1). rewrite E1. cbn [obind]. set (s1 := set_nfa_stack s nfa1 _) in *.
  destruct (snoc_eq V1) as (V1' & valid1 & ->). { intros ->. apply Forall2_length in Hsh. rewrite !length_app in Hsh. cbn in Hsh. lia. }
  pose proof (wk_nodes _ _ _ _ _ _ _ _ W1) as Hbs. apply Forall2_app_inv_l in Hbs as (bs1' & b2 & _ & H2 & ->). inversion H2 as [|? b1 ? ? _ Hn]; subst b2. inversion Hn; subst. clear H2 Hn.
  destruct (walk_suffix f Hf _ _ _ _ _ _ _ _ _ _ W1 Hsr Hv) as (s2 & b' & k2 & lab2 & E2 & Hvs2 & G2 & W2 & Hperf). rewrite E2. cbn [obind].
  pose proof (wk_chain _ _ _ _ _ _ _ _ W1) as Hch. pose proof (wk_shrunk _ _ _ _ _ _ _ _ W1) as Hs1. change (ss_vertices s1) with (ss_vertices s) in *. rewrite <- app_assoc in Hch. cbn [app] in Hch.
  assert (Hin1 : Forall (fun a => 0 <= a_vertex a < vsize (ss_vertices s)) inv1). { apply chain_drop, chain_tail in Hch. by apply chain_bounds in Hch. }
  destruct (cleared_vget _ _ Hin1) as [Hsz Hcl]. rewrite <- Hvs2 in Hsz, Hcl.
  destruct (inv1 ++ [a]) as [|x0 M] eqn:EM; [by destruct inv1|]. assert (Hx0 : x0 ∈ inv1 ++ [a]) by (rewrite EM; left).
  pose proof Hch as Hch0. apply chain_drop in Hch0. destruct Hch0 as [(t & e & He & Hc & Ht) _]. apply active_edge_Done in He as (ve & Hve & He).
  set (top := with_node valid1 b') in *. assert (Hlow : forall y, y ∈ inv1 ++ [a] -> a_vertex valid1 < a_vertex y).
  { intros y Hy. rewrite EM in Hy. replace (V1' ++ valid1 :: x0 :: M) with ((V1' ++ [valid1]) ++ x0 :: M) in Hch by (by rewrite <- app_assoc). eapply (chain_apart f Hf); [exact Hs1|exact Hch| |done]. apply elem_of_app. right. left. }
  assert (Hve2 : vget (ss_vertices s2) (a_vertex top) = Done ve).
  { rewrite Hcl, bool_decide_false; [done|]. intros (y & Ey & Hy)%list_elem_of_fmap. assert (a_vertex valid1 < a_vertex y) by (apply Hlow, elem_of_app; by left). cbn in Ey. lia. }
  assert (Hce : vget (ss_vertices s2) (e_child e) = Done []).
  { rewrite Hc, Hcl. case_bool_decide as Hm; [done|]. apply elem_of_app in Hx0 as [Hx0| ->%list_elem_of_singleton]; [|done]. exfalso. apply Hm. by apply list_elem_of_fmap_2. }
  assert (Hst2 : ss_stack s2 = V1' ++ [top]) by (rewrite (wk_stack _ _ _ _ _ _ _ _ W2), app_nil_r; done).
  rewrite (mark_processed_spec _ V1' top ve e []) by done. cbn [obind].
  destruct (walk_advance f Hf D s2 _ _ _ k2 lab2 V1' top ve e [] W2 ltac:(by rewrite app_nil_r) Hve2 He Hce) as (V3 & inv3 & E3 & W3); [intros _; split; [done|rewrite Hc; apply Hperf; left]|].
  eexists _, _, V3, inv3, _, k2, lab2. split; [done|]. split; [exact W3|]. split; [by eapply grows_trans|]. cbn [ss_vertices ss_stack].
  pose proof (vget_range _ _ _ Hve2) as Hvr. pose proof (vget_range _ _ _ He) as Hei. split.
  - assert (Hshape : exists W0 w, (V0 ++ [valid]) ++ gen = W0 ++ [w] /\ Forall2 same_entry W0 V1' /\ same_entry w valid1).
    { apply Forall2_app_inv_r in Hsh as (W0 & w1 & HA & HB & Ew). inversion HB as [|w ? w' ? Hw Hw']; subst. inversion Hw'; subst. by exists W0, w. }
    destruct Hshape as (W0 & w & Ew & HW0 & Hw). assert (Est : ss_stack s = W0 ++ w :: x0 :: M).
    { rewrite Hst. transitivity (((V0 ++ [valid]) ++ gen) ++ inv1 ++ [a]); [by rewrite <- !app_assoc|]. by rewrite Ew, EM, <- app_assoc. }
    rewrite Est. destruct Hw as [Hw1 Hw2].
    eapply (move_drop _ _ _ W0 w (x0 :: M) V1' top ve); [done|done|done|done| |by rewrite Hw1|rewrite Hw2; lia| |].
    + intros v Hvn. rewrite map_cons in Hvn. apply not_elem_of_cons in Hvn as [Hvw Hvm]. rewrite vget_insert by done. destruct (Z.eqb_spec v (a_vertex top)) as [->|]; [cbn in Hvw; congruence|].
      rewrite Hcl, bool_decide_false; [done|]. intros (y & -> & Hy)%list_elem_of_fmap. apply Hvm. rewrite <- EM. apply list_elem_of_fmap_2, elem_of_app. by left.
    + rewrite Hw1. change (a_vertex top) with (a_vertex valid1) in *. by rewrite vget_insert, Z.eqb_refl by done.
    + by apply (map_child_insert _ _ e).
  - left. destruct (live_advance (ss_vertices s2) top ve e [] Hve2 He) as [Hl _]; [intros Hn; by rewrite Hn in Ht|]. specialize (Hl eq_refl). cbn zeta in Hl. pose proof (live_cleared _ _ Hin1) as Hlc. rewrite <- Hvs2 in Hlc. lia.
Qed.

(** ** The whole loop *)

Lemma walk_step D s V inv bs k lab L a tooBig max : walk f D s V inv bs k lab -> V ++ inv = L ++ [a] -> iterates D s tooBig k lab (subtree_step alphabet acts max s a tooBig).
Proof.
  intros W E. destruct (wk_index _ _ _ _ _ _ _ _ W a) as (edges & Hv & Hi); [rewrite E; apply elem_of_app; right; left|].
  destruct (decide (a_edgeIndex a < vsize edges)) as [Hlt|Hge].
  - destruct (vget_total edges (a_edgeIndex a)) as (e & He & _); [lia|]. by eapply step_edge.
  - destruct edges as [|e edges]; [by eapply step_leaf|]. eapply step_pop; [done|done|done|done|lia].
Qed.

(** What the loop does not touch. *)
Lemma move_above vs stack vs' stack' R : shrunk f vs -> move vs stack vs' stack' -> (forall a, a ∈ stack -> R <= a_vertex a) ->
  (forall a, a ∈ stack' -> R <= a_vertex a) /\ forall v, v < R -> vget vs' v = vget vs v.
Proof.
  intros Hs Hm HR. destruct Hm as [L a i edges -> Hv Hi ->|L a edges e -> Hv He ->|L a M L' a' edges edges' -> HM HL [Ha _] Hvs Hv Hi Hv' Hmap|a -> Hvs].
  - split; [|done]. intros x [Hx| ->%list_elem_of_singleton]%elem_of_app; [apply HR, elem_of_app; by left|]. apply (HR a), elem_of_app. right. left.
  - split; [|done]. intros x Hx. change (L ++ [a; ?c]) with (L ++ [a] ++ [c]) in Hx. rewrite app_assoc in Hx. apply elem_of_app in Hx as [Hx| ->%list_elem_of_singleton]; [by apply HR|]. cbn.
    apply vget_Done in He as [_ He]. apply list_elem_of_lookup_2 in He. pose proof (shrunk_child f Hf _ _ _ _ Hs Hv He). assert (R <= a_vertex a) by (apply HR, elem_of_app; right; left). lia.
  - split.
    + intros x [Hx| ->%list_elem_of_singleton]%elem_of_app; [destruct (same_shape_elem_r _ _ _ HL Hx) as (x' & Hx' & <- & _); apply HR, elem_of_app; by left|]. cbn. rewrite <- Ha. apply HR, elem_of_app. right. left.
    + intros v Hlt. apply Hvs. intros (y & -> & Hy)%list_elem_of_fmap. assert (R <= a_vertex y) by (apply HR, elem_of_app; by right). lia.
  - split; [by intros x ?%elem_of_nil|]. intros v Hlt. apply Hvs. intros ->. specialize (HR a ltac:(left)). lia.
Qed.

Lemma subtree_loop_spec D max vs0 R : clean vs0 -> forall fuel s tooBig V inv bs k lab unseen,
  walk f D s V inv bs k lab -> unseen_ok unseen (ss_vertices s) (ss_stack s) -> (todo (ss_vertices s) unseen (ss_stack s) <= fuel)%nat -> (forall a, a ∈ ss_stack s -> R <= a_vertex a) ->
  (live (ss_vertices s) < live vs0)%nat \/ (ss_vertices s = vs0 /\ tooBig = false /\ ahead alphabet vs0 (ss_stack s)) ->
  exists s' k' lab', subtree_loop alphabet acts fuel max s tooBig = Done s' /\ walk f D s' [] [] [] k' lab' /\ grows k lab k' lab' /\ (live (ss_vertices s') < live vs0)%nat /\
    forall v, v < R -> vget (ss_vertices s') v = vget (ss_vertices s) v.
Proof.
  intros Hclean. induction fuel as [|fuel IH]; intros s tooBig V inv bs k lab unseen W Hu Hfuel HR Hprog.
  - destruct (ss_stack s) as [|a l] eqn:Est; [|unfold todo in Hfuel; cbn in Hfuel; lia]. cbn [subtree_loop]. rewrite Est. pose proof (wk_stack _ _ _ _ _ _ _ _ W) as E. rewrite Est in E. symmetry in E. apply app_eq_nil in E as [-> ->].
    pose proof (wk_nodes _ _ _ _ _ _ _ _ W) as Hn. inversion Hn; subst. exists s, k, lab. split_and!; [done|done|apply grows_refl| |done]. destruct Hprog as [?|(_ & _ & Ha)]; [done|inversion Ha].
  - cbn [subtree_loop]. destruct (ss_stack s) as [|a0 l] eqn:Est.
    { pose proof (wk_stack _ _ _ _ _ _ _ _ W) as E. rewrite Est in E. symmetry in E. apply app_eq_nil in E as [-> ->].
      pose proof (wk_nodes _ _ _ _ _ _ _ _ W) as Hn. inversion Hn; subst. exists s, k, lab. split_and!; [done|done|apply grows_refl| |done]. destruct Hprog as [?|(_ & _ & Ha)]; [done|inversion Ha]. }
    destruct (snoc_eq (a0 :: l)) as (L & a & E); [done|]. rewrite E in *. clear a0 l E.
    replace (vget (L ++ [a]) (vsize (L ++ [a]) - 1)) with (Done a) by (symmetry; apply vget_at_middle; unfold vsize; rewrite length_app; cbn; lia). cbn [obind].
    assert (EV : V ++ inv = L ++ [a]) by (rewrite <- (wk_stack _ _ _ _ _ _ _ _ W); done).
    destruct (walk_step D s V inv bs k lab L a tooBig max W EV) as (s' & tooBig' & V' & inv' & bs' & k1 & lab1 & Es & W' & G & Hm & Hp). rewrite Es. cbn [obind]. rewrite Est in Hm, Hp.
    pose proof (wk_shrunk _ _ _ _ _ _ _ _ W) as Hs. pose proof (wk_chain _ _ _ _ _ _ _ _ W) as Hch. rewrite EV in Hch.
    assert (Hidx : forall x, x ∈ L ++ [a] -> 0 <= a_edgeIndex x). { intros x Hx. destruct (wk_index _ _ _ _ _ _ _ _ W x) as (r & _ & Hr); [by rewrite EV|lia]. }
    destruct (move_decreases f Hf unseen _ _ _ _ Hs Hch Hu Hidx Hm) as (unseen' & Hu' & Htodo).
    destruct (move_above _ _ _ _ R Hs Hm HR) as [HR' Hsame].
    destruct (IH s' tooBig' V' inv' bs' k1 lab1 unseen' W' Hu') as (s'' & k' & lab' & E' & W'' & G' & Hl & Hsame'); [lia|done| |].
    + destruct Hp as [Hp|[Hp Hq]].
      * left. destruct Hprog as [Hl|(Hv0 & _)]; [lia|]. by rewrite Hv0 in Hp.
      * destruct Hprog as [Hl|(Hv0 & Hb & Ha)]; [left; lia|]. right. rewrite Hv0 in Hq. destruct (Hq Hclean Hb) as (Hv1 & Hb1 & Hquiet). split_and!; [done|done|]. by eapply quiet_ahead.
    + exists s'', k', lab'. split_and!; [done|done|by eapply grows_trans|done|]. intros v Hlt. rewrite Hsame' by done. by apply Hsame.
Qed.

(** ** [generateNFAForSubtree] *)

Lemma sizes_sum vs : sum_list_with (size_at vs) (seqZ 0 (vsize vs)) = sum_list_with length vs.
Proof.
  induction vs as [|edges vs IH] using rev_ind; [done|]. rewrite vsize_app. change (vsize [edges]) with 1. rewrite seqZ_app by (pose proof (vsize_nonneg vs); lia). rewrite !sum_list_with_app. f_equal.
  - rewrite <- IH. apply sum_list_with_ext. intros v Hv%elem_of_seqZ. unfold size_at. by rewrite vget_app_l by lia.
  - rewrite seqZ_cons, seqZ_nil by lia. cbn [sum_list_with]. unfold size_at. by rewrite vget_app_here by lia.
Qed.

Lemma initial_fuel vs R edges : vget vs R = Done edges -> (todo vs (seqZ (R + 1) (vsize vs - R - 1)) [mkActiveSubtree R None 0] <= subtree_fuel vs)%nat.
Proof.
  intros Hv. pose proof (vget_range _ _ _ Hv) as Hr. unfold todo, subtree_fuel. pose proof (sizes_sum vs) as Hs. replace (vsize vs) with (R + (vsize vs - R)) in Hs by lia. rewrite seqZ_app in Hs by lia.
  rewrite (seqZ_cons (0 + R)) in Hs by lia. rewrite sum_list_with_app in Hs. cbn [sum_list_with] in Hs. replace (Z.succ (0 + R)) with (R + 1) in Hs by lia. replace (Z.pred (vsize vs - R)) with (vsize vs - R - 1) in Hs by lia.
  set (l := seqZ (R + 1) (vsize vs - R - 1)) in *. assert (Hl : forall l, sum_list_with (fun v => 2 + size_at vs v)%nat l = (2 * length l + sum_list_with (size_at vs) l)%nat).
  { clear. induction l as [|x l IHl]; [done|]. cbn [sum_list_with length]. lia. }
  assert (Hlen : (length l <= length vs)%nat). { unfold l. rewrite length_seqZ. unfold vsize in *. lia. }
  rewrite Hl. cbn [sum_list_with]. unfold entry_work. cbn [a_vertex a_edgeIndex]. replace (0 + R) with R in Hs by lia. lia.
Qed.

(** The net of the prefix and the subtree. *)
Lemma generateNFAForSubtree_spec D max nfa vs b k lab R : shrunk f vs -> clean vs -> covered f D k vs -> nfa_ok f nfa [b] emptyReverseSuffixTree k lab ->
  lab (b_nodeId b) = Fwd R -> forward f k (b_nodeId b) R -> fixed_path alphabet vs R -> 0 <= R < vsize vs ->
  exists nfa' vs' k' lab', generateNFAForSubtree alphabet acts max nfa vs b R = Done (nfa', vs') /\ building nfa' [] k' /\ net_sound f k' lab' /\ grows k lab k' lab' /\
    shrunk f vs' /\ clean vs' /\ covered f D k' vs' /\ (forall v, v < R -> vget vs' v = vget vs v) /\ (vget vs R = Done [] /\ vs' = vs \/ (live vs' < live vs)%nat).
Proof.
  intros Hs Hc Hcov Hok Hlab Hfw Hfx HR. unfold generateNFAForSubtree. destruct (vget_total vs R HR) as (edges & Hv & _). rewrite Hv. cbn [obind].
  destruct edges as [|e0 edges0] eqn:Ee.
  { destruct (nfa_ok_finalize f _ _ _ _ _ _ Hok) as (nfa' & E & [A B _]). rewrite E. cbn [obind]. exists nfa', vs, k, lab. split_and!; try done. by left. }
  rewrite <- Ee in *. assert (Hne : edges <> []) by (by rewrite Ee). clear Ee e0 edges0. set (a := mkActiveSubtree R (Some b) 0).
  assert (W : walk f D (mkSubtreeState nfa vs emptyReverseSuffixTree [a]) [a] [] [b] k lab).
  { constructor; cbn [ss_stack ss_nfa ss_vertices ss_tree]; try done.
    - constructor; [done|constructor].
    - intros x Hx. apply list_elem_of_singleton in Hx as ->. exists edges. split; [done|]. cbn. pose proof (vsize_nonneg edges). lia.
    - intros x ->%list_elem_of_singleton. cbn. rewrite Hv. congruence.
    - intros v r i e Hr He Ht. apply vget_Done in He as [_ He]. apply list_elem_of_lookup_2 in He. by apply (Hc v r e) in Ht. }
  destruct (subtree_loop_spec D max vs R Hc (subtree_fuel vs) (mkSubtreeState nfa vs emptyReverseSuffixTree [a]) false [a] [] [b] k lab (seqZ (R + 1) (vsize vs - R - 1)) W)
    as (s' & k' & lab' & E & W' & G & Hl & Hsame); cbn [ss_stack ss_vertices].
  - constructor.
    + apply NoDup_seqZ.
    + intros x ->%list_elem_of_singleton. cbn. rewrite elem_of_seqZ. lia.
    + intros v r e Hvu%elem_of_seqZ Hr He. pose proof (shrunk_child f Hf _ _ _ _ Hs Hr He). apply elem_of_seqZ. lia.
    + intros x r i e ->%list_elem_of_singleton Hr He _. apply vget_Done in He as [_ He]. apply list_elem_of_lookup_2 in He. pose proof (shrunk_child f Hf _ _ _ _ Hs Hr He). apply elem_of_seqZ. cbn in *. lia.
    + intros L x r e EL Hr He. assert (x = a) as ->. { destruct L as [|y L]; [by injection EL as <-|]. injection EL as -> EL. by destruct L. }
      apply vget_Done in He as [_ He]. apply list_elem_of_lookup_2 in He. pose proof (shrunk_child f Hf _ _ _ _ Hs Hr He). apply elem_of_seqZ. cbn in *. lia.
  - by eapply (initial_fuel vs R).
  - intros x ->%list_elem_of_singleton. cbn. lia.
  - right. split_and!; [done|done|]. destruct (Z.eq_dec (vsize edges) 1) as [E1|E1].
    + eapply ahead_last; [done|done|]. right. cbn. lia.
    + eapply ahead_here; [done|done|]. cbn. apply vsize_nonempty in Hne. lia.
  - destruct edges as [|e0 edges0]; [done|]. fold a. rewrite E. cbn [obind]. destruct (wk_ok _ _ _ _ _ _ _ _ W') as [A B _]. exists (ss_nfa s'), (ss_vertices s'), k', lab'.
    split_and!; try done; [apply W'| |apply W'|by right]. intros v r e Hr He Ht. apply list_elem_of_lookup_1 in He as [i Hi].
    destruct (wk_marks _ _ _ _ _ _ _ _ W' v r (Z.of_nat i) e Hr) as (x & Hx%elem_of_nil & _); [apply vget_Done; rewrite Nat2Z.id; split; [lia|done]|done|done].
Qed.
End Loop.
