(* ===== verification/ProcessProofs.v ===== *)
(** * Taking the prefix tree apart

    Every iteration of [processNFAs] generates the prefix up to the last
    quantified term and the subtree below it, and removes what has been
    generated from the tree: no pattern is lost, and the tree gets smaller. *)

From stdpp Require Import gmap.
From S2P Require Import Prelude Containers RangeList RangeListProofs Nfa NfaProofs Term TermGraph TermCorrect CombinedFilters CombinedFiltersProofs NfaSkeleton PrefixTreeNet.
From S2P Require Import SubtreeStack SubtreeWalk SubtreeMeasure SubtreeLoop.

#[local] Arguments vsize {A} v : simpl never.

Section Process.
Context `{HashOrder} (f : CombinedURLFilters) (Hf : tree_ok f).
Implicit Types (k : net) (lab : Z -> label) (vs : list PrefixTreeVertex).

Abbreviation alphabet := (m_alphabet f).
Abbreviation acts := (m_filterActions f).
Abbreviation acts_of := (actions_get (m_filterActions f)).

(** ** The path through the last edges *)

Definition last_link vs (v w : Z) : Prop := exists edges e, vget vs v = Done edges /\ vlast edges = Done e /\ e_child e = w.

Fixpoint links vs (path : list Z) : Prop :=
  match path with
  | [] => True
  | v :: path' => match path' with [] => True | w :: _ => last_link vs v w /\ links vs path' end
  end.

Lemma vlast_elem {A} (l : list A) x : vlast l = Done x -> x ∈ l.
Proof. unfold vlast. intros [_ E]%vget_Done. by eapply list_elem_of_lookup_2. Qed.

Lemma vlast_snoc {A} (l : list A) x : vlast (l ++ [x]) = Done x.
Proof. unfold vlast. apply vget_at_middle. unfold vsize. rewrite length_app. cbn. lia. Qed.

Lemma last_path_spec vs : shrunk f vs -> forall fuel v, 0 <= v < vsize vs -> (Z.to_nat (vsize vs - v) <= fuel)%nat ->
  exists rest leaf, last_path fuel vs v = Done (v :: rest) /\ links vs (v :: rest) /\ last (v :: rest) = Some leaf /\ vget vs leaf = Done [].
Proof.
  intros Hs. induction fuel as [|fuel IH]; intros v Hv Hfuel; [lia|]. cbn [last_path]. destruct (vget_total vs v Hv) as (edges & He & _). rewrite He. cbn [obind]. destruct edges as [|e0 es] eqn:Ee.
  - exists [], v. done.
  - rewrite <- Ee in *. assert (Hl : exists e, vlast edges = Done e).
    { unfold vlast. destruct (vget_total edges (vsize edges - 1)) as (e & E & _); [rewrite Ee, vsize_cons; pose proof (vsize_nonneg es); lia|]. eauto. }
    destruct Hl as (e & Hl). rewrite Hl. cbn [obind]. pose proof (shrunk_child f Hf _ _ _ _ Hs He (vlast_elem _ _ Hl)) as Hc.
    destruct (IH (e_child e)) as (rest & leaf & E & Hk & Hla & Hleaf); [lia|lia|]. rewrite E. cbn [obind]. exists (e_child e :: rest), leaf. split; [done|]. split; [split; [by exists edges, e|done]|done].
Qed.

Lemma edge_links_app vs l1 x l2 : links vs (l1 ++ x :: l2) <-> links vs (l1 ++ [x]) /\ links vs (x :: l2).
Proof.
  induction l1 as [|a [|b l1] IH]; cbn [app].
  - cbn. tauto.
  - cbn. tauto.
  - cbn [links app] in *. rewrite IH. tauto.
Qed.

Lemma last_link_less vs v w : shrunk f vs -> last_link vs v w -> 0 <= v < w.
Proof. intros Hs (edges & e & Hv & Hl & <-). pose proof (shrunk_child f Hf _ _ _ _ Hs Hv (vlast_elem _ _ Hl)). apply vget_range in Hv. lia. Qed.

Lemma links_less vs l x : shrunk f vs -> links vs (l ++ [x]) -> forall v, v ∈ l -> 0 <= v < x.
Proof.
  intros Hs. revert x. induction l as [|y l IH] using rev_ind; intros x Hc v Hv; [by apply elem_of_nil in Hv|]. rewrite <- app_assoc in Hc. cbn [app] in Hc. apply edge_links_app in Hc as [Hc [Hl _]].
  apply (last_link_less _ _ _ Hs) in Hl. apply elem_of_app in Hv as [Hv| ->%list_elem_of_singleton]; [|done]. specialize (IH y Hc v Hv). lia.
Qed.

Lemma links_ext vs vs' l x : (forall v, v ∈ l -> vget vs' v = vget vs v) -> links vs (l ++ [x]) -> links vs' (l ++ [x]).
Proof.
  revert x. induction l as [|y l IH] using rev_ind; intros x Hv Hk; [done|]. rewrite <- app_assoc in *. cbn [app] in *. apply edge_links_app in Hk as [Hk [(edges & e & Hl) _]]. apply edge_links_app. split.
  - apply IH; [|done]. intros v Hin. apply Hv, elem_of_app. by left.
  - split; [|done]. exists edges, e. rewrite Hv; [done|]. apply elem_of_app. right. left.
Qed.

Lemma last_link_term vs v w : shrunk f vs -> clean vs -> last_link vs v w ->
  exists edges e t, vget vs v = Done edges /\ vlast edges = Done e /\ e_child e = w /\ term_at alphabet (e_term e) = Done t /\ tree_edge f v t w.
Proof.
  intros Hs Hc (edges & e & Hv & Hl & <-). pose proof (vlast_elem _ _ Hl) as He. pose proof (Hc _ _ _ Hv He) as Hn.
  destruct (sh_edges _ _ Hs _ _ _ Hv He) as (r & e0 & H1 & H2 & H3 & [H4|H4]); [|done]. destruct (fo_term _ Hf _ _ _ H1 H2) as [t Ht]. exists edges, e, t. rewrite H4. split_and!; try done. rewrite <- H3. by exists r, e0.
Qed.

(** ** The prefix *)

Lemma find_prefix_spec vs n : shrunk f vs -> clean vs -> forall path R0 suf, path = firstn n path ++ R0 :: suf -> length (firstn n path) = n -> links vs path -> fixed_path alphabet vs R0 ->
  exists pre R rest, find_prefix alphabet vs path n = Done (pre ++ [R]) /\ path = pre ++ R :: rest /\ fixed_path alphabet vs R.
Proof.
  intros Hs Hc. induction n as [|n IH]; intros path R0 suf E Hlen Hk Hfx.
  - cbn [find_prefix]. cbn in E. rewrite E. cbn. by exists [], R0, suf.
  - assert (Hpre : exists pre v, firstn (S n) path = pre ++ [v] /\ length pre = n). { destruct (snoc_eq (firstn (S n) path)) as (pre & v & Ep); [intros E0; by rewrite E0 in Hlen|]. exists pre, v. split; [done|]. rewrite Ep, length_app in Hlen. cbn in Hlen. lia. }
    destruct Hpre as (pre & v & Ep & Hpl). rewrite Ep, <- app_assoc in E. cbn [app] in E. rewrite E in Hk. pose proof Hk as Hk'. apply edge_links_app in Hk as [_ [Hl _]].
    cbn [find_prefix]. replace (vget path (Z.of_nat n)) with (Done v) by (rewrite E; symmetry; apply vget_at_middle; by rewrite Hpl). cbn [obind].
    destruct (last_link_term _ _ _ Hs Hc Hl) as (edges & e & t & Hv & He & Hch & Ht & _). rewrite Hv. cbn [obind]. rewrite He. cbn [obind]. rewrite Ht. cbn [obind]. destruct (hasFixedLength t) eqn:Ef; cbn [negb].
    + assert (Efn : firstn n path = pre). { rewrite E. rewrite take_app_length'; [done|lia]. }
      apply (IH path v (R0 :: suf)); [by rewrite Efn|by rewrite Efn|by rewrite E|]. eapply fixed_step; [done|done|done|done|]. by rewrite Hch.
    + exists (pre ++ [v]), R0, suf. split_and!; [|by rewrite <- app_assoc|done]. f_equal. rewrite E at 1. change (v :: R0 :: suf) with ([v; R0] ++ suf). rewrite app_assoc, take_app_length'; [by rewrite <- app_assoc|]. rewrite length_app. cbn. lia.
Qed.

(** The net of the prefix. *)
Record prefix_ok nfa (b : builder) k lab (v : Z) (donev : list Z) : Prop := {
  po_ok : nfa_ok f nfa [b] emptyReverseSuffixTree k lab;
  po_lab : lab (b_nodeId b) = Fwd v;
  po_forward : forward f k (b_nodeId b) v;
  po_done : forall u, u ∈ donev -> performed f k u
}.

Lemma prefix_start nfa b : newBuilder emptyNFA = (nfa, b) -> exists k lab, prefix_ok nfa b k lab 0 [].
Proof.
  intros E. destruct (building_new _ _ _ _ _ empty_building E) as (I & _ & _ & Hb). change (vsize (nfa_nodes emptyNFA)) with 0 in *. set (k := add_main _ 0) in *. exists k, (fun _ => Fwd 0). constructor.
  - constructor; [done| |apply empty_suffix_tree]. constructor; cbn; [split; [left|done]|by intros p t q ?%elem_of_nil|by intros p l ?%elem_of_nil].
  - done.
  - exists []. rewrite I. split_and!; [constructor|constructor|]. intros a Ha. exfalso. unfold actions_get in Ha. destruct (acts !! 0) as [l|] eqn:El; [|by apply elem_of_nil in Ha].
    assert (0 < 0 < vsize (m_vertices f)) by (apply (fo_actions _ Hf); by eexists). lia.
  - by intros u ?%elem_of_nil.
Qed.

Lemma prefix_edges vs pre : shrunk f vs -> clean vs -> forall nfa b k lab v donev R rest, prefix_ok nfa b k lab v donev -> links vs (pre ++ [R]) -> pre ++ [R] = v :: rest ->
  exists nfa' b' k' lab', ofold (generate_prefix_edge alphabet acts vs) (nfa, b) pre = Done (nfa', b') /\ prefix_ok nfa' b' k' lab' R (pre ++ donev).
Proof.
  intros Hs Hc. induction pre as [|u pre IH]; intros nfa b k lab v donev R rest Hp Hk Ev.
  - injection Ev as -> <-. cbn. by exists nfa, b, k, lab.
  - injection Ev as -> Ev. cbn [ofold]. cbn [app] in Hk. destruct (pre ++ [R]) as [|w l] eqn:El; [by destruct pre|]. destruct Hk as [Hl Hk]. destruct (last_link_term _ _ _ Hs Hc Hl) as (edges & e & t & Hv & He & Hch & Ht & Hte).
    unfold generate_prefix_edge at 1. rewrite Hv. cbn [obind]. rewrite He. cbn [obind]. rewrite Ht. cbn [obind]. destruct Hp as [Hok Hlab Hfw Hd]. rewrite Hch.
    destruct (to_new_node_spec f _ _ _ _ _ b v t w Hok Hlab Hfw Hte) as (nfa1 & b1 & n & k1 & lab1 & E1 & I1 & Hok1 & G1 & Hlab1 & Hfw1). rewrite E1. cbn [obind].
    apply (nfa_ok_perm f _ _ [b1; n]) in Hok1; [|constructor]. destruct (nfa_ok_finalize f _ _ _ _ _ _ Hok1) as (nfa2 & E2 & Hok2). rewrite E2. cbn [obind].
    destruct (IH nfa2 n k1 lab1 w (v :: donev) R l) as (nfa' & b' & k' & lab' & E' & Hp'); [|by rewrite El|by rewrite El|].
    { constructor; try done. intros x [->|Hx]%elem_of_cons; [eapply forward_performed; [exact Hf|by eapply forward_grows]|eapply performed_grows; [exact G1|auto]]. }
    exists nfa', b', k', lab'. split; [exact E'|]. destruct Hp' as [A B C D']. constructor; try done. intros x Hx. apply D'. cbn in Hx. apply elem_of_cons in Hx as [->|Hx]; [apply elem_of_app; right; left|].
    apply elem_of_app in Hx as [Hx|Hx]; apply elem_of_app; [by left|right; by right].
Qed.

(** ** Removing what has been generated *)

(** What is not done can still be reached. *)
Definition left_over (D : Z -> Prop) vs : Prop := forall v, (exists ts, tree_path f ts v) -> D v \/ reach f vs v.

Lemma left_over_cut (D : Z -> Prop) vs vs' c : left_over D vs -> D c -> vget vs c = Done [] ->
  (forall u t w, tree_edge (tree_with f vs) u t w -> tree_edge (tree_with f vs') u t w \/ w = c) -> left_over D vs'.
Proof.
  intros HL Hc Hv Hcut v Hp. destruct (HL v Hp) as [?|Hr]; [by left|]. assert (Hcl : forall u t w, u = c -> tree_edge (tree_with f vs) u t w -> w = c).
  { intros u t w -> (r & e & Hr' & He & _). cbn in Hr'. rewrite Hv in Hr'. injection Hr' as <-. by apply elem_of_nil in He. }
  destruct (reach_cut f vs vs' (fun w => w = c) v Hcut Hcl Hr) as [?| ->]; [by right|by left].
Qed.

Lemma clean_up_spec (D : Z -> Prop) pre : forall vs R rest, shrunk f vs -> clean vs -> links vs (pre ++ [R]) -> left_over D vs -> (forall v, v ∈ pre ++ [R] -> D v) -> 0 <= R < vsize vs ->
  exists vs', clean_up vs (pre ++ R :: rest) (length pre) = Done vs' /\ shrunk f vs' /\ clean vs' /\ left_over D vs' /\ (live vs' <= live vs)%nat /\
    (vget vs R = Done [] -> pre <> [] -> (live vs' < live vs)%nat).
Proof.
  induction pre as [|p pre IH] using rev_ind; intros vs R rest Hs Hc Hk HL HD HR.
  - cbn. by exists vs.
  - replace (length (pre ++ [p])) with (S (length pre)) by (rewrite length_app; cbn; lia). cbn [clean_up]. rewrite <- app_assoc in *. cbn [app] in *.
    replace (vget (pre ++ p :: R :: rest) (Z.of_nat (S (length pre)))) with (Done R) by (symmetry; change (p :: R :: rest) with ([p] ++ R :: rest); rewrite app_assoc; apply vget_at_middle; rewrite length_app; cbn; lia). cbn [obind].
    destruct (vget_total vs R HR) as (edges & He & _). rewrite He. cbn [obind]. destruct edges as [|e0 es]; [|exists vs; split_and!; try done; congruence].
    replace (vget (pre ++ p :: R :: rest) (Z.of_nat (length pre))) with (Done p) by (symmetry; by apply vget_at_middle). cbn [obind].
    apply edge_links_app in Hk as [Hk [Hl _]]. pose proof Hl as Hlt. apply (last_link_less _ _ _ Hs) in Hlt. destruct Hl as (pe & e & Hp & Hla & Hch). rewrite Hp. cbn [obind].
    pose proof (vget_range _ _ _ Hp) as Hpr. rewrite vset_Done by done. cbn [obind]. destruct (snoc_eq pe) as (pe0 & e' & ->); [intros ->; by apply vlast_elem, elem_of_nil in Hla|]. rewrite vlast_snoc in Hla. injection Hla as ->. rewrite removelast_last.
    set (vs1 := <[_ := _]> vs). assert (Hs1 : shrunk f vs1).
    { apply shrunk_set; [done| | |done]; [intros x Hx; exists (pe0 ++ [e]), x; split_and!; [done|apply elem_of_app; by left|done|by left]|]. pose proof (sh_nodup _ _ Hs _ _ Hp) as Hnd. rewrite map_app in Hnd. by apply NoDup_app in Hnd as [? _]. }
    assert (Hc1 : clean vs1). { intros v r x Hr Hx. unfold vs1 in Hr. rewrite vget_insert in Hr by done. destruct (Z.eqb_spec v p) as [->|]; [|by eapply Hc]. injection Hr as <-. eapply Hc; [exact Hp|]. apply elem_of_app. by left. }
    assert (Hlive : (live vs1 < live vs)%nat).
    { pose proof (live_insert vs p _ pe0 Hp) as Hli. fold vs1 in Hli. assert (Hp0 : forall x, x ∈ pe0 ++ [e] -> e_term x <> None) by (intros x Hx; exact (Hc p _ x Hp Hx)).
      rewrite !remove_marked_clean in Hli; [|intros x Hx; apply Hp0, elem_of_app; by left|done]. rewrite length_app in Hli. cbn in Hli. lia. }
    destruct (IH vs1 p (R :: rest)) as (vs' & E' & Hs' & Hc' & HL' & Hle & _); try done.
    + eapply links_ext; [|exact Hk]. intros v Hv. pose proof (links_less _ _ _ Hs Hk v Hv). unfold vs1. rewrite vget_insert by done. by destruct (Z.eqb_spec v p); [lia|].
    + apply (left_over_cut D vs vs1 R HL); [apply HD, elem_of_app; right; right; left|done|]. intros u t w Hte. unfold vs1. rewrite tree_edge_insert by done. destruct (Z.eq_dec u p) as [->|Hu]; [|left; by right].
      destruct Hte as (r & x & Hr & Hx & Hxc & Ht). cbn in Hr. rewrite Hp in Hr. injection Hr as <-. apply elem_of_app in Hx as [Hx| ->%list_elem_of_singleton]; [left; left; split; [done|]; by exists x|]. right. congruence.
    + intros v Hv. apply HD. apply elem_of_app in Hv as [Hv| ->%list_elem_of_singleton]; apply elem_of_app; [by left|right; left].
    + unfold vs1. by rewrite vsize_insert.
    + exists vs'. split_and!; try done; [lia|]. intros _ _. lia.
Qed.

(** ** One NFA *)

(** The NFA performs the patterns that end at the vertex. *)
Definition nfa_performs (nfa : NFA) (v : Z) : Prop :=
  forall ts a w, tree_path f ts v -> a ∈ acts_of v -> terms_lang ts w -> exists q, path (nfa_edge nfa) 0 w q /\ nfa_action nfa q a.

(** It can be converted and performs nothing but patterns. *)
Record nfa_good (nfa : NFA) : Prop := {
  ng_wf : nfa_wf nfa;
  ng_edges : forall p l q, nfa_edge nfa p l q -> 0 <= q < vsize (nfa_nodes nfa);
  ng_root : nfa_nodes nfa <> [];
  ng_actions : forall a, a ∈ nfa_actions nfa -> exists v, a ∈ acts_of v;
  ng_sound : forall q a w, path (nfa_edge nfa) 0 w q -> nfa_action nfa q a -> exists ts, has_pattern f a ts /\ terms_lang ts w
}.

Lemma built_nfa nfa k lab : building nfa [] k -> net_sound f k lab -> nfa_good nfa /\ forall v, performed f k v -> nfa_performs nfa v.
Proof.
  intros [B1 B2 B3 B4 B5 B6] Hs. destruct (ns_root _ _ _ Hs) as [H0 _].
  assert (Hedge : forall p l q, whole nfa [] p l q <-> nfa_edge nfa p l q) by (intros p l q; split; [intros [?|(b & Hb%elem_of_nil & _)]; done|by left]).
  assert (Hact : forall p a, nfa_action nfa p a <-> net_action k p a) by (intros p a; rewrite <- B5; split; [by left|intros [?|(b & Hb%elem_of_nil & _)]; done]).
  assert (Hpath : forall q w, q ∈ n_main k -> path (nfa_edge nfa) 0 w q <-> exists ts, net_path k 0 ts q /\ terms_lang ts w).
  { intros q w Hq. rewrite <- (co_paths _ _ _ B4) by done. split; apply path_mono; intros ? ? ?; apply Hedge. }
  assert (Hmain : forall p a, net_action k p a -> p ∈ n_main k) by (intros p a (l & Hl & _); by eapply (co_acts _ _ _ B4)).
  split; [constructor|].
  - done.
  - intros p l q He%Hedge. by apply (co_edges _ _ _ B4) in He as [_ ?].
  - intros E. apply (co_main _ _ _ B4) in H0. rewrite E in H0. change (vsize (@nil ImmutableNFANode)) with 0 in H0. lia.
  - intros a (p & l & Hl & Ha)%B6. apply (ns_acts _ _ _ Hs) in Hl. unfold acts_sound in Hl. destruct (lab p) as [v|ts acts']; [exists v; auto|]. destruct Hl as [_ Hl]. by apply Hl.
  - intros q a w Hp Ha%Hact. apply Hpath in Hp as (ts & Hp & Hw); [|by eapply Hmain]. exists ts. split; [by eapply net_sound_pattern|done].
  - intros v Hv ts a w Hts Ha Hw. destruct (Hv ts a Hts Ha) as (q & Hq & Hqa). exists q. split; [|by apply Hact]. apply Hpath; [by eapply Hmain|]. eauto.
Qed.

Lemma process_next_spec (D : Z -> Prop) max vs : shrunk f vs -> clean vs -> left_over D vs ->
  (process_next alphabet acts max vs = Done None /\ vget vs 0 = Done [] /\ forall v, (exists ts, tree_path f ts v) -> D v \/ v = 0) \/
  exists nfa vs', process_next alphabet acts max vs = Done (Some (nfa, vs')) /\ nfa_good nfa /\ shrunk f vs' /\ clean vs' /\ left_over (fun v => D v \/ nfa_performs nfa v) vs' /\ (live vs' < live vs)%nat.
Proof.
  intros Hs Hc HL. unfold process_next. assert (H0 : 0 <= 0 < vsize vs) by (split; [lia|]; rewrite (sh_size _ _ Hs); apply (fo_root _ Hf)).
  destruct (last_path_spec vs Hs (length vs) 0 H0) as (rest & leaf & E & Hk & Hla & Hleaf); [unfold vsize; lia|]. rewrite E. cbn [obind]. destruct rest as [|v1 rest].
  - left. cbn [last] in Hla. injection Hla as <-. split; [done|]. split; [done|]. intros v Hv. destruct (HL v Hv) as [?|(ts & Hts)]; [by left|]. right. destruct (tree_path_inv _ _ _ Hts) as [[_ ->]|(ts' & u & t & -> & Hp & He)]; [done|]. exfalso.
    assert (Hroot : forall ts u, tree_path (tree_with f vs) ts u -> u = 0).
    { induction 1 as [|? ? ? ? _ -> (r & x & Hr & Hx & _)]; [done|]. change (m_vertices (tree_with f vs)) with vs in Hr. rewrite Hleaf in Hr. injection Hr as <-. by apply elem_of_nil in Hx. }
    apply Hroot in Hp as ->. destruct He as (r & x & Hr & Hx & _). change (m_vertices (tree_with f vs)) with vs in Hr. rewrite Hleaf in Hr. injection Hr as <-. by apply elem_of_nil in Hx.
  - right. set (path := 0 :: v1 :: rest) in *. destruct (Z.eqb_spec (vsize path) 1) as [E1|E1]; [unfold path in E1; rewrite !vsize_cons in E1; pose proof (vsize_nonneg rest); lia|].
    destruct (snoc_eq path) as (p0 & x & Ep); [done|]. assert (x = leaf) as -> by (rewrite Ep, last_snoc in Hla; by injection Hla).
    assert (Hn : Nat.pred (length path) = length p0) by (rewrite Ep, length_app; cbn; lia).
    assert (Htake : firstn (length p0) path = p0) by (rewrite Ep; by rewrite take_app_length).
    destruct (find_prefix_spec vs (length p0) Hs Hc path leaf []) as (pre & R & rest' & Ef & Epath & Hfx); [by rewrite Htake|by rewrite Htake|done|by apply fixed_leaf|]. rewrite Hn, Ef. cbn [obind].
    destruct (newBuilder emptyNFA) as [nfa0 b0] eqn:Eb. destruct (prefix_start nfa0 b0 Eb) as (k0 & lab0 & Hp0). replace (Nat.pred (length (pre ++ [R]))) with (length pre) by (rewrite length_app; cbn; lia). rewrite take_app_length.
    assert (Hkp : links vs (pre ++ [R])) by (rewrite Epath in Hk; by apply edge_links_app in Hk as [Hk _]).
    assert (Hhead : exists r, pre ++ [R] = 0 :: r). { unfold path in Epath. destruct pre as [|p pre]; cbn in Epath; injection Epath as <- Epath; cbn; eauto. }
    destruct Hhead as (r & Hhead). destruct (prefix_edges vs pre Hs Hc nfa0 b0 k0 lab0 0 [] R r Hp0 Hkp Hhead) as (nfa1 & b1 & k1 & lab1 & E2 & [Hok Hlab Hfw Hd]). rewrite app_nil_r in Hd. rewrite E2. cbn [obind]. rewrite vlast_snoc. cbn [obind].
    assert (HR : 0 <= R < vsize vs). { inversion Hfx as [? Hv|? ? ? ? Hv]; subst; by eapply vget_range. }
    assert (Hcov : covered f D k1 vs) by (intros v Hv; destruct (HL v Hv); auto).
    destruct (generateNFAForSubtree_spec f Hf D max nfa1 vs b1 k1 lab1 R Hs Hc Hcov Hok Hlab Hfw Hfx HR) as (nfa2 & vs2 & k2 & lab2 & E3 & Hb & Hns & G & Hs2 & Hc2 & Hcov2 & Hsame & Hlive). rewrite E3. cbn [obind].
    destruct (built_nfa nfa2 k2 lab2 Hb Hns) as [Hgood Hperf]. set (D' := fun v => D v \/ nfa_performs nfa2 v).
    destruct (clean_up_spec D' pre vs2 R [] Hs2 Hc2) as (vs3 & E4 & Hs3 & Hc3 & HL3 & Hle & Hlt).
    + eapply links_ext; [|exact Hkp]. intros v Hv. apply Hsame. by apply (links_less _ _ _ Hs Hkp).
    + intros v Hv. unfold D'. destruct (Hcov2 v Hv) as [?|[?|?]]; auto.
    + intros v Hv. right. apply Hperf. apply elem_of_app in Hv as [Hv| ->%list_elem_of_singleton]; [eapply performed_grows; [exact G|auto]|]. eapply forward_performed; [exact Hf|]. by eapply forward_grows.
    + by rewrite (sh_size _ _ Hs2), <- (sh_size _ _ Hs).
    + rewrite E4. cbn [obind]. exists nfa2, vs3. split_and!; try done. destruct Hlive as [[HvR ->]|Hlive]; [|lia]. apply Hlt; [done|]. intros ->. cbn in Hhead. injection Hhead as -> _.
      unfold path in Hk. cbn [links] in Hk. destruct Hk as [(edges & e & Hv & He & _) _]. rewrite HvR in Hv. injection Hv as <-. by apply vlast_elem, elem_of_nil in He.
Qed.

(** ** All NFAs *)

Lemma process_loop_spec max : forall fuel (D : Z -> Prop) vs, shrunk f vs -> clean vs -> left_over D vs -> (live vs <= fuel)%nat ->
  exists nfas, process_loop alphabet acts fuel max vs = Done nfas /\ Forall nfa_good nfas /\
    forall v, (exists ts, tree_path f ts v) -> D v \/ v = 0 \/ exists nfa, nfa ∈ nfas /\ nfa_performs nfa v.
Proof.
  induction fuel as [|fuel IH]; intros D vs Hs Hc HL Hfuel; cbn [process_loop]; destruct (process_next_spec D max vs Hs Hc HL) as [(E & _ & Hd)|(nfa & vs' & E & Hg & Hs' & Hc' & HL' & Hlt)]; rewrite E; cbn [obind].
  - exists []. split_and!; [done|constructor|]. intros v Hv. destruct (Hd v Hv); auto.
  - lia.
  - exists []. split_and!; [done|constructor|]. intros v Hv. destruct (Hd v Hv); auto.
  - destruct (IH _ vs' Hs' Hc' HL') as (nfas & E' & Hgs & Hd); [lia|]. rewrite E'. cbn [obind]. exists (nfa :: nfas). split_and!; [done|by constructor|]. intros v Hv.
    destruct (Hd v Hv) as [[?|?]|[?|(n & Hn & Hp)]]; [by left|right; right; exists nfa; split; [left|done]|by right; left|right; right; exists n; split; [by right|done]].
Qed.

(** Distinct children: the tree has fewer edges than vertices. *)
Lemma shrunk_self : shrunk f (m_vertices f).
Proof.
  constructor; [done| |apply (fo_nodup _ Hf)]. intros v edges e Hv He. exists edges, e. split_and!; auto.
Qed.

Lemma clean_self : clean (m_vertices f).
Proof. intros v edges e Hv He Hn. destruct (fo_term _ Hf _ _ _ Hv He) as [t Ht]. by rewrite Hn in Ht. Qed.

Lemma concat_nodup (ll : list PrefixTreeVertex) : (forall i edges, ll !! i = Some edges -> NoDup (map e_child edges)) ->
  (forall i j edges edges' e e', ll !! i = Some edges -> ll !! j = Some edges' -> e ∈ edges -> e' ∈ edges' -> e_child e = e_child e' -> i = j) -> NoDup (map e_child (concat ll)).
Proof.
  induction ll as [|edges ll IH]; intros H1 H2; [constructor|]. cbn [concat]. rewrite map_app. apply NoDup_app. split_and!.
  - by apply (H1 0%nat).
  - intros c (e & -> & He)%list_elem_of_fmap (e' & Ec & He')%list_elem_of_fmap. apply list_elem_of_In, in_concat in He' as (r & Hr & He'). apply list_elem_of_In in Hr, He'. apply list_elem_of_lookup_1 in Hr as [j Hj].
    specialize (H2 0%nat (S j) edges r e e' eq_refl Hj He He' Ec). done.
  - apply IH; [intros i r Hr; by apply (H1 (S i))|]. intros i j r r' e e' Hi Hj He He' Ec. specialize (H2 (S i) (S j) r r' e e' Hi Hj He He' Ec). lia.
Qed.

Lemma live_vertices_bound : (live (m_vertices f) <= length (m_vertices f))%nat.
Proof.
  assert (Hsum : (live (m_vertices f) <= length (concat (m_vertices f)))%nat).
  { unfold live. generalize (m_vertices f) as l. induction l as [|edges l IH]; [done|]. cbn. rewrite length_app. assert (length (remove_marked edges) <= length edges)%nat by apply List.filter_length_le. lia. }
  assert (Hle : (length (map e_child (concat (m_vertices f))) <= length (seqZ 0 (vsize (m_vertices f))))%nat).
  { assert (Hv : forall i edges, m_vertices f !! i = Some edges -> vget (m_vertices f) (Z.of_nat i) = Done edges) by (intros i r Hr; apply vget_Done; rewrite Nat2Z.id; split; [lia|done]).
    apply submseteq_length, NoDup_submseteq.
    - apply concat_nodup; [intros i r Hr; by apply (fo_nodup _ Hf (Z.of_nat i)), Hv|]. intros i j r r' e e' Hi Hj He He' Ec. apply Nat2Z.inj. by eapply (shrunk_parent f Hf (m_vertices f) _ r e _ r' e'); [apply shrunk_self|auto..].
    - intros c (e & -> & He)%list_elem_of_fmap. apply list_elem_of_In, in_concat in He as (r & Hr & He). apply list_elem_of_In in Hr, He. apply list_elem_of_lookup_1 in Hr as [j Hj].
      pose proof (shrunk_child f Hf _ _ _ _ shrunk_self (Hv _ _ Hj) He). apply elem_of_seqZ. lia. }
  rewrite length_map, length_seqZ in Hle. unfold vsize in Hle. lia.
Qed.

Lemma processNFAs_spec max : exists nfas, processNFAs f max = Done nfas /\ Forall nfa_good nfas /\
  forall a ts w, has_pattern f a ts -> terms_lang ts w -> exists nfa q, nfa ∈ nfas /\ path (nfa_edge nfa) 0 w q /\ nfa_action nfa q a.
Proof.
  destruct (process_loop_spec max (length (m_vertices f)) (fun _ => False) (m_vertices f)) as (nfas & E & Hg & Hd); [apply shrunk_self|apply clean_self| |apply live_vertices_bound|].
  - intros v (ts & Hts). right. exists ts. replace (tree_with f (m_vertices f)) with f; [done|]. by destruct f.
  - exists nfas. split_and!; [exact E|done|]. intros a ts w Hp Hw. apply pattern_actions_get in Hp as (x & Hx & Ha). destruct (Hd x) as [?|[->|(nfa & Hn & Hp)]]; [eauto|done| |].
    + exfalso. unfold actions_get in Ha. destruct (acts !! 0) as [l|] eqn:El; [|by apply elem_of_nil in Ha]. assert (0 < 0 < vsize (m_vertices f)) by (apply (fo_actions _ Hf); by eexists). lia.
    + destruct (Hp ts a w Hx Ha Hw) as (q & Hq & Hqa). eauto.
Qed.
End Process.
