(* ===== verification/YarrParser.v ===== *)
(** * The regular expression parser (JavaScriptCore/yarr/YarrParser.h)

    The parser reports the tokens of a pattern to a delegate.  The position in
    the pattern is the list of characters that are left, so saving and
    restoring the state is keeping the old list. *)

From S2P Require Import Prelude Containers.

Inductive BuiltInCharacterClassID := DigitClassID | SpaceClassID | WordClassID | NewlineClassID.

Inductive ErrorCode :=
| NoError | PatternTooLarge | QuantifierOutOfOrder | QuantifierWithoutAtom | QuantifierTooLarge | MissingParentheses
| ParenthesesUnmatched | ParenthesesTypeInvalid | CharacterClassUnmatched | CharacterClassOutOfOrder | EscapeUnterminated.

#[global] Instance ErrorCode_eq_dec : EqDecision ErrorCode.
Proof. solve_decision. Defined.

Definition quantifyInfinite : Z := UINT32_MAX.

(** The interface that a delegate implements, on its state [D]. *)
Class YarrDelegate (D : Type) := {
  assertionBOL : D -> outcome D;
  assertionEOL : D -> outcome D;
  assertionWordBoundary : D -> bool -> outcome D;
  atomPatternCharacter : D -> Z -> outcome D;
  atomBuiltInCharacterClass : D -> BuiltInCharacterClassID -> bool -> outcome D;
  atomCharacterClassBegin : D -> bool -> outcome D;
  atomCharacterClassAtom : D -> Z -> outcome D;
  atomCharacterClassRange : D -> Z -> Z -> outcome D;
  atomCharacterClassBuiltIn : D -> BuiltInCharacterClassID -> bool -> outcome D;
  atomCharacterClassEnd : D -> outcome D;
  atomParenthesesSubpatternBegin : D -> bool -> outcome D;
  atomParentheticalAssertionBegin : D -> bool -> outcome D;
  atomParenthesesEnd : D -> outcome D;
  atomBackReference : D -> Z -> outcome D;
  quantifyAtom : D -> Z -> Z -> bool -> outcome D;
  disjunction : D -> outcome D
}.

(** ** Reading characters *)

Definition tryConsume (ch : Z) (input : list Z) : bool * list Z :=
  match input with
  | c :: rest => if c =? ch then (true, rest) else (false, input)
  | [] => (false, input)
  end.

Definition peekIsDigit (input : list Z) : bool := match input with c :: _ => isASCIIDigit c | [] => false end.

(** The loop of [consumeNumber]: stops before the number overflows. *)
Fixpoint consume_digits (n : Z) (input : list Z) : Z * list Z :=
  match input with
  | c :: rest =>
      if isASCIIDigit c then
        let newValue := u32 (n * 10 + (c - 48)) in
        if n <=? newValue then consume_digits newValue rest else (n, input)
      else (n, input)
  | [] => (n, input)
  end.

Definition consumeNumber (input : list Z) : outcome (Z * list Z) :=
  match input with c :: rest => Done (consume_digits (c - 48) rest) | [] => Crash end.

Fixpoint consume_octal_digits (n : Z) (input : list Z) : Z * list Z :=
  match input with
  | c :: rest => if (n <? 32) && isASCIIOctalDigit c then consume_octal_digits (n * 8 + (c - 48)) rest else (n, input)
  | [] => (n, input)
  end.

Definition consumeOctal (input : list Z) : outcome (Z * list Z) :=
  match input with c :: rest => Done (consume_octal_digits (c - 48) rest) | [] => Crash end.

Definition toASCIIHexValue (c : Z) : Z := if c <? 65 then c - 48 else Z.land (c - 65 + 10) 15.

(** [tryConsumeHex(count)]; [None] for the result -1. *)
Fixpoint consume_hex (count : nat) (n : Z) (input : list Z) : option (Z * list Z) :=
  match count with
  | O => Some (n, input)
  | S count' =>
      match input with
      | c :: rest => if isASCIIHexDigit c then consume_hex count' (Z.lor (Z.shiftl n 4) (toASCIIHexValue c)) rest else None
      | [] => None
      end
  end.

Definition tryConsumeHex (count : nat) (input : list Z) : option (Z * list Z) := consume_hex count 0 input.

(** ** Escapes *)

(** The call that [parseEscape] makes on its delegate. *)
Inductive escape :=
| EscapeCharacter (ch : Z)
| EscapeClass (classID : BuiltInCharacterClassID) (invert : bool)
| EscapeWordBoundary (invert : bool)
| EscapeBackReference (n : Z).

Definition escape_octal (input : list Z) : outcome (escape * list Z) :=
  let* (n, rest) := consumeOctal input in Done (EscapeCharacter n, rest).

Definition escape_hex (count : nat) (letter : Z) (rest : list Z) : outcome (escape * list Z) :=
  match tryConsumeHex count rest with
  | Some (x, rest') => Done (EscapeCharacter x, rest')
  | None => Done (EscapeCharacter letter, rest)
  end.

Definition escape_decimal (inCharacterClass : bool) (backReferenceLimit : Z) (c : Z) (input : list Z) : outcome (escape * list Z) :=
  let* (backReference, rest) := consumeNumber input in
  if negb inCharacterClass && (backReference <=? backReferenceLimit) then Done (EscapeBackReference backReference, rest)
  else if 56 <=? c then Done (EscapeCharacter 92, input)
  else escape_octal input.

Definition escape_control (inCharacterClass : bool) (input rest : list Z) : outcome (escape * list Z) :=
  match rest with
  | control :: rest' =>
      if (if inCharacterClass then isASCIIAlphanumeric control || (control =? 95) else isASCIIAlpha control)
      then Done (EscapeCharacter (Z.land control 31), rest')
      else Done (EscapeCharacter 92, input)
  | [] => Done (EscapeCharacter 92, input)
  end.

(** [parseEscape<inCharacterClass>(delegate)] after the backslash; the pattern
    does not end there. *)
Definition parseEscape (inCharacterClass : bool) (backReferenceLimit : Z) (c : Z) (rest : list Z) : outcome (escape * list Z) :=
  let input := c :: rest in
  if c =? 98 (* b *) then Done (if inCharacterClass then EscapeCharacter 8 else EscapeWordBoundary false, rest)
  else if c =? 66 (* B *) then Done (if inCharacterClass then EscapeCharacter 66 else EscapeWordBoundary true, rest)
  else if c =? 100 (* d *) then Done (EscapeClass DigitClassID false, rest)
  else if c =? 115 (* s *) then Done (EscapeClass SpaceClassID false, rest)
  else if c =? 119 (* w *) then Done (EscapeClass WordClassID false, rest)
  else if c =? 68 (* D *) then Done (EscapeClass DigitClassID true, rest)
  else if c =? 83 (* S *) then Done (EscapeClass SpaceClassID true, rest)
  else if c =? 87 (* W *) then Done (EscapeClass WordClassID true, rest)
  else if (49 <=? c) && (c <=? 57) then escape_decimal inCharacterClass backReferenceLimit c input
  else if c =? 48 (* 0 *) then escape_octal input
  else if c =? 102 (* f *) then Done (EscapeCharacter 12, rest)
  else if c =? 110 (* n *) then Done (EscapeCharacter 10, rest)
  else if c =? 114 (* r *) then Done (EscapeCharacter 13, rest)
  else if c =? 116 (* t *) then Done (EscapeCharacter 9, rest)
  else if c =? 118 (* v *) then Done (EscapeCharacter 11, rest)
  else if c =? 99 (* c *) then escape_control inCharacterClass input rest
  else if c =? 120 (* x *) then escape_hex 2 c rest
  else if c =? 117 (* u *) then escape_hex 4 c rest
  else Done (EscapeCharacter c, rest).

Section Parser.
Context {D : Type} `{YarrDelegate D}.
Variable backReferenceLimit : Z.

(** ** Character classes *)

Inductive CharacterClassConstructionState := CC_Empty | CachedCharacter | CachedCharacterHyphen | AfterCharacterClass | AfterCharacterClassHyphen.

Record CharacterClassParserDelegate := mkClassDelegate {
  cc_delegate : D;
  cc_err : ErrorCode;
  cc_state : CharacterClassConstructionState;
  cc_character : Z
}.

Definition cc_with (d : CharacterClassParserDelegate) (delegate : D) (state : CharacterClassConstructionState) : CharacterClassParserDelegate :=
  mkClassDelegate delegate (cc_err d) state (cc_character d).

(** [CharacterClassParserDelegate::atomPatternCharacter(ch, hyphenIsRange)]. *)
Definition cc_atomPatternCharacter (d : CharacterClassParserDelegate) (ch : Z) (hyphenIsRange : bool) : outcome CharacterClassParserDelegate :=
  match cc_state d with
  | AfterCharacterClass =>
      if hyphenIsRange && (ch =? 45) then
        let* delegate := atomCharacterClassAtom (cc_delegate d) 45 in Done (cc_with d delegate AfterCharacterClassHyphen)
      else Done (mkClassDelegate (cc_delegate d) (cc_err d) CachedCharacter ch)
  | CC_Empty => Done (mkClassDelegate (cc_delegate d) (cc_err d) CachedCharacter ch)
  | CachedCharacter =>
      if hyphenIsRange && (ch =? 45) then Done (cc_with d (cc_delegate d) CachedCharacterHyphen)
      else
        let* delegate := atomCharacterClassAtom (cc_delegate d) (cc_character d) in
        Done (mkClassDelegate delegate (cc_err d) CachedCharacter ch)
  | CachedCharacterHyphen =>
      if ch <? cc_character d then Done (mkClassDelegate (cc_delegate d) CharacterClassOutOfOrder (cc_state d) (cc_character d))
      else
        let* delegate := atomCharacterClassRange (cc_delegate d) (cc_character d) ch in Done (cc_with d delegate CC_Empty)
  | AfterCharacterClassHyphen =>
      let* delegate := atomCharacterClassAtom (cc_delegate d) ch in Done (cc_with d delegate CC_Empty)
  end.

Definition cc_atomBuiltInCharacterClass (d : CharacterClassParserDelegate) (classID : BuiltInCharacterClassID) (invert : bool)
    : outcome CharacterClassParserDelegate :=
  match cc_state d with
  | CachedCharacter =>
      let* delegate := atomCharacterClassAtom (cc_delegate d) (cc_character d) in
      let* delegate' := atomCharacterClassBuiltIn delegate classID invert in
      Done (cc_with d delegate' AfterCharacterClass)
  | CC_Empty | AfterCharacterClass =>
      let* delegate := atomCharacterClassBuiltIn (cc_delegate d) classID invert in
      Done (cc_with d delegate AfterCharacterClass)
  | CachedCharacterHyphen =>
      let* delegate := atomCharacterClassAtom (cc_delegate d) (cc_character d) in
      let* delegate' := atomCharacterClassAtom delegate 45 in
      let* delegate'' := atomCharacterClassBuiltIn delegate' classID invert in
      Done (cc_with d delegate'' CC_Empty)
  | AfterCharacterClassHyphen =>
      let* delegate := atomCharacterClassBuiltIn (cc_delegate d) classID invert in
      Done (cc_with d delegate CC_Empty)
  end.

Definition cc_end (d : CharacterClassParserDelegate) : outcome D :=
  let* delegate :=
    match cc_state d with
    | CachedCharacter => atomCharacterClassAtom (cc_delegate d) (cc_character d)
    | CachedCharacterHyphen =>
        let* delegate := atomCharacterClassAtom (cc_delegate d) (cc_character d) in atomCharacterClassAtom delegate 45
    | _ => Done (cc_delegate d)
    end in
  atomCharacterClassEnd delegate.

(** The call of an escape inside a class. *)
Definition cc_escape (d : CharacterClassParserDelegate) (e : escape) : outcome CharacterClassParserDelegate :=
  match e with
  | EscapeCharacter ch => cc_atomPatternCharacter d ch false
  | EscapeClass classID invert => cc_atomBuiltInCharacterClass d classID invert
  | EscapeWordBoundary _ | EscapeBackReference _ => Crash
  end.

(** The loop of [parseCharacterClass]; every iteration reads a character. *)
Fixpoint class_loop (fuel : nat) (d : CharacterClassParserDelegate) (input : list Z) : outcome (D * ErrorCode * list Z) :=
  match input with
  | [] => Done (cc_delegate d, CharacterClassUnmatched, [])
  | c :: rest =>
      match fuel with
      | O => OutOfFuel
      | S fuel' =>
          if c =? 93 (* ] *) then
            let* delegate := cc_end d in Done (delegate, NoError, rest)
          else if c =? 92 (* \ *) then
            match rest with
            | [] => Done (cc_delegate d, EscapeUnterminated, [])
            | c' :: rest' =>
                let* (e, rest'') := parseEscape true backReferenceLimit c' rest' in
                let* d' := cc_escape d e in
                if bool_decide (cc_err d' = NoError) then class_loop fuel' d' rest'' else Done (cc_delegate d', cc_err d', rest'')
            end
          else
            let* d' := cc_atomPatternCharacter d c true in
            if bool_decide (cc_err d' = NoError) then class_loop fuel' d' rest else Done (cc_delegate d', cc_err d', rest)
      end
  end.

(** [parseCharacterClass()] after the bracket. *)
Definition parseCharacterClass (delegate : D) (input : list Z) : outcome (D * ErrorCode * list Z) :=
  let (invert, rest) := tryConsume 94 input in
  let* delegate' := atomCharacterClassBegin delegate invert in
  class_loop (length rest) (mkClassDelegate delegate' NoError CC_Empty 0) rest.

(** ** Parentheses and quantifiers *)

(** The delegate, the error and what is left. *)
Definition parsed : Type := D * ErrorCode * list Z.

(** [parseParenthesesBegin()] after the parenthesis, but for the nesting depth,
    which is not read after an error. *)
Definition parseParenthesesBegin (delegate : D) (input : list Z) : outcome parsed :=
  let (question, rest) := tryConsume 63 input in
  if question then
    match rest with
    | [] => Done (delegate, ParenthesesTypeInvalid, [])
    | c :: rest' =>
        if c =? 58 (* : *) then let* d := atomParenthesesSubpatternBegin delegate false in Done (d, NoError, rest')
        else if c =? 61 (* = *) then let* d := atomParentheticalAssertionBegin delegate false in Done (d, NoError, rest')
        else if c =? 33 (* ! *) then let* d := atomParentheticalAssertionBegin delegate true in Done (d, NoError, rest')
        else Done (delegate, ParenthesesTypeInvalid, rest')
    end
  else let* d := atomParenthesesSubpatternBegin delegate true in Done (d, NoError, rest).

Definition parseQuantifier (delegate : D) (lastTokenWasAnAtom : bool) (min max : Z) (input : list Z) : outcome parsed :=
  if min =? UINT32_MAX then Done (delegate, QuantifierTooLarge, input)
  else if lastTokenWasAnAtom then
    let (question, rest) := tryConsume 63 input in
    let* d := quantifyAtom delegate min max (negb question) in Done (d, NoError, rest)
  else Done (delegate, QuantifierWithoutAtom, input).

(** A quantifier in braces, after the brace: the bounds, if it is complete. *)
Definition brace_bounds (input : list Z) : outcome (option (Z * Z * list Z)) :=
  if peekIsDigit input then
    let* (min, rest) := consumeNumber input in
    let (comma, rest1) := tryConsume 44 rest in
    let* (max, rest2) :=
      if comma then (if peekIsDigit rest1 then consumeNumber rest1 else Done (quantifyInfinite, rest1)) else Done (min, rest1) in
    let (closed, rest3) := tryConsume 125 rest2 in
    Done (if closed then Some (min, max, rest3) else None)
  else Done None.

(** ** Tokens *)

(** The call of an escape outside of a class, and whether it was an atom. *)
Definition atom_escape (delegate : D) (e : escape) : outcome (D * bool) :=
  match e with
  | EscapeCharacter ch => let* d := atomPatternCharacter delegate ch in Done (d, true)
  | EscapeClass classID invert => let* d := atomBuiltInCharacterClass delegate classID invert in Done (d, true)
  | EscapeWordBoundary invert => let* d := assertionWordBoundary delegate invert in Done (d, false)
  | EscapeBackReference n => let* d := atomBackReference delegate n in Done (d, true)
  end.

(** The variables of [parseTokens]. *)
Record token_state := mkTokenState { k_delegate : D; k_input : list Z; k_depth : Z; k_lastTokenWasAnAtom : bool }.

(** One iteration of the loop on the character [c]. *)
Definition parse_token (s : token_state) (c : Z) (rest : list Z) : outcome (token_state * ErrorCode) :=
  let delegate := k_delegate s in
  let depth := k_depth s in
  let next d input atom := (mkTokenState d input depth atom, NoError) in
  if c =? 124 (* | *) then let* d := disjunction delegate in Done (next d rest false)
  else if c =? 40 (* ( *) then
    let* (d, err, rest') := parseParenthesesBegin delegate rest in
    Done (mkTokenState d rest' (depth + 1) false, err)
  else if c =? 41 (* ) *) then
    if 0 <? depth then let* d := atomParenthesesEnd delegate in Done (mkTokenState d rest (depth - 1) true, NoError)
    else Done (mkTokenState delegate rest (u32 (depth - 1)) true, ParenthesesUnmatched)
  else if c =? 94 (* ^ *) then let* d := assertionBOL delegate in Done (next d rest false)
  else if c =? 36 (* $ *) then let* d := assertionEOL delegate in Done (next d rest false)
  else if c =? 46 (* . *) then let* d := atomBuiltInCharacterClass delegate NewlineClassID true in Done (next d rest true)
  else if c =? 91 (* [ *) then
    let* (d, err, rest') := parseCharacterClass delegate rest in Done (mkTokenState d rest' depth true, err)
  else if c =? 92 (* \ *) then
    match rest with
    | [] => Done (mkTokenState delegate [] depth false, EscapeUnterminated)
    | c' :: rest' =>
        let* (e, rest'') := parseEscape false backReferenceLimit c' rest' in
        let* (d, atom) := atom_escape delegate e in Done (next d rest'' atom)
    end
  else if (c =? 42) || (c =? 43) || (c =? 63) (* * + ? *) then
    let* (d, err, rest') := parseQuantifier delegate (k_lastTokenWasAnAtom s) (if c =? 43 then 1 else 0) (if c =? 63 then 1 else quantifyInfinite) rest in
    Done (mkTokenState d rest' depth false, err)
  else
    let* bounds := if c =? 123 (* { *) then brace_bounds rest else Done None in
    match bounds with
    | Some (min, max, rest') =>
        if min <=? max then
          let* (d, err, rest'') := parseQuantifier delegate (k_lastTokenWasAnAtom s) min max rest' in Done (mkTokenState d rest'' depth false, err)
        else Done (mkTokenState delegate rest' depth false, QuantifierOutOfOrder)
    | None => let* d := atomPatternCharacter delegate c in Done (next d rest true)
    end.

Fixpoint token_loop (fuel : nat) (s : token_state) : outcome (D * ErrorCode) :=
  match k_input s with
  | [] => Done (k_delegate s, if 0 <? k_depth s then MissingParentheses else NoError)
  | c :: rest =>
      match fuel with
      | O => OutOfFuel
      | S fuel' =>
          let* (s', err) := parse_token s c rest in
          if bool_decide (err = NoError) then token_loop fuel' s' else Done (k_delegate s', err)
      end
  end.

(** Every iteration reads a character. *)
Definition parseTokens (delegate : D) (pattern : list Z) : outcome (D * ErrorCode) :=
  token_loop (length pattern) (mkTokenState delegate pattern 0 false).

Definition MAX_PATTERN_SIZE : Z := 1024 * 1024.

(** [Yarr::parse(delegate, pattern, backReferenceLimit)]: the error is
    [NoError] for a null message. *)
Definition yarr_parse (delegate : D) (pattern : list Z) : outcome (D * ErrorCode) :=
  if MAX_PATTERN_SIZE <? vsize pattern then Done (delegate, PatternTooLarge) else parseTokens delegate pattern.
End Parser.
