(* ===== verification/UrlFilterParser.v ===== *)
(** * Parsing URL filters (URLFilterParser.cpp)

    The delegate of the regular expression parser collects the terms of a
    filter; a complete filter is simplified and added to the combined filters
    unless it matches everything. *)

From stdpp Require Import strings.
From S2P Require Import Prelude Containers Strings RangeList Nfa Term CombinedFilters YarrParser.

Inductive ParseStatus :=
| Ok | MatchesEverything | NonASCII | UnsupportedCharacterClass | BackReference | MisplacedStartOfLine | WordBoundary | AtomCharacter
| Group | Disjunction | MisplacedEndOfLine | EmptyPattern | YarrError | InvalidQuantifier.

#[global] Instance ParseStatus_eq_dec : EqDecision ParseStatus.
Proof. solve_decision. Defined.

Record PatternParser := mkPatternParser {
  m_patternIsCaseSensitive : bool;
  m_openGroups : list Term;
  m_sunkTerms : list Term;
  m_floatingTerm : Term;
  m_hasBeginningOfLineAssertion : bool;
  m_hasProcessedEndOfLineAssertion : bool;
  m_parseStatus : ParseStatus
}.

Definition newPatternParser (patternIsCaseSensitive : bool) : PatternParser :=
  mkPatternParser patternIsCaseSensitive [] [] (EmptyTerm One) false false Ok.

Definition hasError (p : PatternParser) : bool := negb (bool_decide (m_parseStatus p = Ok)).

Definition with_floating (p : PatternParser) (t : Term) : PatternParser :=
  mkPatternParser (m_patternIsCaseSensitive p) (m_openGroups p) (m_sunkTerms p) t
    (m_hasBeginningOfLineAssertion p) (m_hasProcessedEndOfLineAssertion p) (m_parseStatus p).

Definition with_sunkTerms (p : PatternParser) (ts : list Term) : PatternParser :=
  mkPatternParser (m_patternIsCaseSensitive p) (m_openGroups p) ts (m_floatingTerm p)
    (m_hasBeginningOfLineAssertion p) (m_hasProcessedEndOfLineAssertion p) (m_parseStatus p).

Definition with_openGroups (p : PatternParser) (gs : list Term) : PatternParser :=
  mkPatternParser (m_patternIsCaseSensitive p) gs (m_sunkTerms p) (m_floatingTerm p)
    (m_hasBeginningOfLineAssertion p) (m_hasProcessedEndOfLineAssertion p) (m_parseStatus p).

Definition parser_fail (p : PatternParser) (reason : ParseStatus) : PatternParser :=
  if hasError p then p
  else mkPatternParser (m_patternIsCaseSensitive p) (m_openGroups p) (m_sunkTerms p) (m_floatingTerm p)
         (m_hasBeginningOfLineAssertion p) (m_hasProcessedEndOfLineAssertion p) reason.

(** [m_openGroups.last().extendGroupSubpattern(term)]. *)
Fixpoint extend_last_group (groups : list Term) (term : Term) : list Term :=
  match groups with
  | [] => []
  | [g] => [extendGroupSubpattern g term]
  | g :: groups' => g :: extend_last_group groups' term
  end.

Definition sinkFloatingTermIfNecessary (p : PatternParser) : PatternParser :=
  if negb (Term_isValid (m_floatingTerm p)) then p
  else if m_hasProcessedEndOfLineAssertion p then with_floating (parser_fail p MisplacedEndOfLine) (EmptyTerm One)
  else
    let eol := m_hasProcessedEndOfLineAssertion p || isEndOfLineAssertion (m_floatingTerm p) in
    match m_openGroups p with
    | [] =>
        mkPatternParser (m_patternIsCaseSensitive p) [] (m_sunkTerms p ++ [m_floatingTerm p]) (EmptyTerm One)
          (m_hasBeginningOfLineAssertion p) eol (m_parseStatus p)
    | groups =>
        mkPatternParser (m_patternIsCaseSensitive p) (extend_last_group groups (m_floatingTerm p)) (m_sunkTerms p) (EmptyTerm One)
          (m_hasBeginningOfLineAssertion p) eol (m_parseStatus p)
    end.

(** ** The delegate *)

(** A method that does nothing after an error. *)
Definition unless_error (p : PatternParser) (body : PatternParser -> outcome PatternParser) : outcome PatternParser :=
  if hasError p then Done p else body p.

Definition pp_atomPatternCharacter (p : PatternParser) (character : Z) : outcome PatternParser :=
  unless_error p (fun p =>
    if negb (isASCII character) then Done (parser_fail p NonASCII)
    else
      let* term := Term_character character (m_patternIsCaseSensitive p) in
      Done (with_floating (sinkFloatingTermIfNecessary p) term)).

Definition pp_atomBuiltInCharacterClass (p : PatternParser) (classID : BuiltInCharacterClassID) (inverted : bool) : outcome PatternParser :=
  unless_error p (fun p =>
    let p1 := sinkFloatingTermIfNecessary p in
    match classID, inverted with
    | NewlineClassID, true => let* term := Term_universalTransition in Done (with_floating p1 term)
    | _, _ => Done (parser_fail p1 UnsupportedCharacterClass)
    end).

Definition pp_quantifyAtom (p : PatternParser) (minimum maximum : Z) (greedy : bool) : outcome PatternParser :=
  unless_error p (fun p =>
    let quantified q := Done (with_floating p (quantify (m_floatingTerm p) q)) in
    if (minimum =? 0) && (maximum =? 1) then quantified ZeroOrOne
    else if (minimum =? 0) && (maximum =? quantifyInfinite) then quantified ZeroOrMore
    else if (minimum =? 1) && (maximum =? quantifyInfinite) then quantified OneOrMore
    else Done (parser_fail p InvalidQuantifier)).

Definition pp_assertionBOL (p : PatternParser) : outcome PatternParser :=
  unless_error p (fun p =>
    if Term_isValid (m_floatingTerm p) || negb (match m_sunkTerms p with [] => true | _ => false end)
       || negb (match m_openGroups p with [] => true | _ => false end)
    then Done (parser_fail p MisplacedStartOfLine)
    else Done (mkPatternParser (m_patternIsCaseSensitive p) (m_openGroups p) (m_sunkTerms p) (m_floatingTerm p) true
                 (m_hasProcessedEndOfLineAssertion p) (m_parseStatus p))).

Definition pp_assertionEOL (p : PatternParser) : outcome PatternParser :=
  unless_error p (fun p =>
    let* term := Term_endOfLineAssertion in Done (with_floating (sinkFloatingTermIfNecessary p) term)).

Definition pp_atomCharacterClassBegin (p : PatternParser) (inverted : bool) : outcome PatternParser :=
  unless_error p (fun p => Done (with_floating (sinkFloatingTermIfNecessary p) (Term_characterSet inverted))).

Definition pp_atomCharacterClassAtom (p : PatternParser) (character : Z) : outcome PatternParser :=
  unless_error p (fun p =>
    let* term := addCharacter (m_floatingTerm p) character (m_patternIsCaseSensitive p) in Done (with_floating p term)).

Definition pp_atomCharacterClassRange (p : PatternParser) (a b : Z) : outcome PatternParser :=
  unless_error p (fun p =>
    let* term := ofold (fun t i => addCharacter t i (m_patternIsCaseSensitive p)) (m_floatingTerm p) (seqZ a (b - a + 1)) in
    Done (with_floating p term)).

Definition pp_atomParenthesesSubpatternBegin (p : PatternParser) : outcome PatternParser :=
  unless_error p (fun p =>
    let p1 := sinkFloatingTermIfNecessary p in Done (with_openGroups p1 (m_openGroups p1 ++ [Term_group]))).

(** [m_openGroups.takeLast()]. *)
Definition pp_atomParenthesesEnd (p : PatternParser) : outcome PatternParser :=
  unless_error p (fun p =>
    let p1 := sinkFloatingTermIfNecessary p in
    let* group := vget (m_openGroups p1) (vsize (m_openGroups p1) - 1) in
    Done (with_floating (with_openGroups p1 (removelast (m_openGroups p1))) group)).

#[global] Instance PatternParser_delegate : YarrDelegate PatternParser := {
  assertionBOL := pp_assertionBOL;
  assertionEOL := pp_assertionEOL;
  assertionWordBoundary p _ := Done (parser_fail p WordBoundary);
  atomPatternCharacter := pp_atomPatternCharacter;
  atomBuiltInCharacterClass := pp_atomBuiltInCharacterClass;
  atomCharacterClassBegin := pp_atomCharacterClassBegin;
  atomCharacterClassAtom := pp_atomCharacterClassAtom;
  atomCharacterClassRange := pp_atomCharacterClassRange;
  atomCharacterClassBuiltIn p _ _ := Done (parser_fail p AtomCharacter);
  atomCharacterClassEnd p := Done p;
  atomParenthesesSubpatternBegin p _ := pp_atomParenthesesSubpatternBegin p;
  atomParentheticalAssertionBegin p _ := Done (parser_fail p Group);
  atomParenthesesEnd := pp_atomParenthesesEnd;
  atomBackReference p _ := Done (parser_fail p BackReference);
  quantifyAtom := pp_quantifyAtom;
  disjunction p := Done (parser_fail p Disjunction)
}.

(** ** Simplification *)

(** The first loop of [simplifySunkTerms]: canonical [.*], without
    repetitions. *)
Fixpoint canonical_dot_stars (canonicalDotStar : Term) (isAfterDotStar : bool) (terms : list Term) : list Term :=
  match terms with
  | [] => []
  | t :: terms' =>
      if isKnownToMatchAnyString t then
        if isAfterDotStar then canonical_dot_stars canonicalDotStar true terms'
        else canonicalDotStar :: canonical_dot_stars canonicalDotStar true terms'
      else t :: canonical_dot_stars canonicalDotStar false terms'
  end.

(** The trailing terms that can match empty; [terms] is reversed. *)
Fixpoint drop_irrelevant (terms : list Term) : list Term :=
  match terms with
  | [] => []
  | t :: terms' => if matchesAtLeastOneCharacter t then terms else drop_irrelevant terms'
  end.

(** The removal of a trailing [.*$]. *)
Definition drop_trailing_dot_star (terms : list Term) : list Term :=
  match rev terms with
  | eol :: dotStar :: rest =>
      if (2 <? vsize terms) && isEndOfLineAssertion eol && isKnownToMatchAnyString dotStar then rev rest else terms
  | _ => terms
  end.

Definition simplify_terms (hasBeginningOfLineAssertion : bool) (terms : list Term) : outcome (list Term) :=
  match terms with
  | [] => Done []
  | _ =>
      let* universal := Term_universalTransition in
      let canonicalDotStar := quantify universal ZeroOrMore in
      let terms1 := canonical_dot_stars canonicalDotStar false terms in
      let* first := vget terms1 0 in
      let terms2 := if negb hasBeginningOfLineAssertion && negb (isKnownToMatchAnyString first) then canonicalDotStar :: terms1 else terms1 in
      let terms3 := drop_trailing_dot_star terms2 in
      let* last := vget terms3 (vsize terms3 - 1) in
      Done (if isEndOfLineAssertion last then terms3 else rev (drop_irrelevant (rev terms3)))
  end.

Definition simplifySunkTerms (p : PatternParser) : outcome PatternParser :=
  let* terms := simplify_terms (m_hasBeginningOfLineAssertion p) (m_sunkTerms p) in Done (with_sunkTerms p terms).

(** [PatternParser::finalize(patternId, combinedURLFilters)]. *)
Definition pattern_finalize (p : PatternParser) (patternId : Z) (filters : CombinedURLFilters) : outcome (PatternParser * CombinedURLFilters) :=
  if hasError p then Done (p, filters)
  else
    let* p1 := simplifySunkTerms (sinkFloatingTermIfNecessary p) in
    if negb (existsb matchesAtLeastOneCharacter (m_sunkTerms p1)) then Done (parser_fail p1 MatchesEverything, filters)
    else let* filters' := CombinedFilters.addPattern filters patternId (m_sunkTerms p1) in Done (p1, filters').

(** [URLFilterParser::addPattern(pattern, patternIsCaseSensitive, patternId)]. *)
Definition url_filter_addPattern (filters : CombinedURLFilters) (pattern : WTFString) (patternIsCaseSensitive : bool) (patternId : Z)
    : outcome (CombinedURLFilters * ParseStatus) :=
  if negb (containsOnlyASCII pattern) then Done (filters, NonASCII)
  else if s_isEmpty pattern then Done (filters, EmptyPattern)
  else
    let* (p, error) := yarr_parse 0 (newPatternParser patternIsCaseSensitive) (s_chars pattern) in
    if bool_decide (error = NoError) then
      let* (p', filters') := pattern_finalize p patternId filters in Done (filters', m_parseStatus p')
    else Done (filters, YarrError).

(** [URLFilterParser::statusString(status)]. *)
Definition statusString (status : ParseStatus) : WTFString :=
  s_literal
    match status with
    | Ok => "Ok"
    | MatchesEverything => "Matches everything."
    | NonASCII => "Only ASCII characters are supported in pattern."
    | UnsupportedCharacterClass => "Character class is not supported."
    | BackReference => "Patterns cannot contain backreferences."
    | MisplacedStartOfLine => "Start of line assertion can only appear as the first term in a filter."
    | WordBoundary => "Word boundaries assertions are not supported yet."
    | AtomCharacter => "Builtins character class atoms are not supported yet."
    | Group => "Groups are not supported yet."
    | Disjunction => "Disjunctions are not supported yet."
    | MisplacedEndOfLine => "The end of line assertion must be the last term in an expression."
    | EmptyPattern => "Empty pattern."
    | YarrError => "Internal error in YARR."
    | InvalidQuantifier => "Arbitrary atom repetitions are not supported."
    end.
