(* ===== verification/YarrProofs.v ===== *)
(** * Reasoning about the regular expression parser

    Every token reads at least one character, so the parser returns.  The rule
    [yarr_parse_rule] derives what a delegate keeps along a whole parse from
    what each of its methods keeps. *)

From S2P Require Import Prelude Containers YarrParser.

(** ** Reading characters shortens the input *)

Definition suffix_of (l input : list Z) : Prop := exists p, input = p ++ l /\ (92 ∉ p).

Lemma suffix_refl l : suffix_of l l.
Proof. exists []. split; [done|]. apply not_elem_of_nil. Qed.

Lemma suffix_cons c l input : c <> 92 -> suffix_of l input -> suffix_of l (c :: input).
Proof. intros Hc (p & -> & Hp). exists (c :: p). split; [done|]. rewrite not_elem_of_cons. naive_solver. Qed.

Lemma suffix_trans l l' l'' : suffix_of l l' -> suffix_of l' l'' -> suffix_of l l''.
Proof. intros (p & -> & Hp) (p' & -> & Hp'). exists (p' ++ p). rewrite app_assoc. split; [done|]. rewrite not_elem_of_app. naive_solver. Qed.

Lemma suffix_length l input : suffix_of l input -> (length l <= length input)%nat.
Proof. intros (p & -> & _). rewrite length_app. lia. Qed.

Lemma tryConsume_suffix ch input : ch <> 92 -> suffix_of (tryConsume ch input).2 input.
Proof.
  intros Hch. destruct input as [|c rest]; cbn [tryConsume]; [apply suffix_refl|].
  destruct (Z.eqb_spec c ch) as [->|]; [|apply suffix_refl]. apply suffix_cons; [done|apply suffix_refl].
Qed.

Lemma digit_not_backslash c : isASCIIDigit c = true -> c <> 92.
Proof. unfold isASCIIDigit. lia. Qed.

Lemma consume_digits_suffix n input : suffix_of (consume_digits n input).2 input.
Proof.
  revert n. induction input as [|c rest IH]; intros n; cbn [consume_digits]; [apply suffix_refl|].
  destruct (isASCIIDigit c) eqn:E; [|apply suffix_refl]. destruct (_ <=? _); [|apply suffix_refl].
  apply suffix_cons; [by apply digit_not_backslash|apply IH].
Qed.

Lemma consumeNumber_suffix input : peekIsDigit input = true -> exists n rest, consumeNumber input = Done (n, rest) /\ suffix_of rest input.
Proof.
  destruct input as [|c rest]; cbn [peekIsDigit]; [done|]. intros E. unfold consumeNumber. pose proof (consume_digits_suffix (c - 48) rest) as Hs.
  destruct (consume_digits (c - 48) rest) as [n rest']. exists n, rest'. split; [done|]. apply suffix_cons; [by apply digit_not_backslash|done].
Qed.

Lemma consume_octal_length n input : (length (consume_octal_digits n input).2 <= length input)%nat.
Proof.
  revert n. induction input as [|c rest IH]; intros n; cbn [consume_octal_digits]; [done|]. destruct (_ && _); [|done]. specialize (IH (n * 8 + (c - 48))). cbn [length]. lia.
Qed.

Lemma consume_hex_length count n input x rest : consume_hex count n input = Some (x, rest) -> (length rest <= length input)%nat.
Proof.
  revert n input. induction count as [|count IH]; intros n input; cbn [consume_hex]; [by intros [= _ <-]|].
  destruct input as [|c input]; [done|]. destruct (isASCIIHexDigit c); [|done]. intros E%IH. cbn [length]. lia.
Qed.

(** ** Escapes *)

Lemma escape_octal_total c rest : exists e rest', escape_octal (c :: rest) = Done (EscapeCharacter e, rest') /\ (length rest' <= length rest)%nat.
Proof.
  unfold escape_octal, consumeOctal. pose proof (consume_octal_length (c - 48) rest) as Hl. destruct (consume_octal_digits _ _) as [n rest'].
  exists n, rest'. split; [done|exact Hl].
Qed.

(** What an escape can be inside a class. *)
Definition class_escape (e : escape) : Prop := match e with EscapeCharacter _ | EscapeClass _ _ => True | _ => False end.

Lemma escape_decimal_total inClass limit c rest : exists e rest', escape_decimal inClass limit c (c :: rest) = Done (e, rest') /\
  (length rest' <= S (length rest))%nat /\ (inClass = true -> class_escape e).
Proof.
  unfold escape_decimal, consumeNumber. pose proof (consume_digits_suffix (c - 48) rest) as Hs%suffix_length. destruct (consume_digits _ _) as [n r]. cbn [obind fst snd] in *.
  destruct (negb inClass && _) eqn:E; [|destruct (56 <=? c)].
  - eexists _, _. split_and!; [done|lia|]. by intros ->.
  - eexists _, _. split_and!; [done|done|done].
  - destruct (escape_octal_total c rest) as (e & r' & E' & Hl). eexists _, _. split_and!; [exact E'|lia|done].
Qed.

Lemma escape_control_total inClass c rest : exists e rest', escape_control inClass (c :: rest) rest = Done (EscapeCharacter e, rest') /\ (length rest' <= S (length rest))%nat.
Proof. unfold escape_control. destruct rest as [|x rest]; [by eexists _, _|]. destruct (if inClass then _ else _); eexists _, _; (split; [done|]); cbn [length]; lia. Qed.

Lemma escape_hex_total count c rest : exists e rest', escape_hex count c rest = Done (EscapeCharacter e, rest') /\ (length rest' <= S (length rest))%nat.
Proof.
  unfold escape_hex, tryConsumeHex. destruct (consume_hex count 0 rest) as [[x r]|] eqn:E; [apply consume_hex_length in E|]; eexists _, _; (split; [done|]); lia.
Qed.

Lemma parseEscape_total inClass limit c rest : exists e rest', parseEscape inClass limit c rest = Done (e, rest') /\
  (length rest' <= S (length rest))%nat /\ (inClass = true -> class_escape e).
Proof.
  unfold parseEscape.
  repeat match goal with |- context [if ?b then _ else _] =>
    lazymatch b with
    | inClass => fail
    | _ => destruct b; [try (eexists _, _; split_and!; [done|lia|by intros ->; done])|]
    end
  end.
  - apply escape_decimal_total.
  - destruct (escape_octal_total c rest) as (e & r & E & Hl). eexists _, _. split_and!; [exact E|lia|done].
  - destruct (escape_control_total inClass c rest) as (e & r & E & Hl). eexists _, _. split_and!; [exact E|lia|done].
  - destruct (escape_hex_total 2 c rest) as (e & r & E & Hl). eexists _, _. split_and!; [exact E|lia|done].
  - destruct (escape_hex_total 4 c rest) as (e & r & E & Hl). eexists _, _. split_and!; [exact E|lia|done].
  - eexists _, _. split_and!; [done|lia|done].
Qed.

(** ** The rule for a parse *)

Section Rule.
Context {D : Type} `{YarrDelegate D}.
Variable limit : Z.
(** Whether a method may crash. *)
Variable crash_ok : Prop.

Definition wp {A} (o : outcome A) (P : A -> Prop) : Prop := match o with Done a => P a | Crash => crash_ok | OutOfFuel => False end.

Lemma wp_bind {A B} (m : outcome A) (f : A -> outcome B) (P : B -> Prop) : wp m (fun a => wp (f a) P) -> wp (obind m f) P.
Proof. by destruct m. Qed.

Lemma wp_mono {A} (m : outcome A) (P R : A -> Prop) : wp m P -> (forall a, P a -> R a) -> wp m R.
Proof. destruct m; simpl; auto. Qed.

(** What holds of the delegate at a nesting depth: between tokens, after an
    atom, and in a character class; the characters that are reported; and the
    inputs. *)
Variables (between after_atom in_class : D -> Z -> Prop) (Q : Z -> Prop) (input_ok : list Z -> Prop).

Record delegate_keeps : Prop := {
  keeps_atom : forall d n, after_atom d n -> between d n;
  keeps_bol : forall d n, between d n -> wp (assertionBOL d) (fun d' => between d' n);
  keeps_eol : forall d n, between d n -> wp (assertionEOL d) (fun d' => between d' n);
  keeps_boundary : forall d n b, between d n -> wp (assertionWordBoundary d b) (fun d' => between d' n);
  keeps_character : forall d n c, between d n -> Q c -> wp (atomPatternCharacter d c) (fun d' => after_atom d' n);
  keeps_builtin : forall d n k b, between d n -> wp (atomBuiltInCharacterClass d k b) (fun d' => after_atom d' n);
  keeps_class_begin : forall d n b, between d n -> wp (atomCharacterClassBegin d b) (fun d' => in_class d' n);
  keeps_class_atom : forall d n c, in_class d n -> Q c -> wp (atomCharacterClassAtom d c) (fun d' => in_class d' n);
  keeps_class_range : forall d n a b, in_class d n -> Q a -> Q b -> a <= b -> wp (atomCharacterClassRange d a b) (fun d' => in_class d' n);
  keeps_class_builtin : forall d n k b, in_class d n -> wp (atomCharacterClassBuiltIn d k b) (fun d' => in_class d' n);
  keeps_class_end : forall d n, in_class d n -> wp (atomCharacterClassEnd d) (fun d' => after_atom d' n);
  keeps_group_begin : forall d n b, 0 <= n -> between d n -> wp (atomParenthesesSubpatternBegin d b) (fun d' => between d' (n + 1));
  keeps_assertion_begin : forall d n b, 0 <= n -> between d n -> wp (atomParentheticalAssertionBegin d b) (fun d' => between d' (n + 1));
  keeps_group_end : forall d n, 0 < n -> between d n -> wp (atomParenthesesEnd d) (fun d' => after_atom d' (n - 1));
  keeps_back_reference : forall d n k, between d n -> wp (atomBackReference d k) (fun d' => after_atom d' n);
  keeps_quantify : forall d n a b g, after_atom d n -> wp (quantifyAtom d a b g) (fun d' => between d' n);
  keeps_disjunction : forall d n, between d n -> wp (disjunction d) (fun d' => between d' n)
}.

Definition escape_reports (e : escape) : Prop := match e with EscapeCharacter c => Q c | _ => True end.

Record input_reports : Prop := {
  input_hyphen : Q 45;
  input_next : forall c rest, c <> 92 -> input_ok (c :: rest) -> Q c /\ input_ok rest;
  input_escape : forall inClass c rest e rest', input_ok (92 :: c :: rest) -> parseEscape inClass limit c rest = Done (e, rest') ->
    escape_reports e /\ input_ok rest'
}.

Hypotheses (HD : delegate_keeps) (HI : input_reports).

Lemma input_suffix l input : suffix_of l input -> input_ok input -> input_ok l.
Proof.
  intros (p & -> & Hp). induction p as [|c p IH]; [done|]. apply not_elem_of_cons in Hp as [Hc Hp]. intros Hi. apply IH; [done|].
  by apply (input_next HI c).
Qed.

(** *** Character classes *)

Definition class_ok (d : CharacterClassParserDelegate) (n : Z) : Prop :=
  in_class (cc_delegate d) n /\ (cc_state d = CachedCharacter \/ cc_state d = CachedCharacterHyphen -> Q (cc_character d)).

Ltac wp_step := apply wp_bind; eapply wp_mono; [eauto using keeps_class_atom, keeps_class_range, keeps_class_builtin, input_hyphen|]; let Hw := fresh in intros ? Hw; cbn beta in Hw.

Lemma class_character_ok d n c hyphen : class_ok d n -> Q c -> wp (cc_atomPatternCharacter d c hyphen) (fun d' => class_ok d' n).
Proof.
  intros [Hd Hc] Hq. unfold cc_atomPatternCharacter. destruct (cc_state d) eqn:Es; [by split|destruct (_ && _)| |destruct (_ && _)|].
  - split; cbn; auto.
  - wp_step. by split.
  - destruct (Z.ltb_spec c (cc_character d)); [split; cbn; naive_solver|]. wp_step. split; cbn; naive_solver.
  - wp_step. split; cbn; naive_solver.
  - by split.
  - wp_step. split; cbn; naive_solver.
Qed.

Lemma class_builtin_ok d n k b : class_ok d n -> wp (cc_atomBuiltInCharacterClass d k b) (fun d' => class_ok d' n).
Proof.
  intros [Hd Hc]. unfold cc_atomBuiltInCharacterClass. destruct (cc_state d) eqn:Es; repeat wp_step. all: split; cbn; naive_solver.
Qed.

Lemma class_end_ok d n : class_ok d n -> wp (cc_end d) (fun d' => after_atom d' n).
Proof.
  intros [Hd Hc]. unfold cc_end. apply wp_bind.
  assert (Hm : forall o, wp o (fun d' => in_class d' n) -> wp o (fun d => wp (atomCharacterClassEnd d) (fun d' => after_atom d' n))).
  { intros o Ho. eapply wp_mono; [exact Ho|]. eauto using keeps_class_end. }
  apply Hm. destruct (cc_state d) eqn:Es; try exact Hd; [by apply (keeps_class_atom HD); auto|].
  clear Hm. wp_step. by apply (keeps_class_atom HD); [|apply (input_hyphen HI)].
Qed.

Lemma class_escape_ok d n e : class_ok d n -> class_escape e -> escape_reports e -> wp (cc_escape d e) (fun d' => class_ok d' n).
Proof. destruct e; simpl; try done; intros; [by apply class_character_ok|by apply class_builtin_ok]. Qed.

(** The result of a function that parses a part of the input. *)
Definition part_ok (P : D -> Prop) (input : list Z) (r : D * ErrorCode * list Z) : Prop :=
  (r.1.2 = NoError -> P r.1.1 /\ input_ok r.2) /\ (length r.2 <= length input)%nat.

Lemma part_error (P : D -> Prop) d err (rest input : list Z) : err <> NoError -> (length rest <= length input)%nat -> part_ok P input (d, err, rest).
Proof. by split. Qed.

Lemma part_weaken (P : D -> Prop) (input input' : list Z) r : (length input <= length input')%nat -> part_ok P input r -> part_ok P input' r.
Proof. intros Hl [H1 H2]. split; [done|lia]. Qed.

Lemma class_loop_ok fuel d n input : (length input <= fuel)%nat -> class_ok d n -> input_ok input ->
  wp (class_loop limit fuel d input) (part_ok (fun d' => after_atom d' n) input).
Proof.
  revert d input. induction fuel as [|fuel IH]; intros d [|c rest] Hf Hd Hi; cbn [class_loop length] in *; try (by apply part_error); [lia|].
  assert (Hnext : forall d' r, class_ok d' n -> input_ok r -> (length r <= length rest)%nat ->
    wp (if bool_decide (cc_err d' = NoError) then class_loop limit fuel d' r else Done (cc_delegate d', cc_err d', r))
       (part_ok (fun d' => after_atom d' n) (c :: rest))).
  { intros d' r Hd' Hr Hl. destruct (bool_decide_reflect (cc_err d' = NoError)); [|apply part_error; cbn [length]; [done|lia]].
    eapply wp_mono; [by apply IH; [lia|..]|]. intros p. apply part_weaken. cbn [length]. lia. }
  destruct (Z.eqb_spec c 93) as [->|].
  { apply wp_bind. eapply wp_mono; [by apply class_end_ok|]. intros d' Hd'. split; cbn [fst snd]; [|cbn [length]; lia]. intros _. split; [done|]. by apply (input_next HI 93). }
  destruct (Z.eqb_spec c 92) as [->|].
  - destruct rest as [|c' rest']; [apply part_error; [done|cbn [length]; lia]|].
    destruct (parseEscape_total true limit c' rest') as (e & r & E & Hl & He). rewrite E. cbn [obind].
    destruct (input_escape HI _ _ _ _ _ Hi E) as [Hq Hr]. apply wp_bind. eapply wp_mono; [by apply class_escape_ok; auto|]. intros d' Hd'. apply Hnext; [done..|exact Hl].
  - destruct (input_next HI c rest) as [Hq Hr]; [done..|]. apply wp_bind. eapply wp_mono; [by apply class_character_ok|]. intros d' Hd'. by apply Hnext.
Qed.

Lemma parseCharacterClass_ok d n input : between d n -> input_ok input -> wp (parseCharacterClass limit d input) (part_ok (fun d' => after_atom d' n) input).
Proof.
  intros Hd Hi. unfold parseCharacterClass. pose proof (tryConsume_suffix 94 input ltac:(done)) as Hs. destruct (tryConsume 94 input) as [b rest]. cbn [snd] in Hs.
  apply wp_bind. eapply wp_mono; [by apply (keeps_class_begin HD)|]. intros d' Hd'. eapply wp_mono.
  - apply (class_loop_ok _ _ n); [lia| |by eapply input_suffix]. split; cbn; [done|]. naive_solver.
  - intros r. apply part_weaken. by apply suffix_length.
Qed.

(** *** Tokens *)

Lemma parseParenthesesBegin_ok d n input : 0 <= n -> between d n -> input_ok input ->
  wp (parseParenthesesBegin d input) (part_ok (fun d' => between d' (n + 1)) input).
Proof.
  intros Hn Hd Hi. unfold parseParenthesesBegin. pose proof (tryConsume_suffix 63 input ltac:(done)) as Hs. destruct (tryConsume 63 input) as [b rest]. cbn [snd] in Hs.
  pose proof (suffix_length _ _ Hs) as Hl. apply (input_suffix _ _ Hs) in Hi.
  assert (Hopen : forall o r, wp o (fun d' => between d' (n + 1)) -> (length r <= length input)%nat -> input_ok r ->
    wp (let* d := o in Done (d, NoError, r)) (part_ok (fun d' => between d' (n + 1)) input)).
  { intros o r Ho Hr Hir. apply wp_bind. eapply wp_mono; [exact Ho|]. intros d' Hd'. by split. }
  destruct b; [|by apply Hopen; [apply (keeps_group_begin HD)|..]]. destruct rest as [|c rest]; [apply part_error; [done|cbn; lia]|]. cbn [length] in Hl.
  destruct (Z.eqb_spec c 58) as [->|]; [|destruct (Z.eqb_spec c 61) as [->|]; [|destruct (Z.eqb_spec c 33) as [->|]]];
    [apply Hopen; [by apply (keeps_group_begin HD)|lia|by apply (input_next HI _ rest) in Hi as [_ ?]]
    |apply Hopen; [by apply (keeps_assertion_begin HD)|lia|by apply (input_next HI _ rest) in Hi as [_ ?]]..
    |apply part_error; [done|lia]].
Qed.

Lemma parseQuantifier_ok d n atom a b input : between d n -> (atom = true -> after_atom d n) -> input_ok input ->
  wp (parseQuantifier d atom a b input) (part_ok (fun d' => between d' n) input).
Proof.
  intros Hd Ha Hi. unfold parseQuantifier. destruct (_ =? _); [by apply part_error|]. destruct atom; [|by apply part_error].
  pose proof (tryConsume_suffix 63 input ltac:(done)) as Hs. destruct (tryConsume 63 input) as [q rest]. cbn [snd] in Hs. apply wp_bind.
  eapply wp_mono; [by apply (keeps_quantify HD), Ha|]. intros d' Hd'. split; cbn [fst snd]; [|by apply suffix_length]. intros _. split; [done|]. by eapply input_suffix.
Qed.

Lemma brace_bounds_total input : exists r, brace_bounds input = Done r /\ match r with Some (_, _, rest) => suffix_of rest input | None => True end.
Proof.
  unfold brace_bounds. destruct (peekIsDigit input) eqn:E; [|by eexists]. destruct (consumeNumber_suffix input E) as (m & rest & -> & Hs). cbn [obind].
  pose proof (tryConsume_suffix 44 rest ltac:(done)) as Hs1. destruct (tryConsume 44 rest) as [comma rest1]. cbn [snd] in Hs1.
  assert (Hmax : exists x rest2, (if comma then if peekIsDigit rest1 then consumeNumber rest1 else Done (quantifyInfinite, rest1) else Done (m, rest1)) = Done (x, rest2)
    /\ suffix_of rest2 rest1).
  { destruct comma; [|by eexists _, _; split; [|apply suffix_refl]]. destruct (peekIsDigit rest1) eqn:E1; [by apply consumeNumber_suffix|].
    by eexists _, _; split; [|apply suffix_refl]. }
  destruct Hmax as (x & rest2 & -> & Hs2). cbn [obind]. pose proof (tryConsume_suffix 125 rest2 ltac:(done)) as Hs3.
  destruct (tryConsume 125 rest2) as [closed rest3]. cbn [snd] in Hs3. eexists. split; [done|]. destruct closed; [|done]. exact (suffix_trans _ _ _ Hs3 (suffix_trans _ _ _ Hs2 (suffix_trans _ _ _ Hs1 Hs))).
Qed.

Definition token_ok (s : token_state) : Prop :=
  between (k_delegate s) (k_depth s) /\ 0 <= k_depth s /\ (k_lastTokenWasAnAtom s = true -> after_atom (k_delegate s) (k_depth s)) /\ input_ok (k_input s).

Definition next_ok (rest : list Z) (r : token_state * ErrorCode) : Prop := (r.2 = NoError -> token_ok r.1) /\ (length (k_input r.1) <= length rest)%nat.

(** A token that is one call of the delegate. *)
Lemma call_ok (o : outcome D) n (atom : bool) (rest : list Z) : 0 <= n -> input_ok rest ->
  wp o (fun d => if atom then after_atom d n else between d n) ->
  wp (let* d := o in Done (mkTokenState d rest n atom, NoError)) (next_ok rest).
Proof.
  intros Hn Hi Ho. apply wp_bind. eapply wp_mono; [exact Ho|]. intros d Hd. split; cbn; [|done]. intros _. split_and!; cbn; try done.
  - destruct atom; [by apply (keeps_atom HD)|done].
  - by intros ->.
Qed.

(** A token that parses a part of the input. *)
Lemma parsed_ok (o : outcome (D * ErrorCode * list Z)) n (atom : bool) (rest : list Z) : 0 <= n ->
  wp o (part_ok (fun d => if atom then after_atom d n else between d n) rest) ->
  wp (let* (d, err, rest') := o in Done (mkTokenState d rest' n atom, err)) (next_ok rest).
Proof.
  intros Hn Ho. apply wp_bind. eapply wp_mono; [exact Ho|]. intros [[d err] rest'] [Hp Hl]. split; cbn in *; [|done]. intros He. apply Hp in He as [Hd Hi].
  split_and!; cbn; try done; [|by intros ->]. destruct atom; [by apply (keeps_atom HD)|done].
Qed.

Lemma escape_ok d n c rest : 0 <= n -> between d n -> input_ok (92 :: c :: rest) ->
  wp (let* (e, rest') := parseEscape false limit c rest in let* (d', atom) := atom_escape d e in Done (mkTokenState d' rest' n atom, NoError)) (next_ok (c :: rest)).
Proof.
  intros Hn Hd Hi. destruct (parseEscape_total false limit c rest) as (e & rest' & E & Hl & _). destruct (input_escape HI _ _ _ _ _ Hi E) as [Hq Hr]. rewrite E. cbn [obind].
  assert (Hw : forall r, next_ok rest' r -> next_ok (c :: rest) r) by (intros r [H1 H2]; split; [done|cbn [length]; lia]).
  assert (Hcall : forall o (atom : bool), wp o (fun d => if atom then after_atom d n else between d n) ->
    wp (let* (d', atom) := (let* d := o in Done (d, atom)) in Done (mkTokenState d' rest' n atom, NoError)) (next_ok (c :: rest))).
  { intros o atom Ho. eapply wp_mono; [|exact Hw]. destruct o as [d1| |]; try done. by apply (call_ok (Done d1) n atom). }
  destruct e; cbn [atom_escape]; apply Hcall.
  - by apply (keeps_character HD).
  - by apply (keeps_builtin HD).
  - by apply (keeps_boundary HD).
  - by apply (keeps_back_reference HD).
Qed.

Lemma parse_token_ok s c rest : k_input s = c :: rest -> token_ok s -> wp (parse_token limit s c rest) (next_ok rest).
Proof.
  intros Ei (Hb & Hn & Ha & Hi). rewrite Ei in Hi. unfold parse_token.
  destruct (Z.eq_dec c 92) as [->|Hc].
  { cbn [Z.eqb Pos.eqb orb]. destruct rest as [|c' rest]; [split; cbn; [done|lia]|]. by apply escape_ok. }
  destruct (input_next HI _ _ Hc Hi) as [Hq Hr].
  destruct (c =? 124); [apply (call_ok _ _ false); [done..|by apply (keeps_disjunction HD)]|].
  destruct (c =? 40).
  { apply (parsed_ok _ (k_depth s + 1) false); [lia|]. by apply parseParenthesesBegin_ok. }
  destruct (c =? 41).
  { destruct (Z.ltb_spec 0 (k_depth s)); [|by split]. apply (call_ok _ _ true); [lia|done|]. by apply (keeps_group_end HD). }
  destruct (c =? 94); [apply (call_ok _ _ false); [done..|by apply (keeps_bol HD)]|].
  destruct (c =? 36); [apply (call_ok _ _ false); [done..|by apply (keeps_eol HD)]|].
  destruct (c =? 46); [apply (call_ok _ _ true); [done..|by apply (keeps_builtin HD)]|].
  destruct (c =? 91); [apply (parsed_ok _ _ true); [done..|by apply parseCharacterClass_ok]|].
  destruct (Z.eqb_spec c 92); [done|].
  destruct (_ || _); [apply (parsed_ok _ _ false); [done..|by apply parseQuantifier_ok]|].
  assert (Hbounds : exists r, (if c =? 123 then brace_bounds rest else Done None) = Done r /\ match r with Some (_, _, rest') => suffix_of rest' rest | None => True end).
  { destruct (c =? 123); [apply brace_bounds_total|by eexists]. }
  destruct Hbounds as (r & -> & Hs). cbn [obind]. destruct r as [[[mn mx] rest']|].
  - pose proof (suffix_length _ _ Hs) as Hl. destruct (mn <=? mx); [|by split]. apply (parsed_ok _ _ false); [done|].
    eapply wp_mono; [apply parseQuantifier_ok; [done..|by eapply input_suffix]|]. intros p. by apply part_weaken.
  - apply (call_ok _ _ true); [done..|by apply (keeps_character HD)].
Qed.

Lemma token_loop_ok fuel s : (length (k_input s) <= fuel)%nat -> token_ok s ->
  wp (token_loop limit fuel s) (fun r => r.2 = NoError -> between r.1 0).
Proof.
  revert s. induction fuel as [|fuel IH]; intros s Hf Hs; cbn [token_loop]; destruct (k_input s) as [|c rest] eqn:Ei; cbn [length] in Hf; try lia.
  1,2: cbn [wp fst snd]; destruct Hs as (Hb & Hn & _); destruct (Z.ltb_spec 0 (k_depth s)); [done|]; by replace 0 with (k_depth s) by lia.
  apply wp_bind. eapply wp_mono; [by apply parse_token_ok|]. intros [s' err] [Hs' Hl]. cbn [fst snd] in *.
  destruct (bool_decide_reflect (err = NoError)) as [He|He]; [apply IH; [lia|auto]|]. cbn. intros ->. done.
Qed.

Lemma yarr_parse_rule d pattern : between d 0 -> input_ok pattern ->
  wp (yarr_parse limit d pattern) (fun r => r.2 = NoError -> between r.1 0).
Proof.
  intros Hd Hi. unfold yarr_parse. destruct (_ <? _); [done|]. apply token_loop_ok; [done|]. split_and!; cbn; try done.
Qed.
End Rule.
