(* ===== verification/UrlFilterTotal.v ===== *)
(** * The URL filter parser returns

    The regular expression parser returns for every delegate whose methods
    return; with the delegate of URL filters and a pattern whose escapes are
    punctuation it also fails no assertion. *)

From stdpp Require Import strings.
From S2P Require Import Prelude Containers Strings RangeList Nfa Term TermGraph TermTheorems CombinedFilters CombinedFiltersProofs CombinedFiltersTheorems.
From S2P Require Import YarrParser YarrProofs UrlFilterParser.

(** ** Termination of the parser *)

Definition anything {D} : D -> Z -> Prop := fun _ _ => True.

(** No method of the delegate runs forever. *)
Definition delegate_returns (D : Type) `{YarrDelegate D} : Prop :=
  delegate_keeps True (anything (D := D)) anything anything (fun _ => True).

Lemma every_input_reports limit : input_reports limit (fun _ => True) (fun _ => True).
Proof. constructor; auto. intros ? ? ? e ? _ _. by destruct e. Qed.

Lemma wp_anything {D} (o : outcome D) n : o <> OutOfFuel -> wp True o (fun d => anything d n).
Proof. by destruct o. Qed.

Lemma obind_returns {A B} (m : outcome A) (f : A -> outcome B) : m <> OutOfFuel -> (forall a, f a <> OutOfFuel) -> obind m f <> OutOfFuel.
Proof. destruct m; simpl; auto. Qed.

Lemma ofold_returns {A S} (body : S -> A -> outcome S) s l : (forall s x, body s x <> OutOfFuel) -> ofold body s l <> OutOfFuel.
Proof. intros Hb. revert s. induction l as [|x l IH]; intros s; simpl; [done|]. by apply obind_returns. Qed.

(** ** Character sets and terms *)

Lemma cs_set_returns cs c : cs_set cs c <> OutOfFuel.
Proof. unfold cs_set. by destruct (_ <? _). Qed.

Lemma addCharacter_returns t c b : addCharacter t c b <> OutOfFuel.
Proof.
  destruct t; try done. apply obind_returns; [|done]. unfold cs_addCharacter. destruct (_ || _); [apply cs_set_returns|].
  apply obind_returns; intros; apply cs_set_returns.
Qed.

Lemma vget_returns {A} (v : list A) i : vget v i <> OutOfFuel.
Proof. unfold vget. destruct (_ <? _); [done|]. by destruct (_ !! _). Qed.

Lemma unless_error_returns p body : (forall p, body p <> OutOfFuel) -> unless_error p body <> OutOfFuel.
Proof. unfold unless_error. by destruct (hasError p). Qed.

Lemma PatternParser_returns : delegate_returns PatternParser.
Proof.
  constructor; try done; intros; apply wp_anything; try done; apply unless_error_returns; intros p.
  - by destruct (_ || _).
  - by apply obind_returns.
  - destruct (negb _); [done|]. apply obind_returns; [|done]. apply addCharacter_returns.
  - destruct k; try done. destruct b; [|done]. apply obind_returns; [|done]. by vm_compute.
  - done.
  - apply obind_returns; [|done]. apply addCharacter_returns.
  - apply obind_returns; [|done]. apply ofold_returns. intros. apply addCharacter_returns.
  - done.
  - apply obind_returns; [|done]. apply vget_returns.
  - by repeat destruct (_ && _).
Qed.

(** C34: The regular expression parser terminates: on every pattern, with every
    limit for back references, and for every delegate whose methods return, the
    parse returns; each token reads at least one character, malformed classes,
    parentheses, escapes and quantifiers included. *)
Theorem yarr_parse_returns (D : Type) `{YarrDelegate D} (HD : delegate_returns D) (backReferenceLimit : Z) (d : D) (pattern : list Z) :
  yarr_parse backReferenceLimit d pattern <> OutOfFuel.
Proof.
  pose proof (yarr_parse_rule backReferenceLimit True _ _ _ _ _ HD (every_input_reports _) d pattern I I) as Hw. by destruct (yarr_parse _ _ _).
Qed.

Lemma yarr_parse_returns_witness : yarr_parse 0 (newPatternParser true) [40; 97; 123; 50; 92] <> OutOfFuel.
Proof. apply (yarr_parse_returns PatternParser PatternParser_returns 0 (newPatternParser true) [40; 97; 123; 50; 92]). Defined.

(** ** Patterns that fail no assertion *)

(** Every backslash is followed by a character other than a letter or a digit. *)
Fixpoint plain_escapes (input : list Z) : bool :=
  match input with
  | [] => true
  | c :: rest =>
      if c =? 92 then match rest with [] => true | c' :: rest' => negb (isASCIIAlphanumeric c') && plain_escapes rest' end
      else plain_escapes rest
  end.

Lemma parseEscape_punctuation inClass limit c rest : isASCIIAlphanumeric c = false -> parseEscape inClass limit c rest = Done (EscapeCharacter c, rest).
Proof.
  intros Hc. unfold parseEscape.
  assert (Hne : forall k, isASCIIAlphanumeric k = true -> (c =? k) = false) by (intros k Hk; apply Z.eqb_neq; intros ->; congruence).
  rewrite !Hne by done. unfold isASCIIAlphanumeric, isASCIIDigit in Hc. apply orb_false_iff in Hc as [Hc _].
  destruct ((49 <=? c) && (c <=? 57)) eqn:E; [lia|done].
Qed.

Definition ascii_char (c : Z) : Prop := 0 <= c < 128.
Definition plain_input (input : list Z) : Prop := Forall ascii_char input /\ plain_escapes input = true.

Lemma plain_input_reports limit : input_reports limit ascii_char plain_input.
Proof.
  constructor.
  - unfold ascii_char. lia.
  - intros c rest Hc [[Ha Hr]%Forall_cons Hp]. split; [done|]. split; [done|]. cbn [plain_escapes] in Hp. by destruct (Z.eqb_spec c 92).
  - intros b c rest e rest' [[_ [Ha Hr]%Forall_cons]%Forall_cons Hp] E. cbn [plain_escapes Z.eqb Pos.eqb] in Hp. apply andb_true_iff in Hp as [Hc Hp].
    apply negb_true_iff in Hc. rewrite parseEscape_punctuation in E by done. injection E as <- <-. by split.
Qed.

(** An error, or as many open groups as parentheses. *)
Definition groups_open (p : PatternParser) (n : Z) : Prop := hasError p = true \/ vsize (m_openGroups p) = n.

Lemma hasError_fail p reason : reason <> Ok -> hasError (parser_fail p reason) = true.
Proof. intros Hr. unfold parser_fail. destruct (hasError p) eqn:E; [done|]. unfold hasError. cbn. by destruct (bool_decide_reflect (reason = Ok)). Qed.

Lemma extend_last_group_size gs t : vsize (extend_last_group gs t) = vsize gs.
Proof. induction gs as [|g [|g' gs] IH]; [done|done|]. change (vsize (g :: extend_last_group (g' :: gs) t) = vsize (g :: g' :: gs)). by rewrite vsize_cons, IH, (vsize_cons g). Qed.

Lemma sink_groups p n : groups_open p n -> groups_open (sinkFloatingTermIfNecessary p) n.
Proof.
  intros Hp. unfold sinkFloatingTermIfNecessary. destruct (negb _); [done|]. destruct (m_hasProcessedEndOfLineAssertion p).
  - left. apply (hasError_fail p MisplacedEndOfLine). done.
  - destruct Hp as [Hp|Hp]; [left; by destruct (m_openGroups p)|right].
    destruct (m_openGroups p) as [|g gs] eqn:E; [done|]. cbn [m_openGroups]. by rewrite extend_last_group_size.
Qed.

Lemma cs_set_total cs c : ascii_char c -> exists cs', cs_set cs c = Done cs'.
Proof. unfold ascii_char. intros Hc. unfold cs_set. destruct (Z.ltb_spec c 128); [|lia]. by eexists. Qed.

Lemma to_upper_ascii c : ascii_char c -> ascii_char (toASCIIUpper c) /\ ascii_char (toASCIILower c).
Proof.
  intros Hc. assert (Ha : forallb (fun c => (0 <=? toASCIIUpper c) && (toASCIIUpper c <? 128) && (0 <=? toASCIILower c) && (toASCIILower c <? 128)) (seqZ 0 128) = true)
    by (vm_compute; reflexivity).
  rewrite forallb_forall in Ha. specialize (Ha c). rewrite <- list_elem_of_In, elem_of_seqZ in Ha. unfold ascii_char in *. specialize (Ha Hc). lia.
Qed.

Lemma addCharacter_total t c b : ascii_char c -> exists t', addCharacter t c b = Done t'.
Proof.
  intros Hc. destruct t as [q|cs q|ts q]; cbn [addCharacter]; [by eexists| |by eexists]. unfold cs_addCharacter. destruct (_ || _).
  - destruct (cs_set_total cs c Hc) as [cs' ->]. by eexists.
  - destruct (to_upper_ascii c Hc) as [Hu Hl]. destruct (cs_set_total cs _ Hu) as [cs1 ->]. cbn [obind]. destruct (cs_set_total cs1 _ Hl) as [cs2 ->]. by eexists.
Qed.

Lemma addCharacters_total t l b : Forall ascii_char l -> exists t', ofold (fun t i => addCharacter t i b) t l = Done t'.
Proof.
  intros Hl. revert t. induction Hl as [|c l Hc Hl IH]; intros t; [by eexists|]. cbn [ofold]. destruct (addCharacter_total t c b Hc) as [t' ->]. apply IH.
Qed.

Lemma vget_last {A} (l : list A) : 0 < vsize l -> exists l' x, l = l' ++ [x] /\ vget l (vsize l - 1) = Done x.
Proof.
  intros Hl. destruct l as [|x l' _] using rev_ind; [change (vsize (@nil A)) with 0 in Hl; lia|]. exists l', x. split; [done|]. rewrite vsize_app. change (vsize [x]) with 1.
  replace (vsize l' + 1 - 1) with (vsize l') by lia. apply vget_Done. split; [apply vsize_nonneg|]. unfold vsize. rewrite Nat2Z.id, lookup_app_r by lia. by rewrite Nat.sub_diag.
Qed.

Lemma unless_error_keeps p n m body : groups_open p n -> (groups_open p n -> hasError p = false -> wp False (body p) (fun p' => groups_open p' m)) ->
  wp False (unless_error p body) (fun p' => groups_open p' m).
Proof. intros Hp Hb. unfold unless_error. destruct (hasError p) eqn:E; [by left|by apply Hb]. Qed.

Lemma fail_keeps p n reason : reason <> Ok -> wp False (Done (parser_fail p reason)) (fun p' => groups_open p' n).
Proof. left. by apply hasError_fail. Qed.

Lemma PatternParser_keeps : delegate_keeps False groups_open groups_open groups_open ascii_char.
Proof.
  constructor; intros; try done; try (by apply fail_keeps); try (eapply unless_error_keeps; [eassumption|]; intros Hp He).
  - destruct (_ || _); [by apply fail_keeps|]. destruct Hp as [Hp|Hp]; [by left|by right].
  - by apply sink_groups.
  - destruct (negb _); [by apply fail_keeps|]. destruct (addCharacter_total (CharacterSetTerm emptyCharacterSet One) c (m_patternIsCaseSensitive d)) as [t E]; [done|].
    unfold Term_character. rewrite through_char_ascii, E by done. by apply sink_groups.
  - assert (Hs := sink_groups d n Hp). destruct k; try (by apply fail_keeps). destruct b; [|by apply fail_keeps].
    assert (E : exists t, Term_universalTransition = Done t) by (eexists; vm_compute; reflexivity). destruct E as [t ->]. exact Hs.
  - by apply sink_groups.
  - destruct (addCharacter_total (m_floatingTerm d) c (m_patternIsCaseSensitive d)) as [t ->]; done.
  - destruct (addCharacters_total (m_floatingTerm d) (seqZ a (b - a + 1)) (m_patternIsCaseSensitive d)) as [t ->]; [|done].
    apply Forall_forall. intros x [? ?]%elem_of_seqZ. unfold ascii_char in *. lia.
  - destruct (sink_groups d n Hp) as [Hs|Hs]; [by left|right]. cbn. rewrite vsize_app, Hs. done.
  - set (p1 := sinkFloatingTermIfNecessary d). assert (Hl : vsize (m_openGroups p1) = n).
    { destruct Hp as [Hp|Hp]; [congruence|]. unfold p1, sinkFloatingTermIfNecessary. destruct (negb _); [done|]. destruct (m_hasProcessedEndOfLineAssertion d).
      - unfold parser_fail. rewrite He. done.
      - destruct (m_openGroups d) eqn:E; [done|]. cbn [m_openGroups]. by rewrite extend_last_group_size. }
    destruct (vget_last (m_openGroups p1)) as (gs & g & Eg & E); [lia|]. cbv zeta. fold p1.
    rewrite E. right. cbn. rewrite Eg, removelast_last. rewrite Eg, vsize_app in Hl. change (vsize [g]) with 1 in Hl. lia.
  - repeat destruct (_ && _); try done. by apply fail_keeps.
Qed.

(** ** Simplification returns *)

Lemma isASCII_range c : isASCII c = true -> ascii_char c.
Proof.
  unfold isASCII, ascii_char. intros E%Z.eqb_eq. replace c with (Z.land c (Z.ones 7)); [rewrite Z.land_ones by lia; apply (Z.mod_pos_bound c (2 ^ 7)); lia|].
  apply Z.bits_inj'. intros i Hi. apply (f_equal (fun z => Z.testbit z i)) in E. change 127 with (Z.ones 7) in E.
  rewrite Z.land_spec, Z.bits_0, Z.lnot_spec in E by done. rewrite Z.land_spec. destruct (Z.testbit (Z.ones 7) i), (Z.testbit c i); done.
Qed.

Lemma canonical_dot_stars_nil d b ts : canonical_dot_stars d b ts = [] -> b = false -> ts = [].
Proof. destruct ts as [|t ts]; [done|]. cbn. destruct (isKnownToMatchAnyString t), b; done. Qed.

Lemma drop_trailing_nonempty ts : ts <> [] -> 0 < vsize (drop_trailing_dot_star ts).
Proof.
  intros Hts. assert (Hn : 0 < vsize ts) by (destruct ts as [|x ts]; [done|]; rewrite vsize_cons; pose proof (vsize_nonneg ts); lia).
  unfold drop_trailing_dot_star. destruct (rev ts) as [|eol [|dot rest]] eqn:Er; [done..|]. destruct (Z.ltb_spec 2 (vsize ts)); [|done]. cbn [andb].
  destruct (_ && _); [|done]. apply (f_equal vsize) in Er. rewrite !vsize_cons in Er. unfold vsize in *. rewrite !length_rev in *. lia.
Qed.

Lemma simplify_terms_total bol ts : exists ts', simplify_terms bol ts = Done ts'.
Proof.
  unfold simplify_terms. destruct ts as [|t ts]; [by eexists|].
  assert (E : exists u, Term_universalTransition = Done u) by (eexists; vm_compute; reflexivity). destruct E as [u ->]. cbn [obind].
  destruct (canonical_dot_stars (quantify u ZeroOrMore) false (t :: ts)) as [|t1 ts1] eqn:E1; [by apply canonical_dot_stars_nil in E1|]. change (vget (t1 :: ts1) 0) with (Done t1). cbn [obind].
  match goal with |- context [drop_trailing_dot_star ?l] => assert (H3 : 0 < vsize (drop_trailing_dot_star l)) by (apply drop_trailing_nonempty; by destruct (_ && _)) end.
  destruct (vget_last _ H3) as (l & x & _ & ->). by eexists.
Qed.

(** C33: Adding a filter always returns, whatever the pattern, as long as its
    escapes are of characters other than letters and digits: no release
    assertion of the parser, of the character sets or of the combined filters
    fails, and the combined filters stay well formed, also when the pattern is
    malformed or not supported. *)
Theorem url_filter_addPattern_total f pattern patternIsCaseSensitive patternId : filters_ok f -> plain_escapes (s_chars pattern) = true ->
  exists f' status, url_filter_addPattern f pattern patternIsCaseSensitive patternId = Done (f', status) /\ filters_ok f'.
Proof.
  intros Hf Hp. unfold url_filter_addPattern. destruct (containsOnlyASCII pattern) eqn:Ea; [|by eexists _, _]. cbn [negb]. destruct (s_isEmpty pattern); [by eexists _, _|].
  assert (Hi : plain_input (s_chars pattern)).
  { split; [|done]. unfold containsOnlyASCII in Ea. rewrite forallb_forall in Ea. apply Forall_forall. intros c Hc%list_elem_of_In. by apply isASCII_range, Ea. }
  pose proof (yarr_parse_rule 0 False _ _ _ _ _ PatternParser_keeps (plain_input_reports 0) (newPatternParser patternIsCaseSensitive) _ (or_intror eq_refl) Hi) as Hw.
  destruct (yarr_parse 0 _ _) as [[p err]| |]; [|done..]. cbn [obind]. destruct (bool_decide_reflect (err = NoError)); [|by eexists _, _].
  unfold pattern_finalize. destruct (hasError p); [by eexists _, _|]. unfold simplifySunkTerms.
  destruct (simplify_terms_total (m_hasBeginningOfLineAssertion (sinkFloatingTermIfNecessary p)) (m_sunkTerms (sinkFloatingTermIfNecessary p))) as [ts ->]. cbn [obind with_sunkTerms m_sunkTerms].
  destruct (existsb matchesAtLeastOneCharacter ts) eqn:Ex; cbn [negb]; [|by eexists _, _].
  destruct (addPattern_spec f patternId ts Hf) as (f' & E & Hf' & _); [by intros ->|]. rewrite E. by eexists _, _.
Qed.

Lemma url_filter_addPattern_total_witness : plain_escapes (s_chars (s_literal "https?://a\.b(c")) = true /\
  exists f' status, url_filter_addPattern emptyCombinedURLFilters (s_literal "https?://a\.b(c") false 7 = Done (f', status) /\ filters_ok f'.
Proof.
  split; [vm_compute; reflexivity|].
  apply (url_filter_addPattern_total emptyCombinedURLFilters (s_literal "https?://a\.b(c") false 7); [exact empty_filters_ok|vm_compute; reflexivity].
Defined.
