(* ===== verification/UrlFilterSimplify.v ===== *)
(** * Simplification keeps what a filter matches

    A filter matches a URL when some prefix of the rest of the URL, from some
    position, is in the language of its terms; the URL ends in a zero, the end
    of the line.  The languages are compared up to extensional equality. *)

From S2P Require Import Prelude Containers Strings RangeList Nfa Term TermGraph TermTheorems CombinedFilters.
From S2P Require Import YarrParser UrlFilterParser UrlFilterTotal.

(** ** Languages up to equivalence *)

#[global] Instance lang_equiv : Equiv lang := fun A B => forall w, A w <-> B w.

#[global] Instance lang_equivalence : Equivalence (≡@{lang}).
Proof.
  split; [by intros A w|by intros A B HAB w; symmetry|]. intros A B C HAB HBC w. by rewrite (HAB w), (HBC w).
Qed.

#[global] Instance lang_concat_proper : Proper ((≡) ==> (≡) ==> (≡)) lang_concat.
Proof. intros A A' HA B B' HB w. unfold lang_concat. by setoid_rewrite (HA _); setoid_rewrite (HB _). Qed.

Lemma terms_lang_app_equiv a b : terms_lang (a ++ b) ≡ lang_concat (terms_lang a) (terms_lang b).
Proof. intros w. apply terms_lang_app. Qed.

Lemma lang_concat_assoc_equiv A B C : lang_concat (lang_concat A B) C ≡ lang_concat A (lang_concat B C).
Proof. intros w. apply lang_concat_assoc. Qed.

Lemma terms_lang_singleton t : terms_lang [t] ≡ term_lang t.
Proof. intros w. apply lang_concat_nil_r. Qed.

(** ** Matching a URL *)

(** Some prefix of the URL, with its end of line, is in the language. *)
Definition lang_matches (A : lang) (url : list Z) : Prop := exists p s, url ++ [0] = p ++ s /\ A p.

#[global] Instance lang_matches_proper : Proper ((≡) ==> (=) ==> (iff)) lang_matches.
Proof. intros A A' HA url _ <-. unfold lang_matches. by setoid_rewrite (HA _). Qed.

Definition terms_match (ts : list Term) (url : list Z) : Prop := lang_matches (terms_lang ts) url.

(** A filter that is not anchored can match from any position. *)
Definition filter_match (anchored : bool) (ts : list Term) (url : list Z) : Prop :=
  if anchored then terms_match ts url else exists u v, url = u ++ v /\ terms_match ts v.

(** ** The terms of a filter *)

(** The term never matches the end of the line, nor is it taken for the
    assertion of it. *)
Fixpoint plain_term (t : Term) : Prop :=
  match t with
  | EmptyTerm _ => False
  | CharacterSetTerm cs _ => cs_wf cs /\ isEndOfLineAssertion t = false /\ cs_matches cs 0 = false
  | GroupTerm ts _ => (fix all ts := match ts with [] => True | t :: ts' => plain_term t /\ all ts' end) ts
  end.

Lemma plain_term_group ts q : plain_term (GroupTerm ts q) <-> Forall plain_term ts.
Proof. simpl. induction ts as [|t ts IH]; [split; [constructor|done]|]. rewrite Forall_cons, <- IH. done. Qed.

Definition eol_term : Term := CharacterSetTerm (mkCharacterSet false 1 0) One.

(** Terms that match no end of line, and possibly the assertion at the end. *)
Definition filter_terms (ts : list Term) : Prop :=
  exists init last, ts = init ++ last /\ Forall plain_term init /\ (last = [] \/ last = [eol_term]).

Lemma plain_term_wf t : plain_term t -> term_wf t.
Proof.
  induction t as [q|cs q|ts q IH] using Term_ind'; [done|by intros (? & _)|]. rewrite plain_term_group, term_wf_group, !Forall_forall.
  rewrite Forall_forall in IH. auto.
Qed.

Definition url_words (A : lang) : Prop := forall w, A w -> url_word w.

Lemma quantified_url_words q A : url_words A -> url_words (lang_quantified q A).
Proof.
  intros HA. assert (Hstar : url_words (lang_star A)).
  { intros w Hw. induction Hw as [|u v Hu _ IH]; [constructor|]. apply Forall_app. split; [by apply HA|done]. }
  intros w. destruct q; simpl; [apply HA| |apply Hstar|].
  - intros [->|Hw]; [constructor|by apply HA].
  - intros (u & v & -> & Hu & Hv). apply Forall_app. split; [by apply HA|by apply Hstar].
Qed.

Lemma terms_url_words ts : Forall (fun t => url_words (term_lang t)) ts -> url_words (terms_lang ts).
Proof. induction 1 as [|t ts Ht _ IH]; [by intros w ->; constructor|]. intros w (u & v & -> & Hu & Hv). apply Forall_app. split; [by apply Ht|by apply IH]. Qed.

Lemma cs_matches_range cs c : cs_matches cs c = true -> 0 <= c < 128.
Proof. unfold cs_matches. destruct (m_inverted cs); lia. Qed.

Lemma plain_url_words t : plain_term t -> url_words (term_lang t).
Proof.
  induction t as [q|cs q|ts q IH] using Term_ind'; [done|..]; intros Hp; apply quantified_url_words.
  - destruct Hp as (_ & _ & H0). intros w (c & -> & Hc). constructor; [|constructor]. pose proof (cs_matches_range _ _ Hc).
    destruct (Z.eq_dec c 0) as [->|]; [congruence|lia].
  - apply plain_term_group in Hp. intros w Hw%atom_lang_group. eapply terms_url_words; [|exact Hw]. rewrite Forall_forall in *. auto.
Qed.

Lemma plain_terms_url_words ts : Forall plain_term ts -> url_words (terms_lang ts).
Proof. intros Hts. apply terms_url_words. eapply Forall_impl; [exact Hts|]. apply plain_url_words. Qed.

(** ** Terms known to match any string *)

Lemma universal_url_words t : isUniversalTransition t = true -> url_words (atom_lang t).
Proof.
  induction t as [q|cs q|ts q IH] using Term_ind'; [done|..]; intros Hu.
  - intros w (c & -> & Hc). constructor; [|constructor]. pose proof (cs_matches_range _ _ Hc). cbn [isUniversalTransition] in Hu. unfold cs_matches in Hc.
    destruct (m_inverted cs); [lia|]. cbn [andb orb negb] in Hu. apply andb_true_iff in Hu as [_ H0%negb_true_iff].
    destruct (Z.eq_dec c 0) as [->|]; [|lia]. rewrite H0 in Hc. by rewrite andb_false_r in Hc.
  - cbn [isUniversalTransition] in Hu. destruct ts as [|t [|? ?]]; [done| |done]. apply Forall_cons in IH as [IH _].
    intros w Hw%atom_lang_group. apply terms_lang_singleton in Hw. exact (quantified_url_words _ _ (IH Hu) w Hw).
Qed.

Lemma any_string_url_words t : isKnownToMatchAnyString t = true -> url_words (term_lang t).
Proof.
  induction t as [q|cs q|ts q IH] using Term_ind'; [done|..]; intros Hk; apply quantified_url_words.
  - cbn [isKnownToMatchAnyString] in Hk. apply andb_true_iff in Hk as [Hk _]. exact (universal_url_words _ Hk).
  - cbn [isKnownToMatchAnyString] in Hk. destruct ts as [|t [|? ?]]; [done| |done]. apply Forall_cons in IH as [IH _].
    intros w Hw%atom_lang_group. apply terms_lang_singleton in Hw. destruct (isKnownToMatchAnyString t); [by apply IH|].
    destruct (isUniversalTransition t) eqn:Hu; [|done]. exact (quantified_url_words _ _ (universal_url_words _ Hu) w Hw).
Qed.

Lemma any_string_lang t : term_wf t -> isKnownToMatchAnyString t = true -> term_lang t ≡ url_word.
Proof. intros Hw Hk w. split; [by apply any_string_url_words|by apply any_string_sound]. Qed.

Lemma url_word_twice A : lang_concat url_word (lang_concat url_word A) ≡ lang_concat url_word A.
Proof.
  rewrite <- lang_concat_assoc_equiv. apply lang_concat_proper; [|done]. intros w. split.
  - intros (u & v & -> & Hu & Hv). by apply Forall_app.
  - intros Hw. exists w, []. rewrite app_nil_r. split_and!; [done..|constructor].
Qed.

(** ** The steps of the simplification *)

Section Steps.
Variable dotStar : Term.
Hypotheses (dot_plain : plain_term dotStar) (dot_any : isKnownToMatchAnyString dotStar = true).

Lemma dot_lang : term_lang dotStar ≡ url_word.
Proof. apply any_string_lang; [by apply plain_term_wf|done]. Qed.

Lemma canonical_lang ts : Forall term_wf ts ->
  terms_lang (canonical_dot_stars dotStar false ts) ≡ terms_lang ts /\
  lang_concat url_word (terms_lang (canonical_dot_stars dotStar true ts)) ≡ lang_concat url_word (terms_lang ts).
Proof.
  induction 1 as [|t ts Ht _ [IH1 IH2]]; [done|]. cbn [canonical_dot_stars]. destruct (isKnownToMatchAnyString t) eqn:Hk; cbn [terms_lang].
  - rewrite dot_lang, (any_string_lang t Ht Hk), url_word_twice. by split.
  - by rewrite IH1.
Qed.

Lemma filter_terms_cons t ts : plain_term t -> filter_terms ts -> filter_terms (t :: ts).
Proof. intros Ht (init & last & -> & Hi & Hl). exists (t :: init), last. split_and!; [done|by constructor|done]. Qed.

Lemma canonical_filter_terms b ts : filter_terms ts -> filter_terms (canonical_dot_stars dotStar b ts).
Proof.
  intros (init & last & -> & Hi & Hl). revert b. induction Hi as [|t init Ht Hi IH]; intros b; cbn [canonical_dot_stars app].
  - exists [], last. split_and!; [|constructor|done]. by destruct Hl as [->| ->].
  - destruct (isKnownToMatchAnyString t), b.
    1: apply IH.
    all: match goal with |- context [canonical_dot_stars dotStar ?b' _] => destruct (IH b') as (i & l & -> & Hi' & Hl') end;
      by apply filter_terms_cons; [|eexists i, l].
Qed.

Lemma filter_terms_wf ts : filter_terms ts -> Forall term_wf ts.
Proof.
  intros (init & last & -> & Hi & Hl). apply Forall_app. split; [eapply Forall_impl; [exact Hi|]; apply plain_term_wf|].
  destruct Hl as [->| ->]; [constructor|]. repeat constructor; cbn; lia.
Qed.
End Steps.

Lemma url_prefix w url r : url_word w -> url ++ [0] = w ++ r -> exists v, url = w ++ v /\ v ++ [0] = r.
Proof.
  intros Hw. revert url. induction Hw as [|c w Hc Hw IH]; intros url E; [by exists url|]. destruct url as [|x url]; cbn in E; injection E as E0 E; [lia|]. subst x.
  destruct (IH _ E) as (v & -> & <-). by exists v.
Qed.

(** A leading [.*] matches from every position. *)
Lemma matches_anywhere A url : url_word url -> lang_matches (lang_concat url_word A) url <-> exists u v, url = u ++ v /\ lang_matches A v.
Proof.
  intros Hu. split.
  - intros (p & s & E & (w & p' & -> & Hw & Hp)). rewrite <- app_assoc in E. destruct (url_prefix _ _ _ Hw E) as (v & -> & Ev). exists w, v. split; [done|]. by exists p', s.
  - intros (u & v & -> & p & s & E & Hp). apply Forall_app in Hu as [Hu _]. exists (u ++ p), s. rewrite <- !app_assoc, E. split; [done|]. by exists u, p.
Qed.

Lemma eol_lang : term_lang eol_term ≡ (fun w => w = [0]).
Proof.
  intros w. unfold eol_term, term_lang. cbn [lang_quantified m_quantifier atom_lang]. split; [|by intros ->; exists 0].
  intros (c & -> & Hc). f_equal. pose proof (cs_matches_range _ _ Hc) as Hr.
  assert (Ha : forallb (fun c => negb (cs_matches (mkCharacterSet false 1 0) c) || (c =? 0)) (seqZ 0 128) = true) by (vm_compute; reflexivity).
  rewrite forallb_forall in Ha. specialize (Ha c). rewrite <- list_elem_of_In, elem_of_seqZ, Hc in Ha. specialize (Ha Hr). cbn [negb orb] in Ha. lia.
Qed.

(** What follows a match does not matter before a [.*$]. *)
Lemma matches_to_end A url : url_word url -> url_words A -> lang_matches (lang_concat A (lang_concat url_word (fun w => w = [0]))) url <-> lang_matches A url.
Proof.
  intros Hu HA. split.
  - intros (p & s & E & (w & p' & -> & Hw & _)). exists w, (p' ++ s). by rewrite app_assoc.
  - intros (p & s & E & Hp). destruct (url_prefix _ _ _ (HA p Hp) E) as (v & -> & Ev). apply Forall_app in Hu as [_ Hv]. exists (p ++ v ++ [0]), [].
    rewrite app_nil_r. split; [by rewrite app_assoc|]. exists p, (v ++ [0]). split_and!; [done..|]. by exists v, [0].
Qed.

Lemma matches_prefix A B url : B [] -> lang_matches (lang_concat A B) url <-> lang_matches A url.
Proof.
  intros HB. split.
  - intros (p & s & E & (w & p' & -> & Hw & _)). exists w, (p' ++ s). by rewrite app_assoc.
  - intros (p & s & E & Hp). exists p, s. split; [done|]. exists p, []. by rewrite app_nil_r.
Qed.

(** ** Terms that can match empty *)

Lemma optional_quantifier t : bool_decide (m_quantifier t = ZeroOrOne) || bool_decide (m_quantifier t = ZeroOrMore) = true -> term_lang t [].
Proof. intros [E%bool_decide_eq_true|E%bool_decide_eq_true]%orb_true_iff; unfold term_lang; rewrite E; [by left|constructor]. Qed.

Lemma nullable_terms ts : Forall (fun t => term_lang t []) ts -> terms_lang ts [].
Proof. induction 1 as [|t ts Ht _ IH]; [done|]. by exists [], []. Qed.

Lemma matches_empty t : plain_term t -> matchesAtLeastOneCharacter t = false -> term_lang t [].
Proof.
  induction t as [q|cs q|ts q IH] using Term_ind'; [done|..]; intros Hp Hm; cbn [matchesAtLeastOneCharacter] in Hm;
    (destruct (bool_decide (m_quantifier _ = ZeroOrOne) || _) eqn:Eq; [by apply optional_quantifier|]).
  - destruct Hp as (_ & He & _). by rewrite He in Hm.
  - cbn [isEndOfLineAssertion] in Hm. apply plain_term_group in Hp. apply lang_quantified_once, atom_lang_group, nullable_terms.
    induction ts as [|t ts IHts]; [constructor|]. cbn [existsb] in Hm. apply orb_false_iff in Hm as [Hm1 Hm2]. apply Forall_cons in IH as [IH1 IH2], Hp as [Hp1 Hp2].
    constructor; [by apply IH1|by apply IHts].
Qed.

Lemma drop_irrelevant_spec l : exists dropped, l = dropped ++ drop_irrelevant l /\ Forall (fun t => matchesAtLeastOneCharacter t = false) dropped.
Proof.
  induction l as [|t l (d & E & Hd)]; [by exists []|]. cbn [drop_irrelevant]. destruct (matchesAtLeastOneCharacter t) eqn:Et; [by exists []|].
  exists (t :: d). split; [by rewrite E at 1|by constructor].
Qed.

Lemma drop_irrelevant_matches ts url : Forall plain_term ts -> terms_match (rev (drop_irrelevant (rev ts))) url <-> terms_match ts url.
Proof.
  intros Hp. destruct (drop_irrelevant_spec (rev ts)) as (d & E & Hd). apply (f_equal (@rev Term)) in E. rewrite rev_involutive, rev_app_distr in E.
  unfold terms_match. rewrite E at 2. rewrite terms_lang_app_equiv, matches_prefix; [done|]. apply nullable_terms, Forall_rev.
  rewrite E in Hp. apply Forall_app in Hp as [_ Hp]. apply Forall_rev in Hp. rewrite rev_involutive in Hp. rewrite Forall_forall in *. auto using matches_empty.
Qed.

(** ** The whole simplification *)

Lemma plain_not_eol t : plain_term t -> isEndOfLineAssertion t = false.
Proof. destruct t; [done| |done]. by intros (_ & ? & _). Qed.

Lemma drop_trailing_spec ts url : filter_terms ts -> url_word url ->
  filter_terms (drop_trailing_dot_star ts) /\ (terms_match (drop_trailing_dot_star ts) url <-> terms_match ts url).
Proof.
  intros Hts Hu. unfold drop_trailing_dot_star. destruct (rev ts) as [|eol [|dot rest]] eqn:Er; [done..|].
  destruct (_ && _) eqn:Hc; [|done]. apply andb_true_iff in Hc as [[_ He]%andb_true_iff Hd].
  apply (f_equal (@rev Term)) in Er. rewrite rev_involutive in Er. cbn [rev] in Er. destruct Hts as (init & last & E & Hi & Hl).
  destruct Hl as [->| ->].
  - rewrite app_nil_r in E. subst init. rewrite Er in Hi. apply Forall_app in Hi as [_ Hi]. apply Forall_cons in Hi as [Hi%plain_not_eol _]. congruence.
  - rewrite Er in E. apply app_inj_tail in E as [<- ->]. apply Forall_app in Hi as [Hi [Hd' _]%Forall_cons]. split.
    + exists (rev rest), []. rewrite app_nil_r. auto.
    + unfold terms_match. rewrite Er, <- app_assoc, terms_lang_app_equiv. cbn [app terms_lang].
      rewrite (any_string_lang dot) by (done || by apply plain_term_wf). setoid_rewrite terms_lang_singleton. rewrite eol_lang, matches_to_end; [done..|].
      by apply plain_terms_url_words.
Qed.

Lemma canonical_elem dotStar b ts t : t ∈ canonical_dot_stars dotStar b ts -> t = dotStar \/ t ∈ ts.
Proof.
  revert b. induction ts as [|x ts IH]; intros b; [by intros ?%elem_of_nil|]. cbn [canonical_dot_stars].
  destruct (isKnownToMatchAnyString x); [destruct b|]; rewrite ?elem_of_cons; naive_solver.
Qed.

Lemma drop_trailing_elem ts t : t ∈ drop_trailing_dot_star ts -> t ∈ ts.
Proof.
  unfold drop_trailing_dot_star. destruct (rev ts) as [|eol [|dot rest]] eqn:Er; [done..|]. destruct (_ && _); [|done].
  rewrite <- (rev_involutive ts), Er, !list_elem_of_In, <- !in_rev. cbn. auto.
Qed.

Lemma drop_irrelevant_elem ts t : t ∈ rev (drop_irrelevant (rev ts)) -> t ∈ ts.
Proof.
  destruct (drop_irrelevant_spec (rev ts)) as (d & E & _). intros Ht. rewrite list_elem_of_In, <- in_rev in *. rewrite (in_rev ts), E. apply in_app_iff. by right.
Qed.

(** The canonical [.*]. *)
Definition dot_star : Term := CharacterSetTerm (mkCharacterSet false (2 ^ 64 - 2) (2 ^ 64 - 1)) ZeroOrMore.

Lemma universal_dot_star : exists u, Term_universalTransition = Done u /\ quantify u ZeroOrMore = dot_star.
Proof. eexists. split; vm_compute; reflexivity. Qed.

Lemma dot_star_plain : plain_term dot_star.
Proof. split_and!; [split; cbn; lia|vm_compute; reflexivity..]. Qed.

Lemma dot_star_any : isKnownToMatchAnyString dot_star = true.
Proof. vm_compute. reflexivity. Qed.

(** The front of the filter: a [.*] unless it is anchored. *)
Lemma front_matches bol ts first ts1 url : filter_terms ts -> url_word url -> canonical_dot_stars dot_star false ts = first :: ts1 ->
  let ts2 := if negb bol && negb (isKnownToMatchAnyString first) then dot_star :: first :: ts1 else first :: ts1 in
  filter_terms ts2 /\ (terms_match ts2 url <-> filter_match bol ts url).
Proof.
  intros Hts Hu Ec ts2. destruct (canonical_lang dot_star dot_star_plain dot_star_any ts (filter_terms_wf _ Hts)) as [Hl _].
  pose proof (canonical_filter_terms dot_star dot_star_plain false ts Hts) as Hf. rewrite Ec in Hl, Hf. unfold filter_match, terms_match. subst ts2.
  pose proof (dot_lang dot_star dot_star_plain dot_star_any) as Hd.
  destruct bol; cbn [negb andb]; [by rewrite Hl|]. destruct (isKnownToMatchAnyString first) eqn:Ek; cbn [negb]; (split; [first [done|apply filter_terms_cons; [apply dot_star_plain|done]]|]).
  - rewrite <- (matches_anywhere _ _ Hu), <- Hl. cbn [terms_lang]. rewrite (any_string_lang first), url_word_twice; [done| |done].
    apply filter_terms_wf, Forall_cons in Hf as [? _]. done.
  - rewrite <- (matches_anywhere _ _ Hu), <- Hl. cbn [terms_lang]. by rewrite Hd.
Qed.

Lemma simplify_spec bol ts : filter_terms ts -> exists ts', simplify_terms bol ts = Done ts' /\ filter_terms ts' /\
  (Forall plain_term ts -> Forall plain_term ts') /\ (forall url, url_word url -> terms_match ts' url <-> filter_match bol ts url).
Proof.
  intros Hts. unfold simplify_terms. destruct ts as [|t ts].
  { exists []. split_and!; [done..|]. intros url _. assert (Ht : forall v, terms_match [] v) by (intros v; by exists [], (v ++ [0])).
    destruct bol; cbn; [done|]. split; [|by intros]. intros _. exists [], url. by split. }
  destruct universal_dot_star as (u & -> & Eu). cbn [obind]. rewrite Eu. cbv zeta. remember (t :: ts) as l eqn:El.
  destruct (canonical_dot_stars dot_star false l) as [|first ts1] eqn:Ec; [by apply canonical_dot_stars_nil in Ec; subst|].
  change (vget (first :: ts1) 0) with (Done first). cbn [obind].
  pose proof (fun url Hu => front_matches bol l first ts1 url Hts Hu Ec) as Hfront. set (ts2 := if _ && _ then _ else _) in *.
  destruct (Hfront [] ltac:(constructor)) as [H2 _].
  assert (Hn3 : 0 < vsize (drop_trailing_dot_star ts2)) by (apply drop_trailing_nonempty; unfold ts2; by destruct (_ && _)).
  assert (He2 : forall x, x ∈ ts2 -> x = dot_star \/ x ∈ l).
  { intros x. unfold ts2. assert (Hc := canonical_elem dot_star false l x). rewrite Ec in Hc. destruct (_ && _); rewrite ?elem_of_cons in *; naive_solver. }
  clearbody ts2. destruct (drop_trailing_spec ts2 [] H2 ltac:(constructor)) as [H3 _].
  assert (Hm3 : forall url, url_word url -> terms_match (drop_trailing_dot_star ts2) url <-> filter_match bol l url).
  { intros url Hu. rewrite <- (proj2 (Hfront url Hu)). by apply drop_trailing_spec. }
  assert (He3 : forall x, x ∈ drop_trailing_dot_star ts2 -> x = dot_star \/ x ∈ l) by (intros x Hx%drop_trailing_elem; auto).
  assert (Hplain : forall l', (forall x, x ∈ l' -> x = dot_star \/ x ∈ l) -> Forall plain_term l -> Forall plain_term l').
  { intros l' Hsub Hl. apply Forall_forall. intros x [->|Hx]%Hsub; [apply dot_star_plain|]. rewrite Forall_forall in Hl. auto. }
  set (ts3 := drop_trailing_dot_star ts2) in *. clearbody ts3. destruct (vget_last ts3 Hn3) as (init & x & E3 & ->). cbn [obind].
  destruct (isEndOfLineAssertion x) eqn:Ex; [exists ts3; split_and!; auto|].
  assert (Hp3 : Forall plain_term ts3).
  { destruct H3 as (i & last & E & Hi & [->| ->]); [by rewrite E, app_nil_r|]. rewrite E3 in E. apply app_inj_tail in E as [_ ->]. by vm_compute in Ex. }
  eexists. split; [done|]. assert (Hd : Forall plain_term (rev (drop_irrelevant (rev ts3)))).
  { rewrite Forall_forall in *. intros y Hy%drop_irrelevant_elem. auto. }
  split_and!; [|auto|].
  - eexists _, []. rewrite app_nil_r. split_and!; [done|done|by left].
  - intros url Hu. rewrite drop_irrelevant_matches by done. auto.
Qed.
