(* ===== verification/UrlFilterParse.v ===== *)
(** * The language of URL filters, and parsing it

    A specification of what the url-filter strings of content blockers mean:
    their abstract syntax, how it is written, and the URLs a filter accepts.
    Nothing here refers to the parser. *)

From S2P Require Import Prelude Containers Strings RangeList Nfa Term TermGraph TermTheorems CombinedFilters YarrParser UrlFilterParser YarrProofs UrlFilterTotal UrlFilterSimplify.

(** ** Abstract syntax *)

Inductive class_item := ClassCharacter (c : Z) | ClassRange (a b : Z).

Inductive item :=
| Character (c : Z) (q : AtomQuantifier)
| AnyCharacter (q : AtomQuantifier)
| Class (inverted : bool) (items : list class_item) (q : AtomQuantifier)
| Subpattern (items : list item) (q : AtomQuantifier).

Record url_filter := mkFilter { f_start : bool; f_items : list item; f_end : bool }.

Definition item_ind' (P : item -> Prop) (Hc : forall c q, P (Character c q)) (Ha : forall q, P (AnyCharacter q))
    (Hl : forall b l q, P (Class b l q)) (Hs : forall l q, Forall P l -> P (Subpattern l q)) : forall i, P i :=
  fix F i :=
    match i with
    | Character c q => Hc c q
    | AnyCharacter q => Ha q
    | Class b l q => Hl b l q
    | Subpattern l q => Hs l q ((fix G l := match l return Forall P l with
                                            | [] => Forall_nil_2 P
                                            | i :: l' => Forall_cons_2 P i l' (F i) (G l')
                                            end) l)
    end.

(** ** Characters *)

Definition url_char (c : Z) : bool := (1 <=? c) && (c <? 128).

Definition class_item_ok (i : class_item) : bool :=
  match i with ClassCharacter c => url_char c | ClassRange a b => url_char a && url_char b && (a <=? b) end.

Fixpoint item_ok (i : item) : bool :=
  match i with
  | Character c _ => url_char c
  | AnyCharacter _ => true
  | Class _ l _ => forallb class_item_ok l
  | Subpattern l _ => forallb item_ok l
  end.

Definition filter_ok (f : url_filter) : bool := forallb item_ok (f_items f).

(** ** Concrete syntax *)

Definition print_quantifier (q : AtomQuantifier) : list Z :=
  match q with One => [] | ZeroOrOne => [63] | ZeroOrMore => [42] | OneOrMore => [43] end.

(** The characters [^$\.*+?()[]{}|], which have to be escaped. *)
Definition special : list Z := [94; 36; 92; 46; 42; 43; 63; 40; 41; 91; 93; 123; 125; 124].
Definition class_special : list Z := [93; 92; 94; 45].

Definition escaped (specials : list Z) (c : Z) : list Z := if bool_decide (c ∈ specials) then [92; c] else [c].

Definition print_class_item (i : class_item) : list Z :=
  match i with
  | ClassCharacter c => escaped class_special c
  | ClassRange a b => escaped class_special a ++ 45 :: escaped class_special b
  end.

Definition print_class (l : list class_item) : list Z := concat (map print_class_item l).

Fixpoint print_item (i : item) : list Z :=
  match i with
  | Character c q => escaped special c ++ print_quantifier q
  | AnyCharacter q => 46 :: print_quantifier q
  | Class inverted l q => 91 :: (if inverted then [94] else []) ++ print_class l ++ 93 :: print_quantifier q
  | Subpattern l q => 40 :: concat (map print_item l) ++ 41 :: print_quantifier q
  end.

Definition print_items (l : list item) : list Z := concat (map print_item l).

Definition print_filter (f : url_filter) : list Z :=
  (if f_start f then [94] else []) ++ print_items (f_items f) ++ (if f_end f then [36] else []).

(** ** Meaning *)

Definition same_character (caseSensitive : bool) (a c : Z) : bool :=
  if caseSensitive then c =? a else toASCIILower c =? toASCIILower a.

Definition class_chars (i : class_item) : list Z :=
  match i with ClassCharacter c => [c] | ClassRange a b => seqZ a (b - a + 1) end.

Definition in_class (caseSensitive : bool) (l : list class_item) (c : Z) : bool :=
  existsb (fun a => same_character caseSensitive a c) (concat (map class_chars l)).

Definition item_quantifier (i : item) : AtomQuantifier :=
  match i with Character _ q | AnyCharacter q | Class _ _ q | Subpattern _ q => q end.

Fixpoint item_atom (caseSensitive : bool) (i : item) : lang :=
  match i with
  | Character a _ => fun w => exists c, w = [c] /\ 1 <= c < 128 /\ same_character caseSensitive a c = true
  | AnyCharacter _ => fun w => exists c, w = [c] /\ 1 <= c < 128
  | Class inverted l _ => fun w => exists c, w = [c] /\ 1 <= c < 128 /\ xorb inverted (in_class caseSensitive l c) = true
  | Subpattern l _ =>
      (fix all (l : list item) : lang :=
         match l with
         | [] => fun w => w = []
         | i :: l' => lang_concat (lang_quantified (item_quantifier i) (item_atom caseSensitive i)) (all l')
         end) l
  end.

Definition item_lang (caseSensitive : bool) (i : item) : lang := lang_quantified (item_quantifier i) (item_atom caseSensitive i).

Fixpoint items_lang (caseSensitive : bool) (l : list item) : lang :=
  match l with
  | [] => fun w => w = []
  | i :: l' => lang_concat (item_lang caseSensitive i) (items_lang caseSensitive l')
  end.

(** The filter accepts a URL when the URL has a part that its items match, at
    the start of the URL or at its end if the filter says so. *)
Definition filter_accepts (caseSensitive : bool) (f : url_filter) (url : list Z) : Prop :=
  exists before part after, url = before ++ part ++ after /\ items_lang caseSensitive (f_items f) part /\
    (f_start f = true -> before = []) /\ (f_end f = true -> after = []).

(** ** Parsing what was printed

    Running the regular expression parser with the delegate of URL filters on
    the text of a filter builds terms with the meaning of the filter. *)

(** ** Characters and sets *)

Lemma url_char_range c : url_char c = true -> 1 <= c < 128.
Proof. unfold url_char. lia. Qed.

Definition ascii_pairs (P : Z -> Z -> bool) : bool := forallb (fun a => forallb (P a) (seqZ 0 128)) (seqZ 0 128).

Lemma ascii_pairs_spec P a c : ascii_pairs P = true -> 0 <= a < 128 -> 0 <= c < 128 -> P a c = true.
Proof.
  unfold ascii_pairs. rewrite forallb_forall. intros Hp Ha Hc. specialize (Hp a). rewrite <- list_elem_of_In, elem_of_seqZ, forallb_forall in Hp.
  specialize (Hp Ha c). rewrite <- list_elem_of_In, elem_of_seqZ in Hp. auto.
Qed.

Lemma same_character_insensitive a c : 0 <= a < 128 -> 0 <= c < 128 ->
  same_character false a c = if isASCIIAlpha a then (c =? toASCIIUpper a) || (c =? toASCIILower a) else c =? a.
Proof.
  intros Ha Hc. apply eqb_prop.
  exact (ascii_pairs_spec (fun a c => Bool.eqb (same_character false a c) (if isASCIIAlpha a then (c =? toASCIIUpper a) || (c =? toASCIILower a) else c =? a)) a c
    ltac:(vm_compute; reflexivity) Ha Hc).
Qed.

Lemma same_character_zero s a : 1 <= a < 128 -> same_character s a 0 = false.
Proof.
  intros Ha. unfold same_character. destruct s; [lia|]. rewrite (toASCIILower_spec a) by lia. change (toASCIILower 0) with 0. unfold isASCIIUpper. destruct (_ && _) eqn:E; lia.
Qed.

(** A set that is another one with some characters added. *)
Definition adds (s : bool) (cs : CharacterSet) (l : list Z) (cs' : CharacterSet) : Prop :=
  cs_wf cs' /\ m_inverted cs' = m_inverted cs /\
  forall x, 0 <= x < 128 -> cs_mem cs' x = cs_mem cs x || existsb (fun a => same_character s a x) l.

Lemma adds_nil s cs : cs_wf cs -> adds s cs [] cs.
Proof. intros Hw. split_and!; [done..|]. intros x _. cbn. by rewrite orb_false_r. Qed.

Lemma adds_app s cs l cs' l' cs'' : adds s cs l cs' -> adds s cs' l' cs'' -> adds s cs (l ++ l') cs''.
Proof.
  intros (_ & I1 & M1) (W2 & I2 & M2). split_and!; [done|congruence|]. intros x Hx. by rewrite M2, M1, existsb_app, orb_assoc.
Qed.

Lemma cs_addCharacter_adds cs c s : cs_wf cs -> 1 <= c < 128 -> exists cs', cs_addCharacter cs c s = Done cs' /\ adds s cs [c] cs'.
Proof.
  intros Hw Hc. unfold cs_addCharacter. destruct (s || negb (isASCIIAlpha c)) eqn:E.
  - destruct (cs_set_spec cs c Hw ltac:(lia)) as (cs' & -> & Hw' & Hi & Hm). exists cs'. split; [done|]. split_and!; [done..|]. intros x Hx. cbn [existsb].
    rewrite Hm, orb_false_r by done. f_equal. destruct s; [done|]. rewrite same_character_insensitive by lia. cbn in E. apply negb_true_iff in E. by rewrite E.
  - apply orb_false_iff in E as [-> E%negb_false_iff]. destruct (to_upper_ascii c ltac:(unfold ascii_char; lia)) as [Hu Hl]. unfold ascii_char in *.
    destruct (cs_set_spec cs _ Hw Hu) as (cs1 & -> & Hw1 & Hi1 & Hm1). cbn [obind]. destruct (cs_set_spec cs1 _ Hw1 Hl) as (cs2 & -> & Hw2 & Hi2 & Hm2).
    exists cs2. split; [done|]. split_and!; [done|congruence|]. intros x Hx. cbn [existsb]. rewrite Hm2, Hm1, orb_false_r, same_character_insensitive, E by lia. by rewrite orb_assoc.
Qed.

Lemma addCharacters_adds cs q l s : cs_wf cs -> Forall (fun c => 1 <= c < 128) l ->
  exists cs', ofold (fun t i => addCharacter t i s) (CharacterSetTerm cs q) l = Done (CharacterSetTerm cs' q) /\ adds s cs l cs'.
Proof.
  intros Hw Hl. revert cs Hw. induction Hl as [|c l Hc Hl IH]; intros cs Hw; [exists cs; split; [done|by apply adds_nil]|]. cbn [ofold addCharacter].
  destruct (cs_addCharacter_adds cs c s Hw Hc) as (cs1 & -> & H1). cbn [obind]. destruct (IH cs1 (proj1 H1)) as (cs2 & -> & H2). exists cs2. split; [done|].
  exact (adds_app _ _ [c] _ _ _ H1 H2).
Qed.

Definition empty_set (inverted : bool) : CharacterSet := mkCharacterSet inverted 0 0.

Lemma empty_set_wf b : cs_wf (empty_set b).
Proof. split; cbn; lia. Qed.

Lemma empty_set_mem b x : 0 <= x < 128 -> cs_mem (empty_set b) x = false.
Proof. intros Hx. rewrite cs_mem_testbit by done. cbn. destruct (x <? 64); apply Z.bits_0. Qed.

(** The term of a set of URL characters. *)
Lemma adds_term s b l cs q : Forall (fun c => 1 <= c < 128) l -> adds s (empty_set b) l cs ->
  plain_term (CharacterSetTerm cs q) /\
  (atom_lang (CharacterSetTerm cs q) ≡ fun w => exists c, w = [c] /\ 1 <= c < 128 /\ xorb b (existsb (fun a => same_character s a c) l) = true).
Proof.
  intros Hl (Hw & Hi & Hm). cbn in Hi. assert (Hm' : forall x, 0 <= x < 128 -> cs_mem cs x = existsb (fun a => same_character s a x) l).
  { intros x Hx. by rewrite Hm, empty_set_mem. }
  assert (H0 : cs_mem cs 0 = false).
  { rewrite Hm' by lia. apply not_true_iff_false. intros (a & Ha%list_elem_of_In & E)%existsb_exists. rewrite Forall_forall in Hl. rewrite same_character_zero in E; [done|auto]. }
  split.
  - split_and!; [done| |].
    + cbn [isEndOfLineAssertion]. by rewrite H0, andb_false_r.
    + unfold cs_matches. rewrite H0, Hi. destruct b; cbn; done.
  - intros w. cbn [atom_lang]. unfold cs_matches. rewrite Hi. split; intros (c & -> & Hc); exists c; (split; [done|]).
    + assert (Hr : 1 <= c < 128).
      { destruct b; [lia|]. apply andb_true_iff in Hc as [Hr Hc]. destruct (Z.eq_dec c 0) as [->|]; [congruence|lia]. }
      split; [done|]. rewrite <- Hm' by lia. destruct b; apply andb_true_iff in Hc as [_ Hc]; [by rewrite negb_true_iff in Hc; rewrite Hc|by rewrite Hc].
    + destruct Hc as [Hr Hc]. rewrite <- Hm' in Hc by lia. destruct b, (cs_mem cs c); cbn in *; try done; lia.
Qed.

(** ** Character classes *)

Section Classes.
Variables (p : PatternParser) (s : bool).
Hypotheses (no_error : hasError p = false) (case_of : m_patternIsCaseSensitive p = s).

Definition in_set (cs : CharacterSet) : PatternParser := with_floating p (CharacterSetTerm cs One).

Lemma class_atom cs c : cs_wf cs -> 1 <= c < 128 -> exists cs', atomCharacterClassAtom (in_set cs) c = Done (in_set cs') /\ adds s cs [c] cs'.
Proof.
  intros Hw Hc. destruct (cs_addCharacter_adds cs c s Hw Hc) as (cs' & E & Ha). exists cs'. split; [|done].
  cbn [atomCharacterClassAtom PatternParser_delegate]. unfold pp_atomCharacterClassAtom, unless_error. change (hasError (in_set cs)) with (hasError p). rewrite no_error.
  cbn [in_set with_floating m_floatingTerm m_patternIsCaseSensitive addCharacter]. by rewrite case_of, E.
Qed.

Lemma class_range cs a b : cs_wf cs -> 1 <= a -> b < 128 -> exists cs', atomCharacterClassRange (in_set cs) a b = Done (in_set cs') /\ adds s cs (seqZ a (b - a + 1)) cs'.
Proof.
  intros Hw Ha Hb. destruct (addCharacters_adds cs One (seqZ a (b - a + 1)) s Hw) as (cs' & E & Had).
  { apply Forall_forall. intros x [? ?]%elem_of_seqZ. lia. }
  exists cs'. split; [|done]. cbn [atomCharacterClassRange PatternParser_delegate]. unfold pp_atomCharacterClassRange, unless_error.
  change (hasError (in_set cs)) with (hasError p). rewrite no_error. cbn [in_set with_floating m_floatingTerm m_patternIsCaseSensitive]. by rewrite case_of, E.
Qed.

(** The state of the class parser: the set so far, and the character that was
    read but not yet added. *)
Definition class_at (d : CharacterClassParserDelegate) (cs : CharacterSet) (pending : list Z) : Prop :=
  cc_delegate d = in_set cs /\ cc_err d = NoError /\ cs_wf cs /\
  match pending with
  | [] => cc_state d = CC_Empty
  | [c] => cc_state d = CachedCharacter /\ cc_character d = c /\ 1 <= c < 128
  | _ => False
  end.

Lemma class_character d cs pending c hyphen : class_at d cs pending -> 1 <= c < 128 -> hyphen && (c =? 45) = false ->
  exists d' cs', cc_atomPatternCharacter d c hyphen = Done d' /\ class_at d' cs' [c] /\ adds s cs pending cs'.
Proof.
  intros (Ed & Ee & Hw & Hs) Hc Hh. unfold cc_atomPatternCharacter. destruct pending as [|x [|? ?]]; [| |done].
  - rewrite Hs. eexists _, cs. split; [done|]. split; [split_and!; done || lia|by apply adds_nil].
  - destruct Hs as (-> & Ex & Hx). rewrite Hh, Ed, Ex. destruct (class_atom cs x Hw Hx) as (cs' & -> & Ha). eexists _, cs'. split; [done|]. split; [|done].
    split_and!; try done; try lia. apply Ha.
Qed.

Lemma special_class_char c : c ∈ class_special -> isASCIIAlphanumeric c = false.
Proof. unfold class_special. rewrite !elem_of_cons, elem_of_nil. intros [->|[->|[->|[->|[]]]]]; reflexivity. Qed.

(** Reading one printed character. *)
Lemma class_loop_character fuel d cs pending c rest : class_at d cs pending -> 1 <= c < 128 ->
  exists d' cs', class_loop 0 (S fuel) d (escaped class_special c ++ rest) = class_loop 0 fuel d' rest /\ class_at d' cs' [c] /\ adds s cs pending cs'.
Proof.
  intros Hd Hc. unfold escaped. destruct (bool_decide_reflect (c ∈ class_special)) as [Hs|Hs].
  - destruct (class_character d cs pending c false Hd Hc eq_refl) as (d' & cs' & E & Hd' & Ha). exists d', cs'. split; [|done].
    change ([92; c] ++ rest) with (92 :: c :: rest). cbn [class_loop Z.eqb Pos.eqb]. rewrite parseEscape_punctuation by (by apply special_class_char).
    cbn [obind cc_escape]. rewrite E. cbn [obind]. destruct Hd' as (_ & Ee & _). by rewrite Ee.
  - unfold class_special in Hs. rewrite !not_elem_of_cons in Hs. destruct Hs as (H93 & H92 & _ & H45 & _).
    destruct (class_character d cs pending c true Hd Hc) as (d' & cs' & E & Hd' & Ha); [by apply Z.eqb_neq|]. exists d', cs'. split; [|done].
    cbn [app class_loop]. destruct (Z.eqb_spec c 93); [done|]. destruct (Z.eqb_spec c 92); [done|]. rewrite E. cbn [obind]. destruct Hd' as (_ & Ee & _). by rewrite Ee.
Qed.

(** The hyphen and the end of a range. *)
Lemma class_loop_range fuel d cs a b rest : class_at d cs [a] -> 1 <= b < 128 -> a <= b ->
  exists d' cs', class_loop 0 (S (S fuel)) d (45 :: escaped class_special b ++ rest) = class_loop 0 fuel d' rest /\ class_at d' cs' [] /\ adds s cs (seqZ a (b - a + 1)) cs'.
Proof.
  intros (Ed & Ee & Hw & Es & Ea & Ha) Hb Hab. destruct (class_range cs a b Hw) as (cs' & Er & Had); [lia..|].
  set (d1 := cc_with d (cc_delegate d) CachedCharacterHyphen). exists (cc_with d (in_set cs') CC_Empty), cs'. split; [|split; [|done]].
  2: { split_and!; [done|done|apply Had|done]. }
  assert (Eh : cc_atomPatternCharacter d 45 true = Done d1) by (unfold cc_atomPatternCharacter; by rewrite Es).
  assert (Ec : forall h, cc_atomPatternCharacter d1 b h = Done (cc_with d (in_set cs') CC_Empty)).
  { intros h. unfold cc_atomPatternCharacter, d1. cbn [cc_state cc_with cc_character cc_delegate]. rewrite Ea. destruct (Z.ltb_spec b a); [lia|]. rewrite Ed.
    by rewrite Er. }
  change (class_loop 0 (S (S fuel)) d (45 :: escaped class_special b ++ rest)) with
    (let* d' := cc_atomPatternCharacter d 45 true in
     if bool_decide (cc_err d' = NoError) then class_loop 0 (S fuel) d' (escaped class_special b ++ rest) else Done (cc_delegate d', cc_err d', escaped class_special b ++ rest)).
  rewrite Eh. cbn [obind]. change (cc_err d1) with (cc_err d). rewrite Ee. cbn [bool_decide decide_rel ErrorCode_eq_dec].
  unfold escaped. destruct (bool_decide_reflect (b ∈ class_special)) as [Hs|Hs].
  - change ([92; b] ++ rest) with (92 :: b :: rest). cbn [class_loop Z.eqb Pos.eqb]. rewrite parseEscape_punctuation by (by apply special_class_char).
    cbn [obind cc_escape]. rewrite Ec. cbn [obind cc_err cc_with]. by rewrite Ee.
  - unfold class_special in Hs. rewrite !not_elem_of_cons in Hs. destruct Hs as (H93 & H92 & _). cbn [app class_loop].
    destruct (Z.eqb_spec b 93); [done|]. destruct (Z.eqb_spec b 92); [done|]. rewrite Ec. cbn [obind cc_err cc_with]. by rewrite Ee.
Qed.

Lemma class_end d cs pending : class_at d cs pending -> exists cs', cc_end d = Done (in_set cs') /\ adds s cs pending cs'.
Proof.
  intros (Ed & _ & Hw & Hs). unfold cc_end. destruct pending as [|x [|? ?]]; [| |done].
  - rewrite Hs, Ed. exists cs. split; [done|by apply adds_nil].
  - destruct Hs as (-> & -> & Hx). rewrite Ed. destruct (class_atom cs x Hw Hx) as (cs' & -> & Ha). exists cs'. split; [done|done].
Qed.

Lemma escaped_length l c : (1 <= length (escaped l c))%nat.
Proof. unfold escaped. destruct (bool_decide _); cbn; lia. Qed.

Lemma class_loop_items l (rest : list Z) : forallb class_item_ok l = true -> forall fuel d cs pending, class_at d cs pending ->
  (length (print_class l ++ 93%Z :: rest) <= fuel)%nat ->
  exists cs', class_loop 0 fuel d (print_class l ++ 93 :: rest) = Done (in_set cs', NoError, rest) /\ adds s cs (pending ++ concat (map class_chars l)) cs'.
Proof.
  induction l as [|i l IH]; intros Hl fuel d cs pending Hd Hf.
  - destruct fuel as [|fuel]; [cbn in Hf; lia|]. destruct (class_end d cs pending Hd) as (cs' & E & Ha). exists cs'. rewrite app_nil_r. split; [|done].
    change (class_loop 0 (S fuel) d (print_class [] ++ 93 :: rest)) with (let* delegate := cc_end d in Done (delegate, NoError, rest)). by rewrite E.
  - cbn [forallb] in Hl. apply andb_true_iff in Hl as [Hi Hl]. unfold print_class in *. cbn [map concat] in *. rewrite <- app_assoc, length_app in Hf.
    rewrite <- (app_assoc (print_class_item i)). destruct i as [c|a b]; cbn [print_class_item class_chars class_item_ok] in *.
    + pose proof (escaped_length class_special c). destruct fuel as [|fuel]; [lia|]. apply url_char_range in Hi.
      destruct (class_loop_character fuel d cs pending c (concat (map print_class_item l) ++ 93 :: rest) Hd Hi) as (d1 & cs1 & -> & Hd1 & Ha1).
      destruct (IH Hl fuel d1 cs1 [c] Hd1) as (cs2 & -> & Ha2); [lia|]. exists cs2. split; [done|]. exact (adds_app _ _ _ _ _ _ Ha1 Ha2).
    + apply andb_true_iff in Hi as [[Ha%url_char_range Hb%url_char_range]%andb_true_iff Hab%Z.leb_le].
      pose proof (escaped_length class_special a). pose proof (escaped_length class_special b). rewrite length_app in Hf. cbn [length] in Hf.
      destruct fuel as [|[|[|fuel]]]; [lia..|]. rewrite <- (app_assoc (escaped class_special a)). cbn [app].
      destruct (class_loop_character (S (S fuel)) d cs pending a (45 :: escaped class_special b ++ concat (map print_class_item l) ++ 93 :: rest) Hd Ha)
        as (d1 & cs1 & -> & Hd1 & Ha1).
      destruct (class_loop_range fuel d1 cs1 a b (concat (map print_class_item l) ++ 93 :: rest) Hd1 Hb Hab) as (d2 & cs2 & -> & Hd2 & Ha2).
      destruct (IH Hl fuel d2 cs2 [] Hd2) as (cs3 & -> & Ha3); [lia|]. exists cs3. split; [done|].
      exact (adds_app _ _ _ _ _ _ Ha1 (adds_app _ _ _ _ _ _ Ha2 Ha3)).
Qed.
End Classes.

Lemma class_chars_range l : forallb class_item_ok l = true -> Forall (fun c => 1 <= c < 128) (concat (map class_chars l)).
Proof.
  induction l as [|i l IH]; intros Hl; [constructor|]. cbn [forallb] in Hl. apply andb_true_iff in Hl as [Hi Hl]. cbn [map concat]. apply Forall_app. split; [|by apply IH].
  destruct i as [c|a b]; cbn [class_chars class_item_ok] in *; [constructor; [by apply url_char_range|constructor]|].
  apply andb_true_iff in Hi as [[Ha%url_char_range Hb%url_char_range]%andb_true_iff _]. apply Forall_forall. intros x [? ?]%elem_of_seqZ. lia.
Qed.

(** ** The parser between tokens *)

(** The text never starts with a question mark, so that no quantifier is
    made lazy and no group special. *)
Definition no_question (rest : list Z) : Prop := forall r, rest <> 63 :: r.

Lemma print_class_no_caret l (rest : list Z) : forallb class_item_ok l = true -> tryConsume 94 (print_class l ++ 93 :: rest) = (false, print_class l ++ 93 :: rest).
Proof.
  assert (He : forall c r, tryConsume 94 (escaped class_special c ++ r) = (false, escaped class_special c ++ r)).
  { intros c r. unfold escaped. destruct (bool_decide_reflect (c ∈ class_special)) as [|Hs]; [done|]. cbn [app tryConsume]. destruct (Z.eqb_spec c 94) as [->|]; [|done].
    destruct Hs. unfold class_special. rewrite !elem_of_cons. auto. }
  intros _. destruct l as [|i l]; [done|]. unfold print_class. cbn [map concat]. destruct i as [c|a b]; cbn [print_class_item]; rewrite <- ?app_assoc; apply He.
Qed.

(** The terms of the group that is open, with the floating one, and those of
    the groups around it, the innermost first. *)
Definition floating_list (t : Term) : list Term := if Term_isValid t then [t] else [].
Definition open_group (ts : list Term) : Term := GroupTerm ts One.

Record view (s bol : bool) (p : PatternParser) (cur : list Term) (outer : list (list Term)) : Prop := {
  v_status : m_parseStatus p = Ok;
  v_eol : m_hasProcessedEndOfLineAssertion p = false;
  v_case : m_patternIsCaseSensitive p = s;
  v_bol : m_hasBeginningOfLineAssertion p = bol;
  v_float : isEndOfLineAssertion (m_floatingTerm p) = false;
  v_stack : exists cur0 gts, m_openGroups p = map open_group gts /\ rev (m_sunkTerms p :: gts) = cur0 :: outer /\ cur = cur0 ++ floating_list (m_floatingTerm p)
}.

Lemma view_no_error s bol p cur outer : view s bol p cur outer -> hasError p = false.
Proof. intros Hv. unfold hasError. by rewrite (v_status _ _ _ _ _ Hv). Qed.

Lemma extend_last_group_snoc gs g t : extend_last_group (gs ++ [g]) t = gs ++ [extendGroupSubpattern g t].
Proof. induction gs as [|x gs IH]; [done|]. cbn [app extend_last_group]. destruct (gs ++ [g]) eqn:E; [by apply app_eq_nil in E as [_ ?]|]. by rewrite IH. Qed.

Lemma sink_view s bol p cur outer : view s bol p cur outer ->
  view s bol (sinkFloatingTermIfNecessary p) cur outer /\ Term_isValid (m_floatingTerm (sinkFloatingTermIfNecessary p)) = false.
Proof.
  intros [Hs He Hc Hb Hf (cur0 & gts & Hg & Hr & ->)]. unfold sinkFloatingTermIfNecessary. destruct (Term_isValid (m_floatingTerm p)) eqn:Ev; cbn [negb].
  2: { split; [|done]. split; try done. by exists cur0, gts. }
  rewrite He, Hf. cbn [orb]. rewrite Hg. unfold floating_list. rewrite Ev. destruct gts as [|g gts _] using rev_ind; cbn [map].
  - cbn [rev app] in Hr. injection Hr as <- <-. split; [|done]. split; cbn; try done. exists (m_sunkTerms p ++ [m_floatingTerm p]), []. cbn. by rewrite app_nil_r.
  - rewrite map_app. cbn [map]. cbn [rev] in Hr. rewrite rev_app_distr in Hr. cbn in Hr. injection Hr as -> Hr.
    destruct (map open_group gts ++ [open_group cur0]) as [|x l] eqn:E; [by apply app_eq_nil in E as [_ ?]|]. rewrite <- E, extend_last_group_snoc. split; [|done]. split; cbn [m_parseStatus m_hasProcessedEndOfLineAssertion m_patternIsCaseSensitive m_hasBeginningOfLineAssertion m_floatingTerm m_openGroups m_sunkTerms]; try done.
    exists (cur0 ++ [m_floatingTerm p]), (gts ++ [cur0 ++ [m_floatingTerm p]]). split_and!; [by rewrite map_app| |by rewrite app_nil_r].
    cbn [rev]. rewrite rev_app_distr. cbn. by rewrite Hr.
Qed.

(** A new floating term. *)
Lemma float_view s bol p cur outer t : view s bol p cur outer -> Term_isValid t = true -> isEndOfLineAssertion t = false ->
  view s bol (with_floating (sinkFloatingTermIfNecessary p) t) (cur ++ [t]) outer.
Proof.
  intros Hv Ht He. destruct (sink_view _ _ _ _ _ Hv) as [[Hs Heo Hc Hb Hf (cur0 & gts & Hg & Hr & ->)] Ei]. split; try done.
  exists cur0, gts. split_and!; [done..|]. unfold floating_list. rewrite Ei. cbn [with_floating m_floatingTerm]. by rewrite Ht, app_nil_r.
Qed.

(** The floating term replaced. *)
Lemma refloat_view s bol p cur outer t t' : view s bol p (cur ++ [t]) outer -> m_floatingTerm p = t -> Term_isValid t = true ->
  Term_isValid t' = true -> isEndOfLineAssertion t' = false -> view s bol (with_floating p t') (cur ++ [t']) outer.
Proof.
  intros [Hs Heo Hc Hb Hf (cur0 & gts & Hg & Hr & E)] Ef Ht Ht' He. split; try done. exists cur0, gts. split_and!; [done..|].
  unfold floating_list in *. rewrite Ef, Ht in E. apply app_inj_tail in E as [-> _]. cbn [with_floating m_floatingTerm]. by rewrite Ht'.
Qed.

Lemma begin_view s bol p cur outer : view s bol p cur outer -> exists p', atomParenthesesSubpatternBegin p true = Done p' /\ view s bol p' [] (cur :: outer).
Proof.
  intros Hv. cbn [atomParenthesesSubpatternBegin PatternParser_delegate]. unfold pp_atomParenthesesSubpatternBegin, unless_error. rewrite (view_no_error _ _ _ _ _ Hv).
  eexists. split; [done|]. destruct (sink_view _ _ _ _ _ Hv) as [[Hs Heo Hc Hb Hf (cur0 & gts & Hg & Hr & ->)] Ei]. split; try done.
  exists [], (gts ++ [[]]). cbn [with_openGroups m_openGroups m_sunkTerms m_floatingTerm]. unfold floating_list. rewrite Ei, app_nil_r. split_and!; [|cbn [rev]|done].
  - by rewrite Hg, map_app.
  - rewrite rev_app_distr. cbn. f_equal. exact Hr.
Qed.

Lemma end_view s bol p cur c1 outer : view s bol p cur (c1 :: outer) ->
  exists p', atomParenthesesEnd p = Done p' /\ view s bol p' (c1 ++ [open_group cur]) outer /\ m_floatingTerm p' = open_group cur.
Proof.
  intros Hv. cbn [atomParenthesesEnd PatternParser_delegate]. unfold pp_atomParenthesesEnd, unless_error. rewrite (view_no_error _ _ _ _ _ Hv).
  destruct (sink_view _ _ _ _ _ Hv) as [[Hs Heo Hc Hb Hf (cur0 & gts & Hg & Hr & ->)] Ei]. set (p1 := sinkFloatingTermIfNecessary p) in *.
  unfold floating_list. rewrite Ei, app_nil_r. destruct gts as [|g gts _] using rev_ind; [by injection Hr as _ ?|].
  cbn [rev] in Hr. rewrite rev_app_distr in Hr. cbn in Hr. injection Hr as -> Hr. rewrite map_app in Hg. cbn [map] in Hg.
  destruct (vget_last (m_openGroups p1)) as (l & x & E & Ex); [rewrite Hg, vsize_app; pose proof (vsize_nonneg (map open_group gts)); change (vsize [open_group cur0]) with 1; lia|].
  rewrite Hg in E. apply app_inj_tail in E as [<- <-]. cbv zeta. rewrite Ex. cbn [obind]. eexists. split; [done|]. split; [|done]. split; try done.
  exists c1, gts. cbn [with_floating with_openGroups m_openGroups m_sunkTerms m_floatingTerm]. rewrite Hg, removelast_last. split_and!; done.
Qed.
