(* ===== verification/UrlFilterTokens.v ===== *)
(** * The terms of a printed filter

    Token by token, the parser turns the text of a filter into terms that
    realize its items. *)

From S2P Require Import Prelude Containers Strings RangeList Nfa Term TermGraph TermTheorems CombinedFilters.
From S2P Require Import YarrParser YarrProofs UrlFilterParser UrlFilterTotal UrlFilterSimplify UrlFilterParse.

(** ** Sequences of tokens *)

Inductive token_steps : token_state -> token_state -> Prop :=
| steps_refl (s : token_state) : token_steps s s
| steps_cons (s s1 s2 : token_state) c rest : k_input s = c :: rest -> parse_token 0 s c rest = Done (s1, NoError) -> token_steps s1 s2 -> token_steps s s2.

Lemma steps_one (s s1 : token_state) c rest : k_input s = c :: rest -> parse_token 0 s c rest = Done (s1, NoError) -> token_steps s s1.
Proof. intros. eapply steps_cons; [done..|]. apply steps_refl. Qed.

Lemma steps_trans s1 s2 s3 : token_steps s1 s2 -> token_steps s2 s3 -> token_steps s1 s3.
Proof. induction 1; [done|]. intros. eapply steps_cons; [done..|]. auto. Qed.

Lemma steps_loop s s' : token_steps s s' -> 0 <= k_depth s -> k_input s' = [] -> k_depth s' = 0 ->
  forall fuel, (length (k_input s) <= fuel)%nat -> token_loop 0 fuel s = Done (k_delegate s', NoError).
Proof.
  induction 1 as [s|s s1 s2 c rest Ei E _ IH]; intros Hd Hi Hz fuel Hf.
  - destruct fuel; cbn [token_loop]; by rewrite Hi, Hz.
  - assert (Hs : token_ok anything anything (fun _ => True) s) by (split_and!; done || lia).
    pose proof (parse_token_ok 0 True _ _ _ _ _ PatternParser_returns (every_input_reports 0) s c rest Ei Hs) as Hw. rewrite E in Hw. destruct Hw as [Hok Hl].
    destruct (Hok eq_refl) as (_ & Hd1 & _). rewrite Ei in Hf. cbn [length fst] in *. destruct fuel as [|fuel]; [lia|]. cbn [token_loop]. rewrite Ei, E.
    cbn [obind bool_decide decide_rel ErrorCode_eq_dec]. apply IH; [done..|lia].
Qed.

(** ** Terms that realize items *)

#[global] Instance lang_quantified_proper q : Proper ((≡) ==> (≡)) (lang_quantified q).
Proof.
  assert (Hs : forall A B : lang, A ≡ B -> forall w, lang_star A w -> lang_star B w).
  { intros A B HAB w Hw. induction Hw as [|u v Hu _ IH]; [constructor|]. constructor; [by apply HAB|done]. }
  assert (Hstar : forall A B : lang, A ≡ B -> forall w, lang_star A w <-> lang_star B w) by (intros A B HAB w; split; apply Hs; [done|by symmetry]).
  intros A B HAB w. destruct q; simpl; [apply HAB|by rewrite (HAB w)|by apply Hstar|].
  setoid_rewrite (HAB _). by setoid_rewrite (Hstar A B HAB _).
Qed.

Definition realizes (s : bool) (t : Term) (i : item) : Prop :=
  plain_term t /\ m_quantifier t = item_quantifier i /\ atom_lang t ≡ item_atom s i.

Lemma realizes_lang s t i : realizes s t i -> term_lang t ≡ item_lang s i.
Proof. intros (_ & Hq & Ha). unfold term_lang, item_lang. by rewrite Hq, Ha. Qed.

Lemma realizes_terms s ts l : Forall2 (realizes s) ts l -> Forall plain_term ts /\ terms_lang ts ≡ items_lang s l.
Proof.
  induction 1 as [|t i ts l Ht _ [IH1 IH2]]; [done|]. split; [constructor; [apply Ht|done]|]. cbn [terms_lang items_lang]. by rewrite (realizes_lang _ _ _ Ht), IH2.
Qed.

Lemma item_atom_subpattern s l q : item_atom s (Subpattern l q) ≡ items_lang s l.
Proof. cbn [item_atom]. induction l as [|i l IH]; [done|]. cbn [items_lang]. by rewrite IH. Qed.

Lemma quantify_atom t q : atom_lang (quantify t q) = atom_lang t.
Proof. by destruct t. Qed.

Lemma quantify_plain t q : plain_term t -> plain_term (quantify t q).
Proof. by destruct t. Qed.

Lemma quantify_valid t q : Term_isValid (quantify t q) = Term_isValid t /\ isEndOfLineAssertion (quantify t q) = isEndOfLineAssertion t /\ m_quantifier (quantify t q) = q.
Proof. by destruct t. Qed.

Lemma plain_valid t : plain_term t -> Term_isValid t = true.
Proof. by destruct t. Qed.

(** ** Quantifiers *)

Section Items.
Variables (s bol : bool).

Definition at_token (p : PatternParser) (input : list Z) (outer : list (list Term)) (atom : bool) : token_state := mkTokenState p input (vsize outer) atom.

Lemma no_question_consume rest : no_question rest -> tryConsume 63 rest = (false, rest).
Proof. intros Hr. destruct rest as [|c rest]; [done|]. cbn [tryConsume]. destruct (Z.eqb_spec c 63) as [->|]; [|done]. by destruct (Hr rest). Qed.

Lemma quantifier_steps p t cur outer q rest : view s bol p (cur ++ [t]) outer -> m_floatingTerm p = t -> plain_term t -> m_quantifier t = One -> no_question rest ->
  exists p' atom, token_steps (at_token p (print_quantifier q ++ rest) outer true) (at_token p' rest outer atom) /\ view s bol p' (cur ++ [quantify t q]) outer.
Proof.
  intros Hv Hf Hp Hq Hr. pose proof (view_no_error _ _ _ _ _ Hv) as He. pose proof (no_question_consume rest Hr) as Hc.
  destruct (quantify_valid t q) as (Hq1 & Hq2 & _).
  assert (Hv' : view s bol (with_floating p (quantify t q)) (cur ++ [quantify t q]) outer).
  { eapply refloat_view; try done; [by apply plain_valid|by rewrite Hq1, plain_valid|]. by rewrite Hq2, plain_not_eol. }
  destruct q; cbn [print_quantifier app].
  { exists p, true. split; [apply steps_refl|]. replace (quantify t One) with t; [done|]. destruct t; cbn in *; congruence. }
  all: eexists _, false; split; [|exact Hv']; eapply steps_one; [done|];
    unfold parse_token, at_token; cbn [k_delegate k_depth k_lastTokenWasAnAtom Z.eqb Pos.eqb orb]; unfold parseQuantifier;
    cbn [obind]; rewrite Hc; cbn [negb quantifyAtom PatternParser_delegate]; unfold pp_quantifyAtom, unless_error; by rewrite He, Hf.
Qed.

(** ** Atoms *)

(** The text [text] is read as an atom with the meaning of the item [i]. *)
Definition reads (text : list Z) (i : item) : Prop := forall p cur outer rest atom, view s bol p cur outer -> no_question rest ->
  exists p' t, token_steps (at_token p (text ++ print_quantifier (item_quantifier i) ++ rest) outer atom) (at_token p' (print_quantifier (item_quantifier i) ++ rest) outer true) /\
    view s bol p' (cur ++ [t]) outer /\ m_floatingTerm p' = t /\ plain_term t /\ m_quantifier t = One /\ atom_lang t ≡ item_atom s i.

Lemma isASCII_url_char c : 1 <= c < 128 -> isASCII c = true.
Proof.
  intros Hc. assert (Ha : forallb isASCII (seqZ 1 127) = true) by (vm_compute; reflexivity). rewrite forallb_forall in Ha. apply Ha.
  apply list_elem_of_In, elem_of_seqZ. lia.
Qed.

Lemma character_call p cur outer c : view s bol p cur outer -> 1 <= c < 128 ->
  exists t, atomPatternCharacter p c = Done (with_floating (sinkFloatingTermIfNecessary p) t) /\ plain_term t /\ m_quantifier t = One /\
    forall q, atom_lang t ≡ item_atom s (Character c q).
Proof.
  intros Hv Hc. destruct (cs_addCharacter_adds (empty_set false) c s (empty_set_wf false) Hc) as (cs & E & Ha).
  destruct (adds_term s false [c] cs One) as [Hp Hl]; [by constructor|done|]. exists (CharacterSetTerm cs One). split_and!; try done.
  - cbn [atomPatternCharacter PatternParser_delegate]. unfold pp_atomPatternCharacter, unless_error. rewrite (view_no_error _ _ _ _ _ Hv), (isASCII_url_char c Hc). cbn [negb].
    unfold Term_character. rewrite through_char_ascii by lia. cbn [addCharacter]. change emptyCharacterSet with (empty_set false). by rewrite (v_case _ _ _ _ _ Hv), E.
  - intros q. rewrite Hl. intros w. cbn [item_atom existsb xorb]. by setoid_rewrite orb_false_r.
Qed.

Lemma special_char c : c ∈ special -> isASCIIAlphanumeric c = false.
Proof. unfold special. rewrite !elem_of_cons, elem_of_nil. intros Hc. repeat destruct Hc as [->|Hc]; by try reflexivity. Qed.

Lemma character_reads c q : 1 <= c < 128 -> reads (escaped special c) (Character c q).
Proof.
  intros Hc p cur outer rest atom Hv Hr. destruct (character_call p cur outer c Hv Hc) as (t & E & Hp & Hq & Hl).
  exists (with_floating (sinkFloatingTermIfNecessary p) t), t. split; [|split_and!; [|done|done|done|apply Hl]].
  2: { apply float_view; [done|by apply plain_valid|by apply plain_not_eol]. }
  cbn [item_quantifier]. unfold escaped. destruct (bool_decide_reflect (c ∈ special)) as [Hs|Hs].
  - eapply steps_one; [done|]. unfold parse_token, at_token. cbn [app k_delegate k_depth Z.eqb Pos.eqb orb]. rewrite parseEscape_punctuation by (by apply special_char).
    cbn [obind atom_escape]. by rewrite E.
  - eapply steps_one; [done|]. unfold special in Hs. rewrite !not_elem_of_cons in Hs. destruct Hs as (? & ? & ? & ? & ? & ? & ? & ? & ? & ? & _ & ? & _ & ? & _).
    unfold parse_token, at_token. cbn [app k_delegate k_depth k_lastTokenWasAnAtom].
    repeat match goal with |- context [c =? ?k] => destruct (Z.eqb_spec c k); [done|] end. cbn [orb obind]. by rewrite E.
Qed.

Lemma universal_atom_lang : exists u, Term_universalTransition = Done u /\ plain_term u /\ m_quantifier u = One /\ forall q, atom_lang u ≡ item_atom s (AnyCharacter q).
Proof.
  exists (quantify dot_star One). split; [vm_compute; reflexivity|]. split; [apply quantify_plain, dot_star_plain|]. split; [done|]. intros q w. cbn [quantify dot_star atom_lang item_atom].
  set (cs := mkCharacterSet _ _ _). assert (Ha : forallb (fun c => Bool.eqb (cs_matches cs c) (url_char c)) (seqZ 0 128) = true) by (vm_compute; reflexivity).
  rewrite forallb_forall in Ha. assert (Hm : forall c, cs_matches cs c = true <-> 1 <= c < 128).
  { intros c. split.
    - intros Hc. pose proof (cs_matches_range _ _ Hc) as Hr. specialize (Ha c). rewrite <- list_elem_of_In, elem_of_seqZ in Ha. specialize (Ha Hr). rewrite Hc in Ha.
      apply url_char_range. by destruct (url_char c).
    - intros Hc. specialize (Ha c). rewrite <- list_elem_of_In, elem_of_seqZ in Ha. specialize (Ha ltac:(lia)). apply eqb_prop in Ha. rewrite Ha. unfold url_char. lia. }
  by setoid_rewrite Hm.
Qed.

Lemma any_reads q : reads [46] (AnyCharacter q).
Proof.
  intros p cur outer rest atom Hv Hr. destruct universal_atom_lang as (u & E & Hp & Hq & Hl).
  exists (with_floating (sinkFloatingTermIfNecessary p) u), u. split; [|split_and!; [|done|done|done|apply Hl]].
  2: { apply float_view; [done|by apply plain_valid|by apply plain_not_eol]. }
  eapply steps_one; [done|]. unfold parse_token, at_token. cbn [app k_delegate k_depth Z.eqb Pos.eqb orb atomBuiltInCharacterClass PatternParser_delegate].
  unfold pp_atomBuiltInCharacterClass, unless_error. by rewrite (view_no_error _ _ _ _ _ Hv), E.
Qed.

Lemma class_reads (b : bool) l q : forallb class_item_ok l = true -> reads (91 :: (if b then [94] else []) ++ print_class l ++ [93]) (Class b l q).
Proof.
  intros Hl p cur outer rest atom Hv Hr. set (p0 := sinkFloatingTermIfNecessary p).
  assert (He : hasError p0 = false) by (destruct (sink_view _ _ _ _ _ Hv) as [Hv0 _]; exact (view_no_error _ _ _ _ _ Hv0)).
  assert (Hc : m_patternIsCaseSensitive p0 = s) by (destruct (sink_view _ _ _ _ _ Hv) as [Hv0 _]; exact (v_case _ _ _ _ _ Hv0)).
  cbn [item_quantifier]. set (tail := print_quantifier q ++ rest).
  set (d := mkClassDelegate (with_floating p0 (CharacterSetTerm (empty_set b) One)) NoError CC_Empty 0).
  destruct (class_loop_items p0 s He Hc l tail Hl (length (print_class l ++ 93%Z :: tail)) d (empty_set b) []) as (cs & E & Ha); [split_and!; try done; apply empty_set_wf|done|].
  destruct (adds_term s b _ cs One (class_chars_range l Hl) Ha) as [Hp Hlang]. exists (in_set p0 cs), (CharacterSetTerm cs One). split; [|split_and!; [|done..]].
  2: { apply float_view; [done|by apply plain_valid|by apply plain_not_eol]. }
  assert (Ec : parseCharacterClass 0 p ((if b then [94] else []) ++ print_class l ++ 93%Z :: tail) = Done (in_set p0 cs, NoError, tail)).
  { unfold parseCharacterClass. replace (tryConsume 94 ((if b then [94] else []) ++ print_class l ++ 93%Z :: tail)) with (b, print_class l ++ 93%Z :: tail).
    2: { destruct b; [done|]. symmetry. by apply print_class_no_caret. }
    cbn [atomCharacterClassBegin PatternParser_delegate]. unfold pp_atomCharacterClassBegin, unless_error. rewrite (view_no_error _ _ _ _ _ Hv). cbn [obind].
    replace (Term_characterSet b) with (CharacterSetTerm (empty_set b) One) by (by destruct b). exact E. }
  replace ((91 :: (if b then [94] else []) ++ print_class l ++ [93]) ++ tail) with (91 :: ((if b then [94] else []) ++ print_class l ++ 93 :: tail)).
  2: { change (91 :: ?x) with ([91] ++ x). by rewrite <- !app_assoc. }
  eapply steps_one; [done|]. unfold parse_token, at_token. cbn [k_delegate k_depth Z.eqb Pos.eqb orb]. by rewrite Ec.
Qed.

(** ** Items and groups *)

Definition reads_item (i : item) : Prop := forall p cur outer rest atom, view s bol p cur outer -> no_question rest ->
  exists p' t atom', realizes s t i /\ view s bol p' (cur ++ [t]) outer /\
    token_steps (at_token p (print_item i ++ rest) outer atom) (at_token p' rest outer atom').

Lemma reads_quantified text i : reads text i -> print_item i = text ++ print_quantifier (item_quantifier i) -> reads_item i.
Proof.
  intros Ht Hp p cur outer rest atom Hv Hr. destruct (Ht p cur outer rest atom Hv Hr) as (p1 & t & Hs1 & Hv1 & Hf & Hpl & Hq & Hl).
  destruct (quantifier_steps p1 t cur outer (item_quantifier i) rest Hv1 Hf Hpl Hq Hr) as (p2 & atom2 & Hs2 & Hv2). exists p2, (quantify t (item_quantifier i)), atom2.
  split_and!; [|done|rewrite Hp, <- app_assoc; by eapply steps_trans]. split_and!; [by apply quantify_plain|apply quantify_valid|by rewrite quantify_atom].
Qed.

Lemma escaped_no_question c rest : no_question (escaped special c ++ rest).
Proof.
  intros r. unfold escaped. destruct (bool_decide_reflect (c ∈ special)) as [|Hs]; cbn [app]; intros E; injection E as E _; [done|]. subst c. destruct Hs. unfold special.
  rewrite !elem_of_cons. tauto.
Qed.

Lemma print_item_no_question i rest : no_question (print_item i ++ rest).
Proof. destruct i as [c q|q|b l q|l q]; cbn [print_item]; [rewrite <- app_assoc; apply escaped_no_question|by intros r [=]..]. Qed.

Lemma print_items_no_question l rest : no_question rest -> no_question (print_items l ++ rest).
Proof. intros Hr. destruct l as [|i l]; [done|]. unfold print_items. cbn [map concat]. rewrite <- app_assoc. apply print_item_no_question. Qed.

Lemma reads_items l : Forall reads_item l -> forall p cur outer rest atom, view s bol p cur outer -> no_question rest ->
  exists p' ts atom', Forall2 (realizes s) ts l /\ view s bol p' (cur ++ ts) outer /\
    token_steps (at_token p (print_items l ++ rest) outer atom) (at_token p' rest outer atom').
Proof.
  induction 1 as [|i l Hi _ IH]; intros p cur outer rest atom Hv Hr.
  - exists p, [], atom. rewrite app_nil_r. split_and!; [constructor|done|apply steps_refl].
  - unfold print_items. cbn [map concat]. rewrite <- app_assoc. destruct (Hi p cur outer (print_items l ++ rest) atom Hv) as (p1 & t & a1 & Ht & Hv1 & Hs1); [by apply print_items_no_question|].
    destruct (IH p1 (cur ++ [t]) outer rest a1 Hv1 Hr) as (p2 & ts & a2 & Hts & Hv2 & Hs2). exists p2, (t :: ts), a2.
    split_and!; [by constructor|by rewrite <- app_assoc in Hv2|by eapply steps_trans].
Qed.

Lemma subpattern_reads l q : Forall reads_item l -> reads (40 :: print_items l ++ [41]) (Subpattern l q).
Proof.
  intros Hl p cur outer rest atom Hv Hr. cbn [item_quantifier]. set (tail := print_quantifier q ++ rest).
  destruct (begin_view _ _ _ _ _ Hv) as (p1 & E1 & Hv1).
  destruct (reads_items l Hl p1 [] (cur :: outer) (41 :: tail) false Hv1) as (p2 & ts & a2 & Hts & Hv2 & Hs2); [by intros r [=]|]. cbn [app] in Hv2.
  destruct (end_view _ _ _ _ _ _ Hv2) as (p3 & E3 & Hv3 & Hf3). destruct (realizes_terms _ _ _ Hts) as [Hp Hlang].
  exists p3, (open_group ts). split; [|split_and!; [done|done|by apply plain_term_group|done|]].
  2: { rewrite item_atom_subpattern, <- Hlang. intros w. apply atom_lang_group. }
  replace ((40 :: print_items l ++ [41]) ++ tail) with (40 :: (print_items l ++ 41 :: tail)) by (by rewrite <- app_comm_cons, <- app_assoc).
  eapply steps_cons; [done| |eapply steps_trans; [exact Hs2|]].
  - unfold parse_token, at_token. cbn [k_delegate k_depth Z.eqb Pos.eqb orb]. unfold parseParenthesesBegin.
    rewrite no_question_consume by (apply print_items_no_question; by intros r [=]). cbn [obind]. rewrite E1. cbn [obind]. by rewrite vsize_cons.
  - eapply steps_one; [done|]. unfold parse_token, at_token. cbn [k_delegate k_depth Z.eqb Pos.eqb orb]. rewrite vsize_cons. pose proof (vsize_nonneg outer).
    destruct (Z.ltb_spec 0 (vsize outer + 1)); [|lia]. rewrite E3. cbn [obind]. by replace (vsize outer + 1 - 1) with (vsize outer) by lia.
Qed.

Lemma item_reads i : item_ok i = true -> reads_item i.
Proof.
  induction i as [c q|q|b l q|l q IH] using item_ind'; cbn [item_ok]; intros Hi.
  - eapply reads_quantified; [apply character_reads; by apply url_char_range|done].
  - eapply reads_quantified; [apply any_reads|done].
  - eapply reads_quantified; [by apply class_reads|]. cbn [print_item item_quantifier]. rewrite <- app_comm_cons, <- !app_assoc. done.
  - eapply reads_quantified; [apply subpattern_reads|].
    + rewrite forallb_forall in Hi. rewrite Forall_forall in *. intros i Hin. apply IH; [done|]. apply Hi. by apply list_elem_of_In.
    + cbn [print_item item_quantifier]. unfold print_items. rewrite <- app_comm_cons, <- !app_assoc. done.
Qed.
End Items.
