(* ===== verification/UrlFilterTheorems.v ===== *)
(** * Properties of the URL filter parser

    Adding the text of a filter makes the combined filters accept exactly the
    URLs the filter accepts. *)

From stdpp Require Import strings.
From S2P Require Import Prelude Containers Strings RangeList Nfa Term TermGraph TermTheorems CombinedFilters CombinedFiltersProofs CombinedFiltersTheorems.
From S2P Require Import YarrParser YarrProofs UrlFilterParser UrlFilterTotal UrlFilterSimplify UrlFilterParse UrlFilterTokens.

(** ** The parse of a printed filter *)

Definition end_terms (f_end : bool) : list Term := if f_end then [eol_term] else [].

Lemma start_view s : view s false (newPatternParser s) [] [].
Proof. split; try done. by exists [], []. Qed.

Lemma start_steps s f rest : exists p, token_steps (at_token (newPatternParser s) ((if f_start f then [94] else []) ++ rest) [] false) (at_token p rest [] false) /\
  view s (f_start f) p [] [].
Proof.
  destruct (f_start f); [|exists (newPatternParser s); split; [apply steps_refl|apply start_view]].
  eexists. split; [eapply steps_one; [done|]; vm_compute; reflexivity|]. split; try done. by exists [], [].
Qed.

(** What remains at the end of the text. *)
Lemma sunk_view s bol p ts : view s bol p ts [] -> let p' := sinkFloatingTermIfNecessary p in
  m_sunkTerms p' = ts /\ m_openGroups p' = [] /\ Term_isValid (m_floatingTerm p') = false /\ m_parseStatus p' = Ok /\
  m_hasProcessedEndOfLineAssertion p' = false /\ m_hasBeginningOfLineAssertion p' = bol.
Proof.
  intros Hv. destruct (sink_view _ _ _ _ _ Hv) as [[Hs He Hc Hb Hf (cur0 & gts & Hg & Hr & ->)] Ei]. cbv zeta.
  destruct gts as [|g gts _] using rev_ind.
  - injection Hr as ->. unfold floating_list. rewrite Ei, app_nil_r. by rewrite Hg.
  - cbn [rev] in Hr. rewrite rev_app_distr in Hr. cbn in Hr. injection Hr as _ Hr. by apply app_eq_nil in Hr as [_ ?].
Qed.

Definition parsed_as (s : bool) (f : url_filter) (p : PatternParser) : Prop :=
  hasError p = false /\ let p' := sinkFloatingTermIfNecessary p in
  m_parseStatus p' = Ok /\ m_hasBeginningOfLineAssertion p' = f_start f /\
  exists ts, Forall2 (realizes s) ts (f_items f) /\ m_sunkTerms p' = ts ++ end_terms (f_end f).

Lemma end_steps s f p ts atom : view s (f_start f) p ts [] -> Forall2 (realizes s) ts (f_items f) ->
  exists p' atom', token_steps (at_token p (if f_end f then [36] else []) [] atom) (at_token p' [] [] atom') /\ parsed_as s f p'.
Proof.
  intros Hv Hts. pose proof (view_no_error _ _ _ _ _ Hv) as He. destruct (sunk_view _ _ _ _ Hv) as (Hs & Hg & Hf & Ho & Hp & Hb). cbv zeta in *.
  destruct (f_end f) eqn:Ef.
  - exists (with_floating (sinkFloatingTermIfNecessary p) eol_term), false. split.
    + eapply steps_one; [done|]. unfold parse_token, at_token. cbn [k_delegate k_depth Z.eqb Pos.eqb orb assertionEOL PatternParser_delegate].
      unfold pp_assertionEOL, unless_error. rewrite He. done.
    + set (p1 := sinkFloatingTermIfNecessary p) in *. split; [unfold hasError; cbn [with_floating m_parseStatus]; by rewrite Ho|]. cbv zeta.
      unfold sinkFloatingTermIfNecessary at 1 2 3. cbn [with_floating m_floatingTerm m_hasProcessedEndOfLineAssertion m_openGroups m_sunkTerms m_parseStatus m_hasBeginningOfLineAssertion].
      rewrite Hp, Hg. cbn [Term_isValid eol_term negb m_parseStatus m_hasBeginningOfLineAssertion m_sunkTerms]. split_and!; [done..|]. exists ts. split; [done|]. by rewrite Hs, Ef.
  - exists p, atom. split; [apply steps_refl|]. split; [done|]. cbv zeta. split_and!; [done..|]. exists ts. split; [done|]. by rewrite Hs, Ef, app_nil_r.
Qed.

Lemma print_filter_parsed s f : filter_ok f = true -> vsize (print_filter f) <= MAX_PATTERN_SIZE ->
  exists p, yarr_parse 0 (newPatternParser s) (print_filter f) = Done (p, NoError) /\ parsed_as s f p.
Proof.
  intros Hf Hm. unfold yarr_parse, parseTokens. destruct (Z.ltb_spec MAX_PATTERN_SIZE (vsize (print_filter f))); [lia|].
  unfold print_filter in *. set (tail := if f_end f then [36] else []). destruct (start_steps s f (print_items (f_items f) ++ tail)) as (p1 & Hs1 & Hv1).
  destruct (reads_items s (f_start f) (f_items f)) with (p := p1) (cur := @nil Term) (outer := @nil (list Term)) (rest := tail) (atom := false)
    as (p2 & ts & a2 & Hts & Hv2 & Hs2); [|done|by unfold tail; intros r; destruct (f_end f)|].
  { unfold filter_ok in Hf. rewrite forallb_forall in Hf. apply Forall_forall. intros i Hi%list_elem_of_In. by apply item_reads, Hf. }
  destruct (end_steps s f p2 ts a2 Hv2 Hts) as (p3 & a3 & Hs3 & Hp3). exists p3. split; [|done].
  exact (steps_loop _ _ (steps_trans _ _ _ Hs1 (steps_trans _ _ _ Hs2 Hs3)) ltac:(done) eq_refl eq_refl _ (le_n _)).
Qed.

(** ** Finalization *)

(** The combined filters perform an action on a URL. *)
Definition accepts (f : CombinedURLFilters) (a : Z) (url : list Z) : Prop := lang_matches (filter_matches f a) url.

Lemma accepts_addPattern f f' a ts : (forall b w, filter_matches f' b w <-> filter_matches f b w \/ (b = a /\ terms_lang ts w)) ->
  forall b url, accepts f' b url <-> accepts f b url \/ (b = a /\ terms_match ts url).
Proof. intros Hf b url. unfold accepts, terms_match, lang_matches. setoid_rewrite (Hf b _). naive_solver. Qed.

Lemma at_least_one_char ts : filter_terms ts -> existsb matchesAtLeastOneCharacter ts = true -> ~ terms_match ts [].
Proof.
  intros Hts Hx (p & r & E & Hp). assert (Hw := filter_terms_wf _ Hts). destruct Hts as (init & last & -> & Hi & Hl). rewrite existsb_app in Hx.
  assert (Hnil : forall w, terms_lang init w -> existsb matchesAtLeastOneCharacter init = true -> w <> []).
  { clear -Hi. induction Hi as [|t init Ht Hi IH]; [done|]. intros w (u & v & -> & Hu & Hv) [Hx|Hx]%orb_true_iff [-> ->]%app_eq_nil.
    - by apply (at_least_one_sound t (plain_term_wf _ Ht) Hx).
    - by apply (IH []). }
  destruct (existsb matchesAtLeastOneCharacter init) eqn:Ei.
  - apply terms_lang_app in Hp as (u & v & -> & Hu & Hv). cbn in E. destruct u as [|c u]; [by apply (Hnil [])|]. injection E as Ec _.
    pose proof (plain_terms_url_words _ Hi _ Hu) as [Hc _]%Forall_cons. lia.
  - cbn [orb] in Hx. destruct Hl as [->| ->]; [done|]. by vm_compute in Hx.
Qed.

Lemma no_char_empty ts : filter_terms ts -> existsb matchesAtLeastOneCharacter ts = false -> terms_match ts [].
Proof.
  intros (init & last & -> & Hi & Hl) Hx. rewrite existsb_app in Hx. apply orb_false_iff in Hx as [Hx _].
  assert (Hn : terms_lang init []).
  { apply nullable_terms. apply Forall_forall. intros t Ht. rewrite Forall_forall in Hi. apply matches_empty; [auto|].
    destruct (matchesAtLeastOneCharacter t) eqn:Em; [|done]. rewrite <- Hx. symmetry. apply existsb_exists. exists t. by rewrite <- list_elem_of_In. }
  destruct Hl as [->| ->].
  - exists [], [0]. split; [done|]. by rewrite app_nil_r.
  - exists [0], []. split; [done|]. apply terms_lang_app. exists [], [0]. split_and!; [done..|]. by apply terms_lang_singleton, eol_lang.
Qed.

Lemma plain_no_char_match ts url : Forall plain_term ts -> existsb matchesAtLeastOneCharacter ts = false -> terms_match ts url.
Proof.
  intros Hp Hx. exists [], (url ++ [0]). split; [done|]. apply nullable_terms, Forall_forall. intros t Ht. rewrite Forall_forall in Hp. apply matches_empty; [auto|].
  destruct (matchesAtLeastOneCharacter t) eqn:Em; [|done]. rewrite <- Hx. symmetry. apply existsb_exists. exists t. by rewrite <- list_elem_of_In.
Qed.

Lemma everything_spec bol ts ts' : filter_terms ts -> simplify_terms bol ts = Done ts' -> existsb matchesAtLeastOneCharacter ts' = false ->
  bol = false \/ Forall plain_term ts -> forall url, url_word url -> filter_match bol ts url.
Proof.
  intros Hts E Hx Hc url Hu. destruct (simplify_spec bol ts Hts) as (ts2 & E2 & Hf & Hp & Hm). assert (ts2 = ts') as -> by congruence.
  destruct Hc as [->|Hc].
  - destruct (proj1 (Hm [] ltac:(constructor)) (no_char_empty _ Hf Hx)) as (u & v & E0 & Hv). symmetry in E0. apply app_eq_nil in E0 as [-> ->].
    exists url, []. by rewrite app_nil_r.
  - apply Hm; [done|]. apply plain_no_char_match; auto.
Qed.

Lemma fail_status p reason : m_parseStatus p = Ok -> m_parseStatus (parser_fail p reason) = reason.
Proof. intros Hp. unfold parser_fail, hasError. by rewrite Hp. Qed.

(** What adding a filter with the terms [ts] does to the combined filters. *)
Definition added (bol : bool) (ts : list Term) (id : Z) (f f' : CombinedURLFilters) (status : ParseStatus) : Prop :=
  filters_ok f' /\
  ((status = Ok /\ (forall b url, url_word url -> accepts f' b url <-> accepts f b url \/ (b = id /\ filter_match bol ts url)) /\
      ~ (forall url, url_word url -> filter_match bol ts url) /\ exists ts', addPattern f id ts' = Done f' /\ ts' <> [] /\ ~ terms_lang ts' []) \/
   (status = MatchesEverything /\ f' = f /\ filter_match bol ts [] /\ (bol = false \/ Forall plain_term ts -> forall url, url_word url -> filter_match bol ts url))).

Lemma pattern_finalize_spec p id f : hasError p = false -> m_parseStatus (sinkFloatingTermIfNecessary p) = Ok -> filter_terms (m_sunkTerms (sinkFloatingTermIfNecessary p)) ->
  filters_ok f -> exists p' f', pattern_finalize p id f = Done (p', f') /\
    added (m_hasBeginningOfLineAssertion (sinkFloatingTermIfNecessary p)) (m_sunkTerms (sinkFloatingTermIfNecessary p)) id f f' (m_parseStatus p').
Proof.
  intros He Ho Hts Hf. unfold pattern_finalize. rewrite He. set (p1 := sinkFloatingTermIfNecessary p) in *. unfold simplifySunkTerms.
  destruct (simplify_spec (m_hasBeginningOfLineAssertion p1) _ Hts) as (ts & E & Hft & _ & Hm). rewrite E. cbn [obind with_sunkTerms m_sunkTerms].
  destruct (existsb matchesAtLeastOneCharacter ts) eqn:Ex; cbn [negb].
  - destruct (filter_matches_addPattern f id ts Hf) as (f' & Ea & Hf' & Hb); [by intros ->|]. rewrite Ea. eexists _, f'. split; [done|]. split; [done|]. left.
    split_and!; [done| | |].
    + intros b url Hu. rewrite (accepts_addPattern _ _ _ _ Hb), (Hm url Hu). done.
    + intros Hall. apply (at_least_one_char _ Hft Ex), Hm; [constructor|]. apply Hall. constructor.
    + exists ts. split; [done|]. split; [by intros ->|]. intros Hn. apply (at_least_one_char _ Hft Ex). by exists [], [0].
  - eexists _, f. split; [done|]. split; [done|]. right. split_and!; [|done| |].
    + by apply fail_status.
    + apply Hm; [constructor|]. by apply no_char_empty.
    + by apply (everything_spec _ _ ts).
Qed.

(** ** The URLs of a filter *)

Lemma terms_match_part ts (e : bool) url : Forall plain_term ts -> url_word url ->
  terms_match (ts ++ end_terms e) url <-> exists part after, url = part ++ after /\ terms_lang ts part /\ (e = true -> after = []).
Proof.
  intros Hp Hu. unfold terms_match. rewrite terms_lang_app_equiv. split.
  - intros (q & r & E & (part & v & -> & Ht & Hv)). rewrite <- app_assoc in E. destruct (url_prefix _ _ _ (plain_terms_url_words _ Hp _ Ht) E) as (after & -> & Ea).
    exists part, after. split_and!; [done..|]. intros ->. apply terms_lang_singleton, eol_lang in Hv as ->. destruct after as [|c after]; [done|]. injection Ea as -> _.
    apply Forall_app in Hu as [_ [Hc _]%Forall_cons]. lia.
  - intros (part & after & -> & Ht & He). destruct e.
    + rewrite He, app_nil_r by done. exists (part ++ [0]), []. split; [by rewrite app_nil_r|]. exists part, [0]. split_and!; [done..|]. by apply terms_lang_singleton, eol_lang.
    + exists part, (after ++ [0]). split; [by rewrite app_assoc|]. exists part, []. by rewrite app_nil_r.
Qed.

Lemma filter_match_accepts s f ts url : Forall2 (realizes s) ts (f_items f) -> url_word url ->
  filter_match (f_start f) (ts ++ end_terms (f_end f)) url <-> filter_accepts s f url.
Proof.
  intros Hts Hu. destruct (realizes_terms _ _ _ Hts) as [Hp Hl]. unfold filter_match, filter_accepts. destruct (f_start f).
  - rewrite terms_match_part by done. setoid_rewrite (Hl _). split.
    + intros (part & after & -> & Hi & He). by exists [], part, after.
    + intros (before & part & after & -> & Hi & Hs & He). rewrite Hs by done. by exists part, after.
  - split.
    + intros (u & v & -> & Hm). apply Forall_app in Hu as [_ Hv]. apply terms_match_part in Hm as (part & after & -> & Hi & He); [|done..]. exists u, part, after.
      split_and!; [done|by apply Hl|done|done].
    + intros (before & part & after & -> & Hi & _ & He). apply Forall_app in Hu as [_ Hv]. exists before, (part ++ after). split; [done|].
      apply terms_match_part; [done..|]. exists part, after. split_and!; [done|by apply Hl|done].
Qed.

(** ** The text of a filter is ASCII *)

Definition asciis (l : list Z) : Prop := Forall (fun c => 1 <= c < 128) l.

Lemma asciis_escaped l c : 1 <= c < 128 -> asciis (escaped l c).
Proof. intros Hc. unfold escaped. destruct (bool_decide _); repeat constructor; lia. Qed.

Lemma asciis_quantifier q : asciis (print_quantifier q).
Proof. destruct q; repeat constructor; lia. Qed.

Lemma asciis_concat {A} (f : A -> list Z) l : Forall (fun x => asciis (f x)) l -> asciis (concat (map f l)).
Proof. induction 1 as [|x l Hx _ IH]; [constructor|]. by apply Forall_app. Qed.

Lemma asciis_class l : forallb class_item_ok l = true -> asciis (print_class l).
Proof.
  rewrite forallb_forall. intros Hl. apply asciis_concat, Forall_forall. intros i Hi%list_elem_of_In. specialize (Hl i Hi). destruct i as [c|a b]; cbn [class_item_ok print_class_item] in *.
  - by apply asciis_escaped, url_char_range.
  - apply andb_true_iff in Hl as [[Ha%url_char_range Hb%url_char_range]%andb_true_iff _]. apply Forall_app. split; [by apply asciis_escaped|]. constructor; [lia|by apply asciis_escaped].
Qed.

Lemma asciis_item i : item_ok i = true -> asciis (print_item i).
Proof.
  induction i as [c q|q|b l q|l q IH] using item_ind'; cbn [item_ok print_item]; intros Hi.
  - apply Forall_app. split; [by apply asciis_escaped, url_char_range|apply asciis_quantifier].
  - constructor; [lia|apply asciis_quantifier].
  - constructor; [lia|]. apply Forall_app. split; [destruct b; repeat constructor; lia|]. apply Forall_app. split; [by apply asciis_class|]. constructor; [lia|apply asciis_quantifier].
  - constructor; [lia|]. apply Forall_app. split; [|constructor; [lia|apply asciis_quantifier]]. apply asciis_concat. rewrite forallb_forall in Hi. rewrite Forall_forall in *.
    intros i Hin. apply IH; [done|]. apply Hi. by apply list_elem_of_In.
Qed.

Lemma asciis_filter f : filter_ok f = true -> asciis (print_filter f).
Proof.
  unfold filter_ok. rewrite forallb_forall. intros Hf. apply Forall_app. split; [destruct (f_start f); repeat constructor; lia|]. apply Forall_app. split.
  - apply asciis_concat, Forall_forall. intros i Hi%list_elem_of_In. by apply asciis_item, Hf.
  - destruct (f_end f); repeat constructor; lia.
Qed.

(** ** The properties *)

Lemma end_terms_filter ts (e : bool) : Forall plain_term ts -> filter_terms (ts ++ end_terms e).
Proof. intros Hp. exists ts, (end_terms e). split_and!; [done..|]. destruct e; [by right|by left]. Qed.

(** What adding the text of a filter does. *)
Lemma url_filter_spec filters r is8Bit patternIsCaseSensitive patternId :
  filters_ok filters -> filter_ok r = true -> print_filter r <> [] -> vsize (print_filter r) <= MAX_PATTERN_SIZE ->
  exists filters' status, url_filter_addPattern filters (mkString is8Bit (print_filter r)) patternIsCaseSensitive patternId = Done (filters', status) /\ filters_ok filters' /\
    ((status = Ok /\ (forall b url, url_word url -> accepts filters' b url <-> accepts filters b url \/ (b = patternId /\ filter_accepts patternIsCaseSensitive r url)) /\
        ~ (forall url, url_word url -> filter_accepts patternIsCaseSensitive r url) /\
        exists ts, addPattern filters patternId ts = Done filters' /\ ts <> [] /\ ~ terms_lang ts []) \/
     (status = MatchesEverything /\ filters' = filters /\ filter_accepts patternIsCaseSensitive r [] /\
        (f_start r = false \/ f_end r = false -> forall url, url_word url -> filter_accepts patternIsCaseSensitive r url))).
Proof.
  intros Hf Hr Hn Hm. unfold url_filter_addPattern. set (s := patternIsCaseSensitive).
  assert (Ha : containsOnlyASCII (mkString is8Bit (print_filter r)) = true).
  { apply forallb_forall. intros c Hc%list_elem_of_In. pose proof (asciis_filter r Hr) as Hall. unfold asciis in Hall. rewrite Forall_forall in Hall. by apply isASCII_url_char, Hall. }
  assert (He : s_isEmpty (mkString is8Bit (print_filter r)) = false).
  { unfold s_isEmpty, s_length. cbn [s_chars]. destruct (print_filter r) as [|c l]; [done|]. rewrite vsize_cons. pose proof (vsize_nonneg l). lia. }
  rewrite Ha, He. cbn [negb s_chars]. destruct (print_filter_parsed s r Hr Hm) as (p & Ep & Her & Ho & Hb & ts & Hts & Hs). rewrite Ep. cbn [obind bool_decide decide_rel ErrorCode_eq_dec].
  destruct (realizes_terms _ _ _ Hts) as [Hpl _]. cbv zeta in *.
  destruct (pattern_finalize_spec p patternId filters Her Ho) as (p' & f' & Ef & Hok & Hcase); [rewrite Hs; by apply end_terms_filter|done|]. rewrite Ef. cbn [obind].
  exists f', (m_parseStatus p'). split; [done|]. split; [done|]. rewrite Hs, Hb in Hcase. destruct Hcase as [(Hst & Hacc & Hnot & Hpat)|(Hst & Hsame & He0 & Hall)].
  - left. split_and!; [done| | |done].
    + intros b url Hu. rewrite (Hacc b url Hu), (filter_match_accepts s r ts url Hts Hu). done.
    + intros Hall. apply Hnot. intros url Hu. apply (filter_match_accepts s r ts url Hts Hu). auto.
  - right. split_and!; [done|done|by apply (filter_match_accepts s r ts [] Hts); [constructor|]|]. intros Hc url Hu. apply (filter_match_accepts s r ts url Hts Hu). apply Hall; [|done]. destruct Hc as [Hc|Hc]; [by left|].
    right. rewrite Hc, app_nil_r. done.
Qed.

(** C3: The parser gives url-filter strings their meaning.  For every filter of
    the abstract syntax (characters, classes with ranges, the dot, groups,
    quantifiers, both anchors), adding its text to the combined filters returns
    and either accepts it, and then exactly the URLs of the filter newly perform
    the action, and not every URL is one; or reports that the filter matches
    everything and leaves the combined filters alone, and then every URL is
    accepted by the filter unless it has both anchors. *)
Theorem url_filter_exact filters r is8Bit patternIsCaseSensitive patternId :
  filters_ok filters -> filter_ok r = true -> print_filter r <> [] -> vsize (print_filter r) <= MAX_PATTERN_SIZE ->
  exists filters' status, url_filter_addPattern filters (mkString is8Bit (print_filter r)) patternIsCaseSensitive patternId = Done (filters', status) /\ filters_ok filters' /\
    ((status = Ok /\ (forall b url, url_word url -> accepts filters' b url <-> accepts filters b url \/ (b = patternId /\ filter_accepts patternIsCaseSensitive r url)) /\
        ~ (forall url, url_word url -> filter_accepts patternIsCaseSensitive r url)) \/
     (status = MatchesEverything /\ filters' = filters /\
        (f_start r = false \/ f_end r = false -> forall url, url_word url -> filter_accepts patternIsCaseSensitive r url))).
Proof.
  intros Hf Hr Hn Hm. destruct (url_filter_spec filters r is8Bit patternIsCaseSensitive patternId Hf Hr Hn Hm) as (f' & st & E & Hok & Hc). exists f', st. split; [done|]. split; [done|].
  destruct Hc as [(? & ? & ? & _)|(? & ? & _ & ?)]; [by left|by right].
Qed.

(** [^a[b-d]*\.(xy)?] *)
Definition sample_filter : url_filter :=
  mkFilter true [Character 97 One; Class false [ClassRange 98 100] ZeroOrMore; Character 46 One; Subpattern [Character 120 One; Character 121 One] ZeroOrOne] false.

Lemma url_filter_exact_witness : print_filter sample_filter = literal "^a[b-d]*\.(xy)?" /\
  exists filters' status, url_filter_addPattern emptyCombinedURLFilters (mkString true (print_filter sample_filter)) true 7 = Done (filters', status) /\ filters_ok filters' /\
    ((status = Ok /\ (forall b url, url_word url -> accepts filters' b url <-> accepts emptyCombinedURLFilters b url \/ (b = 7 /\ filter_accepts true sample_filter url)) /\
        ~ (forall url, url_word url -> filter_accepts true sample_filter url)) \/
     (status = MatchesEverything /\ filters' = emptyCombinedURLFilters /\
        (true = false \/ false = false -> forall url, url_word url -> filter_accepts true sample_filter url))).
Proof.
  split; [vm_compute; reflexivity|].
  apply (url_filter_exact emptyCombinedURLFilters sample_filter true true 7);
    [exact empty_filters_ok|vm_compute; reflexivity|discriminate|vm_compute; intros H; discriminate H].
Defined.

(** C22: The simplification of the terms of a filter keeps its meaning, for
    [filter_terms]: terms that neither match the end of line nor are taken for it
    by [isEndOfLineAssertion], followed or not by the end-of-line assertion.  The
    terms of the filter syntax are such; a class such as [[^\x00]], which the
    parser also takes, is not, and is treated wrongly (see
    [inverted_zero_class_is_end_of_line]).  The simplification returns, and the
    URLs that the simplified terms match from their start are those that the
    original terms match, from the start if the filter is anchored and from any
    position otherwise. *)
Theorem simplify_keeps_matches hasBeginningOfLineAssertion ts : filter_terms ts ->
  exists ts', simplify_terms hasBeginningOfLineAssertion ts = Done ts' /\
    forall url, url_word url -> terms_match ts' url <-> filter_match hasBeginningOfLineAssertion ts url.
Proof. intros Hts. destruct (simplify_spec hasBeginningOfLineAssertion ts Hts) as (ts' & E & _ & _ & Hm). eauto. Qed.

Lemma simplify_keeps_matches_witness : exists ts', simplify_terms false [dot_star; dot_star; eol_term] = Done ts' /\
  forall url, url_word url -> terms_match ts' url <-> filter_match false [dot_star; dot_star; eol_term] url.
Proof.
  apply (simplify_keeps_matches false [dot_star; dot_star; eol_term]). exists [dot_star; dot_star], [eol_term]. split; [reflexivity|]. split; [|right; reflexivity].
  constructor; [exact dot_star_plain|]. constructor; [exact dot_star_plain|constructor].
Defined.

(** ** Deviations *)

(** A character class with an escape of a character above 127 makes the
    parser crash on a release assertion, instead of rejecting the filter as it
    does outside of a class. *)
Theorem class_escape_crashes filters :
  url_filter_addPattern filters (s_literal "[\xff]") false 7 = Crash /\ url_filter_addPattern filters (s_literal "\xff") false 7 = Done (filters, NonASCII).
Proof. split; vm_compute; reflexivity. Qed.

(** C35: An anchored filter whose items are all optional, such as [^a?$], is
    reported as matching everything, although it does not accept the URL [b]. *)
Theorem anchored_optional_matches_everything filters :
  url_filter_addPattern filters (mkString true (print_filter (mkFilter true [Character 97 ZeroOrOne] true))) true 7 = Done (filters, MatchesEverything) /\
  ~ filter_accepts true (mkFilter true [Character 97 ZeroOrOne] true) [98].
Proof.
  split; [vm_compute; reflexivity|]. intros (before & part & after & E & Hl & Hs & He). cbn [f_start f_end f_items] in *. rewrite Hs, He, app_nil_r in E by done. cbn in E. subst part.
  destruct Hl as (u & v & E & [->|(c & -> & _ & Hc)] & ->); [done|]. injection E as <-. done.
Qed.

(** A class that excludes the zero character is taken for the end of the
    line: the trailing [.*[^\x00]] of a filter, which asks for one more
    character, is dropped, and the terms of [a.*[^\x00]] become those of [a]. *)
Theorem inverted_zero_class_is_end_of_line :
  exists ts, simplify_terms true [CharacterSetTerm (mkCharacterSet false 0 (2 ^ 33)) One; dot_star; CharacterSetTerm (mkCharacterSet true 1 0) One] = Done ts /\
    terms_match ts [97] /\ ~ terms_match [CharacterSetTerm (mkCharacterSet false 0 (2 ^ 33)) One; dot_star; CharacterSetTerm (mkCharacterSet true 1 0) One] [97].
Proof.
  eexists. split; [vm_compute; reflexivity|]. split.
  - exists [97], [0]. split; [done|]. exists [97], []. split_and!; [done| |done]. by exists 97.
  - intros (p & r & E & (u & v & -> & (c & -> & Hc) & (u' & v' & -> & Hu' & (x & y & -> & (c' & -> & Hc') & ->)))). cbn in E. injection E as <- E.
    apply any_string_url_words in Hu'; [|vm_compute; reflexivity]. destruct u' as [|d u']; cbn in E; injection E as E0 E.
    + subst c'. by vm_compute in Hc'.
    + apply Forall_cons in Hu' as [Hd _]. lia.
Qed.
