(* ===== verification/Dfa.v ===== *)
(** * The DFA (DFA.h, DFA.cpp, DFANode.h, DFANode.cpp)

    The automaton is stored in flat vectors: a node names a slice of the
    transition vectors and a slice of the action vector. *)

From stdpp Require Import gmap.
From S2P Require Import Prelude Containers.

Record CharRange := mkCharRange { cr_first : Z; cr_last : Z }.

Definition CharRange_size (r : CharRange) : Z := u32 (cr_last r - cr_first r + 1).

Record DFANode := mkDFANode {
  m_actionsStart : Z;
  m_transitionsStart : Z;
  m_actionsLength : Z;      (* uint16_t *)
  m_transitionsLength : Z;  (* uint8_t *)
  m_flags : Z               (* uint8_t *)
}.

Definition newDFANode : DFANode := mkDFANode 0 0 0 0 0.
Definition IsKilled : Z := 1.

Record DFA := mkDFA {
  dfa_nodes : list DFANode;
  dfa_actions : list Z;
  dfa_transitionRanges : list CharRange;
  dfa_transitionDestinations : list Z;
  dfa_root : Z
}.

Definition emptyDFA : DFA := mkDFA [] [] [] [] 0.

(** [DFA::empty()]: one node without transitions. *)
Definition DFA_empty : DFA := mkDFA [newDFANode] [] [] [] 0.

Definition isKilled (node : DFANode) : bool := negb (Z.land (m_flags node) IsKilled =? 0).
Definition hasActions (node : DFANode) : bool := negb (m_actionsLength node =? 0).

Definition setActions (node : DFANode) (start length : Z) : DFANode :=
  mkDFANode start (m_transitionsStart node) (u16 length) (m_transitionsLength node) (m_flags node).

(** The parameter is a [uint16_t], the field a [uint8_t]. *)
Definition setTransitions (node : DFANode) (start length : Z) : DFANode :=
  mkDFANode (m_actionsStart node) start (m_actionsLength node) (u8 (u16 length)) (m_flags node).

(** What a [ConstRangeIterator] shows at one position. *)
Record DFATransition := mkDFATransition { tr_range : CharRange; tr_target : Z }.

Definition tr_first (t : DFATransition) : Z := cr_first (tr_range t).
Definition tr_last (t : DFATransition) : Z := cr_last (tr_range t).

(** [DFANode::transitions(dfa)]: the positions from [m_transitionsStart] to
    [m_transitionsStart + m_transitionsLength]. *)
Definition node_transitions (node : DFANode) (dfa : DFA) : outcome (list DFATransition) :=
  let b := m_transitionsStart node in
  let e := m_transitionsStart node + m_transitionsLength node in
  let* ranges := vslice (dfa_transitionRanges dfa) b e in
  let* targets := vslice (dfa_transitionDestinations dfa) b e in
  Done (zip_with mkDFATransition ranges targets).

(** [DFANode::actions(dfa)]. *)
Definition node_actions (node : DFANode) (dfa : DFA) : outcome (list Z) :=
  vslice (dfa_actions dfa) (m_actionsStart node) (m_actionsStart node + m_actionsLength node).

(** [DFANode::containsTransition(transition, dfa)]. *)
Definition containsTransition (node : DFANode) (transition : Z) (dfa : DFA) : outcome bool :=
  let* ts := node_transitions node dfa in
  Done (existsb (fun t => (tr_first t <=? transition) && (transition <=? tr_last t)) ts).

(** [DFANode::kill(dfa)] on the node at index [i]. *)
Definition kill (dfa : DFA) (i : Z) : outcome DFA :=
  let* node := vget (dfa_nodes dfa) i in
  let tpos := seqZ (m_transitionsStart node) (m_transitionsLength node) in
  let apos := seqZ (m_actionsStart node) (m_actionsLength node) in
  let* ranges := ofold (fun v k => vset v k (mkCharRange (-1) (-1))) (dfa_transitionRanges dfa) tpos in
  let* dests := ofold (fun v k => vset v k UINT32_MAX) (dfa_transitionDestinations dfa) tpos in
  let* acts := ofold (fun v k => vset v k UINT64_MAX) (dfa_actions dfa) apos in
  let* nodes := vset (dfa_nodes dfa) i (mkDFANode 0 0 0 0 IsKilled) in
  Done (mkDFA nodes acts ranges dests (dfa_root dfa)).

(** The loop of [DFANode::canUseFallbackTransition]. *)
Fixpoint fallback_scan (lastSeenCharacter : Z) (ts : list DFATransition) : bool :=
  match ts with
  | [] => false
  | t :: ts' =>
      if negb (tr_first t =? lastSeenCharacter + 1) then false
      else if tr_last t =? 127 then true
      else fallback_scan (tr_last t) ts'
  end.

Definition transitions_allow_fallback (ts : list DFATransition) : bool :=
  match ts with
  | [] => false
  | t :: ts' =>
      if tr_first t =? 0
      then if tr_last t =? 127 then true else fallback_scan (tr_last t) ts'
      else fallback_scan 0 ts
  end.

(** [DFANode::canUseFallbackTransition(dfa)]. *)
Definition canUseFallbackTransition (node : DFANode) (dfa : DFA) : outcome bool :=
  let* ts := node_transitions node dfa in
  Done (transitions_allow_fallback ts).

(** The loop of [DFANode::bestFallbackTarget]: a histogram of how many
    characters lead to each target. *)
Fixpoint best_scan (histogram : gmap Z Z) (bestTarget bestTargetScore : Z) (ts : list DFATransition) : Z :=
  match ts with
  | [] => bestTarget
  | t :: ts' =>
      let rangeSize := CharRange_size (tr_range t) in
      let target := tr_target t in
      let value := match histogram !! target with
                   | None => rangeSize
                   | Some v => u32 (v + rangeSize)
                   end in
      let histogram' := <[target := value]> histogram in
      if bestTargetScore <? value
      then best_scan histogram' target value ts'
      else best_scan histogram' bestTarget bestTargetScore ts'
  end.

Definition transitions_best_target (ts : list DFATransition) : outcome Z :=
  let ts := match ts with
            | t :: ts' => if (tr_first t =? 0) && (tr_last t =? 0) then ts' else ts
            | [] => ts
            end in
  match ts with
  | [] => Crash
  | t :: ts' =>
      let score := if tr_first t =? 0
                   then u32 (CharRange_size (tr_range t) - 1)
                   else CharRange_size (tr_range t) in
      Done (best_scan {[tr_target t := score]} (tr_target t) score ts')
  end.

(** [DFANode::bestFallbackTarget(dfa)]. *)
Definition bestFallbackTarget (node : DFANode) (dfa : DFA) : outcome Z :=
  let* ts := node_transitions node dfa in
  transitions_best_target ts.

(** [DFA::graphSize()]: the nodes that are not killed. *)
Definition graphSize (dfa : DFA) : Z :=
  vsize (filter (fun n => negb (isKilled n) = true) (dfa_nodes dfa)).

(** ** Meaning of a DFA

    [trans_target ts c] is where the transition list [ts] leads on character
    [c]; [dfa_step] follows one edge; a run visits the nodes along a word. *)

Definition covers (t : DFATransition) (c : Z) : bool := (tr_first t <=? c) && (c <=? tr_last t).

Fixpoint trans_target (ts : list DFATransition) (c : Z) : option Z :=
  match ts with
  | [] => None
  | t :: ts' => if covers t c then Some (tr_target t) else trans_target ts' c
  end.

Definition dfa_node_transitions (dfa : DFA) (n : Z) : list DFATransition :=
  match vget (dfa_nodes dfa) n with
  | Done node => match node_transitions node dfa with Done ts => ts | _ => [] end
  | _ => []
  end.

Definition dfa_node_actions (dfa : DFA) (n : Z) : list Z :=
  match vget (dfa_nodes dfa) n with
  | Done node => match node_actions node dfa with Done l => l | _ => [] end
  | _ => []
  end.

Definition dfa_step (dfa : DFA) (n c : Z) : option Z := trans_target (dfa_node_transitions dfa n) c.

Fixpoint dfa_run (dfa : DFA) (n : Z) (w : list Z) : option Z :=
  match w with
  | [] => Some n
  | c :: w' => match dfa_step dfa n c with
               | Some n' => dfa_run dfa n' w'
               | None => None
               end
  end.

(** The nodes entered along [w], the start node excluded. *)
Fixpoint dfa_visits (dfa : DFA) (n : Z) (w : list Z) : list Z :=
  match w with
  | [] => []
  | c :: w' => match dfa_step dfa n c with
               | Some n' => n' :: dfa_visits dfa n' w'
               | None => []
               end
  end.

(** Transition lists are sorted, disjoint and over the ASCII alphabet. *)
Inductive sorted_from : Z -> list DFATransition -> Prop :=
| sorted_nil lo : sorted_from lo []
| sorted_cons lo t ts :
    lo <= tr_first t -> tr_first t <= tr_last t -> tr_last t < 128 ->
    sorted_from (tr_last t + 1) ts -> sorted_from lo (t :: ts).

Definition live (dfa : DFA) (n : Z) : Prop :=
  exists node, vget (dfa_nodes dfa) n = Done node /\ isKilled node = false.

(** Well-formed automata: live nodes have readable slices, sorted
    transitions, and edges to live nodes only. *)
Record node_wf (dfa : DFA) (node : DFANode) : Prop := {
  nwf_transitions : exists ts, node_transitions node dfa = Done ts /\ sorted_from 0 ts /\
                      Forall (fun t => live dfa (tr_target t)) ts;
  nwf_actions : exists l, node_actions node dfa = Done l
}.

Record dfa_wf (dfa : DFA) : Prop := {
  dwf_root : live dfa (dfa_root dfa);
  dwf_nodes : forall n node, vget (dfa_nodes dfa) n = Done node -> isKilled node = false -> node_wf dfa node;
  dwf_size : vsize (dfa_nodes dfa) < UINT32_MAX
}.

(** ** Facts about transition lists *)

Lemma sorted_from_weaken lo lo' ts : sorted_from lo ts -> lo' <= lo -> sorted_from lo' ts.
Proof. destruct 1; intros; constructor; auto; lia. Qed.

Lemma sorted_from_covers lo ts t c :
  sorted_from lo ts -> t ∈ ts -> covers t c = true -> lo <= c < 128.
Proof.
  intros Hs. induction Hs; intros Ht Hc; [by apply elem_of_nil in Ht|].
  apply elem_of_cons in Ht as [->|Ht].
  - unfold covers in Hc. zprop. lia.
  - specialize (IHHs Ht Hc). lia.
Qed.

Lemma trans_target_elem ts c n :
  trans_target ts c = Some n -> exists t, t ∈ ts /\ covers t c = true /\ tr_target t = n.
Proof.
  induction ts as [|t ts IH]; simpl; [done|]. destruct (covers t c) eqn:E.
  - intros [= <-]. exists t. split; [left|done].
  - intros (t' & ? & ? & ?)%IH. exists t'. split; [by right|done].
Qed.

Lemma trans_target_None ts c t : trans_target ts c = None -> t ∈ ts -> covers t c = false.
Proof.
  induction ts as [|t' ts IH]; simpl; intros HN Ht; [by apply elem_of_nil in Ht|].
  destruct (covers t' c) eqn:E; [done|]. apply elem_of_cons in Ht as [->|Ht]; auto.
Qed.

Lemma trans_target_intro lo ts c t :
  sorted_from lo ts -> t ∈ ts -> covers t c = true -> trans_target ts c = Some (tr_target t).
Proof.
  intros Hs. induction Hs as [|lo t' ts ? ? ? Hs IH]; intros Ht Hc; [by apply elem_of_nil in Ht|].
  simpl. apply elem_of_cons in Ht as [->|Ht]; [by rewrite Hc|].
  pose proof (sorted_from_covers _ _ _ _ Hs Ht Hc). destruct (covers t' c) eqn:E; [|auto].
  unfold covers in E. zprop. lia.
Qed.

Lemma trans_target_range lo ts c n : sorted_from lo ts -> trans_target ts c = Some n -> lo <= c < 128.
Proof.
  intros Hs (t & Ht & Hc & _)%trans_target_elem. eauto using sorted_from_covers.
Qed.

(** A node may use a fallback transition only when every character of 1..127
    has a transition. *)
Lemma fallback_scan_total lo ts c :
  sorted_from (lo + 1) ts -> fallback_scan lo ts = true -> lo < c < 128 ->
  is_Some (trans_target ts c).
Proof.
  revert lo. induction ts as [|t ts IH]; intros lo Hs Hf Hc; [done|].
  inversion Hs; subst. simpl in *. destruct (Z.eqb_spec (tr_first t) (lo + 1)); [|done].
  simpl in Hf. unfold covers. ztest_all; eauto; try lia.
  all: try (apply (IH (tr_last t)); [done|done|lia]).
Qed.

Lemma allow_fallback_total ts c :
  sorted_from 0 ts -> transitions_allow_fallback ts = true -> 0 < c < 128 ->
  is_Some (trans_target ts c).
Proof.
  intros Hs Hf Hc. destruct ts as [|t ts]; [done|]. simpl in Hf.
  destruct (Z.eqb_spec (tr_first t) 0).
  - inversion Hs; subst. simpl. unfold covers. ztest_all; eauto; try lia.
    all: try (apply (fallback_scan_total (tr_last t)); [done|done|lia]).
  - apply (fallback_scan_total 0); [|done|lia]. inversion Hs; subst. constructor; auto; lia.
Qed.

(** Conversely a covered alphabet passes the scan. *)
Lemma fallback_scan_complete lo ts :
  0 <= lo < 127 -> sorted_from (lo + 1) ts -> (forall c, lo < c < 128 -> is_Some (trans_target ts c)) -> fallback_scan lo ts = true.
Proof.
  revert lo. induction ts as [|t ts IH]; intros lo Hlo Hs Hc.
  { destruct (Hc 127) as [? Hx]; [lia|done]. }
  inversion Hs as [|? ? ? H1 H2 H3 Hs']; subst. simpl. destruct (Z.eqb_spec (tr_first t) (lo + 1)) as [E|E]; simpl.
  - destruct (Z.eqb_spec (tr_last t) 127); [done|]. apply IH; [lia|done|]. intros c Hc'. specialize (Hc c). simpl in Hc.
    unfold covers in Hc. destruct (Z.leb_spec (tr_first t) c), (Z.leb_spec c (tr_last t)); simpl in Hc; try lia; apply Hc; lia.
  - destruct (Hc (lo + 1)) as [n Hn]; [lia|]. simpl in Hn. unfold covers in Hn.
    destruct (Z.leb_spec (tr_first t) (lo + 1)); [lia|]. simpl in Hn.
    apply (trans_target_range (tr_last t + 1)) in Hn; [lia|done].
Qed.

Lemma allow_fallback_complete ts :
  sorted_from 0 ts -> (forall c, 0 < c < 128 -> is_Some (trans_target ts c)) -> transitions_allow_fallback ts = true.
Proof.
  intros Hs Hc. destruct ts as [|t ts]; [destruct (Hc 1) as [? Hx]; [lia|done]|]. inversion Hs as [|? ? ? H1 H2 H3 Hs']; subst.
  unfold transitions_allow_fallback. destruct (Z.eqb_spec (tr_first t) 0).
  - destruct (Z.eqb_spec (tr_last t) 127); [done|]. apply fallback_scan_complete; [lia|done|]. intros c Hc'.
    destruct (Hc c) as [m Hm]; [lia|]. simpl in Hm. unfold covers in Hm.
    destruct (Z.leb_spec (tr_first t) c), (Z.leb_spec c (tr_last t)); simpl in Hm; try lia; eauto.
  - apply fallback_scan_complete; [lia| |done]. constructor; auto; lia.
Qed.

Lemma best_scan_target h best score ts :
  best_scan h best score ts = best \/ exists t, t ∈ ts /\ tr_target t = best_scan h best score ts.
Proof.
  revert h best score. induction ts as [|t ts IH]; intros h best score; simpl; [by left|].
  match goal with |- context [if ?b then _ else _] => destruct b end.
  - edestruct IH as [->|(t' & ? & ?)]; right; eexists; split; eauto; by constructor.
  - edestruct IH as [->|(t' & ? & ?)]; [by left|right]. exists t'. split; [by right|done].
Qed.

(** The fallback target is the target of one of the transitions. *)
Lemma best_target_elem ts n :
  transitions_best_target ts = Done n -> exists t, t ∈ ts /\ tr_target t = n.
Proof.
  unfold transitions_best_target. intros Hb.
  assert (Hsub : forall ts', (match ts' with [] => Crash | t :: ts'' => Done (best_scan
     {[tr_target t := (if tr_first t =? 0 then u32 (CharRange_size (tr_range t) - 1) else CharRange_size (tr_range t))]}
     (tr_target t) (if tr_first t =? 0 then u32 (CharRange_size (tr_range t) - 1) else CharRange_size (tr_range t)) ts'') end
     = Done n) -> exists t, t ∈ ts' /\ tr_target t = n).
  { intros [|t ts'] E; [done|]. injection E as E.
    edestruct best_scan_target as [Ht|(t' & ? & Ht)]; rewrite Ht in E || rewrite <- Ht in E.
    - exists t. split; [left|done].
    - exists t'. split; [by right|done]. }
  apply Hsub in Hb as (t & Ht & ?). exists t. split; [|done].
  destruct ts as [|t0 ts]; [done|]. destruct (_ && _); [by right|done].
Qed.

(** A node that may use a fallback has one. *)
Lemma best_target_total ts :
  sorted_from 0 ts -> transitions_allow_fallback ts = true -> exists n, transitions_best_target ts = Done n.
Proof.
  intros Hs Hf. unfold transitions_best_target. destruct ts as [|t ts]; [done|].
  destruct ((tr_first t =? 0) && (tr_last t =? 0)) eqn:E; [|eauto].
  destruct ts; [|eauto]. simpl in Hf. apply andb_true_iff in E as [E1%Z.eqb_eq E2%Z.eqb_eq]. rewrite E1, E2 in Hf. done.
Qed.

(** ** Deciding well-formedness *)

Definition is_live (dfa : DFA) (n : Z) : bool :=
  match vget (dfa_nodes dfa) n with Done node => negb (isKilled node) | _ => false end.

Lemma is_live_spec dfa n : is_live dfa n = true <-> live dfa n.
Proof.
  unfold is_live, live. destruct (vget (dfa_nodes dfa) n) as [node| |]; [|naive_solver..].
  rewrite negb_true_iff. naive_solver.
Qed.

Lemma live_bound dfa n : live dfa n -> 0 <= n < vsize (dfa_nodes dfa).
Proof. intros (node & Hn & _). by apply vget_range in Hn. Qed.

Fixpoint sorted_fromb (lo : Z) (ts : list DFATransition) : bool :=
  match ts with
  | [] => true
  | t :: ts' => (lo <=? tr_first t) && (tr_first t <=? tr_last t) && (tr_last t <? 128) && sorted_fromb (tr_last t + 1) ts'
  end.

Definition node_wfb (dfa : DFA) (node : DFANode) : bool :=
  match node_transitions node dfa, node_actions node dfa with
  | Done ts, Done _ => sorted_fromb 0 ts && forallb (fun t => is_live dfa (tr_target t)) ts
  | _, _ => false
  end.

Definition dfa_wfb (dfa : DFA) : bool :=
  is_live dfa (dfa_root dfa) && forallb (fun node => isKilled node || node_wfb dfa node) (dfa_nodes dfa)
  && (vsize (dfa_nodes dfa) <? UINT32_MAX).

Lemma sorted_fromb_sound lo ts : sorted_fromb lo ts = true -> sorted_from lo ts.
Proof. revert lo. induction ts as [|t ts IH]; intros lo Hs; constructor; simpl in Hs; zprop; destruct Hs as [[[? ?] ?] ?]; auto. Qed.

Lemma dfa_wfb_sound dfa : dfa_wfb dfa = true -> dfa_wf dfa.
Proof.
  unfold dfa_wfb. rewrite !andb_true_iff. intros [[Hr Hn] Hs]. constructor.
  - by apply is_live_spec.
  - intros n node Hnode Hk. rewrite forallb_forall in Hn. specialize (Hn node). rewrite Hk in Hn.
    assert (Hw : node_wfb dfa node = true).
    { apply Hn, list_elem_of_In. apply vget_Done in Hnode as [_ Hl]. by apply list_elem_of_lookup_2 in Hl. }
    unfold node_wfb in Hw. destruct (node_transitions node dfa) as [ts| |] eqn:Et; [|done..].
    destruct (node_actions node dfa) as [l| |] eqn:El; [|done..]. apply andb_true_iff in Hw as [Hw1 Hw2]. constructor; [|eauto].
    exists ts. split_and!; [done|by apply sorted_fromb_sound|]. rewrite forallb_forall in Hw2. apply Forall_forall. intros t Ht.
    apply is_live_spec, Hw2. by apply list_elem_of_In.
  - by apply Z.ltb_lt in Hs.
Qed.

#[export] Hint Resolve trans_target_intro sorted_from_weaken : ce.
