(* ===== verification/Worklist.v ===== *)
(** * Building a DFA from a work list

    [NFAToDFA::convert] and [DFAMerger::merge] build a DFA the same way: a
    table maps keys (sets of NFA nodes, pairs of DFA nodes) to the nodes of the
    output, a work list holds the keys whose transitions are still to be
    written, and the transitions of a key are written from a range list whose
    data are keys.  This file has the shared loop body and its invariant. *)

From S2P Require Import Prelude Containers Dfa RangeList RangeListProofs.

#[local] Arguments vsize {A} v : simpl never.

(** ** The loop body *)

(** [U] are the table's entries, [Q] is what the work list holds, its last
    element first. *)
Record work_state (U Q : Type) := mkWorkState { ws_dfa : DFA; ws_table : list U; ws_unprocessed : list Q }.
Arguments mkWorkState {U Q}.
Arguments ws_dfa {U Q}.
Arguments ws_table {U Q}.
Arguments ws_unprocessed {U Q}.

Section Emit.
Context {U Q K : Type} (get : work_state U Q -> K -> outcome (Z * work_state U Q)).

(** The body of the loop over the combined ranges: [get] is
    [getOrCreateDFANode], or [getOrCreateCombinedNode]. *)
Definition append_transition (s : work_state U Q) (range : MutableRange K) : outcome (work_state U Q) :=
  let* (targetNodeId, s1) := get s (mr_data range) in
  let dfa := ws_dfa s1 in
  Done (mkWorkState
    (mkDFA (dfa_nodes dfa) (dfa_actions dfa) (dfa_transitionRanges dfa ++ [mkCharRange (mr_first range) (mr_last range)])
       (dfa_transitionDestinations dfa ++ [targetNodeId]) (dfa_root dfa))
    (ws_table s1) (ws_unprocessed s1)).

(** From [transitionsStart = ...] to [setTransitions(...)]; [source] finds the
    node whose transitions they are. *)
Definition emit_transitions (source : work_state U Q -> outcome Z) (s : work_state U Q) (combined : list (MutableRange K))
    : outcome (work_state U Q) :=
  let transitionsStart := vsize (dfa_transitionRanges (ws_dfa s)) in
  let* ranges := iterate combined in
  let* s1 := ofold append_transition s ranges in
  let dfa := ws_dfa s1 in
  let transitionsLength := vsize (dfa_transitionRanges dfa) - transitionsStart in
  let* nodeId := source s1 in
  let* node := vget (dfa_nodes dfa) nodeId in
  let* nodes := vset (dfa_nodes dfa) nodeId (setTransitions node transitionsStart (u8 transitionsLength)) in
  Done (mkWorkState (mkDFA nodes (dfa_actions dfa) (dfa_transitionRanges dfa) (dfa_transitionDestinations dfa) (dfa_root dfa))
          (ws_table s1) (ws_unprocessed s1)).
End Emit.

(** ** Reading the nodes of a DFA under construction *)

Record dnode_is (dfa : DFA) (i : Z) (ts : list DFATransition) (acts : list Z) : Prop := {
  dn_node : exists node, vget (dfa_nodes dfa) i = Done node /\ isKilled node = false /\
    node_transitions node dfa = Done ts /\ node_actions node dfa = Done acts
}.

(** Appending keeps the nodes there are. *)
Definition dfa_grows (dfa dfa' : DFA) : Prop :=
  exists n a r d, dfa_nodes dfa' = dfa_nodes dfa ++ n /\ dfa_actions dfa' = dfa_actions dfa ++ a /\
    dfa_transitionRanges dfa' = dfa_transitionRanges dfa ++ r /\ dfa_transitionDestinations dfa' = dfa_transitionDestinations dfa ++ d /\
    dfa_root dfa' = dfa_root dfa.

Lemma node_transitions_mono node dfa dfa' ts r d :
  dfa_transitionRanges dfa' = dfa_transitionRanges dfa ++ r -> dfa_transitionDestinations dfa' = dfa_transitionDestinations dfa ++ d ->
  node_transitions node dfa = Done ts -> node_transitions node dfa' = Done ts.
Proof.
  intros Hr Hd. unfold node_transitions. rewrite Hr, Hd. intros Ht. obind_inv Ht. obind_inv Ht.
  rewrite (vslice_mono _ _ _ _ _ E). cbn [obind]. by rewrite (vslice_mono _ _ _ _ _ E0).
Qed.

Lemma dnode_is_grows dfa dfa' i ts acts : dfa_grows dfa dfa' -> dnode_is dfa i ts acts -> dnode_is dfa' i ts acts.
Proof.
  intros (n & a & r & d & Hn & Ha & Hr & Hd & _) [(node & E & Hk & Ht & Hac)]. constructor. exists node. split_and!; try done.
  - rewrite Hn, vget_app_l; [done|]. by apply vget_range in E as [_ ?].
  - by eapply node_transitions_mono.
  - unfold node_actions in *. rewrite Ha. by apply vslice_mono.
Qed.

Lemma dfa_grows_refl dfa : dfa_grows dfa dfa.
Proof. exists [], [], [], []. by rewrite !app_nil_r. Qed.

Lemma dfa_grows_trans d1 d2 d3 : dfa_grows d1 d2 -> dfa_grows d2 d3 -> dfa_grows d1 d3.
Proof.
  unfold dfa_grows. intros (n & a & r & d & H1 & H2 & H3 & H4 & H5) (n' & a' & r' & d' & -> & -> & -> & -> & ->).
  rewrite H1, H2, H3, H4, H5, <- !app_assoc. by eexists _, _, _, _.
Qed.

Lemma vsize_pos {A} (l : list A) : l <> [] -> 0 < vsize l.
Proof. destruct l; [done|]. intros _. rewrite vsize_cons. pose proof (vsize_nonneg l). lia. Qed.

(** A node without transitions, with the actions appended for it. *)
Lemma new_node_is dfa acts : 0 <= vsize acts <= UINT16_MAX ->
  dnode_is (mkDFA (dfa_nodes dfa ++ [setActions newDFANode (vsize (dfa_actions dfa)) (u16 (vsize (dfa_actions dfa ++ acts) - vsize (dfa_actions dfa)))])
     (dfa_actions dfa ++ acts) (dfa_transitionRanges dfa) (dfa_transitionDestinations dfa) (dfa_root dfa)) (vsize (dfa_nodes dfa)) [] acts.
Proof.
  intros Ha. constructor. eexists. split; [by apply vget_app_here|]. split_and!; try done.
  unfold node_actions, setActions. cbn. rewrite vsize_app. replace (_ + _ - _) with (vsize acts) by lia.
  unfold UINT16_MAX in Ha. rewrite !u16_small by (rewrite ?u16_small; lia). apply vslice_app; [apply vsize_nonneg|done|done].
Qed.

Definition set_node (dfa : DFA) (i : Z) (node : DFANode) : DFA :=
  mkDFA (<[Z.to_nat i := node]> (dfa_nodes dfa)) (dfa_actions dfa) (dfa_transitionRanges dfa) (dfa_transitionDestinations dfa) (dfa_root dfa).

Lemma dnode_is_set_other dfa i j node ts acts : is_Some (dfa_nodes dfa !! Z.to_nat i) -> 0 <= i -> i <> j ->
  dnode_is dfa j ts acts -> dnode_is (set_node dfa i node) j ts acts.
Proof.
  intros Hi H0 Hj [(n & E & Hk & Ht & Ha)]. constructor. exists n. split_and!; try done. cbn. rewrite vget_insert; [by destruct (Z.eqb_spec j i)|].
  apply lookup_lt_is_Some in Hi. unfold vsize. lia.
Qed.

(** ** Transitions from ranges *)

Section Ranges.
Context {K : Type}.

Abbreviation to_other := (fun r : MutableRange K => mkOtherRange (mr_first r) (mr_last r) (mr_data r)).

Definition range_of (r : MutableRange K) : CharRange := mkCharRange (mr_first r) (mr_last r).

Lemma trans_target_zip (P : Z -> MutableRange K -> Prop) ids R c : Forall2 P ids R ->
  match ranges_lookup (map to_other R) c with
  | None => trans_target (zip_with mkDFATransition (map range_of R) ids) c = None
  | Some D => exists i r, trans_target (zip_with mkDFATransition (map range_of R) ids) c = Some i /\ P i r /\ mr_data r = D
  end.
Proof.
  induction 1 as [|i r ids R Hi HR IH]; [done|]. cbn [map ranges_lookup zip_with trans_target].
  unfold range_covers, covers, tr_first, tr_last. cbn. destruct (_ && _); [by exists i, r|done].
Qed.

Lemma sorted_zip ids R lo : length ids = length R -> ranges_sorted lo (map to_other R) -> sorted_from lo (zip_with mkDFATransition (map range_of R) ids).
Proof.
  revert ids lo. induction R as [|r R IH]; intros [|i ids] lo Hl Hs; try done; [constructor|]. destruct Hs as (H1 & H2 & H3). cbn in *.
  constructor; cbn; try lia. apply IH; [lia|done].
Qed.

Lemma sorted_length (l : list (OtherRange K)) lo : ranges_sorted lo l -> 0 <= lo <= 128 -> lo + vsize l <= 128.
Proof.
  revert lo. induction l as [|r l IH]; intros lo Hs Hlo; [unfold vsize; simpl; lia|]. destruct Hs as (H1 & H2 & H3). rewrite vsize_cons.
  specialize (IH _ H3). lia.
Qed.
End Ranges.

(** ** The table and its invariant *)

Section Table.
Context {U Q K : Type} `{EqDecision U} (uid : U -> Z) (ukey : U -> K) (utag : U -> Q).
Context (Keq : K -> K -> Prop) (Keq_sym : forall a b, Keq a b -> Keq b a).
(** What the entries satisfy, the actions of a key, and where a key moves on a
    character. *)
Context (entry_ok : U -> Prop) (acts_ok : K -> list Z -> Prop) (kmoves : K -> Z -> option K -> Prop).

Record transitions_ok (table : list U) (B : K) (ts : list DFATransition) : Prop := {
  to_sorted : sorted_from 0 ts;
  to_moves : forall c, 0 <= c < 128 -> exists o, kmoves B c o /\
    match o, trans_target ts c with
    | None, None => True
    | Some D, Some t => exists u, 0 <= t /\ table !! Z.to_nat t = Some u /\ Keq (ukey u) D
    | _, _ => False
    end;
  to_targets : Forall (fun t => 0 <= tr_target t < vsize table) ts
}.

(** Every key but those of [pending] has its transitions. *)
Record table_inv (dfa : DFA) (table pending : list U) : Prop := {
  ti_size : vsize table = vsize (dfa_nodes dfa);
  ti_length : vsize (dfa_transitionRanges dfa) = vsize (dfa_transitionDestinations dfa);
  ti_root : dfa_root dfa = 0;
  ti_index : forall i u, table !! i = Some u -> uid u = Z.of_nat i;
  ti_entries : forall u, u ∈ table -> entry_ok u;
  ti_actions : forall u, u ∈ table -> exists ts acts, dnode_is dfa (uid u) ts acts /\ acts_ok (ukey u) acts;
  ti_unique : forall u v, u ∈ table -> v ∈ table -> Keq (ukey u) (ukey v) -> u = v;
  ti_done : forall u, u ∈ table -> u ∉ pending -> exists ts acts, dnode_is dfa (uid u) ts acts /\ transitions_ok table (ukey u) ts;
  ti_pending : forall u, u ∈ pending -> u ∈ table;
  ti_nodup : NoDup pending
}.

Lemma transitions_ok_grows table new B ts : transitions_ok table B ts -> transitions_ok (table ++ new) B ts.
Proof.
  intros [H1 H2 H3]. constructor; [done| |].
  - intros c Hc. destruct (H2 c Hc) as (o & Hm & Ho). exists o. split; [done|]. destruct o, (trans_target ts c); try done.
    destruct Ho as (u & Ht & Hu & Hp). exists u. split_and!; try done. by apply lookup_app_l_Some.
  - eapply Forall_impl; [done|]. intros t Ht. cbv beta in *. rewrite vsize_app. pose proof (vsize_nonneg new). lia.
Qed.

(** Growing the DFA keeps the invariant when it adds no node. *)
Lemma table_inv_grows dfa dfa' table pending :
  table_inv dfa table pending -> dfa_grows dfa dfa' -> dfa_nodes dfa' = dfa_nodes dfa ->
  vsize (dfa_transitionRanges dfa') = vsize (dfa_transitionDestinations dfa') -> table_inv dfa' table pending.
Proof.
  intros [S1 S2 S3 S4 S5 S6 S7 S8 S9 S10] Hg Hn Hl. constructor; try done.
  - by rewrite Hn.
  - by destruct Hg as (? & ? & ? & ? & _ & _ & _ & _ & ->).
  - intros u Hu. destruct (S6 u Hu) as (ts & ac & Hi & Ha). exists ts, ac. split; [by eapply dnode_is_grows|done].
  - intros u Hu Hp. destruct (S8 u Hu Hp) as (ts & ac & Hi & Ha). exists ts, ac. split; [by eapply dnode_is_grows|done].
Qed.

(** A new entry, whose key is not in the table. *)
Lemma table_inv_add dfa table pending u acts dfa' :
  table_inv dfa table pending -> entry_ok u -> uid u = vsize (dfa_nodes dfa) -> (forall v, v ∈ table -> ~ Keq (ukey v) (ukey u)) ->
  Keq (ukey u) (ukey u) -> acts_ok (ukey u) acts ->
  dfa_grows dfa dfa' -> vsize (dfa_nodes dfa') = vsize (dfa_nodes dfa) + 1 ->
  vsize (dfa_transitionRanges dfa') = vsize (dfa_transitionDestinations dfa') -> dnode_is dfa' (uid u) [] acts ->
  table_inv dfa' (table ++ [u]) (u :: pending).
Proof.
  intros [S1 S2 S3 S4 S5 S6 S7 S8 S9 S10] Hok Hid Hnew Hrefl Ha Hg Hn Hl Hd.
  assert (Hfresh : u ∉ table) by (intros Hin; by apply (Hnew u Hin)).
  assert (Hin : forall v, v ∈ table ++ [u] <-> v ∈ table \/ v = u) by (intros v; by rewrite elem_of_app, list_elem_of_singleton).
  constructor; try done.
  - rewrite vsize_app, Hn, S1. done.
  - by destruct Hg as (? & ? & ? & ? & _ & _ & _ & _ & ->).
  - intros i v [Hi|[Hi Hv]]%lookup_app_Some; [auto|]. destruct (i - length table)%nat eqn:Ei; [|done]. injection Hv as <-. unfold vsize in *. lia.
  - intros v [Hv| ->]%Hin; auto.
  - intros v [Hv| ->]%Hin; [|eauto]. destruct (S6 v Hv) as (ts & ac & Hi & Hac). exists ts, ac. split; [by eapply dnode_is_grows|done].
  - intros v w [Hv| ->]%Hin [Hw| ->]%Hin Hp; [auto|by destruct (Hnew v Hv)|destruct (Hnew w Hw); auto|done].
  - intros v [Hv| ->]%Hin Hnp; [|destruct Hnp; left]. destruct (S8 v Hv) as (ts & ac & Hi & Ht); [intros ?; apply Hnp; by right|].
    exists ts, ac. split; [by eapply dnode_is_grows|by apply transitions_ok_grows].
  - intros v [->|Hv]%elem_of_cons; apply Hin; [by right|left; auto].
  - constructor; [|done]. intros Hp. by apply S9 in Hp.
Qed.

Lemma table_inv_perm dfa table p p' : p ≡ₚ p' -> table_inv dfa table p -> table_inv dfa table p'.
Proof.
  intros Hp [S1 S2 S3 S4 S5 S6 S7 S8 S9 S10]. constructor; try done.
  - intros u Hu Hn. apply S8; [done|]. by rewrite Hp.
  - intros u Hu. apply S9. by rewrite Hp.
  - by rewrite <- Hp.
Qed.

Lemma table_index_inj dfa table pending u v : table_inv dfa table pending -> u ∈ table -> v ∈ table -> uid u = uid v -> u = v.
Proof.
  intros Hs [i Hi]%list_elem_of_lookup [j Hj]%list_elem_of_lookup Heq. rewrite (ti_index _ _ _ Hs _ _ Hi), (ti_index _ _ _ Hs _ _ Hj) in Heq.
  assert (i = j) by lia. congruence.
Qed.

Lemma table_NoDup dfa table pending : table_inv dfa table pending -> NoDup table.
Proof. intros Hs. apply NoDup_alt. intros i j u Hi Hj. pose proof (ti_index _ _ _ Hs _ _ Hi). pose proof (ti_index _ _ _ Hs _ _ Hj). lia. Qed.

Lemma pending_size dfa table pending : table_inv dfa table pending -> (length pending <= length table)%nat.
Proof. intros Hs. apply submseteq_length, NoDup_submseteq; apply Hs. Qed.

(** Writing the transitions of [u] completes it. *)
Lemma table_inv_complete dfa table u pending node start ts :
  table_inv dfa table (u :: pending) -> vget (dfa_nodes dfa) (uid u) = Done node ->
  node_transitions (setTransitions node start (vsize ts)) dfa = Done ts -> transitions_ok table (ukey u) ts ->
  table_inv (set_node dfa (uid u) (setTransitions node start (vsize ts))) table pending.
Proof.
  intros Hinv En Ht Hok. pose proof Hinv as [S1 S2 S3 S4 S5 S6 S7 S8 S9 S10]. pose proof (vget_range _ _ _ En) as Hr.
  pose proof (proj1 (vget_Done _ _ _) En) as [H0 Hlk]. assert (Hu : u ∈ table) by (apply S9; left). apply NoDup_cons in S10 as [Hnp S10].
  assert (Hid : forall v, v ∈ table -> v <> u -> uid u <> uid v) by (intros v Hv Hne Heq; apply Hne; symmetry; by eapply table_index_inj).
  assert (Hself : forall ts0 acts, dnode_is dfa (uid u) ts0 acts -> dnode_is (set_node dfa (uid u) (setTransitions node start (vsize ts))) (uid u) ts acts).
  { intros ts0 acts [(n & E & Hk & _ & Ha)]. rewrite En in E. injection E as <-. constructor. eexists. cbn. rewrite vget_insert by done. rewrite Z.eqb_refl. split; [done|].
    split_and!; [done|exact Ht|exact Ha]. }
  constructor; try done.
  - by rewrite S1; cbn; rewrite vsize_insert.
  - intros v Hv. destruct (S6 v Hv) as (ts0 & ac & Hi & Hac). destruct (decide (v = u)) as [->|Hne]; [by eauto|].
    exists ts0, ac. split; [|done]. apply dnode_is_set_other; eauto.
  - intros v Hv Hp. destruct (decide (v = u)) as [->|Hne].
    + destruct (S6 u Hv) as (ts0 & ac & Hi & Hac). eauto.
    + destruct (S8 v Hv) as (ts0 & ac & Hi & Htr); [by intros [->|?]%elem_of_cons|]. exists ts0, ac. split; [|done]. apply dnode_is_set_other; eauto.
  - intros v Hv. apply S9. by right.
Qed.

(** ** The finished DFA *)

Lemma done_transitions dfa table u : table_inv dfa table [] -> u ∈ table -> transitions_ok table (ukey u) (dfa_node_transitions dfa (uid u)).
Proof.
  intros Hs Hu. destruct (ti_done _ _ _ Hs u Hu) as (ts & ac & [(node & En & _ & Ht & _)] & Hok); [by intros ?%elem_of_nil|].
  unfold dfa_node_transitions. by rewrite En, Ht.
Qed.

Lemma done_actions dfa table u : table_inv dfa table [] -> u ∈ table -> acts_ok (ukey u) (dfa_node_actions dfa (uid u)).
Proof.
  intros Hs Hu. destruct (ti_actions _ _ _ Hs u Hu) as (ts & ac & [(node & En & _ & _ & Ha)] & Hac).
  unfold dfa_node_actions. by rewrite En, Ha.
Qed.

Lemma result_wf dfa table : table_inv dfa table [] -> table <> [] -> vsize (dfa_nodes dfa) < UINT32_MAX -> dfa_wf dfa.
Proof.
  intros Hs Hne Hsz. pose proof (ti_size _ _ _ Hs) as Hsize.
  assert (Hall : forall i, 0 <= i < vsize table -> live dfa i /\ exists ts acts, dnode_is dfa i ts acts /\ sorted_from 0 ts /\ Forall (fun t => 0 <= tr_target t < vsize table) ts).
  { intros i Hi. destruct (lookup_lt_is_Some_2 table (Z.to_nat i)) as [u Hu]; [unfold vsize in Hi; lia|]. pose proof (ti_index _ _ _ Hs _ _ Hu) as Hid.
    destruct (ti_done _ _ _ Hs u) as (ts & ac & Hi' & [H1 _ H3]); [by eapply list_elem_of_lookup_2|by intros ?%elem_of_nil|].
    rewrite Hid, Z2Nat.id in Hi' by lia. split; [|eauto 10]. destruct Hi' as [(node & En & Hk & _)]. by exists node. }
  constructor; [|intros n node En Hk|done].
  - rewrite (ti_root _ _ _ Hs). apply Hall. apply vsize_pos in Hne. lia.
  - pose proof (vget_range _ _ _ En) as Hr. destruct (Hall n) as (_ & ts & ac & [(node' & En' & _ & Ht & Ha)] & H1 & H2); [lia|].
    rewrite En in En'. injection En' as <-. constructor; [|eauto]. exists ts. split_and!; try done. eapply Forall_impl; [done|]. intros t Hx. by apply Hall.
Qed.

(** ** Emitting transitions keeps the invariant *)

(** What a step adds: entries, at the end of the table and on the work list. *)
Record state_grows (s s' : work_state U Q) (new : list U) : Prop := {
  sg_dfa : dfa_grows (ws_dfa s) (ws_dfa s');
  sg_table : ws_table s' = ws_table s ++ new;
  sg_queue : ws_unprocessed s' = map utag (rev new) ++ ws_unprocessed s
}.

Definition has_key (table : list U) (i : Z) (D : K) : Prop := exists u, 0 <= i /\ table !! Z.to_nat i = Some u /\ Keq (ukey u) D.

Abbreviation inv s pending := (table_inv (ws_dfa s) (ws_table s) pending).

(** The contract of [get]. *)
Definition get_ok (get : work_state U Q -> K -> outcome (Z * work_state U Q)) (key_ok : K -> Prop) : Prop :=
  forall s pending D, inv s pending -> key_ok D ->
  exists i s' new, get s D = Done (i, s') /\ state_grows s s' new /\ inv s' (rev new ++ pending) /\ has_key (ws_table s') i D /\
    dfa_transitionRanges (ws_dfa s') = dfa_transitionRanges (ws_dfa s) /\
    dfa_transitionDestinations (ws_dfa s') = dfa_transitionDestinations (ws_dfa s).

Lemma state_grows_refl s : state_grows s s [].
Proof. constructor; [apply dfa_grows_refl|by rewrite app_nil_r|done]. Qed.

Lemma state_grows_trans s1 s2 s3 n1 n2 : state_grows s1 s2 n1 -> state_grows s2 s3 n2 -> state_grows s1 s3 (n1 ++ n2).
Proof.
  intros [G1 T1 Q1] [G2 T2 Q2]. constructor; [by eapply dfa_grows_trans| |].
  - by rewrite T2, T1, app_assoc.
  - by rewrite Q2, Q1, rev_app_distr, map_app, app_assoc.
Qed.

Lemma has_key_grows table new i D : has_key table i D -> has_key (table ++ new) i D.
Proof. intros (u & Hi & Hu & Hp). exists u. split_and!; try done. by apply lookup_app_l_Some. Qed.

(** The transitions of the ranges [R] have been appended. *)
Record appended (s0 : work_state U Q) (pending : list U) (R : list (MutableRange K)) (s : work_state U Q) : Prop := {
  ap_state : exists new, state_grows s0 s new /\ inv s (rev new ++ pending);
  ap_targets : exists ids, Forall2 (fun i r => has_key (ws_table s) i (mr_data r)) ids R /\
    dfa_transitionRanges (ws_dfa s) = dfa_transitionRanges (ws_dfa s0) ++ map range_of R /\
    dfa_transitionDestinations (ws_dfa s) = dfa_transitionDestinations (ws_dfa s0) ++ ids
}.

Section Emit.
Context (get : work_state U Q -> K -> outcome (Z * work_state U Q)) (key_ok : K -> Prop) (Hget : get_ok get key_ok).

Lemma append_transition_spec s0 pending R s r :
  appended s0 pending R s -> key_ok (mr_data r) -> exists s', append_transition get s r = Done s' /\ appended s0 pending (R ++ [r]) s'.
Proof.
  intros [(new & Hg & Hs) (ids & Hids & Hr & Hd)] Hok. unfold append_transition.
  destruct (Hget s _ (mr_data r) Hs Hok) as (i & s1 & new1 & E & Hg1 & Hs1 & Hi & Hr1 & Hd1). rewrite E. cbn [obind].
  eexists. split; [done|]. constructor.
  - exists (new ++ new1). split.
    + destruct (state_grows_trans _ _ _ _ _ Hg Hg1) as [(n & a & r' & d & G1 & G2 & G3 & G4 & G5) T Q']. constructor; [|done|done].
      exists n, a, (r' ++ [mkCharRange (mr_first r) (mr_last r)]), (d ++ [i]). cbn. by rewrite G1, G2, G3, G4, G5, !app_assoc.
    + rewrite rev_app_distr, <- app_assoc. eapply table_inv_grows; [exact Hs1| |done|].
      * exists [], [], [mkCharRange (mr_first r) (mr_last r)], [i]. cbn. by rewrite !app_nil_r.
      * cbn. rewrite !vsize_app. by rewrite (ti_length _ _ _ Hs1).
  - exists (ids ++ [i]). cbn. rewrite Hr1, Hd1, Hr, Hd, map_app, !app_assoc. split_and!; try done. apply Forall2_app; [|by constructor].
    eapply Forall2_impl; [done|]. intros j q Hj. rewrite (sg_table _ _ _ Hg1). by apply has_key_grows.
Qed.

Abbreviation to_other := (fun r : MutableRange K => mkOtherRange (mr_first r) (mr_last r) (mr_data r)).

(** The transitions of [u], from the combined ranges [v]. *)
Lemma emit_transitions_spec source s u rest v l :
  inv s (u :: rest) -> represents v l -> ranges_sorted 0 l -> (forall c, 0 <= c < 128 -> kmoves (ukey u) c (ranges_lookup l c)) ->
  (forall c D, 0 <= c < 128 -> kmoves (ukey u) c (Some D) -> key_ok D) ->
  (forall s' new, state_grows s s' new -> inv s' (rev new ++ u :: rest) -> source s' = Done (uid u)) ->
  exists s' new, emit_transitions get source s v = Done s' /\ ws_table s' = ws_table s ++ new /\
    ws_unprocessed s' = map utag (rev new) ++ ws_unprocessed s /\ inv s' (rev new ++ rest).
Proof.
  intros Hs Hv Hl Hm Hkey Hsrc. unfold emit_transitions. destruct (iterate_represents _ _ Hv) as (R & ER & HR). rewrite ER. cbn [obind]. subst l.
  destruct (ofold_total (append_transition get) (appended s (u :: rest)) s R) as (s1 & E1 & [(new & Hg & Hs1) (ids & Hids & Hr & Hd)]).
  - intros done r s1 Ha Hpre. apply (append_transition_spec _ _ _ _ _ Ha).
    assert (Hin : to_other r ∈ map to_other R) by (apply list_elem_of_fmap; exists r; split; [done|]; eapply elem_of_prefix; [|done]; rewrite elem_of_app, list_elem_of_singleton; auto).
    destruct (ranges_elem_first _ _ _ Hl Hin) as (H1 & H2 & Hlk). cbn [or_first or_last or_data] in H1, H2, Hlk. apply (Hkey (mr_first r)); [lia|].
    rewrite <- Hlk. apply Hm. lia.
  - constructor; [exists []; split; [apply state_grows_refl|done]|]. exists []. cbn. by rewrite !app_nil_r.
  - rewrite E1. cbn [obind]. rewrite (Hsrc _ _ Hg Hs1). cbn [obind]. assert (Hu1 : u ∈ ws_table s1) by (apply (ti_pending _ _ _ Hs1); rewrite elem_of_app, elem_of_cons; auto).
    destruct (ti_actions _ _ _ Hs1 u Hu1) as (ts0 & ac & [(node & En & _)] & _). rewrite En. cbn [obind].
    pose proof (vget_range _ _ _ En) as Hrange. rewrite vset_Done by done. cbn [obind].
    set (ts := zip_with mkDFATransition (map range_of R) ids).
    assert (Hlen : length ids = length R) by (by eapply Forall2_length).
    assert (Hts : vsize ts = vsize R) by (unfold vsize, ts; rewrite length_zip_with, length_map; lia).
    assert (Hmap : vsize (map range_of R) = vsize R) by (unfold vsize; by rewrite length_map).
    assert (Hmax : 0 <= vsize R <= 128). { split; [apply vsize_nonneg|]. apply sorted_length in Hl; [|lia]. unfold vsize in *. rewrite length_map in Hl. lia. }
    assert (Hsize : vsize (dfa_transitionRanges (ws_dfa s1)) - vsize (dfa_transitionRanges (ws_dfa s)) = vsize ts) by (rewrite Hr, vsize_app, Hts, Hmap; lia).
    rewrite Hsize, (u8_small (vsize ts)) by lia. eexists _, new. split; [done|]. split; [by apply Hg|]. split; [by apply Hg|].
    change (mkDFA _ _ _ _ _) with (set_node (ws_dfa s1) (uid u) (setTransitions node (vsize (dfa_transitionRanges (ws_dfa s))) (vsize ts))).
    cbn [ws_dfa ws_table]. apply table_inv_complete; [|done| |].
    + eapply table_inv_perm; [|done]. symmetry. apply Permutation_middle.
    + unfold node_transitions, setTransitions. cbn. rewrite !u16_small by lia. rewrite u8_small by lia. rewrite Hts, Hr.
      rewrite vslice_app; [|apply vsize_nonneg|done|by rewrite Hmap]. cbn [obind]. rewrite (ti_length _ _ _ Hs), Hd.
      rewrite vslice_app; [done|apply vsize_nonneg|done|]. unfold vsize. lia.
    + constructor.
      * by apply sorted_zip.
      * intros c Hc. exists (ranges_lookup (map to_other R) c). split; [auto|]. pose proof (trans_target_zip _ ids R c Hids) as Ht.
        destruct (ranges_lookup (map to_other R) c) as [D|]; [|by unfold ts; rewrite Ht]. destruct Ht as (i & r & Ht & (w & H0 & Hw & Hp) & HD).
        unfold ts. rewrite Ht. exists w. by rewrite <- HD.
      * apply Forall_forall. intros t Ht. apply elem_of_lookup_zip_with in Ht as (k & x & i & -> & Hx & Hi). cbn.
        destruct (Forall2_lookup_l _ _ _ _ _ Hids Hi) as (r & _ & (w & H0 & Hw & _)). apply lookup_lt_Some in Hw. unfold vsize. lia.
Qed.
End Emit.
End Table.

Arguments ti_size {U K uid ukey Keq entry_ok acts_ok kmoves dfa table pending} _.
Arguments ti_length {U K uid ukey Keq entry_ok acts_ok kmoves dfa table pending} _.
Arguments ti_root {U K uid ukey Keq entry_ok acts_ok kmoves dfa table pending} _.
Arguments ti_index {U K uid ukey Keq entry_ok acts_ok kmoves dfa table pending} _.
Arguments ti_entries {U K uid ukey Keq entry_ok acts_ok kmoves dfa table pending} _.
Arguments ti_unique {U K uid ukey Keq entry_ok acts_ok kmoves dfa table pending} _.
Arguments ti_pending {U K uid ukey Keq entry_ok acts_ok kmoves dfa table pending} _.
Arguments table_inv_add {U K uid ukey Keq} _ {entry_ok acts_ok kmoves dfa table pending}.
Arguments emit_transitions_spec {U Q K _ uid ukey utag Keq entry_ok acts_ok kmoves get key_ok}.
Arguments done_transitions {U K uid ukey Keq entry_ok acts_ok kmoves dfa table}.
Arguments done_actions {U K uid ukey Keq entry_ok acts_ok kmoves dfa table}.
Arguments result_wf {U K uid ukey Keq entry_ok acts_ok kmoves dfa table}.
Arguments table_NoDup {U K uid ukey Keq entry_ok acts_ok kmoves dfa table pending}.
Arguments pending_size {U K uid ukey Keq entry_ok acts_ok kmoves dfa table pending}.
