(* ===== verification/NfaToDfa.v ===== *)
(** * From the NFA to a DFA (NFAToDFA.cpp)

    The subset construction: the sets of NFA nodes are kept, with the DFA node
    of each, in a hash table; a work list holds the sets whose transitions are
    still to be computed. *)

From S2P Require Import Prelude Containers Dfa RangeList Nfa Worklist.

Section NFAToDFA.
Context `{HashOrder}.

(** ** Epsilon closures *)

(** The inner [for] of [epsilonClosureExcludingSelf].  The vector
    [unprocessedNodes] is kept with its last element first. *)
Definition visit_epsilon_target (state : list Z * list Z * list Z) (targetNodeId : Z) : list Z * list Z * list Z :=
  let '(closure, unprocessedNodes, output) := state in
  if hs_contains closure targetNodeId then state
  else (hs_add closure targetNodeId, targetNodeId :: unprocessedNodes, output ++ [targetNodeId]).

(** [do ... while (!unprocessedNodes.isEmpty())]. *)
Fixpoint closure_loop (fuel : nat) (nfa : NFA) (closure unprocessedNodes output : list Z) : outcome (list Z) :=
  match fuel with
  | O => OutOfFuel
  | S fuel' =>
      match unprocessedNodes with
      | [] => Crash
      | unprocessedNodeId :: rest =>
          let* targets := epsilonTargetsForNode nfa unprocessedNodeId in
          let '(closure', unprocessed', output') := foldl visit_epsilon_target (closure, rest, output) targets in
          match unprocessed' with
          | [] => Done output'
          | _ => closure_loop fuel' nfa closure' unprocessed' output'
          end
      end
  end.

Definition epsilonClosureExcludingSelf (nfa : NFA) (nodeId : Z) : outcome (list Z) :=
  closure_loop (length (nfa_nodes nfa)) nfa [nodeId] [nodeId] [].

(** [resolveEpsilonClosures]: the closures, and the NFA without its vector of
    epsilon targets. *)
Definition resolveEpsilonClosures (nfa : NFA) : outcome (NFA * list (list Z)) :=
  let* closures := omap_all (epsilonClosureExcludingSelf nfa) (seqZ 0 (vsize (nfa_nodes nfa))) in
  Done (mkNFA (nfa_nodes nfa) (nfa_transitions nfa) (nfa_targets nfa) [] (nfa_actions nfa), closures).

Definition extendSetWithClosure (nfaNodeClosures : list (list Z)) (nodeId : Z) (set : list Z) : outcome (list Z) :=
  let* nodeClosure := vget nfaNodeClosures nodeId in
  Done (hs_add_range set nodeClosure).

(** ** The table of node sets *)

Record UniqueNodeIdSetImpl := mkUniqueNodeIdSet { m_buffer : list Z; m_hash : Z; m_dfaNodeId : Z }.

(** [UniqueNodeIdSet::operator==(const NodeIdSet&)]. *)
Definition same_set (u : UniqueNodeIdSetImpl) (other : list Z) : bool :=
  (vsize (m_buffer u) =? vsize other) && forallb (hs_contains other) (m_buffer u).

(** [intHash(uint32_t)] of HashFunctions.h. *)
Definition intHash (key : Z) : Z :=
  let key := u32 (key + Z.lxor (u32 (Z.shiftl key 15)) UINT32_MAX) in
  let key := Z.lxor key (Z.shiftr key 10) in
  let key := u32 (key + u32 (Z.shiftl key 3)) in
  let key := Z.lxor key (Z.shiftr key 6) in
  let key := u32 (key + Z.lxor (u32 (Z.shiftl key 11)) UINT32_MAX) in
  Z.lxor key (Z.shiftr key 16).

(** The hash of a [NodeIdSetToUniqueNodeIdSetSource]. *)
Definition source_hash (nodeIdSet : list Z) : Z :=
  intHash (foldl (fun hash nodeId => u32 (hash + nodeId)) 4207445155 nodeIdSet).

(** [NodeIdSetToUniqueNodeIdSetTranslator::translate]: a new DFA node with the
    actions of the set. *)
Definition set_actions (nfa : NFA) (nodeIdSet : list Z) : outcome (list Z) :=
  ofold (fun actions nfaNodeId => let* l := actionsForNode nfa nfaNodeId in Done (hs_add_range actions l)) [] nodeIdSet.

Definition translate (dfa : DFA) (nfa : NFA) (nodeIdSet : list Z) (hash : Z) : outcome (DFA * UniqueNodeIdSetImpl) :=
  let* actions := set_actions nfa nodeIdSet in
  let actionsStart := vsize (dfa_actions dfa) in
  let dfa_actions' := dfa_actions dfa ++ actions in
  let actionsLength := vsize dfa_actions' - actionsStart in
  let* _ := release_assert (actionsLength <=? UINT16_MAX) in
  let dfaNodeId := vsize (dfa_nodes dfa) in
  Done (mkDFA (dfa_nodes dfa ++ [setActions newDFANode actionsStart (u16 actionsLength)]) dfa_actions'
          (dfa_transitionRanges dfa) (dfa_transitionDestinations dfa) (dfa_root dfa),
        mkUniqueNodeIdSet nodeIdSet hash dfaNodeId).

(** [uniqueNodeIdSetTable.add<NodeIdSetToUniqueNodeIdSetTranslator>(source)]:
    the entry, and whether it is new.  Entries are found by hash, then by
    comparing the sets. *)
Definition table_add (table : list UniqueNodeIdSetImpl) (dfa : DFA) (nfa : NFA) (nodeIdSet : list Z)
    : outcome (list UniqueNodeIdSetImpl * DFA * UniqueNodeIdSetImpl * bool) :=
  let hash := source_hash nodeIdSet in
  match List.find (fun u => (m_hash u =? hash) && same_set u nodeIdSet) table with
  | Some u => Done (table, dfa, u, false)
  | None =>
      let* (dfa', u) := translate dfa nfa nodeIdSet hash in
      Done (table ++ [u], dfa', u, true)
  end.

(** ** Combining transitions *)

(** [DataConverterWithEpsilonClosure]. *)
Definition closure_convert (nfaNodeClosures : list (list Z)) (iterable : list Z) : outcome (list Z) :=
  ofold (fun result nodeId =>
    let* nodeClosure := vget nfaNodeClosures nodeId in
    Done (hs_add_range (hs_add result nodeId) nodeClosure)) [] iterable.

Definition closure_extend (nfaNodeClosures : list (list Z)) (destination iterable : list Z) : outcome (list Z) :=
  ofold (fun destination nodeId =>
    if hs_contains destination nodeId then Done destination
    else let* nodeClosure := vget nfaNodeClosures nodeId in
         Done (hs_add_range (hs_add destination nodeId) nodeClosure)) destination iterable.

Definition DataConverterWithEpsilonClosure (nfaNodeClosures : list (list Z)) : DataConverter (list Z) (list Z) :=
  mkDataConverter (closure_convert nfaNodeClosures) (closure_extend nfaNodeClosures).

Definition createCombinedTransition (sourceNodeSet : UniqueNodeIdSetImpl) (nfa : NFA) (nfaNodeClosures : list (list Z))
    : outcome (list (MutableRange (list Z))) :=
  ofold (fun combinedRangeList nodeId =>
    let* transitions := transitionsForNode nfa nodeId in
    extend (DataConverterWithEpsilonClosure nfaNodeClosures) combinedRangeList transitions) [] (m_buffer sourceNodeSet).

(** ** The work list *)

Definition convert_state : Type := work_state UniqueNodeIdSetImpl UniqueNodeIdSetImpl.

Definition getOrCreateDFANode (nfa : NFA) (s : convert_state) (nfaNodeSet : list Z) : outcome (Z * convert_state) :=
  let* (table, dfa, u, isNewEntry) := table_add (ws_table s) (ws_dfa s) nfa nfaNodeSet in
  Done (m_dfaNodeId u, mkWorkState dfa table (if isNewEntry : bool then u :: ws_unprocessed s else ws_unprocessed s)).

(** One iteration: the set [u] was taken from the work list. *)
Definition process_set (nfa : NFA) (closures : list (list Z)) (s : convert_state) (u : UniqueNodeIdSetImpl) : outcome convert_state :=
  let* combinedRangeList := createCombinedTransition u nfa closures in
  emit_transitions (getOrCreateDFANode nfa) (fun _ => Done (m_dfaNodeId u)) s combinedRangeList.

Fixpoint convert_loop (fuel : nat) (nfa : NFA) (closures : list (list Z)) (s : convert_state) : outcome DFA :=
  match fuel with
  | O => OutOfFuel
  | S fuel' =>
      match ws_unprocessed s with
      | [] => Crash
      | u :: rest =>
          let* s1 := process_set nfa closures (mkWorkState (ws_dfa s) (ws_table s) rest) u in
          match ws_unprocessed s1 with
          | [] => Done (ws_dfa s1)
          | _ => convert_loop fuel' nfa closures s1
          end
      end
  end.

(** [NFAToDFA::convert(nfa)]. *)
Definition convert (fuel : nat) (nfa0 : NFA) : outcome DFA :=
  let* (nfa, nfaNodeClosures) := resolveEpsilonClosures nfa0 in
  let* root := nfa_root nfa in
  let* initialSet := extendSetWithClosure nfaNodeClosures root (hs_add [] root) in
  let* (table, dfa, u, _) := table_add [] emptyDFA nfa initialSet in
  convert_loop fuel nfa nfaNodeClosures (mkWorkState dfa table [u]).
End NFAToDFA.
