(* ===== verification/NfaClosures.v ===== *)
(** * Epsilon closures and combined transitions

    The closure of a node is computed exactly, and the ranges of a set of
    nodes are combined into the moves of the set. *)

From S2P Require Import Prelude Containers Dfa RangeList RangeListProofs Nfa NfaProofs NfaToDfa.

(** The NFA can be read and its edges lead to its nodes. *)
Record nfa_closed (nfa : NFA) : Prop := {
  nc_wf : nfa_wf nfa;
  nc_edges : forall p l q, nfa_edge nfa p l q -> 0 <= q < vsize (nfa_nodes nfa)
}.

Definition is_node (nfa : NFA) (p : Z) : Prop := 0 <= p < vsize (nfa_nodes nfa).

(** Reachable by empty edges. *)
Definition eps_reach (nfa : NFA) (p q : Z) : Prop := path (nfa_edge nfa) p [] q.

Definition closed_set (nfa : NFA) (S : list Z) : Prop := forall p q, p ∈ S -> eps_reach nfa p q -> q ∈ S.

(** What empty edges preserve holds of all that is reachable. *)
Lemma eps_reach_closed nfa (P : Z -> Prop) a b :
  (forall p q, P p -> nfa_edge nfa p None q -> P q) -> eps_reach nfa a b -> P a -> P b.
Proof.
  intros HP Hab. unfold eps_reach in Hab. remember [] as w eqn:Ew. revert Ew.
  induction Hab as [|a m w r He Hr IH|]; intros Ew Ha; [done| |done]. eauto.
Qed.

Lemma eps_reach_refl nfa p : eps_reach nfa p p.
Proof. constructor. Qed.

Lemma eps_reach_trans nfa p q r : eps_reach nfa p q -> eps_reach nfa q r -> eps_reach nfa p r.
Proof. intros H1 H2. by apply (path_app _ _ [] _ [] _ H1). Qed.

Lemma eps_reach_step nfa p q r : eps_reach nfa p q -> nfa_edge nfa q None r -> eps_reach nfa p r.
Proof. intros H1 H2. eapply eps_reach_trans; [done|]. eapply path_eps; [done|constructor]. Qed.

Section Closures.
Context `{HashOrder} (nfa : NFA) (Hnfa : nfa_closed nfa).

Lemma eps_reach_node p q : is_node nfa p -> eps_reach nfa p q -> is_node nfa q.
Proof.
  intros Hp Hr. eapply eps_reach_closed; [|done|done]. intros a b _ He. by apply (nc_edges _ Hnfa) in He.
Qed.

(** The nodes of [processed] have been taken from the work list; all the
    targets of those of [finished] are in the closure. *)
Record closing (root : Z) (processed finished closure unprocessed output : list Z) : Prop := {
  cl_parts : closure ≡ₚ processed ++ unprocessed;
  cl_output : closure ≡ₚ root :: output;
  cl_nodup : NoDup closure;
  cl_done : forall p q, p ∈ finished -> nfa_edge nfa p None q -> q ∈ closure;
  cl_sound : forall p, p ∈ closure -> is_node nfa p /\ eps_reach nfa root p
}.

(** The targets of a node that is being processed. *)
Lemma visit_targets_spec root processed finished u ts : eps_reach nfa root u -> (forall t, t ∈ ts -> nfa_edge nfa u None t) ->
  forall closure unprocessed output, closing root processed finished closure unprocessed output ->
  exists closure' unprocessed' output', foldl visit_epsilon_target (closure, unprocessed, output) ts = (closure', unprocessed', output') /\
    closing root processed finished closure' unprocessed' output' /\ (forall t, t ∈ ts \/ t ∈ closure -> t ∈ closure').
Proof.
  intros Hu. induction ts as [|t ts IH]; intros Hts closure unprocessed output Hc.
  { eexists _, _, _. split_and!; [done|done|]. intros t [?%elem_of_nil|]; done. }
  cbn [foldl visit_epsilon_target]. destruct (hs_contains closure t) eqn:Et.
  - apply hs_contains_spec in Et. destruct (IH (fun t' H => Hts t' (list_elem_of_further _ _ _ H)) _ _ _ Hc) as (c' & u' & o' & E & Hc' & Hin).
    eexists _, _, _. split_and!; [done|done|]. intros t' [[->|?]%elem_of_cons|?]; auto.
  - assert (Hnt : t ∉ closure) by (intros Hx%hs_contains_spec; congruence). unfold hs_add. rewrite Et.
    destruct (IH (fun t' H => Hts t' (list_elem_of_further _ _ _ H)) (hash_place t closure) (t :: unprocessed) (output ++ [t])) as (c' & u' & o' & E & Hc' & Hin).
    + destruct Hc as [H1 H2 H3 H4 H5]. constructor.
      * rewrite hash_place_perm, H1. apply Permutation_middle.
      * rewrite hash_place_perm, H2. rewrite (Permutation_app_comm output [t]). apply perm_swap.
      * rewrite hash_place_perm. by constructor.
      * intros p q Hp Hq. rewrite hash_place_perm. right. eauto.
      * intros p. rewrite hash_place_perm. intros [->|Hp]%elem_of_cons; [|auto]. assert (Hedge : nfa_edge nfa u None t) by (apply Hts; left).
        split; [by apply (nc_edges _ Hnfa) in Hedge|by eapply eps_reach_step].
    + eexists _, _, _. split_and!; [done|done|]. intros t' [[->|?]%elem_of_cons|?]; auto; apply Hin; right; rewrite hash_place_perm; [by left|by right].
Qed.

Lemma closing_size root processed finished closure unprocessed output :
  closing root processed finished closure unprocessed output -> (length processed + length unprocessed <= length (nfa_nodes nfa))%nat.
Proof.
  intros [H1 H2 H3 H4 H5]. rewrite <- length_app, <- (Permutation_length H1). transitivity (length (seqZ 0 (vsize (nfa_nodes nfa)))).
  - apply submseteq_length, NoDup_submseteq; [done|]. intros x Hx%H5. apply elem_of_seqZ. unfold is_node in Hx. lia.
  - rewrite length_seqZ. unfold vsize. lia.
Qed.

Lemma closure_loop_spec root fuel : forall processed closure unprocessed output,
  closing root processed processed closure unprocessed output -> unprocessed <> [] -> (length (nfa_nodes nfa) - length processed <= fuel)%nat ->
  exists output' closure' processed', closure_loop fuel nfa closure unprocessed output = Done output' /\ closing root processed' processed' closure' [] output'.
Proof.
  induction fuel as [|fuel IH]; intros processed closure unprocessed output Hc Hne Hf; destruct unprocessed as [|u rest]; [done| |done|].
  { apply closing_size in Hc. simpl in Hc. lia. }
  cbn [closure_loop]. assert (Hu : is_node nfa u /\ eps_reach nfa root u).
  { apply (cl_sound _ _ _ _ _ _ Hc). rewrite (cl_parts _ _ _ _ _ _ Hc), elem_of_app. right. left. }
  destruct Hu as [Hn Hu]. destruct (nc_wf _ Hnfa u Hn) as (l & eps & acts & Hi & _). rewrite (ni_epsilon _ _ _ _ _ Hi). cbn [obind].
  assert (Hts : forall t, t ∈ eps <-> nfa_edge nfa u None t) by (intros t; by rewrite (nfa_edge_node _ _ _ _ _ _ _ Hi)).
  assert (Hmid : closing root (u :: processed) processed closure rest output).
  { destruct Hc as [H1 H2 H3 H4 H5]. constructor; try done. by rewrite H1, <- Permutation_middle. }
  destruct (visit_targets_spec root (u :: processed) processed u eps Hu (fun t => proj1 (Hts t)) _ _ _ Hmid) as (c' & u' & o' & E & Hc' & Hin).
  rewrite E. assert (Hfin : closing root (u :: processed) (u :: processed) c' u' o').
  { destruct Hc' as [H1 H2 H3 H4 H5]. constructor; try done. intros p q [->|Hp]%elem_of_cons Hq; [|eauto]. apply Hin. left. by apply Hts. }
  destruct u' as [|v u']; [by eexists _, _, _|]. apply (IH (u :: processed)); [done|done|]. simpl. lia.
Qed.

(** The closure of a node without itself. *)
Lemma epsilonClosure_spec p : is_node nfa p ->
  exists output, epsilonClosureExcludingSelf nfa p = Done output /\ NoDup output /\ forall q, q ∈ output <-> q <> p /\ eps_reach nfa p q.
Proof.
  intros Hp. destruct (closure_loop_spec p (length (nfa_nodes nfa)) [] [p] [p] []) as (output & closure & processed & E & [H1 H2 H3 H4 H5]).
  - constructor; [done|done|apply NoDup_singleton|by intros ? ? ?%elem_of_nil|]. intros q ->%list_elem_of_singleton. split; [done|apply eps_reach_refl].
  - done.
  - simpl. lia.
  - exists output. split; [done|]. rewrite H2 in H3. apply NoDup_cons in H3 as [Hnp H3]. split; [done|]. intros q. split.
    + intros Hq. split; [congruence|]. apply H5. rewrite H2. by right.
    + intros [Hne Hr]. assert (Hall : forall a b, eps_reach nfa a b -> a ∈ closure -> b ∈ closure).
      { intros a b. apply (eps_reach_closed nfa (fun x => x ∈ closure)). intros c d Hc. eapply H4. by rewrite H1, app_nil_r in Hc. }
      assert (Hq : q ∈ closure) by (eapply Hall; [done|]; rewrite H2; left). rewrite H2 in Hq. by apply elem_of_cons in Hq as [?|?].
Qed.

Lemma omap_all_spec {A B} (f : A -> outcome B) (P : A -> B -> Prop) l :
  (forall x, x ∈ l -> exists y, f x = Done y /\ P x y) -> exists ys, omap_all f l = Done ys /\ Forall2 P l ys.
Proof.
  induction l as [|x l IH]; intros Hl; [by exists []|]. destruct (Hl x) as (y & Ey & Hy); [left|].
  destruct IH as (ys & Eys & Hys); [intros; apply Hl; by right|]. exists (y :: ys). cbn [omap_all]. rewrite Ey. cbn [obind]. rewrite Eys. split; [done|by constructor].
Qed.

(** The table of closures. *)
Definition closures_ok (cl : list (list Z)) : Prop :=
  forall p, is_node nfa p -> exists l, vget cl p = Done l /\ forall q, q ∈ l <-> q <> p /\ eps_reach nfa p q.

Lemma resolve_spec : exists cl, resolveEpsilonClosures nfa =
    Done (mkNFA (nfa_nodes nfa) (nfa_transitions nfa) (nfa_targets nfa) [] (nfa_actions nfa), cl) /\ closures_ok cl.
Proof.
  unfold resolveEpsilonClosures.
  destruct (omap_all_spec (epsilonClosureExcludingSelf nfa) (fun p l => NoDup l /\ forall q, q ∈ l <-> q <> p /\ eps_reach nfa p q) (seqZ 0 (vsize (nfa_nodes nfa))))
    as (cl & E & Hcl).
  { intros p Hp%elem_of_seqZ. apply epsilonClosure_spec. unfold is_node. lia. }
  exists cl. rewrite E. split; [done|]. intros p Hp. unfold is_node in Hp. assert (Hlk : seqZ 0 (vsize (nfa_nodes nfa)) !! Z.to_nat p = Some p) by (rewrite lookup_seqZ_lt; [f_equal; lia|lia]).
  destruct (Forall2_lookup_l _ _ _ _ _ Hcl Hlk) as (l & Hl & _ & Hq). exists l. split; [|done]. apply vget_Done. split; [lia|done].
Qed.

(** ** Sets of nodes *)

Context (cl : list (list Z)) (Hcl : closures_ok cl).

(** Reachable from a member by empty edges. *)
Definition closure_of (l : list Z) (x : Z) : Prop := exists p, p ∈ l /\ eps_reach nfa p x.

Lemma closure_add_spec d p : is_node nfa p -> exists c, vget cl p = Done c /\
  forall x, x ∈ hs_add_range (hs_add d p) c <-> x ∈ d \/ eps_reach nfa p x.
Proof.
  intros Hp. destruct (Hcl p Hp) as (c & Ec & Hc). exists c. split; [done|]. intros x. rewrite elem_of_hs_add_range, elem_of_hs_add, Hc.
  destruct (Z.eq_dec x p) as [->|]; [|tauto]. pose proof (eps_reach_refl nfa p). tauto.
Qed.

Lemma closure_convert_from l : forall d, NoDup d -> (forall p, p ∈ l -> is_node nfa p) ->
  exists r, ofold (fun result nodeId => let* nodeClosure := vget cl nodeId in Done (hs_add_range (hs_add result nodeId) nodeClosure)) d l = Done r /\
    NoDup r /\ forall x, x ∈ r <-> x ∈ d \/ closure_of l x.
Proof.
  induction l as [|p l IH]; intros d Hd Hl.
  { exists d. split_and!; [done..|]. intros x. split; [auto|]. by intros [?|(p & ?%elem_of_nil & _)]. }
  destruct (closure_add_spec d p) as (c & Ec & Hc); [apply Hl; left|]. cbn [ofold]. rewrite Ec. cbn [obind].
  destruct (IH (hs_add_range (hs_add d p) c)) as (r & E & Hn & Hr); [auto with ce|intros; apply Hl; by right|]. exists r. split_and!; [done..|].
  intros x. rewrite Hr, Hc. unfold closure_of. setoid_rewrite elem_of_cons. split.
  - intros [[?|?]|(q & ? & ?)]; eauto 6.
  - intros [?|(q & [->|?] & ?)]; eauto 6.
Qed.

Lemma closure_convert_spec l : (forall p, p ∈ l -> is_node nfa p) ->
  exists r, closure_convert cl l = Done r /\ NoDup r /\ forall x, x ∈ r <-> closure_of l x.
Proof.
  intros Hl. destruct (closure_convert_from l [] (NoDup_nil_2) Hl) as (r & E & Hn & Hr). exists r. split_and!; [done..|].
  intros x. rewrite Hr. split; [by intros [?%elem_of_nil|?]|auto].
Qed.

(** Extending a set that is closed skips the members it already has. *)
Lemma closure_extend_spec l : forall d, (forall p, p ∈ l -> is_node nfa p) ->
  exists r, closure_extend cl d l = Done r /\ (NoDup d -> NoDup r) /\ (closed_set nfa d -> closed_set nfa r /\ forall x, x ∈ r <-> x ∈ d \/ closure_of l x).
Proof.
  unfold closure_extend. induction l as [|p l IH]; intros d Hl.
  { exists d. split_and!; [done..|]. intros Hd. split; [done|]. intros x. split; [auto|]. by intros [?|(p & ?%elem_of_nil & _)]. }
  cbn [ofold]. assert (Hl' : forall p, p ∈ l -> is_node nfa p) by (intros; apply Hl; by right).
  destruct (hs_contains d p) eqn:Ep; cbn [obind].
  - apply hs_contains_spec in Ep. destruct (IH d Hl') as (r & E & Hn & Hr). exists r. split_and!; [done..|]. intros Hd. destruct (Hr Hd) as [Hcr Hx].
    split; [done|]. intros x. rewrite Hx. unfold closure_of. setoid_rewrite elem_of_cons. split.
    + intros [?|(q & ? & ?)]; eauto 6.
    + intros [?|(q & [->|?] & ?)]; eauto 6.
  - destruct (closure_add_spec d p) as (c & Ec & Hc); [apply Hl; left|]. rewrite Ec. cbn [obind].
    destruct (IH (hs_add_range (hs_add d p) c) Hl') as (r & E & Hn & Hr). exists r. split_and!; [done|auto with ce|]. intros Hd.
    destruct Hr as [Hcr Hx]. { intros a b Ha Hab. rewrite Hc in Ha |- *. destruct Ha as [?|?]; [left; eauto|right; by eapply eps_reach_trans]. }
    split; [done|]. intros x. rewrite Hx, Hc. unfold closure_of. setoid_rewrite elem_of_cons. split.
    + intros [[?|?]|(q & ? & ?)]; eauto 6.
    + intros [?|(q & [->|?] & ?)]; eauto 6.
Qed.

(** ** The moves of a set *)

(** The NFA once its epsilon targets are dropped. *)
Definition stripped : NFA := mkNFA (nfa_nodes nfa) (nfa_transitions nfa) (nfa_targets nfa) [] (nfa_actions nfa).

(** [o] is where the set [B] goes on [c]; no set when it cannot move. *)
Definition moves (B : list Z) (c : Z) (o : option (list Z)) : Prop :=
  match o with
  | None => forall p q, p ∈ B -> ~ nfa_edge nfa p (Some c) q
  | Some D => NoDup D /\ closed_set nfa D /\ forall x, x ∈ D <-> exists p q, p ∈ B /\ nfa_edge nfa p (Some c) q /\ eps_reach nfa q x
  end.

Lemma closure_of_closed l r : (forall x, x ∈ r <-> closure_of l x) -> closed_set nfa r.
Proof. intros Hr a b Ha Hab. rewrite Hr in Ha |- *. destruct Ha as (p & Hp & Hpa). exists p. split; [done|by eapply eps_reach_trans]. Qed.

(** Adding the transitions of one more node. *)
Lemma combine_node v l B p :
  represents v l -> ranges_sorted 0 l -> (forall c, 0 <= c < 128 -> moves B c (ranges_lookup l c)) -> is_node nfa p ->
  exists ts v' l', transitionsForNode stripped p = Done ts /\ extend (DataConverterWithEpsilonClosure cl) v ts = Done v' /\
    represents v' l' /\ ranges_sorted 0 l' /\ forall c, 0 <= c < 128 -> moves (B ++ [p]) c (ranges_lookup l' c).
Proof.
  intros Hv Hl Hm Hp. destruct (nc_wf _ Hnfa p Hp) as (ts & eps & acts & Hi & Hts).
  assert (Hedge : forall c q, nfa_edge nfa p (Some c) q <-> ranges_edge ts c q) by (intros c q; apply (nfa_edge_node _ _ _ _ _ (Some c) q Hi)).
  assert (Hdata : forall o q, o ∈ ts -> q ∈ or_data o -> is_node nfa q).
  { intros o q Ho Hq. destruct (ranges_elem_first _ _ _ Hts Ho) as (_ & _ & Hlk). apply (nc_edges _ Hnfa p (Some (or_first o))).
    apply Hedge. by exists (or_data o). }
  set (cv l := match closure_convert cl l with Done r => r | _ => [] end).
  set (ex d l := match closure_extend cl d l with Done r => r | _ => [] end).
  destruct (extend_spec (DataConverterWithEpsilonClosure cl) cv ex (ranges_lookup l) ts) with (v := v) (l := l) as (v' & l' & E & Hv' & Hl' & Hm'); try done.
  { intros o Ho. unfold cv. cbn. destruct (closure_convert_spec (or_data o)) as (r & -> & _); [intros; by eapply Hdata|done]. }
  { intros d o Ho. unfold ex. cbn. destruct (closure_extend_spec (or_data o) d) as (r & -> & _); [intros; by eapply Hdata|done]. }
  exists ts, v', l'. split_and!; try done; [apply (ni_transitions _ _ _ _ _ Hi)|]. intros c Hc. rewrite Hm' by done. specialize (Hm c Hc).
  destruct (ranges_lookup ts c) as [ds|] eqn:Et; cbn [merged].
  - assert (Hds : forall q, q ∈ ds <-> nfa_edge nfa p (Some c) q) by (intros q; rewrite Hedge; unfold ranges_edge; rewrite Et; symmetry; apply (exists_Some ds (fun ts => q ∈ ts))).
    assert (Hnode : forall q, q ∈ ds -> is_node nfa q) by (intros q Hq%Hds; by apply (nc_edges _ Hnfa) in Hq).
    destruct (ranges_lookup l c) as [D|]; cbn [moves] in *.
    + destruct Hm as (Hn & Hcs & Hx). unfold ex. destruct (closure_extend_spec ds D Hnode) as (r & -> & Hnr & Hr). destruct (Hr Hcs) as [Hcr Hxr].
      split_and!; [auto|done|]. intros x. rewrite Hxr, Hx. unfold closure_of. setoid_rewrite elem_of_app. setoid_rewrite list_elem_of_singleton. setoid_rewrite Hds. split.
      * intros [(p' & q & ? & ? & ?)|(q & ? & ?)]; eauto 10.
      * intros (p' & q & [?| ->] & ? & ?); eauto 10.
    + unfold cv. destruct (closure_convert_spec ds Hnode) as (r & -> & Hnr & Hxr). split_and!; [done|by eapply closure_of_closed|]. intros x. rewrite Hxr.
      unfold closure_of. setoid_rewrite elem_of_app. setoid_rewrite list_elem_of_singleton. setoid_rewrite Hds. split.
      * intros (q & ? & ?); eauto 10.
      * intros (p' & q & [Hp'| ->] & Hq & ?); [by apply Hm in Hq|eauto].
  - assert (Hno : forall q, ~ nfa_edge nfa p (Some c) q) by (intros q; rewrite Hedge; unfold ranges_edge; rewrite Et; by intros (ts' & ? & _)).
    destruct (ranges_lookup l c) as [D|]; cbn [moves] in *.
    + destruct Hm as (Hn & Hcs & Hx). split_and!; [done..|]. intros x. rewrite Hx. setoid_rewrite elem_of_app. setoid_rewrite list_elem_of_singleton. split.
      * intros (p' & q & ? & ? & ?); eauto 10.
      * intros (p' & q & [?| ->] & Hq & ?); [eauto 10|by apply Hno in Hq].
    + intros p' q [?| ->%list_elem_of_singleton]%elem_of_app; [auto|done].
Qed.

Lemma createCombinedTransition_spec u : (forall p, p ∈ m_buffer u -> is_node nfa p) ->
  exists v l, createCombinedTransition u stripped cl = Done v /\ represents v l /\ ranges_sorted 0 l /\
    forall c, 0 <= c < 128 -> moves (m_buffer u) c (ranges_lookup l c).
Proof.
  intros Hu. unfold createCombinedTransition.
  destruct (ofold_total (fun combined nodeId => let* transitions := transitionsForNode stripped nodeId in extend (DataConverterWithEpsilonClosure cl) combined transitions)
    (fun B v => exists l, represents v l /\ ranges_sorted 0 l /\ forall c, 0 <= c < 128 -> moves B c (ranges_lookup l c)) [] (m_buffer u)) as (v & E & l & Hl).
  - intros B p v (l & Hv & Hs & Hm) Hpre. assert (Hp : p ∈ m_buffer u) by (eapply elem_of_prefix; [|done]; rewrite elem_of_app, list_elem_of_singleton; auto).
    destruct (combine_node v l B p Hv Hs Hm (Hu p Hp)) as (ts & v' & l' & E1 & E2 & H1 & H2 & H3). rewrite E1. cbn [obind]. eauto 10.
  - exists []. split_and!; [apply represents_nil|done|]. by intros c Hc p q ?%elem_of_nil.
  - exists v, l. by split_and!; [|apply Hl..].
Qed.
End Closures.
