(* ===== verification/NfaToDfaProofs.v ===== *)
(** * The subset construction is correct

    Every node of the DFA stands for a closed set of NFA nodes; its actions are
    those of the set and its transitions are the moves of the set.  The loop
    ends because there are finitely many sets. *)

From S2P Require Import Prelude Containers RangeList RangeListProofs Nfa NfaProofs Dfa Worklist NfaToDfa NfaClosures.

#[local] Arguments vsize {A} v : simpl never.

#[global] Instance UniqueNodeIdSetImpl_eq_dec : EqDecision UniqueNodeIdSetImpl.
Proof. solve_decision. Defined.

(** ** Equal sets have equal hashes *)

Lemma foldl_u32_sum l : forall h, h = u32 h -> foldl (fun hash x => u32 (hash + x)) h l = u32 (h + foldr Z.add 0 l).
Proof.
  induction l as [|x l IH]; intros h Hh; simpl; [by rewrite Z.add_0_r|]. rewrite IH.
  - rewrite u32_u32_add. f_equal. lia.
  - symmetry. apply u32_small, u32_range.
Qed.

Lemma foldr_add_perm l l' : l ≡ₚ l' -> foldr Z.add 0 l = foldr Z.add 0 l'.
Proof. induction 1; simpl; lia. Qed.

Lemma source_hash_perm l l' : l ≡ₚ l' -> source_hash l = source_hash l'.
Proof. intros Hp. unfold source_hash. f_equal. rewrite !foldl_u32_sum by done. by rewrite (foldr_add_perm _ _ Hp). Qed.

Lemma same_set_spec u S : NoDup (m_buffer u) -> NoDup S -> same_set u S = true <-> m_buffer u ≡ₚ S.
Proof.
  intros Hu HS. unfold same_set. rewrite andb_true_iff, Z.eqb_eq, forallb_forall. split.
  - intros [Hl Hin]. apply submseteq_length_Permutation.
    + apply NoDup_submseteq; [done|]. intros x Hx. apply hs_contains_spec, Hin. by apply list_elem_of_In.
    + unfold vsize in Hl. lia.
  - intros Hp. split; [unfold vsize; by rewrite (Permutation_length Hp)|]. intros x Hx. apply hs_contains_spec. rewrite <- Hp. by apply list_elem_of_In.
Qed.

(** ** The subsets of a list *)

Fixpoint sublists {A} (l : list A) : list (list A) :=
  match l with
  | [] => [[]]
  | x :: l' => map (cons x) (sublists l') ++ sublists l'
  end.

Lemma length_sublists {A} (l : list A) : length (sublists l) = (2 ^ length l)%nat.
Proof. induction l as [|x l IH]; [done|]. cbn [sublists length]. rewrite length_app, length_map, IH. simpl. lia. Qed.

Lemma filter_sublists {A} (f : A -> bool) l : List.filter f l ∈ sublists l.
Proof.
  induction l as [|x l IH]; [by left|]. cbn [sublists List.filter]. rewrite elem_of_app. destruct (f x); [left|by right].
  apply list_elem_of_fmap. eauto.
Qed.

Section Subset.
Context `{HashOrder} (nfa : NFA) (Hnfa : nfa_closed nfa) (cl : list (list Z)) (Hcl : closures_ok nfa cl).
Context (Hactions : vsize (remove_dups (nfa_actions nfa)) <= UINT16_MAX).

Abbreviation nfa' := (stripped nfa).

(** ** Actions of a set *)

Definition actions_of (B acts : list Z) : Prop := NoDup acts /\ forall a, a ∈ acts <-> exists p, p ∈ B /\ nfa_action nfa p a.

Lemma nfa_action_elem p a : nfa_action nfa p a -> a ∈ nfa_actions nfa.
Proof. intros (l & Hl & Ha). unfold actionsForNode in Hl. obind_inv Hl. by eapply vslice_elem. Qed.

Lemma set_actions_spec B : (forall p, p ∈ B -> is_node nfa p) -> exists acts, set_actions nfa' B = Done acts /\ actions_of B acts.
Proof.
  intros HB. unfold set_actions.
  destruct (ofold_total (fun actions nfaNodeId => let* l := actionsForNode nfa' nfaNodeId in Done (hs_add_range actions l)) actions_of [] B) as (acts & E & Ha); [| |eauto].
  - intros P p acts [Hn Ha] Hpre. assert (Hp : p ∈ B) by (eapply elem_of_prefix; [|done]; rewrite elem_of_app, list_elem_of_singleton; auto).
    destruct (nc_wf _ Hnfa p (HB p Hp)) as (l & eps & ac & Hi & _). change (actionsForNode nfa' p) with (actionsForNode nfa p).
    rewrite (ni_actions _ _ _ _ _ Hi). cbn [obind]. eexists. split; [done|]. split; [auto with ce|].
    intros a. rewrite elem_of_hs_add_range, Ha, <- (nfa_action_node _ _ _ _ _ a Hi). setoid_rewrite elem_of_app. setoid_rewrite list_elem_of_singleton. split.
    + intros [?|(q & ? & ?)]; eauto.
    + intros (q & [?| ->] & ?); eauto.
  - split; [constructor|]. intros a. split; [by intros ?%elem_of_nil|by intros (p & ?%elem_of_nil & _)].
Qed.

Lemma actions_of_size B acts : actions_of B acts -> 0 <= vsize acts <= UINT16_MAX.
Proof.
  intros [Hn Ha]. split; [apply vsize_nonneg|]. etransitivity; [|exact Hactions]. unfold vsize. apply inj_le, submseteq_length, NoDup_submseteq; [done|].
  intros a (p & _ & Hp%nfa_action_elem)%Ha. by apply elem_of_remove_dups.
Qed.

(** ** The table *)

Record set_ok (B : list Z) : Prop := {
  so_nodup : NoDup B;
  so_nodes : forall p, p ∈ B -> is_node nfa p;
  so_closed : closed_set nfa B
}.

(** What the table's entries satisfy. *)
Definition entry_ok (u : UniqueNodeIdSetImpl) : Prop := set_ok (m_buffer u) /\ m_hash u = source_hash (m_buffer u).

Abbreviation inv := (table_inv m_dfaNodeId m_buffer (≡ₚ) entry_ok actions_of (moves nfa)).

Lemma find_set_spec dfa table pending D : inv dfa table pending -> set_ok D ->
  match List.find (fun u => (m_hash u =? source_hash D) && same_set u D) table with
  | Some u => u ∈ table /\ m_buffer u ≡ₚ D
  | None => forall u, u ∈ table -> ~ m_buffer u ≡ₚ D
  end.
Proof.
  intros Hs HD. destruct (List.find _ _) as [u|] eqn:Ef.
  - apply find_some in Ef as [Hu Hb]. apply list_elem_of_In in Hu. apply andb_true_iff in Hb as [_ Hb]. split; [done|].
    apply same_set_spec in Hb; [done|apply (ti_entries Hs) in Hu as [[] _]; done|apply HD].
  - intros u Hu Hp. apply list_elem_of_In in Hu as Hu'. pose proof (find_none _ _ Ef u Hu') as Hn. cbv beta in Hn.
    apply (ti_entries Hs) in Hu as [Hok Hh].
    rewrite Hh, (source_hash_perm _ _ Hp), Z.eqb_refl in Hn. cbn [andb] in Hn. apply not_true_iff_false in Hn. apply Hn.
    apply same_set_spec; [apply Hok|apply HD|done].
Qed.

Lemma getOrCreate_spec : get_ok m_dfaNodeId m_buffer id (≡ₚ) entry_ok actions_of (moves nfa) (getOrCreateDFANode nfa') set_ok.
Proof.
  intros s pending D Hs HD. unfold getOrCreateDFANode, table_add. pose proof (find_set_spec _ _ pending D Hs HD) as Hf.
  destruct (List.find _ _) as [u|] eqn:Ef; cbn [obind].
  - destruct Hf as [Hu Hp]. apply list_elem_of_lookup in Hu as [i Hi]. pose proof (ti_index Hs _ _ Hi) as Hid.
    eexists _, _, []. split; [done|]. destruct s as [dfa table q]. split_and!; try done; [apply state_grows_refl|].
    exists u. rewrite Hid. split_and!; [lia|by rewrite Nat2Z.id|done].
  - destruct (set_actions_spec D (so_nodes _ HD)) as (acts & Ea & Ha). pose proof (actions_of_size _ _ Ha) as Hsz.
    unfold translate. rewrite Ea. cbn [obind]. replace (_ <=? UINT16_MAX) with true; [|symmetry; apply Z.leb_le; rewrite vsize_app; lia].
    cbn [release_assert obind]. set (u := mkUniqueNodeIdSet D (source_hash D) _).
    match goal with |- context [mkWorkState ?d _ _] => set (dfa' := d) end.
    eexists _, _, [u]. split; [done|].
    assert (Hg : dfa_grows (ws_dfa s) dfa') by (eexists _, acts, [], []; split_and!; [reflexivity|done|by rewrite app_nil_r..|done]).
    split_and!; try done.
    + apply (table_inv_add (fun a b => @symmetry _ _ _ a b) u acts dfa' Hs); try done;
        [by cbn; rewrite vsize_app|apply (ti_length Hs)|by apply new_node_is].
    + exists u. cbn. pose proof (vsize_nonneg (ws_table s)). rewrite <- (ti_size Hs). split_and!; [lia| |done].
      unfold vsize. rewrite Nat2Z.id, lookup_app_r, Nat.sub_diag by lia. done.
Qed.

Lemma moves_set_ok B c D : moves nfa B c (Some D) -> set_ok D.
Proof.
  intros (Hn & Hc & Hx). constructor; [done| |done]. intros x (p & q & _ & He & Hr)%Hx.
  eapply eps_reach_node; [done| |done]. by apply (nc_edges _ Hnfa) in He.
Qed.

Lemma process_set_spec s u : inv (ws_dfa s) (ws_table s) (u :: ws_unprocessed s) ->
  exists s' new, process_set nfa' cl s u = Done s' /\ ws_table s' = ws_table s ++ new /\ ws_unprocessed s' = rev new ++ ws_unprocessed s /\
    inv (ws_dfa s') (ws_table s') (ws_unprocessed s').
Proof.
  intros Hs. assert (Hu : u ∈ ws_table s) by (apply (ti_pending Hs); left). destruct (ti_entries Hs u Hu) as [HB _].
  unfold process_set. destruct (createCombinedTransition_spec nfa Hnfa cl Hcl u (so_nodes _ HB)) as (v & l & E & Hv & Hl & Hm). rewrite E. cbn [obind].
  destruct (emit_transitions_spec getOrCreate_spec (fun _ => Done (m_dfaNodeId u)) s u (ws_unprocessed s) v l Hs Hv Hl Hm)
    as (s' & new & E' & Ht & Hq & Hinv); [intros c D _ HD; by eapply moves_set_ok|done|].
  exists s', new. rewrite map_id in Hq. by rewrite Hq.
Qed.

(** ** Termination: there are at most [2^n] sets *)

Definition canon (B : list Z) : list Z := List.filter (hs_contains B) (seqZ 0 (vsize (nfa_nodes nfa))).

Lemma elem_of_canon B x : set_ok B -> x ∈ canon B <-> x ∈ B.
Proof.
  intros HB. unfold canon. rewrite list_elem_of_In, filter_In, <- list_elem_of_In, hs_contains_spec, elem_of_seqZ. split; [tauto|].
  intros Hx. pose proof (so_nodes _ HB _ Hx) as Hn. unfold is_node in Hn. split; [lia|done].
Qed.

Lemma table_size dfa table pending : inv dfa table pending -> (length table <= 2 ^ length (nfa_nodes nfa))%nat.
Proof.
  intros Hs. rewrite <- (length_map (fun u => canon (m_buffer u))). replace (length (nfa_nodes nfa)) with (length (seqZ 0 (vsize (nfa_nodes nfa)))).
  2:{ rewrite length_seqZ. unfold vsize. lia. }
  rewrite <- length_sublists. apply submseteq_length, NoDup_submseteq.
  - apply NoDup_fmap_2_strong; [|by eapply table_NoDup]. intros u v Hu Hv Heq. apply (ti_unique Hs); [done|done|].
    destruct (ti_entries Hs u Hu) as [Hsu _], (ti_entries Hs v Hv) as [Hsv _]. apply NoDup_Permutation; [apply Hsu|apply Hsv|].
    intros x. by rewrite <- (elem_of_canon _ _ Hsu), Heq, (elem_of_canon _ _ Hsv).
  - intros x (u & -> & Hu)%list_elem_of_fmap. apply filter_sublists.
Qed.

Lemma convert_loop_spec fuel : forall s, inv (ws_dfa s) (ws_table s) (ws_unprocessed s) -> ws_unprocessed s <> [] ->
  (2 ^ length (nfa_nodes nfa) - (length (ws_table s) - length (ws_unprocessed s)) <= fuel)%nat ->
  exists dfa new, convert_loop fuel nfa' cl s = Done dfa /\ inv dfa (ws_table s ++ new) [].
Proof.
  induction fuel as [|fuel IH]; intros s Hs Hne Hf; destruct s as [dfa table q]; destruct q as [|u rest]; cbn [ws_dfa ws_unprocessed ws_table] in *; try done;
    pose proof (table_size _ _ _ Hs) as Hts; pose proof (pending_size Hs) as Hps; cbn [length] in *; [lia|].
  cbn [convert_loop ws_unprocessed ws_dfa ws_table].
  destruct (process_set_spec (mkWorkState dfa table rest) u) as (s' & new & E & Ht & Hq & Hs'); [done|].
  rewrite E. cbn [obind]. cbn [ws_table ws_unprocessed] in Ht, Hq. destruct (ws_unprocessed s') as [|v q'] eqn:Eq.
  - exists (ws_dfa s'), new. split; [done|]. by rewrite <- Ht.
  - rewrite <- Eq in *. destruct (IH s' Hs') as (dfa' & new' & E' & Hfin); [by rewrite Eq| |].
    + pose proof (table_size _ _ _ Hs'). rewrite Ht, Hq, !length_app, length_rev in *. lia.
    + exists dfa', (new ++ new'). split; [done|]. by rewrite app_assoc, <- Ht.
Qed.

(** ** Runs of the DFA follow the paths of the NFA *)

Section Run.
Context (dfa : DFA) (table : list UniqueNodeIdSetImpl) (Hs : inv dfa table []).

Lemma path_cons_inv (E : graph) p c w x : path E p (c :: w) x -> exists p' q, path E p [] p' /\ E p' (Some c) q /\ path E q w x.
Proof.
  intros Hp. remember (c :: w) as v eqn:Ev. revert Ev. induction Hp as [|p q v r He Hp IH|p c' q v r He Hp IH]; intros Ev; [done| |].
  - destruct (IH Ev) as (p' & q' & H1 & H2 & H3). exists p', q'. eauto with ce.
  - injection Ev as -> ->. exists p, q. eauto with ce.
Qed.

Lemma run_spec w : Forall (fun c => 0 <= c < 128) w -> forall u, u ∈ table ->
  match dfa_run dfa (m_dfaNodeId u) w with
  | Some m => exists v, v ∈ table /\ m_dfaNodeId v = m /\ forall x, x ∈ m_buffer v <-> exists p, p ∈ m_buffer u /\ path (nfa_edge nfa) p w x
  | None => forall p x, p ∈ m_buffer u -> ~ path (nfa_edge nfa) p w x
  end.
Proof.
  induction 1 as [|c w Hc Hw IH]; intros u Hu; destruct (ti_entries Hs u Hu) as [[Hnd Hno Hcl'] _]; cbn [dfa_run].
  - exists u. split_and!; [done|done|]. intros x. split; [intros Hx; exists x; split; [done|constructor]|]. intros (p & Hp & Hx). by eapply Hcl'.
  - destruct (done_transitions u Hs Hu) as [_ Hm _]. unfold dfa_step. set (ts := dfa_node_transitions dfa (m_dfaNodeId u)) in *. destruct (Hm c Hc) as (o & Ho & Ht).
    assert (Hcons : forall p x, p ∈ m_buffer u -> path (nfa_edge nfa) p (c :: w) x ->
      exists p' q, p' ∈ m_buffer u /\ nfa_edge nfa p' (Some c) q /\ path (nfa_edge nfa) q w x).
    { intros p x Hp (p' & q & H1 & H2 & H3)%path_cons_inv. exists p', q. split_and!; try done. by eapply Hcl'. }
    destruct o as [D|], (trans_target ts c) as [t|]; try done; cbn [moves] in Ho.
    + destruct Ht as (v & H0 & Hv & Hp). destruct Ho as (_ & _ & HD). assert (Hid : m_dfaNodeId v = t) by (rewrite (ti_index Hs _ _ Hv); lia).
      assert (Hvt : v ∈ table) by (by eapply list_elem_of_lookup_2). specialize (IH v Hvt). rewrite Hid in IH.
      assert (Hmem : forall y, y ∈ m_buffer v <-> exists p q, p ∈ m_buffer u /\ nfa_edge nfa p (Some c) q /\ eps_reach nfa q y) by (intros y; by rewrite Hp).
      assert (Hsplit : forall x, (exists y, y ∈ m_buffer v /\ path (nfa_edge nfa) y w x) <-> exists p, p ∈ m_buffer u /\ path (nfa_edge nfa) p (c :: w) x).
      { intros x. split.
        - intros (y & (p & q & H1 & H2 & H3)%Hmem & Hy). exists p. split; [done|]. eapply path_char; [done|]. by apply (path_app _ _ [] y w x).
        - intros (p & H1 & H2). destruct (Hcons p x H1 H2) as (p' & q & H3 & H4 & H5). exists q. split; [|done]. apply Hmem. exists p', q. split_and!; try done. constructor. }
      destruct (dfa_run dfa t w) as [m|].
      * destruct IH as (v' & Hv' & Hm' & Hx). exists v'. split_and!; try done. intros x. by rewrite Hx, Hsplit.
      * intros p x Hpu Hpath. destruct (proj2 (Hsplit x)) as (y & Hy & Hyx); [eauto|]. by apply (IH y x Hy).
    + intros p x Hpu Hpath. destruct (Hcons p x Hpu Hpath) as (p' & q & H3 & H4 & _). by apply (Ho p' q).
Qed.

End Run.
End Subset.

(** ** Range lists and the subset construction: properties *)

(** ** A test for closed NFAs *)

Fixpoint ranges_sortedb {D} (lo : Z) (l : list (OtherRange D)) : bool :=
  match l with
  | [] => true
  | r :: l' => (lo <=? or_first r) && (or_first r <=? or_last r) && (or_last r <? 128) && ranges_sortedb (or_last r + 1) l'
  end.

Lemma ranges_sortedb_sound {D} (l : list (OtherRange D)) lo : ranges_sortedb lo l = true -> ranges_sorted lo l.
Proof.
  revert lo. induction l as [|r l IH]; intros lo; cbn [ranges_sortedb ranges_sorted]; [done|].
  rewrite !andb_true_iff, !Z.leb_le, Z.ltb_lt. intros [[[H1 H2] H3] H4]. split_and!; auto.
Qed.

Definition is_nodeb (nfa : NFA) (p : Z) : bool := (0 <=? p) && (p <? vsize (nfa_nodes nfa)).

Definition nfa_closedb (nfa : NFA) : bool :=
  forallb (fun n =>
    match transitionsForNode nfa n, epsilonTargetsForNode nfa n, actionsForNode nfa n with
    | Done l, Done eps, Done _ => ranges_sortedb 0 l && forallb (fun r => forallb (is_nodeb nfa) (or_data r)) l && forallb (is_nodeb nfa) eps
    | _, _, _ => false
    end) (seqZ 0 (vsize (nfa_nodes nfa))).

Lemma nfa_closedb_sound nfa : nfa_closedb nfa = true -> nfa_closed nfa.
Proof.
  unfold nfa_closedb. rewrite forallb_forall. intros Hall.
  assert (Hn : forall n, is_node nfa n -> exists l eps acts, node_is nfa n l eps acts /\ ranges_sorted 0 l /\
    (forall r q, r ∈ l -> q ∈ or_data r -> is_node nfa q) /\ forall q, q ∈ eps -> is_node nfa q).
  { intros n Hn. assert (Hin : In n (seqZ 0 (vsize (nfa_nodes nfa)))) by (apply list_elem_of_In, elem_of_seqZ; unfold is_node in Hn; lia).
    specialize (Hall n Hin). destruct (transitionsForNode nfa n) as [l| |] eqn:E1; try done. destruct (epsilonTargetsForNode nfa n) as [eps| |] eqn:E2; try done.
    destruct (actionsForNode nfa n) as [acts| |] eqn:E3; try done. rewrite !andb_true_iff, !forallb_forall in Hall. destruct Hall as [[H1 H2] H3].
    exists l, eps, acts. assert (Hb : forall q, is_nodeb nfa q = true -> is_node nfa q) by (intros q; unfold is_nodeb, is_node; rewrite andb_true_iff, Z.leb_le, Z.ltb_lt; done).
    split_and!; [done|by apply ranges_sortedb_sound| |].
    - intros r q Hr Hq. apply list_elem_of_In in Hr, Hq. specialize (H2 r Hr). rewrite forallb_forall in H2. auto.
    - intros q Hq. apply list_elem_of_In in Hq. auto. }
  constructor.
  - intros n Hn'. destruct (Hn n Hn') as (l & eps & acts & H1 & H2 & _). eauto.
  - intros p lab q He. assert (Hp : is_node nfa p).
    { unfold is_node. destruct lab as [c|]; [destruct He as (l & E & _); unfold transitionsForNode in E|destruct He as (l & E & _); unfold epsilonTargetsForNode in E]; obind_inv E; by eapply vget_range. }
    destruct (Hn p Hp) as (l & eps & acts & Hi & Hs & H2 & H3). rewrite (nfa_edge_node _ _ _ _ _ _ _ Hi) in He. destruct lab as [c|]; [|by apply H3].
    destruct He as (ts & (r & Hr & _ & <-)%ranges_lookup_Some & Hq). by eapply H2.
Qed.

(** Words over the alphabet of the automata; zero ends the line. *)
Definition ascii_word (w : list Z) : Prop := Forall (fun c => 0 <= c < 128) w.

Section Properties.
Context `{HashOrder}.

Lemma convert_spec nfa fuel :
  nfa_closed nfa -> nfa_nodes nfa <> [] -> vsize (remove_dups (nfa_actions nfa)) <= UINT16_MAX -> (2 ^ length (nfa_nodes nfa) <= fuel)%nat ->
  exists dfa table u, convert fuel nfa = Done dfa /\ table_inv m_dfaNodeId m_buffer (≡ₚ) (entry_ok nfa) (actions_of nfa) (moves nfa) dfa table [] /\ u ∈ table /\ m_dfaNodeId u = 0 /\
    forall x, x ∈ m_buffer u <-> eps_reach nfa 0 x.
Proof.
  intros Hnfa Hne Ha Hf. unfold convert. destruct (resolve_spec nfa Hnfa) as (cl & E & Hcl). rewrite E. cbn [obind].
  change (mkNFA _ _ _ _ _) with (stripped nfa). unfold nfa_root. replace (nfa_nodes (stripped nfa)) with (nfa_nodes nfa) by done.
  destruct (nfa_nodes nfa) as [|n0 ns] eqn:En; [done|]. rewrite <- En in *. cbn [release_assert obind].
  assert (H0 : is_node nfa 0) by (unfold is_node; apply vsize_pos in Hne; lia).
  destruct (closure_add_spec nfa cl Hcl [] 0 H0) as (c & Ec & Hc). unfold extendSetWithClosure. rewrite Ec. cbn [obind].
  set (B := hs_add_range (hs_add [] 0) c) in *.
  assert (HB : forall x, x ∈ B <-> eps_reach nfa 0 x) by (intros x; rewrite Hc; split; [by intros [?%elem_of_nil|?]|auto]).
  assert (Hok : set_ok nfa B).
  { constructor; [unfold B; auto with ce| |].
    - intros p Hp%HB. by eapply eps_reach_node.
    - intros p q Hp Hq. rewrite HB in Hp |- *. by eapply eps_reach_trans. }
  set (s0 := mkWorkState emptyDFA [] [] : convert_state).
  assert (Hs0 : table_inv m_dfaNodeId m_buffer (≡ₚ) (entry_ok nfa) (actions_of nfa) (moves nfa) (ws_dfa s0) (ws_table s0) []) by (constructor; cbn; try done; try (by intros ? ?%elem_of_nil); try (by intros ? ? ?%elem_of_nil); constructor).
  destruct (getOrCreate_spec nfa Hnfa Ha s0 [] B Hs0 Hok) as (i & s1 & new & E1 & Hg & Hs1 & (u & Hi0 & Hu & Hp) & _ & _).
  unfold getOrCreateDFANode in E1. cbn [ws_table ws_dfa s0] in E1. unfold table_add in E1 |- *. cbn [List.find] in E1 |- *.
  obind_inv E1. destruct a as [[[table dfa] u'] b]. rewrite E0. cbn [obind]. obind_inv E0. destruct a as [dfa' u'']. injection E0 as <- <- <- <-.
  injection E1 as <- <-. pose proof (sg_table _ _ _ _ Hg) as Ht. pose proof (sg_queue _ _ _ _ Hg) as Hq. cbn in Ht, Hq, Hu. subst new. cbn [rev app] in Hs1.
  destruct (convert_loop_spec nfa Hnfa cl Hcl Ha fuel (mkWorkState dfa' [u''] [u''])) as (dfa & new & El & Hfin); [done|done|cbn; lia|].
  destruct (Z.to_nat (m_dfaNodeId u'')) eqn:Ei; [|done]. injection Hu as ->.
  exists dfa, ([u] ++ new), u. split_and!; [done|done|by left|lia|]. intros x. by rewrite Hp.
Qed.

(** What the DFA does on every word. *)
Lemma convert_runs nfa fuel :
  nfa_closed nfa -> nfa_nodes nfa <> [] -> vsize (remove_dups (nfa_actions nfa)) <= UINT16_MAX -> (2 ^ length (nfa_nodes nfa) <= fuel)%nat ->
  exists dfa, convert fuel nfa = Done dfa /\ dfa_root dfa = 0 /\
    forall w, ascii_word w ->
      match dfa_run dfa 0 w with
      | Some m => NoDup (dfa_node_actions dfa m) /\
                  forall a, a ∈ dfa_node_actions dfa m <-> exists q, path (nfa_edge nfa) 0 w q /\ nfa_action nfa q a
      | None => forall q, ~ path (nfa_edge nfa) 0 w q
      end.
Proof.
  intros Hnfa Hne Ha Hf. destruct (convert_spec nfa fuel Hnfa Hne Ha Hf) as (dfa & table & u & E & Hs & Hu & Hid & Hx).
  exists dfa. split_and!; [done|apply (ti_root Hs)|]. intros w Hw. pose proof (run_spec nfa dfa table Hs w Hw u Hu) as Hr. rewrite Hid in Hr.
  assert (Hstart : forall x, (exists p, p ∈ m_buffer u /\ path (nfa_edge nfa) p w x) <-> path (nfa_edge nfa) 0 w x).
  { intros x. split.
    - intros (p & Hp%Hx & Hpx). by apply (path_app _ _ [] p w x).
    - intros Hp. exists 0. split; [|done]. apply Hx. constructor. }
  destruct (dfa_run dfa 0 w) as [m|].
  - destruct Hr as (v & Hv & <- & Hxv). destruct (done_actions v Hs Hv) as [Hn Hact]. split; [done|]. intros a. rewrite Hact.
    setoid_rewrite Hxv. setoid_rewrite Hstart. done.
  - intros q Hq. apply Hstart in Hq as (p & Hp & Hpq). by apply (Hr p q).
Qed.

(** C7: The subset construction terminates and is exact.  For every NFA whose
    edges lead to its own nodes, [NFAToDFA::convert] returns (the work list
    needs at most [2^n] rounds); on every word over the alphabet the DFA ends
    in a node whose actions are, without repetition, those of all the NFA nodes
    the word can reach, empty edges included, and it gets stuck only when the
    word reaches no NFA node. *)
Theorem convert_language nfa fuel :
  nfa_closed nfa -> nfa_nodes nfa <> [] -> vsize (remove_dups (nfa_actions nfa)) <= UINT16_MAX -> (2 ^ length (nfa_nodes nfa) <= fuel)%nat ->
  exists dfa, convert fuel nfa = Done dfa /\ dfa_root dfa = 0 /\
    forall w, ascii_word w ->
      match dfa_run dfa 0 w with
      | Some m => NoDup (dfa_node_actions dfa m) /\
                  forall a, a ∈ dfa_node_actions dfa m <-> exists q, path (nfa_edge nfa) 0 w q /\ nfa_action nfa q a
      | None => forall q, ~ path (nfa_edge nfa) 0 w q
      end.
Proof. apply convert_runs. Qed.

(** The DFA that [NFAToDFA::convert] returns is well formed: the root is
    live, every node's slices can be read, its ranges are sorted and disjoint,
    and its transitions lead to live nodes. *)
Lemma convert_wf nfa fuel dfa :
  nfa_closed nfa -> nfa_nodes nfa <> [] -> vsize (remove_dups (nfa_actions nfa)) <= UINT16_MAX -> (2 ^ length (nfa_nodes nfa) <= fuel)%nat ->
  convert fuel nfa = Done dfa -> vsize (dfa_nodes dfa) < UINT32_MAX -> dfa_wf dfa.
Proof.
  intros Hnfa Hne Ha Hf E Hsz. destruct (convert_spec nfa fuel Hnfa Hne Ha Hf) as (dfa' & table & u & E' & Hs & Hu & _).
  rewrite E in E'. injection E' as <-. apply (result_wf Hs); [|done]. intros ->. by apply elem_of_nil in Hu.
Qed.

(** C21: [MutableRangeList::extend] keeps the list sorted and disjoint and
    computes the pointwise merge: where only the other list has a range its
    data is converted, where both have one the data is extended with it, and
    elsewhere the list is unchanged. *)
Theorem extend_merges_pointwise {D E} (converter : DataConverter D E) (cv : E -> D) (ex : D -> E -> D) v l other :
  (forall e, dc_convert converter e = Done (cv e)) -> (forall d e, dc_extend converter d e = Done (ex d e)) ->
  represents v l -> ranges_sorted 0 l -> ranges_sorted 0 other ->
  exists v' l', extend converter v other = Done v' /\ represents v' l' /\ ranges_sorted 0 l' /\
    forall c, 0 <= c < 128 -> ranges_lookup l' c = merged cv ex (ranges_lookup l c) (ranges_lookup other c).
Proof. intros Hcv Hex Hv Hl Ho. by apply (extend_spec converter cv ex (ranges_lookup l) other). Qed.

(** C26: The epsilon closure of a node, computed with an explicit work list, is
    exactly the set of other nodes reachable by empty edges, each listed
    once; the loop ends although the edges may form cycles. *)
Theorem epsilon_closure_exact nfa p : nfa_closed nfa -> is_node nfa p ->
  exists output, epsilonClosureExcludingSelf nfa p = Done output /\ NoDup output /\ forall q, q ∈ output <-> q <> p /\ eps_reach nfa p q.
Proof. intros. by apply epsilonClosure_spec. Qed.
End Properties.

(** ** Witnesses *)

(** [a*b] with action 7: nodes 0 and 1 in a cycle of empty edges. *)
Definition sample_nfa : NFA :=
  mkNFA [mkImmutableNFANode 0 1 0 1 0 0; mkImmutableNFANode 1 2 1 2 0 0; mkImmutableNFANode 2 2 2 2 0 1]
        [mkImmutableRange 0 1 97 97; mkImmutableRange 1 2 98 98] [1; 2] [1; 0] [7].

Lemma sample_nfa_closed : nfa_closed sample_nfa.
Proof. apply nfa_closedb_sound. vm_compute. reflexivity. Qed.

Lemma convert_language_witness : exists dfa, convert 8 sample_nfa = Done dfa /\ dfa_root dfa = 0 /\
  dfa_run dfa 0 [97; 97; 98] = Some 1 /\ NoDup (dfa_node_actions dfa 1).
Proof.
  destruct (convert_language sample_nfa 8) as (dfa & E & Hr & Hl); [exact sample_nfa_closed|done|vm_compute; discriminate|cbn; lia|].
  exists dfa. split; [exact E|]. split; [exact Hr|]. specialize (Hl [97; 97; 98]).
  assert (Hrun : dfa_run dfa 0 [97; 97; 98] = Some 1) by (vm_compute in E; injection E as <-; vm_compute; reflexivity).
  split; [exact Hrun|]. rewrite Hrun in Hl. apply Hl. unfold ascii_word. repeat (constructor; [lia|]). constructor.
Defined.

Lemma convert_wf_witness : exists dfa, convert 8 sample_nfa = Done dfa /\ dfa_wf dfa.
Proof.
  destruct (convert 8 sample_nfa) as [dfa| |] eqn:E; [|vm_compute in E; discriminate..]. exists dfa. split; [reflexivity|].
  apply (convert_wf sample_nfa 8); [exact sample_nfa_closed|done|vm_compute; discriminate|cbn; lia|exact E|].
  vm_compute in E. injection E as <-. vm_compute. reflexivity.
Defined.

(** Adding [b-d] to the list [a-c]. *)
Lemma extend_merges_pointwise_witness : exists v' l',
  extend target_converter [mkMutableRange [1] 0 97 99] [mkOtherRange 98 100 2] = Done v' /\ represents v' l' /\ ranges_sorted 0 l' /\
  ranges_lookup l' 98 = Some [1; 2].
Proof.
  destruct (extend_merges_pointwise target_converter (fun t => hs_add [] t) (fun ts t => hs_add ts t) [mkMutableRange [1] 0 97 99] [mkOtherRange 97 99 [1]] [mkOtherRange 98 100 2])
    as (v' & l' & E & Hv & Hs & Hl); [done|done| |cbn; lia|cbn; lia|].
  - exists [0]. constructor; cbn; try done. apply NoDup_singleton.
  - exists v', l'. split; [exact E|]. split; [exact Hv|]. split; [exact Hs|]. rewrite Hl by lia. vm_compute. reflexivity.
Defined.

Lemma epsilon_closure_exact_witness : exists output, epsilonClosureExcludingSelf sample_nfa 0 = Done output /\ NoDup output /\
  forall q, q ∈ output <-> q <> 0 /\ eps_reach sample_nfa 0 q.
Proof. apply (epsilon_closure_exact sample_nfa 0); [exact sample_nfa_closed|]. unfold is_node, vsize. cbn. lia. Defined.
