(* ===== verification/ProcessTheorems.v ===== *)
(** * Properties of the NFAs of the combined filters *)

From stdpp Require Import gmap.
From S2P Require Import Prelude Containers Nfa NfaProofs Term TermGraph CombinedFilters CombinedFiltersProofs CombinedFiltersTheorems PrefixTreeNet SubtreeStack SubtreeWalk SubtreeMeasure SubtreeLoop ProcessProofs NfaClosures.

(** What NFAs perform together. *)
Definition nfas_perform (nfas : list NFA) (a : Z) (w : list Z) : Prop := exists nfa q, nfa ∈ nfas /\ path (nfa_edge nfa) 0 w q /\ nfa_action nfa q a.

Lemma processNFAs_good `{HashOrder} f maxNFASize : filters_ok f ->
  exists nfas, processNFAs f maxNFASize = Done nfas /\ Forall (fun nfa => nfa_closed nfa /\ nfa_nodes nfa <> [] /\ forall a, a ∈ nfa_actions nfa -> exists v, a ∈ actions_get (m_filterActions f) v) nfas /\
    forall a w, nfas_perform nfas a w <-> filter_matches f a w.
Proof.
  intros [Hf _]. destruct (processNFAs_spec f Hf maxNFASize) as (nfas & E & Hg & Hc). exists nfas. split; [done|]. split.
  - eapply Forall_impl; [exact Hg|]. intros nfa [G1 G2 G3 G4 _]. split; [by constructor|done].
  - intros a w. split.
    + intros (nfa & q & Hn & Hp & Ha). rewrite Forall_forall in Hg. destruct (ng_sound _ _ (Hg nfa Hn) q a w Hp Ha) as (ts & Hts & Hw). by exists ts.
    + intros (ts & Hts & Hw). destruct (Hc a ts w Hts Hw) as (nfa & q & Hn). by exists nfa, q.
Qed.

(** C6: [processNFAs] returns, for every maximal size, NFAs that perform together
    exactly the patterns of the filters: a word reaches an action in one of
    them if and only if it is in the language of a pattern with that action.
    Splitting the tree at quantified terms and at the maximal size, sharing
    prefixes and sharing the suffixes that lead to the same actions neither
    loses nor adds a match; the loops end, and every NFA is well formed. *)
Theorem processNFAs_exact `{HashOrder} f maxNFASize : filters_ok f ->
  exists nfas, processNFAs f maxNFASize = Done nfas /\ Forall (fun nfa => nfa_closed nfa /\ nfa_nodes nfa <> []) nfas /\
    forall a w, nfas_perform nfas a w <-> filter_matches f a w.
Proof.
  intros Hf. destruct (processNFAs_good f maxNFASize Hf) as (nfas & E & Hg & Hp). exists nfas. split; [done|]. split; [|done]. eapply Forall_impl; [exact Hg|]. by intros nfa (? & ? & _).
Qed.

(** *** Progress *)

(** One round of the loop: an NFA is handed out, the tree shrinks. *)
Definition round `{HashOrder} (f : CombinedURLFilters) (maxNFASize : Z) (vs vs' : list PrefixTreeVertex) : Prop :=
  exists nfa, process_next (m_alphabet f) (m_filterActions f) maxNFASize vs = Done (Some (nfa, vs')).

Lemma rounds_end `{HashOrder} f maxNFASize : tree_ok f -> forall n D vs, (live vs <= n)%nat -> shrunk f vs -> clean vs -> left_over f D vs ->
  exists k vs', (k <= live vs)%nat /\ nsteps (round f maxNFASize) k vs vs' /\ process_next (m_alphabet f) (m_filterActions f) maxNFASize vs' = Done None /\ vget vs' 0 = Done [].
Proof.
  intros Hf. induction n as [|n IH]; intros D vs Hn Hs Hc HL; destruct (process_next_spec f Hf D maxNFASize vs Hs Hc HL) as [(E & H0 & _)|(nfa & vs' & E & _ & Hs' & Hc' & HL' & Hlt)].
  - exists 0%nat, vs. split_and!; [lia|constructor|done|done].
  - lia.
  - exists 0%nat, vs. split_and!; [lia|constructor|done|done].
  - destruct (IH _ vs' ltac:(lia) Hs' Hc' HL') as (k & vs2 & Hk & Hsteps & E2 & H2). exists (S k), vs2. split_and!; [lia| |done|done]. econstructor; [by exists nfa|done].
Qed.

Lemma reachable_inv `{HashOrder} f maxNFASize vs : tree_ok f -> rtc (round f maxNFASize) (m_vertices f) vs -> exists D, shrunk f vs /\ clean vs /\ left_over f D vs.
Proof.
  intros Hf Hr. apply rtc_ind_r with (P := fun vs => exists D, shrunk f vs /\ clean vs /\ left_over f D vs) in Hr; [done| |].
  - exists (fun _ => False). split_and!; [by apply shrunk_self|by apply clean_self|]. intros v (ts & Hts). right. exists ts. replace (tree_with f (m_vertices f)) with f; [done|]. by destruct f.
  - intros vs1 vs2 _ (nfa & E) (D & Hs & Hc & HL). destruct (process_next_spec f Hf D maxNFASize vs1 Hs Hc HL) as [(E' & _)|(nfa' & vs' & E' & _ & Hs' & Hc' & HL' & _)]; [congruence|].
    rewrite E in E'. injection E' as <- <-. eauto.
Qed.

(** C37: The loop of [processNFAs] always makes progress: from every state it can
    reach, it reaches, in at most as many rounds as edges are left, a state in
    which the combined filters are empty and the loop ends, as the caller
    asserts; no round fails on the way. *)
Theorem processing_drains `{HashOrder} f maxNFASize vs : filters_ok f -> rtc (round f maxNFASize) (m_vertices f) vs ->
  exists k vs', (k <= live vs)%nat /\ nsteps (round f maxNFASize) k vs vs' /\ process_next (m_alphabet f) (m_filterActions f) maxNFASize vs' = Done None /\
    CombinedURLFilters_isEmpty (mkCombinedURLFilters (m_alphabet f) vs' (m_filterActions f)) = Done true.
Proof.
  intros [Hf _] Hr. destruct (reachable_inv f maxNFASize vs Hf Hr) as (D & Hs & Hc & HL). destruct (rounds_end f maxNFASize Hf _ D vs (le_n _) Hs Hc HL) as (k & vs' & Hk & Hn & E & H0).
  exists k, vs'. split_and!; [done|done|done|]. unfold CombinedURLFilters_isEmpty. cbn [m_vertices]. by rewrite H0.
Qed.

(** ** Witnesses *)

(** [ab] with action 7 and [cb] with action 7 share their suffix; [a*b] with
    action 8 is quantified. *)
Definition letter (c : Z) (q : AtomQuantifier) : Term := CharacterSetTerm (mkCharacterSet false 0 (2 ^ (c - 64))) q.

Definition shared_filters : outcome CombinedURLFilters :=
  let* f1 := addPattern emptyCombinedURLFilters 7 [letter 97 One; letter 98 One] in
  let* f2 := addPattern f1 7 [letter 99 One; letter 98 One] in
  addPattern f2 8 [letter 97 ZeroOrMore; letter 98 One].

Lemma shared_filters_ok : exists f, shared_filters = Done f /\ filters_ok f.
Proof.
  unfold shared_filters. destruct (addPattern_spec emptyCombinedURLFilters 7 [letter 97 One; letter 98 One] empty_filters_ok) as (f1 & -> & H1 & _); [done|]. cbn [obind].
  destruct (addPattern_spec f1 7 [letter 99 One; letter 98 One] H1) as (f2 & -> & H2 & _); [done|]. cbn [obind].
  destruct (addPattern_spec f2 8 [letter 97 ZeroOrMore; letter 98 One] H2) as (f3 & -> & H3 & _); [done|]. by exists f3.
Qed.

Lemma processNFAs_exact_witness : exists f nfas, shared_filters = Done f /\ processNFAs f 75000 = Done nfas /\ length nfas = 2%nat /\ (forall w, nfas_perform nfas 8 w <-> filter_matches f 8 w).
Proof.
  destruct shared_filters_ok as (f & Ef & Hf). destruct (processNFAs_exact f 75000 Hf) as (nfas & E & _ & Hp). exists f, nfas. split; [exact Ef|]. split; [exact E|]. split.
  - vm_compute in Ef. injection Ef as <-. vm_compute in E. injection E as <-. reflexivity.
  - intros w. apply Hp.
Defined.

Lemma processing_drains_witness : exists f k vs', shared_filters = Done f /\ (k <= 6)%nat /\ nsteps (round f 75000) k (m_vertices f) vs' /\
  CombinedURLFilters_isEmpty (mkCombinedURLFilters (m_alphabet f) vs' (m_filterActions f)) = Done true.
Proof.
  destruct shared_filters_ok as (f & Ef & Hf). destruct (processing_drains f 75000 (m_vertices f) Hf) as (k & vs' & Hk & Hn & _ & He); [apply rtc_refl|].
  exists f, k, vs'. split; [exact Ef|]. split; [|split; [exact Hn|exact He]]. vm_compute in Ef. injection Ef as <-. etransitivity; [exact Hk|]. vm_compute. lia.
Defined.
