(* ===== verification/DfaMerger.v ===== *)
(** * Merging two DFAs (DFAMerger of DFACombiner.cpp)

    A node of the output stands for a pair of nodes of the inputs, packed in a
    64-bit signature; a missing component is the invalid index. *)

From S2P Require Import Prelude Containers RangeList RangeListProofs Dfa Worklist NfaToDfaProofs.

Definition invalidNodeIndex : Z := 0xffffffff.

Inductive WhichDFA := WhichA | WhichB.

Definition signatureForIndices (aIndex bIndex : Z) : Z := Z.lor (u64 (Z.shiftl aIndex 32)) bIndex.
Definition extractIndexA (signature : Z) : Z := u32 (Z.shiftr signature 32).
Definition extractIndexB (signature : Z) : Z := u32 signature.

(** [TargetConverter<whichDFA>]. *)
Definition setHalfSignature (whichDFA : WhichDFA) (signature value : Z) : Z :=
  let shiftAmount := match whichDFA with WhichA => 32 | WhichB => 0 end in
  let mask := u64 (Z.shiftl 0xffffffff (32 - shiftAmount)) in
  Z.lor (Z.land signature mask) (u64 (Z.shiftl value shiftAmount)).

Definition TargetConverter (whichDFA : WhichDFA) : DataConverter Z Z :=
  mkDataConverter (fun target => Done (setHalfSignature whichDFA 0xffffffffffffffff target))
                  (fun destination target => Done (setHalfSignature whichDFA destination target)).

(** The range list sees the transitions of a node as ranges with a target. *)
Definition transition_range (t : DFATransition) : OtherRange Z := mkOtherRange (tr_first t) (tr_last t) (tr_target t).

Section DFAMerger.
Context `{HashOrder} (m_dfaA m_dfaB : DFA).

(** [m_output], [m_nodeMapping] as signature and node index, and
    [m_unprocessedNodes]. *)
Definition merge_state : Type := work_state (Z * Z) Z.

(** The actions of one component of a pair. *)
Definition add_node_actions (dfa : DFA) (index : Z) (actions : list Z) : outcome (list Z) :=
  if index =? invalidNodeIndex then Done actions
  else let* node := vget (dfa_nodes dfa) index in
       let* l := node_actions node dfa in Done (hs_add_range actions l).

Definition getOrCreateCombinedNode (s : merge_state) (newNodeSignature : Z) : outcome (Z * merge_state) :=
  match List.find (fun e => fst e =? newNodeSignature) (ws_table s) with
  | Some e => Done (snd e, s)
  | None =>
      let output := ws_dfa s in
      let newNodeIndex := vsize (dfa_nodes output ++ [newDFANode]) - 1 in
      let* actionsA := add_node_actions m_dfaA (extractIndexA newNodeSignature) [] in
      let* actions := add_node_actions m_dfaB (extractIndexB newNodeSignature) actionsA in
      let actionsStart := vsize (dfa_actions output) in
      let output_actions := dfa_actions output ++ actions in
      let actionsLength := u16 (vsize output_actions - actionsStart) in
      Done (newNodeIndex,
            mkWorkState (mkDFA (dfa_nodes output ++ [setActions newDFANode actionsStart actionsLength]) output_actions
                           (dfa_transitionRanges output) (dfa_transitionDestinations output) (dfa_root output))
              (ws_table s ++ [(newNodeSignature, newNodeIndex)]) (newNodeSignature :: ws_unprocessed s))
  end.

(** [combinedTransitions.extend(...)] with the transitions of one component. *)
Definition extend_with_node (whichDFA : WhichDFA) (dfa : DFA) (index : Z) (combinedTransitions : list (MutableRange Z)) : outcome (list (MutableRange Z)) :=
  if index =? invalidNodeIndex then Done combinedTransitions
  else let* node := vget (dfa_nodes dfa) index in
       let* ts := node_transitions node dfa in
       extend (TargetConverter whichDFA) combinedTransitions (map transition_range ts).

(** [m_nodeMapping.get(signature)]. *)
Definition mapping_get (s : merge_state) (signature : Z) : outcome Z :=
  match List.find (fun e => fst e =? signature) (ws_table s) with
  | Some e => Done (snd e)
  | None => Done 0
  end.

(** The body of the loop. *)
Definition process_pair (s : merge_state) (unprocessedNode : Z) : outcome merge_state :=
  let* combinedA := extend_with_node WhichA m_dfaA (extractIndexA unprocessedNode) [] in
  let* combined := extend_with_node WhichB m_dfaB (extractIndexB unprocessedNode) combinedA in
  emit_transitions getOrCreateCombinedNode (fun s1 => mapping_get s1 unprocessedNode) s combined.

Fixpoint merge_loop (fuel : nat) (s : merge_state) : outcome DFA :=
  match ws_unprocessed s with
  | [] => Done (ws_dfa s)
  | unprocessedNode :: rest =>
      match fuel with
      | O => OutOfFuel
      | S fuel' =>
          let* s1 := process_pair (mkWorkState (ws_dfa s) (ws_table s) rest) unprocessedNode in
          merge_loop fuel' s1
      end
  end.

(** [DFAMerger(a, b).merge()]: the pairs there can be bound the loop. *)
Definition merge : outcome DFA :=
  let rootSignature := signatureForIndices (dfa_root m_dfaA) (dfa_root m_dfaB) in
  let* (_, s) := getOrCreateCombinedNode (mkWorkState emptyDFA [] []) rootSignature in
  merge_loop ((length (dfa_nodes m_dfaA) + 1) * (length (dfa_nodes m_dfaB) + 1)) s.
End DFAMerger.

(** ** The merged DFA runs both inputs

    A node of the output stands for a pair of states; a state is a node of an
    input or the invalid index, where the run got stuck. *)

#[local] Arguments vsize {A} v : simpl never.

(** ** Signatures *)

Definition is_u32 (x : Z) : Prop := 0 <= x < 2 ^ 32.

Lemma lor_add a b : is_u32 b -> Z.lor (a * 2 ^ 32) b = a * 2 ^ 32 + b.
Proof.
  intros Hb. symmetry. rewrite <- Z.shiftl_mul_pow2 by lia. apply Z.add_nocarry_lor. apply Z.bits_inj'. intros i Hi. rewrite Z.land_spec, Z.bits_0.
  destruct (Z.lt_ge_cases i 32); [by rewrite Z.shiftl_spec_low|]. rewrite <- (Z.mod_small b (2 ^ 32)) by done. rewrite Z.mod_pow2_bits_high by lia. apply andb_false_r.
Qed.

Lemma signature_eq a b : is_u32 a -> is_u32 b -> signatureForIndices a b = a * 2 ^ 32 + b.
Proof.
  intros Ha Hb. unfold signatureForIndices, u64. rewrite Z.shiftl_mul_pow2 by lia. rewrite Z.mod_small by (unfold is_u32 in *; lia). by apply lor_add.
Qed.

Lemma extractIndexA_signature a b : is_u32 a -> is_u32 b -> extractIndexA (signatureForIndices a b) = a.
Proof.
  intros Ha Hb. rewrite signature_eq by done. unfold extractIndexA. rewrite Z.shiftr_div_pow2 by lia. rewrite Z.add_comm, Z.div_add by lia.
  rewrite Z.div_small by done. by apply u32_small.
Qed.

Lemma extractIndexB_signature a b : is_u32 a -> is_u32 b -> extractIndexB (signatureForIndices a b) = b.
Proof. intros Ha Hb. rewrite signature_eq by done. unfold extractIndexB, u32. rewrite Z.add_comm, Z_mod_plus_full. by apply Z.mod_small. Qed.

Lemma setHalf_A a b v : is_u32 a -> is_u32 b -> is_u32 v -> setHalfSignature WhichA (signatureForIndices a b) v = signatureForIndices v b.
Proof.
  intros Ha Hb Hv. unfold setHalfSignature. change (u64 (Z.shiftl 0xffffffff (32 - 32))) with (Z.ones 32). rewrite Z.land_ones by lia.
  rewrite !signature_eq by done. rewrite Z.add_comm, Z_mod_plus_full, Z.mod_small by done. unfold u64. rewrite Z.shiftl_mul_pow2 by lia.
  rewrite (Z.mod_small (v * _)) by (unfold is_u32 in *; lia). rewrite Z.lor_comm. by apply lor_add.
Qed.

Lemma setHalf_B a b v : is_u32 a -> is_u32 b -> is_u32 v -> setHalfSignature WhichB (signatureForIndices a b) v = signatureForIndices a v.
Proof.
  intros Ha Hb Hv. unfold setHalfSignature. rewrite !signature_eq by done. rewrite Z.shiftl_0_r. unfold u64. rewrite (Z.mod_small v) by (unfold is_u32 in *; lia).
  replace (Z.land (a * 2 ^ 32 + b) _) with (a * 2 ^ 32); [by apply lor_add|].
  replace (Z.shiftl 0xffffffff (32 - 0) mod 2 ^ 64) with (Z.shiftl (Z.ones 32) 32) by (vm_compute; reflexivity). rewrite <- lor_add, Z.land_lor_distr_l by done.
  replace (Z.land b (Z.shiftl (Z.ones 32) 32)) with 0.
  - rewrite Z.lor_0_r, <- Z.shiftl_mul_pow2, <- Z.shiftl_land, Z.land_ones, Z.mod_small by (done || lia). done.
  - symmetry. apply Z.bits_inj'. intros i Hi. rewrite Z.land_spec, Z.bits_0. destruct (Z.lt_ge_cases i 32); [by rewrite Z.shiftl_spec_low, andb_false_r|].
    rewrite <- (Z.mod_small b (2 ^ 32)) by done. by rewrite Z.mod_pow2_bits_high by lia.
Qed.

Lemma invalid_u32 : is_u32 invalidNodeIndex.
Proof. unfold is_u32, invalidNodeIndex. lia. Qed.

Lemma invalid_signature : signatureForIndices invalidNodeIndex invalidNodeIndex = 0xffffffffffffffff.
Proof. reflexivity. Qed.

(** ** States of an input *)

(** A state is a live node or the invalid index. *)
Definition state_ok (dfa : DFA) (i : Z) : Prop := i = invalidNodeIndex \/ live dfa i.

(** One step of a run that may be stuck. *)
Definition ostep (dfa : DFA) (i c : Z) : Z :=
  if i =? invalidNodeIndex then invalidNodeIndex
  else match dfa_step dfa i c with Some n => n | None => invalidNodeIndex end.

Definition state_actions (dfa : DFA) (i : Z) : list Z := if i =? invalidNodeIndex then [] else dfa_node_actions dfa i.

Lemma live_valid dfa i : dfa_wf dfa -> live dfa i -> is_u32 i /\ i <> invalidNodeIndex.
Proof.
  intros Hw (node & En & _). apply vget_range in En. pose proof (dwf_size _ Hw). unfold is_u32, invalidNodeIndex, UINT32_MAX in *. lia.
Qed.

Lemma state_u32 dfa i : dfa_wf dfa -> state_ok dfa i -> is_u32 i.
Proof. intros Hw [->|Hl]; [apply invalid_u32|]. by eapply live_valid. Qed.

(** What a live node holds. *)
Lemma live_node dfa i : dfa_wf dfa -> live dfa i -> exists node ts acts,
  vget (dfa_nodes dfa) i = Done node /\ node_transitions node dfa = Done ts /\ node_actions node dfa = Done acts /\
  dfa_node_transitions dfa i = ts /\ dfa_node_actions dfa i = acts /\ sorted_from 0 ts /\ Forall (fun t => live dfa (tr_target t)) ts.
Proof.
  intros Hw (node & En & Hk). destruct (dwf_nodes _ Hw i node En Hk) as [(ts & Ht & Hs & Hl) (acts & Ha)].
  exists node, ts, acts. unfold dfa_node_transitions, dfa_node_actions. rewrite En, Ht, Ha. done.
Qed.

Lemma ostep_ok dfa i c : dfa_wf dfa -> state_ok dfa i -> state_ok dfa (ostep dfa i c).
Proof.
  intros Hw Hi. unfold ostep. destruct (Z.eqb_spec i invalidNodeIndex) as [|Hne]; [by left|]. destruct Hi as [?|Hl]; [done|].
  destruct (live_node _ _ Hw Hl) as (node & ts & acts & _ & _ & _ & Hts & _ & Hs & Hf). unfold dfa_step. rewrite Hts.
  destruct (trans_target ts c) as [n|] eqn:Et; [|by left]. right. apply trans_target_elem in Et as (t & Ht & _ & <-). rewrite Forall_forall in Hf. auto.
Qed.

Lemma ranges_of_transitions lo ts : sorted_from lo ts -> ranges_sorted lo (map transition_range ts).
Proof. induction 1 as [|lo t ts H1 H2 H3 Hs IH]; cbn; [done|]. split_and!; auto. Qed.

Lemma lookup_of_transitions ts c : ranges_lookup (map transition_range ts) c = trans_target ts c.
Proof. induction ts as [|t ts IH]; [done|]. cbn. rewrite IH. done. Qed.

(** Adding the transitions of one component to the combined ranges. *)
Lemma extend_with_node_spec which dfa i v l : dfa_wf dfa -> state_ok dfa i -> represents v l -> ranges_sorted 0 l ->
  exists v' l', extend_with_node which dfa i v = Done v' /\ represents v' l' /\ ranges_sorted 0 l' /\
    forall c, 0 <= c < 128 -> ranges_lookup l' c =
      if ostep dfa i c =? invalidNodeIndex then ranges_lookup l c
      else Some (setHalfSignature which (default 0xffffffffffffffff (ranges_lookup l c)) (ostep dfa i c)).
Proof.
  intros Hw Hi Hv Hl. unfold extend_with_node, ostep. destruct (Z.eqb_spec i invalidNodeIndex) as [->|Hne]; [by exists v, l|].
  destruct Hi as [?|Hi]; [done|]. destruct (live_node _ _ Hw Hi) as (node & ts & acts & -> & Ht & _ & Hts & _ & Hs & Hf).
  cbn [obind]. rewrite Ht. cbn [obind].
  destruct (extend_spec (TargetConverter which) (setHalfSignature which 0xffffffffffffffff) (setHalfSignature which) (ranges_lookup l) (map transition_range ts))
    with (v := v) (l := l) as (v' & l' & E & Hv' & Hl' & Hm); try done; [by apply ranges_of_transitions|].
  exists v', l'. split_and!; try done. intros c Hc. rewrite Hm, lookup_of_transitions by done. unfold dfa_step. rewrite Hts.
  destruct (trans_target ts c) as [n|] eqn:Et; [|done]. apply trans_target_elem in Et as (t & Ht' & _ & <-).
  rewrite Forall_forall in Hf. destruct (live_valid dfa (tr_target t)) as [_ Hn]; [done|auto|]. apply Z.eqb_neq in Hn. rewrite Hn. cbn [merged].
  by destruct (ranges_lookup l c).
Qed.

Section Merge.
Context `{HashOrder} (dfaA dfaB : DFA) (HA : dfa_wf dfaA) (HB : dfa_wf dfaB).
Context (Hactions : vsize (remove_dups (dfa_actions dfaA ++ dfa_actions dfaB)) <= UINT16_MAX).

Definition key_ok (k : Z) : Prop := exists a b, k = signatureForIndices a b /\ state_ok dfaA a /\ state_ok dfaB b.

Definition key_moves (k c : Z) (o : option Z) : Prop :=
  let a := ostep dfaA (extractIndexA k) c in
  let b := ostep dfaB (extractIndexB k) c in
  o = if (a =? invalidNodeIndex) && (b =? invalidNodeIndex) then None else Some (signatureForIndices a b).

Definition key_actions (k : Z) (acts : list Z) : Prop :=
  NoDup acts /\ forall x, x ∈ acts <-> x ∈ state_actions dfaA (extractIndexA k) \/ x ∈ state_actions dfaB (extractIndexB k).

Abbreviation inv := (table_inv snd fst eq (fun e => key_ok (fst e)) key_actions key_moves).

Lemma key_parts a b : state_ok dfaA a -> state_ok dfaB b ->
  extractIndexA (signatureForIndices a b) = a /\ extractIndexB (signatureForIndices a b) = b.
Proof. intros Ha Hb. apply state_u32 in Ha, Hb; try done. split; [by apply extractIndexA_signature|by apply extractIndexB_signature]. Qed.

Lemma key_moves_ok k c D : key_ok k -> key_moves k c (Some D) -> key_ok D.
Proof.
  intros (a & b & -> & Ha & Hb) Hm. unfold key_moves in Hm. destruct (key_parts a b Ha Hb) as [Ea Eb]. rewrite Ea, Eb in Hm.
  destruct (_ && _); [done|]. injection Hm as ->. eexists _, _. split; [done|]. split; by apply ostep_ok.
Qed.

Lemma combined_spec k : key_ok k ->
  exists v l, (let* combinedA := extend_with_node WhichA dfaA (extractIndexA k) [] in extend_with_node WhichB dfaB (extractIndexB k) combinedA) = Done v /\
    represents v l /\ ranges_sorted 0 l /\ forall c, 0 <= c < 128 -> key_moves k c (ranges_lookup l c).
Proof.
  intros (a & b & -> & Ha & Hb). unfold key_moves. destruct (key_parts a b Ha Hb) as [Ea Eb]. rewrite Ea, Eb.
  destruct (extend_with_node_spec WhichA dfaA a [] [] HA Ha represents_nil) as (v1 & l1 & -> & Hv1 & Hl1 & Hm1); [done|]. cbn [obind].
  destruct (extend_with_node_spec WhichB dfaB b v1 l1 HB Hb Hv1 Hl1) as (v2 & l2 & -> & Hv2 & Hl2 & Hm2).
  exists v2, l2. split_and!; try done. intros c Hc. rewrite Hm2, Hm1 by done.
  pose proof (state_u32 _ _ HA (ostep_ok dfaA a c HA Ha)). pose proof (state_u32 _ _ HB (ostep_ok dfaB b c HB Hb)). pose proof invalid_u32.
  rewrite <- invalid_signature. cbn [ranges_lookup].
  destruct (Z.eqb_spec (ostep dfaA a c) invalidNodeIndex) as [E1|E1], (Z.eqb_spec (ostep dfaB b c) invalidNodeIndex) as [E2|E2]; cbn [andb from_option id]; try done.
  - f_equal. rewrite setHalf_B, E1 by done. done.
  - f_equal. rewrite setHalf_A, E2 by done. done.
  - f_equal. rewrite setHalf_A by done. rewrite setHalf_B by done. done.
Qed.

(** ** The table of pairs *)

Lemma add_node_actions_spec dfa i acts : dfa_wf dfa -> state_ok dfa i ->
  exists acts', add_node_actions dfa i acts = Done acts' /\ (NoDup acts -> NoDup acts') /\ forall x, x ∈ acts' <-> x ∈ state_actions dfa i \/ x ∈ acts.
Proof.
  intros Hw Hi. unfold add_node_actions, state_actions. destruct (Z.eqb_spec i invalidNodeIndex) as [_|Hne].
  - exists acts. split_and!; [done..|]. intros x. rewrite elem_of_nil. tauto.
  - destruct Hi as [?|Hi]; [done|]. destruct (live_node _ _ Hw Hi) as (node & ts & l & -> & _ & Ha & _ & Hl & _). cbn [obind]. rewrite Ha. cbn [obind].
    eexists. split_and!; [done|auto with ce|]. intros x. by rewrite elem_of_hs_add_range, Hl.
Qed.

Lemma state_actions_elem dfa i x : dfa_wf dfa -> state_ok dfa i -> x ∈ state_actions dfa i -> x ∈ dfa_actions dfa.
Proof.
  intros Hw Hi. unfold state_actions. destruct (Z.eqb_spec i invalidNodeIndex); [by intros ?%elem_of_nil|]. destruct Hi as [?|Hi]; [done|].
  destruct (live_node _ _ Hw Hi) as (node & ts & l & _ & _ & Ha & _ & -> & _). unfold node_actions in Ha. intros Hx. by eapply vslice_elem.
Qed.

Lemma key_actions_size k acts : key_ok k -> key_actions k acts -> 0 <= vsize acts <= UINT16_MAX.
Proof.
  intros (a & b & -> & Ha & Hb) [Hn Hx]. destruct (key_parts a b Ha Hb) as [Ea Eb]. rewrite Ea, Eb in Hx. split; [apply vsize_nonneg|].
  etransitivity; [|exact Hactions]. unfold vsize. apply inj_le, submseteq_length, NoDup_submseteq; [done|].
  intros x Hin. apply elem_of_remove_dups, elem_of_app. apply Hx in Hin as [Hin|Hin]; [left|right]; by eapply state_actions_elem.
Qed.

Lemma find_key_spec (table : list (Z * Z)) k :
  match List.find (fun e => fst e =? k) table with
  | Some e => e ∈ table /\ fst e = k
  | None => forall e, e ∈ table -> fst e <> k
  end.
Proof.
  destruct (List.find _ _) as [e|] eqn:Ef.
  - apply find_some in Ef as [He Hk]. apply list_elem_of_In in He. by apply Z.eqb_eq in Hk.
  - intros e He Hk. apply list_elem_of_In in He. pose proof (find_none _ _ Ef e He) as Hn. cbv beta in Hn. by rewrite Hk, Z.eqb_refl in Hn.
Qed.

Lemma getOrCreateCombined_spec : get_ok snd fst fst eq (fun e => key_ok (fst e)) key_actions key_moves (getOrCreateCombinedNode dfaA dfaB) key_ok.
Proof.
  intros s pending k Hs Hk. unfold getOrCreateCombinedNode. pose proof (find_key_spec (ws_table s) k) as Hf.
  destruct (List.find _ _) as [e|] eqn:Ef.
  - destruct Hf as [He Hke]. apply list_elem_of_lookup in He as [i Hi]. pose proof (ti_index Hs _ _ Hi) as Hid.
    eexists _, _, []. split; [done|]. split_and!; try done; [apply state_grows_refl|]. exists e. rewrite Hid. split_and!; [lia|by rewrite Nat2Z.id|done].
  - pose proof Hk as (a & b & Hab & Ha & Hb). destruct (key_parts a b Ha Hb) as [Ea Eb]. rewrite <- Hab in Ea, Eb. rewrite Ea, Eb.
    destruct (add_node_actions_spec dfaA a [] HA Ha) as (actsA & -> & HnA & HxA). cbn [obind].
    destruct (add_node_actions_spec dfaB b actsA HB Hb) as (acts & -> & Hn & Hx). cbn [obind].
    assert (Hacts : key_actions k acts). { split; [apply Hn, HnA; constructor|]. intros x. rewrite Hx, HxA, elem_of_nil, Ea, Eb. tauto. }
    pose proof (key_actions_size _ _ Hk Hacts) as Hsz. rewrite (vsize_app _ [newDFANode]). change (vsize [newDFANode]) with 1. rewrite Z.add_simpl_r.
    match goal with |- context [mkWorkState ?d _ _] => set (dfa' := d) end. set (u := (k, vsize (dfa_nodes (ws_dfa s)))).
    eexists _, _, [u]. split; [done|].
    assert (Hg : dfa_grows (ws_dfa s) dfa') by (eexists _, acts, [], []; split_and!; [reflexivity|done|by rewrite app_nil_r..|done]).
    split_and!; try done.
    + apply (table_inv_add (fun a b => @eq_sym _ a b) u acts dfa' Hs); try done;
        [by cbn; rewrite vsize_app|apply (ti_length Hs)|by apply new_node_is].
    + exists u. cbn. pose proof (vsize_nonneg (ws_table s)). rewrite <- (ti_size Hs). split_and!; [lia| |done].
      unfold vsize. rewrite Nat2Z.id, lookup_app_r, Nat.sub_diag by lia. done.
Qed.

Lemma process_pair_spec s u rest : inv (ws_dfa s) (ws_table s) (u :: rest) -> ws_unprocessed s = map fst rest ->
  exists s' pending, process_pair dfaA dfaB s (fst u) = Done s' /\ inv (ws_dfa s') (ws_table s') pending /\ ws_unprocessed s' = map fst pending /\
    (length (ws_table s') - length pending = length (ws_table s) - length rest)%nat /\ exists new, ws_table s' = ws_table s ++ new.
Proof.
  intros Hs Hq. assert (Hu : u ∈ ws_table s) by (apply (ti_pending Hs); left). pose proof (ti_entries Hs u Hu) as Hk. cbv beta in Hk.
  unfold process_pair. destruct (combined_spec (fst u) Hk) as (v & l & E & Hv & Hl & Hm). apply obind_Done in E as (cA & EA & EB). rewrite EA. cbn [obind]. rewrite EB. cbn [obind].
  destruct (emit_transitions_spec getOrCreateCombined_spec (fun s1 => mapping_get s1 (fst u)) s u rest v l Hs Hv Hl Hm)
    as (s' & new & E' & Ht & Hq' & Hinv).
  - intros c D _ HD. by eapply key_moves_ok.
  - intros s' new Hg Hs'. unfold mapping_get. pose proof (find_key_spec (ws_table s') (fst u)) as Hf.
    assert (Hu' : u ∈ ws_table s') by (rewrite (sg_table _ _ _ _ Hg), elem_of_app; auto). destruct (List.find _ _) as [e|]; [|by destruct (Hf u Hu')].
    destruct Hf as [He Hke]. by rewrite (ti_unique Hs' e u He Hu' Hke).
  - exists s', (rev new ++ rest). split_and!; [done|done| | |eauto].
    + by rewrite Hq', Hq, map_app.
    + rewrite Ht, !length_app, length_rev. lia.
Qed.

(** ** Termination: the pairs there can be *)

Definition all_keys : list Z :=
  map (fun '(a, b) => signatureForIndices a b)
    (list_prod (invalidNodeIndex :: seqZ 0 (vsize (dfa_nodes dfaA))) (invalidNodeIndex :: seqZ 0 (vsize (dfa_nodes dfaB)))).

Lemma state_elem dfa i : state_ok dfa i -> i ∈ invalidNodeIndex :: seqZ 0 (vsize (dfa_nodes dfa)).
Proof.
  intros [->|(node & En & _)]; [left|right]. apply vget_range in En. apply elem_of_seqZ. lia.
Qed.

Lemma key_elem k : key_ok k -> k ∈ all_keys.
Proof.
  intros (a & b & -> & Ha & Hb). unfold all_keys. apply list_elem_of_In, (in_map (fun '(a, b) => signatureForIndices a b) _ (a, b)), in_prod; apply list_elem_of_In; by apply state_elem.
Qed.

Lemma table_bound dfa table pending : inv dfa table pending -> (length table <= (length (dfa_nodes dfaA) + 1) * (length (dfa_nodes dfaB) + 1))%nat.
Proof.
  intros Hs. rewrite <- (length_map fst). transitivity (length all_keys).
  - apply submseteq_length, NoDup_submseteq.
    + apply NoDup_fmap_2_strong; [|by eapply table_NoDup]. intros u v Hu Hv Heq. by apply (ti_unique Hs).
    + intros k (u & -> & Hu)%list_elem_of_fmap. apply key_elem. by apply (ti_entries Hs u).
  - unfold all_keys. rewrite length_map, length_prod. cbn [length]. rewrite !length_seqZ. unfold vsize. lia.
Qed.

Lemma merge_loop_spec fuel : forall s pending, inv (ws_dfa s) (ws_table s) pending -> ws_unprocessed s = map fst pending ->
  ((length (dfa_nodes dfaA) + 1) * (length (dfa_nodes dfaB) + 1) - (length (ws_table s) - length pending) <= fuel)%nat ->
  exists dfa new, merge_loop dfaA dfaB fuel s = Done dfa /\ inv dfa (ws_table s ++ new) [].
Proof.
  induction fuel as [|fuel IH]; intros s pending Hs Hq Hf; pose proof (table_bound _ _ _ Hs) as Hts; pose proof (pending_size Hs) as Hps;
    destruct pending as [|u rest]; cbn [length map] in *; cbn [merge_loop]; rewrite Hq; try lia; try (exists (ws_dfa s), []; by rewrite app_nil_r).
  destruct (process_pair_spec (mkWorkState (ws_dfa s) (ws_table s) (map fst rest)) u rest Hs eq_refl) as (s' & pending' & E & Hs' & Hq' & Hlen & new & Ht).
  rewrite E. cbn [obind]. cbn [ws_table] in Hlen, Ht. destruct (IH s' pending' Hs' Hq') as (dfa & new' & E' & Hfin).
  - pose proof (pending_size Hs'). pose proof (table_bound _ _ _ Hs'). lia.
  - exists dfa, (new ++ new'). split; [done|]. by rewrite app_assoc, <- Ht.
Qed.

Lemma merge_spec : exists dfa table u, merge dfaA dfaB = Done dfa /\ inv dfa table [] /\ u ∈ table /\ snd u = 0 /\
  fst u = signatureForIndices (dfa_root dfaA) (dfa_root dfaB).
Proof.
  unfold merge. set (k := signatureForIndices (dfa_root dfaA) (dfa_root dfaB)).
  assert (Hk : key_ok k) by (eexists _, _; split; [done|]; split; right; apply dwf_root; done).
  set (s0 := mkWorkState emptyDFA [] [] : merge_state).
  assert (Hs0 : inv (ws_dfa s0) (ws_table s0) []) by (constructor; cbn; try done; try (by intros ? ?%elem_of_nil); try (by intros ? ? ?%elem_of_nil); constructor).
  destruct (getOrCreateCombined_spec s0 [] k Hs0 Hk) as (i & s1 & new & E1 & Hg & Hs1 & (u & Hi0 & Hu & Hp) & _ & _). rewrite E1. cbn [obind].
  pose proof (sg_table _ _ _ _ Hg) as Ht. pose proof (sg_queue _ _ _ _ Hg) as Hq. cbn [s0 ws_table ws_unprocessed app] in Ht, Hq. rewrite app_nil_r in Hq, Hs1.
  destruct (merge_loop_spec ((length (dfa_nodes dfaA) + 1) * (length (dfa_nodes dfaB) + 1)) s1 (rev new) Hs1 Hq) as (dfa & new' & El & Hfin); [lia|].
  assert (Hi : i = 0). { unfold getOrCreateCombinedNode in E1. cbn [ws_table s0 List.find] in E1. obind_inv E1. obind_inv E1. by injection E1 as <- _. }
  exists dfa, (ws_table s1 ++ new'), u. pose proof (list_elem_of_lookup_2 _ _ _ Hu) as Hin. split_and!; [done|done|by apply elem_of_app; left| |done].
  rewrite (ti_index Hs1 _ _ Hu), Hi. done.
Qed.

(** ** Runs *)

(** The state after a word; the invalid index once a run is stuck. *)
Definition orun (dfa : DFA) (i : Z) (w : list Z) : Z := foldl (ostep dfa) i w.

Lemma orun_ok dfa i w : dfa_wf dfa -> state_ok dfa i -> state_ok dfa (orun dfa i w).
Proof. intros Hw. revert i. induction w as [|c w IH]; intros i Hi; [done|]. by apply IH, ostep_ok. Qed.

Lemma orun_invalid dfa w : orun dfa invalidNodeIndex w = invalidNodeIndex.
Proof. induction w as [|c w IH]; [done|]. unfold orun in *. cbn [foldl]. unfold ostep at 2. by rewrite Z.eqb_refl. Qed.

Lemma run_live dfa w : dfa_wf dfa -> forall i m, live dfa i -> dfa_run dfa i w = Some m -> live dfa m.
Proof.
  intros Hw. induction w as [|c w IH]; intros i m Hi Hr; [by injection Hr as <-|]. cbn [dfa_run] in Hr.
  destruct (dfa_step dfa i c) as [n|] eqn:Es; [|done]. apply (IH n); [|done].
  destruct (live_node _ _ Hw Hi) as (node & ts & acts & _ & _ & _ & Hts & _ & _ & Hf). unfold dfa_step in Es. rewrite Hts in Es.
  apply trans_target_elem in Es as (t & Ht & _ & <-). rewrite Forall_forall in Hf. auto.
Qed.

Lemma orun_run dfa i w : dfa_wf dfa -> live dfa i -> orun dfa i w = match dfa_run dfa i w with Some m => m | None => invalidNodeIndex end.
Proof.
  intros Hw. revert i. induction w as [|c w IH]; intros i Hi; [done|]. destruct (live_valid _ _ Hw Hi) as [_ Hn]. cbn [dfa_run orun foldl].
  change (foldl (ostep dfa) (ostep dfa i c) w) with (orun dfa (ostep dfa i c) w). pose proof (ostep_ok dfa i c Hw (or_intror Hi)) as Ho.
  unfold ostep in Ho |- *. apply Z.eqb_neq in Hn. rewrite Hn in Ho |- *. destruct (dfa_step dfa i c) as [n|] eqn:Es; [|apply orun_invalid].
  destruct Ho as [Hinv|Hl]; [|by apply IH]. exfalso. destruct (live_node _ _ Hw Hi) as (node & ts & acts & _ & _ & _ & Hts & _ & _ & Hf).
  unfold dfa_step in Es. rewrite Hts in Es. apply trans_target_elem in Es as (t & Ht & _ & <-). rewrite Forall_forall in Hf. apply Hf in Ht.
  by apply live_valid in Ht as [_ ?].
Qed.

Lemma merged_run dfa table : inv dfa table [] -> forall w, Forall (fun c => 0 <= c < 128) w -> forall u a b, u ∈ table -> fst u = signatureForIndices a b ->
  state_ok dfaA a -> state_ok dfaB b ->
  match dfa_run dfa (snd u) w with
  | Some m => exists v, v ∈ table /\ snd v = m /\ fst v = signatureForIndices (orun dfaA a w) (orun dfaB b w)
  | None => orun dfaA a w = invalidNodeIndex /\ orun dfaB b w = invalidNodeIndex
  end.
Proof.
  intros Hs w Hw. induction Hw as [|c w Hc Hw IH]; intros u a b Hu Hab Ha Hb; [by exists u|].
  cbn [dfa_run orun foldl]. destruct (done_transitions u Hs Hu) as [_ Hm _]. unfold dfa_step. destruct (Hm c Hc) as (o & Ho & Ht).
  unfold key_moves in Ho. rewrite Hab in Ho. destruct (key_parts a b Ha Hb) as [Ea Eb]. rewrite Ea, Eb in Ho.
  change (foldl (ostep ?d) ?i w) with (orun d i w). destruct (Z.eqb_spec (ostep dfaA a c) invalidNodeIndex) as [E1|E1], (Z.eqb_spec (ostep dfaB b c) invalidNodeIndex) as [E2|E2];
    cbn [andb] in Ho; subst o; destruct (trans_target _ c) as [t|]; try done; [by rewrite E1, E2, !orun_invalid|..];
    destruct Ht as (v & H0 & Hv & Hkv); pose proof (ti_index Hs _ _ Hv) as Hid; rewrite Z2Nat.id in Hid by done; rewrite <- Hid;
    (apply IH; [by eapply list_elem_of_lookup_2|done|by apply ostep_ok..]).
Qed.
End Merge.

(** ** Merging DFAs: properties *)

(** The actions of the node a DFA reaches on a word. *)
Definition word_actions (dfa : DFA) (w : list Z) : list Z :=
  match dfa_run dfa (dfa_root dfa) w with Some m => dfa_node_actions dfa m | None => [] end.

Section Properties.
Context `{HashOrder}.

Lemma merge_root_states dfaA dfaB : dfa_wf dfaA -> dfa_wf dfaB -> state_ok dfaA (dfa_root dfaA) /\ state_ok dfaB (dfa_root dfaB).
Proof. intros HA HB. split; right; by apply dwf_root. Qed.

Lemma state_actions_word dfa w : dfa_wf dfa -> state_actions dfa (orun dfa (dfa_root dfa) w) = word_actions dfa w.
Proof.
  intros Hw. pose proof (dwf_root _ Hw) as Hl. unfold word_actions, state_actions. rewrite (orun_run _ _ _ Hw Hl).
  destruct (dfa_run dfa (dfa_root dfa) w) as [m|] eqn:E; [|by rewrite Z.eqb_refl]. apply (run_live _ _ Hw) in E; [|done].
  apply (live_valid _ _ Hw) in E as [_ Hne]. by destruct (Z.eqb_spec m invalidNodeIndex).
Qed.

Lemma merge_runs_both dfaA dfaB :
  dfa_wf dfaA -> dfa_wf dfaB -> vsize (remove_dups (dfa_actions dfaA ++ dfa_actions dfaB)) <= UINT16_MAX ->
  exists dfa, merge dfaA dfaB = Done dfa /\ dfa_root dfa = 0 /\
    forall w, ascii_word w ->
      match dfa_run dfa 0 w with
      | Some m => NoDup (dfa_node_actions dfa m) /\
                  forall x, x ∈ dfa_node_actions dfa m <-> x ∈ word_actions dfaA w \/ x ∈ word_actions dfaB w
      | None => dfa_run dfaA (dfa_root dfaA) w = None /\ dfa_run dfaB (dfa_root dfaB) w = None
      end.
Proof.
  intros HA HB Ha. destruct (merge_spec dfaA dfaB HA HB Ha) as (dfa & table & u & E & Hs & Hu & Hid & Hk). exists dfa. split_and!; [done|apply (ti_root Hs)|].
  intros w Hw. destruct (merge_root_states dfaA dfaB HA HB) as [Ra Rb].
  pose proof (merged_run dfaA dfaB HA HB dfa table Hs w Hw u _ _ Hu Hk Ra Rb) as Hr. rewrite Hid in Hr. destruct (dfa_run dfa 0 w) as [m|].
  - destruct Hr as (v & Hv & <- & Hkv). destruct (done_actions v Hs Hv) as [Hn Hx]. split; [done|]. intros x. rewrite Hx, Hkv.
    destruct (key_parts dfaA dfaB HA HB (orun dfaA (dfa_root dfaA) w) (orun dfaB (dfa_root dfaB) w)) as [-> ->]; [by apply orun_ok..|].
    by rewrite !state_actions_word.
  - destruct Hr as [Hra Hrb].
    assert (Hnone : forall d, dfa_wf d -> orun d (dfa_root d) w = invalidNodeIndex -> dfa_run d (dfa_root d) w = None).
    { intros d Hd Hm. rewrite orun_run in Hm by (try done; by apply dwf_root). destruct (dfa_run d (dfa_root d) w) as [m|] eqn:Er; [|done].
      apply (run_live _ _ Hd) in Er; [|by apply dwf_root]. by apply (live_valid _ _ Hd) in Er as [_ ?]. }
    auto.
Qed.

(** C14: Merging two well-formed DFAs returns, and the result runs both: on
    every word it performs, without repetition, exactly the actions that the
    first or the second input performs, and it gets stuck only when both
    inputs are stuck. *)
Theorem merge_language dfaA dfaB :
  dfa_wf dfaA -> dfa_wf dfaB -> vsize (remove_dups (dfa_actions dfaA ++ dfa_actions dfaB)) <= UINT16_MAX ->
  exists dfa, merge dfaA dfaB = Done dfa /\ dfa_root dfa = 0 /\
    forall w, ascii_word w ->
      match dfa_run dfa 0 w with
      | Some m => NoDup (dfa_node_actions dfa m) /\
                  forall x, x ∈ dfa_node_actions dfa m <-> x ∈ word_actions dfaA w \/ x ∈ word_actions dfaB w
      | None => dfa_run dfaA (dfa_root dfaA) w = None /\ dfa_run dfaB (dfa_root dfaB) w = None
      end.
Proof. apply merge_runs_both. Qed.

Lemma merge_result_wf dfaA dfaB dfa :
  dfa_wf dfaA -> dfa_wf dfaB -> vsize (remove_dups (dfa_actions dfaA ++ dfa_actions dfaB)) <= UINT16_MAX ->
  merge dfaA dfaB = Done dfa -> vsize (dfa_nodes dfa) < UINT32_MAX -> dfa_wf dfa.
Proof.
  intros HA HB Ha E Hsz. destruct (merge_spec dfaA dfaB HA HB Ha) as (dfa' & table & u & E' & Hs & Hu & _).
  rewrite E in E'. injection E' as <-. apply (result_wf Hs); [|done]. intros ->. by apply elem_of_nil in Hu.
Qed.

(** The merged DFA is well formed. *)
Lemma merge_wf dfaA dfaB dfa :
  dfa_wf dfaA -> dfa_wf dfaB -> vsize (remove_dups (dfa_actions dfaA ++ dfa_actions dfaB)) <= UINT16_MAX ->
  merge dfaA dfaB = Done dfa -> vsize (dfa_nodes dfa) < UINT32_MAX -> dfa_wf dfa.
Proof. apply merge_result_wf. Qed.

(** The 64-bit signatures of [DFAMerger] are faithful pairs: packing two
    node indices and extracting either gives it back, and setting one half
    leaves the other alone. *)
Theorem signature_halves a b v : is_u32 a -> is_u32 b -> is_u32 v ->
  extractIndexA (signatureForIndices a b) = a /\ extractIndexB (signatureForIndices a b) = b /\
  setHalfSignature WhichA (signatureForIndices a b) v = signatureForIndices v b /\
  setHalfSignature WhichB (signatureForIndices a b) v = signatureForIndices a v.
Proof.
  intros Ha Hb Hv. split_and!; [by apply extractIndexA_signature|by apply extractIndexB_signature|by apply setHalf_A|by apply setHalf_B].
Qed.
End Properties.

(** ** Witnesses *)

(** [a] with action 1, and [ab] with action 2. *)
Definition merge_dfa1 : DFA := mkDFA [mkDFANode 0 0 0 1 0; mkDFANode 0 1 1 0 0] [1] [mkCharRange 97 97] [1] 0.
Definition merge_dfa2 : DFA := mkDFA [mkDFANode 0 0 0 1 0; mkDFANode 0 1 0 1 0; mkDFANode 0 2 1 0 0] [2] [mkCharRange 97 97; mkCharRange 98 98] [1; 2] 0.

Lemma merge_dfas_wf : dfa_wf merge_dfa1 /\ dfa_wf merge_dfa2.
Proof. split; apply dfa_wfb_sound; vm_compute; reflexivity. Qed.

Lemma merge_language_witness : exists dfa, merge merge_dfa1 merge_dfa2 = Done dfa /\ dfa_root dfa = 0 /\ word_actions dfa [97; 98] = [2].
Proof.
  destruct (merge_language merge_dfa1 merge_dfa2) as (dfa & E & Hr & _); [apply merge_dfas_wf|apply merge_dfas_wf|vm_compute; discriminate|].
  exists dfa. split; [exact E|]. split; [exact Hr|]. vm_compute in E. injection E as <-. vm_compute. reflexivity.
Defined.

Lemma merge_wf_witness : exists dfa, merge merge_dfa1 merge_dfa2 = Done dfa /\ dfa_wf dfa.
Proof.
  destruct (merge merge_dfa1 merge_dfa2) as [dfa| |] eqn:E; [|vm_compute in E; discriminate..]. exists dfa. split; [reflexivity|].
  apply (merge_wf merge_dfa1 merge_dfa2); [apply merge_dfas_wf|apply merge_dfas_wf|vm_compute; discriminate|exact E|].
  vm_compute in E. injection E as <-. vm_compute. reflexivity.
Defined.

Lemma signature_halves_witness : extractIndexA (signatureForIndices 7 invalidNodeIndex) = 7 /\ extractIndexB (signatureForIndices 7 invalidNodeIndex) = invalidNodeIndex.
Proof. destruct (signature_halves 7 invalidNodeIndex 0) as (Ha & Hb & _); [unfold is_u32; lia|apply invalid_u32|unfold is_u32; lia|]. split; [exact Ha|exact Hb]. Defined.
