(* ===== verification/DfaMinimizer.v ===== *)
(** * DFA minimization (DFAMinimizer.cpp)

    Nodes and transitions are kept in two refinable partitions.  A set of
    transitions splits the sets of nodes into those that have one of these
    transitions and those that do not; a new set of nodes splits the sets of
    transitions by whether they lead to it. *)

From S2P Require Import Prelude Containers Dfa RangeList DfaMerger.

(** ** Refinable partitions *)

Record SetDescriptor := mkSetDescriptor { sd_start : Z; sd_size : Z; sd_markedCount : Z }.

Definition indexAfterMarkedElements (s : SetDescriptor) : Z := sd_start s + sd_markedCount s.
Definition sd_end (s : SetDescriptor) : Z := sd_start s + sd_size s.

Record Partition := mkPartition {
  m_sets : list SetDescriptor;
  m_partitionedElements : list Z;
  m_elementPositionInPartitionedNodes : list Z;
  m_elementToSetMap : list Z;
  m_setsMarkedInCurrentGeneration : list Z
}.

Definition emptyPartition : Partition := mkPartition [] [] [] [] [].

Definition initialize (size : Z) : Partition :=
  if size =? 0 then emptyPartition
  else mkPartition [mkSetDescriptor 0 size 0] (seqZ 0 size) (seqZ 0 size) (replicate (Z.to_nat size) 0) [].

(** The new entries of the vectors are not initialized; zero stands for what
    they hold. *)
Definition reserveUninitializedCapacity (p : Partition) (elementCount : Z) : Partition :=
  let zeros := replicate (Z.to_nat elementCount) 0 in
  mkPartition (m_sets p) zeros zeros zeros (m_setsMarkedInCurrentGeneration p).

Definition addSetUnchecked (p : Partition) (start size : Z) : Partition :=
  mkPartition (m_sets p ++ [mkSetDescriptor start size 0]) (m_partitionedElements p)
    (m_elementPositionInPartitionedNodes p) (m_elementToSetMap p) (m_setsMarkedInCurrentGeneration p).

Definition setElementUnchecked (p : Partition) (elementIndex positionInPartition setIndex : Z) : outcome Partition :=
  let* elements := vset (m_partitionedElements p) positionInPartition elementIndex in
  let* positions := vset (m_elementPositionInPartitionedNodes p) elementIndex positionInPartition in
  let* map := vset (m_elementToSetMap p) elementIndex setIndex in
  Done (mkPartition (m_sets p) elements positions map (m_setsMarkedInCurrentGeneration p)).

Definition startOffsetOfSet (p : Partition) (setIndex : Z) : outcome Z :=
  let* s := vget (m_sets p) setIndex in Done (sd_start s).

Definition markElementInCurrentGeneration (p : Partition) (elementIndex : Z) : outcome Partition :=
  let* setIndex := vget (m_elementToSetMap p) elementIndex in
  let* setDescriptor := vget (m_sets p) setIndex in
  let* elementPositionInPartition := vget (m_elementPositionInPartitionedNodes p) elementIndex in
  let firstUnmarkedElementPositionInPartition := indexAfterMarkedElements setDescriptor in
  let* firstUnmarkedElement := vget (m_partitionedElements p) firstUnmarkedElementPositionInPartition in
  let* elements1 := vset (m_partitionedElements p) firstUnmarkedElementPositionInPartition elementIndex in
  let* elements2 := vset elements1 elementPositionInPartition firstUnmarkedElement in
  let* positions1 := vset (m_elementPositionInPartitionedNodes p) elementIndex firstUnmarkedElementPositionInPartition in
  let* positions2 := vset positions1 firstUnmarkedElement elementPositionInPartition in
  let marked := if sd_markedCount setDescriptor =? 0 then m_setsMarkedInCurrentGeneration p ++ [setIndex] else m_setsMarkedInCurrentGeneration p in
  let* sets := vset (m_sets p) setIndex (mkSetDescriptor (sd_start setDescriptor) (sd_size setDescriptor) (sd_markedCount setDescriptor + 1)) in
  Done (mkPartition sets elements2 positions2 (m_elementToSetMap p) marked).

(** [iterateSet(setIndex, function)]: the elements the function is called on. *)
Definition iterateSet (p : Partition) (setIndex : Z) : outcome (list Z) :=
  let* s := vget (m_sets p) setIndex in vslice (m_partitionedElements p) (sd_start s) (sd_end s).

Definition setIndexOf (p : Partition) (elementIndex : Z) : outcome Z := vget (m_elementToSetMap p) elementIndex.

Definition firstElementInSet (p : Partition) (setIndex : Z) : outcome Z :=
  let* s := vget (m_sets p) setIndex in vget (m_partitionedElements p) (sd_start s).

Definition partition_size (p : Partition) : Z := vsize (m_sets p).

Definition with_sets (p : Partition) (sets : list SetDescriptor) : Partition :=
  mkPartition sets (m_partitionedElements p) (m_elementPositionInPartitionedNodes p) (m_elementToSetMap p) (m_setsMarkedInCurrentGeneration p).

(** One marked set of [refineGeneration]: the new set, if there is one. *)
Definition refine_set (p : Partition) (setIndex : Z) : outcome (Partition * option Z) :=
  let* s := vget (m_sets p) setIndex in
  if sd_markedCount s =? sd_size s then
    let* sets := vset (m_sets p) setIndex (mkSetDescriptor (sd_start s) (sd_size s) 0) in
    Done (with_sets p sets, None)
  else
    let newSetIsMarkedSet := sd_markedCount s * 2 <=? sd_size s in
    let newSet := if newSetIsMarkedSet then mkSetDescriptor (sd_start s) (sd_markedCount s) 0
                  else mkSetDescriptor (sd_start s + sd_markedCount s) (sd_size s - sd_markedCount s) 0 in
    let start := if newSetIsMarkedSet then sd_start s + sd_markedCount s else sd_start s in
    let* sets := vset (m_sets p) setIndex (mkSetDescriptor start (sd_size s - sd_size newSet) 0) in
    let newSetIndex := vsize sets in
    let* members := vslice (m_partitionedElements p) (sd_start newSet) (sd_end newSet) in
    let* map := ofold (fun map element => vset map element newSetIndex) (m_elementToSetMap p) members in
    Done (mkPartition (sets ++ [newSet]) (m_partitionedElements p) (m_elementPositionInPartitionedNodes p) map
            (m_setsMarkedInCurrentGeneration p), Some newSetIndex).

(** [refineGeneration(function)]; [S] is the state the function changes. *)
Definition refineGeneration {S} (function : Partition -> S -> Z -> outcome S) (p : Partition) (s : S) : outcome (Partition * S) :=
  let* (p1, s1) := ofold (fun '(p, s) setIndex =>
      let* (p', newSet) := refine_set p setIndex in
      match newSet with
      | None => Done (p', s)
      | Some newSetIndex => let* s' := function p' s newSetIndex in Done (p', s')
      end) (p, s) (m_setsMarkedInCurrentGeneration p) in
  Done (mkPartition (m_sets p1) (m_partitionedElements p1) (m_elementPositionInPartitionedNodes p1) (m_elementToSetMap p1) [], s1).

(** ** Intersections of transitions with the singular ranges *)

(** The first [while] of [iterateIntersections]: the position reached, and
    what is left of the firsts there. *)
Fixpoint skip_to (firsts : list Z) (index firstCharacter : Z) : Z * list Z :=
  match firsts with
  | [] => (index, [])
  | f :: firsts' => if f =? firstCharacter then (index, firsts) else skip_to firsts' (index + 1) firstCharacter
  end.

(** The second one: the positions up to [lastCharacter]. *)
Fixpoint span_to (firsts : list Z) (index lastCharacter : Z) : list Z * Z * list Z :=
  match firsts with
  | [] => ([], index, [])
  | f :: firsts' =>
      if f <=? lastCharacter
      then let '(ks, i, rest) := span_to firsts' (index + 1) lastCharacter in (index :: ks, i, rest)
      else ([], index, firsts)
  end.

(** [iterateIntersections(singularTransitionsFirsts, transitions, handler)]:
    the arguments of the calls of the handler. *)
Fixpoint intersections (firsts : list Z) (index : Z) (ts : list DFATransition) : list (Z * DFATransition) :=
  match ts with
  | [] => []
  | t :: ts' =>
      let (i, rest) := skip_to firsts index (tr_first t) in
      let '(ks, i', rest') := span_to (tail rest) (i + 1) (tr_last t) in
      map (fun k => (k, t)) (i :: ks) ++ intersections rest' i' ts'
  end.

(** ** The partition of the graph *)

Record FullGraphPartition := mkFullGraphPartition {
  m_flattenedTransitionsStartOffsetPerNode : list Z;
  m_flattenedTransitionsSizePerNode : list Z;
  m_flattenedTransitions : list Z;     (* Transition::source *)
  m_nodePartition : Partition;
  m_transitionPartition : Partition;
  m_nextTransitionSetToProcess : Z
}.

Definition CounterConverter : DataConverter Z Z :=
  mkDataConverter (fun _ => Done 1) (fun destination _ => Done (u32 (destination + 1))).

(** The transitions of a node that is not killed; a killed node is skipped. *)
Definition live_transitions (dfa : DFA) (node : DFANode) : outcome (list DFATransition) :=
  if isKilled node then Done [] else node_transitions node dfa.

Definition singular_transitions (dfa : DFA) : outcome (list (MutableRange Z)) :=
  let* v := ofold (fun singularTransitions node =>
      if isKilled node then Done singularTransitions
      else let* ts := node_transitions node dfa in
           extend CounterConverter singularTransitions (map transition_range ts)) [] (dfa_nodes dfa) in
  iterate v.

(** One bucket per singular range. *)
Definition add_bucket (state : Partition * Z) (r : MutableRange Z) : Partition * Z :=
  let (p, rangeIndexAccumulator) := state in
  (addSetUnchecked p rangeIndexAccumulator (mr_data r), u32 (rangeIndexAccumulator + mr_data r)).

Definition vincrement (v : list Z) (i : Z) : outcome (list Z) := let* x := vget v i in vset v i (u32 (x + 1)).

(** The number of incoming transitions per node. *)
Definition count_incoming (dfa : DFA) (firsts : list Z) : outcome (list Z) :=
  ofold (fun counts node =>
    let* ts := live_transitions dfa node in
    ofold (fun counts '(_, t) => vincrement counts (tr_target t)) counts (intersections firsts 0 ts))
    (replicate (length (dfa_nodes dfa)) 0) (dfa_nodes dfa).

(** The start of each node's bucket; the total comes last. *)
Fixpoint accumulate (transitionAccumulator : Z) (counts : list Z) : list Z * Z :=
  match counts with
  | [] => ([], transitionAccumulator)
  | c :: counts' => let (starts, total) := accumulate (u32 (transitionAccumulator + c)) counts' in (transitionAccumulator :: starts, total)
  end.

(** The variables of the loop that fills the tables. *)
Record fill_state := mkFillState {
  f_flattenedTransitions : list Z;
  f_sizePerNode : list Z;
  f_transitionPerRangeOffset : list Z;
  f_transitionPartition : Partition
}.

(** The handler of the loop, for the node [i]. *)
Definition fill_transition (starts : list Z) (i : Z) (f : fill_state) (entry : Z * DFATransition) : outcome fill_state :=
  let (singularTransitonIndex, t) := entry in
  let targetNodeIndex := tr_target t in
  let* start := vget starts targetNodeIndex in
  let* offset := vget (f_sizePerNode f) targetNodeIndex in
  let positionInFlattenedTransitions := start + offset in
  let* flattened := vset (f_flattenedTransitions f) positionInFlattenedTransitions i in
  let* inRangeOffset := vget (f_transitionPerRangeOffset f) singularTransitonIndex in
  let* setStart := startOffsetOfSet (f_transitionPartition f) singularTransitonIndex in
  let positionInTransitionPartition := setStart + inRangeOffset in
  let* offsets := vset (f_transitionPerRangeOffset f) singularTransitonIndex (inRangeOffset + 1) in
  let* tp := setElementUnchecked (f_transitionPartition f) positionInFlattenedTransitions positionInTransitionPartition singularTransitonIndex in
  let* sizes := vset (f_sizePerNode f) targetNodeIndex (offset + 1) in
  Done (mkFillState flattened sizes offsets tp).

(** [FullGraphPartition(dfa)]. *)
Definition newFullGraphPartition (dfa : DFA) : outcome FullGraphPartition :=
  let size := vsize (dfa_nodes dfa) in
  let* singularTransitions := singular_transitions dfa in
  let (buckets, _) := foldl add_bucket (emptyPartition, 0) singularTransitions in
  let firsts := map mr_first singularTransitions in
  let* counts := count_incoming dfa firsts in
  let (starts, flattenedTransitionsSize) := accumulate 0 counts in
  let f0 := mkFillState (replicate (Z.to_nat flattenedTransitionsSize) 0) (replicate (Z.to_nat size) 0)
              (replicate (length (m_sets buckets)) 0) (reserveUninitializedCapacity buckets flattenedTransitionsSize) in
  let* f := ofold (fun f '(i, node) =>
      let* ts := live_transitions dfa node in
      ofold (fill_transition starts i) f (intersections firsts 0 ts)) f0 (zip (seqZ 0 size) (dfa_nodes dfa)) in
  Done (mkFullGraphPartition starts (f_sizePerNode f) (f_flattenedTransitions f) (initialize size) (f_transitionPartition f) 0).

Definition set_nodePartition (g : FullGraphPartition) (p : Partition) : FullGraphPartition :=
  mkFullGraphPartition (m_flattenedTransitionsStartOffsetPerNode g) (m_flattenedTransitionsSizePerNode g) (m_flattenedTransitions g)
    p (m_transitionPartition g) (m_nextTransitionSetToProcess g).

Definition markNode (g : FullGraphPartition) (nodeIndex : Z) : outcome FullGraphPartition :=
  let* p := markElementInCurrentGeneration (m_nodePartition g) nodeIndex in Done (set_nodePartition g p).

(** The function [refinePartitions] passes to the node partition: mark the
    transitions into the new set and split by them. *)
Definition split_transitions (g : FullGraphPartition) (nodePartition transitionPartition : Partition) (smallestSetIndex : Z) : outcome Partition :=
  let* nodes := iterateSet nodePartition smallestSetIndex in
  let* marked := ofold (fun p nodeIndex =>
      let* start := vget (m_flattenedTransitionsStartOffsetPerNode g) nodeIndex in
      let* count := vget (m_flattenedTransitionsSizePerNode g) nodeIndex in
      ofold markElementInCurrentGeneration p (seqZ start count)) transitionPartition nodes in
  let* (refined, _) := refineGeneration (fun _ (s : unit) _ => Done s) marked tt in
  Done refined.

Definition refinePartitions (g : FullGraphPartition) : outcome FullGraphPartition :=
  let* (np, tp) := refineGeneration (split_transitions g) (m_nodePartition g) (m_transitionPartition g) in
  Done (mkFullGraphPartition (m_flattenedTransitionsStartOffsetPerNode g) (m_flattenedTransitionsSizePerNode g) (m_flattenedTransitions g)
          np tp (m_nextTransitionSetToProcess g)).

(** One iteration of [splitByUniqueTransitions]. *)
Definition split_by_set (g : FullGraphPartition) : outcome FullGraphPartition :=
  let* transitions := iterateSet (m_transitionPartition g) (m_nextTransitionSetToProcess g) in
  let* np := ofold (fun p transitionIndex =>
      let* sourceNodeIndex := vget (m_flattenedTransitions g) transitionIndex in
      markElementInCurrentGeneration p sourceNodeIndex) (m_nodePartition g) transitions in
  let* g1 := refinePartitions (set_nodePartition g np) in
  Done (mkFullGraphPartition (m_flattenedTransitionsStartOffsetPerNode g1) (m_flattenedTransitionsSizePerNode g1) (m_flattenedTransitions g1)
          (m_nodePartition g1) (m_transitionPartition g1) (m_nextTransitionSetToProcess g1 + 1)).

Fixpoint split_loop (fuel : nat) (g : FullGraphPartition) : outcome FullGraphPartition :=
  if m_nextTransitionSetToProcess g <? partition_size (m_transitionPartition g) then
    match fuel with
    | O => OutOfFuel
    | S fuel' => let* g1 := split_by_set g in split_loop fuel' g1
    end
  else Done g.

(** Every transition can be in a set of its own. *)
Definition splitByUniqueTransitions (g : FullGraphPartition) : outcome FullGraphPartition :=
  split_loop (length (m_sets (m_transitionPartition g)) + length (m_flattenedTransitions g)) g.

Definition nodeReplacement (g : FullGraphPartition) (nodeIndex : Z) : outcome Z :=
  let* i := setIndexOf (m_nodePartition g) nodeIndex in firstElementInSet (m_nodePartition g) i.

(** ** Minimization *)

Section Minimize.
Context `{HashOrder}.

(** [finalStates]: the nodes with actions by the words of their actions,
    which is what [ActionKeyHash::equal] compares.  The table enumerates its
    slots in some order. *)
Fixpoint add_final_state (key : list Z) (i : Z) (slots : list (list Z * list Z)) : option (list (list Z * list Z)) :=
  match slots with
  | [] => None
  | (k, nodes) :: slots' =>
      if bool_decide (k = key) then Some ((k, nodes ++ [i]) :: slots')
      else match add_final_state key i slots' with Some s => Some ((k, nodes) :: s) | None => None end
  end.

Definition final_states (dfa : DFA) : outcome (list (list Z * list Z)) :=
  ofold (fun slots '(i, node) =>
    if hasActions node then
      let* key := node_actions node dfa in
      Done (match add_final_state key i slots with Some s => s | None => hash_place (key, [i]) slots end)
    else Done slots) [] (zip (seqZ 0 (vsize (dfa_nodes dfa))) (dfa_nodes dfa)).

(** One step of the loop that kills the replaced nodes. *)
Definition relocate_node (g : FullGraphPartition) (state : DFA * list Z) (i : Z) : outcome (DFA * list Z) :=
  let (dfa, relocationVector) := state in
  let* replacement := nodeReplacement g i in
  if i =? replacement then Done state
  else
    let* v := vset relocationVector i replacement in
    let* dfa' := kill dfa i in
    Done (dfa', v).

(** The loop over the transitions of one node. *)
Definition retarget (relocationVector : list Z) (dests : list Z) (position : Z) : outcome (list Z) :=
  let* target := vget dests position in
  let* relocatedTarget := vget relocationVector target in
  if target =? relocatedTarget then Done dests else vset dests position relocatedTarget.

Definition retarget_node (relocationVector : list Z) (dests : list Z) (node : DFANode) : outcome (list Z) :=
  if isKilled node then Done dests
  else ofold (retarget relocationVector) dests (seqZ (m_transitionsStart node) (m_transitionsLength node)).

(** [DFAMinimizer::minimize(dfa)]. *)
Definition minimize (dfa : DFA) : outcome DFA :=
  let* g0 := newFullGraphPartition dfa in
  let* finalStates := final_states dfa in
  let* g1 := ofold (fun g '(_, nodes) =>
      let* g' := ofold markNode g nodes in refinePartitions g') g0 finalStates in
  let* g2 := splitByUniqueTransitions g1 in
  let size := vsize (dfa_nodes dfa) in
  let* (dfa1, relocationVector) := ofold (relocate_node g2) (dfa, seqZ 0 size) (seqZ 0 size) in
  let* root := vget relocationVector (dfa_root dfa1) in
  let* dests := ofold (retarget_node relocationVector) (dfa_transitionDestinations dfa1) (dfa_nodes dfa1) in
  Done (mkDFA (dfa_nodes dfa1) (dfa_actions dfa1) (dfa_transitionRanges dfa1) dests root).
End Minimize.
