(* ===== verification/PartitionProofs.v ===== *)
(** * Refinable partitions work

    A partition keeps its elements in a vector, each set in an interval with
    its marked elements first.  Marking an element and refining by the marks
    act on the sets as they should. *)

From S2P Require Import Prelude Containers Dfa RangeList DfaMerger DfaMinimizer.

#[local] Arguments vsize {A} v : simpl never.

#[global] Instance SetDescriptor_inhabited : Inhabited SetDescriptor := populate (mkSetDescriptor 0 0 0).

(** ** Total reads *)

Abbreviation zat v i := (v !!! Z.to_nat i).

Lemma vget_at {A} `{Inhabited A} (v : list A) i : 0 <= i < vsize v -> vget v i = Done (zat v i).
Proof. intros Hi. destruct (vget_total v i Hi) as (x & -> & Hx). by rewrite (list_lookup_total_correct _ _ _ Hx). Qed.

Lemma at_insert {A} `{Inhabited A} (v : list A) i j x : 0 <= i < vsize v -> 0 <= j -> zat (<[Z.to_nat i := x]> v) j = if j =? i then x else zat v j.
Proof.
  intros Hi Hj. unfold vsize in Hi. destruct (Z.eqb_spec j i) as [->|Hne].
  - apply list_lookup_total_insert_eq. lia.
  - apply list_lookup_total_insert_ne. lia.
Qed.

Lemma at_app {A} `{Inhabited A} (v w : list A) i : 0 <= i < vsize v -> zat (v ++ w) i = zat v i.
Proof. intros Hi. unfold vsize in Hi. apply lookup_total_app_l. lia. Qed.

Lemma at_snoc {A} `{Inhabited A} (v : list A) x i : i = vsize v -> zat (v ++ [x]) i = x.
Proof. intros ->. unfold vsize. rewrite Nat2Z.id, lookup_total_app_r, Nat.sub_diag by lia. done. Qed.

Lemma vslice_at {A} `{Inhabited A} (v : list A) b e : 0 <= b -> b <= e -> e <= vsize v ->
  exists l, vslice v b e = Done l /\ vsize l = e - b /\ forall x, x ∈ l <-> exists q, b <= q < e /\ zat v q = x.
Proof.
  intros Hb Hbe He. unfold vslice. destruct (Z.leb_spec e b) as [Hle|Hlt].
  { exists []. split; [done|]. split; [unfold vsize; simpl; lia|]. intros x. split; [by intros ?%elem_of_nil|]. intros (q & ? & _). lia. }
  destruct (Z.leb_spec 0 b); [|lia]. destruct (Z.leb_spec e (vsize v)); [|lia]. cbn [andb]. eexists. split; [done|]. unfold vsize in *. split.
  - rewrite length_take, length_drop. lia.
  - intros x. split.
    + intros (i & Hi & Hlt')%elem_of_take. rewrite lookup_drop in Hi. exists (b + Z.of_nat i). split; [lia|].
      replace (Z.to_nat (b + Z.of_nat i)) with (Z.to_nat b + i)%nat by lia. by apply list_lookup_total_correct.
    + intros (q & Hq & <-). apply elem_of_take. exists (Z.to_nat (q - b)). split; [|lia]. rewrite lookup_drop.
      replace (Z.to_nat b + Z.to_nat (q - b))%nat with (Z.to_nat q) by lia. apply list_lookup_lookup_total_lt. lia.
Qed.

(** ** The representation *)

Abbreviation cls p e := (zat (m_elementToSetMap p) e).
Abbreviation pos p e := (zat (m_elementPositionInPartitionedNodes p) e).
Abbreviation elt p q := (zat (m_partitionedElements p) q).
Abbreviation set_of p i := (zat (m_sets p) i).

Definition in_set (s : SetDescriptor) (q : Z) : Prop := sd_start s <= q < sd_start s + sd_size s.

(** A partition of [0..n-1]; [marked] lists the sets with marked elements. *)
Record part_ok (p : Partition) (n : Z) (marked : list Z) : Prop := {
  po_elements : vsize (m_partitionedElements p) = n;
  po_positions : vsize (m_elementPositionInPartitionedNodes p) = n;
  po_map : vsize (m_elementToSetMap p) = n;
  po_pos : forall e, 0 <= e < n -> 0 <= pos p e < n /\ elt p (pos p e) = e;
  po_elt : forall q, 0 <= q < n -> 0 <= elt p q < n /\ pos p (elt p q) = q;
  po_sets : forall i, 0 <= i < partition_size p -> 0 <= sd_start (set_of p i) /\ 0 < sd_size (set_of p i) /\
    sd_start (set_of p i) + sd_size (set_of p i) <= n /\ 0 <= sd_markedCount (set_of p i) <= sd_size (set_of p i);
  po_cls : forall e, 0 <= e < n -> 0 <= cls p e < partition_size p /\ in_set (set_of p (cls p e)) (pos p e);
  po_members : forall i q, 0 <= i < partition_size p -> in_set (set_of p i) q -> cls p (elt p q) = i;
  po_marked : forall i, 0 <= i < partition_size p -> i ∈ marked <-> 0 < sd_markedCount (set_of p i);
  po_bound : forall i, i ∈ marked -> 0 <= i < partition_size p;
  po_nodup : NoDup marked
}.

(** The marked elements come first in their set. *)
Definition is_marked (p : Partition) (e : Z) : Prop :=
  pos p e < sd_start (set_of p (cls p e)) + sd_markedCount (set_of p (cls p e)).

Lemma marked_set p n marked e : part_ok p n marked -> 0 <= e < n -> is_marked p e -> cls p e ∈ marked.
Proof.
  intros Hp He Hm. destruct (po_cls _ _ _ Hp e He) as [Hc [Hs _]]. apply (po_marked _ _ _ Hp); [done|]. unfold is_marked in Hm. lia.
Qed.

Lemma set_in_bounds p n marked i q : part_ok p n marked -> 0 <= i < partition_size p -> in_set (set_of p i) q -> 0 <= q < n.
Proof. intros Hp Hi Hq. destruct (po_sets _ _ _ Hp i Hi) as (H1 & H2 & H3 & _). unfold in_set in Hq. lia. Qed.

(** ** Marking *)

Lemma mark_spec p n marked e : part_ok p n marked -> 0 <= e < n -> ~ is_marked p e -> m_setsMarkedInCurrentGeneration p = marked ->
  exists p' marked', markElementInCurrentGeneration p e = Done p' /\ part_ok p' n marked' /\ m_setsMarkedInCurrentGeneration p' = marked' /\
    partition_size p' = partition_size p /\ m_elementToSetMap p' = m_elementToSetMap p /\
    forall x, 0 <= x < n -> is_marked p' x <-> is_marked p x \/ x = e.
Proof.
  intros Hp He Hm Hg. pose proof Hp as [L1 L2 L3 P1 P2 P3 P4 P5 P6 P7 P8].
  destruct (P4 e He) as [Hi Hin]. set (i := cls p e) in *. destruct (P3 i Hi) as (S1 & S2 & S3 & S4). set (s := set_of p i) in *.
  destruct (P1 e He) as [Hq Eq]. set (q := pos p e) in *. set (f := sd_start s + sd_markedCount s).
  assert (Dq : pos p e = q) by done. assert (Hm' : ~ q < f) by exact Hm. assert (Hf : in_set s f) by (unfold in_set, f in *; lia). assert (Hfn : 0 <= f < n) by (unfold in_set, f in *; lia).
  destruct (P2 f Hfn) as [Hu Eu]. set (u := elt p f) in *. pose proof (P5 i f Hi Hf) as Cu. fold u in Cu. assert (Du : elt p f = u) by done.
  unfold markElementInCurrentGeneration. rewrite (vget_at (m_elementToSetMap p)) by lia. fold i. cbn [obind]. rewrite (vget_at (m_sets p)) by done. fold s. cbn [obind].
  rewrite (vget_at (m_elementPositionInPartitionedNodes p)) by lia. fold q. cbn [obind]. change (indexAfterMarkedElements s) with f.
  rewrite (vget_at (m_partitionedElements p)) by lia. fold u. cbn [obind]. rewrite (vset_Done (m_partitionedElements p)) by lia. cbn [obind].
  rewrite vset_Done by (rewrite vsize_insert; lia). cbn [obind]. rewrite (vset_Done (m_elementPositionInPartitionedNodes p)) by lia. cbn [obind].
  rewrite vset_Done by (rewrite vsize_insert; lia). cbn [obind]. rewrite (vset_Done (m_sets p)) by done. cbn [obind].
  set (s' := mkSetDescriptor (sd_start s) (sd_size s) (sd_markedCount s + 1)).
  set (marked' := if sd_markedCount s =? 0 then m_setsMarkedInCurrentGeneration p ++ [i] else m_setsMarkedInCurrentGeneration p).
  eexists _, marked'. split; [done|].
  assert (Helt : forall x, 0 <= x -> zat (<[Z.to_nat q := u]> (<[Z.to_nat f := e]> (m_partitionedElements p))) x = if x =? q then u else if x =? f then e else elt p x).
  { intros x Hx. rewrite at_insert by (rewrite ?vsize_insert; lia). destruct (x =? q); [done|]. by rewrite at_insert by lia. }
  assert (Hpos : forall x, 0 <= x -> zat (<[Z.to_nat u := q]> (<[Z.to_nat e := f]> (m_elementPositionInPartitionedNodes p))) x = if x =? u then q else if x =? e then f else pos p x).
  { intros x Hx. rewrite at_insert by (rewrite ?vsize_insert; lia). destruct (x =? u); [done|]. by rewrite at_insert by lia. }
  assert (Hset : forall j, 0 <= j -> zat (<[Z.to_nat i := s']> (m_sets p)) j = if j =? i then s' else set_of p j) by (intros j Hj; by rewrite at_insert).
  assert (Hin' : forall j x, 0 <= j < partition_size p -> in_set (zat (<[Z.to_nat i := s']> (m_sets p)) j) x <-> in_set (set_of p j) x).
  { intros j x Hj. rewrite Hset by lia. destruct (Z.eqb_spec j i) as [->|]; done. }
  assert (Hmk : forall j, j ∈ marked' <-> j ∈ marked \/ j = i).
  { intros j. unfold marked'. rewrite Hg. destruct (Z.eqb_spec (sd_markedCount s) 0) as [E0|E0]; [by rewrite elem_of_app, list_elem_of_singleton|].
    split; [auto|]. intros [?| ->]; [done|]. apply P6; [done|]. fold s. lia. }
  split; [|split; [done|split; [by unfold partition_size; cbn; rewrite vsize_insert|split; [done|]]]].
  - constructor; cbn [m_partitionedElements m_elementPositionInPartitionedNodes m_elementToSetMap m_sets];
      unfold partition_size in *; cbn [m_sets] in *; rewrite ?vsize_insert; try done.
    + intros x Hx. destruct (P1 x Hx) as [Hx1 Hx2]. rewrite Hpos by lia. destruct (Z.eqb_spec x u) as [->|Hxu].
      { split; [lia|]. rewrite Helt by lia. by rewrite Z.eqb_refl. }
      destruct (Z.eqb_spec x e) as [->|Hxe].
      { split; [lia|]. rewrite Helt by lia. destruct (Z.eqb_spec f q) as [Efq|]; [|by rewrite Z.eqb_refl]. congruence. }
      split; [done|]. rewrite Helt by lia. destruct (Z.eqb_spec (pos p x) q) as [E|]; [congruence|]. destruct (Z.eqb_spec (pos p x) f); [congruence|done].
    + intros x Hx. destruct (P2 x Hx) as [Hx1 Hx2]. rewrite Helt by lia. destruct (Z.eqb_spec x q) as [->|Hxq].
      { split; [lia|]. rewrite Hpos by lia. by rewrite Z.eqb_refl. }
      destruct (Z.eqb_spec x f) as [->|Hxf].
      { split; [lia|]. rewrite Hpos by lia. destruct (Z.eqb_spec e u); [congruence|by rewrite Z.eqb_refl]. }
      split; [done|]. rewrite Hpos by lia. destruct (Z.eqb_spec (elt p x) u); [congruence|]. destruct (Z.eqb_spec (elt p x) e); [congruence|done].
    + intros j Hj. rewrite Hset by lia. destruct (Z.eqb_spec j i) as [->|]; [|by apply P3]. cbn. unfold in_set, f in Hf. lia.
    + intros x Hx. destruct (P4 x Hx) as [Hc Hx']. split; [done|]. rewrite Hin' by done. rewrite Hpos by lia.
      destruct (Z.eqb_spec x u) as [->|]; [by rewrite Cu|]. destruct (Z.eqb_spec x e) as [->|]; done.
    + intros j x Hj Hx. rewrite Hin' in Hx by done. pose proof (set_in_bounds _ _ _ _ _ Hp Hj Hx). rewrite Helt by lia.
      destruct (Z.eqb_spec x q) as [->|]; [rewrite Cu; rewrite <- (P5 j q Hj Hx); by rewrite Eq|]. destruct (Z.eqb_spec x f) as [->|]; [|auto].
      rewrite <- (P5 j f Hj Hx). fold u. by rewrite Cu.
    + intros j Hj. rewrite Hmk, Hset by lia. destruct (Z.eqb_spec j i) as [->|]; [cbn; split; [lia|auto]|]. rewrite P6 by done. tauto.
    + intros j [?| ->]%Hmk; auto.
    + unfold marked'. rewrite Hg. destruct (Z.eqb_spec (sd_markedCount s) 0) as [E0|]; [|done]. apply NoDup_app. split_and!; [done| |apply NoDup_singleton].
      intros j Hj ->%list_elem_of_singleton. apply P6 in Hj; [|done]. fold s in Hj. lia.
  - intros x Hx. destruct (P4 x Hx) as [Hcx [Hx1 Hx2]]. destruct (P1 x Hx) as [Hpx1 Hpx2]. unfold is_marked.
    cbn [m_elementPositionInPartitionedNodes m_sets m_elementToSetMap]. rewrite Hset by lia. rewrite Hpos by lia.
    destruct (Z.eqb_spec x u) as [->|Hxu].
    + rewrite Cu, Z.eqb_refl. cbn. fold s. rewrite Eu. split.
      * intros Hlt. right. assert (q = f) by lia. congruence.
      * intros [?| ->]; [unfold f in *; lia|]. fold q in Eu. unfold f in *. lia.
    + destruct (Z.eqb_spec x e) as [->|Hxe]; [fold i; rewrite Z.eqb_refl; cbn; unfold f; split; [auto|lia]|].
      destruct (Z.eqb_spec (cls p x) i) as [Ei|Ei]; [|tauto]. cbn. rewrite Ei. fold s. split; [|intros [?|?]; [lia|done]].
      intros Hlt. destruct (Z.eq_dec (pos p x) f) as [Ef|]; [|left; unfold f in *; lia]. destruct Hxu. unfold u. by rewrite <- Ef.
Qed.

(** ** Refining one set *)

Definition is_markedb (p : Partition) (e : Z) : bool :=
  pos p e <? sd_start (set_of p (cls p e)) + sd_markedCount (set_of p (cls p e)).

Lemma is_markedb_spec p e : is_markedb p e = true <-> is_marked p e.
Proof. apply Z.ltb_lt. Qed.

(** Writing one value at several places. *)
Lemma ofold_vset {A} `{Inhabited A} (l : list Z) (k : A) : forall v : list A, (forall x, x ∈ l -> 0 <= x < vsize v) ->
  exists v', ofold (fun map element => vset map element k) v l = Done v' /\ vsize v' = vsize v /\
    forall x, 0 <= x -> zat v' x = if bool_decide (x ∈ l) then k else zat v x.
Proof.
  induction l as [|y l IH]; intros v Hl.
  { exists v. split_and!; [done|done|]. intros x Hx. rewrite bool_decide_false; [done|]. apply not_elem_of_nil. }
  cbn [ofold]. rewrite vset_Done by (apply Hl; left). cbn [obind]. destruct (IH (<[Z.to_nat y := k]> v)) as (v' & E & Hs & Hv).
  { intros x Hx. rewrite vsize_insert. apply Hl. by right. }
  exists v'. split_and!; [done|by rewrite Hs, vsize_insert|]. intros x Hx. rewrite Hv by done. rewrite at_insert by (try done; apply Hl; left).
  destruct (bool_decide_reflect (x ∈ l)) as [Hin|Hin], (Z.eqb_spec x y) as [->|Hne]; try (rewrite bool_decide_true; [done|]; rewrite elem_of_cons; auto).
  rewrite bool_decide_false; [done|]. rewrite elem_of_cons. tauto.
Qed.

(** How refining changes the classes: the elements of [new] move to the class [k]. *)
Record split_by (p p' : Partition) (n i k : Z) (new : Z -> bool) : Prop := {
  sb_class : forall x, 0 <= x < n -> cls p' x = if new x then k else cls p x;
  sb_new : forall x, 0 <= x < n -> new x = true -> cls p x = i;
  sb_marks : forall x y, 0 <= x < n -> 0 <= y < n -> cls p x = i -> cls p y = i -> new x = new y <-> (is_marked p x <-> is_marked p y);
  sb_others : forall x, 0 <= x < n -> cls p x <> i -> is_marked p' x <-> is_marked p x
}.

Lemma refine_set_spec p n i rest : part_ok p n (i :: rest) ->
  exists p' o new, refine_set p i = Done (p', o) /\ part_ok p' n rest /\ split_by p p' n i (partition_size p) new /\
    m_setsMarkedInCurrentGeneration p' = m_setsMarkedInCurrentGeneration p /\
    match o with
    | None => partition_size p' = partition_size p /\ forall x, 0 <= x < n -> new x = false
    | Some k => k = partition_size p /\ partition_size p' = k + 1
    end.
Proof.
  intros Hp. pose proof Hp as [L1 L2 L3 P1 P2 P3 P4 P5 P6 P7 P8]. assert (Hi : 0 <= i < partition_size p) by (apply P7; left).
  destruct (P3 i Hi) as (S1 & S2 & S3 & S4). set (s := set_of p i) in *. assert (Hm0 : 0 < sd_markedCount s) by (apply P6; [done|left]).
  apply NoDup_cons in P8 as [Hir P8]. unfold refine_set. rewrite (vget_at (m_sets p)) by done. fold s. cbn [obind].
  assert (Hrest : forall j, j ∈ rest <-> j <> i /\ j ∈ i :: rest).
  { intros j. rewrite elem_of_cons. split; [intros Hj; split; [congruence|auto]|]. intros [? [?|?]]; done. }
  assert (Hini : forall x, 0 <= x < n -> cls p x = i -> in_set s (pos p x)) by (intros x Hx Hc; destruct (P4 x Hx) as [_ Hin]; by rewrite Hc in Hin).
  destruct (Z.eqb_spec (sd_markedCount s) (sd_size s)) as [Eall|Eall].
  - rewrite vset_Done by done. cbn [obind]. set (s' := mkSetDescriptor (sd_start s) (sd_size s) 0).
    assert (Hset : forall j, 0 <= j -> zat (<[Z.to_nat i := s']> (m_sets p)) j = if j =? i then s' else set_of p j) by (intros j Hj; by rewrite at_insert).
    assert (Hin' : forall j x, 0 <= j -> in_set (zat (<[Z.to_nat i := s']> (m_sets p)) j) x <-> in_set (set_of p j) x).
    { intros j x Hj. rewrite Hset by lia. destruct (Z.eqb_spec j i) as [->|]; done. }
    eexists _, None, (fun _ => false). split; [done|]. split_and!; try done; [| |by unfold partition_size; cbn; rewrite vsize_insert].
    + constructor; cbn [with_sets m_partitionedElements m_elementPositionInPartitionedNodes m_elementToSetMap m_sets];
        unfold partition_size in *; cbn [with_sets m_sets] in *; rewrite ?vsize_insert; try done.
      * intros j Hj. rewrite Hset by lia. destruct (Z.eqb_spec j i) as [->|]; [cbn; lia|by apply P3].
      * intros x Hx. destruct (P4 x Hx) as [Hc Hx']. split; [done|]. by apply Hin'; [lia|].
      * intros j x Hj Hx. rewrite Hin' in Hx by lia. auto.
      * intros j Hj. rewrite Hset, Hrest by lia. destruct (Z.eqb_spec j i) as [->|Hne]; [cbn; intuition lia|]. rewrite P6 by done. tauto.
      * intros j [_ Hj]%Hrest. auto.
    + constructor; cbn [with_sets m_elementToSetMap]; try done.
      * intros x y Hx Hy Cx Cy. split; [|done]. intros _. unfold is_marked. rewrite Cx, Cy. fold s. pose proof (Hini x Hx Cx). pose proof (Hini y Hy Cy). unfold in_set in *. lia.
      * intros x Hx Cx. unfold is_marked. cbn [with_sets m_elementToSetMap m_sets m_elementPositionInPartitionedNodes]. rewrite Hset by (apply P4; done).
        by destruct (Z.eqb_spec (cls p x) i).
  - set (nm := sd_markedCount s * 2 <=? sd_size s).
    set (s2 := if nm then mkSetDescriptor (sd_start s) (sd_markedCount s) 0 else mkSetDescriptor (sd_start s + sd_markedCount s) (sd_size s - sd_markedCount s) 0).
    set (s1 := mkSetDescriptor (if nm then sd_start s + sd_markedCount s else sd_start s) (sd_size s - sd_size s2) 0).
    rewrite vset_Done by done. cbn [obind].
    assert (B2 : 0 <= sd_start s2 /\ 0 < sd_size s2 /\ sd_start s2 + sd_size s2 <= n /\ 0 < sd_size s1 /\ 0 <= sd_start s1 /\ sd_start s1 + sd_size s1 <= n).
    { unfold s1, s2. destruct nm; cbn; lia. }
    destruct (vslice_at (m_partitionedElements p) (sd_start s2) (sd_end s2)) as (members & -> & _ & Hmem); [lia|unfold sd_end; lia|unfold sd_end; lia|]. cbn [obind].
    assert (Hmpos : forall x, 0 <= x < n -> x ∈ members <-> in_set s2 (pos p x)).
    { intros x Hx. rewrite Hmem. unfold sd_end, in_set. split.
      - intros (q & Hq & <-). destruct (P2 q) as [_ ->]; [lia|done].
      - intros Hin. exists (pos p x). split; [done|]. by apply P1. }
    rewrite vsize_insert. set (k := vsize (m_sets p)).
    destruct (ofold_vset members k (m_elementToSetMap p)) as (map' & -> & Hms & Hmap).
    { intros x (q & Hq & <-)%Hmem. rewrite L3. apply P2. unfold sd_end in Hq. lia. }
    cbn [obind]. set (new := fun x => bool_decide (x ∈ members)).
    assert (Hset : forall j, 0 <= j <= k -> zat (<[Z.to_nat i := s1]> (m_sets p) ++ [s2]) j = if j =? k then s2 else if j =? i then s1 else set_of p j).
    { intros j Hj. destruct (Z.eqb_spec j k) as [->|]; [by apply at_snoc; rewrite vsize_insert|]. rewrite at_app by (rewrite vsize_insert; lia). by rewrite at_insert by (unfold partition_size in *; lia). }
    assert (Hsub : forall q, in_set s2 q -> in_set s q /\ ~ in_set s1 q) by (intros q; unfold in_set, s1, s2; destruct nm; cbn; lia).
    assert (Hcover : forall q, in_set s q -> in_set s2 q \/ in_set s1 q) by (intros q; unfold in_set, s1, s2; destruct nm; cbn; lia).
    assert (Hsub1 : forall q, in_set s1 q -> in_set s q) by (intros q; unfold in_set, s1, s2; destruct nm; cbn; lia).
    assert (Hnew : forall x, 0 <= x < n -> new x = true <-> in_set s2 (pos p x)) by (intros x Hx; unfold new; rewrite bool_decide_eq_true; by apply Hmpos).
    assert (Hcls : forall x, 0 <= x < n -> zat map' x = if new x then k else cls p x) by (intros x Hx; by apply Hmap; lia).
    assert (Hnewi : forall x, 0 <= x < n -> new x = true -> cls p x = i).
    { intros x Hx Hn%Hnew; [|done]. apply Hsub in Hn as [Hn _]. pose proof (P5 i _ Hi Hn) as Hc. destruct (P1 x Hx) as [_ He]. by rewrite He in Hc. }
    eexists _, (Some k), new. split; [done|]. split_and!; try done; [| |unfold partition_size; cbn [m_sets]; rewrite vsize_app, vsize_insert; done].
    + constructor; cbn [m_partitionedElements m_elementPositionInPartitionedNodes m_elementToSetMap m_sets];
        unfold partition_size in *; cbn [m_sets] in *; rewrite ?vsize_app, ?vsize_insert; fold k; change (vsize [s2]) with 1; try done; try lia.
      * intros j Hj. rewrite Hset by lia. destruct (Z.eqb_spec j k) as [->|]; [unfold s2 in *; destruct nm; cbn in *; lia|].
        destruct (Z.eqb_spec j i) as [->|]; [cbn in *; lia|apply P3; unfold k in *; lia].
      * intros x Hx. destruct (P4 x Hx) as [Hc Hx']. rewrite Hcls by done. destruct (new x) eqn:En.
        -- split; [lia|]. rewrite Hset by lia. rewrite Z.eqb_refl. by apply Hnew.
        -- split; [unfold k; lia|]. rewrite Hset by (unfold k; lia). destruct (Z.eqb_spec (cls p x) k); [unfold k in *; lia|].
           destruct (Z.eqb_spec (cls p x) i) as [Ei|]; [|done]. apply Hini in Ei; [|done]. apply Hcover in Ei as [Ei|]; [|done]. apply Hnew in Ei; [congruence|done].
      * intros j q Hj Hq. rewrite Hset in Hq by lia. assert (Hqn : 0 <= q < n).
        { destruct (Z.eqb_spec j k); [unfold in_set in Hq; lia|]. destruct (Z.eqb_spec j i) as [->|]; [unfold in_set in Hq; lia|].
          eapply set_in_bounds; [done| |done]. unfold partition_size. fold k. lia. }
        destruct (P2 q Hqn) as [He1 He2]. rewrite Hcls by done. destruct (Z.eqb_spec j k) as [->|Hjk].
        -- replace (new (elt p q)) with true; [done|]. symmetry. apply Hnew; [done|]. by rewrite He2.
        -- assert (Hjs : 0 <= j < vsize (m_sets p)) by (fold k; lia). destruct (Z.eqb_spec j i) as [->|Hji].
           ++ replace (new (elt p q)) with false; [apply P5; [done|]; by apply Hsub1|]. symmetry. apply not_true_iff_false. rewrite Hnew by done. rewrite He2.
              intros Hq2. by apply Hsub in Hq2 as [_ ?].
           ++ pose proof (P5 j q Hjs Hq) as Hc. destruct (new (elt p q)) eqn:En; [|done]. apply Hnewi in En; [congruence|done].
      * intros j Hj. rewrite Hset, Hrest by lia. destruct (Z.eqb_spec j k) as [->|Hjk].
        -- unfold s2. split; [intros [_ Hk%P7]; unfold k in *; lia|destruct nm; cbn; lia].
        -- destruct (Z.eqb_spec j i) as [->|Hji]; [cbn; intuition lia|]. rewrite P6 by (unfold k in *; lia). tauto.
      * intros j [_ Hj]%Hrest. apply P7 in Hj. unfold k. lia.
    + constructor; cbn [m_elementToSetMap]; try done.
      * intros x y Hx Hy Cx Cy. pose proof (Hini x Hx Cx) as Ix. pose proof (Hini y Hy Cy) as Iy.
        assert (Hm : forall z, 0 <= z < n -> cls p z = i -> in_set s (pos p z) -> new z = true <-> (is_marked p z <-> nm = true)).
        { intros z Hz Cz Iz. rewrite Hnew by done. unfold is_marked. rewrite Cz. fold s. unfold in_set, s2 in *. destruct nm; cbn; split; intros; intuition lia. }
        pose proof (Hm x Hx Cx Ix) as Mx. pose proof (Hm y Hy Cy Iy) as My. pose proof (is_markedb_spec p x) as Bx. pose proof (is_markedb_spec p y) as By.
        destruct (new x), (new y), (is_markedb p x), (is_markedb p y), nm; intuition congruence.
      * intros x Hx Cx. destruct (new x) eqn:En; [by apply Hnewi in En|]. unfold is_marked. cbn [m_elementToSetMap m_sets m_elementPositionInPartitionedNodes].
        rewrite Hcls by done. rewrite En. rewrite Hset by (pose proof (P4 x Hx) as [? _]; unfold partition_size in *; unfold k; lia).
        destruct (Z.eqb_spec (cls p x) k) as [E|]; [pose proof (P4 x Hx) as [? _]; unfold partition_size in *; unfold k in *; lia|]. by destruct (Z.eqb_spec (cls p x) i).
Qed.

(** ** Refining a generation *)

(** [p'] splits the sets of [p] by the marks; sets keep their index or get a
    new one. *)
Record refined (n : Z) (p p' : Partition) : Prop := {
  rf_split : forall x y, 0 <= x < n -> 0 <= y < n -> cls p' x = cls p' y <-> cls p x = cls p y /\ (is_marked p x <-> is_marked p y);
  rf_index : forall x, 0 <= x < n -> cls p' x = cls p x \/ partition_size p <= cls p' x;
  rf_size : partition_size p <= partition_size p'
}.

(** The state of the loop: the sets of [rest] are still to be split. *)
Record refining (n : Z) (p pj : Partition) (rest : list Z) : Prop := {
  rg_coarse : forall x y, 0 <= x < n -> 0 <= y < n -> cls pj x = cls pj y -> cls p x = cls p y;
  rg_index : forall x, 0 <= x < n -> cls pj x = cls p x \/ partition_size p <= cls pj x;
  rg_size : partition_size p <= partition_size pj;
  rg_rest : forall x, 0 <= x < n -> cls p x ∈ rest -> cls pj x = cls p x /\ (is_marked pj x <-> is_marked p x);
  rg_done : forall x y, 0 <= x < n -> 0 <= y < n -> cls p x = cls p y -> cls p x ∉ rest -> cls pj x = cls pj y <-> (is_marked p x <-> is_marked p y)
}.

Lemma refining_start n p marked : part_ok p n marked -> refining n p p marked.
Proof.
  intros Hp. constructor; try done; [auto|]. intros x y Hx Hy Hc Hn. split; [|done]. intros _.
  assert (Hu : forall z, 0 <= z < n -> cls p z = cls p x -> ~ is_marked p z). { intros z Hz Hcz Hm. apply (marked_set _ _ _ _ Hp Hz) in Hm. congruence. }
  pose proof (Hu x Hx eq_refl). pose proof (Hu y Hy (eq_sym Hc)). tauto.
Qed.

Lemma refining_step n p pj i rest p2 new :
  part_ok p n (m_setsMarkedInCurrentGeneration p) -> i < partition_size p -> i ∉ rest -> refining n p pj (i :: rest) ->
  split_by pj p2 n i (partition_size pj) new -> partition_size pj <= partition_size p2 -> (forall x, 0 <= x < n -> cls pj x < partition_size pj) ->
  refining n p p2 rest.
Proof.
  intros Hp Hi Hir [R1 R2 R3 R4 R5] [B1 B2 B3 B4] Hsz Hlt.
  assert (Hci : forall x, 0 <= x < n -> cls pj x = i <-> cls p x = i).
  { intros x Hx. split; [destruct (R2 x Hx); lia|]. intros Hc. destruct (R4 x Hx) as [H1 _]; [rewrite Hc; left|]. congruence. }
  constructor; [| |lia| |].
  - intros x y Hx Hy Hc. rewrite (B1 x Hx), (B1 y Hy) in Hc. pose proof (Hlt x Hx). pose proof (Hlt y Hy).
    destruct (new x) eqn:Nx, (new y) eqn:Ny; try lia; [|by apply R1]. apply B2 in Nx, Ny; try done. rewrite Hci in Nx, Ny by done. congruence.
  - intros x Hx. rewrite (B1 x Hx). destruct (new x); [right; lia|auto].
  - intros x Hx Hc. assert (Hne : cls p x <> i) by congruence. destruct (R4 x Hx) as [H1 H2]; [by right|]. rewrite (B1 x Hx).
    destruct (new x) eqn:Nx; [apply B2 in Nx; [|done]; rewrite Hci in Nx by done; done|]. split; [done|]. rewrite (B4 x Hx); [done|]. by rewrite Hci.
  - intros x y Hx Hy Hc Hn. rewrite (B1 x Hx), (B1 y Hy). destruct (Z.eq_dec (cls p x) i) as [Ei|Ei].
    + assert (Cx : cls pj x = i) by (by apply Hci). assert (Cy : cls pj y = i) by (apply Hci; [done|congruence]).
      destruct (R4 x Hx) as [_ Mx]; [rewrite Ei; left|]. destruct (R4 y Hy) as [_ My]; [rewrite <- Hc, Ei; left|].
      pose proof (B3 x y Hx Hy Cx Cy) as Hb. rewrite Mx, My in Hb. rewrite <- Hb, Cx, Cy. pose proof (Hlt x Hx). destruct (new x), (new y); intuition (try lia; try congruence).
    + rewrite <- (R5 x y Hx Hy Hc) by (intros [?|?]%elem_of_cons; done).
      destruct (new x) eqn:Nx; [apply B2 in Nx; [|done]; rewrite Hci in Nx by done; done|].
      destruct (new y) eqn:Ny; [apply B2 in Ny; [|done]; rewrite Hci in Ny by done; congruence|]. done.
Qed.

Lemma refining_end n p p' : refining n p p' [] -> refined n p p'.
Proof.
  intros [R1 R2 R3 R4 R5]. constructor; [|done|done]. intros x y Hx Hy. split.
  - intros Hc. pose proof (R1 x y Hx Hy Hc) as Hc'. split; [done|]. apply (R5 x y Hx Hy Hc'); [apply not_elem_of_nil|done].
  - intros [Hc Hm]. apply (R5 x y Hx Hy Hc); [apply not_elem_of_nil|done].
Qed.

Lemma refining_clear n p pj p2 rest :
  m_sets p2 = m_sets pj -> m_elementPositionInPartitionedNodes p2 = m_elementPositionInPartitionedNodes pj -> m_elementToSetMap p2 = m_elementToSetMap pj ->
  refining n p pj rest -> refining n p p2 rest.
Proof. intros H1 H2 H3 [R1 R2 R3 R4 R5]. constructor; unfold is_marked, partition_size in *; rewrite ?H1, ?H2, ?H3; done. Qed.

Section RefineGeneration.
Context {S : Type} (function : Partition -> S -> Z -> outcome S) (n : Z) (J : Partition -> S -> Prop).
(** The function keeps [J] when a set is split. *)
Context (Hsplit : forall p1 p2 i new s1 rest, part_ok p2 n rest -> split_by p1 p2 n i (partition_size p1) new -> partition_size p2 = partition_size p1 + 1 ->
  (forall x, 0 <= x < n -> cls p1 x < partition_size p1) -> J p1 s1 -> exists s2, function p2 s1 (partition_size p1) = Done s2 /\ J p2 s2).
Context (Hsame : forall p1 p2 s1, (forall x, 0 <= x < n -> cls p2 x = cls p1 x) -> partition_size p2 = partition_size p1 -> J p1 s1 -> J p2 s1).

Lemma refineGeneration_spec p s : part_ok p n (m_setsMarkedInCurrentGeneration p) -> J p s ->
  exists p' s', refineGeneration function p s = Done (p', s') /\ part_ok p' n [] /\ m_setsMarkedInCurrentGeneration p' = [] /\ J p' s' /\ refined n p p'.
Proof.
  intros Hp HJ.
  assert (Hloop : forall rest pj sj, part_ok pj n rest -> refining n p pj rest -> J pj sj -> (forall i, i ∈ rest -> i < partition_size p) ->
    exists p' s', ofold (fun '(p, s) setIndex => let* (p', newSet) := refine_set p setIndex in
      match newSet with None => Done (p', s) | Some newSetIndex => let* s' := function p' s newSetIndex in Done (p', s') end) (pj, sj) rest = Done (p', s') /\
      part_ok p' n [] /\ refining n p p' [] /\ J p' s').
  { induction rest as [|i rest IH]; intros pj sj Hpj Hr Hj Hb; [by exists pj, sj|]. cbn [ofold].
    destruct (refine_set_spec pj n i rest Hpj) as (p2 & o & new & E & Hp2 & Hs & _ & Ho). rewrite E. cbn [obind].
    assert (Hlt : forall x, 0 <= x < n -> cls pj x < partition_size pj) by (intros x Hx; apply (po_cls _ _ _ Hpj x Hx)).
    assert (Hr2 : refining n p p2 rest).
    { eapply refining_step; eauto; [apply Hb; left|by apply NoDup_cons in Hpj as [? _] || (pose proof (po_nodup _ _ _ Hpj) as Hnd; by apply NoDup_cons in Hnd as [? _])|].
      destruct o; lia. }
    assert (Hb' : forall i, i ∈ rest -> i < partition_size p) by (intros j Hj'; apply Hb; by right).
    destruct o as [k|].
    - destruct Ho as [-> Hsz]. destruct (Hsplit pj p2 i new sj rest Hp2 Hs Hsz Hlt Hj) as (s2 & E2 & Hj2). rewrite E2. cbn [obind]. by apply IH.
    - destruct Ho as [Hsz Hnew]. cbn [obind]. apply IH; try done. apply (Hsame pj p2); try done. intros x Hx. rewrite (sb_class _ _ _ _ _ _ Hs x Hx). by rewrite Hnew. }
  unfold refineGeneration. destruct (Hloop (m_setsMarkedInCurrentGeneration p) p s) as (p' & s' & E & Hp' & Hr & Hj); try done.
  - by apply refining_start.
  - intros i Hi. by apply (po_bound _ _ _ Hp).
  - rewrite E. cbn [obind]. eexists _, s'. split; [done|]. split_and!; try done.
    + destruct Hp' as [L1 L2 L3 P1 P2 P3 P4 P5 P6 P7 P8]. by constructor.
    + by apply (Hsame p' _ s').
    + apply refining_end. eapply refining_clear; [..|exact Hr]; done.
Qed.
End RefineGeneration.

(** Refining with a function that does nothing. *)
Lemma refine_only_spec n p : part_ok p n (m_setsMarkedInCurrentGeneration p) ->
  exists p', refineGeneration (fun _ (s : unit) _ => Done s) p tt = Done (p', tt) /\ part_ok p' n [] /\ m_setsMarkedInCurrentGeneration p' = [] /\ refined n p p'.
Proof.
  intros Hp. destruct (refineGeneration_spec (fun _ (s : unit) _ => Done s) n (fun _ _ => True)) with (p := p) (s := tt) as (p' & [] & E & H1 & H2 & _ & H3); try done.
  - intros. by exists s1.
  - by exists p'.
Qed.

(** Marking a list of distinct unmarked elements. *)
Lemma mark_all_spec n l : forall p, part_ok p n (m_setsMarkedInCurrentGeneration p) -> NoDup l -> (forall x, x ∈ l -> 0 <= x < n /\ ~ is_marked p x) ->
  exists p', ofold markElementInCurrentGeneration p l = Done p' /\ part_ok p' n (m_setsMarkedInCurrentGeneration p') /\
    partition_size p' = partition_size p /\ m_elementToSetMap p' = m_elementToSetMap p /\
    forall x, 0 <= x < n -> is_marked p' x <-> is_marked p x \/ x ∈ l.
Proof.
  induction l as [|e l IH]; intros p Hp Hnd Hl.
  { exists p. split_and!; try done. intros x Hx. rewrite elem_of_nil. tauto. }
  apply NoDup_cons in Hnd as [Hel Hnd]. destruct (Hl e) as [He Hm]; [left|]. cbn [ofold].
  destruct (mark_spec p n _ e Hp He Hm eq_refl) as (p1 & marked1 & -> & Hp1 & <- & Hs1 & Hc1 & Hm1). cbn [obind].
  destruct (IH p1 Hp1 Hnd) as (p2 & E & Hp2 & Hs2 & Hc2 & Hm2).
  - intros x Hx. destruct (Hl x) as [Hx1 Hx2]; [by right|]. split; [done|]. rewrite Hm1 by done. intros [?| ->]; done.
  - exists p2. split_and!; try done; try congruence. intros x Hx. rewrite Hm2, Hm1, elem_of_cons by done. tauto.
Qed.

(** ** The initial partition *)

Lemma initialize_ok n : 0 <= n -> part_ok (initialize n) n [] /\ m_setsMarkedInCurrentGeneration (initialize n) = [] /\
  (forall x, 0 <= x < n -> cls (initialize n) x = 0) /\ partition_size (initialize n) = if n =? 0 then 0 else 1.
Proof.
  intros Hn. unfold initialize. destruct (Z.eqb_spec n 0) as [->|Hne].
  { split; [|split; [done|split; [lia|done]]]. constructor; unfold partition_size, vsize; cbn; try done; try lia.
    - by intros ? ?%elem_of_nil.
    - constructor. }
  assert (Hseq : forall x, 0 <= x < n -> zat (seqZ 0 n) x = x). { intros x Hx. apply list_lookup_total_correct. rewrite lookup_seqZ_lt; [f_equal; lia|lia]. }
  assert (Hrep : forall x, 0 <= x < n -> zat (replicate (Z.to_nat n) 0) x = 0). { intros x Hx. apply lookup_total_replicate_2. lia. }
  split_and!; try done. constructor; cbn [m_partitionedElements m_elementPositionInPartitionedNodes m_elementToSetMap]; unfold partition_size; cbn [m_sets];
    change (vsize [mkSetDescriptor 0 n 0]) with 1.
  - unfold vsize. rewrite length_seqZ. lia.
  - unfold vsize. rewrite length_seqZ. lia.
  - unfold vsize. rewrite length_replicate. lia.
  - intros x Hx. rewrite (Hseq x Hx), (Hseq x Hx). lia.
  - intros x Hx. rewrite (Hseq x Hx), (Hseq x Hx). lia.
  - intros i Hi. assert (i = 0) as -> by lia. change ([mkSetDescriptor 0 n 0] !!! Z.to_nat 0) with (mkSetDescriptor 0 n 0). cbn [sd_start sd_size sd_markedCount]. lia.
  - intros x Hx. rewrite Hrep, Hseq by done. split; [lia|]. change (in_set (mkSetDescriptor 0 n 0) x). unfold in_set. cbn [sd_start sd_size]. lia.
  - intros i q Hi Hq. assert (i = 0) as -> by lia. change (in_set (mkSetDescriptor 0 n 0) q) in Hq. unfold in_set in Hq. cbn [sd_start sd_size] in Hq. rewrite Hseq, Hrep by (rewrite ?Hseq; lia). done.
  - intros i Hi. assert (i = 0) as -> by lia. change (0 ∈ [] <-> 0 < 0). rewrite elem_of_nil. lia.
  - by intros ? ?%elem_of_nil.
  - constructor.
Qed.
