(* ===== verification/SingularRanges.v ===== *)
(** * Range lists with mapped data, and the singular ranges of a DFA

    Every operation of a range list commutes with a map of the data that the
    converters respect: running on richer data and then forgetting is the same
    as running on the plain data. *)

From S2P Require Import Prelude Containers RangeList RangeListProofs Dfa DfaMerger DfaMinimizer.

Definition omap_done {A B} (f : A -> B) (m : outcome A) : outcome B := let* a := m in Done (f a).

Lemma vget_map {A B} (f : A -> B) v i : vget (map f v) i = omap_done f (vget v i).
Proof.
  unfold vget. destruct (i <? 0); [done|]. change (map f v) with (f <$> v). rewrite list_lookup_fmap. by destruct (v !! Z.to_nat i).
Qed.

Lemma vset_map {A B} (f : A -> B) v i x : vset (map f v) i (f x) = omap_done (map f) (vset v i x).
Proof.
  unfold vset. replace (vsize (map f v)) with (vsize v) by (unfold vsize; by rewrite length_map).
  destruct (_ && _); [|done]. cbn [omap_done obind]. f_equal. symmetry. apply (list_fmap_insert f).
Qed.

Lemma vsize_map {A B} (f : A -> B) v : vsize (map f v) = vsize v.
Proof. unfold vsize. by rewrite length_map. Qed.

(** ** The data of a list is mapped *)

Section Map.
Context {D D' E E' : Type} (h : D' -> D) (g : E' -> E).
Context (converter : DataConverter D E) (converter' : DataConverter D' E').
Context (Hconvert : forall e, dc_convert converter (g e) = omap_done h (dc_convert converter' e)).
Context (Hextend : forall d e, dc_extend converter (h d) (g e) = omap_done h (dc_extend converter' d e)).

Definition map_range (r : MutableRange D') : MutableRange D := mkMutableRange (h (mr_data r)) (mr_nextRangeIndex r) (mr_first r) (mr_last r).
Definition map_other (o : OtherRange E') : OtherRange E := mkOtherRange (or_first o) (or_last o) (g (or_data o)).

Abbreviation mapv := (map map_range).

Definition map_state (x : extend_state (D := D') (E := E')) : extend_state (D := D) (E := E) :=
  mkExtendState (mapv (x_ranges x)) (x_reachedSelfEnd x) (x_lastSelfRangeIndex x) (x_selfRangeIndex x) (map map_other (x_other x)) (x_otherRangeOffset x).

Lemma map_set_next r n : map_range (set_nextRangeIndex r n) = set_nextRangeIndex (map_range r) n.
Proof. done. Qed.
Lemma map_set_first r n : map_range (set_first r n) = set_first (map_range r) n.
Proof. done. Qed.
Lemma map_set_data r d : map_range (set_data r d) = set_data (map_range r) (h d).
Proof. done. Qed.

Lemma appendRange_map v i f l d :
  appendRange (mapv v) i f l (h d) = omap_done (fun '(v, k) => (mapv v, k)) (appendRange v i f l d).
Proof.
  unfold appendRange. rewrite vsize_map. change (mapv v ++ [mkMutableRange (h d) 0 f l]) with (mapv v ++ map map_range [mkMutableRange d 0 f l]).
  rewrite <- map_app. destruct (vsize v =? 0); [done|]. rewrite vget_map. destruct (vget (v ++ _) i) as [r| |]; try done. cbn [omap_done obind].
  rewrite <- map_set_next, vset_map. by destruct (vset _ i _).
Qed.

Lemma insertBetween_map v i j f l d :
  insertBetween (mapv v) i j f l (h d) = omap_done (fun '(v, a, b) => (mapv v, a, b)) (insertBetween v i j f l d).
Proof.
  unfold insertBetween. rewrite vsize_map. destruct (j =? 0).
  - rewrite vget_map. destruct (vget v 0) as [r| |]; try done. cbn [omap_done obind].
    change (mapv v ++ [map_range r]) with (mapv v ++ map map_range [r]). rewrite <- map_app.
    change (mkMutableRange (h d) (vsize v) f l) with (map_range (mkMutableRange d (vsize v) f l)). rewrite vset_map. by destruct (vset _ 0 _).
  - change (mapv v ++ [mkMutableRange (h d) j f l]) with (mapv v ++ map map_range [mkMutableRange d j f l]). rewrite <- map_app, vget_map.
    destruct (vget (v ++ _) i) as [r| |]; try done. cbn [omap_done obind]. rewrite <- map_set_next, vset_map. by destruct (vset _ i _).
Qed.

Lemma initialize_loop_map os : forall v k,
  initialize_loop converter (mapv v) k (map map_other os) = omap_done mapv (initialize_loop converter' v k os).
Proof.
  induction os as [|o os IH]; intros v k; [done|]. cbn [initialize_loop map map_other or_data or_first or_last]. rewrite Hconvert.
  destruct (dc_convert converter' (or_data o)) as [d| |]; try done. cbn [omap_done obind].
  change (mapv v ++ [mkMutableRange (h d) (k + 1) (or_first o) (or_last o)]) with (mapv v ++ map map_range [mkMutableRange d (k + 1) (or_first o) (or_last o)]).
  by rewrite <- map_app, IH.
Qed.

Lemma initializeFrom_map v os : initializeFrom converter (mapv v) (map map_other os) = omap_done mapv (initializeFrom converter' v os).
Proof.
  unfold initializeFrom. rewrite initialize_loop_map. destruct (initialize_loop converter' v 0 os) as [v'| |]; try done. cbn [omap_done obind].
  change (map map_range v') with (map_range <$> v'). rewrite fmap_last. destruct (last v') as [r|]; [|done]. cbn [fmap option_fmap option_map].
  change (map_range <$> v') with (mapv v'). rewrite vsize_map, <- map_set_next. apply vset_map.
Qed.

Lemma split_left_map v i j o offset :
  split_left converter (mapv v) i j (map_other o) offset = omap_done (fun '(v, a, b, c) => (mapv v, a, b, c)) (split_left converter' v i j o offset).
Proof.
  unfold split_left. rewrite vget_map. destruct (vget v j) as [r| |]; try done. cbn [omap_done obind map_other or_first or_last or_data].
  change (mr_first (map_range r)) with (mr_first r). destruct (mr_first r <? or_first o + offset).
  - rewrite <- map_set_first, vset_map. destruct (vset v j _) as [v1| |]; try done. cbn [omap_done obind].
    change (mr_data (map_range r)) with (h (mr_data r)). rewrite insertBetween_map. by destruct (insertBetween v1 _ _ _ _ _) as [[[? ?] ?]| |].
  - destruct (or_first o + offset <? mr_first r); [|done]. rewrite Hconvert. destruct (dc_convert converter' (or_data o)) as [d| |]; try done. cbn [omap_done obind].
    rewrite insertBetween_map. destruct (insertBetween v _ _ _ _ _) as [[[v1 a] b]| |]; try done. cbn [omap_done obind]. rewrite vget_map. by destruct (vget v1 b).
Qed.

Lemma merge_active_map v i j o os offset :
  merge_active converter (mapv v) i j (map_other o) (map map_other os) offset = omap_done map_state (merge_active converter' v i j o os offset).
Proof.
  unfold merge_active. rewrite vget_map. destruct (vget v j) as [r| |]; try done. cbn [omap_done obind map_other or_first or_last or_data].
  change (mr_last (map_range r)) with (mr_last r). change (mr_first (map_range r)) with (mr_first r). change (mr_nextRangeIndex (map_range r)) with (mr_nextRangeIndex r).
  change (mr_data (map_range r)) with (h (mr_data r)). rewrite Hextend, <- map_set_first, vset_map.
  destruct (mr_last r =? or_last o), (or_last o <? mr_last r).
  1,2,4: destruct (dc_extend converter' _ _) as [d| |]; try done; cbn [omap_done obind]; rewrite <- map_set_data, vset_map; by destruct (vset v j _).
  destruct (vset v j _) as [v1| |]; try done. cbn [omap_done obind]. destruct (dc_extend converter' _ _) as [d| |]; try done. cbn [omap_done obind].
  rewrite insertBetween_map. by destruct (insertBetween v1 _ _ _ _ _) as [[[? ?] ?]| |].
Qed.

Lemma extend_step_map x : extend_step converter (map_state x) = omap_done map_state (extend_step converter' x).
Proof.
  unfold extend_step. cbn [map_state x_ranges x_reachedSelfEnd x_lastSelfRangeIndex x_selfRangeIndex x_other x_otherRangeOffset].
  destruct (x_other x) as [|o os]; [done|]. cbn [map]. rewrite vget_map. destruct (vget (x_ranges x) (x_selfRangeIndex x)) as [r| |]; try done.
  cbn [omap_done obind]. change (mr_last (map_range r)) with (mr_last r). change (mr_first (map_range r)) with (mr_first r).
  change (mr_nextRangeIndex (map_range r)) with (mr_nextRangeIndex r). change (or_first (map_other o)) with (or_first o). change (or_last (map_other o)) with (or_last o).
  destruct (mr_last r <? or_first o + x_otherRangeOffset x); [done|]. destruct (or_last o <? mr_first r).
  - change (or_data (map_other o)) with (g (or_data o)). rewrite Hconvert. destruct (dc_convert converter' _) as [d| |]; try done. cbn [omap_done obind].
    rewrite insertBetween_map. by destruct (insertBetween _ _ _ _ _ _) as [[[? ?] ?]| |].
  - rewrite split_left_map. destruct (split_left converter' _ _ _ _ _) as [[[[v1 a] b] c]| |]; try done. cbn [omap_done obind]. apply merge_active_map.
Qed.

Lemma extend_loop_map fuel : forall x, extend_loop converter fuel (map_state x) = omap_done map_state (extend_loop converter' fuel x).
Proof.
  induction fuel as [|fuel IH]; intros x; [done|]. cbn [extend_loop]. rewrite extend_step_map. destruct (extend_step converter' x) as [x1| |]; try done.
  cbn [omap_done obind]. change (x_reachedSelfEnd (map_state x1)) with (x_reachedSelfEnd x1). change (x_other (map_state x1)) with (map map_other (x_other x1)).
  replace (match map map_other (x_other x1) with [] => true | _ => false end) with (match x_other x1 with [] => true | _ => false end) by (by destruct (x_other x1)).
  destruct (_ && _); [apply IH|done].
Qed.

Lemma append_rest_map os : forall v i offset,
  append_rest converter (mapv v) i (map map_other os) offset = omap_done mapv (append_rest converter' v i os offset).
Proof.
  induction os as [|o os IH]; intros v i offset; [done|]. cbn [append_rest map]. change (or_data (map_other o)) with (g (or_data o)). rewrite Hconvert.
  destruct (dc_convert converter' _) as [d| |]; try done. cbn [omap_done obind]. rewrite appendRange_map.
  change (or_first (map_other o)) with (or_first o). change (or_last (map_other o)) with (or_last o).
  destruct (appendRange v _ _ _ _) as [[v1 l]| |]; try done. cbn [omap_done obind]. apply IH.
Qed.

(** Extending the mapped lists is mapping the extended list. *)
Lemma extend_map v os : extend converter (mapv v) (map map_other os) = omap_done mapv (extend converter' v os).
Proof.
  unfold extend. destruct os as [|o os]; [done|]. destruct v as [|r v]; [apply (initializeFrom_map [])|].
  set (w := r :: v). set (us := o :: os). change (map map_other (o :: os)) with (map map_other us). change (mapv (r :: v)) with (mapv w).
  change (match map map_other us with [] => Done (mapv w) | _ => match mapv w with [] => initializeFrom converter (mapv w) (map map_other us) | _ => let* x := extend_loop converter (length (mapv w) + length (map map_other us)) (mkExtendState (mapv w) false 0 0 (map map_other us) 0) in append_rest converter (x_ranges x) (x_lastSelfRangeIndex x) (x_other x) (x_otherRangeOffset x) end end)
    with (let* x := extend_loop converter (length (mapv w) + length (map map_other us)) (map_state (mkExtendState w false 0 0 us 0)) in append_rest converter (x_ranges x) (x_lastSelfRangeIndex x) (x_other x) (x_otherRangeOffset x)).
  rewrite !length_map, extend_loop_map. destruct (extend_loop converter' _ _) as [x| |]; try done. cbn [omap_done obind]. apply append_rest_map.
Qed.

Lemma iterate_from_map fuel : forall v i, iterate_from fuel (mapv v) i = omap_done mapv (iterate_from fuel v i).
Proof.
  induction fuel as [|fuel IH]; intros v i; [done|]. cbn [iterate_from]. rewrite vget_map. destruct (vget v i) as [r| |]; try done. cbn [omap_done obind].
  change (mr_nextRangeIndex (map_range r)) with (mr_nextRangeIndex r). destruct (mr_nextRangeIndex r =? 0); [done|]. rewrite IH. by destruct (iterate_from fuel v _).
Qed.

Lemma iterate_map v : iterate (mapv v) = omap_done mapv (iterate v).
Proof. unfold iterate. destruct v as [|r v]; [done|]. change (map map_range (r :: v)) with (mapv (r :: v)) at 1. rewrite length_map. apply iterate_from_map. Qed.
End Map.

(** ** The singular ranges of a DFA

    The minimizer cuts the alphabet at the ends of all transitions.  Every
    transition is then a union of singular ranges, and the data of a singular
    range counts the transitions that contain it. *)

#[local] Arguments vsize {A} v : simpl never.

(** ** The transition of a character *)

Definition trans_at (ts : list DFATransition) (c : Z) : option DFATransition := List.find (fun t => covers t c) ts.

Lemma trans_at_target ts c : trans_target ts c = tr_target <$> trans_at ts c.
Proof. induction ts as [|t ts IH]; [done|]. cbn. by destruct (covers t c). Qed.

Lemma trans_at_Some ts c t : trans_at ts c = Some t -> t ∈ ts /\ covers t c = true.
Proof. intros [Ht Hc]%List.find_some. split; [by apply list_elem_of_In|done]. Qed.

Lemma trans_at_intro lo ts c t : sorted_from lo ts -> t ∈ ts -> covers t c = true -> trans_at ts c = Some t.
Proof.
  intros Hs. induction Hs as [|lo t' ts ? ? ? Hs IH]; intros Ht Hc; [by apply elem_of_nil in Ht|].
  cbn. apply elem_of_cons in Ht as [->|Ht]; [by rewrite Hc|].
  pose proof (sorted_from_covers _ _ _ _ Hs Ht Hc). destruct (covers t' c) eqn:E; [|auto]. unfold covers in E. zprop. lia.
Qed.

Lemma trans_at_None lo ts c : sorted_from lo ts -> c < lo -> trans_at ts c = None.
Proof.
  intros Hs Hc. destruct (trans_at ts c) as [t|] eqn:E; [|done]. apply trans_at_Some in E as [Ht Hv].
  pose proof (sorted_from_covers _ _ _ _ Hs Ht Hv). lia.
Qed.

Lemma sorted_first lo ts t : sorted_from lo ts -> t ∈ ts -> lo <= tr_first t <= tr_last t /\ tr_last t < 128.
Proof.
  induction 1 as [|lo t' ts ? ? ? Hs IH]; intros Ht; [by apply elem_of_nil in Ht|]. apply elem_of_cons in Ht as [->|Ht]; [lia|]. specialize (IH Ht). lia.
Qed.

(** ** Ranges with the transitions they come from *)

(** A transition with its source. *)
Abbreviation tag := (Z * DFATransition)%type.

Definition TagConverter : DataConverter (list tag) tag := mkDataConverter (fun e => Done [e]) (fun d e => Done (d ++ [e])).
Definition tag_count (d : list tag) : Z := u32 (vsize d).
Definition tag_target (e : tag) : Z := tr_target (snd e).
Definition tag_range (i : Z) (t : DFATransition) : OtherRange tag := mkOtherRange (tr_first t) (tr_last t) (i, t).

Lemma counter_convert e : dc_convert CounterConverter (tag_target e) = omap_done tag_count (dc_convert TagConverter e).
Proof. done. Qed.

Lemma counter_extend d e : dc_extend CounterConverter (tag_count d) (tag_target e) = omap_done tag_count (dc_extend TagConverter d e).
Proof. cbn. f_equal. unfold tag_count. by rewrite u32_u32_add, vsize_app. Qed.

Lemma tag_ranges_sorted i lo ts : sorted_from lo ts -> ranges_sorted lo (map (tag_range i) ts).
Proof. induction 1 as [|lo t ts H1 H2 H3 Hs IH]; cbn; [done|]. split_and!; auto. Qed.

Lemma tag_ranges_lookup i ts c : ranges_lookup (map (tag_range i) ts) c = (fun t => (i, t)) <$> trans_at ts c.
Proof.
  induction ts as [|t ts IH]; [done|]. cbn. change (range_covers (tag_range i t) c) with (covers t c). rewrite IH. by destruct (covers t c).
Qed.

Section Singular.
Context (ts : Z -> list DFATransition).

(** The transitions of the first [j] nodes at a character. *)
Definition tags_at (nodes : list Z) (c : Z) : list tag := omap (fun i => (fun t => (i, t)) <$> trans_at (ts i) c) nodes.

Definition some_tags (l : list tag) : option (list tag) := match l with [] => None | _ => Some l end.

Lemma some_tags_app nodes i c :
  some_tags (tags_at (nodes ++ [i]) c) =
    merged (fun e => [e]) (fun d e => d ++ [e]) (some_tags (tags_at nodes c)) (ranges_lookup (map (tag_range i) (ts i)) c).
Proof.
  rewrite tag_ranges_lookup. unfold tags_at. rewrite omap_app. cbn. destruct (trans_at (ts i) c) as [t|]; cbn; [|by rewrite app_nil_r].
  by destruct (omap _ nodes).
Qed.

(** Collecting the ranges of the nodes with their tags. *)
Lemma tagged_ranges nodes : (forall i, i ∈ nodes -> sorted_from 0 (ts i)) ->
  exists v l, ofold (fun v i => extend TagConverter v (map (tag_range i) (ts i))) [] nodes = Done v /\ represents v l /\ ranges_sorted 0 l /\
    forall c, 0 <= c < 128 -> ranges_lookup l c = some_tags (tags_at nodes c).
Proof.
  induction nodes as [|i nodes IH] using rev_ind; intros Hs.
  { exists [], []. split_and!; try done. apply represents_nil. }
  destruct IH as (v & l & E & Hr & Hl & Hv); [intros j Hj; apply Hs, elem_of_app; by left|].
  destruct (extend_spec TagConverter (fun e => [e]) (fun d e => d ++ [e]) (ranges_lookup l) (map (tag_range i) (ts i))) with (v := v) (l := l)
    as (v' & l' & E' & Hr' & Hl' & Hm); try done.
  { apply tag_ranges_sorted, Hs, elem_of_app. right. left. }
  exists v', l'. split_and!; try done.
  - rewrite ofold_app, E. cbn [obind ofold]. by rewrite E'.
  - intros c Hc. by rewrite Hm, Hv, some_tags_app.
Qed.

(** ** Where the transitions of a node meet the singular ranges *)

(** The range [r] is inside or outside of every transition of a node. *)
Definition aligned {D} (us : list DFATransition) (l : list (OtherRange D)) : Prop :=
  (forall t c, t ∈ us -> covers t c = true -> exists r, r ∈ l /\ range_covers r c = true) /\
  (forall r c c', r ∈ l -> range_covers r c = true -> range_covers r c' = true -> trans_at us c = trans_at us c').

(** What the intersections should be: the labels of the ranges inside of a
    transition, with the transition. *)
Fixpoint labelled {D} (us : list DFATransition) (index : Z) (l : list (OtherRange D)) : list (Z * DFATransition) :=
  match l with
  | [] => []
  | r :: l' => (match trans_at us (or_first r) with Some t => [(index, t)] | None => [] end) ++ labelled us (index + 1) l'
  end.
End Singular.

Section Intersections.
Context {D : Type}.
Implicit Types (l A B C : list (OtherRange D)) (us : list DFATransition).

Lemma labelled_app us index A B : labelled us index (A ++ B) = labelled us index A ++ labelled us (index + vsize A) B.
Proof.
  revert index. induction A as [|r A IH]; intros index; cbn [labelled app].
  - change (vsize []) with 0. by rewrite Z.add_0_r.
  - rewrite IH, <- app_assoc, vsize_cons. by replace (index + (vsize A + 1)) with (index + 1 + vsize A) by lia.
Qed.

Lemma labelled_none us index A : (forall r, r ∈ A -> trans_at us (or_first r) = None) -> labelled us index A = [].
Proof.
  revert index. induction A as [|r A IH]; intros index HA; [done|]. cbn [labelled]. rewrite HA by left. apply IH. intros r' Hr. apply HA. by right.
Qed.

Lemma labelled_all us index A t : (forall r, r ∈ A -> trans_at us (or_first r) = Some t) ->
  labelled us index A = map (fun k => (k, t)) (seqZ index (vsize A)).
Proof.
  revert index. induction A as [|r A IH]; intros index HA; [done|]. cbn [labelled]. rewrite HA by left. rewrite IH by (intros r' Hr; apply HA; by right).
  rewrite vsize_cons, (seqZ_cons index) by (pose proof (vsize_nonneg A); lia). cbn [app map].
  replace (Z.succ index) with (index + 1) by lia. by replace (Z.pred (vsize A + 1)) with (vsize A) by lia.
Qed.

Lemma labelled_ext us us' index A : (forall r, r ∈ A -> trans_at us (or_first r) = trans_at us' (or_first r)) -> labelled us index A = labelled us' index A.
Proof.
  revert index. induction A as [|r A IH]; intros index HA; [done|]. cbn [labelled]. rewrite HA by left. f_equal. apply IH. intros r' Hr. apply HA. by right.
Qed.

Lemma skip_to_spec A r B index : (forall r', r' ∈ A -> or_first r' <> or_first r) ->
  skip_to (map or_first (A ++ r :: B)) index (or_first r) = (index + vsize A, map or_first (r :: B)).
Proof.
  revert index. induction A as [|a A IH]; intros index HA; cbn [app map skip_to].
  - rewrite Z.eqb_refl. change (vsize []) with 0. by rewrite Z.add_0_r.
  - destruct (Z.eqb_spec (or_first a) (or_first r)) as [E|_]; [by destruct (HA a ltac:(left))|].
    rewrite IH by (intros r' Hr; apply HA; by right). rewrite vsize_cons. f_equal. lia.
Qed.

Lemma span_to_spec B C index x : (forall r, r ∈ B -> or_first r <= x) -> (forall r, r ∈ C -> x < or_first r) ->
  span_to (map or_first (B ++ C)) index x = (seqZ index (vsize B), index + vsize B, map or_first C).
Proof.
  intros HB HC. revert index. induction B as [|b B IH]; intros index; cbn [app map].
  - change (vsize []) with 0. rewrite Z.add_0_r. destruct C as [|c C]; [done|]. cbn [map span_to]. specialize (HC c ltac:(left)).
    destruct (Z.leb_spec (or_first c) x); [lia|done].
  - cbn [span_to]. pose proof (HB b ltac:(left)) as Hb. destruct (Z.leb_spec (or_first b) x); [|lia].
    rewrite IH by (intros r Hr; apply HB; by right). rewrite vsize_cons, (seqZ_cons index) by (pose proof (vsize_nonneg B); lia).
    replace (Z.succ index) with (index + 1) by lia. replace (Z.pred (vsize B + 1)) with (vsize B) by lia. f_equal. f_equal. lia.
Qed.

(** Cutting a sorted list at a character. *)
Lemma ranges_cut lo l x : ranges_sorted lo l -> exists B C, l = B ++ C /\ (forall r, r ∈ B -> or_first r <= x) /\ (forall r, r ∈ C -> x < or_first r).
Proof.
  revert lo. induction l as [|r l IH]; intros lo Hs.
  { exists [], []. split_and!; [done|by intros ? ?%elem_of_nil..]. }
  destruct Hs as (H1 & H2 & H3). destruct (Z.le_gt_cases (or_first r) x) as [Hle|Hgt].
  - destruct (IH _ H3) as (B & C & -> & HB & HC). exists (r :: B), C. split_and!; [done| |done]. intros r' [->|Hr]%elem_of_cons; auto.
  - exists [], (r :: l). split_and!; [done|by intros ? ?%elem_of_nil|]. intros r' [->|Hr]%elem_of_cons; [lia|].
    destruct (ranges_elem_first _ _ _ H3 Hr) as [? _]. lia.
Qed.

(** A transition starts where a range starts. *)
Lemma aligned_first us l t : aligned us l -> sorted_from 0 us -> t ∈ us -> ranges_sorted 0 l -> exists r, r ∈ l /\ or_first r = tr_first t.
Proof.
  intros [H1 H2] Hs Ht Hl. destruct (sorted_first _ _ _ Hs Ht) as [Hb _]. assert (Hc : covers t (tr_first t) = true) by (unfold covers; ztest; lia).
  destruct (H1 t _ Ht Hc) as (r & Hr & Hrc). exists r. split; [done|]. destruct (ranges_elem_first _ _ _ Hl Hr) as [Hrb _].
  assert (Hf : range_covers r (or_first r) = true) by (unfold range_covers; ztest; lia).
  pose proof (H2 r _ _ Hr Hrc Hf) as E. rewrite (trans_at_intro _ _ _ _ Hs Ht Hc) in E. symmetry in E. apply trans_at_Some in E as [_ E].
  unfold covers, range_covers in *. zprop. lia.
Qed.

Lemma aligned_tail lo t us l B C : sorted_from lo (t :: us) -> ranges_sorted 0 l -> aligned (t :: us) l -> l = B ++ C ->
  (forall r, r ∈ B -> or_first r <= tr_last t) -> (forall r, r ∈ C -> tr_last t < or_first r) -> aligned us C.
Proof.
  intros Hs Hl [H1 H2] -> HB HC. inversion Hs as [|? ? ? Hlo Hfl H128 Hs']; subst.
  assert (Hcons : forall c, tr_last t < c -> trans_at (t :: us) c = trans_at us c).
  { intros c Hc. cbn. replace (covers t c) with false; [done|]. symmetry. unfold covers. ztest; lia. }
  split.
  - intros u c Hu Hc. pose proof (sorted_from_covers _ _ _ _ Hs' Hu Hc) as Hb. destruct (H1 u c ltac:(by right) Hc) as (r & Hr & Hrc).
    exists r. split; [|done]. apply elem_of_app in Hr as [Hr|Hr]; [|done]. exfalso. specialize (HB r Hr).
    assert (Hrl : r ∈ B ++ C) by (apply elem_of_app; by left). destruct (ranges_elem_first _ _ _ Hl Hrl) as [Hrb _].
    assert (Hlast : range_covers r (tr_last t) = true) by (unfold range_covers in *; zprop; ztest; lia).
    assert (Ht : trans_at (t :: us) (tr_last t) = Some t) by (cbn; replace (covers t (tr_last t)) with true; [done|symmetry; unfold covers; ztest; lia]).
    rewrite (H2 r _ _ Hrl Hlast Hrc), Hcons in Ht by lia. apply trans_at_Some in Ht as [_ Ht]. unfold covers in Ht. zprop. lia.
  - intros r c c' Hr Hc Hc'. assert (Hrl : r ∈ B ++ C) by (apply elem_of_app; by right). specialize (HC r Hr).
    rewrite <- !Hcons by (unfold range_covers in *; zprop; lia). by apply (H2 r).
Qed.

(** The intersections are the labelled ranges. *)
Lemma intersections_spec us : forall lo index l, sorted_from lo us -> 0 <= lo -> ranges_sorted 0 l -> aligned us l ->
  intersections (map or_first l) index us = labelled us index l.
Proof.
  induction us as [|t us IH]; intros lo index l Hs Hlo Hl Hal.
  { symmetry. cbn. by apply labelled_none. }
  assert (Hs0 : sorted_from 0 (t :: us)) by (eapply sorted_from_weaken; [done|lia]).
  inversion Hs as [|? ? ? Hlo' Hfl H128 Hs']; subst.
  destruct (aligned_first _ _ t Hal Hs0 ltac:(left) Hl) as (r0 & Hr0 & Ef). apply list_elem_of_split in Hr0 as (A & R & ->).
  pose proof Hl as [HA (Hr1 & Hr2 & HR)]%ranges_sorted_app. pose proof (ranges_end_ge 0 A HA) as He.
  destruct (ranges_cut _ R (tr_last t) HR) as (B & C & -> & HB & HC).
  assert (HA' : forall r, r ∈ A -> or_first r < tr_first t).
  { intros r Hr. apply list_elem_of_split in Hr as (A1 & A2 & ->). rewrite <- app_assoc in Hl. cbn [app] in Hl.
    apply ranges_sorted_app in Hl as [_ (Ha1 & _ & Ha2)]. apply ranges_sorted_app in Ha2 as [Ha2 (Ha3 & _)]. pose proof (ranges_end_ge _ _ Ha2). lia. }
  assert (Hin : forall r, r ∈ r0 :: B -> trans_at (t :: us) (or_first r) = Some t).
  { intros r Hr. cbn. replace (covers t (or_first r)) with true; [done|]. symmetry. unfold covers. apply elem_of_cons in Hr as [->|Hr]; [ztest; lia|].
    specialize (HB r Hr). destruct (ranges_elem_first _ (B ++ C) r HR) as [Hb _]; [apply elem_of_app; by left|]. ztest; lia. }
  assert (Hal' : aligned us C).
  { eapply (aligned_tail lo t us _ (A ++ r0 :: B) C Hs Hl Hal); [by rewrite <- app_assoc| |done].
    intros r [Hr|[->|Hr]%elem_of_cons]%elem_of_app; [specialize (HA' r Hr); lia|lia|auto]. }
  cbn [intersections]. rewrite <- Ef, skip_to_spec by (intros r' Hr'; specialize (HA' r' Hr'); lia). cbn [tail map].
  rewrite (span_to_spec B C) by done. cbn zeta beta.
  rewrite (IH (tr_last t + 1)); [|done|lia| |done].
  2:{ apply ranges_sorted_app in HR as [_ HC']. eapply ranges_sorted_weaken; [exact HC'|]. apply ranges_sorted_app in Hl as [_ (_ & _ & Hl)].
      apply ranges_sorted_app in Hl as [Hl _]. pose proof (ranges_end_ge _ _ Hl). lia. }
  rewrite labelled_app. rewrite (labelled_none (t :: us)).
  2:{ intros r Hr. specialize (HA' r Hr). cbn. replace (covers t (or_first r)) with false by (symmetry; unfold covers; ztest; lia).
      eapply trans_at_None; [exact Hs'|lia]. }
  change (r0 :: B ++ C) with ((r0 :: B) ++ C). rewrite labelled_app, (labelled_all _ _ (r0 :: B) t) by done. cbn [app].
  rewrite vsize_cons, (seqZ_cons (index + vsize A)) by (pose proof (vsize_nonneg B); lia). cbn [map app]. f_equal. f_equal.
  - f_equal. f_equal; lia.
  - rewrite (labelled_ext (t :: us) us) by (intros r Hr; specialize (HC r Hr); cbn; replace (covers t (or_first r)) with false; [done|symmetry; unfold covers; ztest; lia]).
    f_equal. lia.
Qed.
End Intersections.
