(* ===== verification/MinimizerGraph.v ===== *)
(** * Buckets, and the tables of the minimizer

    The minimizer places transitions twice with a counting sort: the place of
    the [j]-th element is the start of the bucket of its key plus the number of
    earlier elements with the same key.  These places are a permutation, and
    every bucket is an interval. *)

From S2P Require Import Prelude Containers RangeList RangeListProofs Dfa DfaMerger DfaMinimizer PartitionProofs SingularRanges.

#[local] Arguments vsize {A} v : simpl never.

(** ** Vectors given by a function *)

Definition tab {A} (n : Z) (f : Z -> A) : list A := map f (seqZ 0 n).

Lemma vsize_tab {A} n (f : Z -> A) : 0 <= n -> vsize (tab n f) = n.
Proof. intros Hn. unfold tab, vsize. rewrite length_map, length_seqZ. lia. Qed.

Lemma lookup_tab {A} n (f : Z -> A) i : 0 <= i < n -> tab n f !! Z.to_nat i = Some (f i).
Proof.
  intros Hi. unfold tab. change (map f (seqZ 0 n)) with (f <$> seqZ 0 n). rewrite list_lookup_fmap, lookup_seqZ_lt by lia.
  cbn. f_equal. f_equal. lia.
Qed.

Lemma vget_tab {A} n (f : Z -> A) i : 0 <= i < n -> vget (tab n f) i = Done (f i).
Proof. intros Hi. apply vget_Done. split; [lia|by apply lookup_tab]. Qed.

Lemma tab_ext {A} n (f g : Z -> A) : (forall i, 0 <= i < n -> f i = g i) -> tab n f = tab n g.
Proof. intros Hfg. apply map_ext_in. intros i Hi%list_elem_of_In. apply elem_of_seqZ in Hi. apply Hfg. lia. Qed.

Lemma vset_tab {A} n (f : Z -> A) i x : 0 <= i < n -> vset (tab n f) i x = Done (tab n (fun j => if j =? i then x else f j)).
Proof.
  intros Hi. rewrite vset_Done by (rewrite vsize_tab; lia). f_equal. apply list_eq. intros k.
  assert (Hl : forall g : Z -> A, length (tab n g) = Z.to_nat n) by (intros g; unfold tab; rewrite length_map, length_seqZ; lia).
  destruct (decide (k < Z.to_nat n)%nat) as [Hk|Hk].
  - rewrite <- (Nat2Z.id k), lookup_tab by lia. destruct (Z.eqb_spec (Z.of_nat k) i) as [<-|Hne].
    + apply list_lookup_insert_eq. rewrite Hl. lia.
    + rewrite list_lookup_insert_ne by lia. apply lookup_tab. lia.
  - rewrite !lookup_ge_None_2; [done| |]; rewrite ?length_insert, Hl; lia.
Qed.

Lemma vset_tab_insert {A} n (f : Z -> A) i x : 0 <= i < n -> <[Z.to_nat i := x]> (tab n f) = tab n (fun j => if j =? i then x else f j).
Proof. intros Hi. pose proof (vset_tab n f i x Hi) as E. rewrite vset_Done in E by (rewrite vsize_tab; lia). by injection E. Qed.

Lemma tab_const {A} n (x : A) : replicate (Z.to_nat n) x = tab n (fun _ => x).
Proof.
  apply list_eq. intros k. assert (Hl : length (tab n (fun _ => x)) = Z.to_nat n) by (unfold tab; rewrite length_map, length_seqZ; lia).
  destruct (decide (k < Z.to_nat n)%nat) as [Hk|Hk].
  - rewrite lookup_replicate_2 by lia. rewrite <- (Nat2Z.id k), lookup_tab; [done|lia].
  - rewrite !lookup_ge_None_2; [done|rewrite Hl; lia|rewrite length_replicate; lia].
Qed.

(** ** Counting keys *)

(** The number of occurrences of [q], and of the keys below [q]. *)
Definition occ (q : Z) (l : list Z) : Z := vsize (filter (fun x => x = q) l).
Definition below (q : Z) (l : list Z) : Z := vsize (filter (fun x => x < q) l).

Lemma occ_app q l l' : occ q (l ++ l') = occ q l + occ q l'.
Proof. unfold occ. by rewrite filter_app, vsize_app. Qed.

Lemma occ_singleton q x : occ q [x] = if x =? q then 1 else 0.
Proof. unfold occ. rewrite filter_cons. case_decide; destruct (Z.eqb_spec x q); done. Qed.

Lemma occ_cons q x l : occ q (x :: l) = (if x =? q then 1 else 0) + occ q l.
Proof. change (x :: l) with ([x] ++ l). by rewrite occ_app, occ_singleton. Qed.

Lemma occ_nonneg q l : 0 <= occ q l.
Proof. apply vsize_nonneg. Qed.

Lemma below_succ q l : below (q + 1) l = below q l + occ q l.
Proof.
  induction l as [|x l IH]; [done|]. unfold below, occ in *. rewrite !filter_cons. repeat case_decide; try lia; rewrite ?vsize_cons; lia.
Qed.

Lemma below_mono q q' l : q <= q' -> below q l <= below q' l.
Proof.
  intros Hq. induction l as [|x l IH]; [done|]. unfold below in *. rewrite !filter_cons. repeat case_decide; rewrite ?vsize_cons; lia.
Qed.

Lemma below_bounds q l : 0 <= below q l <= vsize l.
Proof.
  unfold below. split; [apply vsize_nonneg|]. pose proof (length_filter (fun x => x < q) l). unfold vsize. lia.
Qed.

Lemma below_none q l : (forall x, x ∈ l -> q <= x) -> below q l = 0.
Proof.
  induction l as [|x l IH]; intros Hl; [done|]. unfold below in *. rewrite filter_cons. case_decide as Hx.
  - specialize (Hl x ltac:(left)). lia.
  - apply IH. intros y Hy. apply Hl. by right.
Qed.

Lemma below_all q l : (forall x, x ∈ l -> x < q) -> below q l = vsize l.
Proof.
  induction l as [|x l IH]; intros Hl; [done|]. unfold below in *. rewrite filter_cons. case_decide as Hx.
  - rewrite !vsize_cons, IH; [done|]. intros y Hy. apply Hl. by right.
  - specialize (Hl x ltac:(left)). lia.
Qed.

(** ** The place of an element *)

Section Slots.
Context (K : list Z).

Definition slot (j : nat) : Z := below (K !!! j) K + occ (K !!! j) (take j K).

Lemma occ_take_lt j : (j < length K)%nat -> occ (K !!! j) (take j K) < occ (K !!! j) K.
Proof.
  intros Hj. assert (Ho : occ (K !!! j) K = occ (K !!! j) (take j K) + occ (K !!! j) (drop j K)) by (by rewrite <- occ_app, take_drop).
  rewrite Ho. clear Ho. destruct (drop j K) as [|x l] eqn:E.
  { apply (f_equal length) in E. rewrite length_drop in E. simpl in E. lia. }
  assert (x = K !!! j) as ->.
  { symmetry. apply list_lookup_total_correct. pose proof (lookup_drop K j 0) as Hd. rewrite E, Nat.add_0_r in Hd. done. }
  rewrite occ_cons, Z.eqb_refl. pose proof (occ_nonneg (K !!! j) l). lia.
Qed.

(** The places of a key are the bucket of the key. *)
Lemma slot_bucket j : (j < length K)%nat -> below (K !!! j) K <= slot j < below (K !!! j) K + occ (K !!! j) K.
Proof. intros Hj. pose proof (occ_take_lt j Hj). pose proof (occ_nonneg (K !!! j) (take j K)). unfold slot. lia. Qed.

Lemma slot_bounds j : (j < length K)%nat -> 0 <= slot j < vsize K.
Proof.
  intros Hj. pose proof (slot_bucket j Hj) as Hs. pose proof (below_bounds (K !!! j) K). pose proof (below_bounds (K !!! j + 1) K) as Hb.
  rewrite below_succ in Hb. lia.
Qed.

Lemma slot_key j q : (j < length K)%nat -> below q K <= slot j < below q K + occ q K -> K !!! j = q.
Proof.
  intros Hj Hs. pose proof (slot_bucket j Hj) as Hb. rewrite <- below_succ in Hs, Hb. destruct (Z.lt_trichotomy (K !!! j) q) as [Hlt|[->|Hlt]]; [|done|].
  - pose proof (below_mono (K !!! j + 1) q K). lia.
  - pose proof (below_mono (q + 1) (K !!! j) K). lia.
Qed.

Lemma occ_take_mono q i j : (i <= j)%nat -> occ q (take i K) <= occ q (take j K).
Proof.
  intros Hij. rewrite <- (take_drop i (take j K)), take_take, Nat.min_l, occ_app by lia. pose proof (occ_nonneg q (drop i (take j K))). lia.
Qed.

Lemma occ_take_step j : (j < length K)%nat -> forall q, occ q (take (S j) K) = occ q (take j K) + (if K !!! j =? q then 1 else 0).
Proof.
  intros Hj q. destruct (lookup_lt_is_Some_2 K j Hj) as [x Hx]. rewrite (take_S_r K j x Hx), occ_app, occ_singleton.
  by rewrite (list_lookup_total_correct K j x Hx).
Qed.

Lemma slot_inj i j : (i < length K)%nat -> (j < length K)%nat -> slot i = slot j -> i = j.
Proof.
  intros Hi Hj E. assert (Hk : K !!! i = K !!! j) by (apply slot_key; [done|]; rewrite E; by apply slot_bucket).
  unfold slot in E. rewrite Hk in E. assert (Ho : occ (K !!! j) (take i K) = occ (K !!! j) (take j K)) by lia. clear E.
  assert (Hne : forall a b, (a < b)%nat -> (a < length K)%nat -> K !!! a = K !!! j -> occ (K !!! j) (take a K) < occ (K !!! j) (take b K)).
  { intros a b Hab Ha Hka. pose proof (occ_take_mono (K !!! j) (S a) b ltac:(lia)) as Hm. rewrite occ_take_step, Hka, Z.eqb_refl in Hm by done. lia. }
  destruct (Nat.lt_trichotomy i j) as [Hlt|[?|Hlt]]; [|done|].
  - specialize (Hne i j Hlt Hi Hk). lia.
  - specialize (Hne j i Hlt Hj eq_refl). lia.
Qed.

(** Every place is taken. *)
Lemma slot_surj p : 0 <= p < vsize K -> exists j, (j < length K)%nat /\ slot j = p.
Proof.
  intros Hp. set (l := map slot (seq 0 (length K))).
  assert (Hin : incl (seqZ 0 (vsize K)) l).
  { apply NoDup_length_incl.
    - apply NoDup_ListNoDup, (NoDup_fmap_2_strong slot); [|apply NoDup_seq]. intros i j Hi Hj. apply elem_of_seq in Hi, Hj. apply slot_inj; lia.
    - unfold l. rewrite length_map, length_seq, length_seqZ. unfold vsize. lia.
    - intros x (j & <- & Hj)%in_map_iff. apply list_elem_of_In, elem_of_seqZ. apply in_seq in Hj. pose proof (slot_bounds j ltac:(lia)). lia. }
  specialize (Hin p ltac:(apply list_elem_of_In, elem_of_seqZ; lia)). apply in_map_iff in Hin as (j & <- & Hj). exists j. apply in_seq in Hj. split; [lia|done].
Qed.
End Slots.

(** The element at a place. *)
Definition unslot (K : list Z) (p : Z) : nat := hd 0%nat (filter (fun j => slot K j = p) (seq 0 (length K))).

Lemma unslot_spec K p : 0 <= p < vsize K -> (unslot K p < length K)%nat /\ slot K (unslot K p) = p.
Proof.
  intros Hp. destruct (slot_surj K p Hp) as (j & Hj & E). unfold unslot.
  assert (Hin : j ∈ filter (fun j => slot K j = p) (seq 0 (length K))) by (apply list_elem_of_filter; split; [done|apply elem_of_seq; lia]).
  destruct (filter _ _) as [|i l] eqn:El; [by apply elem_of_nil in Hin|]. cbn.
  assert (Hi : i ∈ filter (fun j => slot K j = p) (seq 0 (length K))) by (rewrite El; left).
  apply list_elem_of_filter in Hi as [Hi Hs]. apply elem_of_seq in Hs. split; [lia|done].
Qed.

Lemma unslot_slot K j : (j < length K)%nat -> unslot K (slot K j) = j.
Proof.
  intros Hj. destruct (unslot_spec K (slot K j) (slot_bounds K j Hj)) as [Hu E]. by apply (slot_inj K).
Qed.

(** ** The tables of the minimizer

    What the constructor of [FullGraphPartition] builds: the transitions of the
    DFA, cut at the singular ranges, are numbered by target; the transition
    partition groups them by label. *)

#[local] Arguments vsize {A} v : simpl never.

#[global] Instance DFANode_inhabited : Inhabited DFANode := populate newDFANode.
#[global] Instance DFATransition_inhabited : Inhabited DFATransition := populate (mkDFATransition (mkCharRange 0 0) 0).

#[global] Instance OtherRange_inhabited {E} `{Inhabited E} : Inhabited (OtherRange E) := populate (mkOtherRange 0 0 inhabitant).

(** ** Loops *)

Lemma ofold_bind {A B S} (f : S -> B -> outcome S) (h : A -> list B) l : forall s, ofold f s (l ≫= h) = ofold (fun s x => ofold f s (h x)) s l.
Proof.
  induction l as [|x l IH]; intros s; [done|]. change ((x :: l) ≫= h) with (h x ++ (l ≫= h)). rewrite ofold_app. cbn [ofold].
  destruct (ofold f s (h x)) as [s'| |]; try done. apply IH.
Qed.

Lemma tab_nodes {A} `{Inhabited A} (v : list A) : map (fun i => zat v i) (seqZ 0 (vsize v)) = v.
Proof.
  apply list_eq. intros k. change (map (fun i => zat v i) (seqZ 0 (vsize v))) with ((fun i => zat v i) <$> seqZ 0 (vsize v)). rewrite list_lookup_fmap.
  destruct (decide (k < length v)%nat) as [Hk|Hk].
  - rewrite lookup_seqZ_lt by (unfold vsize; lia). cbn. rewrite Z.add_0_l, Nat2Z.id. symmetry. by apply list_lookup_lookup_total_lt.
  - rewrite lookup_seqZ_ge, lookup_ge_None_2 by (unfold vsize; lia). done.
Qed.

Lemma zip_nodes {A} `{Inhabited A} (v : list A) : zip (seqZ 0 (vsize v)) v = map (fun i => (i, zat v i)) (seqZ 0 (vsize v)).
Proof.
  rewrite <- (tab_nodes v) at 2. generalize (seqZ 0 (vsize v)) as l. induction l as [|i l IH]; [done|]. cbn. by f_equal.
Qed.

(** ** The transitions of a DFA as a list of edges *)

Definition all_nodes_live (dfa : DFA) : Prop := Forall (fun node => isKilled node = false) (dfa_nodes dfa).

(** An edge: source, label and the transition it belongs to. *)
Abbreviation edge := (Z * (Z * DFATransition))%type.

Section Edges.
Context {D : Type} (ts : Z -> list DFATransition) (l : list (OtherRange D)).

Definition node_edges (i : Z) : list edge := map (pair i) (labelled (ts i) 0 l).
Definition edges (nodes : list Z) : list edge := nodes ≫= node_edges.

Definition edge_label (e : edge) : Z := fst (snd e).
Definition edge_target (e : edge) : Z := tr_target (snd (snd e)).

Lemma labelled_lookup us index (l' : list (OtherRange D)) k t :
  (k, t) ∈ labelled us index l' <-> exists j r, k = index + Z.of_nat j /\ l' !! j = Some r /\ trans_at us (or_first r) = Some t.
Proof.
  revert index. induction l' as [|r l' IH]; intros index; cbn [labelled].
  { split; [by intros ?%elem_of_nil|]. intros (j & r & _ & ? & _). done. }
  rewrite elem_of_app, IH. split.
  - intros [Hk|(j & r' & -> & Hj & Ht)]; [|exists (S j), r'; split_and!; [lia|done|done]].
    destruct (trans_at us (or_first r)) as [t'|] eqn:Et; [|by apply elem_of_nil in Hk]. apply list_elem_of_singleton in Hk. injection Hk as -> ->.
    exists 0%nat, r. split_and!; [lia|done|done].
  - intros ([|j] & r' & -> & Hj & Ht).
    + left. cbn in Hj. injection Hj as <-. rewrite Ht. apply list_elem_of_singleton. f_equal. lia.
    + right. exists j, r'. split_and!; [lia|done|done].
Qed.

Lemma elem_of_edges nodes i k t : (i, (k, t)) ∈ edges nodes <-> i ∈ nodes /\ (k, t) ∈ labelled (ts i) 0 l.
Proof.
  unfold edges. rewrite list_elem_of_bind. unfold node_edges. split.
  - intros (i' & He & Hi). apply list_elem_of_In, in_map_iff in He as (e & [= -> ->] & He). split; [done|]. by apply list_elem_of_In.
  - intros [Hi He]. exists i. split; [|done]. apply list_elem_of_In, in_map_iff. eexists. split; [done|]. by apply list_elem_of_In.
Qed.

(** Labels occur once per node that has a transition there. *)
Lemma occ_labelled us index (l' : list (OtherRange D)) k :
  occ k (map fst (labelled us index l')) =
    match (if k <? index then None else l' !! Z.to_nat (k - index)) with
    | Some r => match trans_at us (or_first r) with Some _ => 1 | None => 0 end
    | None => 0
    end.
Proof.
  revert index. induction l' as [|r l' IH]; intros index; cbn [labelled map].
  { destruct (k <? index); done. }
  rewrite map_app, occ_app, IH. destruct (Z.ltb_spec k index) as [Hlt|Hge].
  - destruct (Z.ltb_spec k (index + 1)); [|lia]. destruct (trans_at us (or_first r)) as [t|]; [|done]. cbn [map fst]. rewrite occ_singleton.
    destruct (Z.eqb_spec index k); [lia|done].
  - destruct (Z.eqb_spec index k) as [->|Hne].
    + destruct (Z.ltb_spec k (k + 1)); [|lia]. rewrite Z.sub_diag. change ((r :: l') !! Z.to_nat 0) with (Some r). cbv beta iota. destruct (trans_at us (or_first r)) as [t|]; [|done]. cbn [map fst].
      rewrite occ_singleton, Z.eqb_refl. done.
    + destruct (Z.ltb_spec k (index + 1)); [lia|]. replace (Z.to_nat (k - index)) with (S (Z.to_nat (k - (index + 1)))) by lia. cbn [lookup list_lookup].
      destruct (trans_at us (or_first r)) as [t|]; [|done]. cbn [map fst]. rewrite occ_singleton. destruct (Z.eqb_spec index k); [done|]. done.
Qed.

Lemma edges_app nodes i : edges (nodes ++ [i]) = edges nodes ++ node_edges i.
Proof. unfold edges. rewrite bind_app. cbn. by rewrite app_nil_r. Qed.

Lemma labels_of_node i : map edge_label (node_edges i) = map fst (labelled (ts i) 0 l).
Proof. unfold node_edges. rewrite map_map. done. Qed.

(** The number of edges with a label. *)
Lemma occ_label nodes k r : 0 <= k -> l !! Z.to_nat k = Some r -> occ k (map edge_label (edges nodes)) = vsize (tags_at ts nodes (or_first r)).
Proof.
  intros Hk Hr. induction nodes as [|i nodes IH] using rev_ind; [done|]. rewrite edges_app, map_app, occ_app, IH, labels_of_node, occ_labelled.
  destruct (Z.ltb_spec k 0); [lia|]. rewrite Z.sub_0_r, Hr. unfold tags_at. rewrite omap_app, vsize_app. cbn. by destruct (trans_at (ts i) (or_first r)).
Qed.

Lemma vsize_labelled us index (l' : list (OtherRange D)) : vsize (labelled us index l') <= vsize l'.
Proof.
  revert index. induction l' as [|r l' IH]; intros index; cbn [labelled]; [done|]. rewrite vsize_app, vsize_cons. specialize (IH (index + 1)).
  destruct (trans_at us (or_first r)); [change (vsize [_]) with 1|change (vsize []) with 0]; lia.
Qed.

Lemma vsize_edges nodes : vsize (edges nodes) <= vsize l * vsize nodes.
Proof.
  induction nodes as [|i nodes IH] using rev_ind; [change (vsize (edges [])) with 0; change (vsize []) with 0; lia|]. rewrite edges_app, !vsize_app. change (vsize [i]) with 1.
  unfold node_edges. rewrite vsize_map. pose proof (vsize_labelled (ts i) 0 l). lia.
Qed.

(** An edge is determined by its source and its label. *)
Lemma labelled_fst_NoDup us index (l' : list (OtherRange D)) : NoDup (map fst (labelled us index l')) /\ forall k, k ∈ map fst (labelled us index l') -> index <= k.
Proof.
  revert index. induction l' as [|r l' IH]; intros index; cbn [labelled]; [split; [constructor|by intros ? ?%elem_of_nil]|].
  destruct (IH (index + 1)) as [Hn Hk]. destruct (trans_at us (or_first r)) as [t|]; cbn [app map fst].
  - split; [constructor; [|done]; intros Hi%Hk; lia|]. intros k [->|Hi%Hk]%elem_of_cons; lia.
  - split; [done|]. intros k Hi%Hk. lia.
Qed.

Lemma edges_NoDup nodes : NoDup nodes -> NoDup (map (fun e => (fst e, edge_label e)) (edges nodes)).
Proof.
  induction nodes as [|i nodes IH] using rev_ind; intros Hn; [constructor|]. apply NoDup_app in Hn as (Hn1 & Hn2 & _).
  rewrite edges_app, map_app. apply NoDup_app. split_and!; [by apply IH| |].
  - intros [j k] Hj Hk. apply list_elem_of_In, in_map_iff in Hj as ([j' [k' t']] & Ej & Hj). injection Ej as -> _. apply list_elem_of_In, elem_of_edges in Hj as [Hj _].
    apply list_elem_of_In, in_map_iff in Hk as ([j2 [k2 t2]] & Ek & Hk). injection Ek as -> _. unfold node_edges in Hk. apply in_map_iff in Hk as (? & [= -> _] & _).
    apply (Hn2 j Hj). left.
  - unfold node_edges. rewrite map_map. change (NoDup (map (fun x => pair i (fst x)) (labelled (ts i) 0 l))). rewrite <- (map_map fst (pair i)). apply (NoDup_fmap_2 (pair i)), labelled_fst_NoDup.
Qed.
End Edges.
