(* ===== verification/MinimizerTables.v ===== *)
(** * The constructor of the graph partition

    [newFullGraphPartition] returns, and its tables are the edges of the DFA:
    the edges into a node are an interval, the transition partition groups the
    edges by label, and the labels read the characters. *)

From S2P Require Import Prelude Containers Dfa RangeList RangeListProofs SingularRanges DfaMerger DfaMinimizer PartitionProofs MinimizerGraph.

#[local] Arguments vsize {A} v : simpl never.

(** ** Counting and placing *)

(** Counting the occurrences of the keys. *)
Lemma count_keys n keys : 0 <= n -> vsize keys < 2 ^ 32 -> (forall q, q ∈ keys -> 0 <= q < n) ->
  ofold vincrement (tab n (fun _ => 0)) keys = Done (tab n (fun q => occ q keys)).
Proof.
  intros Hn. induction keys as [|q keys IH] using rev_ind; intros Hs Hk; [done|].
  rewrite vsize_app in Hs. change (vsize [q]) with 1 in Hs. rewrite ofold_app, IH; [|lia|intros x Hx; apply Hk, elem_of_app; by left]. cbn [obind ofold].
  assert (Hq : 0 <= q < n) by (apply Hk, elem_of_app; right; left). unfold vincrement. rewrite vget_tab by done. cbn [obind].
  rewrite vset_tab by done. cbn [obind]. f_equal. apply tab_ext. intros i Hi. rewrite occ_app, occ_singleton.
  pose proof (below_bounds (q + 1) keys) as Hb. rewrite below_succ in Hb. pose proof (below_bounds q keys). pose proof (occ_nonneg q keys).
  rewrite u32_small by lia. destruct (Z.eqb_spec i q) as [->|Hne]; [by rewrite Z.eqb_refl|]. destruct (Z.eqb_spec q i); [done|lia].
Qed.

(** Summing up the counts. *)
Lemma accumulate_counts keys m : vsize keys < 2 ^ 32 -> forall b,
  accumulate (below b keys) (map (fun q => occ q keys) (seqZ b (Z.of_nat m))) = (map (fun q => below q keys) (seqZ b (Z.of_nat m)), below (b + Z.of_nat m) keys).
Proof.
  intros Hs. induction m as [|m IH]; intros b.
  { cbn. by rewrite Z.add_0_r. }
  rewrite seqZ_cons by lia. cbn [map accumulate]. pose proof (below_bounds (b + 1) keys) as Hb. rewrite <- below_succ, u32_small by lia.
  replace (Z.pred (Z.of_nat (S m))) with (Z.of_nat m) by lia. change (Z.succ b) with (b + 1). rewrite IH. f_equal. f_equal. lia.
Qed.

Definition bucket (keys : list Z) (k : Z) : SetDescriptor := mkSetDescriptor (below k keys) (occ k keys) 0.

Lemma add_buckets keys (rs : list (MutableRange Z)) : vsize keys < 2 ^ 32 -> forall b p,
  map mr_data rs = map (fun k => occ k keys) (seqZ b (vsize rs)) ->
  foldl add_bucket (p, below b keys) rs = (with_sets p (m_sets p ++ map (bucket keys) (seqZ b (vsize rs))), below (b + vsize rs) keys).
Proof.
  intros Hs. induction rs as [|r rs IH]; intros b p Hd.
  { cbn. rewrite app_nil_r. change (vsize []) with 0. rewrite Z.add_0_r. by destruct p. }
  rewrite vsize_cons in *. pose proof (vsize_nonneg rs). rewrite seqZ_cons in * by lia. cbn [map] in Hd. injection Hd as Hr Hd.
  replace (Z.pred (vsize rs + 1)) with (vsize rs) in * by lia. change (Z.succ b) with (b + 1) in *. cbn [foldl add_bucket]. rewrite Hr.
  pose proof (below_bounds (b + 1) keys) as Hb. rewrite <- below_succ, u32_small by lia. rewrite IH by done. f_equal.
  - unfold with_sets, addSetUnchecked. cbn [m_sets m_partitionedElements m_elementPositionInPartitionedNodes m_elementToSetMap m_setsMarkedInCurrentGeneration map].
    by rewrite <- app_assoc.
  - f_equal. lia.
Qed.

(** ** Filling the tables *)

Section Fill.
Context (T : list edge) (n m : Z).
Let Kt := map edge_target T.
Let Kl := map edge_label T.
Let N := vsize T.
Context (Ht : forall q, q ∈ Kt -> 0 <= q < n) (Hl : forall k, k ∈ Kl -> 0 <= k < m) (Hn : 0 <= n) (Hm : 0 <= m).

Definition fill_edge (f : fill_state) (e : edge) : outcome fill_state := fill_transition (tab n (fun q => below q Kt)) (fst e) f (snd e).

Abbreviation partition_of el ps mp := (mkPartition (tab m (bucket Kl)) (tab N el) (tab N ps) (tab N mp) []).

(** After [j] edges. *)
Record filled (j : nat) (f : fill_state) (fl el ps mp : Z -> Z) : Prop := {
  fd_state : f = mkFillState (tab N fl) (tab n (fun q => occ q (take j Kt))) (tab m (fun k => occ k (take j Kl))) (partition_of el ps mp);
  fd_written : forall i, (i < j)%nat ->
    fl (slot Kt i) = fst (T !!! i) /\ el (slot Kl i) = slot Kt i /\ ps (slot Kt i) = slot Kl i /\ mp (slot Kt i) = Kl !!! i
}.

Lemma keys_length : length Kt = length T /\ length Kl = length T /\ vsize Kt = N /\ vsize Kl = N.
Proof. unfold Kt, Kl, N. rewrite !vsize_map, !length_map. done. Qed.

Lemma key_at j e : T !! j = Some e -> Kt !!! j = edge_target e /\ Kl !!! j = edge_label e /\ T !!! j = e.
Proof.
  intros He. unfold Kt, Kl. split_and!; apply list_lookup_total_correct; [| |done].
  - change (map edge_target T) with (edge_target <$> T). by rewrite list_lookup_fmap, He.
  - change (map edge_label T) with (edge_label <$> T). by rewrite list_lookup_fmap, He.
Qed.

Lemma fill_edge_spec j e f fl el ps mp : T !! j = Some e -> filled j f fl el ps mp ->
  exists f' fl' el' ps' mp', fill_edge f e = Done f' /\ filled (S j) f' fl' el' ps' mp'.
Proof.
  intros He [-> Hw]. destruct (key_at j e He) as (E1 & E2 & E3). pose proof (lookup_lt_Some _ _ _ He) as Hj. destruct keys_length as (L1 & L2 & L3 & L4).
  assert (Hq : 0 <= edge_target e < n) by (apply Ht; rewrite <- E1; apply list_elem_of_lookup_total_2; lia).
  assert (Hk : 0 <= edge_label e < m) by (apply Hl; rewrite <- E2; apply list_elem_of_lookup_total_2; lia).
  assert (St : below (edge_target e) Kt + occ (edge_target e) (take j Kt) = slot Kt j) by (unfold slot; by rewrite E1).
  assert (Sl : below (edge_label e) Kl + occ (edge_label e) (take j Kl) = slot Kl j) by (unfold slot; by rewrite E2).
  pose proof (slot_bounds Kt j ltac:(lia)) as Bt. pose proof (slot_bounds Kl j ltac:(lia)) as Bl. rewrite L3 in Bt. rewrite L4 in Bl.
  destruct e as [i [k t]]. change (edge_target (i, (k, t))) with (tr_target t) in *. change (edge_label (i, (k, t))) with k in *.
  unfold fill_edge, fill_transition. cbn [fst snd f_flattenedTransitions f_sizePerNode f_transitionPerRangeOffset f_transitionPartition].
  rewrite vget_tab by done. cbn [obind]. rewrite vget_tab by done. cbn [obind]. rewrite St, vset_tab by done. cbn [obind].
  rewrite vget_tab by done. cbn [obind]. unfold startOffsetOfSet. cbn [m_sets]. rewrite vget_tab by done. cbn [obind bucket sd_start]. rewrite Sl, vset_tab by done. cbn [obind].
  unfold setElementUnchecked. cbn [m_sets m_partitionedElements m_elementPositionInPartitionedNodes m_elementToSetMap m_setsMarkedInCurrentGeneration].
  rewrite vset_tab by done. cbn [obind]. rewrite vset_tab by done. cbn [obind]. rewrite vset_tab by done. cbn [obind]. rewrite vset_tab by done. cbn [obind].
  eexists _, _, _, _, _. split; [done|]. constructor.
  - f_equal; apply tab_ext; intros x Hx; rewrite occ_take_step by lia; rewrite ?E1, ?E2.
    + destruct (Z.eqb_spec x (tr_target t)) as [->|Hne]; [by rewrite Z.eqb_refl|]. destruct (Z.eqb_spec (tr_target t) x); [done|lia].
    + destruct (Z.eqb_spec x k) as [->|Hne]; [by rewrite Z.eqb_refl|]. destruct (Z.eqb_spec k x); [done|lia].
  - intros i' Hi'. destruct (decide (i' = j)) as [->|Hne].
    + rewrite !Z.eqb_refl, E3, E2. done.
    + destruct (Hw i' ltac:(lia)) as (W1 & W2 & W3 & W4).
      assert (Nt : slot Kt i' <> slot Kt j) by (intros E; apply slot_inj in E; lia). assert (Nl : slot Kl i' <> slot Kl j) by (intros E; apply slot_inj in E; lia).
      apply Z.eqb_neq in Nt, Nl. by rewrite Nt, Nl.
Qed.

Lemma fill_all j : (j <= length T)%nat ->
  exists f fl el ps mp, ofold fill_edge (mkFillState (tab N (fun _ => 0)) (tab n (fun _ => 0)) (tab m (fun _ => 0)) (partition_of (fun _ => 0) (fun _ => 0) (fun _ => 0))) (take j T) = Done f /\
    filled j f fl el ps mp.
Proof.
  induction j as [|j IH]; intros Hj.
  { eexists _, _, _, _, _. split; [done|]. constructor; [done|lia]. }
  destruct IH as (f & fl & el & ps & mp & E & Hf); [lia|]. destruct (lookup_lt_is_Some_2 T j) as [e He]; [lia|]. rewrite (take_S_r T j e He), ofold_app, E. cbn [obind ofold].
  destruct (fill_edge_spec j e f fl el ps mp He Hf) as (f' & fl' & el' & ps' & mp' & -> & Hf'). cbn [obind]. by exists f', fl', el', ps', mp'.
Qed.

(** The filled partition is one, and groups the edges by label. *)
Lemma filled_partition f fl el ps mp : (forall k, 0 <= k < m -> 0 < occ k Kl) -> filled (length T) f fl el ps mp ->
  part_ok (partition_of el ps mp) N [] /\ forall j, (j < length T)%nat -> fl (slot Kt j) = fst (T !!! j) /\ mp (slot Kt j) = Kl !!! j.
Proof.
  intros Hocc [_ Hw]. destruct keys_length as (L1 & L2 & L3 & L4). pose proof (vsize_nonneg T) as HN. fold N in HN.
  split; [|intros j Hj; by destruct (Hw j Hj) as (? & _ & _ & ?)].
  assert (Zt : forall {A} `{Inhabited A} M (g : Z -> A) x, 0 <= x < M -> zat (tab M g) x = g x) by (intros; apply list_lookup_total_correct; by apply lookup_tab).
  assert (Ot : forall p, 0 <= p < N -> exists j, (j < length T)%nat /\ slot Kt j = p) by (intros p Hp; rewrite <- L1; apply slot_surj; lia).
  assert (Ol : forall p, 0 <= p < N -> exists j, (j < length T)%nat /\ slot Kl j = p) by (intros p Hp; rewrite <- L2; apply slot_surj; lia).
  assert (Bt : forall j, (j < length T)%nat -> 0 <= slot Kt j < N) by (intros j Hj; rewrite <- L3; apply slot_bounds; lia).
  assert (Bl : forall j, (j < length T)%nat -> 0 <= slot Kl j < N) by (intros j Hj; rewrite <- L4; apply slot_bounds; lia).
  constructor; cbn [m_partitionedElements m_elementPositionInPartitionedNodes m_elementToSetMap]; unfold partition_size; cbn [m_sets]; rewrite ?vsize_tab by lia; try done.
  - intros e He. rewrite Zt by done. destruct (Ot e He) as (j & Hj & <-). destruct (Hw j Hj) as (_ & W2 & W3 & _). rewrite W3, Zt by auto. split; [auto|done].
  - intros q Hq. rewrite Zt by done. destruct (Ol q Hq) as (j & Hj & <-). destruct (Hw j Hj) as (_ & W2 & W3 & _). rewrite W2, Zt by auto. split; [auto|done].
  - intros i Hi. rewrite Zt by done. cbn. pose proof (Hocc i Hi). pose proof (below_bounds i Kl). pose proof (below_bounds (i + 1) Kl) as Hb. rewrite below_succ in Hb. lia.
  - intros e He. rewrite Zt by done. destruct (Ot e He) as (j & Hj & <-). destruct (Hw j Hj) as (_ & _ & W3 & W4). rewrite W4.
    assert (Hk : 0 <= Kl !!! j < m) by (apply Hl, list_elem_of_lookup_total_2; lia). split; [done|]. rewrite !Zt by auto. rewrite W3.
    unfold in_set. cbn. apply slot_bucket. lia.
  - intros i q Hi Hq. rewrite (Zt SetDescriptor _ m) in Hq by done. unfold in_set in Hq. cbn in Hq.
    assert (HqN : 0 <= q < N). { pose proof (below_bounds i Kl). pose proof (below_bounds (i + 1) Kl) as Hb. rewrite below_succ in Hb. lia. }
    destruct (Ol q HqN) as (j & Hj & <-). destruct (Hw j Hj) as (_ & W2 & _ & W4). rewrite (Zt Z _ N el), W2, Zt, W4 by auto. apply slot_key; [lia|done].
  - intros i Hi. rewrite Zt by done. cbn. rewrite elem_of_nil. lia.
  - by intros i ?%elem_of_nil.
  - constructor.
Qed.
End Fill.

(** ** The graph of a DFA *)

(** The tables of [g] describe a graph with [N] edges: source, label and
    target of an edge, and the characters of a label. *)
Record graph (dfa : DFA) (g : FullGraphPartition) (N : Z) (src lab tgt : Z -> Z) (reads : Z -> Z -> Prop) : Prop := {
  gr_src : forall p, 0 <= p < N -> vget (m_flattenedTransitions g) p = Done (src p) /\ 0 <= src p < vsize (dfa_nodes dfa);
  gr_tgt : forall p, 0 <= p < N -> 0 <= tgt p < vsize (dfa_nodes dfa);
  gr_size : vsize (m_flattenedTransitions g) = N;
  gr_incoming : forall q, 0 <= q < vsize (dfa_nodes dfa) -> exists a b, vget (m_flattenedTransitionsStartOffsetPerNode g) q = Done a /\
    vget (m_flattenedTransitionsSizePerNode g) q = Done b /\ forall p, a <= p < a + b <-> 0 <= p < N /\ tgt p = q;
  gr_det : forall p p', 0 <= p < N -> 0 <= p' < N -> src p = src p' -> lab p = lab p' -> p = p';
  gr_step : forall i c q, 0 <= i < vsize (dfa_nodes dfa) -> dfa_step dfa i c = Some q <-> exists p, 0 <= p < N /\ src p = i /\ tgt p = q /\ reads (lab p) c;
  gr_reads : forall k k' c, reads k c -> reads k' c -> k = k';
  gr_read : forall p, 0 <= p < N -> exists c, 0 <= c < 128 /\ reads (lab p) c
}.

Section Constructor.
Context (dfa : DFA) (Hw : dfa_wf dfa) (Hlive : all_nodes_live dfa) (Hsize : 128 * vsize (dfa_nodes dfa) < 2 ^ 32).
Let n := vsize (dfa_nodes dfa).
Let ts := dfa_node_transitions dfa.

Lemma node_live i : 0 <= i < n -> live dfa i.
Proof.
  intros Hi. destruct (vget_total (dfa_nodes dfa) i Hi) as (node & E & Hl). exists node. split; [done|].
  unfold all_nodes_live in Hlive. rewrite Forall_lookup in Hlive. by apply (Hlive _ _ Hl).
Qed.

Lemma node_at i : 0 <= i < n -> isKilled (zat (dfa_nodes dfa) i) = false /\ node_transitions (zat (dfa_nodes dfa) i) dfa = Done (ts i) /\
  sorted_from 0 (ts i) /\ Forall (fun t => 0 <= tr_target t < n) (ts i).
Proof.
  intros Hi. destruct (live_node dfa i Hw (node_live i Hi)) as (node & us & acts & En & Et & _ & Hts & _ & Hs & Hf).
  destruct (node_live i Hi) as (node' & En' & Hk). rewrite En in En'. injection En' as <-. rewrite (vget_at (dfa_nodes dfa)) in En by done. injection En as ->.
  unfold ts. rewrite Hts. split_and!; try done. eapply Forall_impl; [exact Hf|]. intros t Ht. by apply live_bound in Ht.
Qed.

(** The loops over the nodes read their transitions. *)
Lemma loop_nodes {S} (body : S -> list DFATransition -> outcome S) s :
  ofold (fun s node => let* us := live_transitions dfa node in body s us) s (dfa_nodes dfa) = ofold (fun s i => body s (ts i)) s (seqZ 0 n).
Proof.
  rewrite <- (tab_nodes (dfa_nodes dfa)) at 1. rewrite ofold_map. apply ofold_ext. intros s' i Hi. apply elem_of_seqZ in Hi.
  destruct (node_at i ltac:(unfold n; lia)) as (Hk & Ht & _). unfold live_transitions. by rewrite Hk, Ht.
Qed.

Lemma loop_indexed {S} (body : S -> Z -> list DFATransition -> outcome S) s :
  ofold (fun s '(i, node) => let* us := live_transitions dfa node in body s i us) s (zip (seqZ 0 n) (dfa_nodes dfa)) =
  ofold (fun s i => body s i (ts i)) s (seqZ 0 n).
Proof.
  unfold n. rewrite zip_nodes, ofold_map. apply ofold_ext. intros s' i Hi. apply elem_of_seqZ in Hi.
  destruct (node_at i ltac:(unfold n; lia)) as (Hk & Ht & _). unfold live_transitions. by rewrite Hk, Ht.
Qed.

Lemma nodes_sorted i : i ∈ seqZ 0 n -> sorted_from 0 (ts i).
Proof. intros Hi%elem_of_seqZ. apply node_at. lia. Qed.

(** The singular ranges, with the tags they stand for. *)
Lemma singular_transitions_spec : exists rs l, singular_transitions dfa = Done rs /\ map mr_first rs = map or_first l /\
  map mr_data rs = map (fun r => tag_count (or_data r)) l /\ ranges_sorted 0 l /\
  forall c, 0 <= c < 128 -> ranges_lookup l c = some_tags (tags_at ts (seqZ 0 n) c).
Proof.
  destruct (tagged_ranges ts (seqZ 0 n) nodes_sorted) as (v & l & E & Hr & Hl & Hv). destruct (iterate_represents v l Hr) as (rs & Ei & El).
  exists (map (map_range tag_count) rs), l. split_and!; try done.
  - assert (Hrun : forall nodes w, ofold (fun v i => extend CounterConverter v (map transition_range (ts i))) (map (map_range tag_count) w) nodes =
      omap_done (map (map_range tag_count)) (ofold (fun v i => extend TagConverter v (map (tag_range i) (ts i))) w nodes)).
    { induction nodes as [|i nodes IH]; intros w; [done|]. cbn [ofold].
      replace (map transition_range (ts i)) with (map (map_other tag_target) (map (tag_range i) (ts i))) by (rewrite map_map; done).
      rewrite (extend_map tag_count tag_target _ _ counter_convert counter_extend).
      destruct (extend TagConverter w _) as [w'| |]; try done. cbn [omap_done obind]. apply IH. }
    unfold singular_transitions. rewrite (ofold_ext _ (fun v node => let* us := live_transitions dfa node in extend CounterConverter v (map transition_range us))).
    2:{ intros s node _. unfold live_transitions. by destruct (isKilled node). }
    rewrite loop_nodes. change (@nil (MutableRange Z)) with (map (map_range tag_count) []). rewrite Hrun, E. cbn [omap_done obind]. by rewrite iterate_map, Ei.
  - rewrite <- El, !map_map. done.
  - rewrite <- El, !map_map. done.
Qed.
(** ** The ranges cut the transitions *)

Section Ranges.
Context (l : list (OtherRange (list tag))) (Hl : ranges_sorted 0 l).
Context (Hlookup : forall c, 0 <= c < 128 -> ranges_lookup l c = some_tags (tags_at ts (seqZ 0 n) c)).
Let T := edges ts l (seqZ 0 n).
Let m := vsize l.

Lemma elem_of_tags i t c : 0 <= i < n -> (i, t) ∈ tags_at ts (seqZ 0 n) c <-> trans_at (ts i) c = Some t.
Proof.
  intros Hi. unfold tags_at. rewrite list_elem_of_omap. split.
  - intros (j & _ & Hj). destruct (trans_at (ts j) c) as [u|] eqn:E; [|done]. injection Hj as -> ->. done.
  - intros E. exists i. rewrite E. split; [apply elem_of_seqZ; lia|done].
Qed.

Lemma range_bounds r c : r ∈ l -> range_covers r c = true -> 0 <= c < 128.
Proof. intros Hr Hc. destruct (ranges_elem_first _ _ _ Hl Hr) as (H1 & H2 & _). unfold range_covers in Hc. zprop. lia. Qed.

Lemma range_tags r c : r ∈ l -> range_covers r c = true -> tags_at ts (seqZ 0 n) c = or_data r /\ or_data r <> [].
Proof.
  intros Hr Hc. pose proof (ranges_lookup_elem _ _ _ _ Hl Hr Hc) as E. rewrite Hlookup in E by eauto using range_bounds.
  unfold some_tags in E. destruct (tags_at ts (seqZ 0 n) c) as [|e es]; [done|]. injection E as <-. done.
Qed.

Lemma node_aligned i : 0 <= i < n -> aligned (ts i) l.
Proof.
  intros Hi. destruct (node_at i Hi) as (_ & _ & Hs & _). split.
  - intros t c Ht Hc. pose proof (sorted_from_covers _ _ _ _ Hs Ht Hc) as Hb. pose proof (trans_at_intro _ _ _ _ Hs Ht Hc) as Ea.
    apply (elem_of_tags i t c Hi) in Ea. specialize (Hlookup c Hb). destruct (tags_at ts (seqZ 0 n) c) as [|e es]; [by apply elem_of_nil in Ea|].
    cbn [some_tags] in Hlookup. apply ranges_lookup_Some in Hlookup as (r & Hr & Hrc & _). by exists r.
  - intros r c c' Hr Hc Hc'. destruct (range_tags r c Hr Hc) as [E1 _]. destruct (range_tags r c' Hr Hc') as [E2 _].
    destruct (trans_at (ts i) c) as [t|] eqn:Ea.
    + symmetry. apply (elem_of_tags i t c' Hi). rewrite E2, <- E1. by apply elem_of_tags.
    + destruct (trans_at (ts i) c') as [t'|] eqn:Ea'; [|done]. exfalso. apply (elem_of_tags i t' c' Hi) in Ea'. rewrite E2, <- E1 in Ea'. apply elem_of_tags in Ea'; congruence.
Qed.

Lemma node_intersections i : i ∈ seqZ 0 n -> intersections (map or_first l) 0 (ts i) = labelled (ts i) 0 l.
Proof.
  intros Hi%elem_of_seqZ. assert (Hi' : 0 <= i < n) by lia. destruct (node_at i Hi') as (_ & _ & Hs & _).
  apply (intersections_spec (ts i) 0); [done|lia|done|by apply node_aligned].
Qed.

Lemma ranges_few lo (l' : list (OtherRange (list tag))) : ranges_sorted lo l' -> lo <= 128 -> vsize l' + lo <= 128.
Proof.
  revert lo. induction l' as [|r l' IH]; intros lo Hs Hlo; [change (vsize []) with 0; lia|]. destruct Hs as (H1 & H2 & H3). rewrite vsize_cons. specialize (IH _ H3). lia.
Qed.

Lemma edges_few : vsize T < 2 ^ 32.
Proof.
  pose proof (vsize_edges ts l (seqZ 0 n)) as He. pose proof (ranges_few 0 l Hl) as Hm. pose proof (vsize_nonneg l). pose proof (vsize_nonneg (dfa_nodes dfa)) as H0.
  assert (En : vsize (seqZ 0 n) = n) by (unfold vsize at 1; rewrite length_seqZ; unfold n; lia). rewrite En in He. unfold T, n in *. nia.
Qed.

Lemma label_at k : 0 <= k < m -> exists r, r ∈ l /\ l !! Z.to_nat k = Some r /\ occ k (map edge_label T) = vsize (or_data r) /\ or_data r <> [].
Proof.
  intros Hk. destruct (lookup_lt_is_Some_2 l (Z.to_nat k)) as [r Hr]; [unfold m, vsize in Hk; lia|]. assert (Hrl : r ∈ l) by (by eapply list_elem_of_lookup_2).
  exists r. destruct (ranges_elem_first _ _ _ Hl Hrl) as (H1 & _ & _). destruct (range_tags r (or_first r) Hrl) as [Ht Hne]; [unfold range_covers; ztest; lia|].
  split_and!; try done. unfold T. rewrite (occ_label ts l (seqZ 0 n) k r) by (done || lia). by rewrite Ht.
Qed.

Lemma edge_ok i k t : (i, (k, t)) ∈ T -> 0 <= i < n /\ 0 <= k < m /\ 0 <= tr_target t < n /\ exists r, l !! Z.to_nat k = Some r /\ trans_at (ts i) (or_first r) = Some t.
Proof.
  intros [Hi He]%elem_of_edges. apply elem_of_seqZ in Hi. assert (Hi' : 0 <= i < n) by lia. apply labelled_lookup in He as (j & r & -> & Hj & Ht).
  destruct (node_at i Hi') as (_ & _ & _ & Hf). pose proof (trans_at_Some _ _ _ Ht) as [Htin _]. rewrite Forall_forall in Hf.
  pose proof (lookup_lt_Some _ _ _ Hj). split_and!; try lia; [unfold m, vsize; lia|auto..|]. 1,2: specialize (Hf t Htin); lia. exists r. by rewrite Z.add_0_l, Nat2Z.id.
Qed.

Lemma labels_ok k : k ∈ map edge_label T -> 0 <= k < m.
Proof. intros Hk. apply list_elem_of_In, in_map_iff in Hk as ([i [k' t]] & <- & He). apply list_elem_of_In, edge_ok in He. cbn. tauto. Qed.

Lemma targets_ok q : q ∈ map edge_target T -> 0 <= q < n.
Proof. intros Hq. apply list_elem_of_In, in_map_iff in Hq as ([i [k' t]] & <- & He). apply list_elem_of_In, edge_ok in He. cbn. tauto. Qed.
End Ranges.

(** ** The constructor *)

(** The characters of a label. *)
Definition label_reads (l : list (OtherRange (list tag))) (k c : Z) : Prop := 0 <= k /\ exists r, l !! Z.to_nat k = Some r /\ range_covers r c = true.

Lemma ranges_index lo (l : list (OtherRange (list tag))) j j' r r' c : ranges_sorted lo l -> l !! j = Some r -> l !! j' = Some r' ->
  range_covers r c = true -> range_covers r' c = true -> j = j'.
Proof.
  revert lo j j'. induction l as [|x l IH]; intros lo j j' Hs Hj Hj' Hc Hc'; [done|]. destruct Hs as (H1 & H2 & H3).
  assert (Hout : forall i y, l !! i = Some y -> range_covers y c = true -> range_covers x c = true -> False).
  { intros i y Hi Hy Hx. apply list_elem_of_lookup_2 in Hi. destruct (ranges_elem_first _ _ _ H3 Hi) as (Hb & _). unfold range_covers in *. zprop. lia. }
  destruct j as [|j], j' as [|j']; [done| | |f_equal; by eapply IH].
  - injection Hj as ->. exfalso. by eapply (Hout j').
  - injection Hj' as ->. exfalso. by eapply (Hout j).
Qed.

Lemma edge_step l i c q : ranges_sorted 0 l -> (forall c, 0 <= c < 128 -> ranges_lookup l c = some_tags (tags_at ts (seqZ 0 n) c)) -> 0 <= i < n ->
  dfa_step dfa i c = Some q <-> exists k t, (i, (k, t)) ∈ edges ts l (seqZ 0 n) /\ tr_target t = q /\ label_reads l k c.
Proof.
  intros Hl Hlookup Hi. destruct (node_aligned l Hl Hlookup i Hi) as [Ha1 Ha2]. destruct (node_at i Hi) as (_ & _ & Hs & _).
  change (dfa_step dfa i c) with (trans_target (ts i) c). rewrite trans_at_target. split.
  - destruct (trans_at (ts i) c) as [t|] eqn:E; [|done]. intros [= <-]. destruct (trans_at_Some _ _ _ E) as [Ht Hc]. destruct (Ha1 t c Ht Hc) as (r & Hr & Hrc).
    destruct (ranges_elem_first _ _ _ Hl Hr) as (Hb & _). pose proof Hr as (j & Hj)%list_elem_of_lookup. exists (Z.of_nat j), t. split_and!; [|done|].
    + apply elem_of_edges. split; [apply elem_of_seqZ; lia|]. apply labelled_lookup. exists j, r. split_and!; [lia|done|].
      rewrite <- E. apply (Ha2 r); [done| |done]. unfold range_covers. ztest; lia.
    + split; [lia|]. exists r. by rewrite Nat2Z.id.
  - intros (k & t & He & <- & Hk & r & Hr & Hc). apply (edge_ok l) in He as (_ & _ & _ & r' & Hr' & Ht). rewrite Hr in Hr'. injection Hr' as <-.
    assert (Hrl : r ∈ l) by (by eapply list_elem_of_lookup_2). destruct (ranges_elem_first _ _ _ Hl Hrl) as (Hb & _).
    rewrite (Ha2 r c (or_first r) Hrl Hc), Ht; [done|]. unfold range_covers. ztest; lia.
Qed.

(** *** The tables *)

Section Tables.
Context (l : list (OtherRange (list tag))) (Hl : ranges_sorted 0 l).
Context (Hlookup : forall c, 0 <= c < 128 -> ranges_lookup l c = some_tags (tags_at ts (seqZ 0 n) c)).
Let T := edges ts l (seqZ 0 n).
Let m := vsize l.
Let N := vsize T.
Let Kt := map edge_target T.
Let Kl := map edge_label T.

Lemma nodes_nonneg : 0 <= n.
Proof. apply vsize_nonneg. Qed.

Lemma keys_few : vsize Kt < 2 ^ 32 /\ vsize Kl < 2 ^ 32 /\ length Kt = length T /\ vsize Kt = N /\ vsize Kl = N.
Proof. pose proof (edges_few l Hl). unfold Kt, Kl. rewrite !vsize_map, length_map. done. Qed.

Lemma label_used k : 0 <= k < m -> 0 < occ k Kl.
Proof.
  intros Hk. destruct (label_at l Hl Hlookup k Hk) as (r & _ & _ & E & Hne). unfold Kl, T. rewrite E. unfold vsize. destruct (or_data r); [done|simpl; lia].
Qed.

(** The data of a singular range is the size of its bucket. *)
Lemma bucket_sizes : map (fun r => tag_count (or_data r)) l = map (fun k => occ k Kl) (seqZ 0 m).
Proof.
  destruct keys_few as (_ & HNl & _). rewrite <- (tab_nodes l) at 1. rewrite map_map. apply map_ext_in. intros k Hk%list_elem_of_In. apply elem_of_seqZ in Hk.
  destruct (label_at l Hl Hlookup k) as (r & _ & Hr & E & _); [unfold m in *; lia|]. rewrite (list_lookup_total_correct _ _ _ Hr). unfold tag_count. rewrite <- E.
  change (map edge_label (edges ts l (seqZ 0 n))) with Kl. apply u32_small. pose proof (below_bounds (k + 1) Kl) as Hb. rewrite below_succ in Hb.
  pose proof (below_bounds k Kl). pose proof (occ_nonneg k Kl). lia.
Qed.

Lemma count_incoming_spec : count_incoming dfa (map or_first l) = Done (tab n (fun q => occ q Kt)).
Proof.
  unfold count_incoming. rewrite loop_nodes. rewrite (ofold_ext _ (fun counts i => ofold (fun c e => vincrement c (edge_target e)) counts (node_edges ts l i))).
  2:{ intros s i Hi. rewrite (node_intersections l Hl Hlookup) by done. unfold node_edges. rewrite ofold_map. apply ofold_ext. intros s' [k t] _. done. }
  rewrite <- (ofold_bind (fun c e => vincrement c (edge_target e))). fold (edges ts l (seqZ 0 n)). fold T. rewrite <- (ofold_map vincrement edge_target). fold Kt.
  replace (length (dfa_nodes dfa)) with (Z.to_nat n) by (unfold n, vsize; lia). rewrite tab_const. apply count_keys; [apply nodes_nonneg|apply keys_few|apply (targets_ok l)].
Qed.

Lemma fill_loop_spec f0 :
  ofold (fun f '(i, node) => let* us := live_transitions dfa node in ofold (fill_transition (tab n (fun q => below q Kt)) i) f (intersections (map or_first l) 0 us))
    f0 (zip (seqZ 0 n) (dfa_nodes dfa)) = ofold (fill_edge T n) f0 T.
Proof.
  rewrite (loop_indexed (fun f i us => ofold (fill_transition (tab n (fun q => below q Kt)) i) f (intersections (map or_first l) 0 us))).
  change (ofold (fill_edge T n) f0 T) with (ofold (fill_edge T n) f0 (seqZ 0 n ≫= node_edges ts l)). rewrite ofold_bind. apply ofold_ext. intros s i Hi. rewrite (node_intersections l Hl Hlookup) by done. unfold node_edges. rewrite ofold_map. by apply ofold_ext.
Qed.

Lemma below_ends : below 0 Kl = 0 /\ below 0 Kt = 0 /\ below n Kt = N.
Proof.
  pose proof (targets_ok l) as Ht. pose proof (labels_ok l) as Hlb. change (map edge_target (edges ts l (seqZ 0 n))) with Kt in Ht. change (map edge_label (edges ts l (seqZ 0 n))) with Kl in Hlb.
  split_and!; [apply below_none; intros k Hk; specialize (Hlb k Hk); lia|apply below_none; intros k Hk; specialize (Ht k Hk); lia|].
  rewrite below_all by (intros q Hq; apply Ht in Hq; lia). apply keys_few.
Qed.

Lemma tables_spec rs : singular_transitions dfa = Done rs -> map mr_first rs = map or_first l -> map mr_data rs = map (fun r => tag_count (or_data r)) l ->
  exists fl el ps mp, newFullGraphPartition dfa = Done (mkFullGraphPartition (tab n (fun q => below q Kt)) (tab n (fun q => occ q Kt)) (tab N fl) (initialize n)
      (mkPartition (tab m (bucket Kl)) (tab N el) (tab N ps) (tab N mp) []) 0) /\
    part_ok (mkPartition (tab m (bucket Kl)) (tab N el) (tab N ps) (tab N mp) []) N [] /\
    forall j, (j < length T)%nat -> fl (slot Kt j) = fst (T !!! j) /\ mp (slot Kt j) = Kl !!! j.
Proof.
  intros Es Hf Hd. destruct keys_few as (HNt & HNl & Lt & VN & _). destruct below_ends as (B0 & B1 & B2). pose proof nodes_nonneg as Hn.
  assert (Hrs : vsize rs = m) by (apply (f_equal length) in Hf; rewrite !length_map in Hf; unfold m, vsize; lia).
  rewrite bucket_sizes, <- Hrs in Hd. pose proof (add_buckets Kl rs HNl 0 emptyPartition Hd) as Eb. rewrite B0, Hrs in Eb. cbn [m_sets emptyPartition app with_sets] in Eb.
  pose proof (accumulate_counts Kt (Z.to_nat n) HNt 0) as Ea. rewrite B1, Z2Nat.id, Z.add_0_l, B2 in Ea by done.
  unfold newFullGraphPartition. rewrite Es. cbn [obind]. rewrite Eb, Hf, count_incoming_spec. cbn [obind]. unfold tab at 1. rewrite Ea.
  change (map (fun q => below q Kt) (seqZ 0 n)) with (tab n (fun q => below q Kt)). change (map (bucket Kl) (seqZ 0 m)) with (tab m (bucket Kl)).
  unfold reserveUninitializedCapacity. cbn [m_sets with_sets m_setsMarkedInCurrentGeneration emptyPartition].
  replace (length (tab m (bucket Kl))) with (Z.to_nat m) by (unfold tab; rewrite length_map, length_seqZ; done). rewrite !tab_const, fill_loop_spec.
  destruct (fill_all T n m (targets_ok l) (labels_ok l) (length T) ltac:(lia)) as (f & fl & el & ps & mp & Ef & Hfill). rewrite firstn_all in Ef.
  change (vsize (dfa_nodes dfa)) with n. change (map edge_label T) with Kl in Ef. change (vsize T) with N in Ef. rewrite Ef. cbn [obind].
  destruct (filled_partition T n m (labels_ok l) (vsize_nonneg l) f fl el ps mp label_used Hfill) as [Hpart Hval]. destruct Hfill as [-> _].
  cbn [f_flattenedTransitions f_sizePerNode f_transitionPartition]. change (map edge_target T) with Kt. rewrite firstn_all2 by lia. by exists fl, el, ps, mp.
Qed.

(** *** The graph they describe *)

(** The edge at a place. *)
Definition edge_at (p : Z) : edge := T !!! unslot Kt p.

Lemma edge_at_spec p : 0 <= p < N -> T !! unslot Kt p = Some (edge_at p) /\ slot Kt (unslot Kt p) = p /\ (unslot Kt p < length T)%nat /\ edge_at p ∈ T /\
  Kt !!! unslot Kt p = edge_target (edge_at p) /\ Kl !!! unslot Kt p = edge_label (edge_at p).
Proof.
  intros Hp. destruct keys_few as (_ & _ & Lt & VN & _). destruct (unslot_spec Kt p) as [Hlt E]; [lia|].
  destruct (lookup_lt_is_Some_2 T (unslot Kt p)) as [e He]; [lia|]. destruct (key_at T _ _ He) as (E1 & E2 & E3). unfold edge_at. rewrite E3.
  split_and!; try done; [lia|by eapply list_elem_of_lookup_2].
Qed.

Lemma edges_graph fl el ps mp : (forall j, (j < length T)%nat -> fl (slot Kt j) = fst (T !!! j) /\ mp (slot Kt j) = Kl !!! j) ->
  graph dfa (mkFullGraphPartition (tab n (fun q => below q Kt)) (tab n (fun q => occ q Kt)) (tab N fl) (initialize n)
      (mkPartition (tab m (bucket Kl)) (tab N el) (tab N ps) (tab N mp) []) 0)
    N (fun p => fst (edge_at p)) (fun p => edge_label (edge_at p)) (fun p => edge_target (edge_at p)) (label_reads l).
Proof.
  intros Hval. destruct keys_few as (_ & _ & Lt & VN & _).
  assert (Hok : forall p, 0 <= p < N -> 0 <= fst (edge_at p) < n /\ 0 <= edge_target (edge_at p) < n).
  { intros p Hp. destruct (edge_at_spec p Hp) as (_ & _ & _ & Hin & _). destruct (edge_at p) as [i [k t]]. apply (edge_ok l) in Hin. cbn. tauto. }
  constructor; cbn [m_flattenedTransitions m_flattenedTransitionsStartOffsetPerNode m_flattenedTransitionsSizePerNode].
  - intros p Hp. split; [|by apply Hok]. rewrite vget_tab by done. destruct (edge_at_spec p Hp) as (_ & Es & Hlt & _). destruct (Hval _ Hlt) as [Hfl _]. rewrite Es in Hfl. by rewrite Hfl.
  - intros p Hp. by apply Hok.
  - apply vsize_tab, vsize_nonneg.
  - intros q Hq. exists (below q Kt), (occ q Kt). split; [by rewrite vget_tab|]. split; [by rewrite vget_tab|]. intros p. split.
    + intros Hp. assert (HpN : 0 <= p < N). { pose proof (below_bounds q Kt). pose proof (below_bounds (q + 1) Kt) as Hb. rewrite below_succ in Hb. lia. }
      split; [done|]. destruct (edge_at_spec p HpN) as (_ & Es & Hlt & _ & E1 & _). rewrite <- Es in Hp. apply slot_key in Hp; [congruence|lia].
    + intros [HpN <-]. destruct (edge_at_spec p HpN) as (_ & Es & Hlt & _ & <- & _). pose proof (slot_bucket Kt (unslot Kt p) ltac:(lia)) as Hb. rewrite Es in Hb. lia.
  - intros p p' Hp Hp' E1 E2. pose proof (edges_NoDup ts l (seqZ 0 n) (NoDup_seqZ 0 n)) as Hnd. fold T in Hnd.
    destruct (edge_at_spec p Hp) as (L1 & S1 & _). destruct (edge_at_spec p' Hp') as (L2 & S2 & _). rewrite <- S1, <- S2. f_equal.
    apply (NoDup_lookup _ _ _ (fst (edge_at p), edge_label (edge_at p)) Hnd); change (map ?g T) with (g <$> T); rewrite list_lookup_fmap.
    + by rewrite L1.
    + rewrite L2. cbn. by rewrite E1, E2.
  - intros i c q Hi. rewrite (edge_step l i c q Hl Hlookup Hi). fold T. split.
    + intros (k & t & He & Hq & Hr). pose proof He as (j & Hj)%list_elem_of_lookup. pose proof (lookup_lt_Some _ _ _ Hj) as Hlt. exists (slot Kt j).
      pose proof (slot_bounds Kt j ltac:(lia)) as Hb. rewrite VN in Hb. split; [done|]. unfold edge_at. rewrite unslot_slot by lia. by rewrite (list_lookup_total_correct _ _ _ Hj).
    + intros (p & Hp & Hs & Hq & Hr). destruct (edge_at_spec p Hp) as (_ & _ & _ & Hin & _). destruct (edge_at p) as [i' [k t]]. cbn in *. subst i'. by exists k, t.
  - intros k k' c (Hk & r & Hr & Hc) (Hk' & r' & Hr' & Hc'). pose proof (ranges_index _ _ _ _ _ _ _ Hl Hr Hr' Hc Hc'). lia.
  - intros p Hp. destruct (edge_at_spec p Hp) as (_ & _ & _ & Hin & _). destruct (edge_at p) as [i [k t]]. apply (edge_ok l) in Hin as (_ & Hk & _ & r & Hr & _).
    assert (Hrl : r ∈ l) by (by eapply list_elem_of_lookup_2). destruct (ranges_elem_first _ _ _ Hl Hrl) as (Hb & Hb' & _). exists (or_first r). split; [lia|].
    split; [cbn; lia|]. exists r. split; [done|]. unfold range_covers. ztest; lia.
Qed.
End Tables.

(** The constructor returns, and its tables are the graph of the DFA. *)
Lemma newFullGraphPartition_spec : exists g N src lab tgt reads, newFullGraphPartition dfa = Done g /\ graph dfa g N src lab tgt reads /\
  part_ok (m_transitionPartition g) N [] /\ m_setsMarkedInCurrentGeneration (m_transitionPartition g) = [] /\
  (forall p, 0 <= p < N -> cls (m_transitionPartition g) p = lab p) /\ m_nodePartition g = initialize n /\ m_nextTransitionSetToProcess g = 0.
Proof.
  destruct singular_transitions_spec as (rs & l & Es & Hf & Hd & Hl & Hlookup). destruct (tables_spec l Hl Hlookup rs Es Hf Hd) as (fl & el & ps & mp & E & Hp & Hval).
  eexists _, _, _, _, _, _. split; [exact E|]. split; [by apply edges_graph|]. cbn [m_transitionPartition m_nodePartition m_nextTransitionSetToProcess m_setsMarkedInCurrentGeneration].
  split_and!; try done. intros p Hp'. cbn [m_elementToSetMap]. rewrite (list_lookup_total_correct _ _ (mp p)) by (by apply lookup_tab).
  destruct (edge_at_spec l Hl p Hp') as (_ & S1 & Hlt & _ & _ & E2). destruct (Hval _ Hlt) as [_ Hmp]. rewrite S1 in Hmp. congruence.
Qed.
End Constructor.
