(* ===== verification/MinimizerRefine.v ===== *)
(** * Refining the partitions of the graph

    The sets of edges always are the edges with the same label into the same
    set of nodes.  The main loop ends with sets of nodes that agree, for every
    label, on the set their edge leads to; nodes that behave alike are never
    separated. *)

From S2P Require Import Prelude Containers Dfa RangeList DfaMerger DfaMinimizer PartitionProofs MinimizerGraph MinimizerTables.

#[local] Arguments vsize {A} v : simpl never.

(** ** More on partitions *)

Lemma elements_NoDup p n marked : part_ok p n marked -> NoDup (m_partitionedElements p).
Proof.
  intros Hp. apply NoDup_alt. intros i j x Hi Hj. pose proof (lookup_lt_Some _ _ _ Hi) as Li. pose proof (lookup_lt_Some _ _ _ Hj) as Lj.
  pose proof (po_elements _ _ _ Hp) as Hs. unfold vsize in Hs. destruct (po_elt _ _ _ Hp (Z.of_nat i)) as [_ E1]; [lia|]. destruct (po_elt _ _ _ Hp (Z.of_nat j)) as [_ E2]; [lia|].
  rewrite Nat2Z.id in E1, E2. rewrite (list_lookup_total_correct _ _ _ Hi) in E1. rewrite (list_lookup_total_correct _ _ _ Hj) in E2. lia.
Qed.

Lemma vslice_NoDup {A} (v : list A) b e l : vslice v b e = Done l -> NoDup v -> NoDup l.
Proof.
  unfold vslice. destruct (e <=? b); [intros [= <-] _; constructor|]. destruct (_ && _); [|done]. intros [= <-] Hv.
  apply (sublist_NoDup _ v); [done|]. etrans; [apply sublist_take|apply sublist_drop].
Qed.

(** The elements of a set. *)
Lemma iterateSet_spec p n marked k : part_ok p n marked -> 0 <= k < partition_size p ->
  exists l, iterateSet p k = Done l /\ NoDup l /\ forall x, x ∈ l <-> 0 <= x < n /\ cls p x = k.
Proof.
  intros Hp Hk. destruct (po_sets _ _ _ Hp k Hk) as (S1 & S2 & S3 & S4). unfold iterateSet. rewrite (vget_at (m_sets p)) by done. cbn [obind].
  destruct (vslice_at (m_partitionedElements p) (sd_start (set_of p k)) (sd_end (set_of p k))) as (l & E & _ & Hl);
    [done|unfold sd_end; lia|rewrite (po_elements _ _ _ Hp); done|]. exists l. split; [done|]. split; [eapply vslice_NoDup; [done|by eapply elements_NoDup]|].
  intros x. rewrite Hl. split.
  - intros (q & Hq & <-). destruct (po_elt _ _ _ Hp q) as [He _]; [unfold sd_end in Hq; lia|]. split; [done|]. apply (po_members _ _ _ Hp); [done|]. done.
  - intros [Hx <-]. destruct (po_cls _ _ _ Hp x Hx) as [_ Hin]. destruct (po_pos _ _ _ Hp x Hx) as [_ Ex]. by exists (pos p x).
Qed.

(** There are at most as many sets as elements. *)
Lemma partition_size_bound p n marked : 0 <= n -> part_ok p n marked -> partition_size p <= n.
Proof.
  intros Hn Hp. set (f := fun i => elt p (sd_start (set_of p i))).
  assert (Hf : forall i, 0 <= i < partition_size p -> 0 <= f i < n /\ cls p (f i) = i).
  { intros i Hi. destruct (po_sets _ _ _ Hp i Hi) as (S1 & S2 & S3 & _). split; [apply (po_elt _ _ _ Hp); lia|].
    apply (po_members _ _ _ Hp); [done|]. unfold in_set. lia. }
  assert (Hlen : (length (map f (seqZ 0 (partition_size p))) <= length (seqZ 0 n))%nat).
  { apply NoDup_incl_length.
    - apply NoDup_ListNoDup, (NoDup_fmap_2_strong f); [|apply NoDup_seqZ]. intros i j Hi Hj E. apply elem_of_seqZ in Hi, Hj.
      destruct (Hf i ltac:(lia)) as [_ E1]. destruct (Hf j ltac:(lia)) as [_ E2]. congruence.
    - intros x (i & <- & Hi)%in_map_iff. apply list_elem_of_In, elem_of_seqZ in Hi. apply list_elem_of_In, elem_of_seqZ. destruct (Hf i ltac:(lia)) as [? _]. lia. }
  rewrite length_map, !length_seqZ in Hlen. unfold partition_size in *. pose proof (vsize_nonneg (m_sets p)). lia.
Qed.

(** Without marks in a generation no element is marked. *)
Lemma unmarked p n x : part_ok p n [] -> 0 <= x < n -> ~ is_marked p x.
Proof. intros Hp Hx Hm. by apply (marked_set _ _ _ _ Hp Hx), elem_of_nil in Hm. Qed.

Section Refine.
Context (dfa : DFA) (g0 : FullGraphPartition) (N : Z) (src lab tgt : Z -> Z) (reads : Z -> Z -> Prop) (Hgraph : graph dfa g0 N src lab tgt reads).
Abbreviation n := (vsize (dfa_nodes dfa)).

(** The sets of edges are the labels into the sets of nodes. *)
Record balanced (np tp : Partition) : Prop := {
  ba_ok : part_ok tp N [];
  ba_marks : m_setsMarkedInCurrentGeneration tp = [];
  ba_sets : forall p p', 0 <= p < N -> 0 <= p' < N -> cls tp p = cls tp p' <-> lab p = lab p' /\ cls np (tgt p) = cls np (tgt p')
}.

(** The sets of [tp] keep their index or have a new one. *)
Record grown (tp tp' : Partition) : Prop := {
  gw_index : forall p, 0 <= p < N -> cls tp' p = cls tp p \/ partition_size tp <= cls tp' p;
  gw_size : partition_size tp <= partition_size tp'
}.

Lemma grown_refl tp : grown tp tp.
Proof. constructor; [auto|done]. Qed.

Lemma grown_trans tp1 tp2 tp3 : grown tp1 tp2 -> grown tp2 tp3 -> grown tp1 tp3.
Proof. intros [I1 S1] [I2 S2]. constructor; [|lia]. intros p Hp. destruct (I1 p Hp), (I2 p Hp); [left; congruence|right; lia..]. Qed.

Lemma grown_refined tp tp' : refined N tp tp' -> grown tp tp'.
Proof. intros [R1 R2 R3]. by constructor. Qed.

(** ** Splitting the edges by a new set of nodes *)

Definition edges_into (q : Z) : list Z := seqZ (zat (m_flattenedTransitionsStartOffsetPerNode g0) q) (zat (m_flattenedTransitionsSizePerNode g0) q).

Lemma edges_into_spec q : 0 <= q < n -> vget (m_flattenedTransitionsStartOffsetPerNode g0) q = Done (zat (m_flattenedTransitionsStartOffsetPerNode g0) q) /\
  vget (m_flattenedTransitionsSizePerNode g0) q = Done (zat (m_flattenedTransitionsSizePerNode g0) q) /\
  forall p, p ∈ edges_into q <-> 0 <= p < N /\ tgt p = q.
Proof.
  intros Hq. destruct (gr_incoming _ _ _ _ _ _ _ Hgraph q Hq) as (a & b & Ea & Eb & Hp).
  assert (Za : zat (m_flattenedTransitionsStartOffsetPerNode g0) q = a) by (apply vget_Done in Ea as [_ Ea]; by apply list_lookup_total_correct).
  assert (Zb : zat (m_flattenedTransitionsSizePerNode g0) q = b) by (apply vget_Done in Eb as [_ Eb]; by apply list_lookup_total_correct).
  unfold edges_into. rewrite Za, Zb. split_and!; [done|done|]. intros p. rewrite elem_of_seqZ. rewrite <- Hp. done.
Qed.

Lemma edges_into_all nodes : NoDup nodes -> (forall q, q ∈ nodes -> 0 <= q < n) ->
  NoDup (nodes ≫= edges_into) /\ forall p, p ∈ nodes ≫= edges_into <-> 0 <= p < N /\ tgt p ∈ nodes.
Proof.
  intros Hnd Hn. split.
  - induction nodes as [|q nodes IH]; [constructor|]. apply NoDup_cons in Hnd as [Hq Hnd]. change ((q :: nodes) ≫= edges_into) with (edges_into q ++ (nodes ≫= edges_into)).
    apply NoDup_app. split_and!; [apply NoDup_seqZ| |apply IH; [done|]; intros x Hx; apply Hn; by right].
    intros p Hp Hp'. apply edges_into_spec in Hp as [_ <-]; [|apply Hn; left]. apply list_elem_of_bind in Hp' as (x & Hp' & Hx).
    apply edges_into_spec in Hp' as [_ <-]; [done|]. apply Hn. by right.
  - intros p. rewrite list_elem_of_bind. split.
    + intros (q & Hp & Hq). apply edges_into_spec in Hp as [Hp <-]; [done|auto].
    + intros [Hp Hq]. exists (tgt p). split; [|done]. apply edges_into_spec; [auto|done].
Qed.

(** The tables of [g0] are never changed. *)
Definition same_tables (g : FullGraphPartition) : Prop :=
  m_flattenedTransitionsStartOffsetPerNode g = m_flattenedTransitionsStartOffsetPerNode g0 /\
  m_flattenedTransitionsSizePerNode g = m_flattenedTransitionsSizePerNode g0 /\ m_flattenedTransitions g = m_flattenedTransitions g0.

Lemma split_transitions_spec g np tp rest k : same_tables g -> part_ok np n rest -> 0 <= k < partition_size np -> part_ok tp N [] -> m_setsMarkedInCurrentGeneration tp = [] ->
  exists tp', split_transitions g np tp k = Done tp' /\ part_ok tp' N [] /\ m_setsMarkedInCurrentGeneration tp' = [] /\ grown tp tp' /\
    forall p p', 0 <= p < N -> 0 <= p' < N -> cls tp' p = cls tp' p' <-> cls tp p = cls tp p' /\ (cls np (tgt p) = k <-> cls np (tgt p') = k).
Proof.
  intros (E1 & E2 & _) Hnp Hk Htp Hm. destruct (iterateSet_spec np n rest k Hnp Hk) as (nodes & En & Hnd & Hin). unfold split_transitions. rewrite En. cbn [obind].
  assert (Hnodes : forall q, q ∈ nodes -> 0 <= q < n) by (intros q Hq; by apply Hin).
  rewrite (ofold_ext _ (fun p q => ofold markElementInCurrentGeneration p (edges_into q))).
  2:{ intros p q Hq. destruct (edges_into_spec q (Hnodes q Hq)) as (Ea & Eb & _). by rewrite E1, E2, Ea, Eb. }
  rewrite <- ofold_bind. destruct (edges_into_all nodes Hnd Hnodes) as [Hnd' Hin'].
  destruct (mark_all_spec N (nodes ≫= edges_into) tp) as (tp1 & -> & Htp1 & Hs1 & Hc1 & Hm1); [by rewrite Hm|done| |].
  { intros p Hp. apply Hin' in Hp as [Hp _]. split; [done|]. by apply unmarked with (n := N). }
  cbn [obind]. destruct (refine_only_spec N tp1 Htp1) as (tp2 & -> & Htp2 & Hm2 & Hr). cbn [obind].
  exists tp2. split_and!; try done.
  - apply grown_refined in Hr. destruct Hr as [I S]. rewrite Hs1 in I, S. rewrite Hc1 in I. by constructor.
  - assert (Hmk : forall p, 0 <= p < N -> is_marked tp1 p <-> cls np (tgt p) = k).
    { intros p Hp. rewrite Hm1, Hin', Hin by done. pose proof (gr_tgt _ _ _ _ _ _ _ Hgraph p Hp). split; [|by right].
      intros [Hu|(_ & _ & ?)]; [|done]. by apply (unmarked tp N) in Hu. }
    intros p p' Hp Hp'. rewrite (rf_split _ _ _ Hr) by done. rewrite Hc1, !Hmk by done. done.
Qed.

(** Refining the nodes by the marks, and the edges with them. *)
Lemma refinePartitions_spec g : same_tables g -> part_ok (m_nodePartition g) n (m_setsMarkedInCurrentGeneration (m_nodePartition g)) ->
  balanced (m_nodePartition g) (m_transitionPartition g) ->
  exists g', refinePartitions g = Done g' /\ same_tables g' /\ m_nextTransitionSetToProcess g' = m_nextTransitionSetToProcess g /\
    part_ok (m_nodePartition g') n [] /\ m_setsMarkedInCurrentGeneration (m_nodePartition g') = [] /\
    refined n (m_nodePartition g) (m_nodePartition g') /\ balanced (m_nodePartition g') (m_transitionPartition g') /\
    grown (m_transitionPartition g) (m_transitionPartition g').
Proof.
  intros Ht Hnp Hb. unfold refinePartitions.
  destruct (refineGeneration_spec (split_transitions g) n (fun np tp => balanced np tp /\ grown (m_transitionPartition g) tp))
    with (p := m_nodePartition g) (s := m_transitionPartition g) as (np' & tp' & E & Hnp' & Hm' & [Hb' Hg'] & Hr).
  - intros p1 p2 i new tp rest Hp2 Hs Hsz Hlt [[Ho Hm Hbs] Hg]. pose proof (vsize_nonneg (m_sets p1)) as Hnn.
    destruct (split_transitions_spec g p2 tp rest (partition_size p1) Ht Hp2) as (tp' & E & Ho' & Hm' & Hg' & Hc); [unfold partition_size in *; lia|done|done|].
    exists tp'. split; [done|]. split; [|by eapply grown_trans]. constructor; [done|done|]. intros p p' Hp Hp'. rewrite Hc, Hbs by done.
    pose proof (gr_tgt _ _ _ _ _ _ _ Hgraph p Hp) as Bt. pose proof (gr_tgt _ _ _ _ _ _ _ Hgraph p' Hp') as Bt'.
    pose proof (Hlt _ Bt) as L1. pose proof (Hlt _ Bt') as L2. pose proof (sb_new _ _ _ _ _ _ Hs _ Bt) as W1. pose proof (sb_new _ _ _ _ _ _ Hs _ Bt') as W2.
    rewrite (sb_class _ _ _ _ _ _ Hs _ Bt), (sb_class _ _ _ _ _ _ Hs _ Bt').
    destruct (new (tgt p)), (new (tgt p')); try (specialize (W1 eq_refl)); try (specialize (W2 eq_refl)); intuition (try lia; try congruence).
  - intros p1 p2 tp Hc Hs [[Ho Hm Hbs] Hg]. split; [|done]. constructor; [done|done|]. intros p p' Hp Hp'. rewrite Hbs by done.
    by rewrite !Hc by (by apply (gr_tgt _ _ _ _ _ _ _ Hgraph)).
  - done.
  - split; [done|apply grown_refl].
  - rewrite E. cbn [obind]. eexists. split; [done|]. by split_and!.
Qed.

(** ** The state of the minimizer *)

Record settled (g : FullGraphPartition) : Prop := {
  st_tables : same_tables g;
  st_ok : part_ok (m_nodePartition g) n [];
  st_marks : m_setsMarkedInCurrentGeneration (m_nodePartition g) = [];
  st_balanced : balanced (m_nodePartition g) (m_transitionPartition g)
}.

Abbreviation node_set g x := (cls (m_nodePartition g) x).
Abbreviation edge_set g p := (cls (m_transitionPartition g) p).

(** Marking nodes and refining splits the sets by the marks. *)
Lemma mark_and_refine g l : settled g -> NoDup l -> (forall x, x ∈ l -> 0 <= x < n) ->
  exists np g', ofold markElementInCurrentGeneration (m_nodePartition g) l = Done np /\ refinePartitions (set_nodePartition g np) = Done g' /\ settled g' /\
    m_nextTransitionSetToProcess g' = m_nextTransitionSetToProcess g /\ grown (m_transitionPartition g) (m_transitionPartition g') /\
    forall x y, 0 <= x < n -> 0 <= y < n -> node_set g' x = node_set g' y <-> node_set g x = node_set g y /\ (x ∈ l <-> y ∈ l).
Proof.
  intros [Ht Ho Hm Hb] Hnd Hl. destruct (mark_all_spec n l (m_nodePartition g)) as (np & E & Hnp & Hs & Hc & Hmk); [by rewrite Hm|done| |].
  { intros x Hx. split; [auto|]. apply unmarked with (n := n); auto. }
  destruct (refinePartitions_spec (set_nodePartition g np)) as (g' & Eg & Ht' & Hn' & Ho' & Hm' & Hr & Hb' & Hg'); [done|done| |].
  { destruct Hb as [B1 B2 B3]. constructor; [done|done|]. cbn [m_nodePartition m_transitionPartition set_nodePartition]. by rewrite Hc. }
  exists np, g'. split_and!; try done. intros x y Hx Hy. rewrite (rf_split _ _ _ Hr) by done. cbn [m_nodePartition set_nodePartition]. rewrite Hc, !Hmk by done.
  pose proof (unmarked _ _ x Ho Hx). pose proof (unmarked _ _ y Ho Hy). tauto.
Qed.

(** ** The main loop *)

(** The sets of edges before the next one have been used: nodes of one set
    agree on them, up to edges that are still to be used. *)
Definition processed (g : FullGraphPartition) : Prop :=
  forall p y, 0 <= p < N -> edge_set g p < m_nextTransitionSetToProcess g -> 0 <= y < n -> node_set g (src p) = node_set g y ->
    exists p', 0 <= p' < N /\ src p' = y /\ lab p' = lab p /\ (edge_set g p' = edge_set g p \/ m_nextTransitionSetToProcess g <= edge_set g p').

Definition finer (g g' : FullGraphPartition) : Prop := forall x y, 0 <= x < n -> 0 <= y < n -> node_set g' x = node_set g' y -> node_set g x = node_set g y.

(** The sources of the edges of one set are distinct. *)
Lemma sources_NoDup np tp l : balanced np tp -> NoDup l -> (forall p p', p ∈ l -> p' ∈ l -> 0 <= p < N /\ cls tp p = cls tp p') -> NoDup (map src l).
Proof.
  intros [_ _ Hb] Hnd Hl. apply (NoDup_fmap_2_strong src); [|done]. intros p p' Hp Hp' E. destruct (Hl p p' Hp Hp') as [Bp Ec]. destruct (Hl p' p Hp' Hp) as [Bp' _].
  apply Hb in Ec as [El _]; [|done|done]. by apply (gr_det _ _ _ _ _ _ _ Hgraph).
Qed.

Lemma split_by_set_spec g : settled g -> processed g -> 0 <= m_nextTransitionSetToProcess g < partition_size (m_transitionPartition g) ->
  exists g' l, split_by_set g = Done g' /\ settled g' /\ m_nextTransitionSetToProcess g' = m_nextTransitionSetToProcess g + 1 /\ processed g' /\
    (forall p, p ∈ l <-> 0 <= p < N /\ edge_set g p = m_nextTransitionSetToProcess g) /\
    forall x y, 0 <= x < n -> 0 <= y < n -> node_set g' x = node_set g' y <-> node_set g x = node_set g y /\ (x ∈ map src l <-> y ∈ map src l).
Proof.
  intros Hst Hpr Hnext. pose proof Hst as [Ht Ho Hm Hb]. destruct (iterateSet_spec _ N [] _ (ba_ok _ _ Hb) Hnext) as (l & El & Hnd & Hin).
  assert (Hsrc : forall p, p ∈ l -> vget (m_flattenedTransitions g) p = Done (src p) /\ 0 <= src p < n).
  { intros p Hp. destruct Ht as (_ & _ & ->). apply (gr_src _ _ _ _ _ _ _ Hgraph). by apply Hin. }
  assert (Hnd' : NoDup (map src l)).
  { apply (sources_NoDup _ _ l Hb Hnd). intros p p' Hp Hp'. apply Hin in Hp as [? ->], Hp' as [_ ->]. done. }
  destruct (mark_and_refine g (map src l) Hst Hnd') as (np & g' & E1 & E2 & Hst' & En & Hgr & Hcls).
  { intros x Hx. apply list_elem_of_In, in_map_iff in Hx as (p & <- & Hp). apply list_elem_of_In in Hp. by apply Hsrc. }
  unfold split_by_set. rewrite El. cbn [obind]. rewrite (ofold_ext _ (fun np p => markElementInCurrentGeneration np (src p))).
  2:{ intros np' p Hp. destruct (Hsrc p Hp) as [-> _]. done. }
  rewrite <- (ofold_map markElementInCurrentGeneration src), E1. cbn [obind]. rewrite E2. cbn [obind]. eexists _, l. split; [done|].
  cbn [m_nodePartition m_transitionPartition m_nextTransitionSetToProcess]. rewrite En.
  split; [|split; [done|split; [|split; [done|done]]]].
  { destruct Hst' as [T1 T2 T3 T4]. by constructor. }
  intros p y Hp Hlt Hy Hxy. cbn [m_nodePartition m_transitionPartition m_nextTransitionSetToProcess] in *.
  destruct Hgr as [Hi Hsz]. assert (Ep : edge_set g' p = edge_set g p) by (destruct (Hi p Hp); [done|lia]).
  destruct (gr_src _ _ _ _ _ _ _ Hgraph p Hp) as [_ Bs]. apply Hcls in Hxy as [Hxy Hmk]; [|done|done].
  assert (Hnew : forall p', 0 <= p' < N -> edge_set g p' = edge_set g p \/ m_nextTransitionSetToProcess g < edge_set g p' ->
    edge_set g' p' = edge_set g' p \/ m_nextTransitionSetToProcess g + 1 <= edge_set g' p').
  { intros p' Hp' Hc. destruct (Hi p' Hp') as [->|?]; [|right; lia]. rewrite Ep. destruct Hc; [by left|right; lia]. }
  destruct (Z.eq_dec (edge_set g p) (m_nextTransitionSetToProcess g)) as [Eq|Hne].
  - assert (Hys : y ∈ map src l) by (apply Hmk, list_elem_of_In, in_map, list_elem_of_In, Hin; done).
    apply list_elem_of_In, in_map_iff in Hys as (p' & Es & Hp'). apply list_elem_of_In, Hin in Hp' as [Bp' Ec]. exists p'. split; [done|]. split; [done|]. split.
    + destruct (proj1 (ba_sets _ _ Hb p' p Bp' Hp)) as [? _]; [congruence|done].
    + apply Hnew; [done|]. left. congruence.
  - destruct (Hpr p y Hp ltac:(lia) Hy Hxy) as (p' & Bp' & Es & Elab & Hc). exists p'. split; [done|]. split; [done|]. split; [done|]. apply Hnew; [done|].
    destruct Hc as [Hc|Hc]; [by left|]. destruct (Z.eq_dec (edge_set g p') (m_nextTransitionSetToProcess g)) as [Eq|]; [|right; lia]. exfalso.
    assert (Hxs : src p ∈ map src l) by (apply Hmk; rewrite <- Es; apply list_elem_of_In, in_map, list_elem_of_In, Hin; done).
    apply list_elem_of_In, in_map_iff in Hxs as (p2 & Es2 & Hp2). apply list_elem_of_In, Hin in Hp2 as [Bp2 Ec2].
    destruct (proj1 (ba_sets _ _ Hb p2 p' Bp2 Bp')) as [El2 _]; [congruence|].
    assert (p2 = p) as -> by (apply (gr_det _ _ _ _ _ _ _ Hgraph); congruence). congruence.
Qed.

(** Whatever is kept by every iteration holds at the end, where all sets have
    been used. *)
Lemma split_loop_spec (I : FullGraphPartition -> Prop) :
  (forall g g' l, settled g -> I g -> settled g' -> (forall p, p ∈ l <-> 0 <= p < N /\ edge_set g p = m_nextTransitionSetToProcess g) ->
    (forall x y, 0 <= x < n -> 0 <= y < n -> node_set g' x = node_set g' y <-> node_set g x = node_set g y /\ (x ∈ map src l <-> y ∈ map src l)) -> I g') ->
  0 <= N -> forall fuel g, settled g -> processed g -> I g -> 0 <= m_nextTransitionSetToProcess g -> N - m_nextTransitionSetToProcess g <= Z.of_nat fuel ->
  exists g', split_loop fuel g = Done g' /\ settled g' /\ processed g' /\ I g' /\ partition_size (m_transitionPartition g') <= m_nextTransitionSetToProcess g'.
Proof.
  intros HI HN. induction fuel as [|fuel IH]; intros g Hst Hpr Hi H0 Hf; cbn [split_loop];
    pose proof (partition_size_bound _ N [] HN (ba_ok _ _ (st_balanced _ Hst))) as Hb;
    destruct (Z.ltb_spec (m_nextTransitionSetToProcess g) (partition_size (m_transitionPartition g))) as [Hlt|Hge]; try lia; try (by exists g).
  destruct (split_by_set_spec g Hst Hpr ltac:(lia)) as (g' & l & -> & Hst' & En & Hpr' & Hin & Hcls). cbn [obind].
  apply IH; [done|done|by eapply (HI g)|lia|lia].
Qed.

(** At the end nodes of one set have the same edges up to the sets. *)
Lemma end_bisimulation g : settled g -> processed g -> partition_size (m_transitionPartition g) <= m_nextTransitionSetToProcess g ->
  forall p y, 0 <= p < N -> 0 <= y < n -> node_set g (src p) = node_set g y ->
    exists p', 0 <= p' < N /\ src p' = y /\ lab p' = lab p /\ node_set g (tgt p) = node_set g (tgt p').
Proof.
  intros Hst Hpr Hend p y Hp Hy Hxy. pose proof (st_balanced _ Hst) as Hb. destruct (po_cls _ _ _ (ba_ok _ _ Hb) p Hp) as [Bp _].
  destruct (Hpr p y Hp ltac:(lia) Hy Hxy) as (p' & Hp' & Es & El & Hc). destruct (po_cls _ _ _ (ba_ok _ _ Hb) p' Hp') as [Bp' _].
  exists p'. split; [done|]. split; [done|]. split; [done|]. destruct Hc as [Hc|Hc]; [|lia]. apply (ba_sets _ _ Hb p' p Hp' Hp) in Hc as [_ ?]. done.
Qed.
End Refine.
