(* ===== verification/MinimizerProofs.v ===== *)
(** * The partition the minimizer computes

    The final states are separated by their actions; then the main loop
    separates the nodes by their edges.  At the end two nodes are in one set
    exactly when they have the same behaviour. *)

From S2P Require Import Prelude Containers Dfa RangeList DfaMerger DfaMinimizer PartitionProofs MinimizerGraph MinimizerTables MinimizerRefine.

#[local] Arguments vsize {A} v : simpl never.

(** ** Final states *)

Section FinalStates.
Context `{HashOrder} (dfa : DFA).
Context (Hread : forall i, 0 <= i < vsize (dfa_nodes dfa) -> node_actions (zat (dfa_nodes dfa) i) dfa = Done (dfa_node_actions dfa i)).
Context (Hlen : forall i, 0 <= i < vsize (dfa_nodes dfa) -> hasActions (zat (dfa_nodes dfa) i) = negb (bool_decide (dfa_node_actions dfa i = []))).
Abbreviation acts := (dfa_node_actions dfa).

(** The slots group the nodes [done] by their actions. *)
Record slots_ok (done : list Z) (slots : list (list Z * list Z)) : Prop := {
  so_nodup : NoDup (map fst slots);
  so_members : forall s, s ∈ slots -> NoDup (snd s) /\ forall i, i ∈ snd s <-> i ∈ done /\ acts i = fst s /\ fst s <> [];
  so_all : forall i, i ∈ done -> acts i <> [] -> exists s, s ∈ slots /\ fst s = acts i
}.

(** Adding a node to the slot of its key. *)
Lemma add_final_state_spec key i slots : NoDup (map fst slots) ->
  match add_final_state key i slots with
  | Some slots' => map fst slots' = map fst slots /\ key ∈ map fst slots /\
      forall s, s ∈ slots' <-> (s ∈ slots /\ fst s <> key) \/ exists nodes, (key, nodes) ∈ slots /\ s = (key, nodes ++ [i])
  | None => key ∉ map fst slots
  end.
Proof.
  induction slots as [|[k nodes] slots IH]; intros Hnd; cbn [add_final_state]; [apply not_elem_of_nil|].
  rewrite map_cons in *. cbn [fst] in *.
  apply NoDup_cons in Hnd as [Hk Hnd]. destruct (bool_decide_reflect (k = key)) as [->|Hne].
  - rewrite map_cons. cbn [fst]. split_and!; [done|left|]. intros s. rewrite !elem_of_cons. split.
    + intros [->|Hs]; [right; exists nodes; split; [by left|done]|]. left. split; [by right|]. intros E. apply Hk. rewrite <- E. apply list_elem_of_In, in_map. by apply list_elem_of_In.
    + intros [[[->|Hs] Hf]|(nodes' & [[= ->]|Hs]%elem_of_cons & ->)]; [by destruct Hf|by right|by left|]. exfalso. apply Hk. apply list_elem_of_In, in_map_iff. exists (key, nodes'). split; [done|]. by apply list_elem_of_In.
  - specialize (IH Hnd). destruct (add_final_state key i slots) as [slots'|]; [|by rewrite not_elem_of_cons]. destruct IH as (E & Hin & Hs). rewrite map_cons. cbn [fst]. split_and!; [by rewrite E|by right|].
    intros s. rewrite elem_of_cons, Hs. split.
    + intros [->|[[H1 H2]|(nodes' & H1 & H2)]]; [left; split; [left|done]|left; split; [by right|done]|right; exists nodes'; split; [by right|done]].
    + intros [[[->|H1]%elem_of_cons H2]|(nodes' & [[= -> ->]|H1]%elem_of_cons & H2)]; [by left|right; left; done|by destruct Hne|right; right; by exists nodes'].
Qed.

Lemma slots_step done i slots : i ∉ done -> slots_ok done slots -> acts i <> [] ->
  slots_ok (done ++ [i]) (match add_final_state (acts i) i slots with Some s => s | None => hash_place (acts i, [i]) slots end).
Proof.
  intros Hi [H1 H2 H3] Ha. pose proof (add_final_state_spec (acts i) i slots H1) as Hadd. assert (Hd : forall j, j ∈ done ++ [i] <-> j ∈ done \/ j = i) by (intros j; by rewrite elem_of_app, list_elem_of_singleton).
  assert (Hother : forall s, s ∈ slots -> fst s <> acts i -> NoDup (snd s) /\ forall j, j ∈ snd s <-> j ∈ done ++ [i] /\ acts j = fst s /\ fst s <> []).
  { intros s Hs Hne. destruct (H2 s Hs) as [Hn Hm]. split; [done|]. intros j. rewrite Hm, Hd. split; [tauto|]. intros [[?| ->] [E ?]]; [done|by destruct Hne]. }
  destruct (add_final_state (acts i) i slots) as [slots'|].
  - destruct Hadd as (E & Hin & Hs). constructor; [by rewrite E| |].
    + intros s [[Hs' Hne]|(nodes & Hs' & ->)]%Hs; [auto|]. destruct (H2 _ Hs') as [Hn Hm]. cbn [fst snd] in *. split.
      * apply NoDup_app. split_and!; [done| |apply NoDup_singleton]. intros j [Hj _]%Hm ->%list_elem_of_singleton. done.
      * intros j. rewrite elem_of_app, list_elem_of_singleton, Hm, Hd. split; [|tauto]. intros [?| ->]; tauto.
    + intros j [Hj| ->]%Hd Hj'.
      * destruct (H3 j Hj Hj') as ([k nodes] & Hk & Ek). cbn in Ek. destruct (decide (k = acts i)) as [->|Hne].
        -- exists (acts i, nodes ++ [i]). split; [apply Hs; right; by exists nodes|done].
        -- exists (k, nodes). split; [apply Hs; left; by split|done].
      * apply list_elem_of_In, in_map_iff in Hin as ([k nodes] & Ek & Hk). cbn in Ek. subst k. apply list_elem_of_In in Hk. exists (acts i, nodes ++ [i]).
        split; [apply Hs; right; by exists nodes|done].
  - assert (Hp : forall s, s ∈ hash_place (acts i, [i]) slots <-> s = (acts i, [i]) \/ s ∈ slots) by (intros s; rewrite hash_place_perm; apply elem_of_cons).
    assert (Hk : forall s, s ∈ slots -> fst s <> acts i) by (intros s Hs E; apply Hadd; rewrite <- E; apply list_elem_of_In, in_map; by apply list_elem_of_In).
    constructor.
    + change (NoDup (fst <$> hash_place (acts i, [i]) slots)). rewrite hash_place_perm. cbn. by constructor.
    + intros s [->|Hs]%Hp; [|auto]. cbn [fst snd]. split; [apply NoDup_singleton|]. intros j. rewrite list_elem_of_singleton, Hd. split; [intros ->; auto|].
      intros [[Hj| ->] [E _]]; [|done]. exfalso. destruct (H3 j Hj ltac:(congruence)) as (s & Hs & Es). apply (Hk s Hs). congruence.
    + intros j [Hj| ->]%Hd Hj'; [|exists (acts i, [i]); split; [apply Hp; by left|done]]. destruct (H3 j Hj Hj') as (s & Hs & Es). exists s. split; [apply Hp; by right|done].
Qed.

Lemma final_states_spec : exists slots, final_states dfa = Done slots /\ slots_ok (seqZ 0 (vsize (dfa_nodes dfa))) slots.
Proof.
  unfold final_states. rewrite zip_nodes, ofold_map.
  assert (Hloop : forall l, NoDup l -> (forall i, i ∈ l -> 0 <= i < vsize (dfa_nodes dfa)) -> exists slots,
    ofold (fun slots i => if hasActions (zat (dfa_nodes dfa) i) then
      let* key := node_actions (zat (dfa_nodes dfa) i) dfa in
      Done (match add_final_state key i slots with Some s => s | None => hash_place (key, [i]) slots end) else Done slots) [] l = Done slots /\ slots_ok l slots).
  { induction l as [|i l IH] using rev_ind; intros Hnd Hl.
    { exists []. split; [done|]. constructor; [constructor|by intros ? ?%elem_of_nil..]. }
    apply NoDup_app in Hnd as (Hnd & Hil & _). destruct IH as (slots & E & Hok); [done|intros j Hj; apply Hl, elem_of_app; by left|].
    assert (Hi : 0 <= i < vsize (dfa_nodes dfa)) by (apply Hl, elem_of_app; right; left). assert (Hni : i ∉ l) by (intros Hc; apply (Hil i Hc); left).
    rewrite ofold_app, E. cbn [obind ofold]. rewrite (Hread i Hi), (Hlen i Hi). cbn [obind]. case_bool_decide as Ha; cbn [negb obind].
    - exists slots. split; [done|]. destruct Hok as [H1 H2 H3]. assert (Hd : forall j, j ∈ l ++ [i] <-> j ∈ l \/ j = i) by (intros j; by rewrite elem_of_app, list_elem_of_singleton).
      constructor; [done| |].
      + intros s Hs. destruct (H2 s Hs) as [Hn Hm]. split; [done|]. intros j. rewrite Hm, Hd. split; [tauto|]. intros [[?| ->] [? ?]]; [done|congruence].
      + intros j [Hj| ->]%Hd Hj'; [auto|done].
    - eexists. split; [done|]. by apply slots_step. }
  apply Hloop; [apply NoDup_seqZ|]. intros i Hi%elem_of_seqZ. lia.
Qed.

(** Nodes have the same actions when no slot separates them. *)
Lemma slots_separate slots x y : slots_ok (seqZ 0 (vsize (dfa_nodes dfa))) slots -> 0 <= x < vsize (dfa_nodes dfa) -> 0 <= y < vsize (dfa_nodes dfa) ->
  (forall s, s ∈ slots -> x ∈ snd s <-> y ∈ snd s) <-> acts x = acts y.
Proof.
  intros [_ H2 H3] Hx Hy. assert (Bx : x ∈ seqZ 0 (vsize (dfa_nodes dfa))) by (apply elem_of_seqZ; lia). assert (By : y ∈ seqZ 0 (vsize (dfa_nodes dfa))) by (apply elem_of_seqZ; lia).
  split.
  - intros Hs. assert (Hone : forall a b, a ∈ seqZ 0 (vsize (dfa_nodes dfa)) -> b ∈ seqZ 0 (vsize (dfa_nodes dfa)) -> acts a <> [] -> (forall s, s ∈ slots -> a ∈ snd s -> b ∈ snd s) -> acts a = acts b).
    { intros a b Ba Bb Ha Hab. destruct (H3 a Ba Ha) as (s & Hsl & Es). destruct (H2 s Hsl) as [_ Hm]. specialize (Hab s Hsl). rewrite !Hm in Hab.
      destruct Hab as (_ & E & _); [split_and!; congruence|]. congruence. }
    destruct (decide (acts x = [])) as [Ex|Ex].
    + destruct (decide (acts y = [])) as [Ey|Ey]; [congruence|]. symmetry. apply Hone; try done. intros s Hsl. by apply Hs.
    + apply Hone; try done. intros s Hsl. by apply Hs.
  - intros E s Hs. destruct (H2 s Hs) as [_ Hm]. rewrite !Hm, E. tauto.
Qed.
End FinalStates.

(** ** The partition at the end *)

(** Two nodes behave alike: the same words can be read, and they lead to
    nodes with the same list of actions, in the same order: the minimizer tells
    nodes apart whose actions are listed in another order. *)
Definition same_behaviour (dfa : DFA) (x y : Z) : Prop :=
  forall w, match dfa_run dfa x w, dfa_run dfa y w with
            | Some a, Some b => dfa_node_actions dfa a = dfa_node_actions dfa b
            | None, None => True
            | _, _ => False
            end.

Lemma same_behaviour_sym dfa x y : same_behaviour dfa x y -> same_behaviour dfa y x.
Proof. intros Hxy w. specialize (Hxy w). by destruct (dfa_run dfa x w), (dfa_run dfa y w). Qed.

Lemma same_behaviour_step dfa x y c x' : same_behaviour dfa x y -> dfa_step dfa x c = Some x' -> exists y', dfa_step dfa y c = Some y' /\ same_behaviour dfa x' y'.
Proof.
  intros Hxy Hx. destruct (dfa_step dfa y c) as [y'|] eqn:Hy.
  - exists y'. split; [done|]. intros w. specialize (Hxy (c :: w)). cbn in Hxy. by rewrite Hx, Hy in Hxy.
  - specialize (Hxy [c]). cbn in Hxy. by rewrite Hx, Hy in Hxy.
Qed.

Section Partition.
Context (dfa : DFA) (g0 : FullGraphPartition) (N : Z) (src lab tgt : Z -> Z) (reads : Z -> Z -> Prop) (Hgraph : graph dfa g0 N src lab tgt reads).
Abbreviation n := (vsize (dfa_nodes dfa)).
Abbreviation acts := (dfa_node_actions dfa).
Abbreviation node_set g x := (cls (m_nodePartition g) x).
Context (Hnp : m_nodePartition g0 = initialize n) (Hnext : m_nextTransitionSetToProcess g0 = 0).
Context (Htp : part_ok (m_transitionPartition g0) N []) (Hmk : m_setsMarkedInCurrentGeneration (m_transitionPartition g0) = []).
Context (Hlab : forall p, 0 <= p < N -> cls (m_transitionPartition g0) p = lab p).
Abbreviation settled := (settled dfa g0 N lab tgt).
Abbreviation processed := (processed dfa N src lab).

Lemma start_settled : settled g0 /\ forall x y, 0 <= x < n -> 0 <= y < n -> node_set g0 x = node_set g0 y.
Proof.
  destruct (initialize_ok n (vsize_nonneg _)) as (Ho & Hm & Hc & _). split; [|intros x y Hx Hy; by rewrite Hnp, !Hc].
  constructor; rewrite ?Hnp; [done|done|done|]. constructor; [done|done|]. intros p p' Hp Hp'. rewrite !Hlab by done.
  rewrite !Hc by (by apply (gr_tgt _ _ _ _ _ _ _ Hgraph)). tauto.
Qed.

Lemma start_processed g : settled g -> m_nextTransitionSetToProcess g = 0 -> processed g.
Proof.
  intros Hst H0 p y Hp Hlt. destruct (po_cls _ _ _ (ba_ok _ _ _ _ _ (st_balanced _ _ _ _ _ _ Hst)) p Hp) as [? _]. lia.
Qed.

Lemma markNodes g l : ofold markNode g l = let* np := ofold markElementInCurrentGeneration (m_nodePartition g) l in Done (set_nodePartition g np).
Proof.
  revert g. induction l as [|x l IH]; intros g; [by destruct g|]. cbn [ofold]. unfold markNode at 1.
  destruct (markElementInCurrentGeneration (m_nodePartition g) x) as [np| |]; try done. cbn [obind]. rewrite IH. done.
Qed.

(** Separating the nodes by the slots. *)
Lemma final_loop_spec (slots : list (list Z * list Z)) : (forall s, s ∈ slots -> NoDup (snd s) /\ forall x, x ∈ snd s -> 0 <= x < n) ->
  exists g, ofold (fun g '(_, nodes) => let* g' := ofold markNode g nodes in refinePartitions g') g0 slots = Done g /\ settled g /\
    m_nextTransitionSetToProcess g = 0 /\
    forall x y, 0 <= x < n -> 0 <= y < n -> node_set g x = node_set g y <-> forall s, s ∈ slots -> x ∈ snd s <-> y ∈ snd s.
Proof.
  induction slots as [|[key nodes] slots IH] using rev_ind; intros Hs.
  { destruct start_settled as [Hst Hall]. exists g0. split_and!; try done. intros x y Hx Hy. split; [by intros _ s ?%elem_of_nil|auto]. }
  destruct IH as (g & E & Hst & H0 & Hc); [intros s Hs'; apply Hs, elem_of_app; by left|].
  destruct (Hs (key, nodes)) as [Hnd Hb]; [apply elem_of_app; right; left|]. cbn [snd] in *.
  destruct (mark_and_refine dfa g0 N src lab tgt reads Hgraph g nodes Hst Hnd Hb) as (np & g' & E1 & E2 & Hst' & En & _ & Hc').
  exists g'. rewrite ofold_app, E. cbn [obind ofold]. rewrite markNodes, E1. cbn [obind]. rewrite E2. cbn [obind]. split_and!; try done; [congruence|].
  intros x y Hx Hy. rewrite Hc', Hc by done. split.
  - intros [H1 H2] s [Hs'|Hs']%elem_of_app; [auto|]. apply list_elem_of_singleton in Hs' as ->. done.
  - intros Hall. split; [intros s Hs'; apply Hall, elem_of_app; by left|]. apply (Hall (key, nodes)), elem_of_app. right. left.
Qed.

(** What the sets of nodes satisfy in the main loop: the actions are the same
    in a set, and nodes that behave alike are in one set. *)
Definition sound_sets (g : FullGraphPartition) : Prop :=
  (forall x y, 0 <= x < n -> 0 <= y < n -> node_set g x = node_set g y -> acts x = acts y) /\
  (forall x y, 0 <= x < n -> 0 <= y < n -> same_behaviour dfa x y -> node_set g x = node_set g y).

Lemma same_behaviour_edge x y p : 0 <= y < n -> same_behaviour dfa x y -> 0 <= p < N -> src p = x ->
  exists p', 0 <= p' < N /\ src p' = y /\ lab p' = lab p /\ same_behaviour dfa (tgt p) (tgt p').
Proof.
  intros Hy Hxy Hp Hs. destruct (gr_src _ _ _ _ _ _ _ Hgraph p Hp) as [_ Bs]. destruct (gr_read _ _ _ _ _ _ _ Hgraph p Hp) as (c & _ & Hc).
  assert (Hstep : dfa_step dfa x c = Some (tgt p)) by (apply (gr_step _ _ _ _ _ _ _ Hgraph); [lia|by exists p]).
  destruct (same_behaviour_step _ _ _ _ _ Hxy Hstep) as (y' & Hstep' & Hb). apply (gr_step _ _ _ _ _ _ _ Hgraph) in Hstep' as (p' & Hp' & Hs' & <- & Hc'); [|done].
  exists p'. split; [done|]. split; [done|]. split; [|done]. by apply (gr_reads _ _ _ _ _ _ _ Hgraph _ _ c).
Qed.

Lemma sound_sets_step g g' l : settled g -> sound_sets g -> settled g' ->
  (forall p, p ∈ l <-> 0 <= p < N /\ cls (m_transitionPartition g) p = m_nextTransitionSetToProcess g) ->
  (forall x y, 0 <= x < n -> 0 <= y < n -> node_set g' x = node_set g' y <-> node_set g x = node_set g y /\ (x ∈ map src l <-> y ∈ map src l)) -> sound_sets g'.
Proof.
  intros Hst [Ha Hb] _ Hl Hc. split; [intros x y Hx Hy [He _]%Hc; auto|]. intros x y Hx Hy Hxy. apply Hc; [done|done|]. split; [by apply Hb|].
  assert (Hone : forall a b, 0 <= b < n -> same_behaviour dfa a b -> a ∈ map src l -> b ∈ map src l).
  { intros a b Bb Hab Hin. apply list_elem_of_In, in_map_iff in Hin as (p & Hs & Hp). apply list_elem_of_In, Hl in Hp as [Hp Hset].
    destruct (same_behaviour_edge a b p Bb Hab Hp Hs) as (p' & Hp' & Hs' & Hlb & Htb). rewrite <- Hs'. apply list_elem_of_In, in_map, list_elem_of_In, Hl. split; [done|].
    rewrite <- Hset. apply (ba_sets _ _ _ _ _ (st_balanced _ _ _ _ _ _ Hst)); [done|done|]. split; [done|]. symmetry. apply Hb; [by apply (gr_tgt _ _ _ _ _ _ _ Hgraph)..|done]. }
  split; apply Hone; try done. by apply same_behaviour_sym.
Qed.

(** The whole refinement. *)
Lemma minimizer_partition slots : slots_ok dfa (seqZ 0 n) slots ->
  exists g1 g2, ofold (fun g '(_, nodes) => let* g' := ofold markNode g nodes in refinePartitions g') g0 slots = Done g1 /\ splitByUniqueTransitions g1 = Done g2 /\
    part_ok (m_nodePartition g2) n [] /\ sound_sets g2 /\
    forall x y c, 0 <= x < n -> 0 <= y < n -> node_set g2 x = node_set g2 y ->
      match dfa_step dfa x c, dfa_step dfa y c with Some a, Some b => node_set g2 a = node_set g2 b | None, None => True | _, _ => False end.
Proof.
  intros Hslots. destruct (final_loop_spec slots) as (g1 & E1 & Hst1 & H01 & Hc1).
  { intros s Hs. destruct (so_members _ _ _ Hslots s Hs) as [Hnd Hm]. split; [done|]. intros x (Hx & _)%Hm. apply elem_of_seqZ in Hx. lia. }
  assert (Hsz : vsize (m_flattenedTransitions g1) = N). { destruct (st_tables _ _ _ _ _ _ Hst1) as (_ & _ & ->). apply (gr_size _ _ _ _ _ _ _ Hgraph). }
  assert (Hsound : sound_sets g1).
  { split.
    - intros x y Hx Hy He. apply (slots_separate dfa slots); [done..|]. by apply Hc1.
    - intros x y Hx Hy Hxy. apply Hc1; [done|done|]. apply (slots_separate dfa slots); [done..|]. apply (Hxy []). }
  destruct (split_loop_spec dfa g0 N src lab tgt reads Hgraph sound_sets sound_sets_step) with (g := g1) (fuel := (length (m_sets (m_transitionPartition g1)) + length (m_flattenedTransitions g1))%nat)
    as (g2 & E2 & Hst2 & Hp2 & Hs2 & Hend); try done; [rewrite <- Hsz; apply vsize_nonneg|by apply start_processed|lia|rewrite H01; unfold vsize in Hsz; lia|].
  exists g1, g2. split; [done|]. split; [done|]. split; [apply (st_ok _ _ _ _ _ _ Hst2)|]. split; [done|]. intros x y c Hx Hy Hxy.
  assert (Hone : forall a b a', 0 <= a < n -> 0 <= b < n -> node_set g2 a = node_set g2 b -> dfa_step dfa a c = Some a' -> exists b', dfa_step dfa b c = Some b' /\ node_set g2 a' = node_set g2 b').
  { intros a b a' Ba Bb Hab Hstep. apply (gr_step _ _ _ _ _ _ _ Hgraph) in Hstep as (p & Hp & <- & <- & Hr); [|done].
    destruct (end_bisimulation dfa g0 N src lab tgt g2 Hst2 Hp2 Hend p b Hp Bb Hab) as (p' & Hp' & Hs' & Hl' & Ht'). exists (tgt p'). split; [|done].
    apply (gr_step _ _ _ _ _ _ _ Hgraph); [done|]. exists p'. by rewrite Hl'. }
  destruct (dfa_step dfa x c) as [a|] eqn:Ea.
  - destruct (Hone x y a Hx Hy Hxy Ea) as (b & -> & Hab). done.
  - destruct (dfa_step dfa y c) as [b|] eqn:Eb; [|done]. destruct (Hone y x b Hy Hx (eq_sym Hxy) Eb) as (a & E & _). congruence.
Qed.
End Partition.
