(* ===== verification/MinimizerRelocate.v ===== *)
(** * Relocating the nodes of a DFA

    After the refinement every node is replaced by the first one of its set:
    the others are killed, and the transitions are redirected.  Killing a node
    overwrites its slices, which no other node shares. *)

From S2P Require Import Prelude Containers Dfa RangeList DfaMerger DfaMinimizer PartitionProofs MinimizerGraph MinimizerTables MinimizerRefine MinimizerProofs.

#[local] Arguments vsize {A} v : simpl never.

#[global] Instance CharRange_inhabited : Inhabited CharRange := populate (mkCharRange 0 0).

(** ** Slices *)

Lemma vslice_read {A} `{Inhabited A} (v : list A) b len : (0 < len -> 0 <= b /\ b + len <= vsize v) ->
  vslice v b (b + len) = Done (map (fun k => zat v k) (seqZ b len)).
Proof.
  intros Hb. unfold vslice. destruct (Z.leb_spec (b + len) b) as [Hle|Hlt]; [by rewrite seqZ_nil by lia|].
  destruct Hb as [Hb1 Hb2]; [lia|]. destruct (Z.leb_spec 0 b); [|lia]. destruct (Z.leb_spec (b + len) (vsize v)); [|lia]. cbn [andb]. f_equal.
  apply list_eq. intros i. change (map (fun k => zat v k) (seqZ b len)) with ((fun k => zat v k) <$> seqZ b len). rewrite list_lookup_fmap. unfold vsize in *.
  destruct (decide (i < Z.to_nat len)%nat) as [Hi|Hi].
  - rewrite lookup_take_lt, lookup_drop, lookup_seqZ_lt by lia. cbn. rewrite (list_lookup_lookup_total_lt v) by lia. f_equal. f_equal. lia.
  - rewrite lookup_take_ge, lookup_seqZ_ge by lia. done.
Qed.

Lemma vslice_bounds {A} (v : list A) b len l : vslice v b (b + len) = Done l -> 0 < len -> 0 <= b /\ b + len <= vsize v.
Proof.
  unfold vslice. destruct (Z.leb_spec (b + len) b); [lia|]. destruct (Z.leb_spec 0 b), (Z.leb_spec (b + len) (vsize v)); done || lia.
Qed.

Definition transitions_slice (node : DFANode) : list Z := seqZ (m_transitionsStart node) (m_transitionsLength node).
Definition actions_slice (node : DFANode) : list Z := seqZ (m_actionsStart node) (m_actionsLength node).

(** The nodes of a DFA share no slices. *)
Record slices_ok (dfa : DFA) : Prop := {
  sl_lengths : forall node, node ∈ dfa_nodes dfa -> 0 <= m_actionsLength node;
  sl_transitions : forall i j x, 0 <= i < vsize (dfa_nodes dfa) -> 0 <= j < vsize (dfa_nodes dfa) ->
    x ∈ transitions_slice (zat (dfa_nodes dfa) i) -> x ∈ transitions_slice (zat (dfa_nodes dfa) j) -> i = j;
  sl_actions : forall i j x, 0 <= i < vsize (dfa_nodes dfa) -> 0 <= j < vsize (dfa_nodes dfa) ->
    x ∈ actions_slice (zat (dfa_nodes dfa) i) -> x ∈ actions_slice (zat (dfa_nodes dfa) j) -> i = j
}.

(** The slices of a node can be read in [dfa]. *)
Record readable (dfa : DFA) (node : DFANode) : Prop := {
  rd_ranges : forall x, x ∈ transitions_slice node -> 0 <= x < vsize (dfa_transitionRanges dfa);
  rd_dests : forall x, x ∈ transitions_slice node -> 0 <= x < vsize (dfa_transitionDestinations dfa);
  rd_actions : forall x, x ∈ actions_slice node -> 0 <= x < vsize (dfa_actions dfa)
}.

Lemma readable_transitions dfa node : readable dfa node ->
  node_transitions node dfa = Done (map (fun x => mkDFATransition (zat (dfa_transitionRanges dfa) x) (zat (dfa_transitionDestinations dfa) x)) (transitions_slice node)).
Proof.
  intros [H1 H2 _]. unfold node_transitions, transitions_slice in *. set (b := m_transitionsStart node) in *. set (len := m_transitionsLength node) in *.
  assert (Hb : forall {A} (v : list A), (forall x, x ∈ seqZ b len -> 0 <= x < vsize v) -> 0 < len -> 0 <= b /\ b + len <= vsize v).
  { intros A v Hv Hl. pose proof (Hv b ltac:(apply elem_of_seqZ; lia)). pose proof (Hv (b + len - 1) ltac:(apply elem_of_seqZ; lia)). lia. }
  rewrite !vslice_read by (by apply Hb). cbn [obind]. f_equal. generalize (seqZ b len) as l. induction l as [|x l IH]; [done|]. cbn. by rewrite IH.
Qed.

Lemma readable_actions dfa node : readable dfa node -> node_actions node dfa = Done (map (fun x => zat (dfa_actions dfa) x) (actions_slice node)).
Proof.
  intros [_ _ H3]. apply vslice_read. intros Hl. unfold actions_slice in H3.
  pose proof (H3 (m_actionsStart node) ltac:(apply elem_of_seqZ; lia)). pose proof (H3 (m_actionsStart node + m_actionsLength node - 1) ltac:(apply elem_of_seqZ; lia)). lia.
Qed.

Lemma wf_readable dfa i : dfa_wf dfa -> all_nodes_live dfa -> 0 <= i < vsize (dfa_nodes dfa) -> readable dfa (zat (dfa_nodes dfa) i).
Proof.
  intros Hw Hl Hi. destruct (live_node dfa i Hw (node_live dfa Hl i Hi)) as (node & ts & acts & En & Et & Ea & _).
  rewrite (vget_at (dfa_nodes dfa)) in En by done. injection En as <-. unfold node_transitions in Et. apply obind_Done in Et as (l1 & E1 & Et). apply obind_Done in Et as (l2 & E2 & _).
  constructor; intros x Hx; apply elem_of_seqZ in Hx; [apply vslice_bounds in E1; [|lia]|apply vslice_bounds in E2; [|lia]|apply vslice_bounds in Ea; [|lia]]; lia.
Qed.

(** ** Killing a node *)

Definition killedNode : DFANode := mkDFANode 0 0 0 0 IsKilled.

Lemma kill_spec d i node : vget (dfa_nodes d) i = Done node -> readable d node ->
  exists d', kill d i = Done d' /\ dfa_nodes d' = <[Z.to_nat i := killedNode]> (dfa_nodes d) /\ dfa_root d' = dfa_root d /\
    vsize (dfa_transitionRanges d') = vsize (dfa_transitionRanges d) /\ vsize (dfa_transitionDestinations d') = vsize (dfa_transitionDestinations d) /\
    vsize (dfa_actions d') = vsize (dfa_actions d) /\
    (forall x, 0 <= x -> x ∉ transitions_slice node -> zat (dfa_transitionRanges d') x = zat (dfa_transitionRanges d) x /\
       zat (dfa_transitionDestinations d') x = zat (dfa_transitionDestinations d) x) /\
    (forall x, 0 <= x -> x ∉ actions_slice node -> zat (dfa_actions d') x = zat (dfa_actions d) x).
Proof.
  intros En [R1 R2 R3]. pose proof (vget_range _ _ _ En) as Hi. unfold kill. rewrite En. cbn [obind].
  destruct (ofold_vset (transitions_slice node) (mkCharRange (-1) (-1)) (dfa_transitionRanges d) R1) as (v1 & E1 & S1 & V1).
  destruct (ofold_vset (transitions_slice node) UINT32_MAX (dfa_transitionDestinations d) R2) as (v2 & E2 & S2 & V2).
  destruct (ofold_vset (actions_slice node) UINT64_MAX (dfa_actions d) R3) as (v3 & E3 & S3 & V3).
  unfold transitions_slice, actions_slice in *. rewrite E1. cbn [obind]. rewrite E2. cbn [obind]. rewrite E3. cbn [obind]. rewrite vset_Done by done. cbn [obind].
  eexists. split; [done|]. cbn [dfa_nodes dfa_root dfa_transitionRanges dfa_transitionDestinations dfa_actions]. split_and!; try done.
  - intros x Hx Hn. rewrite V1, V2 by done. by rewrite bool_decide_false.
  - intros x Hx Hn. rewrite V3 by done. by rewrite bool_decide_false.
Qed.

(** ** Redirecting transitions *)

Section Retarget.
Context (n : Z) (rep : Z -> Z) (Hrep : forall i, 0 <= i < n -> 0 <= rep i < n) (Hidem : forall i, 0 <= i < n -> rep (rep i) = rep i).

Lemma retarget_spec dests x : 0 <= x < vsize dests -> 0 <= zat dests x < n ->
  exists dests', retarget (tab n rep) dests x = Done dests' /\ vsize dests' = vsize dests /\
    forall y, 0 <= y -> zat dests' y = if y =? x then rep (zat dests x) else zat dests y.
Proof.
  intros Hx Ht. unfold retarget. rewrite (vget_at dests) by done. cbn [obind]. rewrite vget_tab by done. cbn [obind].
  destruct (Z.eqb_spec (zat dests x) (rep (zat dests x))) as [E|E].
  - exists dests. split; [done|]. split; [done|]. intros y Hy. destruct (Z.eqb_spec y x) as [->|]; done.
  - rewrite vset_Done by done. eexists. split; [done|]. split; [apply vsize_insert|]. intros y Hy. by apply at_insert.
Qed.

Lemma retarget_all l : forall dests, (forall x, x ∈ l -> 0 <= x < vsize dests /\ 0 <= zat dests x < n) ->
  exists dests', ofold (retarget (tab n rep)) dests l = Done dests' /\ vsize dests' = vsize dests /\
    forall y, 0 <= y -> zat dests' y = if bool_decide (y ∈ l) then rep (zat dests y) else zat dests y.
Proof.
  induction l as [|x l IH]; intros dests Hl.
  { exists dests. split; [done|]. split; [done|]. intros y Hy. rewrite bool_decide_false; [done|]. apply not_elem_of_nil. }
  destruct (Hl x ltac:(left)) as [Hx Ht]. cbn [ofold]. destruct (retarget_spec dests x Hx Ht) as (d1 & -> & S1 & V1). cbn [obind].
  destruct (IH d1) as (d2 & E2 & S2 & V2).
  { intros y Hy. destruct (Hl y ltac:(by right)) as [By Ty]. rewrite S1. split; [done|]. rewrite V1 by lia. destruct (y =? x); [by apply Hrep|done]. }
  exists d2. split_and!; [done|congruence|]. intros y Hy. rewrite V2, V1 by done.
  destruct (bool_decide_reflect (y ∈ l)) as [Hin|Hin], (Z.eqb_spec y x) as [->|Hne]; try (rewrite bool_decide_true by (rewrite elem_of_cons; auto)); try done.
  - by apply Hidem.
  - rewrite bool_decide_false; [done|]. rewrite elem_of_cons. tauto.
Qed.
End Retarget.

(** ** The relocated DFA *)

Section Relocate.
Context (dfa : DFA) (Hw : dfa_wf dfa) (Hlive : all_nodes_live dfa) (Hslices : slices_ok dfa).
Abbreviation n := (vsize (dfa_nodes dfa)).
Abbreviation node i := (zat (dfa_nodes dfa) i).
Context (g : FullGraphPartition) (rep : Z -> Z) (Hnode : forall i, 0 <= i < n -> nodeReplacement g i = Done (rep i)).
Context (Hrep : forall i, 0 <= i < n -> 0 <= rep i < n) (Hidem : forall i, 0 <= i < n -> rep (rep i) = rep i).

(** The first [k] nodes have been relocated. *)
Record relocated (k : Z) (d : DFA) : Prop := {
  rl_nodes : dfa_nodes d = tab n (fun j => if (j <? k) && negb (rep j =? j) then killedNode else node j);
  rl_root : dfa_root d = dfa_root dfa;
  rl_ranges : vsize (dfa_transitionRanges d) = vsize (dfa_transitionRanges dfa);
  rl_dests : vsize (dfa_transitionDestinations d) = vsize (dfa_transitionDestinations dfa);
  rl_actions : vsize (dfa_actions d) = vsize (dfa_actions dfa);
  rl_transitions : forall j x, 0 <= j < n -> k <= j \/ rep j = j -> x ∈ transitions_slice (node j) ->
    zat (dfa_transitionRanges d) x = zat (dfa_transitionRanges dfa) x /\ zat (dfa_transitionDestinations d) x = zat (dfa_transitionDestinations dfa) x;
  rl_kept : forall j x, 0 <= j < n -> k <= j \/ rep j = j -> x ∈ actions_slice (node j) -> zat (dfa_actions d) x = zat (dfa_actions dfa) x
}.

Lemma relocate_node_spec k d : 0 <= k < n -> relocated k d ->
  exists d', relocate_node g (d, tab n (fun j => if j <? k then rep j else j)) k = Done (d', tab n (fun j => if j <? k + 1 then rep j else j)) /\ relocated (k + 1) d'.
Proof.
  intros Hk [H1 H2 H3 H4 H5 H6 H7]. unfold relocate_node. rewrite Hnode by done. cbn [obind]. destruct (Z.eqb_spec k (rep k)) as [E|E].
  - exists d. split.
    + do 2 f_equal. apply tab_ext. intros j Hj. destruct (Z.ltb_spec j k), (Z.ltb_spec j (k + 1)); try done; try lia. by assert (j = k) as -> by lia.
    + constructor; try done; [|intros j x Hj Hc; apply H6; [done|]; destruct Hc; [left; lia|by right]|intros j x Hj Hc; apply H7; [done|]; destruct Hc; [left; lia|by right]].
      rewrite H1. apply tab_ext. intros j Hj. destruct (Z.ltb_spec j k), (Z.ltb_spec j (k + 1)); try done; try lia. assert (j = k) as -> by lia. rewrite <- E, Z.eqb_refl. done.
  - rewrite vset_tab by done. cbn [obind]. assert (En : vget (dfa_nodes d) k = Done (node k)) by (rewrite H1, vget_tab by done; by rewrite Z.ltb_irrefl).
    destruct (wf_readable dfa k Hw Hlive Hk) as [R1 R2 R3]. destruct (kill_spec d k (node k) En) as (d' & -> & N' & Rt & S1 & S2 & S3 & V1 & V2).
    { constructor; rewrite ?H3, ?H4, ?H5; done. }
    cbn [obind]. exists d'. split.
    + do 2 f_equal. apply tab_ext. intros j Hj. destruct (Z.eqb_spec j k) as [->|]; [|destruct (Z.ltb_spec j k), (Z.ltb_spec j (k + 1)); try done; lia].
      destruct (Z.ltb_spec k (k + 1)); [done|lia].
    + constructor; try congruence.
      * rewrite N', H1. rewrite vset_tab_insert by done. apply tab_ext. intros j Hj. destruct (Z.eqb_spec j k) as [->|].
        -- destruct (Z.ltb_spec k (k + 1)); [|lia]. destruct (Z.eqb_spec (rep k) k); [congruence|done].
        -- destruct (Z.ltb_spec j k), (Z.ltb_spec j (k + 1)); try done; lia.
      * intros j x Hj Hc Hx. destruct (wf_readable dfa j Hw Hlive Hj) as [Rj _ _]. destruct (V1 x) as [-> ->]; [specialize (Rj x Hx); lia| |apply (H6 j); try done; destruct Hc; [left; lia|by right]].
        intros Hx'. assert (j = k) as -> by (eapply (sl_transitions _ Hslices); eauto). destruct Hc; [lia|congruence].
      * intros j x Hj Hc Hx. destruct (wf_readable dfa j Hw Hlive Hj) as [_ _ Rj]. rewrite V2; [apply (H7 j); try done; destruct Hc; [left; lia|by right]|specialize (Rj x Hx); lia|].
        intros Hx'. assert (j = k) as -> by (eapply (sl_actions _ Hslices); eauto). destruct Hc; [lia|congruence].
Qed.

Lemma relocate_all k : (k <= Z.to_nat n)%nat ->
  exists d, ofold (relocate_node g) (dfa, seqZ 0 n) (seqZ 0 (Z.of_nat k)) = Done (d, tab n (fun j => if j <? Z.of_nat k then rep j else j)) /\ relocated (Z.of_nat k) d.
Proof.
  induction k as [|k IH]; intros Hk.
  - exists dfa. split.
    + change (seqZ 0 (Z.of_nat 0)) with (@nil Z). cbn [ofold]. f_equal. f_equal. rewrite <- (map_id (seqZ 0 n)) at 1. apply tab_ext. intros j Hj. destruct (Z.ltb_spec j (Z.of_nat 0)); [lia|done].
    + constructor; try done. rewrite <- (tab_nodes (dfa_nodes dfa)) at 1. apply tab_ext. intros j Hj. destruct (Z.ltb_spec j (Z.of_nat 0)); [lia|done].
  - destruct IH as (d & E & Hd); [lia|]. destruct (relocate_node_spec (Z.of_nat k) d) as (d' & E' & Hd'); [lia|done|].
    replace (Z.of_nat (S k)) with (Z.of_nat k + 1) by lia. exists d'. split; [|done]. rewrite seqZ_app by lia. rewrite ofold_app, E. cbn [obind]. rewrite (seqZ_cons (0 + Z.of_nat k)), (seqZ_nil _ (Z.pred 1)) by lia.
    cbn [ofold]. by rewrite Z.add_0_l, E'.
Qed.

Definition redirect (t : DFATransition) : DFATransition := mkDFATransition (tr_range t) (rep (tr_target t)).

(** The positions of the transitions that are kept. *)
Definition kept_positions : list Z := seqZ 0 n ≫= fun j => if rep j =? j then transitions_slice (node j) else [].

Lemma elem_of_kept x : x ∈ kept_positions <-> exists j, 0 <= j < n /\ rep j = j /\ x ∈ transitions_slice (node j).
Proof.
  unfold kept_positions. rewrite list_elem_of_bind. split.
  - intros (j & Hx & Hj). apply elem_of_seqZ in Hj. destruct (Z.eqb_spec (rep j) j); [|by apply elem_of_nil in Hx]. exists j. split; [lia|done].
  - intros (j & Hj & E & Hx). exists j. rewrite E, Z.eqb_refl. split; [done|]. apply elem_of_seqZ. lia.
Qed.

Lemma retarget_nodes d dests : relocated n d ->
  ofold (retarget_node (tab n rep)) dests (dfa_nodes d) = ofold (retarget (tab n rep)) dests kept_positions.
Proof.
  intros [H1 _ _ _ _ _ _]. rewrite H1. unfold tab at 2. rewrite ofold_map. unfold kept_positions. rewrite ofold_bind. apply ofold_ext. intros v j Hj. apply elem_of_seqZ in Hj.
  destruct (Z.ltb_spec j n); [|lia]. unfold retarget_node. destruct (Z.eqb_spec (rep j) j) as [E|E]; cbn [negb andb]; [|done].
  by destruct (node_at dfa Hw Hlive j ltac:(lia)) as [-> _].
Qed.

Lemma target_bound j x : 0 <= j < n -> x ∈ transitions_slice (node j) -> 0 <= zat (dfa_transitionDestinations dfa) x < n.
Proof.
  intros Hj Hx. destruct (node_at dfa Hw Hlive j Hj) as (_ & Ht & _ & Hf). rewrite (readable_transitions _ _ (wf_readable dfa j Hw Hlive Hj)) in Ht. injection Ht as Ht.
  rewrite <- Ht, Forall_forall in Hf. specialize (Hf (mkDFATransition (zat (dfa_transitionRanges dfa) x) (zat (dfa_transitionDestinations dfa) x))). apply Hf.
  apply list_elem_of_In, in_map_iff. exists x. split; [done|]. by apply list_elem_of_In.
Qed.

(** The result of the relocation. *)
Record relocation (d' : DFA) : Prop := {
  rr_root : dfa_root d' = rep (dfa_root dfa);
  rr_size : vsize (dfa_nodes d') = n;
  rr_live : forall j, live d' j <-> 0 <= j < n /\ rep j = j;
  rr_readable : forall j, 0 <= j < n -> rep j = j -> exists node, vget (dfa_nodes d') j = Done node /\
    node_transitions node d' = Done (map redirect (dfa_node_transitions dfa j)) /\ node_actions node d' = Done (dfa_node_actions dfa j)
}.

Lemma relocation_spec d : relocated n d -> exists dests, ofold (retarget_node (tab n rep)) (dfa_transitionDestinations d) (dfa_nodes d) = Done dests /\
  relocation (mkDFA (dfa_nodes d) (dfa_actions d) (dfa_transitionRanges d) dests (rep (dfa_root dfa))).
Proof.
  intros Hd. pose proof Hd as [H1 H2 H3 H4 H5 H6 H7]. rewrite retarget_nodes by done.
  destruct (retarget_all n rep Hrep Hidem kept_positions (dfa_transitionDestinations d)) as (dests & E & Es & Ev).
  { intros x (j & Hj & Ej & Hx)%elem_of_kept. destruct (wf_readable dfa j Hw Hlive Hj) as [_ R2 _]. rewrite H4. split; [by apply R2|].
    destruct (H6 j x Hj (or_intror Ej) Hx) as [_ ->]. by apply (target_bound j). }
  exists dests. split; [done|].
  assert (Hnode' : forall j, 0 <= j < n -> vget (dfa_nodes d) j = Done (if rep j =? j then node j else killedNode)).
  { intros j Hj. rewrite H1, vget_tab by done. destruct (Z.ltb_spec j n); [|lia]. by destruct (rep j =? j). }
  constructor; cbn [dfa_root dfa_nodes]; [done|rewrite H1; apply vsize_tab; apply vsize_nonneg| |].
  - intros j. unfold live. cbn [dfa_nodes]. split.
    + intros (node' & En & Hk). pose proof (vget_range _ _ _ En) as Hj. rewrite H1, vsize_tab in Hj by apply vsize_nonneg. rewrite Hnode' in En by done. split; [done|].
      destruct (Z.eqb_spec (rep j) j); [done|]. injection En as <-. done.
    + intros [Hj Ej]. exists (node j). rewrite Hnode', Ej, Z.eqb_refl by done. split; [done|]. by destruct (node_at dfa Hw Hlive j Hj) as [-> _].
  - intros j Hj Ej. exists (node j). rewrite Hnode', Ej, Z.eqb_refl by done. split; [done|]. destruct (wf_readable dfa j Hw Hlive Hj) as [R1 R2 R3].
    assert (Hr : readable (mkDFA (dfa_nodes d) (dfa_actions d) (dfa_transitionRanges d) dests (rep (dfa_root dfa))) (node j)).
    { constructor; cbn [dfa_transitionRanges dfa_transitionDestinations dfa_actions]; rewrite ?Es, ?H3, ?H4, ?H5; done. }
    rewrite (readable_transitions _ _ Hr), (readable_actions _ _ Hr). cbn [dfa_transitionRanges dfa_transitionDestinations dfa_actions]. split; f_equal.
    + unfold dfa_node_transitions. rewrite (vget_at (dfa_nodes dfa)) by done. rewrite (readable_transitions _ _ (wf_readable dfa j Hw Hlive Hj)), map_map.
      apply map_ext_in. intros x Hx%list_elem_of_In. destruct (H6 j x Hj (or_intror Ej) Hx) as [-> Ed]. unfold redirect. cbn [tr_range tr_target]. f_equal.
      rewrite Ev by (specialize (R1 x Hx); lia). rewrite bool_decide_true by (apply elem_of_kept; by exists j). by rewrite Ed.
    + unfold dfa_node_actions. rewrite (vget_at (dfa_nodes dfa)) by done. rewrite (readable_actions _ _ (wf_readable dfa j Hw Hlive Hj)).
      apply map_ext_in. intros x Hx%list_elem_of_In. apply (H7 j); [done|by right|done].
Qed.
End Relocate.
