(* ===== verification/MinimizerTheorems.v ===== *)
(** * Minimization: properties

    Minimization returns a DFA with the same actions on every word, in which no
    two nodes behave alike. *)

From S2P Require Import Prelude Containers Dfa RangeList DfaMerger DfaMinimizer PartitionProofs MinimizerGraph MinimizerTables MinimizerRefine MinimizerProofs MinimizerRelocate.

#[local] Arguments vsize {A} v : simpl never.

(** What minimization asks of a DFA: as [convert] and [merge] build them. *)
Record fresh_dfa (dfa : DFA) : Prop := {
  fr_wf : dfa_wf dfa;
  fr_live : all_nodes_live dfa;
  fr_slices : slices_ok dfa;
  fr_size : 128 * vsize (dfa_nodes dfa) < 2 ^ 32
}.

Section Minimize.
Context `{HashOrder} (dfa : DFA) (Hdfa : fresh_dfa dfa).
Abbreviation n := (vsize (dfa_nodes dfa)).

Lemma fresh_node i : 0 <= i < n -> live dfa i.
Proof. apply node_live, Hdfa. Qed.

Lemma fresh_actions i : 0 <= i < n -> node_actions (zat (dfa_nodes dfa) i) dfa = Done (dfa_node_actions dfa i) /\
  hasActions (zat (dfa_nodes dfa) i) = negb (bool_decide (dfa_node_actions dfa i = [])).
Proof.
  intros Hi. pose proof (wf_readable dfa i (fr_wf _ Hdfa) (fr_live _ Hdfa) Hi) as Hr. unfold dfa_node_actions. rewrite (vget_at (dfa_nodes dfa)) by done.
  rewrite (readable_actions _ _ Hr). split; [done|]. unfold hasActions, actions_slice. f_equal.
  assert (Hl : 0 <= m_actionsLength (zat (dfa_nodes dfa) i)) by (apply (sl_lengths _ (fr_slices _ Hdfa)), list_elem_of_lookup_total_2; unfold vsize in Hi; lia).
  destruct (Z.eqb_spec (m_actionsLength (zat (dfa_nodes dfa) i)) 0) as [->|Hne]; [by rewrite bool_decide_true|].
  rewrite bool_decide_false; [done|]. rewrite seqZ_cons by lia. done.
Qed.

(** Minimization, with the replacement of every node. *)
Lemma minimize_spec : exists d' rep, minimize dfa = Done d' /\ relocation dfa rep d' /\
  (forall i, 0 <= i < n -> 0 <= rep i < n /\ rep (rep i) = rep i /\ dfa_node_actions dfa (rep i) = dfa_node_actions dfa i) /\
  (forall i c, 0 <= i < n -> rep <$> dfa_step dfa (rep i) c = rep <$> dfa_step dfa i c) /\
  (forall i j, 0 <= i < n -> 0 <= j < n -> same_behaviour dfa i j -> rep i = rep j).
Proof.
  pose proof Hdfa as [Hw Hl Hs Hsz].
  destruct (newFullGraphPartition_spec dfa Hw Hl Hsz) as (g0 & N & src & lab & tgt & reads & E0 & Hgr & Htp & Hmk & Hlab & Hnp & Hnext).
  destruct (final_states_spec dfa) as (slots & Ef & Hslots); [intros i Hi; by apply fresh_actions..|].
  destruct (minimizer_partition dfa g0 N src lab tgt reads Hgr Hnp Hnext Htp Hmk Hlab slots Hslots) as (g1 & g2 & E1 & E2 & Ho & [Ha Hb] & Hbis).
  set (np := m_nodePartition g2) in *. set (rep := fun i => elt np (sd_start (set_of np (cls np i)))).
  assert (Hrep : forall i, 0 <= i < n -> 0 <= rep i < n /\ cls np (rep i) = cls np i).
  { intros i Hi. destruct (po_cls _ _ _ Ho i Hi) as [Hc _]. destruct (po_sets _ _ _ Ho _ Hc) as (S1 & S2 & S3 & _). split; [apply (po_elt _ _ _ Ho); lia|].
    apply (po_members _ _ _ Ho); [done|]. unfold in_set. lia. }
  assert (Hsame : forall i j, cls np i = cls np j -> rep i = rep j) by (intros i j E; unfold rep; by rewrite E).
  assert (Hidem : forall i, 0 <= i < n -> rep (rep i) = rep i) by (intros i Hi; apply Hsame, Hrep, Hi).
  assert (Hr1 : forall i, 0 <= i < n -> 0 <= rep i < n) by (intros i Hi; by apply Hrep).
  assert (Hnode : forall i, 0 <= i < n -> nodeReplacement g2 i = Done (rep i)).
  { intros i Hi. unfold nodeReplacement, setIndexOf, firstElementInSet. fold np. rewrite (vget_at (m_elementToSetMap np)) by (rewrite (po_map _ _ _ Ho); done). cbn [obind].
    destruct (po_cls _ _ _ Ho i Hi) as [Hc _]. destruct (po_sets _ _ _ Ho _ Hc) as (S1 & S2 & S3 & _). rewrite (vget_at (m_sets np)) by done. cbn [obind].
    apply vget_at. rewrite (po_elements _ _ _ Ho). lia. }
  destruct (relocate_all dfa Hw Hl Hs g2 rep Hnode (Z.to_nat n)) as (d & Er & Hd); [lia|]. rewrite Z2Nat.id in Er, Hd by apply vsize_nonneg.
  rewrite (tab_ext n _ rep) in Er by (intros i Hi; destruct (Z.ltb_spec i n); [done|lia]).
  destruct (relocation_spec dfa Hw Hl rep Hr1 Hidem d Hd) as (dests & Ed & Hrel).
  eexists _, rep. split; [|split; [exact Hrel|split_and!]].
  - unfold minimize. rewrite E0. cbn [obind]. rewrite Ef. cbn [obind]. rewrite E1. cbn [obind]. rewrite E2. cbn [obind]. rewrite Er. cbn [obind].
    rewrite (rl_root _ _ _ _ Hd), vget_tab by (apply live_bound, Hw). cbn [obind]. rewrite Ed. done.
  - intros i Hi. split; [by apply Hr1|]. split; [by apply Hidem|]. apply Ha; [by apply Hr1|done|by apply Hrep].
  - intros i c Hi. specialize (Hbis (rep i) i c (Hr1 i Hi) Hi (proj2 (Hrep i Hi))).
    destruct (dfa_step dfa (rep i) c) as [a|], (dfa_step dfa i c) as [b|]; try done. cbn. f_equal. by apply Hsame.
  - intros i j Hi Hj Hij. by apply Hsame, Hb.
Qed.

(** ** What the replaced DFA does *)

Section Result.
Context (d' : DFA) (rep : Z -> Z) (Hrel : relocation dfa rep d').
Context (Hrep : forall i, 0 <= i < n -> 0 <= rep i < n /\ rep (rep i) = rep i /\ dfa_node_actions dfa (rep i) = dfa_node_actions dfa i).
Context (Hstep : forall i c, 0 <= i < n -> rep <$> dfa_step dfa (rep i) c = rep <$> dfa_step dfa i c).

Lemma redirect_target ts c : trans_target (map (redirect rep) ts) c = rep <$> trans_target ts c.
Proof. induction ts as [|t ts IH]; [done|]. cbn. change (covers (redirect rep t) c) with (covers t c). by destruct (covers t c). Qed.

Lemma redirect_sorted lo ts : sorted_from lo ts -> sorted_from lo (map (redirect rep) ts).
Proof. induction 1; by constructor. Qed.

Lemma result_node i : 0 <= i < n -> dfa_node_actions d' (rep i) = dfa_node_actions dfa i /\ forall c, dfa_step d' (rep i) c = rep <$> dfa_step dfa i c.
Proof.
  intros Hi. destruct (Hrep i Hi) as (Hb & Hid & Ha). destruct (rr_readable _ _ _ Hrel (rep i) Hb Hid) as (node & En & Et & Eact). split.
  - unfold dfa_node_actions at 1. by rewrite En, Eact.
  - intros c. rewrite <- Hstep by done. unfold dfa_step at 1, dfa_node_transitions at 1. by rewrite En, Et, redirect_target.
Qed.

Lemma step_bound i c j : 0 <= i < n -> dfa_step dfa i c = Some j -> 0 <= j < n.
Proof.
  intros Hi E. destruct (node_at dfa (fr_wf _ Hdfa) (fr_live _ Hdfa) i Hi) as (_ & _ & _ & Hf). apply trans_target_elem in E as (t & Ht & _ & <-). rewrite Forall_forall in Hf. auto.
Qed.

Lemma result_run w : forall i, 0 <= i < n -> dfa_run d' (rep i) w = rep <$> dfa_run dfa i w /\ forall j, dfa_run dfa i w = Some j -> 0 <= j < n.
Proof.
  induction w as [|c w IH]; intros i Hi; [split; [done|by intros j [= <-]]|]. cbn [dfa_run]. destruct (result_node i Hi) as [_ ->].
  destruct (dfa_step dfa i c) as [j|] eqn:E; [|done]. apply IH. by eapply step_bound.
Qed.

Lemma minimized_wf : dfa_wf d'.
Proof.
  pose proof (live_bound _ _ (dwf_root _ (fr_wf _ Hdfa))) as Hroot. destruct (Hrep _ Hroot) as (Hb & Hid & _). constructor.
  - apply (rr_live _ _ _ Hrel). rewrite (rr_root _ _ _ Hrel). done.
  - intros i node En Hk. destruct (proj1 (rr_live _ _ _ Hrel i)) as [Hi Ei]; [by exists node|]. destruct (rr_readable _ _ _ Hrel i Hi Ei) as (node' & En' & Et & Ea).
    rewrite En in En'. injection En' as <-. destruct (node_at dfa (fr_wf _ Hdfa) (fr_live _ Hdfa) i Hi) as (_ & _ & Hs & Hf). constructor; [|by exists (dfa_node_actions dfa i)].
    eexists. split; [done|]. split; [by apply redirect_sorted|]. apply Forall_forall. intros t Ht. apply list_elem_of_In, in_map_iff in Ht as (u & <- & Hu). apply list_elem_of_In in Hu.
    rewrite Forall_forall in Hf. apply (rr_live _ _ _ Hrel). destruct (Hrep _ (Hf u Hu)) as (? & ? & _). done.
  - rewrite (rr_size _ _ _ Hrel). apply (dwf_size _ (fr_wf _ Hdfa)).
Qed.

Lemma result_actions w : word_actions d' w = word_actions dfa w /\ (dfa_run d' (dfa_root d') w = None <-> dfa_run dfa (dfa_root dfa) w = None).
Proof.
  pose proof (live_bound _ _ (dwf_root _ (fr_wf _ Hdfa))) as Hroot. destruct (result_run w _ Hroot) as [E Hj]. unfold word_actions. rewrite (rr_root _ _ _ Hrel), E.
  destruct (dfa_run dfa (dfa_root dfa) w) as [j|]; [|done]. cbn. split; [by apply result_node, Hj|done].
Qed.

Lemma result_behaviour i j : live d' i -> live d' j -> same_behaviour d' i j -> same_behaviour dfa i j.
Proof.
  intros [Hi Ei]%(rr_live _ _ _ Hrel) [Hj Ej]%(rr_live _ _ _ Hrel) Hij w. specialize (Hij w). destruct (result_run w i Hi) as [R1 B1]. destruct (result_run w j Hj) as [R2 B2].
  rewrite Ei in R1. rewrite Ej in R2. rewrite R1, R2 in Hij. destruct (dfa_run dfa i w) as [a|], (dfa_run dfa j w) as [b|]; try done. cbn in Hij.
  destruct (result_node a (B1 a eq_refl)) as [<- _]. by destruct (result_node b (B2 b eq_refl)) as [<- _].
Qed.
End Result.
End Minimize.

Lemma minimize_keeps_actions `{HashOrder} dfa : fresh_dfa dfa ->
  exists dfa', minimize dfa = Done dfa' /\ dfa_wf dfa' /\
    forall w, word_actions dfa' w = word_actions dfa w /\ (dfa_run dfa' (dfa_root dfa') w = None <-> dfa_run dfa (dfa_root dfa) w = None).
Proof.
  intros Hdfa. destruct (minimize_spec dfa Hdfa) as (d' & rep & E & Hrel & Hrep & Hstep & _). exists d'. split; [done|]. split; [by eapply minimized_wf|].
  intros w. by eapply result_actions.
Qed.

(** The nodes that are left are nodes of the original, with their actions. *)
Lemma minimize_live_nodes `{HashOrder} dfa dfa' i : fresh_dfa dfa -> minimize dfa = Done dfa' -> live dfa' i ->
  live dfa i /\ dfa_node_actions dfa' i = dfa_node_actions dfa i.
Proof.
  intros Hdfa E Hi. destruct (minimize_spec dfa Hdfa) as (d' & rep & E' & Hrel & Hrep & Hstep & _). rewrite E in E'. injection E' as <-.
  destruct (proj1 (rr_live _ _ _ Hrel i) Hi) as [Hb Ei]. split; [by apply fresh_node|]. rewrite <- Ei at 1. by eapply result_node.
Qed.

(** C11: Minimizing a DFA returns a well-formed DFA that performs, on every word,
    exactly the actions of the original, and gets stuck on exactly the same
    words. *)
Theorem minimize_language `{HashOrder} dfa : fresh_dfa dfa ->
  exists dfa', minimize dfa = Done dfa' /\ dfa_wf dfa' /\
    forall w, word_actions dfa' w = word_actions dfa w /\ (dfa_run dfa' (dfa_root dfa') w = None <-> dfa_run dfa (dfa_root dfa) w = None).
Proof. apply minimize_keeps_actions. Qed.

(** C17: The result of minimization is minimal, up to the order in which the
    nodes list their actions: two nodes that are left, from which the same words
    can be read, and where each word leads to nodes that list the same actions in
    the same order, are the same node.  (Nodes that list the same actions in
    another order are not merged; the code has a FIXME about it.) *)
Theorem minimize_minimal `{HashOrder} dfa dfa' i j : fresh_dfa dfa -> minimize dfa = Done dfa' -> live dfa' i -> live dfa' j ->
  same_behaviour dfa' i j -> i = j.
Proof.
  intros Hdfa E Hi Hj Hij. destruct (minimize_spec dfa Hdfa) as (d' & rep & E' & Hrel & Hrep & Hstep & Hmin). rewrite E in E'. injection E' as <-.
  pose proof (result_behaviour dfa Hdfa dfa' rep Hrel Hrep Hstep i j Hi Hj Hij) as Hb.
  apply (rr_live _ _ _ Hrel) in Hi as [Hi Ei], Hj as [Hj Ej]. rewrite <- Ei, <- Ej. by apply Hmin.
Qed.

(** ** Deciding the hypotheses *)

Definition slices_okb (dfa : DFA) : bool :=
  let size := vsize (dfa_nodes dfa) in
  forallb (fun node => 0 <=? m_actionsLength node) (dfa_nodes dfa) &&
  forallb (fun i => forallb (fun j => (i =? j) ||
    (forallb (fun x => negb (bool_decide (x ∈ transitions_slice (zat (dfa_nodes dfa) j)))) (transitions_slice (zat (dfa_nodes dfa) i)) &&
     forallb (fun x => negb (bool_decide (x ∈ actions_slice (zat (dfa_nodes dfa) j)))) (actions_slice (zat (dfa_nodes dfa) i)))) (seqZ 0 size)) (seqZ 0 size).

Definition fresh_dfab (dfa : DFA) : bool :=
  dfa_wfb dfa && forallb (fun node => negb (isKilled node)) (dfa_nodes dfa) && slices_okb dfa && (128 * vsize (dfa_nodes dfa) <? 2 ^ 32).

Lemma disjoint_sound (l l' : list Z) x : forallb (fun x => negb (bool_decide (x ∈ l'))) l = true -> x ∈ l -> x ∈ l' -> False.
Proof.
  rewrite forallb_forall. intros Hl Hx Hx'. specialize (Hl x ltac:(by apply list_elem_of_In)). by rewrite bool_decide_true in Hl.
Qed.

Lemma slices_okb_sound dfa : slices_okb dfa = true -> slices_ok dfa.
Proof.
  unfold slices_okb. intros [H1 H2]%andb_true_iff. rewrite forallb_forall in H1, H2.
  assert (Hpair : forall i j, 0 <= i < vsize (dfa_nodes dfa) -> 0 <= j < vsize (dfa_nodes dfa) -> i = j \/
    (forallb (fun x => negb (bool_decide (x ∈ transitions_slice (zat (dfa_nodes dfa) j)))) (transitions_slice (zat (dfa_nodes dfa) i)) = true /\
     forallb (fun x => negb (bool_decide (x ∈ actions_slice (zat (dfa_nodes dfa) j)))) (actions_slice (zat (dfa_nodes dfa) i)) = true)).
  { intros i j Hi Hj. specialize (H2 i ltac:(apply list_elem_of_In, elem_of_seqZ; lia)). rewrite forallb_forall in H2. specialize (H2 j ltac:(apply list_elem_of_In, elem_of_seqZ; lia)).
    apply orb_true_iff in H2 as [E%Z.eqb_eq|[? ?]%andb_true_iff]; auto. }
  constructor.
  - intros node Hn. apply list_elem_of_In, H1 in Hn. by apply Z.leb_le.
  - intros i j x Hi Hj Hx Hx'. destruct (Hpair i j Hi Hj) as [?|[Hd _]]; [done|]. exfalso. by eapply disjoint_sound.
  - intros i j x Hi Hj Hx Hx'. destruct (Hpair i j Hi Hj) as [?|[_ Hd]]; [done|]. exfalso. by eapply disjoint_sound.
Qed.

Lemma fresh_dfab_sound dfa : fresh_dfab dfa = true -> fresh_dfa dfa.
Proof.
  unfold fresh_dfab. rewrite !andb_true_iff. intros [[[H1 H2] H3] H4]. constructor; [by apply dfa_wfb_sound| |by apply slices_okb_sound|by apply Z.ltb_lt].
  rewrite forallb_forall in H2. apply Forall_forall. intros node Hn. apply negb_true_iff, H2. by apply list_elem_of_In.
Qed.

(** ** Witnesses *)

(** [a] and [b] lead to nodes that behave alike: action 7, then action 9 after [c]. *)
Definition twin_dfa : DFA :=
  mkDFA [mkDFANode 0 0 0 2 0; mkDFANode 0 2 1 1 0; mkDFANode 1 3 1 1 0; mkDFANode 2 4 1 0 0; mkDFANode 3 4 1 0 0] [7; 7; 9; 9]
    [mkCharRange 97 97; mkCharRange 98 98; mkCharRange 99 99; mkCharRange 99 99] [1; 2; 3; 4] 0.

Lemma twin_fresh : fresh_dfa twin_dfa.
Proof. apply fresh_dfab_sound. vm_compute. reflexivity. Qed.

Lemma minimize_language_witness : exists dfa', minimize twin_dfa = Done dfa' /\ word_actions dfa' [98; 99] = [9].
Proof.
  destruct (minimize_language twin_dfa twin_fresh) as (dfa' & E & _ & Hw). exists dfa'. split; [exact E|]. destruct (Hw [98; 99]) as [-> _]. vm_compute. reflexivity.
Defined.

(** The twins have been replaced by one node, and a node behaves like itself. *)
Lemma minimize_minimal_witness : exists dfa', minimize twin_dfa = Done dfa' /\ is_live dfa' 1 = negb (is_live dfa' 2) /\ 0 = 0.
Proof.
  destruct (minimize twin_dfa) as [dfa'| |] eqn:E; [|vm_compute in E; discriminate..]. exists dfa'. split; [reflexivity|].
  split; [vm_compute in E; injection E as <-; vm_compute; reflexivity|]. apply (minimize_minimal twin_dfa dfa' 0 0 twin_fresh E).
  - apply is_live_spec. vm_compute in E. injection E as <-. vm_compute. reflexivity.
  - apply is_live_spec. vm_compute in E. injection E as <-. vm_compute. reflexivity.
  - intros w. destruct (dfa_run dfa' 0 w); reflexivity.
Defined.
