(* ===== verification/FreshDfa.v ===== *)
(** * DFAs as they are built

    [convert] and [merge] append the actions of every new node and the
    transitions of every finished node to the vectors of the DFA: no two nodes
    share a slice and no node is killed, as minimization asks for. *)

From S2P Require Import Prelude Containers Dfa RangeList Worklist NfaToDfa DfaMerger PartitionProofs MinimizerGraph MinimizerRelocate.

#[local] Arguments vsize {A} v : simpl never.

(** Two slices have no position in common. *)
Definition apart (s l s' l' : Z) : Prop := forall x, s <= x < s + l -> s' <= x < s' + l' -> False.

(** The slices of the nodes; those of transitions end before [b]. *)
Record fresh_nodes (dfa : DFA) (b : Z) : Prop := {
  fn_live : Forall (fun node => isKilled node = false) (dfa_nodes dfa);
  fn_bounds : forall node, node ∈ dfa_nodes dfa -> 0 <= m_actionsLength node /\ m_actionsStart node + m_actionsLength node <= vsize (dfa_actions dfa) /\
    m_transitionsStart node + m_transitionsLength node <= b;
  fn_apart : forall i j node node', dfa_nodes dfa !! i = Some node -> dfa_nodes dfa !! j = Some node' -> i <> j ->
    apart (m_transitionsStart node) (m_transitionsLength node) (m_transitionsStart node') (m_transitionsLength node') /\
    apart (m_actionsStart node) (m_actionsLength node) (m_actionsStart node') (m_actionsLength node')
}.

Lemma apart_sym s l s' l' : apart s l s' l' -> apart s' l' s l.
Proof. intros Ha x H1 H2. by apply (Ha x). Qed.

Lemma fresh_weaken dfa dfa' b b' : dfa_nodes dfa' = dfa_nodes dfa -> dfa_actions dfa' = dfa_actions dfa -> b <= b' -> fresh_nodes dfa b -> fresh_nodes dfa' b'.
Proof.
  intros Hn Ha Hb [H1 H2 H3]. constructor; rewrite Hn, ?Ha; [done| |done]. intros node Hin. specialize (H2 node Hin). lia.
Qed.

(** A new node with its actions. *)
Lemma fresh_add dfa b acts r d root len : 0 <= b -> u16 len <= vsize acts -> fresh_nodes dfa b ->
  fresh_nodes (mkDFA (dfa_nodes dfa ++ [setActions newDFANode (vsize (dfa_actions dfa)) len]) (dfa_actions dfa ++ acts) r d root) b.
Proof.
  intros Hb Hlen [H1 H2 H3]. set (new := setActions newDFANode (vsize (dfa_actions dfa)) len).
  assert (Hu : 0 <= u16 len) by (apply Z.mod_pos_bound; lia). pose proof (vsize_nonneg acts).
  assert (Hnew : m_actionsStart new = vsize (dfa_actions dfa) /\ m_actionsLength new = u16 len /\ m_transitionsStart new = 0 /\ m_transitionsLength new = 0) by done.
  assert (Hold : forall node, node ∈ dfa_nodes dfa -> apart (m_transitionsStart node) (m_transitionsLength node) (m_transitionsStart new) (m_transitionsLength new) /\
    apart (m_actionsStart node) (m_actionsLength node) (m_actionsStart new) (m_actionsLength new)).
  { intros node Hin. specialize (H2 node Hin). split; intros x; lia. }
  constructor; cbn [dfa_nodes dfa_actions].
  - apply Forall_app. split; [done|]. by constructor.
  - intros node [Hin| ->%list_elem_of_singleton]%elem_of_app; rewrite vsize_app; [specialize (H2 node Hin); lia|]. lia.
  - intros i j node node' [Hi|[Hi Hi']]%lookup_app_Some [Hj|[Hj Hj']]%lookup_app_Some Hij.
    + by apply (H3 i j).
    + apply list_elem_of_lookup_2, list_elem_of_singleton in Hj' as ->. apply Hold. by eapply list_elem_of_lookup_2.
    + apply list_elem_of_lookup_2, list_elem_of_singleton in Hi' as ->. destruct (Hold node') as [A1 A2]; [by eapply list_elem_of_lookup_2|]. split; by apply apart_sym.
    + apply lookup_lt_Some in Hi', Hj'. cbn in Hi', Hj'. lia.
Qed.

(** The transitions of a node, past those there are. *)
Lemma fresh_set dfa b i node len r d root : 0 <= len -> vget (dfa_nodes dfa) i = Done node -> fresh_nodes dfa b ->
  fresh_nodes (mkDFA (<[Z.to_nat i := setTransitions node b len]> (dfa_nodes dfa)) (dfa_actions dfa) r d root) (b + len).
Proof.
  intros Hlen En [H1 H2 H3]. apply vget_Done in En as [_ En]. pose proof (lookup_lt_Some _ _ _ En) as Hlt. set (new := setTransitions node b len).
  assert (Hnew : m_actionsStart new = m_actionsStart node /\ m_actionsLength new = m_actionsLength node /\ m_transitionsStart new = b /\ m_transitionsLength new <= len).
  { split_and!; try done. cbn. unfold u8, u16. etrans; [apply Z.mod_le; [apply Z.mod_pos_bound; lia|lia]|]. apply Z.mod_le; lia. }
  assert (Hold : forall j node', dfa_nodes dfa !! j = Some node' -> j <> Z.to_nat i ->
    apart (m_transitionsStart new) (m_transitionsLength new) (m_transitionsStart node') (m_transitionsLength node') /\
    apart (m_actionsStart new) (m_actionsLength new) (m_actionsStart node') (m_actionsLength node')).
  { intros j node' Hj Hne. destruct (H3 (Z.to_nat i) j node node' En Hj) as [_ A]; [done|]. pose proof (H2 node' ltac:(by eapply list_elem_of_lookup_2)).
    split; [intros x; lia|]. destruct Hnew as (-> & -> & _). done. }
  constructor; cbn [dfa_nodes dfa_actions].
  - apply Forall_insert; [done|]. rewrite Forall_lookup in H1. by apply (H1 _ _ En).
  - intros node' Hin. apply list_elem_of_lookup in Hin as (j & Hj). apply list_lookup_insert_Some in Hj as [(_ & <- & _)|(_ & Hj)].
    + specialize (H2 node ltac:(by eapply list_elem_of_lookup_2)). lia.
    + specialize (H2 node' ltac:(by eapply list_elem_of_lookup_2)). lia.
  - intros j k nj nk Hj Hk Hjk. apply list_lookup_insert_Some in Hj as [(<- & <- & _)|(Hij & Hj)], Hk as [(Ek & <- & _)|(Hik & Hk)]; [congruence|by apply (Hold k)| |by apply (H3 j k)].
    destruct (Hold j nj Hj) as [A1 A2]; [done|]. split; by apply apart_sym.
Qed.

(** ** The loop body *)

Section Emit.
Context {U Q K : Type} (get : work_state U Q -> K -> outcome (Z * work_state U Q)).
Context (Hget : forall s D i s' b, 0 <= b -> get s D = Done (i, s') -> fresh_nodes (ws_dfa s) b ->
  fresh_nodes (ws_dfa s') b /\ dfa_transitionRanges (ws_dfa s') = dfa_transitionRanges (ws_dfa s)).

Abbreviation end_of s := (vsize (dfa_transitionRanges (ws_dfa s))).

Lemma append_transition_fresh R s s' b : 0 <= b -> ofold (append_transition get) s R = Done s' -> fresh_nodes (ws_dfa s) b ->
  fresh_nodes (ws_dfa s') b /\ end_of s <= end_of s'.
Proof.
  intros Hb. revert s. induction R as [|r R IH]; intros s E Hs; [injection E as <-; done|]. cbn [ofold] in E. apply obind_Done in E as (s1 & E1 & E).
  unfold append_transition in E1. apply obind_Done in E1 as ([i s2] & E2 & E1). injection E1 as <-. destruct (Hget _ _ _ _ _ Hb E2 Hs) as [Hs2 Hr].
  apply IH in E as [H1 H2]; [|cbn; by eapply fresh_weaken; [..|exact Hs2]]. split; [done|]. cbn [ws_dfa dfa_transitionRanges] in H2. rewrite vsize_app, Hr in H2.
  change (vsize [_]) with 1 in H2. lia.
Qed.

Lemma emit_fresh source s v s' : emit_transitions get source s v = Done s' -> fresh_nodes (ws_dfa s) (end_of s) -> fresh_nodes (ws_dfa s') (end_of s').
Proof.
  unfold emit_transitions. intros E Hs. apply obind_Done in E as (R & _ & E). apply obind_Done in E as (s1 & E1 & E). apply obind_Done in E as (i & _ & E).
  apply obind_Done in E as (node & En & E). apply obind_Done in E as (nodes & Ev & E). injection E as <-. cbn [ws_dfa].
  destruct (append_transition_fresh _ _ _ _ (vsize_nonneg _) E1 Hs) as [Hs1 Hle]. apply vset_inv in Ev as [_ ->]. cbn [dfa_transitionRanges].
  set (len := end_of s1 - end_of s). eapply fresh_weaken; [..|apply (fresh_set _ _ i node (u8 len) (dfa_transitionRanges (ws_dfa s1)) (dfa_transitionDestinations (ws_dfa s1)) (dfa_root (ws_dfa s1)) (proj1 (u8_range len)) En Hs1)]; [done|done|].
  pose proof (Z.mod_le len (2 ^ 8)). unfold u8, len in *. lia.
Qed.
End Emit.

(** ** The subset construction and the product *)

Section Results.
Context `{HashOrder}.

Lemma fresh_empty b : 0 <= b -> fresh_nodes emptyDFA b.
Proof. intros Hb. constructor; cbn; [done|by intros ? ?%elem_of_nil|done]. Qed.

Lemma u16_twice_le z : 0 <= z -> u16 (u16 z) <= z.
Proof. intros Hz. unfold u16. rewrite Z.mod_mod by lia. apply Z.mod_le; lia. Qed.

Lemma u16_le z : 0 <= z -> u16 z <= z.
Proof. intros Hz. unfold u16. apply Z.mod_le; lia. Qed.

Lemma table_add_fresh table dfa nfa l table' dfa' u b' b : 0 <= b -> table_add table dfa nfa l = Done (table', dfa', u, b') -> fresh_nodes dfa b ->
  fresh_nodes dfa' b /\ dfa_transitionRanges dfa' = dfa_transitionRanges dfa.
Proof.
  intros Hb. unfold table_add. destruct (List.find _ table); [by intros [= <- <- <- <-]|]. intros E Hd. apply obind_Done in E as ([d1 u1] & E & E'). injection E' as <- <- <- <-.
  unfold translate in E. apply obind_Done in E as (acts & _ & E). apply obind_Done in E as (? & _ & E). injection E as <- <-. split; [|done].
  apply fresh_add; [done| |done]. rewrite vsize_app. etrans; [apply u16_twice_le; pose proof (vsize_nonneg acts); lia|lia].
Qed.

Lemma convert_loop_fresh fuel nfa cl s dfa : convert_loop fuel nfa cl s = Done dfa -> fresh_nodes (ws_dfa s) (vsize (dfa_transitionRanges (ws_dfa s))) ->
  fresh_nodes dfa (vsize (dfa_transitionRanges dfa)).
Proof.
  revert s. induction fuel as [|fuel IH]; intros s E Hs; [done|]. cbn [convert_loop] in E. destruct (ws_unprocessed s) as [|u rest]; [done|].
  apply obind_Done in E as (s1 & E1 & E). unfold process_set in E1. apply obind_Done in E1 as (v & _ & E1).
  apply emit_fresh in E1; [|intros s' D i s'' b Hb Eg Hf|done].
  - destruct (ws_unprocessed s1); [by injection E as <-|by apply IH in E].
  - unfold getOrCreateDFANode in Eg. apply obind_Done in Eg as ([[[t d] u'] b'] & Et & Eg). injection Eg as <- <-. by eapply table_add_fresh.
Qed.

Lemma convert_fresh fuel nfa dfa : convert fuel nfa = Done dfa -> fresh_nodes dfa (vsize (dfa_transitionRanges dfa)).
Proof.
  unfold convert. intros E. apply obind_Done in E as ([nfa' cl] & _ & E). apply obind_Done in E as (root & _ & E). apply obind_Done in E as (set0 & _ & E).
  apply obind_Done in E as ([[[t d] u] b] & Et & E). destruct (table_add_fresh _ _ _ _ _ _ _ _ 0 ltac:(lia) Et (fresh_empty 0 ltac:(lia))) as [Hd Hr].
  eapply convert_loop_fresh; [exact E|]. cbn [ws_dfa]. rewrite Hr. done.
Qed.

Lemma getOrCreateCombinedNode_fresh dfaA dfaB s k i s' b : 0 <= b -> getOrCreateCombinedNode dfaA dfaB s k = Done (i, s') -> fresh_nodes (ws_dfa s) b ->
  fresh_nodes (ws_dfa s') b /\ dfa_transitionRanges (ws_dfa s') = dfa_transitionRanges (ws_dfa s).
Proof.
  intros Hb. unfold getOrCreateCombinedNode. destruct (List.find _ _); [by intros [= <- <-]|]. intros E Hs. apply obind_Done in E as (aA & _ & E). apply obind_Done in E as (acts & _ & E).
  injection E as <- <-. split; [|done]. apply fresh_add; [done| |done]. rewrite vsize_app. etrans; [apply u16_twice_le; pose proof (vsize_nonneg acts); lia|lia].
Qed.

Lemma merge_fresh dfaA dfaB dfa : merge dfaA dfaB = Done dfa -> fresh_nodes dfa (vsize (dfa_transitionRanges dfa)).
Proof.
  unfold merge. intros E. apply obind_Done in E as ([i s] & Es & E).
  destruct (getOrCreateCombinedNode_fresh _ _ _ _ _ _ 0 ltac:(lia) Es (fresh_empty 0 ltac:(lia))) as [Hd Hr]. cbn in Hr.
  assert (Hs : fresh_nodes (ws_dfa s) (vsize (dfa_transitionRanges (ws_dfa s)))) by (by rewrite Hr). clear Es Hd Hr. revert s E Hs.
  generalize ((length (dfa_nodes dfaA) + 1) * (length (dfa_nodes dfaB) + 1))%nat as fuel. induction fuel as [|fuel IH]; intros s E Hs; cbn [merge_loop] in E;
    (destruct (ws_unprocessed s) as [|k rest]; [by injection E as <-|]); [done|].
  apply obind_Done in E as (s1 & E1 & E). apply IH in E; [done|]. unfold process_pair in E1. apply obind_Done in E1 as (vA & _ & E1). apply obind_Done in E1 as (v & _ & E1).
  apply emit_fresh in E1; [done| |done]. intros s' D j s'' b Hb Eg Hf. by eapply getOrCreateCombinedNode_fresh.
Qed.

(** What minimization asks for. *)
Lemma fresh_slices dfa b : fresh_nodes dfa b -> slices_ok dfa /\ all_nodes_live dfa.
Proof.
  intros [H1 H2 H3]. split; [|done].
  assert (Hnode : forall i, 0 <= i < vsize (dfa_nodes dfa) -> dfa_nodes dfa !! Z.to_nat i = Some (zat (dfa_nodes dfa) i)).
  { intros i Hi. apply list_lookup_lookup_total_lt. unfold vsize in Hi. lia. }
  constructor.
  - intros node Hin. by apply H2.
  - intros i j x Hi Hj Hx Hx'. destruct (Z.eq_dec i j) as [|Hne]; [done|]. apply elem_of_seqZ in Hx, Hx'.
    destruct (H3 (Z.to_nat i) (Z.to_nat j) _ _ (Hnode i Hi) (Hnode j Hj) ltac:(lia)) as [A _]. by destruct (A x).
  - intros i j x Hi Hj Hx Hx'. destruct (Z.eq_dec i j) as [|Hne]; [done|]. apply elem_of_seqZ in Hx, Hx'.
    destruct (H3 (Z.to_nat i) (Z.to_nat j) _ _ (Hnode i Hi) (Hnode j Hj) ltac:(lia)) as [_ A]. by destruct (A x).
Qed.
End Results.
