(* ===== verification/DfaCombiner.v ===== *)
(** * Combining small DFAs (DFACombiner.h, DFACombiner.cpp)

    Small DFAs are collected, minimized, and merged in pairs until the results
    are large enough.  The handler of the code only consumes DFAs: the model
    returns the DFAs in the order they are handled. *)

From S2P Require Import Prelude Containers RangeList RangeListProofs Dfa Worklist NfaToDfaProofs DfaMerger DfaMinimizer PartitionProofs MinimizerGraph MinimizerTables MinimizerRefine MinimizerProofs MinimizerRelocate MinimizerTheorems FreshDfa.

Section Combiner.
Context `{HashOrder}.

(** [DFACombiner::addDFA(dfa)]. *)
Definition addDFA (dfas : list DFA) (dfa : DFA) : outcome (list DFA) :=
  let* dfa' := minimize dfa in Done (dfas ++ [dfa']).

(** The first loop of [combineDFAs], from the last DFA to the first: the
    handled DFAs and those that are left. *)
Fixpoint take_large (minimumSize : Z) (dfas : list DFA) : list DFA * list DFA :=
  match dfas with
  | [] => ([], [])
  | dfa :: dfas' =>
      let (handled, rest) := take_large minimumSize dfas' in
      if minimumSize <? graphSize dfa then (handled ++ [dfa], rest) else (handled, dfa :: rest)
  end.

(** The second loop; every iteration leaves one DFA less. *)
Fixpoint combine_loop (fuel : nat) (minimumSize : Z) (dfas : list DFA) : outcome (list DFA) :=
  match rev dfas with
  | [] => Done []
  | [dfa] => Done [dfa]
  | a :: b :: rest =>
      match fuel with
      | O => OutOfFuel
      | S fuel' =>
          let left := rev rest in
          let* c := merge a b in
          let* c' := if (minimumSize <? graphSize c) || (match left with [] => true | _ => false end) then minimize c else Done c in
          if minimumSize <? graphSize c' then
            let* handled := combine_loop fuel' minimumSize left in Done (c' :: handled)
          else combine_loop fuel' minimumSize (left ++ [c'])
      end
  end.

Definition combineDFAs (minimumSize : Z) (dfas : list DFA) : outcome (list DFA) :=
  let (handled, rest) := take_large minimumSize dfas in
  let* combined := combine_loop (length rest) minimumSize rest in
  Done (handled ++ combined).
End Combiner.

(** ** Combining small DFAs

    Merging and minimizing until few DFAs are left keeps the actions the DFAs
    perform together.  The bounds the code relies on hold along the way: only
    small DFAs are merged, and killed nodes are not counted. *)

#[local] Arguments vsize {A} v : simpl never.

(** ** The size of a merged DFA *)

Definition live_nodes (dfa : DFA) : list Z := filter (fun i => isKilled (zat (dfa_nodes dfa) i) = false) (seqZ 0 (vsize (dfa_nodes dfa))).

Lemma live_nodes_size dfa : vsize (live_nodes dfa) = graphSize dfa.
Proof.
  unfold graphSize, live_nodes. rewrite <- (tab_nodes (dfa_nodes dfa)) at 2. generalize (seqZ 0 (vsize (dfa_nodes dfa))) as l.
  induction l as [|i l IH]; [done|]. rewrite map_cons, !filter_cons. destruct (isKilled (zat (dfa_nodes dfa) i)); cbn [negb]; repeat case_decide; try done. by rewrite !vsize_cons, IH.
Qed.

Lemma elem_of_live_nodes dfa i : live dfa i -> i ∈ live_nodes dfa.
Proof.
  intros Hl. pose proof (live_bound _ _ Hl) as Hi. destruct Hl as (node & En & Hk). apply list_elem_of_filter. split; [|apply elem_of_seqZ; lia].
  rewrite (vget_at (dfa_nodes dfa)) in En by done. by injection En as ->.
Qed.

Section Combine.
Context `{HashOrder}.

(** A merged DFA has at most one node per pair of live nodes, or of a live node
    and none. *)
Lemma merge_size dfaA dfaB dfa : dfa_wf dfaA -> dfa_wf dfaB -> vsize (remove_dups (dfa_actions dfaA ++ dfa_actions dfaB)) <= UINT16_MAX ->
  merge dfaA dfaB = Done dfa -> vsize (dfa_nodes dfa) <= (graphSize dfaA + 1) * (graphSize dfaB + 1).
Proof.
  intros HA HB Ha E. destruct (merge_spec dfaA dfaB HA HB Ha) as (dfa' & table & u & E' & Hs & _). rewrite E in E'. injection E' as <-.
  rewrite <- (ti_size Hs), <- !live_nodes_size. unfold vsize. rewrite <- (length_map fst table).
  set (keys := map (fun '(a, b) => signatureForIndices a b) (list_prod (invalidNodeIndex :: live_nodes dfaA) (invalidNodeIndex :: live_nodes dfaB))).
  assert (Hlen : (length (map fst table) <= length keys)%nat).
  { apply submseteq_length, NoDup_submseteq.
    - apply NoDup_fmap_2_strong; [|by eapply table_NoDup]. intros x y Hx Hy Heq. by apply (ti_unique Hs).
    - intros k (x & -> & Hx)%list_elem_of_fmap. destruct (ti_entries Hs x Hx) as (a & b & -> & Sa & Sb). unfold keys.
      apply list_elem_of_In, (in_map (fun '(a, b) => signatureForIndices a b) _ (a, b)), in_prod; apply list_elem_of_In.
      + destruct Sa as [->|Sa]; [left|right; by apply elem_of_live_nodes].
      + destruct Sb as [->|Sb]; [left|right; by apply elem_of_live_nodes]. }
  unfold keys in Hlen. rewrite !length_map, length_prod in Hlen. cbn [length] in Hlen. rewrite length_map. nia.
Qed.

(** ** The actions of a DFA *)

(** The action vector holds actions of [S], and what killed nodes leave. *)
Definition actions_in (S : list Z) (dfa : DFA) : Prop := forall a, a ∈ dfa_actions dfa -> a ∈ UINT64_MAX :: S.

Lemma actions_few S dfaA dfaB : vsize S < UINT16_MAX -> actions_in S dfaA -> actions_in S dfaB -> vsize (remove_dups (dfa_actions dfaA ++ dfa_actions dfaB)) <= UINT16_MAX.
Proof.
  intros HS HA HB. assert (Hle : (length (remove_dups (dfa_actions dfaA ++ dfa_actions dfaB)) <= length (UINT64_MAX :: S))%nat).
  { apply submseteq_length, NoDup_submseteq; [apply NoDup_remove_dups|]. intros a Ha. apply elem_of_remove_dups, elem_of_app in Ha as [?|?]; auto. }
  cbn [length] in Hle. unfold vsize in *. lia.
Qed.

Lemma ofold_keeps {A S} (body : S -> A -> outcome S) (I : S -> Prop) l : (forall s x s', body s x = Done s' -> I s -> I s') -> forall s, I s -> forall s', ofold body s l = Done s' -> I s'.
Proof.
  intros HI. induction l as [|x l IH]; intros s Hs s' E; [by injection E as <-|]. cbn [ofold] in E. apply obind_Done in E as (s1 & E1 & E). eapply IH; [|exact E]. by eapply HI.
Qed.

Lemma vset_elem (v v' : list Z) i x y : vset v i x = Done v' -> y ∈ v' -> y = x \/ y ∈ v.
Proof.
  intros [_ ->]%vset_inv. intros (j & Hj)%list_elem_of_lookup. apply list_lookup_insert_Some in Hj as [(_ & <- & _)|(_ & Hj)]; [by left|right]. by eapply list_elem_of_lookup_2.
Qed.

Lemma minimize_actions_in S dfa dfa' : minimize dfa = Done dfa' -> actions_in S dfa -> actions_in S dfa'.
Proof.
  unfold minimize. intros E HS. apply obind_Done in E as (g0 & _ & E). apply obind_Done in E as (fs & _ & E). apply obind_Done in E as (g1 & _ & E). apply obind_Done in E as (g2 & _ & E).
  apply obind_Done in E as ([d v] & Er & E). apply obind_Done in E as (root & _ & E). apply obind_Done in E as (dests & _ & E). injection E as <-.
  change (actions_in S (fst (d, v))). revert Er. apply (ofold_keeps (relocate_node g2) (fun s => actions_in S (fst s))); [|done].
  intros [d1 v1] i s' E1 Hd. unfold relocate_node in E1. apply obind_Done in E1 as (rep & _ & E1). destruct (i =? rep); [by injection E1 as <-|].
  apply obind_Done in E1 as (v2 & _ & E1). apply obind_Done in E1 as (d2 & Ek & E1). injection E1 as <-. cbn [fst] in *. unfold kill in Ek.
  apply obind_Done in Ek as (node & _ & Ek). apply obind_Done in Ek as (r & _ & Ek). apply obind_Done in Ek as (ds & _ & Ek). apply obind_Done in Ek as (acts & Ea & Ek).
  apply obind_Done in Ek as (nodes & _ & Ek). injection Ek as <-. unfold actions_in in *. cbn [dfa_actions]. revert Ea.
  apply (ofold_keeps (fun v k => vset v k UINT64_MAX) (fun acts => forall a, a ∈ acts -> a ∈ UINT64_MAX :: S)); [|done].
  intros w k w' Ew Hw a Ha. destruct (vset_elem _ _ _ _ _ Ew Ha) as [->|Hin]; [left|auto].
Qed.

Lemma emit_actions_in {U Q K} (get : work_state U Q -> K -> outcome (Z * work_state U Q)) S source s v s' :
  (forall s k i s', get s k = Done (i, s') -> actions_in S (ws_dfa s) -> actions_in S (ws_dfa s')) ->
  emit_transitions get source s v = Done s' -> actions_in S (ws_dfa s) -> actions_in S (ws_dfa s').
Proof.
  intros Hget E Hs. unfold emit_transitions in E. apply obind_Done in E as (R & _ & E). apply obind_Done in E as (s2 & E2 & E). apply obind_Done in E as (j & _ & E).
  apply obind_Done in E as (node & _ & E). apply obind_Done in E as (nodes & _ & E). injection E as <-. change (actions_in S (ws_dfa s2)). revert E2.
  apply (ofold_keeps (append_transition get) (fun t => actions_in S (ws_dfa t))); [|done].
  intros t1 r t2 Et H1. unfold append_transition in Et. apply obind_Done in Et as ([ti t3] & Eg & Et). injection Et as <-. by apply Hget in Eg.
Qed.

Lemma merge_actions_in S dfaA dfaB dfa : dfa_wf dfaA -> dfa_wf dfaB -> vsize S < UINT16_MAX -> actions_in S dfaA -> actions_in S dfaB ->
  merge dfaA dfaB = Done dfa -> actions_in S dfa.
Proof.
  intros HA HB HS SA SB. assert (Hget : forall s k i s', getOrCreateCombinedNode dfaA dfaB s k = Done (i, s') -> actions_in S (ws_dfa s) -> actions_in S (ws_dfa s')).
  { intros s k i s'. unfold getOrCreateCombinedNode. destruct (List.find _ _); [by intros [= <- <-]|]. intros E Hs. apply obind_Done in E as (aA & EA & E). apply obind_Done in E as (acts & EB & E).
    injection E as <- <-. intros a Ha. cbn in Ha. apply elem_of_app in Ha as [Ha|Ha]; [auto|].
    assert (Hadd : forall d i l l', actions_in S d -> add_node_actions d i l = Done l' -> (forall x, x ∈ l -> x ∈ UINT64_MAX :: S) -> forall x, x ∈ l' -> x ∈ UINT64_MAX :: S).
    { intros d j l l' Hd E Hl x Hx. unfold add_node_actions in E. destruct (j =? invalidNodeIndex); [injection E as <-; auto|]. apply obind_Done in E as (node & _ & E).
      apply obind_Done in E as (l1 & En & E). injection E as <-. apply elem_of_hs_add_range in Hx as [Hx|Hx]; [|auto]. apply Hd. unfold node_actions in En. by eapply vslice_elem. }
    eapply (Hadd dfaB); [done|exact EB| |done]. intros y Hy. eapply (Hadd dfaA); [done|exact EA|by intros ? ?%elem_of_nil|done]. }
  unfold merge. intros E. apply obind_Done in E as ([i s] & Es & E). apply Hget in Es; [|by intros ? ?%elem_of_nil]. revert s E Es.
  generalize ((length (dfa_nodes dfaA) + 1) * (length (dfa_nodes dfaB) + 1))%nat as fuel. induction fuel as [|fuel IH]; intros s E Hs; cbn [merge_loop] in E;
    (destruct (ws_unprocessed s) as [|k rest]; [by injection E as <-|]); [done|].
  apply obind_Done in E as (s1 & E1 & E). apply IH in E; [done|]. unfold process_pair in E1. apply obind_Done in E1 as (vA & _ & E1). apply obind_Done in E1 as (v & _ & E1).
  by eapply (emit_actions_in (getOrCreateCombinedNode dfaA dfaB)).
Qed.

(** The actions of the nodes that are left. *)
Definition live_actions (T : Z -> Prop) (dfa : DFA) : Prop := forall i a, live dfa i -> a ∈ dfa_node_actions dfa i -> T a.

Lemma minimize_live_actions T dfa dfa' : fresh_dfa dfa -> minimize dfa = Done dfa' -> live_actions T dfa -> live_actions T dfa'.
Proof. intros Hf E HT i a Hi Ha. destruct (minimize_live_nodes _ _ _ Hf E Hi) as [Hl Eq]. rewrite Eq in Ha. by eapply HT. Qed.

Lemma state_live_actions T dfa i a : state_ok dfa i -> live_actions T dfa -> a ∈ state_actions dfa i -> T a.
Proof. unfold state_actions. intros [->|Hi] HT; [by rewrite Z.eqb_refl; intros ?%elem_of_nil|]. destruct (i =? invalidNodeIndex); [by intros ?%elem_of_nil|by apply HT]. Qed.

Lemma table_live_actions {U K} {uid : U -> Z} {ukey : U -> K} {Keq entry_ok acts_ok kmoves} {dfa table} T :
  table_inv uid ukey Keq entry_ok acts_ok kmoves dfa table [] ->
  (forall u acts a, u ∈ table -> acts_ok (ukey u) acts -> a ∈ acts -> T a) -> live_actions T dfa.
Proof.
  intros Hs HT i a Hi Ha. apply live_bound in Hi. rewrite <- (ti_size Hs) in Hi. destruct (lookup_lt_is_Some_2 table (Z.to_nat i)) as [u Hu]; [unfold vsize in Hi; lia|].
  pose proof (ti_index Hs _ _ Hu) as Hid. rewrite Z2Nat.id in Hid by lia. subst i. assert (Hin : u ∈ table) by (by eapply list_elem_of_lookup_2).
  by apply (HT u _ a Hin (done_actions u Hs Hin)).
Qed.

Lemma merge_live_actions T dfaA dfaB dfa : dfa_wf dfaA -> dfa_wf dfaB -> vsize (remove_dups (dfa_actions dfaA ++ dfa_actions dfaB)) <= UINT16_MAX ->
  merge dfaA dfaB = Done dfa -> live_actions T dfaA -> live_actions T dfaB -> live_actions T dfa.
Proof.
  intros HA HB Hf E TA TB. destruct (merge_spec dfaA dfaB HA HB Hf) as (dfa' & table & u0 & E' & Hs & _). rewrite E in E'. injection E' as <-.
  apply (table_live_actions T Hs). intros u acts a Hin [_ Hx] Ha. apply Hx in Ha. destruct (ti_entries Hs u Hin) as (a0 & b0 & Ek & Sa & Sb). rewrite Ek in Ha.
  destruct (key_parts dfaA dfaB HA HB a0 b0 Sa Sb) as [Ea Eb]. rewrite Ea, Eb in Ha. destruct Ha as [Ha|Ha]; [by eapply (state_live_actions T dfaA)|by eapply (state_live_actions T dfaB)].
Qed.

Lemma actions_in_live S dfa : dfa_wf dfa -> actions_in S dfa -> live_actions (fun a => a ∈ UINT64_MAX :: S) dfa.
Proof.
  intros Hw HS i a Hi Ha. apply HS, (state_actions_elem dfa i); [done|by right|]. unfold state_actions. by destruct (live_valid _ _ Hw Hi) as [_ ->%Z.eqb_neq].
Qed.

(** ** The loops *)

(** What the DFAs perform together. *)
Definition perform (dfas : list DFA) (w : list Z) (a : Z) : Prop := exists dfa, dfa ∈ dfas /\ a ∈ word_actions dfa w.

Definition same_actions (dfas dfas' : list DFA) : Prop := forall w a, ascii_word w -> perform dfas w a <-> perform dfas' w a.

Lemma perform_app l l' w a : perform (l ++ l') w a <-> perform l w a \/ perform l' w a.
Proof.
  unfold perform. split.
  - intros (d & [Hd|Hd]%elem_of_app & Ha); [left|right]; by exists d.
  - intros [(d & Hd & Ha)|(d & Hd & Ha)]; exists d; (split; [apply elem_of_app; auto|done]).
Qed.

Lemma perform_cons d l w a : perform (d :: l) w a <-> a ∈ word_actions d w \/ perform l w a.
Proof.
  change (d :: l) with ([d] ++ l). rewrite perform_app. split; (intros [Hx|Hx]; [|by right]); left.
  - destruct Hx as (d' & ->%list_elem_of_singleton & Ha). done.
  - exists d. split; [by apply list_elem_of_singleton|done].
Qed.

Lemma perform_nil w a : perform [] w a <-> False.
Proof. split; [by intros (d & Hd%elem_of_nil & _)|done]. Qed.

Lemma perform_perm l l' w a : l ≡ₚ l' -> perform l w a <-> perform l' w a.
Proof. intros Hp. unfold perform. by setoid_rewrite Hp. Qed.

Section Bounds.
Context (S : list Z) (HS : vsize S < UINT16_MAX) (T : Z -> Prop) (minimumSize : Z) (Hmin : 0 <= minimumSize <= 5000).

Definition combinable (dfa : DFA) : Prop := dfa_wf dfa /\ actions_in S dfa /\ live_actions T dfa.

Lemma combine_two a b : combinable a -> combinable b -> graphSize a <= minimumSize -> graphSize b <= minimumSize ->
  exists c, merge a b = Done c /\ fresh_dfa c /\ combinable c /\ forall w x, ascii_word w -> x ∈ word_actions c w <-> x ∈ word_actions a w \/ x ∈ word_actions b w.
Proof.
  intros (Wa & Sa & Ta) (Wb & Sb & Tb) Ga Gb. pose proof (actions_few S a b HS Sa Sb) as Hf. destruct (merge_runs_both a b Wa Wb Hf) as (c & E & Hr & Hl).
  pose proof (merge_size a b c Wa Wb Hf E) as Hsz. assert (H0 : 0 <= graphSize a /\ 0 <= graphSize b) by (split; apply vsize_nonneg).
  assert (Hn : vsize (dfa_nodes c) <= 5001 * 5001) by nia. destruct (fresh_slices c _ (merge_fresh a b c E)) as [Hs Hlive].
  assert (Wc : dfa_wf c) by (apply (merge_result_wf a b c Wa Wb Hf E); unfold UINT32_MAX; lia).
  exists c. split; [done|]. split; [constructor; try done; lia|]. split; [split; [done|]; split; [by apply (merge_actions_in S a b)|by apply (merge_live_actions T a b)]|].
  intros w x Hw. specialize (Hl w Hw). unfold word_actions at 1. rewrite Hr. destruct (dfa_run c 0 w) as [m|]; [apply Hl|].
  destruct Hl as [La Lb]. unfold word_actions. rewrite La, Lb, !elem_of_nil. tauto.
Qed.

Lemma minimize_combinable c : fresh_dfa c -> combinable c -> exists c', minimize c = Done c' /\ combinable c' /\ forall w, word_actions c' w = word_actions c w.
Proof.
  intros Hf (_ & Hc & Ht). destruct (minimize_keeps_actions c Hf) as (c' & E & Hw & Hl). exists c'. split; [done|].
  split; [split; [done|]; split; [by eapply minimize_actions_in|by eapply minimize_live_actions]|]. intros w. by apply Hl.
Qed.

Lemma combine_loop_spec fuel : forall dfas, (length dfas <= Datatypes.S fuel)%nat -> Forall (fun d => combinable d /\ graphSize d <= minimumSize) dfas ->
  exists out, combine_loop fuel minimumSize dfas = Done out /\ Forall combinable out /\ same_actions out dfas.
Proof.
  induction fuel as [|fuel IH]; intros dfas Hlen Hd; destruct dfas as [|a dfas _] using rev_ind; [by exists []| |by exists []|];
    rewrite length_app in Hlen; apply Forall_app in Hd as [Hd Ha]; apply Forall_cons in Ha as [[Ca Ga] _]; (destruct dfas as [|b left _] using rev_ind;
    [exists [a]; split; [done|]; split; [by constructor|done]|]); cbn [length] in Hlen; rewrite length_app in Hlen; cbn [length] in Hlen; try lia.
  apply Forall_app in Hd as [Hd Hb]. apply Forall_cons in Hb as [[Cb Gb] _]. cbn [combine_loop]. rewrite !rev_app_distr. cbn [rev app]. rewrite rev_involutive.
  destruct (combine_two a b Ca Cb Ga Gb) as (c & -> & Fc & Cc & Hc). cbn [obind].
  assert (Hc' : exists c', (if (minimumSize <? graphSize c) || (match left with [] => true | _ => false end) then minimize c else Done c) = Done c' /\ combinable c' /\
    forall w, word_actions c' w = word_actions c w).
  { destruct (_ || _); [by apply minimize_combinable|]. by exists c. }
  destruct Hc' as (c' & -> & Cc' & Hcc). cbn [obind].
  assert (Hsame : forall w x, ascii_word w -> perform ((left ++ [b]) ++ [a]) w x <-> x ∈ word_actions c' w \/ perform left w x).
  { intros w x Hw. rewrite !perform_app, !perform_cons, !perform_nil, Hcc, Hc by done. tauto. }
  destruct (Z.ltb_spec minimumSize (graphSize c')) as [Hlt|Hge].
  - destruct (IH left) as (out & -> & Co & So); [lia|done|]. cbn [obind]. exists (c' :: out). split; [done|]. split; [by constructor|].
    intros w x Hw. rewrite Hsame, perform_cons, (So w x Hw) by done. done.
  - destruct (IH (left ++ [c'])) as (out & -> & Co & So); [rewrite length_app; cbn; lia|apply Forall_app; split; [done|]; constructor; [done|constructor]|].
    exists out. split; [done|]. split; [done|]. intros w x Hw. rewrite Hsame, (So w x Hw), perform_app, perform_cons, perform_nil by done. tauto.
Qed.

Lemma take_large_spec dfas : let (handled, rest) := take_large minimumSize dfas in handled ++ rest ≡ₚ dfas /\ Forall (fun d => graphSize d <= minimumSize) rest.
Proof.
  induction dfas as [|d dfas IH]; [done|]. cbn [take_large]. destruct (take_large minimumSize dfas) as [handled rest]. destruct IH as [Hp Hr].
  destruct (Z.ltb_spec minimumSize (graphSize d)).
  - split; [|done]. rewrite <- app_assoc. cbn. rewrite <- Permutation_middle. by constructor.
  - split; [|by constructor]. rewrite <- Permutation_middle. by constructor.
Qed.

(** Combining keeps what the DFAs perform together. *)
Lemma combineDFAs_spec dfas : Forall combinable dfas ->
  exists out, combineDFAs minimumSize dfas = Done out /\ Forall combinable out /\ same_actions out dfas.
Proof.
  intros Hd. unfold combineDFAs. pose proof (take_large_spec dfas) as Ht. destruct (take_large minimumSize dfas) as [handled rest]. destruct Ht as [Hp Hr].
  rewrite <- Hp in Hd. apply Forall_app in Hd as [Hh Hd].
  destruct (combine_loop_spec (length rest) rest) as (out & -> & Co & So); [lia|apply Forall_and; done|]. cbn [obind]. exists (handled ++ out).
  split; [done|]. split; [by apply Forall_app|]. intros w x Hw. rewrite perform_app, (So w x Hw), <- perform_app. by apply perform_perm.
Qed.
End Bounds.
End Combine.

(** ** Properties of the DFA combiner *)

Section Properties.
Context `{HashOrder}.

(** Adding DFAs one by one keeps what they perform together. *)
Lemma addDFAs_spec S T dfas : Forall (fun d => fresh_dfa d /\ actions_in S d /\ live_actions T d) dfas ->
  exists small, ofold addDFA [] dfas = Done small /\ Forall (combinable S T) small /\ forall w a, perform small w a <-> perform dfas w a.
Proof.
  induction dfas as [|d dfas IH] using rev_ind; intros Hd; [by exists []|]. apply Forall_app in Hd as [Hd [(Hf & Hs & Ht) _]%Forall_cons].
  destruct (IH Hd) as (small & E & Hc & Hp). destruct (minimize_combinable S T d Hf) as (d' & Em & Hc' & Hl); [split; [apply Hf|done]|].
  rewrite ofold_app, E. cbn [obind ofold]. unfold addDFA. rewrite Em. cbn [obind]. exists (small ++ [d']). split; [done|].
  split; [apply Forall_app; split; [done|by constructor]|]. intros w a. by rewrite !perform_app, !perform_cons, !perform_nil, Hp, Hl.
Qed.

(** C12: Adding DFAs to the combiner and combining them succeeds, and the DFAs
    handed to the handler are well formed and together perform, on every ASCII
    word, exactly the actions that the added DFAs perform: minimizing each,
    setting the large ones aside, merging the others in pairs and minimizing
    again loses nothing and adds nothing. *)
Theorem combine_language S minimumSize dfas : vsize S < UINT16_MAX -> 0 <= minimumSize <= 5000 ->
  Forall (fun d => fresh_dfa d /\ actions_in S d) dfas ->
  exists small out, ofold addDFA [] dfas = Done small /\ combineDFAs minimumSize small = Done out /\ Forall dfa_wf out /\
    forall w a, ascii_word w -> perform out w a <-> perform dfas w a.
Proof.
  intros HS Hm Hd. set (T := fun a => a ∈ UINT64_MAX :: S).
  destruct (addDFAs_spec S T dfas) as (small & E & Hc & Hp); [eapply Forall_impl; [exact Hd|]; intros d [Hf Ha]; split_and!; [done..|apply actions_in_live; [apply Hf|done]]|].
  destruct (combineDFAs_spec S HS T minimumSize Hm small Hc) as (out & E' & Hc' & Hp').
  exists small, out. split; [done|]. split; [done|]. split; [eapply Forall_impl; [done|]; by intros d []|]. intros w a Hw. by rewrite (Hp' w a Hw), Hp.
Qed.
End Properties.

(** ** Witnesses *)

Definition actions_inb (S : list Z) (dfa : DFA) : bool := forallb (fun a => bool_decide (a ∈ UINT64_MAX :: S)) (dfa_actions dfa).

Lemma actions_inb_sound S dfa : actions_inb S dfa = true -> actions_in S dfa.
Proof. intros Hb a Ha. unfold actions_inb in Hb. rewrite forallb_forall in Hb. apply list_elem_of_In, Hb in Ha. by apply bool_decide_eq_true in Ha. Qed.

Lemma combine_language_witness : exists small out, ofold addDFA [] [merge_dfa1; merge_dfa2; twin_dfa] = Done small /\ combineDFAs 3 small = Done out /\
  length out = 2%nat /\ perform out [97; 98] 2.
Proof.
  destruct (combine_language [1; 2; 7; 9] 3 [merge_dfa1; merge_dfa2; twin_dfa]) as (small & out & E1 & E2 & _ & Hp); [vm_compute; reflexivity|lia| |].
  - repeat (constructor; [split; [apply fresh_dfab_sound; vm_compute; reflexivity|by apply actions_inb_sound]|]). constructor.
  - exists small, out. split; [exact E1|]. split; [exact E2|]. split.
    + vm_compute in E1. injection E1 as <-. vm_compute in E2. injection E2 as <-. reflexivity.
    + apply Hp; [unfold ascii_word; repeat (constructor; [lia|]); constructor|]. exists merge_dfa2. split; [right; left|]. vm_compute. left.
Defined.
