(* ===== verification/ResourceLoad.v ===== *)
(** * Resource types, load types and action words (ResourceLoadInfo.h/.cpp) *)

From stdpp Require Import strings.
From S2P Require Import Prelude Containers Strings.

Inductive ResourceType :=
| RT_Invalid | RT_Document | RT_Image | RT_StyleSheet | RT_Script | RT_Font
| RT_Raw | RT_SVGDocument | RT_Media | RT_PlugInStream | RT_Popup.

Definition resource_type_code (t : ResourceType) : Z :=
  match t with
  | RT_Invalid => 0x0000
  | RT_Document => 0x0001
  | RT_Image => 0x0002
  | RT_StyleSheet => 0x0004
  | RT_Script => 0x0008
  | RT_Font => 0x0010
  | RT_Raw => 0x0020
  | RT_SVGDocument => 0x0040
  | RT_Media => 0x0080
  | RT_PlugInStream => 0x0100
  | RT_Popup => 0x0200
  end.

Definition ResourceTypeMask : Z := 0x03FF.

Inductive LoadType := LT_Invalid | LT_FirstParty | LT_ThirdParty.

Definition load_type_code (t : LoadType) : Z :=
  match t with LT_Invalid => 0x0000 | LT_FirstParty => 0x0400 | LT_ThirdParty => 0x0800 end.

Definition LoadTypeMask : Z := 0x0C00.

(** An action word: the location in the low 32 bits, the trigger flags in the
    next 16, then the if-domain bit. *)
Definition ActionFlagMask : Z := 0x0000FFFF00000000.
Definition IfDomainFlag : Z := 0x0001000000000000.

Definition readResourceType (name : WTFString) : Z :=
  if s_is name "document" then resource_type_code RT_Document
  else if s_is name "image" then resource_type_code RT_Image
  else if s_is name "style-sheet" then resource_type_code RT_StyleSheet
  else if s_is name "script" then resource_type_code RT_Script
  else if s_is name "font" then resource_type_code RT_Font
  else if s_is name "raw" then resource_type_code RT_Raw
  else if s_is name "svg-document" then resource_type_code RT_SVGDocument
  else if s_is name "media" then resource_type_code RT_Media
  else if s_is name "popup" then resource_type_code RT_Popup
  else resource_type_code RT_Invalid.

Definition readLoadType (name : WTFString) : Z :=
  if s_is name "first-party" then load_type_code LT_FirstParty
  else if s_is name "third-party" then load_type_code LT_ThirdParty
  else load_type_code LT_Invalid.

(** The types of [CachedResource] that the configuration of the build leaves,
    and [toResourceType]; it is not reached for the other types. *)
Inductive CachedResourceType :=
| MainResource | ImageResource | CSSStyleSheet | Script | FontResource | SVGFontResource | RawResource
| SVGDocumentResource | XSLStyleSheet | LinkPrefetch | LinkSubresource | TextTrackResource.

Definition toResourceType (type : CachedResourceType) : outcome ResourceType :=
  match type with
  | MainResource => Done RT_Document
  | SVGDocumentResource => Done RT_SVGDocument
  | ImageResource => Done RT_Image
  | CSSStyleSheet | XSLStyleSheet => Done RT_StyleSheet
  | Script => Done RT_Script
  | FontResource | SVGFontResource => Done RT_Font
  | RawResource => Done RT_Raw
  | TextTrackResource => Done RT_Media
  | LinkPrefetch | LinkSubresource => Crash
  end.

(** [ResourceLoadInfo::getResourceFlags()] for a load of type [type];
    [isThirdParty] is the answer of the origin check. *)
Definition getResourceFlags (type : ResourceType) (isThirdParty : bool) : Z :=
  Z.lor (resource_type_code type)
        (if isThirdParty then load_type_code LT_ThirdParty else load_type_code LT_FirstParty).

(** ** Action words *)

Definition action_word (ifDomain : bool) (flags location : Z) : Z :=
  Z.lor (if ifDomain then IfDomainFlag else 0) (Z.lor (Z.shiftl flags 32) location).

(** The words [compileRuleList] builds. *)
Definition action_wf (a : Z) : Prop :=
  exists d flags location, a = action_word d flags location /\ 0 <= flags < 2 ^ 16 /\ 0 <= location < 2 ^ 32.

Lemma lor_add_disjoint k hi lo : 0 <= k -> 0 <= lo < 2 ^ k -> Z.lor (hi * 2 ^ k) lo = hi * 2 ^ k + lo.
Proof.
  intros Hk Hlo. assert (Hd : Z.land (hi * 2 ^ k) lo = 0).
  { apply Z.bits_inj'. intros n Hn. rewrite Z.land_spec, Z.bits_0, <- Z.shiftl_mul_pow2, Z.shiftl_spec by lia.
    destruct (Z.ltb_spec n k); [by rewrite Z.testbit_neg_r by lia|].
    rewrite <- (Z.mod_small lo (2 ^ k)) by lia. rewrite Z.mod_pow2_bits_high by lia. apply andb_false_r. }
  rewrite <- Z.lxor_lor by done. rewrite <- Z.add_nocarry_lxor by done. done.
Qed.

Lemma action_word_value d flags location :
  0 <= flags < 2 ^ 16 -> 0 <= location < 2 ^ 32 ->
  action_word d flags location = ((if d then 1 else 0) * 2 ^ 16 + flags) * 2 ^ 32 + location.
Proof.
  intros Hf Hl. unfold action_word. rewrite Z.shiftl_mul_pow2, (lor_add_disjoint 32) by lia.
  destruct d; [|rewrite Z.lor_0_l; lia].
  replace IfDomainFlag with (1 * 2 ^ 48) by reflexivity. rewrite (lor_add_disjoint 48); [lia|lia|lia].
Qed.

(** The fields of an action word. *)
Lemma action_word_location d flags location :
  0 <= flags < 2 ^ 16 -> 0 <= location < 2 ^ 32 -> u32 (action_word d flags location) = location.
Proof. intros Hf Hl. rewrite action_word_value by done. unfold u32. rewrite Z.add_comm, Z.mod_add by lia. by apply Z.mod_small. Qed.

Lemma action_word_flags d flags location :
  0 <= flags < 2 ^ 16 -> 0 <= location < 2 ^ 32 -> u16 (Z.shiftr (action_word d flags location) 32) = flags.
Proof.
  intros Hf Hl. rewrite action_word_value, Z.shiftr_div_pow2 by lia. rewrite Z.div_add_l by lia.
  rewrite (Z.div_small location) by lia. rewrite Z.add_0_r. unfold u16. rewrite Z.add_comm, Z.mod_add by lia. by apply Z.mod_small.
Qed.

Lemma land_shifted_mask a m k : 0 <= k -> Z.land a (Z.shiftl m k) = Z.shiftl (Z.land (Z.shiftr a k) m) k.
Proof.
  intros Hk. apply Z.bits_inj'. intros n Hn. rewrite Z.land_spec, !Z.shiftl_spec by done.
  destruct (Z.le_gt_cases k n).
  - rewrite Z.land_spec, Z.shiftr_spec by lia. by replace (n - k + k) with n by lia.
  - rewrite (Z.testbit_neg_r m), (Z.testbit_neg_r (Z.land _ _)) by lia. apply andb_false_r.
Qed.

Lemma shiftl_eqb_0 z k : 0 <= k -> (Z.shiftl z k =? 0) = (z =? 0).
Proof.
  intros Hk. rewrite Z.shiftl_mul_pow2 by done. destruct (Z.eqb_spec z 0) as [->|]; [done|].
  apply Z.eqb_neq. intros [?|?]%Z.mul_eq_0; [done|]. assert (0 < 2 ^ k) by (apply Z.pow_pos_nonneg; lia). lia.
Qed.

Lemma action_word_has_flags d flags location :
  0 <= flags < 2 ^ 16 -> 0 <= location < 2 ^ 32 -> (Z.land (action_word d flags location) ActionFlagMask =? 0) = (flags =? 0).
Proof.
  intros Hf Hl. change ActionFlagMask with (Z.shiftl (Z.ones 16) 32). rewrite land_shifted_mask, shiftl_eqb_0 by lia.
  rewrite Z.land_ones by lia. fold (u16 (Z.shiftr (action_word d flags location) 32)). by rewrite action_word_flags.
Qed.

Lemma action_word_has_domain d flags location :
  0 <= flags < 2 ^ 16 -> 0 <= location < 2 ^ 32 -> negb (Z.land (action_word d flags location) IfDomainFlag =? 0) = d.
Proof.
  intros Hf Hl. change IfDomainFlag with (Z.shiftl (Z.ones 1) 48). rewrite land_shifted_mask, shiftl_eqb_0 by lia.
  rewrite Z.land_ones, Z.shiftr_div_pow2, action_word_value by lia.
  replace (((if d then 1 else 0) * 2 ^ 16 + flags) * 2 ^ 32 + location)
    with ((if d then 1 else 0) * 2 ^ 48 + (flags * 2 ^ 32 + location)) by lia.
  rewrite Z.div_add_l, Z.div_small by lia. by destruct d.
Qed.
