(* ===== verification/Bytecode.v ===== *)
(** * The DFA bytecode (DFABytecode.h) and its byte-level accessors

    The instruction set, the variable-width jump encoding, the writers
    [append]/[setBits] of DFABytecodeCompiler.cpp and the readers
    [getBits]/[getJumpDistance] of DFABytecodeInterpreter.cpp.  Bytes are [Z]
    values in 0..255; multi-byte values are little-endian, as
    [reinterpret_cast] reads and writes them on the supported targets. *)

From S2P Require Import Prelude Containers.

Inductive DFABytecodeInstruction :=
| CheckValueCaseInsensitive
| CheckValueCaseSensitive
| JumpTableCaseInsensitive
| JumpTableCaseSensitive
| CheckValueRangeCaseInsensitive
| CheckValueRangeCaseSensitive
| AppendAction
| AppendActionWithIfDomain
| TestFlagsAndAppendAction
| TestFlagsAndAppendActionWithIfDomain
| Terminate
| Jump.

#[global] Instance DFABytecodeInstruction_eq_dec : EqDecision DFABytecodeInstruction.
Proof. solve_decision. Defined.

(** The enumerator values. *)
Definition instruction_code (i : DFABytecodeInstruction) : Z :=
  match i with
  | CheckValueCaseInsensitive => 0
  | CheckValueCaseSensitive => 1
  | JumpTableCaseInsensitive => 2
  | JumpTableCaseSensitive => 3
  | CheckValueRangeCaseInsensitive => 4
  | CheckValueRangeCaseSensitive => 5
  | AppendAction => 6
  | AppendActionWithIfDomain => 7
  | TestFlagsAndAppendAction => 8
  | TestFlagsAndAppendActionWithIfDomain => 9
  | Terminate => 10
  | Jump => 11
  end.

(** [static_cast<DFABytecodeInstruction>]; [None] is a value that is no
    enumerator. *)
Definition instruction_of_code (z : Z) : option DFABytecodeInstruction :=
  if z =? 0 then Some CheckValueCaseInsensitive
  else if z =? 1 then Some CheckValueCaseSensitive
  else if z =? 2 then Some JumpTableCaseInsensitive
  else if z =? 3 then Some JumpTableCaseSensitive
  else if z =? 4 then Some CheckValueRangeCaseInsensitive
  else if z =? 5 then Some CheckValueRangeCaseSensitive
  else if z =? 6 then Some AppendAction
  else if z =? 7 then Some AppendActionWithIfDomain
  else if z =? 8 then Some TestFlagsAndAppendAction
  else if z =? 9 then Some TestFlagsAndAppendActionWithIfDomain
  else if z =? 10 then Some Terminate
  else if z =? 11 then Some Jump
  else None.

Definition DFABytecodeInstructionMask : Z := 15.
Definition DFABytecodeJumpSizeMask : Z := 240.

Inductive DFABytecodeJumpSize := Int8 | Int16 | Int24 | Int32.

#[global] Instance DFABytecodeJumpSize_eq_dec : EqDecision DFABytecodeJumpSize.
Proof. solve_decision. Defined.

Definition jump_size_code (s : DFABytecodeJumpSize) : Z :=
  match s with Int8 => 16 | Int16 => 32 | Int24 => 48 | Int32 => 64 end.

Definition jump_size_of_code (z : Z) : option DFABytecodeJumpSize :=
  if z =? 16 then Some Int8
  else if z =? 32 then Some Int16
  else if z =? 48 then Some Int24
  else if z =? 64 then Some Int32
  else None.

(** [std::max] on the enumeration. *)
Definition jump_size_max (a b : DFABytecodeJumpSize) : DFABytecodeJumpSize :=
  if jump_size_code a <? jump_size_code b then b else a.

Definition Int24Max : Z := 2 ^ 23 - 1.
Definition Int24Min : Z := - 2 ^ 23.

Definition smallestPossibleJumpSize (longestPossibleJump : Z) : DFABytecodeJumpSize :=
  if (longestPossibleJump <=? 127) && (-128 <=? longestPossibleJump) then Int8
  else if (longestPossibleJump <=? 32767) && (-32768 <=? longestPossibleJump) then Int16
  else if (longestPossibleJump <=? Int24Max) && (Int24Min <=? longestPossibleJump) then Int24
  else Int32.

Definition instructionSizeWithArguments (i : DFABytecodeInstruction) : outcome Z :=
  match i with
  | CheckValueCaseSensitive | CheckValueCaseInsensitive
  | JumpTableCaseInsensitive | JumpTableCaseSensitive
  | CheckValueRangeCaseSensitive | CheckValueRangeCaseInsensitive
  | Jump => Crash
  | AppendAction | AppendActionWithIfDomain => Done (1 + 4)
  | TestFlagsAndAppendAction | TestFlagsAndAppendActionWithIfDomain => Done (1 + 2 + 4)
  | Terminate => Done 1
  end.

(** [jumpSizeInBytes]. *)
Definition jumpSizeInBytes (s : DFABytecodeJumpSize) : Z :=
  match s with Int8 => 1 | Int16 => 2 | Int24 => 2 + 1 | Int32 => 4 end.

(** ** Bytes *)

Fixpoint le_bytes (n : nat) (z : Z) : list Z :=
  match n with
  | O => []
  | S n' => z mod 256 :: le_bytes n' (z / 256)
  end.

Fixpoint le_value (bs : list Z) : Z :=
  match bs with
  | [] => 0
  | b :: bs' => b + 256 * le_value bs'
  end.

(** [append<IntType>(bytecode, value)] for an [n]-byte type. *)
Definition append_int (n : nat) (bytecode : list Z) (value : Z) : list Z :=
  bytecode ++ le_bytes n value.

(** [appendZeroes(bytecode, jumpSize)]. *)
Definition appendZeroes (bytecode : list Z) (s : DFABytecodeJumpSize) : list Z :=
  match s with
  | Int8 => append_int 1 bytecode 0
  | Int16 => append_int 2 bytecode 0
  | Int24 => append_int 1 (append_int 2 bytecode 0) 0
  | Int32 => append_int 4 bytecode 0
  end.

(** [setBits<IntType>(bytecode, index, value)] for an [n]-byte type. *)
Definition setBits (n : nat) (bytecode : list Z) (index value : Z) : outcome (list Z) :=
  let* _ := release_assert ((0 <=? index) && (index + Z.of_nat n <=? vsize bytecode)) in
  Done (take (Z.to_nat index) bytecode ++ le_bytes n value ++ drop (Z.to_nat index + n) bytecode).

(** [getBits<IntType>] for the unsigned and signed types of [n] bytes. *)
Definition getBits_unsigned (n : nat) (bytecode : list Z) (index : Z) : outcome Z :=
  let* bs := vslice bytecode index (index + Z.of_nat n) in
  Done (le_value bs).

Definition getBits_u8 := getBits_unsigned 1.
Definition getBits_u16 := getBits_unsigned 2.
Definition getBits_u32 := getBits_unsigned 4.
Definition getBits_i8 (bytecode : list Z) (index : Z) : outcome Z :=
  let* z := getBits_unsigned 1 bytecode index in Done (i8 z).
Definition getBits_i16 (bytecode : list Z) (index : Z) : outcome Z :=
  let* z := getBits_unsigned 2 bytecode index in Done (i16 z).
Definition getBits_i32 (bytecode : list Z) (index : Z) : outcome Z :=
  let* z := getBits_unsigned 4 bytecode index in Done (i32 z).

(** [getInstruction]; a value outside of the enumeration is [None]. *)
Definition getInstruction (bytecode : list Z) (index : Z) : outcome (option DFABytecodeInstruction) :=
  let* z := getBits_u8 bytecode index in
  Done (instruction_of_code (Z.land z DFABytecodeInstructionMask)).

(** [getJumpSize]; the users of a size outside of the enumeration all reach
    [RELEASE_ASSERT_NOT_REACHED]. *)
Definition getJumpSize (bytecode : list Z) (index : Z) : outcome DFABytecodeJumpSize :=
  let* z := getBits_u8 bytecode index in
  match jump_size_of_code (Z.land z DFABytecodeJumpSizeMask) with
  | Some s => Done s
  | None => Crash
  end.

(** [getJumpDistance]. *)
Definition getJumpDistance (bytecode : list Z) (index : Z) (s : DFABytecodeJumpSize) : outcome Z :=
  match s with
  | Int8 => getBits_i8 bytecode index
  | Int16 => getBits_i16 bytecode index
  | Int24 =>
      let* lo := getBits_u16 bytecode index in
      let* hi := getBits_i8 bytecode (index + 2) in
      Done (Z.lor lo (Z.shiftl hi 16))
  | Int32 => getBits_i32 bytecode index
  end.

(** How the linker writes a distance for a jump size. *)
Definition jump_bytes (s : DFABytecodeJumpSize) (distance : Z) : list Z :=
  match s with
  | Int8 => le_bytes 1 (i8 distance)
  | Int16 => le_bytes 2 (i16 distance)
  | Int24 => le_bytes 2 (u16 distance) ++ le_bytes 1 (i8 (Z.shiftr distance 16))
  | Int32 => le_bytes 4 distance
  end.

(** The distances a jump size can hold. *)
Definition jump_fits (s : DFABytecodeJumpSize) (d : Z) : Prop :=
  match s with
  | Int8 => -128 <= d <= 127
  | Int16 => -32768 <= d <= 32767
  | Int24 => Int24Min <= d <= Int24Max
  | Int32 => - 2 ^ 31 <= d < 2 ^ 31
  end.

(** ** Facts *)

Lemma length_le_bytes n z : length (le_bytes n z) = n.
Proof. revert z. induction n; intros; simpl; auto. Qed.

Lemma vsize_le_bytes n z : vsize (le_bytes n z) = Z.of_nat n.
Proof. unfold vsize. by rewrite length_le_bytes. Qed.

Lemma le_value_bytes n z : le_value (le_bytes n z) = z mod 256 ^ Z.of_nat n.
Proof.
  revert z. induction n as [|n IH]; intros z.
  - simpl. by rewrite Z.mod_1_r.
  - cbn [le_bytes le_value]. rewrite IH. rewrite Nat2Z.inj_succ, Z.pow_succ_r by lia.
    rewrite Z.rem_mul_r by lia. done.
Qed.

Lemma le_bytes_0 n : le_bytes n 0 = replicate n 0.
Proof. induction n; simpl; [done|]. by f_equal. Qed.

Lemma jump_bytes_length s d : vsize (jump_bytes s d) = jumpSizeInBytes s.
Proof. destruct s; simpl; reflexivity. Qed.

Lemma appendZeroes_eq b s : appendZeroes b s = b ++ replicate (Z.to_nat (jumpSizeInBytes s)) 0.
Proof. destruct s; unfold appendZeroes, append_int; simpl; rewrite <- ?app_assoc; done. Qed.

Lemma instruction_of_code_code i : instruction_of_code (instruction_code i) = Some i.
Proof. by destruct i. Qed.

Lemma getBits_unsigned_at n pre bs post i :
  i = vsize pre -> length bs = n -> getBits_unsigned n (pre ++ bs ++ post) i = Done (le_value bs).
Proof.
  intros -> Hn. unfold getBits_unsigned. rewrite app_assoc.
  erewrite vslice_mono; [simpl; reflexivity|]. apply vslice_app; unfold vsize; lia.
Qed.

Lemma setBits_at n pre old post i v :
  i = vsize pre -> length old = n -> setBits n (pre ++ old ++ post) i v = Done (pre ++ le_bytes n v ++ post).
Proof.
  intros -> Hn. unfold setBits. rewrite !vsize_app. pose proof (vsize_nonneg pre).
  pose proof (vsize_nonneg post). unfold release_assert.
  destruct (Z.leb_spec 0 (vsize pre)); [|lia].
  destruct (Z.leb_spec (vsize pre + Z.of_nat n) (vsize pre + (vsize old + vsize post))).
  2:{ unfold vsize in *. lia. }
  simpl. f_equal. unfold vsize. rewrite Nat2Z.id, take_app_length. f_equal. f_equal.
  rewrite app_assoc, drop_app_ge; rewrite length_app; [|lia].
  by replace (length pre + n - (length pre + length old))%nat with 0%nat by lia.
Qed.

(** Opcode bytes carry the instruction in the low and the jump size in the
    high four bits. *)
Definition opcode (i : DFABytecodeInstruction) (s : DFABytecodeJumpSize) : Z :=
  Z.lor (instruction_code i) (jump_size_code s).

Lemma opcode_byte i s : opcode i s mod 256 = opcode i s.
Proof. by destruct i, s. Qed.

Lemma opcode_instruction i s : instruction_of_code (Z.land (opcode i s) DFABytecodeInstructionMask) = Some i.
Proof. by destruct i, s. Qed.

Lemma opcode_jump_size i s : jump_size_of_code (Z.land (opcode i s) DFABytecodeJumpSizeMask) = Some s.
Proof. by destruct i, s. Qed.

(** [smallestPossibleJumpSize] returns a size that holds the distance, and
    every distance between it and zero. *)
Lemma smallestPossibleJumpSize_fits l d :
  - 2 ^ 31 <= l < 2 ^ 31 -> Z.min 0 l <= d <= Z.max 0 l -> jump_fits (smallestPossibleJumpSize l) d.
Proof.
  intros Hl Hd. unfold smallestPossibleJumpSize, Int24Min, Int24Max.
  destruct (Z.leb_spec l 127), (Z.leb_spec (-128) l); simpl; try lia.
  all: destruct (Z.leb_spec l 32767), (Z.leb_spec (-32768) l); simpl; try lia.
  all: destruct (Z.leb_spec l (2 ^ 23 - 1)), (Z.leb_spec (- 2 ^ 23) l); simpl; unfold Int24Min, Int24Max; lia.
Qed.

Lemma jump_fits_max a b d : jump_fits a d -> jump_fits (jump_size_max a b) d.
Proof. destruct a, b; unfold jump_size_max; simpl; unfold Int24Min, Int24Max; lia. Qed.

Lemma jump_fits_max_r a b d : jump_fits b d -> jump_fits (jump_size_max a b) d.
Proof. destruct a, b; unfold jump_size_max; simpl; unfold Int24Min, Int24Max; lia. Qed.

Lemma jump_fits_i32 s d : jump_fits s d -> - 2 ^ 31 <= d < 2 ^ 31.
Proof. destruct s; simpl; unfold Int24Min, Int24Max; lia. Qed.

Lemma lor_shift_add lo hi : 0 <= lo < 2 ^ 16 -> Z.lor lo (Z.shiftl hi 16) = lo + hi * 2 ^ 16.
Proof.
  intros Hlo. rewrite <- Z.lxor_lor.
  - rewrite <- Z.add_nocarry_lxor, Z.shiftl_mul_pow2; [done|lia|].
    rewrite <- (Z.mod_small lo (2 ^ 16)) by lia. rewrite <- Z.land_ones by lia.
    apply Z.bits_inj'. intros n Hn. rewrite !Z.land_spec, Z.bits_0, Z.shiftl_spec by lia.
    destruct (Z.ltb_spec n 16).
    + rewrite (Z.testbit_neg_r hi) by lia. by rewrite andb_false_r.
    + rewrite Z.ones_spec_high by lia. by rewrite andb_false_r.
  - rewrite <- (Z.mod_small lo (2 ^ 16)) by lia. rewrite <- Z.land_ones by lia.
    apply Z.bits_inj'. intros n Hn. rewrite !Z.land_spec, Z.bits_0, Z.shiftl_spec by lia.
    destruct (Z.ltb_spec n 16).
    + rewrite (Z.testbit_neg_r hi) by lia. by rewrite andb_false_r.
    + rewrite Z.ones_spec_high by lia. by rewrite andb_false_r.
Qed.

(** Encoding then decoding a jump distance is the identity on the distances
    the size can hold. *)
Lemma getJumpDistance_at s d pre post i :
  i = vsize pre -> jump_fits s d -> getJumpDistance (pre ++ jump_bytes s d ++ post) i s = Done d.
Proof.
  intros Hi Hd. destruct s; cbn [jump_bytes jump_fits getJumpDistance] in *.
  - unfold getBits_i8. rewrite (getBits_unsigned_at 1) by (done || apply length_le_bytes).
    cbn [obind]. rewrite le_value_bytes. f_equal. change (256 ^ Z.of_nat 1) with (2 ^ 8).
    unfold i8. rewrite Zplus_mod_idemp_l. rewrite (Z.mod_small (d + 2 ^ 7)) by lia.
    replace (d + 2 ^ 7 - 2 ^ 7 + 2 ^ 7) with (d + 2 ^ 7) by lia. rewrite Z.mod_small; lia.
  - unfold getBits_i16. rewrite (getBits_unsigned_at 2) by (done || apply length_le_bytes).
    cbn [obind]. rewrite le_value_bytes. f_equal. change (256 ^ Z.of_nat 2) with (2 ^ 16).
    unfold i16. rewrite Zplus_mod_idemp_l. rewrite (Z.mod_small (d + 2 ^ 15)) by lia.
    replace (d + 2 ^ 15 - 2 ^ 15 + 2 ^ 15) with (d + 2 ^ 15) by lia. rewrite Z.mod_small; lia.
  - unfold getBits_u16. rewrite <- app_assoc. rewrite (getBits_unsigned_at 2) by (done || apply length_le_bytes).
    cbn [obind]. unfold getBits_i8. rewrite (app_assoc pre).
    rewrite (getBits_unsigned_at 1);
      [|rewrite vsize_app, vsize_le_bytes; lia|apply length_le_bytes].
    cbn [obind]. rewrite !le_value_bytes. f_equal.
    change (256 ^ Z.of_nat 2) with (2 ^ 16). change (256 ^ Z.of_nat 1) with (2 ^ 8).
    unfold Int24Min, Int24Max in Hd. rewrite Z.shiftr_div_pow2 by lia.
    unfold u16. rewrite Z.mod_mod by lia. rewrite lor_shift_add by (apply Z.mod_pos_bound; lia).
    assert (- 2 ^ 7 <= d / 2 ^ 16 < 2 ^ 7).
    { split; [apply Z.div_le_lower_bound|apply Z.div_lt_upper_bound]; lia. }
    unfold i8. rewrite Zplus_mod_idemp_l. rewrite (Z.mod_small (d / 2 ^ 16 + 2 ^ 7)) by lia.
    replace (d / 2 ^ 16 + 2 ^ 7 - 2 ^ 7 + 2 ^ 7) with (d / 2 ^ 16 + 2 ^ 7) by lia.
    rewrite (Z.mod_small (d / 2 ^ 16 + 2 ^ 7)) by lia.
    pose proof (Z.div_mod d (2 ^ 16)). lia.
  - unfold getBits_i32. rewrite (getBits_unsigned_at 4) by (done || apply length_le_bytes).
    cbn [obind]. rewrite le_value_bytes. f_equal. change (256 ^ Z.of_nat 4) with (2 ^ 32).
    unfold i32. rewrite Zplus_mod_idemp_l. rewrite Z.mod_small; lia.
Qed.
