(* ===== verification/Rules.v ===== *)
(** * Rules and the serialization of their actions (ContentExtensionRule.h/.cpp,
    ContentExtensionActions.h, ContentExtensionCompiler.cpp)

    The actions of a rule list are written to one vector of bytes; a rule
    refers to its action by the location of its first byte. *)

From stdpp Require Import gmap.
From S2P Require Import Prelude Containers Strings Bytecode.

(** ** Triggers and actions *)

Inductive DomainCondition := DC_None | DC_IfDomain | DC_UnlessDomain.

#[global] Instance DomainCondition_eq_dec : EqDecision DomainCondition.
Proof. solve_decision. Defined.

Record Trigger := mkTrigger {
  t_urlFilter : WTFString;
  t_urlFilterIsCaseSensitive : bool;
  t_flags : Z;
  t_domains : list WTFString;
  t_domainCondition : DomainCondition
}.

Definition newTrigger : Trigger := mkTrigger emptyString false 0 [] DC_None.

(** [Trigger::isEmpty()]. *)
Definition Trigger_isEmpty (t : Trigger) : bool :=
  s_isEmpty (t_urlFilter t) && negb (t_urlFilterIsCaseSensitive t) && (t_flags t =? 0)
  && (match t_domains t with [] => true | _ => false end) && bool_decide (t_domainCondition t = DC_None).

(** [Trigger::operator==]. *)
Definition Trigger_equal (a b : Trigger) : bool :=
  s_equal (t_urlFilter a) (t_urlFilter b)
  && Bool.eqb (t_urlFilterIsCaseSensitive a) (t_urlFilterIsCaseSensitive b)
  && (t_flags a =? t_flags b)
  && bool_decide (map s_chars (t_domains a) = map s_chars (t_domains b))
  && bool_decide (t_domainCondition a = t_domainCondition b).

Inductive ActionType :=
| BlockLoad | BlockCookies | CSSDisplayNoneSelector | CSSDisplayNoneStyleSheet | IgnorePreviousRules | MakeHTTPS | InvalidAction.

#[global] Instance ActionType_eq_dec : EqDecision ActionType.
Proof. solve_decision. Defined.

Definition action_type_code (t : ActionType) : Z :=
  match t with
  | BlockLoad => 0 | BlockCookies => 1 | CSSDisplayNoneSelector => 2 | CSSDisplayNoneStyleSheet => 3
  | IgnorePreviousRules => 4 | MakeHTTPS => 5 | InvalidAction => 6
  end.

(** [static_cast<ActionType>(byte)]; other bytes are in no case of a switch. *)
Definition action_type_of_code (byte : Z) : ActionType :=
  if byte =? 0 then BlockLoad else if byte =? 1 then BlockCookies else if byte =? 2 then CSSDisplayNoneSelector
  else if byte =? 3 then CSSDisplayNoneStyleSheet else if byte =? 4 then IgnorePreviousRules
  else if byte =? 5 then MakeHTTPS else InvalidAction.

Record Action := mkAction {
  m_extensionIdentifier : WTFString;
  m_type : ActionType;
  m_actionID : Z;
  m_stringArgument : WTFString
}.

(** The constructors; the identifier is set later. *)
Definition newAction (type : ActionType) (actionID : Z) : Action := mkAction emptyString type actionID emptyString.
Definition newActionWithString (type : ActionType) (stringArgument : WTFString) (actionID : Z) : Action :=
  mkAction emptyString type actionID stringArgument.

Definition setExtensionIdentifier (a : Action) (identifier : WTFString) : Action :=
  mkAction identifier (m_type a) (m_actionID a) (m_stringArgument a).

Definition Action_equal (a b : Action) : bool :=
  bool_decide (m_type a = m_type b) && s_equal (m_extensionIdentifier a) (m_extensionIdentifier b)
  && (m_actionID a =? m_actionID b) && s_equal (m_stringArgument a) (m_stringArgument b).

Record ContentExtensionRule := mkRule { r_trigger : Trigger; r_action : Action }.

(** ** Reading serialized actions *)

Definition headerLength : Z := 1 + 4 + 1.

(** [String(const UChar*, length)]. *)
Fixpoint wide_chars (bytes : list Z) : list Z :=
  match bytes with
  | b0 :: b1 :: bytes' => (b0 + 256 * b1) :: wide_chars bytes'
  | _ => []
  end.

Definition deserialize (actions : list Z) (location : Z) : outcome Action :=
  let actionsLength := vsize actions in
  let* _ := release_assert (location <? actionsLength) in
  let* type := vget actions location in
  match action_type_of_code type with
  | BlockCookies => Done (newAction BlockCookies location)
  | BlockLoad => Done (newAction BlockLoad location)
  | IgnorePreviousRules => Done (newAction IgnorePreviousRules location)
  | MakeHTTPS => Done (newAction MakeHTTPS location)
  | CSSDisplayNoneSelector =>
      let stringStartIndex := u32 (location + headerLength) in
      let* _ := release_assert (stringStartIndex <=? actionsLength) in
      let* selectorLength := getBits_u32 actions (location + 1) in
      let* wide := vget actions (location + 1 + 4) in
      if negb (wide =? 0) then
        let* _ := release_assert (stringStartIndex + selectorLength * 2 <=? actionsLength) in
        let* bytes := vslice actions stringStartIndex (stringStartIndex + selectorLength * 2) in
        Done (newActionWithString CSSDisplayNoneSelector (mkString false (wide_chars bytes)) location)
      else
        let* _ := release_assert (stringStartIndex + selectorLength * 1 <=? actionsLength) in
        let* bytes := vslice actions stringStartIndex (stringStartIndex + selectorLength) in
        Done (newActionWithString CSSDisplayNoneSelector (mkString true bytes) location)
  | CSSDisplayNoneStyleSheet | InvalidAction => Crash
  end.

Definition deserializeType (actions : list Z) (location : Z) : outcome ActionType :=
  let* _ := release_assert (location <? vsize actions) in
  let* type := vget actions location in
  match action_type_of_code type with
  | CSSDisplayNoneStyleSheet | InvalidAction => Crash
  | t => Done t
  end.

Definition serializedLength (actions : list Z) (location : Z) : outcome Z :=
  let actionsLength := vsize actions in
  let* _ := release_assert (location <? actionsLength) in
  let* type := vget actions location in
  match action_type_of_code type with
  | BlockCookies | BlockLoad | IgnorePreviousRules | MakeHTTPS => Done 1
  | CSSDisplayNoneSelector =>
      let stringStartIndex := u32 (location + headerLength) in
      let* _ := release_assert (stringStartIndex <=? actionsLength) in
      let* selectorLength := getBits_u32 actions (location + 1) in
      let* wide := vget actions (location + 1 + 4) in
      Done (u32 (headerLength + selectorLength * (if negb (wide =? 0) then 2 else 1)))
  | CSSDisplayNoneStyleSheet | InvalidAction => Crash
  end.

(** ** Writing actions *)

(** The bytes [serializeSelector] appends. *)
Definition serializeSelector (actions : list Z) (selector : WTFString) : list Z :=
  actions ++ [action_type_code CSSDisplayNoneSelector] ++ le_bytes 4 (s_length selector)
          ++ [if s_is8Bit selector then 0 else 1]
          ++ (if s_is8Bit selector then s_chars selector else concat (map (le_bytes 2) (s_chars selector))).

Record PendingDisplayNoneActions := mkPending { p_selectors : list WTFString; p_clientLocations : list Z }.

(** The variables of [serializeActions]. *)
Record serialize_state := mkSerialize {
  z_actions : list Z;
  z_actionLocations : list Z;
  z_blockLoad : gmap Z Z;
  z_blockCookies : gmap Z Z;
  z_cssDisplayNone : list (Trigger * PendingDisplayNoneActions);
  z_ignorePreviousRules : gmap Z Z;
  z_makeHTTPS : gmap Z Z
}.

Definition newSerialize : serialize_state := mkSerialize [] [] ∅ ∅ [] ∅ ∅.

Section Serialize.
Context `{HashOrder}.

(** The combined selectors: separated by commas. *)
Fixpoint combine_from (builder : WTFString) (selectors : list WTFString) : WTFString :=
  match selectors with
  | [] => builder
  | s :: selectors' => combine_from (sb_append (sb_appendChar builder 44) s) selectors'
  end.

Definition combinedSelectors (selectors : list WTFString) : WTFString :=
  match selectors with
  | [] => emptyString
  | s :: selectors' => combine_from (sb_append emptyString s) selectors'
  end.

Definition resolve_slot (state : list Z * list Z) (slot : Trigger * PendingDisplayNoneActions) : outcome (list Z * list Z) :=
  let (actions, actionLocations) := state in
  let actionLocation := vsize actions in
  let* actionLocations' := ofold (fun v clientLocation => vset v clientLocation actionLocation) actionLocations (p_clientLocations (snd slot)) in
  Done (serializeSelector actions (combinedSelectors (p_selectors (snd slot))), actionLocations').

Definition resolvePendingDisplayNoneActions (s : serialize_state) : outcome serialize_state :=
  let* (actions, actionLocations) := ofold resolve_slot (z_actions s, z_actionLocations s) (z_cssDisplayNone s) in
  Done (mkSerialize actions actionLocations (z_blockLoad s) (z_blockCookies s) [] (z_ignorePreviousRules s) (z_makeHTTPS s)).

(** [findOrMakeActionLocation(map)]: the bytes, the map and the location. *)
Definition findOrMakeActionLocation (actions : list Z) (actionType : ActionType) (flags : Z) (map : gmap Z Z) : list Z * gmap Z Z * Z :=
  match map !! flags with
  | None => (actions ++ [action_type_code actionType], <[flags := vsize actions]> map, vsize actions)
  | Some location => (actions, map, location)
  end.

(** [cssDisplayNoneActionsMap.add(trigger, ...)] followed by the two appends. *)
Fixpoint add_to_slot (slots : list (Trigger * PendingDisplayNoneActions)) (trigger : Trigger) (selector : WTFString) (client : Z)
    : option (list (Trigger * PendingDisplayNoneActions)) :=
  match slots with
  | [] => None
  | (t, p) :: slots' =>
      if Trigger_equal t trigger then Some ((t, mkPending (p_selectors p ++ [selector]) (p_clientLocations p ++ [client])) :: slots')
      else match add_to_slot slots' trigger selector client with Some s => Some ((t, p) :: s) | None => None end
  end.

Definition add_pending (slots : list (Trigger * PendingDisplayNoneActions)) (trigger : Trigger) (selector : WTFString) (client : Z)
    : list (Trigger * PendingDisplayNoneActions) :=
  match add_to_slot slots trigger selector client with
  | Some s => s
  | None => hash_place (trigger, mkPending [selector] [client]) slots
  end.

(** The maps cleared before a rule is looked at. *)
Definition start_rule (s : serialize_state) (actionType : ActionType) : outcome serialize_state :=
  if bool_decide (actionType = IgnorePreviousRules) then
    let* s' := resolvePendingDisplayNoneActions s in
    Done (mkSerialize (z_actions s') (z_actionLocations s') ∅ ∅ [] (z_ignorePreviousRules s') ∅)
  else Done (mkSerialize (z_actions s) (z_actionLocations s) (z_blockLoad s) (z_blockCookies s) (z_cssDisplayNone s) ∅ (z_makeHTTPS s)).

(** One rule of the loop. *)
Definition serialize_rule (s0 : serialize_state) (rule : ContentExtensionRule) : outcome serialize_state :=
  let actionType := m_type (r_action rule) in
  let* s := start_rule s0 actionType in
  let trigger := r_trigger rule in
  let locations l := z_actionLocations s ++ [l] in
  match t_domains trigger with
  | _ :: _ =>
      let actions := if bool_decide (actionType = CSSDisplayNoneSelector)
                     then serializeSelector (z_actions s) (m_stringArgument (r_action rule))
                     else z_actions s ++ [action_type_code actionType] in
      Done (mkSerialize actions (locations (vsize (z_actions s))) (z_blockLoad s) (z_blockCookies s) (z_cssDisplayNone s) (z_ignorePreviousRules s) (z_makeHTTPS s))
  | [] =>
      let flags := t_flags trigger in
      match actionType with
      | CSSDisplayNoneStyleSheet | InvalidAction => Crash
      | CSSDisplayNoneSelector =>
          let slots := add_pending (z_cssDisplayNone s) trigger (m_stringArgument (r_action rule)) (vsize (z_actionLocations s)) in
          Done (mkSerialize (z_actions s) (locations UINT32_MAX) (z_blockLoad s) (z_blockCookies s) slots (z_ignorePreviousRules s) (z_makeHTTPS s))
      | IgnorePreviousRules =>
          let '(actions, map, l) := findOrMakeActionLocation (z_actions s) actionType flags (z_ignorePreviousRules s) in
          Done (mkSerialize actions (locations l) (z_blockLoad s) (z_blockCookies s) (z_cssDisplayNone s) map (z_makeHTTPS s))
      | BlockLoad =>
          let '(actions, map, l) := findOrMakeActionLocation (z_actions s) actionType flags (z_blockLoad s) in
          Done (mkSerialize actions (locations l) map (z_blockCookies s) (z_cssDisplayNone s) (z_ignorePreviousRules s) (z_makeHTTPS s))
      | BlockCookies =>
          let '(actions, map, l) := findOrMakeActionLocation (z_actions s) actionType flags (z_blockCookies s) in
          Done (mkSerialize actions (locations l) (z_blockLoad s) map (z_cssDisplayNone s) (z_ignorePreviousRules s) (z_makeHTTPS s))
      | MakeHTTPS =>
          let '(actions, map, l) := findOrMakeActionLocation (z_actions s) actionType flags (z_makeHTTPS s) in
          Done (mkSerialize actions (locations l) (z_blockLoad s) (z_blockCookies s) (z_cssDisplayNone s) (z_ignorePreviousRules s) map)
      end
  end.

(** [serializeActions(ruleList, actions)]: the bytes and the location of each
    rule's action. *)
Definition serializeActions (ruleList : list ContentExtensionRule) : outcome (list Z * list Z) :=
  let* s := ofold serialize_rule newSerialize ruleList in
  let* s' := resolvePendingDisplayNoneActions s in
  Done (z_actions s', z_actionLocations s').
End Serialize.

(** ** Serialized actions can be read back, in an order that respects the rules

    The bytes are a sequence of encoded actions.  Equal actions share one
    encoding and selectors are written late, but never across a rule that
    ignores the previous ones. *)

(** ** Triggers *)

Definition trigger_key (t : Trigger) := (s_chars (t_urlFilter t), t_urlFilterIsCaseSensitive t, t_flags t, map s_chars (t_domains t), t_domainCondition t).

Lemma Trigger_equal_spec a b : Trigger_equal a b = true <-> trigger_key a = trigger_key b.
Proof.
  unfold Trigger_equal, trigger_key, s_equal. rewrite !andb_true_iff, !bool_decide_eq_true, Z.eqb_eq, Bool.eqb_true_iff. split; [intros ((((-> & ->) & ->) & ->) & ->); done|].
  intros [=]. done.
Qed.

(** ** Encoded actions *)

Definition encode (t : ActionType) (selector : WTFString) : list Z :=
  if bool_decide (t = CSSDisplayNoneSelector) then serializeSelector [] selector else [action_type_code t].

Definition action_at (bytes : list Z) (location : Z) (t : ActionType) (selector : WTFString) : Prop :=
  exists pre post, bytes = pre ++ encode t selector ++ post /\ location = vsize pre.

Definition serializable (t : ActionType) : bool := match t with CSSDisplayNoneStyleSheet | InvalidAction => false | _ => true end.

Lemma serializeSelector_app bytes s : serializeSelector bytes s = bytes ++ encode CSSDisplayNoneSelector s.
Proof. unfold encode. rewrite bool_decide_true by done. done. Qed.

Lemma encode_length t s : 0 < vsize (encode t s).
Proof. unfold encode. case_bool_decide; unfold serializeSelector; [rewrite app_nil_l, vsize_app|]; [|done]. pose proof (vsize_nonneg (le_bytes 4 (s_length s) ++ [if s_is8Bit s then 0 else 1] ++ (if s_is8Bit s then s_chars s else concat (map (le_bytes 2) (s_chars s))))). change (vsize [action_type_code CSSDisplayNoneSelector]) with 1. lia. Qed.

Lemma action_at_bound bytes l t s : action_at bytes l t s -> 0 <= l < vsize bytes.
Proof. intros (pre & post & -> & ->). rewrite !vsize_app. pose proof (vsize_nonneg pre). pose proof (vsize_nonneg post). pose proof (encode_length t s). lia. Qed.

Lemma action_at_app bytes l t s more : action_at bytes l t s -> action_at (bytes ++ more) l t s.
Proof. intros (pre & post & -> & ->). exists pre, (post ++ more). by rewrite <- !app_assoc. Qed.

Lemma action_at_end bytes t s : action_at (bytes ++ encode t s) (vsize bytes) t s.
Proof. exists bytes, []. by rewrite app_nil_r. Qed.

(** The selector is read only from selector actions. *)
Lemma action_at_other bytes l t s s' : t <> CSSDisplayNoneSelector -> action_at bytes l t s -> action_at bytes l t s'.
Proof. intros Ht. unfold action_at, encode. by rewrite !bool_decide_false. Qed.

(** ** Reading back *)

Lemma action_type_of_code_code t : action_type_of_code (action_type_code t) = t.
Proof. by destruct t. Qed.

Lemma wide_chars_bytes l : Forall (fun c => 0 <= c < 65536) l -> wide_chars (concat (map (le_bytes 2) l)) = l.
Proof.
  induction 1 as [|c l Hc Hl IH]; [done|]. change (wide_chars (concat (map (le_bytes 2) (c :: l)))) with ((c mod 256 + 256 * ((c / 256) mod 256)) :: wide_chars (concat (map (le_bytes 2) l))). rewrite IH. f_equal. pose proof (Z.div_mod c 256). rewrite (Z.mod_small (c / 256)); [lia|].
  split; [apply Z.div_pos; lia|apply Z.div_lt_upper_bound; lia].
Qed.

Lemma length_wide l : vsize (concat (map (le_bytes 2) l)) = 2 * vsize l.
Proof. induction l as [|c l IH]; [done|]. cbn [map concat]. rewrite vsize_app, vsize_le_bytes, IH, vsize_cons. lia. Qed.

Lemma vget_mid {A} (pre : list A) x post i : i = vsize pre -> vget (pre ++ x :: post) i = Done x.
Proof. intros ->. apply vget_Done. unfold vsize. rewrite Nat2Z.id. split; [lia|]. by apply list_lookup_middle. Qed.

Lemma vslice_mid {A} (pre l post : list A) b e : b = vsize pre -> e = b + vsize l -> vslice (pre ++ l ++ post) b e = Done l.
Proof. intros -> ->. rewrite app_assoc. erewrite vslice_mono; [reflexivity|]. apply vslice_app; unfold vsize; lia. Qed.

Section Read.
Variables (pre post : list Z) (s : WTFString).
Let body := if s_is8Bit s then s_chars s else concat (map (le_bytes 2) (s_chars s)).
Let bytes := pre ++ encode CSSDisplayNoneSelector s ++ post.

Lemma selector_bytes : bytes = pre ++ action_type_code CSSDisplayNoneSelector :: le_bytes 4 (s_length s) ++ (if s_is8Bit s then 0 else 1) :: body ++ post.
Proof. unfold bytes, encode. rewrite bool_decide_true by done. unfold serializeSelector. rewrite app_nil_l, <- !app_assoc. done. Qed.

Lemma selector_size : vsize bytes = vsize pre + headerLength + vsize body + vsize post.
Proof. rewrite selector_bytes. rewrite !vsize_app, vsize_cons, !vsize_app, vsize_cons, vsize_app, vsize_le_bytes. unfold headerLength. lia. Qed.

Lemma selector_length : vsize bytes < 2 ^ 32 -> getBits_u32 bytes (vsize pre + 1) = Done (s_length s).
Proof.
  intros Hb. rewrite selector_bytes. set (t := action_type_code _). set (len := le_bytes 4 _).
  replace (pre ++ t :: len ++ _) with ((pre ++ [t]) ++ len ++ (if s_is8Bit s then 0 else 1) :: body ++ post) by (by rewrite <- !app_assoc).
  unfold getBits_u32. rewrite getBits_unsigned_at; [|by rewrite vsize_app|apply length_le_bytes]. unfold len.
  rewrite le_value_bytes. f_equal. apply Z.mod_small. unfold s_length. pose proof selector_size as Hs. unfold body, headerLength in Hs. pose proof (vsize_nonneg pre). pose proof (vsize_nonneg post).
  pose proof (vsize_nonneg (s_chars s)). change (256 ^ Z.of_nat 4) with (2 ^ 32). destruct (s_is8Bit s); rewrite ?length_wide in Hs; lia.
Qed.

Lemma selector_width : vget bytes (vsize pre + 1 + 4) = Done (if s_is8Bit s then 0 else 1).
Proof.
  rewrite selector_bytes. set (t := action_type_code _). set (len := le_bytes 4 _).
  replace (pre ++ t :: len ++ _) with ((pre ++ [t] ++ len) ++ (if s_is8Bit s then 0 else 1) :: body ++ post) by (by rewrite <- !app_assoc).
  apply vget_mid. unfold len. rewrite !vsize_app, vsize_le_bytes. change (vsize [t]) with 1. lia.
Qed.

Lemma selector_body : vslice bytes (vsize pre + headerLength) (vsize pre + headerLength + vsize body) = Done body.
Proof.
  rewrite selector_bytes. set (t := action_type_code _). set (len := le_bytes 4 _). set (w := if s_is8Bit s then 0 else 1).
  replace (pre ++ t :: len ++ w :: body ++ post) with ((pre ++ [t] ++ len ++ [w]) ++ body ++ post) by (by rewrite <- !app_assoc).
  apply vslice_mid; [|lia]. unfold len. rewrite !vsize_app, vsize_le_bytes. unfold headerLength. change (vsize [t]) with 1. change (vsize [w]) with 1. lia.
Qed.
End Read.

(** What is written is read back. *)
Lemma deserialize_at bytes l t s : action_at bytes l t s -> serializable t = true -> vsize bytes < 2 ^ 32 -> width_ok s ->
  deserialize bytes l = Done (if bool_decide (t = CSSDisplayNoneSelector) then newActionWithString t s l else newAction t l).
Proof.
  intros Hat Ht Hb Hs. pose proof (action_at_bound _ _ _ _ Hat) as Hl. destruct Hat as (pre & post & -> & ->). unfold deserialize.
  destruct (Z.ltb_spec (vsize pre) (vsize (pre ++ encode t s ++ post))); [|lia]. cbn [release_assert obind].
  assert (Htype : vget (pre ++ encode t s ++ post) (vsize pre) = Done (action_type_code t)).
  { unfold encode. case_bool_decide as E; [subst t|]; by apply vget_mid. }
  rewrite Htype. cbn [obind]. rewrite action_type_of_code_code. destruct t; try done. rewrite bool_decide_true by done.
  pose proof (selector_size pre post s) as Hsz. pose proof (vsize_nonneg pre). pose proof (vsize_nonneg post). rewrite u32_small.
  2:{ unfold headerLength in *. pose proof (vsize_nonneg (if s_is8Bit s then s_chars s else concat (map (le_bytes 2) (s_chars s)))). lia. }
  rewrite selector_length, selector_width by done. pose proof (selector_body pre post s) as Hbody.
  destruct (Z.leb_spec (vsize pre + headerLength) (vsize (pre ++ encode CSSDisplayNoneSelector s ++ post))) as [_|Hbad].
  2:{ pose proof (vsize_nonneg (if s_is8Bit s then s_chars s else concat (map (le_bytes 2) (s_chars s)))). lia. }
  cbn [release_assert obind]. destruct s as [[|] chars]; cbn [s_is8Bit s_chars negb Z.eqb] in *; unfold s_length; cbn [s_chars].
  - rewrite Hsz, Z.mul_1_r. destruct (Z.leb_spec (vsize pre + headerLength + vsize chars) (vsize pre + headerLength + vsize chars + vsize post)); [|lia].
    cbn [release_assert obind]. by rewrite Hbody.
  - rewrite length_wide in Hsz, Hbody. rewrite Hsz. replace (vsize chars * 2) with (2 * vsize chars) by lia.
    destruct (Z.leb_spec (vsize pre + headerLength + 2 * vsize chars) (vsize pre + headerLength + 2 * vsize chars + vsize post)); [|lia].
    cbn [release_assert obind]. rewrite Hbody. cbn [obind]. by rewrite wide_chars_bytes.
Qed.
