(* ===== verification/RulesSerialize.v ===== *)
(** * The serialization of a rule list

    The invariant of the loop over the rules, and what it gives at the end:
    every rule's location reads back its action, and locations compare like
    the rules wherever a rule ignores the previous ones. *)

From stdpp Require Import gmap strings.
From S2P Require Import Prelude Containers Strings Bytecode Rules.

Abbreviation rule_type r := (m_type (r_action r)).
Abbreviation rule_arg r := (m_stringArgument (r_action r)).

(** ** Combined selectors *)

Definition comma_list (l : list WTFString) : list Z :=
  match l with [] => [] | s :: l' => s_chars s ++ concat (map (fun s => 44 :: s_chars s) l') end.

Lemma combine_from_spec l : forall b, Forall width_ok l -> width_ok b ->
  s_chars (combine_from b l) = s_chars b ++ concat (map (fun s => 44 :: s_chars s) l) /\ width_ok (combine_from b l).
Proof.
  induction l as [|s l IH]; intros b Hl Hb; [by rewrite app_nil_r|]. apply Forall_cons in Hl as [Hs Hl]. cbn [combine_from map concat].
  destruct (IH (sb_append (sb_appendChar b 44) s) Hl) as [-> ?]; [apply sb_append_width; [apply sb_appendChar_width; [lia|done]|done]|].
  split; [|done]. rewrite sb_append_chars. cbn [sb_appendChar s_chars]. by rewrite <- !app_assoc.
Qed.

Lemma emptyString_width : width_ok emptyString.
Proof. constructor. Qed.

Lemma combinedSelectors_spec l : Forall width_ok l -> s_chars (combinedSelectors l) = comma_list l /\ width_ok (combinedSelectors l).
Proof.
  intros Hl. destruct l as [|s l]; [split; [done|apply emptyString_width]|]. apply Forall_cons in Hl as [Hs Hl]. cbn [combinedSelectors comma_list].
  destruct (combine_from_spec l (sb_append emptyString s) Hl) as [-> ?]; [by apply sb_append_width; [apply emptyString_width|]|]. by rewrite sb_append_chars.
Qed.

(** ** Locations *)

(** The selectors written for [r]: those of rules with the same trigger. *)
Definition combines (rules : list ContentExtensionRule) (r : ContentExtensionRule) (selector : WTFString) : Prop :=
  exists selectors, s_chars selector = comma_list selectors /\ rule_arg r ∈ selectors /\
    Forall (fun s => exists r', r' ∈ rules /\ rule_type r' = CSSDisplayNoneSelector /\ rule_arg r' = s /\
                                trigger_key (r_trigger r') = trigger_key (r_trigger r)) selectors.

Definition located (rules : list ContentExtensionRule) (bytes : list Z) (r : ContentExtensionRule) (l : Z) : Prop :=
  exists selector, action_at bytes l (rule_type r) selector /\ width_ok selector /\
    (rule_type r = CSSDisplayNoneSelector -> combines rules r selector).

Lemma located_mono rules bytes r l more rules' : located rules bytes r l -> located (rules ++ rules') (bytes ++ more) r l.
Proof.
  intros (sel & Hat & Hw & Hc). exists sel. split_and!; [by apply action_at_app|done|]. intros Ht. destruct (Hc Ht) as (sels & E & Hin & Hall). exists sels. split_and!; [done|done|].
  eapply Forall_impl; [done|]. intros s (r' & Hr' & ?). exists r'. split; [|done]. apply elem_of_app. by left.
Qed.

Lemma located_bytes rules bytes r l more : located rules bytes r l -> located rules (bytes ++ more) r l.
Proof. intros Hl. rewrite <- (app_nil_r rules). by apply located_mono. Qed.

Lemma located_bound rules bytes r l : located rules bytes r l -> 0 <= l < vsize bytes.
Proof. intros (sel & Hat & _). by eapply action_at_bound. Qed.

(** A rule whose action is written on its own. *)
Lemma located_alone rules r bytes l : r ∈ rules -> width_ok (rule_arg r) -> action_at bytes l (rule_type r) (rule_arg r) -> located rules bytes r l.
Proof.
  intros Hr Hw Hat. exists (rule_arg r). split_and!; [done|done|]. intros Ht. exists [rule_arg r]. split_and!.
  - cbn [comma_list map concat]. by rewrite app_nil_r.
  - left.
  - constructor; [|constructor]. by exists r.
Qed.

(** A location without a selector of its own. *)
Lemma located_plain rules r bytes l s : rule_type r <> CSSDisplayNoneSelector -> action_at bytes l (rule_type r) s -> located rules bytes r l.
Proof. intros Ht Hat. exists emptyString. split_and!; [by eapply action_at_other|apply emptyString_width|done]. Qed.

(** The bytes are a sequence of encoded actions. *)
Definition encoded (bytes : list Z) : Prop :=
  exists items, Forall (fun '(t, s) => serializable t = true /\ width_ok s) items /\ bytes = concat (map (fun '(t, s) => encode t s) items).

Lemma encoded_app bytes t s : encoded bytes -> serializable t = true -> width_ok s -> encoded (bytes ++ encode t s).
Proof.
  intros (items & Hi & ->) Ht Hs. exists (items ++ [(t, s)]). split; [apply Forall_app; split; [done|by repeat constructor]|].
  rewrite map_app, concat_app. cbn [map concat]. by rewrite app_nil_r.
Qed.

Lemma encode_plain t s : t <> CSSDisplayNoneSelector -> encode t s = [action_type_code t].
Proof. intros Ht. unfold encode. by rewrite bool_decide_false. Qed.

Definition pending (s : serialize_state) (i : Z) : Prop := exists t p, (t, p) ∈ z_cssDisplayNone s /\ i ∈ p_clientLocations p.

Definition slot_ok (rules : list ContentExtensionRule) (t : Trigger) (p : PendingDisplayNoneActions) : Prop :=
  Forall2 (fun sel c => exists r, vget rules c = Done r /\ rule_type r = CSSDisplayNoneSelector /\ rule_arg r = sel /\ width_ok sel /\
                                  trigger_key t = trigger_key (r_trigger r)) (p_selectors p) (p_clientLocations p).

Definition rule_at (rules : list ContentExtensionRule) (s : serialize_state) (i : Z) (r : ContentExtensionRule) (l : Z) : Prop :=
  vget rules i = Done r /\ vget (z_actionLocations s) i = Done l /\ ~ pending s i.

Definition plain_maps (s : serialize_state) : list (gmap Z Z * ActionType) :=
  [(z_blockLoad s, BlockLoad); (z_blockCookies s, BlockCookies); (z_makeHTTPS s, MakeHTTPS)].

(** The locations of a map come after those of all rules that [P] holds of. *)
Definition map_ok (rules : list ContentExtensionRule) (s : serialize_state) (m : gmap Z Z) (t : ActionType) (P : ContentExtensionRule -> Prop) : Prop :=
  forall f l, m !! f = Some l -> action_at (z_actions s) l t emptyString /\ forall j r lj, rule_at rules s j r lj -> P r -> lj < l.

Abbreviation is_ignore r := (rule_type r = IgnorePreviousRules).

Record serialize_inv (rules : list ContentExtensionRule) (s : serialize_state) : Prop := {
  si_encoded : encoded (z_actions s);
  si_size : vsize (z_actionLocations s) = vsize rules;
  si_located : forall i r l, rule_at rules s i r l -> located rules (z_actions s) r l;
  si_order : forall i j ri rj li lj, rule_at rules s i ri li -> rule_at rules s j rj lj -> is_ignore rj -> ~ is_ignore ri -> li < lj <-> i < j;
  si_slots : forall t p, (t, p) ∈ z_cssDisplayNone s -> slot_ok rules t p;
  si_pending : forall i j rj, pending s i -> vget rules j = Done rj -> is_ignore rj -> j < i;
  si_maps : forall m t, (m, t) ∈ plain_maps s -> map_ok rules s m t (fun r => is_ignore r);
  si_ignore : map_ok rules s (z_ignorePreviousRules s) IgnorePreviousRules (fun r => ~ is_ignore r);
  si_apart : z_ignorePreviousRules s = ∅ \/ z_cssDisplayNone s = []
}.

(** A pending client is a selector rule. *)
Lemma slot_client rules t p c : slot_ok rules t p -> c ∈ p_clientLocations p ->
  exists r, vget rules c = Done r /\ rule_type r = CSSDisplayNoneSelector /\ rule_arg r ∈ p_selectors p /\ trigger_key t = trigger_key (r_trigger r).
Proof.
  intros Hs [n Hn]%list_elem_of_lookup. destruct (Forall2_lookup_r _ _ _ _ _ Hs Hn) as (sel & Hsel & r & Hr & Ht & <- & _ & Hk).
  exists r. split_and!; try done. by eapply list_elem_of_lookup_2.
Qed.

(** ** Writing the pending selectors *)

Lemma vset_all (locs : list Z) (clients : list Z) l : Forall (fun c => 0 <= c < vsize locs) clients ->
  exists locs', ofold (fun v c => vset v c l) locs clients = Done locs' /\ vsize locs' = vsize locs /\
    forall i x, vget locs' i = Done x -> (vget locs i = Done x /\ i ∉ clients) \/ (i ∈ clients /\ x = l).
Proof.
  revert locs. induction clients as [|c clients IH]; intros locs Hc; [exists locs; split_and!; try done; intros i x Hx; left; split; [done|apply not_elem_of_nil]|].
  apply Forall_cons in Hc as [Hc Hcs]. cbn [ofold]. rewrite vset_Done by done. cbn [obind].
  destruct (IH (<[Z.to_nat c := l]> locs)) as (locs' & E & Hsz & Hget); [by rewrite vsize_insert|]. exists locs'. split; [done|]. rewrite vsize_insert in Hsz. split; [done|].
  intros i x Hx. destruct (Hget i x Hx) as [[Hi Hn]|[Hi ->]]; [|right; split; [by right|done]]. destruct (Z.eq_dec i c) as [->|Hne].
  - right. split; [left|]. apply vget_Done in Hi as [_ Hi]. rewrite list_lookup_insert_eq in Hi by (unfold vsize in Hc; lia). by injection Hi.
  - left. split; [|by apply not_elem_of_cons]. apply vget_Done in Hi as [Hi0 Hi]. rewrite list_lookup_insert_ne in Hi by lia. by apply vget_Done.
Qed.

Lemma slot_width rules t p : slot_ok rules t p -> width_ok (combinedSelectors (p_selectors p)).
Proof.
  intros Hs. apply combinedSelectors_spec, Forall_lookup. intros n s Hn. by destruct (Forall2_lookup_l _ _ _ _ _ Hs Hn) as (c' & _ & r' & _ & _ & _ & Hw & _).
Qed.

Lemma slot_selectors rules t p c r : slot_ok rules t p -> c ∈ p_clientLocations p -> vget rules c = Done r ->
  combines rules r (combinedSelectors (p_selectors p)) /\ width_ok (combinedSelectors (p_selectors p)).
Proof.
  intros Hs Hc Hr. destruct (slot_client _ _ _ _ Hs Hc) as (r' & Hr' & Ht & Harg & Hk). rewrite Hr in Hr'. injection Hr' as <-.
  assert (Hall : Forall (fun s => width_ok s /\ exists r', r' ∈ rules /\ rule_type r' = CSSDisplayNoneSelector /\ rule_arg r' = s /\ trigger_key (r_trigger r') = trigger_key (r_trigger r)) (p_selectors p)).
  { apply Forall_lookup. intros n s Hn. destruct (Forall2_lookup_l _ _ _ _ _ Hs Hn) as (c' & _ & r' & Hr' & Ht' & <- & Hw & Hk'). split; [done|].
    exists r'. split_and!; try done; [|congruence]. apply vget_Done in Hr' as [_ Hr']. by eapply list_elem_of_lookup_2. }
  destruct (combinedSelectors_spec (p_selectors p)) as [E Hw]; [by eapply Forall_impl; [exact Hall|]; intros ? [? ?]|]. split; [|done].
  exists (p_selectors p). split_and!; [done|done|]. by eapply Forall_impl; [exact Hall|]; intros ? [? ?].
Qed.

Lemma resolve_slots rules slots : forall bytes locs, (forall t p, (t, p) ∈ slots -> slot_ok rules t p) -> vsize locs = vsize rules -> encoded bytes ->
  exists more locs', ofold resolve_slot (bytes, locs) slots = Done (bytes ++ more, locs') /\ vsize locs' = vsize locs /\ encoded (bytes ++ more) /\
    forall i l, vget locs' i = Done l ->
      (vget locs i = Done l /\ forall t p, (t, p) ∈ slots -> i ∉ p_clientLocations p) \/
      (exists r t p, vget rules i = Done r /\ (t, p) ∈ slots /\ i ∈ p_clientLocations p /\ located rules (bytes ++ more) r l /\ vsize bytes <= l).
Proof.
  induction slots as [|[t p] slots IH]; intros bytes locs Hs Hsz Henc.
  { exists [], locs. rewrite app_nil_r. split_and!; try done. intros i l Hi. left. split; [done|]. by intros ? ? ?%elem_of_nil. }
  assert (Hp : slot_ok rules t p) by (apply Hs; left). cbn [ofold resolve_slot snd].
  destruct (vset_all locs (p_clientLocations p) (vsize bytes)) as (locs1 & E1 & Hsz1 & Hget1).
  { apply Forall_forall. intros c Hc. destruct (slot_client _ _ _ _ Hp Hc) as (r & Hr & _). apply vget_Done in Hr as [Hr0 Hr]. apply lookup_lt_Some in Hr. unfold vsize in *. lia. }
  rewrite E1. cbn [obind]. rewrite serializeSelector_app.
  destruct (IH (bytes ++ encode CSSDisplayNoneSelector (combinedSelectors (p_selectors p))) locs1) as (more & locs' & E & Hsz' & Henc' & Hget);
    [intros; apply Hs; by right|lia|apply encoded_app; [done|done|by apply (slot_width rules t)]|].
  rewrite E. rewrite <- app_assoc in Henc' |- *. eexists _, locs'. split; [done|]. split; [lia|]. split; [done|]. intros i l Hi. destruct (Hget i l Hi) as [[Hi1 Hn]|(r & t' & p' & Hr & Hp' & Hc' & Hl & Hle)].
  - destruct (Hget1 i l Hi1) as [[Hi0 Hn0]|[Hc ->]].
    + left. split; [done|]. intros t' p' [[= -> ->]|Hin]%elem_of_cons; [done|by eapply Hn].
    + right. destruct (slot_client _ _ _ _ Hp Hc) as (r & Hr & Ht & _). exists r, t, p. split_and!; [done|left|done| |done].
      destruct (slot_selectors _ _ _ _ _ Hp Hc Hr) as [Hcomb Hw]. exists (combinedSelectors (p_selectors p)). split_and!; [|done|done].
      rewrite Ht, app_assoc. apply action_at_app, action_at_end.
  - right. exists r, t', p'. split_and!; [done|by right|done|by rewrite app_assoc|]. rewrite vsize_app in Hle. pose proof (vsize_nonneg (encode CSSDisplayNoneSelector (combinedSelectors (p_selectors p)))). lia.
Qed.

Lemma resolvePending_spec rules s : serialize_inv rules s ->
  exists s', resolvePendingDisplayNoneActions s = Done s' /\ serialize_inv rules s' /\ z_cssDisplayNone s' = [].
Proof.
  intros [S0 S1 S2 S3 S4 S5 S6 S7 S8]. unfold resolvePendingDisplayNoneActions.
  destruct (resolve_slots rules (z_cssDisplayNone s) (z_actions s) (z_actionLocations s) S4 S1 S0) as (more & locs & E & Hsz & Henc & Hget). rewrite E. cbn [obind]. eexists. split; [done|]. split; [|done].
  assert (Hat : forall i r l, vget rules i = Done r -> vget locs i = Done l ->
    rule_at rules s i r l \/ (pending s i /\ located rules (z_actions s ++ more) r l /\ vsize (z_actions s) <= l)).
  { intros i r l Hr Hl. destruct (Hget i l Hl) as [[Hl0 Hn]|(r' & t & p & Hr' & Hp & Hi & Hloc & Hle)].
    - left. split_and!; [done|done|]. intros (t & p & Hp & Hi). by apply (Hn t p).
    - rewrite Hr in Hr'. injection Hr' as <-. right. split_and!; try done. by exists t, p. }
  assert (Hold : forall i r l, rule_at rules s i r l -> l < vsize (z_actions s)) by (intros i r l Hi; apply S2, located_bound in Hi; lia).
  assert (Hnp : forall i r, vget rules i = Done r -> is_ignore r -> ~ pending s i).
  { intros i r Hr Hi (t & p & Hp & Hc). destruct (slot_client _ _ _ _ (S4 t p Hp) Hc) as (r' & Hr' & Ht & _). rewrite Hr in Hr'. injection Hr' as <-. congruence. }
  constructor; cbn [z_actions z_actionLocations z_cssDisplayNone z_ignorePreviousRules].
  - done.
  - lia.
  - intros i r l (Hr & Hl & _). destruct (Hat i r l Hr Hl) as [Hi|(_ & ? & _)]; [|done]. by apply located_bytes, S2 with i.
  - intros i j ri rj li lj (Hri & Hli & _) (Hrj & Hlj & _) Hj Hi. destruct (Hat j rj lj Hrj Hlj) as [Hj'|(? & _)]; [|by destruct (Hnp j rj)].
    destruct (Hat i ri li Hri Hli) as [Hi'|(Hp & _ & Hle)]; [by apply (S3 i j ri rj)|].
    pose proof (Hold _ _ _ Hj'). pose proof (S5 i j rj Hp Hrj Hj). lia.
  - by intros ? ? ?%elem_of_nil.
  - by intros i j rj (t & p & ?%elem_of_nil & _).
  - intros m t Hm f l Hl. destruct (S6 m t Hm f l Hl) as [Ha Hlt]. split; [by apply action_at_app|]. intros j r lj (Hr & Hlj & _) Hj.
    destruct (Hat j r lj Hr Hlj) as [Hj'|(? & _)]; [by apply (Hlt j r)|by destruct (Hnp j r)].
  - intros f l Hl. destruct (S7 f l Hl) as [Ha Hlt]. split; [by apply action_at_app|]. intros j r lj (Hr & Hlj & _) Hj. destruct (Hat j r lj Hr Hlj) as [Hj'|((t & p & Hp & _) & _)]; [by apply (Hlt j r)|].
    destruct S8 as [E0|E0]; [by rewrite E0, lookup_empty in Hl|]. rewrite E0 in Hp. by apply elem_of_nil in Hp.
  - by right.
Qed.

(** ** One rule *)

Lemma vget_snoc {A} (v : list A) x i y : vget (v ++ [x]) i = Done y <-> vget v i = Done y \/ (i = vsize v /\ y = x).
Proof.
  rewrite !vget_Done, lookup_app. unfold vsize. destruct (v !! Z.to_nat i) as [z|] eqn:E.
  - pose proof (lookup_lt_Some _ _ _ E). split; [intros [? ?]; by left|]. intros [?|[-> ->]]; [done|lia].
  - pose proof (lookup_ge_None_1 _ _ E). destruct (decide (Z.to_nat i = length v)) as [Ei|Ei].
    + rewrite Ei, Nat.sub_diag. split; [intros [? [= <-]]; right; split; [lia|done]|]. intros [[? ?]|[-> ->]]; [done|split; [lia|done]].
    + rewrite (lookup_ge_None_2 [x]) by (cbn; lia). split; [by intros []|]. intros [[? ?]|[-> ->]]; [done|lia].
Qed.

Lemma start_rule_spec rules s t : serialize_inv rules s ->
  exists s', start_rule s t = Done s' /\ serialize_inv rules s' /\
    (t = IgnorePreviousRules -> z_cssDisplayNone s' = [] /\ forall m u, (m, u) ∈ plain_maps s' -> m = ∅) /\
    (t <> IgnorePreviousRules -> z_ignorePreviousRules s' = ∅).
Proof.
  intros Hs. unfold start_rule. case_bool_decide as Ht.
  - destruct (resolvePending_spec rules s Hs) as ([b1 l1 m1 m2 css m3 m4] & -> & [S0 S1 S2 S3 S4 S5 S6 S7 S8] & Hcss). cbn [obind]. cbn in Hcss. subst css. eexists. split; [done|].
    split_and!; [constructor; try done|intros _; split; [done|]|done].
    + intros m u Hm f l Hl. unfold plain_maps in Hm. rewrite !elem_of_cons, elem_of_nil in Hm. cbn in Hm. assert (m = ∅) as -> by (destruct Hm as [[=]|[[=]|[[=]|[]]]]; done).
      by rewrite lookup_empty in Hl.
    + intros m u Hm. unfold plain_maps in Hm. rewrite !elem_of_cons, elem_of_nil in Hm. cbn in Hm. destruct Hm as [[=]|[[=]|[[=]|[]]]]; done.
  - destruct Hs as [S0 S1 S2 S3 S4 S5 S6 S7 S8]. eexists. split; [done|]. split_and!; [constructor; try done|done|done].
    by left.
Qed.

Section Step.
Variables (rules : list ContentExtensionRule) (s s' : serialize_state) (r : ContentExtensionRule) (l : Z) (more : list Z) (newp : Prop).
Hypothesis Hinv : serialize_inv rules s.
Hypothesis Hactions : z_actions s' = z_actions s ++ more.
Hypothesis Hlocations : z_actionLocations s' = z_actionLocations s ++ [l].
Hypothesis Hpending : forall i, pending s' i <-> pending s i \/ (i = vsize rules /\ newp).

Lemma pending_bound i : pending s i -> i < vsize rules.
Proof.
  intros (t & p & Hp & Hi). destruct (slot_client _ _ _ _ (si_slots _ _ Hinv t p Hp) Hi) as (r' & Hr & _). apply vget_Done in Hr as [? Hr].
  apply lookup_lt_Some in Hr. unfold vsize. lia.
Qed.

Lemma rule_at_step j rj lj : rule_at (rules ++ [r]) s' j rj lj -> rule_at rules s j rj lj \/ (j = vsize rules /\ rj = r /\ lj = l /\ ~ newp).
Proof.
  intros (Hr & Hl & Hp). rewrite Hlocations in Hl. rewrite Hpending in Hp. apply vget_snoc in Hr as [Hr|[-> ->]].
  - left. apply vget_snoc in Hl as [Hl|[-> ->]]; [split_and!; tauto|]. apply vget_Done in Hr as [? Hr]. apply lookup_lt_Some in Hr. pose proof (si_size _ _ Hinv). unfold vsize in *. lia.
  - right. apply vget_snoc in Hl as [Hl|[_ ->]]; [|tauto]. apply vget_Done in Hl as [? Hl]. apply lookup_lt_Some in Hl. pose proof (si_size _ _ Hinv). unfold vsize in *. lia.
Qed.

Lemma old_bound j rj lj : rule_at rules s j rj lj -> 0 <= lj < vsize (z_actions s).
Proof. intros Hj. by eapply located_bound, (si_located _ _ Hinv). Qed.

(** A map that is not changed. *)
Lemma map_ok_keep m t P : map_ok rules s m t P -> (P r -> m = ∅) -> map_ok (rules ++ [r]) s' m t P.
Proof.
  intros Hm He f x Hx. destruct (Hm f x Hx) as [Ha Hlt]. split; [rewrite Hactions; by apply action_at_app|]. intros j rj lj Hj HP.
  apply rule_at_step in Hj as [Hj|(_ & -> & _)]; [by eapply Hlt|]. by rewrite He, lookup_empty in Hx.
Qed.

(** A map with the new location at the end of the bytes. *)
Lemma map_ok_new m t P f : map_ok rules s m t P -> ~ P r -> more = [action_type_code t] -> t <> CSSDisplayNoneSelector ->
  map_ok (rules ++ [r]) s' (<[f := vsize (z_actions s)]> m) t P.
Proof.
  intros Hm HP Hmore Ht f' x [[_ <-]|[_ Hx]]%lookup_insert_Some; [|by apply (map_ok_keep m t P Hm (fun H => match HP H with end) f' x)].
  split.
  - rewrite Hactions, Hmore. replace [action_type_code t] with (encode t emptyString); [apply action_at_end|]. unfold encode. by rewrite bool_decide_false.
  - intros j rj lj Hj HPj. apply rule_at_step in Hj as [Hj|(_ & -> & _)]; [|done]. apply old_bound in Hj. lia.
Qed.

Hypothesis Hencoded : encoded (z_actions s').
Hypothesis Hslots : forall t p, (t, p) ∈ z_cssDisplayNone s' -> slot_ok (rules ++ [r]) t p.
Hypothesis Hlocated : ~ newp -> located (rules ++ [r]) (z_actions s') r l.
Hypothesis Hafter : is_ignore r -> forall i ri li, rule_at rules s i ri li -> ~ is_ignore ri -> li < l.
Hypothesis Hafter' : ~ is_ignore r -> ~ newp -> forall j rj lj, rule_at rules s j rj lj -> is_ignore rj -> lj < l.
Hypothesis Hnp : is_ignore r -> ~ newp /\ z_cssDisplayNone s = [].
Hypothesis Hmaps : forall m t, (m, t) ∈ plain_maps s' -> map_ok (rules ++ [r]) s' m t (fun r => is_ignore r).
Hypothesis Hignore : map_ok (rules ++ [r]) s' (z_ignorePreviousRules s') IgnorePreviousRules (fun r => ~ is_ignore r).
Hypothesis Hapart : z_ignorePreviousRules s' = ∅ \/ z_cssDisplayNone s' = [].

Lemma inv_step : serialize_inv (rules ++ [r]) s'.
Proof.
  constructor; try done.
  - rewrite Hlocations, !vsize_app. by rewrite (si_size _ _ Hinv).
  - intros i ri li [Hi|(_ & -> & -> & Hn)]%rule_at_step; [|auto]. rewrite Hactions. by eapply located_mono, (si_located _ _ Hinv).
  - intros i j ri rj li lj Hi Hj Hij Hii. apply rule_at_step in Hi as [Hi|(-> & -> & -> & Hn)]; apply rule_at_step in Hj as [Hj|(-> & -> & -> & Hn')].
    + by apply (si_order _ _ Hinv i j ri rj).
    + pose proof (Hafter Hij _ _ _ Hi Hii). destruct Hi as (Hi & _). apply vget_Done in Hi as [? Hi]. apply lookup_lt_Some in Hi. unfold vsize. lia.
    + pose proof (Hafter' Hii Hn _ _ _ Hj Hij). destruct Hj as (Hj & _). apply vget_Done in Hj as [? Hj]. apply lookup_lt_Some in Hj. unfold vsize. lia.
    + done.
  - intros i j rj Hp Hj Hij. apply Hpending in Hp as [Hp|[-> Hp]].
    + apply vget_snoc in Hj as [Hj|[-> ->]]; [by eapply (si_pending _ _ Hinv)|]. destruct (Hnp Hij) as [_ E]. destruct Hp as (t & p & Hp & _). rewrite E in Hp. by apply elem_of_nil in Hp.
    + apply vget_snoc in Hj as [Hj|[-> ->]]; [|by destruct (Hnp Hij)]. apply vget_Done in Hj as [? Hj]. apply lookup_lt_Some in Hj. unfold vsize. lia.
Qed.
End Step.

Lemma slot_ok_mono rules r t p : slot_ok rules t p -> slot_ok (rules ++ [r]) t p.
Proof. intros Hs. eapply Forall2_impl; [done|]. intros sel c (r' & Hr & ?). exists r'. split; [|done]. apply vget_snoc. by left. Qed.

(** ** Pending selectors *)

Section Pending.
Context `{HashOrder}.
Implicit Types (slots : list (Trigger * PendingDisplayNoneActions)).

Definition extended (p : PendingDisplayNoneActions) (selector : WTFString) (client : Z) : PendingDisplayNoneActions :=
  mkPending (p_selectors p ++ [selector]) (p_clientLocations p ++ [client]).

Lemma add_to_slot_Some slots trigger selector client slots' : add_to_slot slots trigger selector client = Some slots' ->
  exists t p before after, slots = before ++ (t, p) :: after /\ slots' = before ++ (t, extended p selector client) :: after /\ trigger_key t = trigger_key trigger.
Proof.
  revert slots'. induction slots as [|[t p] slots IH]; intros slots' E; [done|]. cbn [add_to_slot] in E. destruct (Trigger_equal t trigger) eqn:Et.
  - injection E as <-. apply Trigger_equal_spec in Et. by exists t, p, [], slots.
  - destruct (add_to_slot slots trigger selector client) as [sl|] eqn:E'; [|done]. injection E as <-. destruct (IH _ eq_refl) as (t' & p' & before & after & -> & -> & Hk).
    by exists t', p', ((t, p) :: before), after.
Qed.

(** The slots after a selector was added: an old one, or the one that was
    extended. *)
Lemma add_pending_spec slots trigger selector client : exists t p rest,
  add_pending slots trigger selector client ≡ₚ (t, extended p selector client) :: rest /\ trigger_key t = trigger_key trigger /\
  ((p = mkPending [] [] /\ rest = slots) \/ slots ≡ₚ (t, p) :: rest).
Proof.
  unfold add_pending. destruct (add_to_slot slots trigger selector client) as [slots'|] eqn:E.
  - apply add_to_slot_Some in E as (t & p & before & after & -> & -> & Hk). exists t, p, (before ++ after). split_and!; [|done|right]; by rewrite Permutation_middle.
  - exists trigger, (mkPending [] []), slots. split_and!; [|done|by left]. by rewrite hash_place_perm.
Qed.
End Pending.

Section Rule.
Context `{HashOrder}.

Lemma pending_new s s' (rules : list ContentExtensionRule) trigger selector : z_cssDisplayNone s' = add_pending (z_cssDisplayNone s) trigger selector (vsize rules) ->
  forall i, pending s' i <-> pending s i \/ (i = vsize rules /\ True).
Proof.
  intros E i. unfold pending. rewrite E. destruct (add_pending_spec (z_cssDisplayNone s) trigger selector (vsize rules)) as (t & p & rest & Hperm & Hk & Hold). split.
  - intros (t' & p' & Hin & Hi). rewrite Hperm in Hin. apply elem_of_cons in Hin as [[= -> ->]|Hin].
    + cbn [extended p_clientLocations] in Hi. apply elem_of_app in Hi as [Hi| ->%list_elem_of_singleton]; [|by right]. left. destruct Hold as [[-> _]|Hold]; [by apply elem_of_nil in Hi|].
      exists t, p. split; [|done]. rewrite Hold. left.
    + left. exists t', p'. split; [|done]. destruct Hold as [[_ ->]|Hold]; [done|]. rewrite Hold. by right.
  - intros [(t' & p' & Hin & Hi)|[-> _]].
    + destruct Hold as [[-> ->]|Hold]; [exists t', p'; split; [rewrite Hperm; by right|done]|]. rewrite Hold in Hin. apply elem_of_cons in Hin as [[= -> ->]|Hin].
      * exists t, (extended p selector (vsize rules)). split; [rewrite Hperm; left|]. apply elem_of_app. by left.
      * exists t', p'. split; [rewrite Hperm; by right|done].
    + exists t, (extended p selector (vsize rules)). split; [rewrite Hperm; left|]. apply elem_of_app. right. by apply list_elem_of_singleton.
Qed.

Lemma slots_new rules s r : serialize_inv rules s -> rule_type r = CSSDisplayNoneSelector -> width_ok (rule_arg r) ->
  forall t p, (t, p) ∈ add_pending (z_cssDisplayNone s) (r_trigger r) (rule_arg r) (vsize rules) -> slot_ok (rules ++ [r]) t p.
Proof.
  intros Hs Hr Hw t p Hin. destruct (add_pending_spec (z_cssDisplayNone s) (r_trigger r) (rule_arg r) (vsize rules)) as (t' & p' & rest & Hperm & Hk & Hold).
  rewrite Hperm in Hin. apply elem_of_cons in Hin as [[= -> ->]|Hin].
  - unfold slot_ok. cbn [extended p_selectors p_clientLocations]. apply Forall2_app.
    + destruct Hold as [[-> _]|Hold]; [constructor|]. apply slot_ok_mono, (si_slots _ _ Hs). rewrite Hold. left.
    + constructor; [|constructor]. exists r. split_and!; try done. apply vget_snoc. by right.
  - apply slot_ok_mono, (si_slots _ _ Hs). destruct Hold as [[_ ->]|Hold]; [done|]. rewrite Hold. by right.
Qed.

(** A location found in a map or made at the end of the bytes. *)
Lemma findOrMake_spec rules s m t P flags bytes m' l : serialize_inv rules s -> map_ok rules s m t P -> t <> CSSDisplayNoneSelector ->
  findOrMakeActionLocation (z_actions s) t flags m = (bytes, m', l) -> serializable t = true ->
  exists more, bytes = z_actions s ++ more /\ encoded bytes /\ action_at bytes l t emptyString /\
    (forall j r lj, rule_at rules s j r lj -> P r -> lj < l) /\
    (m' = m \/ (more = [action_type_code t] /\ m' = <[flags := vsize (z_actions s)]> m)).
Proof.
  intros Hs Hm Ht E Hser. pose proof (si_encoded _ _ Hs) as Henc. unfold findOrMakeActionLocation in E. destruct (m !! flags) as [l0|] eqn:El; injection E as <- <- <-.
  - exists []. rewrite app_nil_r. destruct (Hm flags l0 El) as [Ha Hlt]. split_and!; try done. by left.
  - exists [action_type_code t]. split_and!; [done|rewrite <- (encode_plain t emptyString) by done; by apply encoded_app; [..|apply emptyString_width]| |intros j r lj Hj _; apply (si_located _ _ Hs), located_bound in Hj; lia|by right].
    replace [action_type_code t] with (encode t emptyString); [apply action_at_end|]. unfold encode. by rewrite bool_decide_false.
Qed.

(** The three maps of a state. *)
Lemma plain_maps_cases s m t : (m, t) ∈ plain_maps s ->
  (m = z_blockLoad s /\ t = BlockLoad) \/ (m = z_blockCookies s /\ t = BlockCookies) \/ (m = z_makeHTTPS s /\ t = MakeHTTPS).
Proof. unfold plain_maps. rewrite !elem_of_cons, elem_of_nil. intros [[= -> ->]|[[= -> ->]|[[= -> ->]|[]]]]; auto. Qed.

Lemma plain_maps_in s : (z_blockLoad s, BlockLoad) ∈ plain_maps s /\ (z_blockCookies s, BlockCookies) ∈ plain_maps s /\ (z_makeHTTPS s, MakeHTTPS) ∈ plain_maps s.
Proof. unfold plain_maps. rewrite !elem_of_cons. split_and!; auto. Qed.

Lemma not_new (rules : list ContentExtensionRule) s i : pending s i <-> pending s i \/ (i = vsize rules /\ False).
Proof. tauto. Qed.

(** A rule whose location was found or made. *)
Lemma plain_step rules s s' r l bytes (m m' : gmap Z Z) : serialize_inv rules s -> rule_type r <> CSSDisplayNoneSelector -> serializable (rule_type r) = true ->
  z_actions s' = bytes -> z_actionLocations s' = z_actionLocations s ++ [l] -> z_cssDisplayNone s' = z_cssDisplayNone s ->
  (is_ignore r -> z_cssDisplayNone s = [] /\ (forall m u, (m, u) ∈ plain_maps s -> m = ∅) /\ m = z_ignorePreviousRules s /\ z_ignorePreviousRules s' = m' /\
     (forall n u, (n, u) ∈ plain_maps s' -> (n, u) ∈ plain_maps s)) ->
  (~ is_ignore r -> z_ignorePreviousRules s = ∅ /\ z_ignorePreviousRules s' = ∅ /\ (m, rule_type r) ∈ plain_maps s /\
     (forall n u, (n, u) ∈ plain_maps s' -> (n, u) ∈ plain_maps s \/ (n = m' /\ u = rule_type r))) ->
  findOrMakeActionLocation (z_actions s) (rule_type r) (t_flags (r_trigger r)) m = (bytes, m', l) -> serialize_inv (rules ++ [r]) s'.
Proof.
  intros Hs Hcss Hser Ea El Ec Hig Hnig E.
  destruct (decide (is_ignore r)) as [Hi|Hi].
  - destruct (Hig Hi) as (Hc & Hmaps & -> & Em & Hsub). clear Hnig Hig.
    destruct (findOrMake_spec rules s _ _ (fun r => ~ is_ignore r) _ _ _ _ Hs (eq_ind_r (fun t => map_ok rules s (z_ignorePreviousRules s) t _) (si_ignore _ _ Hs) Hi) Hcss E Hser) as (more & Hb & Henc & Hat & Hlt & Hm').
    rewrite Hb in Ea, Hat, Henc. assert (Hp : forall i, pending s' i <-> pending s i \/ (i = vsize rules /\ False)) by (intros i; unfold pending; rewrite Ec; tauto).
    apply (inv_step rules s s' r l more False); try done.
    + by rewrite Ea.
    + intros t p. rewrite Ec, Hc. by intros ?%elem_of_nil.
    + intros _. rewrite Ea. by eapply located_plain.
    + intros _. split; [tauto|done].
    + intros n u Hn. apply Hsub in Hn as Hn'. apply (map_ok_keep rules s s' r l more False); try done; [by apply (si_maps _ _ Hs)|intros _; by apply (Hmaps n u)].
    + rewrite Em. pose proof (si_ignore _ _ Hs) as Hold. destruct Hm' as [->|[Hmore ->]]; [apply (map_ok_keep rules s s' r l more False); try done|].
      rewrite Hi in Hmore. apply (map_ok_new rules s s' r l more False); try done. intros Hx. by apply Hx.
    + right. by rewrite Ec.
  - destruct (Hnig Hi) as (Hz & Hz' & Hin & Hsub). clear Hnig Hig.
    destruct (findOrMake_spec rules s _ _ (fun r => is_ignore r) _ _ _ _ Hs (si_maps _ _ Hs _ _ Hin) Hcss E Hser) as (more & Hb & Henc & Hat & Hlt & Hm').
    rewrite Hb in Ea, Hat, Henc. assert (Hp : forall i, pending s' i <-> pending s i \/ (i = vsize rules /\ False)) by (intros i; unfold pending; rewrite Ec; tauto).
    apply (inv_step rules s s' r l more False); try done.
    + by rewrite Ea.
    + intros t p. rewrite Ec. intros Hin'. by apply slot_ok_mono, (si_slots _ _ Hs).
    + intros _. rewrite Ea. by eapply located_plain.
    + intros n u Hn. apply Hsub in Hn as [Hn|[-> ->]]; [apply (map_ok_keep rules s s' r l more False); try done; by apply (si_maps _ _ Hs)|].
      destruct Hm' as [->|[Hmore ->]]; [apply (map_ok_keep rules s s' r l more False); try done; by apply (si_maps _ _ Hs)|].
      apply (map_ok_new rules s s' r l more False); try done. by apply (si_maps _ _ Hs).
    + rewrite Hz'. intros f x Hx. by rewrite lookup_empty in Hx.
    + by left.
Qed.

(** A rule with domains. *)
Lemma domain_step rules s s' r : serialize_inv rules s -> serializable (rule_type r) = true -> width_ok (rule_arg r) ->
  (is_ignore r -> z_cssDisplayNone s = [] /\ forall m u, (m, u) ∈ plain_maps s -> m = ∅) -> (~ is_ignore r -> z_ignorePreviousRules s = ∅) ->
  s' = mkSerialize (z_actions s ++ encode (rule_type r) (rule_arg r)) (z_actionLocations s ++ [vsize (z_actions s)])
         (z_blockLoad s) (z_blockCookies s) (z_cssDisplayNone s) (z_ignorePreviousRules s) (z_makeHTTPS s) ->
  serialize_inv (rules ++ [r]) s'.
Proof.
  intros Hs Hser Hw Hi Hn ->. set (s' := mkSerialize _ _ _ _ _ _ _). set (more := encode (rule_type r) (rule_arg r)).
  assert (Hp : forall i, pending s' i <-> pending s i \/ (i = vsize rules /\ False)) by (intros i; unfold pending; cbn; tauto).
  assert (Hold : forall j rj lj, rule_at rules s j rj lj -> lj < vsize (z_actions s)) by (intros j rj lj Hj; apply (si_located _ _ Hs), located_bound in Hj; lia).
  apply (inv_step rules s s' r (vsize (z_actions s)) more False); try done.
  - apply encoded_app; [apply (si_encoded _ _ Hs)|done|done].
  - intros t p Hin. by apply slot_ok_mono, (si_slots _ _ Hs).
  - intros _. apply located_alone; [apply elem_of_app; right; by apply list_elem_of_singleton|done|apply action_at_end].
  - intros _ i ri li Hr _. by eapply Hold.
  - intros _ _ j rj lj Hr _. by eapply Hold.
  - intros Hir. split; [tauto|]. by apply Hi.
  - intros m u Hm. apply (map_ok_keep rules s s' r (vsize (z_actions s)) more False); try done; [by apply (si_maps _ _ Hs)|]. intros Hir. by apply (proj2 (Hi Hir) m u).
  - apply (map_ok_keep rules s s' r (vsize (z_actions s)) more False); try done. by apply (si_ignore _ _ Hs).
  - apply (si_apart _ _ Hs).
Qed.

(** A selector that waits for others with the same trigger. *)
Lemma selector_step rules s s' r : serialize_inv rules s -> rule_type r = CSSDisplayNoneSelector -> width_ok (rule_arg r) -> z_ignorePreviousRules s = ∅ ->
  s' = mkSerialize (z_actions s) (z_actionLocations s ++ [UINT32_MAX]) (z_blockLoad s) (z_blockCookies s)
         (add_pending (z_cssDisplayNone s) (r_trigger r) (rule_arg r) (vsize (z_actionLocations s))) (z_ignorePreviousRules s) (z_makeHTTPS s) ->
  serialize_inv (rules ++ [r]) s'.
Proof.
  intros Hs Hr Hw Hz ->. rewrite (si_size _ _ Hs). set (s' := mkSerialize _ _ _ _ _ _ _). assert (Ea : z_actions s' = z_actions s ++ []) by (cbn; by rewrite app_nil_r).
  assert (Hni : ~ is_ignore r) by congruence. assert (Hp : forall i, pending s' i <-> pending s i \/ (i = vsize rules /\ True)) by (by eapply pending_new).
  apply (inv_step rules s s' r UINT32_MAX [] True); try done.
  - apply (si_encoded _ _ Hs).
  - by apply slots_new.
  - intros m u Hm. apply (map_ok_keep rules s s' r UINT32_MAX [] True); try done. by apply (si_maps _ _ Hs).
  - cbn [z_ignorePreviousRules s']. rewrite Hz. intros f x Hx. by rewrite lookup_empty in Hx.
  - by left.
Qed.

Lemma serialize_rule_spec rules s r : serialize_inv rules s -> serializable (rule_type r) = true -> width_ok (rule_arg r) ->
  exists s', serialize_rule s r = Done s' /\ serialize_inv (rules ++ [r]) s'.
Proof.
  intros Hs0 Hser Hw. unfold serialize_rule. destruct (start_rule_spec rules s (rule_type r) Hs0) as (s1 & -> & Hs & Hig & Hnig). cbn [obind]. clear s Hs0.
  destruct (plain_maps_in s1) as (P1 & P2 & P3). destruct (t_domains (r_trigger r)) as [|d ds].
  2:{ eexists. split; [done|]. apply (domain_step rules s1); try done. f_equal. unfold encode. case_bool_decide; [|done]. by rewrite serializeSelector_app; unfold encode; rewrite bool_decide_true. }
  destruct (rule_type r) eqn:Et; try done.
  - destruct (findOrMakeActionLocation (z_actions s1) BlockLoad (t_flags (r_trigger r)) (z_blockLoad s1)) as [[b m'] l] eqn:E. eexists. split; [done|].
    apply (plain_step rules s1 _ r l b (z_blockLoad s1) m'); cbn; rewrite ?Et; try done. intros _. split_and!; [auto..|]. intros n u [[-> ->]|[[-> ->]|[-> ->]]]%plain_maps_cases; cbn; auto.
  - destruct (findOrMakeActionLocation (z_actions s1) BlockCookies (t_flags (r_trigger r)) (z_blockCookies s1)) as [[b m'] l] eqn:E. eexists. split; [done|].
    apply (plain_step rules s1 _ r l b (z_blockCookies s1) m'); cbn; rewrite ?Et; try done. intros _. split_and!; [auto..|]. intros n u [[-> ->]|[[-> ->]|[-> ->]]]%plain_maps_cases; cbn; auto.
  - eexists. split; [done|]. eapply (selector_step rules s1); try done. by apply Hnig.
  - destruct (findOrMakeActionLocation (z_actions s1) IgnorePreviousRules (t_flags (r_trigger r)) (z_ignorePreviousRules s1)) as [[b m'] l] eqn:E. eexists. split; [done|].
    apply (plain_step rules s1 _ r l b (z_ignorePreviousRules s1) m'); cbn; rewrite ?Et; try done. intros _. destruct (Hig eq_refl) as [? ?]. split_and!; auto.
  - destruct (findOrMakeActionLocation (z_actions s1) MakeHTTPS (t_flags (r_trigger r)) (z_makeHTTPS s1)) as [[b m'] l] eqn:E. eexists. split; [done|].
    apply (plain_step rules s1 _ r l b (z_makeHTTPS s1) m'); cbn; rewrite ?Et; try done. intros _. split_and!; [auto..|]. intros n u [[-> ->]|[[-> ->]|[-> ->]]]%plain_maps_cases; cbn; auto.
Qed.

Lemma newSerialize_inv : serialize_inv [] newSerialize.
Proof.
  assert (Hno : forall i r l, ~ rule_at [] newSerialize i r l) by (intros i r l ([_ Hr]%vget_Done & _); by rewrite lookup_nil in Hr).
  constructor; try done.
  - by exists [].
  - intros i r l Hi. by apply Hno in Hi.
  - intros i j ri rj li lj Hi. by apply Hno in Hi.
  - by intros t p ?%elem_of_nil.
  - by intros i j rj (t & p & ?%elem_of_nil & _).
  - intros m t [[-> _]|[[-> _]|[-> _]]]%plain_maps_cases f l Hl; cbn in Hl; by rewrite lookup_empty in Hl.
  - by left.
Qed.

(** The rule lists the parser produces. *)
Definition rules_ok (rules : list ContentExtensionRule) : Prop := Forall (fun r => serializable (rule_type r) = true /\ width_ok (rule_arg r)) rules.

Lemma serializeActions_spec rules : rules_ok rules -> exists s, serializeActions rules = Done (z_actions s, z_actionLocations s) /\
  serialize_inv rules s /\ forall i, ~ pending s i.
Proof.
  intros Hok. unfold serializeActions.
  assert (Hloop : exists s, ofold serialize_rule newSerialize rules = Done s /\ serialize_inv rules s).
  { induction rules as [|r rules IH] using rev_ind; [exists newSerialize; split; [done|apply newSerialize_inv]|].
    apply Forall_app in Hok as [Hok [[Hr Hw] _]%Forall_cons]. destruct (IH Hok) as (s & E & Hs). rewrite ofold_app, E. cbn [obind ofold].
    destruct (serialize_rule_spec rules s r Hs Hr Hw) as (s' & -> & Hs'). by exists s'. }
  destruct Hloop as (s & -> & Hs). cbn [obind]. destruct (resolvePending_spec rules s Hs) as (s' & -> & Hs' & Hc). cbn [obind]. exists s'. split_and!; try done.
  intros i (t & p & Hin & _). rewrite Hc in Hin. by apply elem_of_nil in Hin.
Qed.
End Rule.

(** ** The actions of rules with domains are not shared

    [serializeActions] combines equal actions of rules without domains.  A rule
    with domains has a location of its own, so that the condition on the domain
    that the location stands for is its own. *)

Definition no_domains (r : ContentExtensionRule) : Prop := t_domains (r_trigger r) = [].

#[global] Instance no_domains_dec r : Decision (no_domains r) := decide (t_domains (r_trigger r) = []).

(** A location in one of the maps. *)
Definition mapped (s : serialize_state) (l : Z) : Prop :=
  exists f, z_blockLoad s !! f = Some l \/ z_blockCookies s !! f = Some l \/ z_makeHTTPS s !! f = Some l \/ z_ignorePreviousRules s !! f = Some l.

Record alone (rules : list ContentExtensionRule) (s : serialize_state) : Prop := {
  al_unique : forall i j ri rj l, rule_at rules s i ri l -> rule_at rules s j rj l -> ~ no_domains ri -> i = j;
  al_mapped : forall i ri l, rule_at rules s i ri l -> ~ no_domains ri -> ~ mapped s l;
  al_pending : forall i r, pending s i -> vget rules i = Done r -> no_domains r
}.

Lemma mapped_bound rules s l : serialize_inv rules s -> mapped s l -> 0 <= l < vsize (z_actions s).
Proof.
  intros Hs (f & Hl). destruct (plain_maps_in s) as (P1 & P2 & P3).
  destruct Hl as [Hl|[Hl|[Hl|Hl]]]; [apply (si_maps _ _ Hs _ _ P1) in Hl as [Ha _]|apply (si_maps _ _ Hs _ _ P2) in Hl as [Ha _]|apply (si_maps _ _ Hs _ _ P3) in Hl as [Ha _]|
    apply (si_ignore _ _ Hs) in Hl as [Ha _]]; by apply action_at_bound in Ha.
Qed.

Lemma at_bound rules s i r l : serialize_inv rules s -> rule_at rules s i r l -> 0 <= l < vsize (z_actions s).
Proof. intros Hs Hi. by eapply located_bound, (si_located _ _ Hs). Qed.

(** ** The pending selectors *)

Lemma resolve_alone rules s s' : serialize_inv rules s -> alone rules s -> resolvePendingDisplayNoneActions s = Done s' ->
  alone rules s' /\ z_cssDisplayNone s' = [] /\ forall l, mapped s' l <-> mapped s l.
Proof.
  intros Hs [A1 A2 A3] E. unfold resolvePendingDisplayNoneActions in E.
  destruct (resolve_slots rules (z_cssDisplayNone s) (z_actions s) (z_actionLocations s) (si_slots _ _ Hs) (si_size _ _ Hs) (si_encoded _ _ Hs)) as (more & locs & E' & _ & _ & Hget).
  rewrite E' in E. cbn [obind] in E. injection E as <-. set (s' := mkSerialize _ _ _ _ _ _ _).
  assert (Hat : forall i r l, rule_at rules s' i r l -> rule_at rules s i r l \/ (pending s i /\ vsize (z_actions s) <= l)).
  { intros i r l (Hr & Hl & _). destruct (Hget i l Hl) as [[Hl0 Hn]|(r' & t & p & _ & Hp & Hi & _ & Hle)]; [left|right; split; [by exists t, p|done]].
    split_and!; [done|done|]. intros (t & p & Hp & Hi). by apply (Hn t p). }
  assert (Hold : forall i r l, rule_at rules s' i r l -> ~ no_domains r -> rule_at rules s i r l).
  { intros i r l Hi Hd. destruct (Hat i r l Hi) as [?|[Hp _]]; [done|]. destruct Hi as (Hr & _). destruct Hd. by apply (A3 i r Hp). }
  split_and!; [constructor|done|done].
  - intros i j ri rj l Hi Hj Hd. apply Hold in Hi; [|done]. destruct (Hat j rj l Hj) as [Hj'|[_ Hle]]; [by eapply A1|]. apply (at_bound rules s) in Hi; [lia|done].
  - intros i ri l Hi Hd. apply Hold in Hi; [|done]. by apply (A2 i ri l).
  - by intros i r (t & p & ?%elem_of_nil & _).
Qed.

Lemma start_alone rules s t s' : serialize_inv rules s -> alone rules s -> start_rule s t = Done s' -> alone rules s'.
Proof.
  intros Hs Ha. unfold start_rule. case_bool_decide.
  - intros E. apply obind_Done in E as (s1 & E1 & E). injection E as <-. destruct (resolve_alone rules s s1 Hs Ha E1) as ([A1 A2 A3] & Hc & Hm).
    destruct s1 as [b1 l1 m1 m2 css m3 m4]. cbn in Hc. subst css. constructor; [done| |done]. intros i ri l Hi Hd (f & Hl). cbn in Hl. rewrite !lookup_empty in Hl.
    apply (A2 i ri l); [done|done|]. exists f. cbn. intuition congruence.
  - intros [= <-]. destruct Ha as [A1 A2 A3]. constructor; [done| |done]. intros i ri l Hi Hd (f & Hl). cbn in Hl. rewrite lookup_empty in Hl. apply (A2 i ri l); [done|done|]. exists f. intuition congruence.
Qed.

(** ** One rule *)

Lemma alone_step rules s s' r l more (newp : Prop) : serialize_inv rules s -> alone rules s ->
  z_actions s' = z_actions s ++ more -> z_actionLocations s' = z_actionLocations s ++ [l] ->
  (forall i, pending s' i <-> pending s i \/ (i = vsize rules /\ newp)) ->
  (~ newp -> vsize (z_actions s) <= l \/ (no_domains r /\ mapped s l)) -> (newp -> no_domains r) ->
  (forall x, mapped s' x -> mapped s x \/ (no_domains r /\ x = l /\ ~ newp)) -> alone (rules ++ [r]) s'.
Proof.
  intros Hs [A1 A2 A3] Ea El Hp Hl Hn Hm.
  assert (Hold : forall i ri li, rule_at rules s i ri li -> ~ no_domains ri -> ~ newp -> li <> l).
  { intros i ri li Hi Hd Hnp ->. destruct (Hl Hnp) as [Hle|[_ Hx]]; [apply (at_bound rules s) in Hi; [lia|done]|by apply (A2 i ri l)]. }
  constructor.
  - intros i j ri rj x Hi Hj Hd. apply (rule_at_step rules s s' r l newp Hs El Hp) in Hi as [Hi|(-> & -> & -> & Hnp)]; apply (rule_at_step rules s s' r l newp Hs El Hp) in Hj as [Hj|(-> & -> & E & Hnp')].
    + by eapply A1.
    + by destruct (Hold i ri x Hi Hd Hnp').
    + destruct (Hl Hnp) as [Hle|[? _]]; [|done]. apply (at_bound rules s) in Hj; [lia|done].
    + done.
  - intros i ri x Hi Hd Hx. apply (rule_at_step rules s s' r l newp Hs El Hp) in Hi as [Hi|(-> & -> & -> & Hnp)]; apply Hm in Hx as [Hx|(Hnd & E & Hnp')]; try done.
    + by apply (A2 i ri x).
    + by destruct (Hold i ri x Hi Hd Hnp').
    + destruct (Hl Hnp) as [Hle|[? _]]; [|done]. apply (mapped_bound rules s) in Hx; [lia|done].
  - intros i ri Hpi Hr. apply Hp in Hpi as [Hpi|[-> Hnp]].
    + apply vget_snoc in Hr as [Hr|[-> ->]]; [by apply (A3 i)|]. apply (pending_bound rules s Hs) in Hpi. lia.
    + apply vget_snoc in Hr as [Hr|[_ ->]]; [|auto]. apply vget_Done in Hr as [? Hr]. apply lookup_lt_Some in Hr. unfold vsize in Hr. lia.
Qed.

(** What [findOrMakeActionLocation] gives is mapped, before or at the end. *)
Lemma findOrMake_alone b t f (m : gmap Z Z) b' m' l : findOrMakeActionLocation b t f m = (b', m', l) ->
  exists more, b' = b ++ more /\ ((exists f, m !! f = Some l) \/ vsize b <= l) /\ forall f' x, m' !! f' = Some x -> (exists f, m !! f = Some x) \/ x = l.
Proof.
  unfold findOrMakeActionLocation. destruct (m !! f) as [l0|] eqn:El; intros [= <- <- <-].
  - exists []. rewrite app_nil_r. split_and!; [done|left; by exists f|]. intros f' x Hx. left. by exists f'.
  - eexists. split_and!; [done|right; lia|]. intros f' x [[_ <-]|[_ Hx]]%lookup_insert_Some; [by right|left; by exists f'].
Qed.

Section Rule.
Context `{HashOrder}.

Lemma serialize_rule_alone rules s r s' : serialize_inv rules s -> alone rules s -> serialize_rule s r = Done s' -> alone (rules ++ [r]) s'.
Proof.
  intros Hs0 Ha0 E. unfold serialize_rule in E. apply obind_Done in E as (s1 & E1 & E). destruct (start_rule_spec rules s (rule_type r) Hs0) as (s1' & E1' & Hs & _).
  rewrite E1 in E1'. injection E1' as <-. pose proof (start_alone _ _ _ _ Hs0 Ha0 E1) as Ha. clear s E1 Hs0 Ha0.
  assert (Hnone : forall s', z_cssDisplayNone s' = z_cssDisplayNone s1 -> forall i, pending s' i <-> pending s1 i \/ (i = vsize rules /\ False)) by (intros s2 Hc i; unfold pending; rewrite Hc; tauto).
  destruct (t_domains (r_trigger r)) as [|d ds] eqn:Ed.
  2:{ injection E as <-. assert (Hmore : exists more, (if bool_decide (m_type (r_action r) = CSSDisplayNoneSelector) then serializeSelector (z_actions s1) (m_stringArgument (r_action r))
        else z_actions s1 ++ [action_type_code (m_type (r_action r))]) = z_actions s1 ++ more) by (case_bool_decide; [rewrite serializeSelector_app|]; by eexists).
      destruct Hmore as (more & Hmore). rewrite Hmore. eapply (alone_step rules s1 _ r (vsize (z_actions s1)) more False); try done; [by apply Hnone|intros _; left; lia|]. intros x Hx. by left. }
  assert (Hplain : forall b m m' l s2, findOrMakeActionLocation (z_actions s1) (rule_type r) (t_flags (r_trigger r)) m = (b, m', l) ->
    (forall f x, m !! f = Some x -> mapped s1 x) -> (forall x, mapped s2 x -> mapped s1 x \/ exists f, m' !! f = Some x) ->
    z_actions s2 = b -> z_actionLocations s2 = z_actionLocations s1 ++ [l] -> z_cssDisplayNone s2 = z_cssDisplayNone s1 -> alone (rules ++ [r]) s2).
  { intros b m m' l s2 Ef Hm Hm' Eb Eloc Ec. destruct (findOrMake_alone _ _ _ _ _ _ _ Ef) as (more & -> & Hl & Hv). apply (alone_step rules s1 s2 r l more False); try done; [by apply Hnone| |].
    - intros _. destruct Hl as [(f & Hf)|?]; [right; split; [done|by eapply Hm]|by left].
    - intros x [Hx|(f & Hx)]%Hm'; [by left|]. apply Hv in Hx as [(f' & Hx)| ->]; [left; by eapply Hm|right; split_and!; try done; tauto]. }
  change (m_type (r_action r)) with (rule_type r) in E. destruct (rule_type r) eqn:Et; try done.
  - destruct (findOrMakeActionLocation (z_actions s1) BlockLoad (t_flags (r_trigger r)) (z_blockLoad s1)) as [[b m'] l] eqn:Ef. injection E as <-.
    eapply (Hplain b (z_blockLoad s1) m' l); [done|intros f x Hx; exists f; tauto| |done..]. intros x (f & Hx). cbn in Hx. unfold mapped. naive_solver.
  - destruct (findOrMakeActionLocation (z_actions s1) BlockCookies (t_flags (r_trigger r)) (z_blockCookies s1)) as [[b m'] l] eqn:Ef. injection E as <-.
    eapply (Hplain b (z_blockCookies s1) m' l); [done|intros f x Hx; exists f; tauto| |done..]. intros x (f & Hx). cbn in Hx. unfold mapped. naive_solver.
  - injection E as <-. eapply (alone_step rules s1 _ r UINT32_MAX [] True); try done; [by rewrite app_nil_r| |intros x Hx; by left].
    eapply pending_new. cbn. by rewrite (si_size _ _ Hs).
  - destruct (findOrMakeActionLocation (z_actions s1) IgnorePreviousRules (t_flags (r_trigger r)) (z_ignorePreviousRules s1)) as [[b m'] l] eqn:Ef. injection E as <-.
    eapply (Hplain b (z_ignorePreviousRules s1) m' l); [done|intros f x Hx; exists f; tauto| |done..]. intros x (f & Hx). cbn in Hx. unfold mapped. naive_solver.
  - destruct (findOrMakeActionLocation (z_actions s1) MakeHTTPS (t_flags (r_trigger r)) (z_makeHTTPS s1)) as [[b m'] l] eqn:Ef. injection E as <-.
    eapply (Hplain b (z_makeHTTPS s1) m' l); [done|intros f x Hx; exists f; tauto| |done..]. intros x (f & Hx). cbn in Hx. unfold mapped. naive_solver.
Qed.

(** The location of a rule with domains is that of no other rule. *)
Lemma domain_location_unique rules bytes locations i j r l : rules_ok rules -> serializeActions rules = Done (bytes, locations) ->
  vget rules i = Done r -> ~ no_domains r -> vget locations i = Done l -> vget locations j = Done l -> i = j.
Proof.
  intros Hok E Hr Hd Hi Hj. unfold serializeActions in E. apply obind_Done in E as (s & Es & E). apply obind_Done in E as (s' & Er & E). injection E as <- <-.
  assert (Hloop : serialize_inv rules s /\ alone rules s).
  { clear -Es Hok. revert s Es. induction rules as [|r rules IH] using rev_ind; intros s Es.
    - injection Es as <-. split; [apply newSerialize_inv|]. assert (Hno : forall i r l, ~ rule_at [] newSerialize i r l) by (intros i r l ([_ Hr]%vget_Done & _); by rewrite lookup_nil in Hr).
      constructor; [intros i j ri rj l Hi; by apply Hno in Hi|intros i ri l Hi; by apply Hno in Hi|]. by intros i r (t & p & ?%elem_of_nil & _).
    - rewrite ofold_app in Es. apply obind_Done in Es as (s0 & E0 & Es). apply Forall_app in Hok as [Hok [[Hr Hw] _]%Forall_cons]. destruct (IH Hok s0 E0) as [Hs Ha].
      cbn [ofold] in Es. apply obind_Done in Es as (s1 & E1 & Es). injection Es as <-. destruct (serialize_rule_spec rules s0 r Hs Hr Hw) as (s2 & E2 & Hs2). rewrite E1 in E2. injection E2 as <-.
      split; [done|by eapply serialize_rule_alone]. }
  destruct Hloop as [Hs Ha]. destruct (resolve_alone rules s s' Hs Ha Er) as ([A1 _ _] & Hc & _). destruct (resolvePending_spec rules s Hs) as (s2 & E2 & Hs2 & _). rewrite Er in E2. injection E2 as <-.
  assert (Hnp : forall k, ~ pending s' k) by (intros k (t & p & Hin & _); rewrite Hc in Hin; by apply elem_of_nil in Hin).
  destruct (vget_total rules j) as (rj & Hrj & _). { apply vget_Done in Hj as [? Hj]. apply lookup_lt_Some in Hj. pose proof (si_size _ _ Hs2). unfold vsize in *. lia. }
  apply (A1 i j r rj l); [done|done|done].
Qed.
End Rule.

(** ** Properties of the serialized actions *)

(** C19: Serialized actions read back: for every rule list the parser can
    produce, [serializeActions] returns, and deserializing at the location of a
    rule gives an action of the rule's type; for a selector its text is the
    comma-separated list of selectors that contains the rule's own and
    otherwise only selectors of rules with the same trigger, in the width it
    was written with. *)
Theorem serializeActions_roundtrip `{HashOrder} rules : rules_ok rules ->
  exists bytes locations, serializeActions rules = Done (bytes, locations) /\ vsize locations = vsize rules /\
    (vsize bytes < 2 ^ 32 -> forall i r l, vget rules i = Done r -> vget locations i = Done l ->
       exists a, deserialize bytes l = Done a /\ m_type a = rule_type r /\ m_actionID a = l /\
         (rule_type r = CSSDisplayNoneSelector -> combines rules r (m_stringArgument a))).
Proof.
  intros Hok. destruct (serializeActions_spec rules Hok) as (s & E & Hs & Hp). eexists _, _. split; [done|]. split; [apply (si_size _ _ Hs)|].
  intros Hb i r l Hr Hl. destruct (si_located _ _ Hs i r l) as (sel & Hat & Hw & Hc); [done|]. unfold rules_ok in Hok. rewrite Forall_forall in Hok.
  destruct (Hok r) as [Hser _]; [apply vget_Done in Hr as [_ Hr]; by eapply list_elem_of_lookup_2|]. eexists. split; [by apply (deserialize_at _ _ (rule_type r) sel)|].
  case_bool_decide as Et; split_and!; try done; auto.
Qed.

(** C30: Combining equal actions and delaying selectors keeps the meaning of
    [ignore-previous-rules]: the location of such a rule is after the location
    of every earlier rule of another type and before that of every later one,
    so comparing locations compares the rules. *)
Theorem serialize_keeps_order `{HashOrder} rules bytes locations i j ri rj li lj : rules_ok rules ->
  serializeActions rules = Done (bytes, locations) ->
  vget rules i = Done ri -> vget rules j = Done rj -> vget locations i = Done li -> vget locations j = Done lj ->
  rule_type rj = IgnorePreviousRules -> rule_type ri <> IgnorePreviousRules -> li < lj <-> i < j.
Proof.
  intros Hok E Hri Hrj Hli Hlj Hj Hi. destruct (serializeActions_spec rules Hok) as (s & E' & Hs & Hp). rewrite E in E'. injection E' as -> ->.
  by apply (si_order _ _ Hs i j ri rj).
Qed.

(** ** Witnesses *)

Definition sample_trigger (f : Z) : Trigger := mkTrigger (s_literal "a") false f [] DC_None.
Definition sample_rules : list ContentExtensionRule :=
  [mkRule (sample_trigger 0) (newActionWithString CSSDisplayNoneSelector (s_literal ".x") UINT32_MAX);
   mkRule (sample_trigger 2) (newAction BlockLoad UINT32_MAX);
   mkRule (sample_trigger 0) (newActionWithString CSSDisplayNoneSelector (mkString false [233; 8364]) UINT32_MAX);
   mkRule (sample_trigger 0) (newAction IgnorePreviousRules UINT32_MAX);
   mkRule (sample_trigger 2) (newAction BlockLoad UINT32_MAX)].

Lemma sample_rules_ok : rules_ok sample_rules.
Proof. repeat (constructor; [split; [reflexivity|apply width_okb_sound; reflexivity]|]). constructor. Qed.

Lemma serializeActions_roundtrip_witness : exists bytes locations, serializeActions sample_rules = Done (bytes, locations) /\
  exists a, deserialize bytes 1 = Done a /\ m_type a = CSSDisplayNoneSelector /\ s_chars (m_stringArgument a) = literal ".x," ++ [233; 8364].
Proof.
  destruct (serializeActions_roundtrip sample_rules sample_rules_ok) as (bytes & locations & E & Hsz & Hr).
  exists bytes, locations. split; [exact E|]. vm_compute in E. injection E as <- <-.
  destruct (Hr ltac:(vm_compute; reflexivity) 2 (mkRule (sample_trigger 0) (newActionWithString CSSDisplayNoneSelector (mkString false [233; 8364]) UINT32_MAX)) 1) as (a & Ea & Ht & _ & _);
    [reflexivity|reflexivity|]. exists a. split; [exact Ea|]. split; [exact Ht|]. vm_compute in Ea. injection Ea as <-. reflexivity.
Defined.

Lemma serialize_keeps_order_witness : exists bytes locations, serializeActions sample_rules = Done (bytes, locations) /\
  exists li lj, vget locations 2 = Done li /\ vget locations 3 = Done lj /\ li < lj.
Proof.
  destruct (serializeActions sample_rules) as [[bytes locations]| |] eqn:E; [|vm_compute in E; discriminate..]. exists bytes, locations. split; [reflexivity|].
  pose proof E as E'. vm_compute in E'. injection E' as <- <-. eexists _, _. split; [reflexivity|]. split; [reflexivity|].
  eapply (serialize_keeps_order sample_rules _ _ 2 3); [exact sample_rules_ok|exact E|reflexivity..|discriminate|lia].
Defined.
