(* ===== verification/BytecodeCompiler.v ===== *)
(** * From DFA to bytecode (DFABytecodeCompiler.h/.cpp)

    The compiler lays the nodes out one after the other, root first, writes
    each jump with the smallest width that is certainly large enough, leaves
    the distance zero, and links all the distances at the end. *)

From stdpp Require Import gmap.
From S2P Require Import Prelude Containers ResourceLoad Dfa Bytecode.

Record Range := mkRange { r_min : Z; r_max : Z; r_destination : Z; r_caseSensitive : bool }.

Record JumpTable := mkJumpTable {
  jt_min : Z; jt_max : Z; jt_caseSensitive : bool; jt_destinations : list Z
}.

Record Transitions := mkTransitions {
  t_jumpTables : list JumpTable;
  t_ranges : list Range;
  t_useFallbackTransition : bool;
  t_fallbackTransitionTarget : Z
}.

Record LinkRecord := mkLinkRecord {
  lr_jumpSize : DFABytecodeJumpSize;
  lr_longestPossibleJump : Z;
  lr_instructionLocation : Z;
  lr_jumpLocation : Z;
  lr_destinationNodeIndex : Z
}.

(** The members of [DFABytecodeCompiler] that change while compiling. *)
Record compiler := mkCompiler {
  m_bytecode : list Z;
  m_maxNodeStartOffsets : list Z;
  m_nodeStartOffsets : list Z;
  m_linkRecords : list LinkRecord
}.

Definition set_bytecode (c : compiler) (b : list Z) : compiler :=
  mkCompiler b (m_maxNodeStartOffsets c) (m_nodeStartOffsets c) (m_linkRecords c).
Definition set_nodeStartOffsets (c : compiler) (v : list Z) : compiler :=
  mkCompiler (m_bytecode c) (m_maxNodeStartOffsets c) v (m_linkRecords c).
Definition add_link (c : compiler) (r : LinkRecord) : compiler :=
  mkCompiler (m_bytecode c) (m_maxNodeStartOffsets c) (m_nodeStartOffsets c) (m_linkRecords c ++ [r]).

Definition noDestination : Z := UINT32_MAX.

(** ** Transition tables of a node *)

(** [destinations[i] = target] for the characters of one transition. *)
Definition fill_destinations (destinations : list Z) (t : DFATransition) : outcome (list Z) :=
  ofold (fun v i => vset v i (tr_target t)) destinations
        (seqZ (u16 (tr_first t)) (tr_last t - u16 (tr_first t) + 1)).

(** The 128-entry table: the transitions to the fallback target are left out. *)
Definition build_destinations (useFallback : bool) (fallback : Z) (ts : list DFATransition) : outcome (list Z) :=
  ofold (fun v t => if useFallback && (fallback =? tr_target t) then Done v else fill_destinations v t)
        (replicate 128 noDestination) ts.

(** Is some character of the upper-case range [rangeMin..rangeMax] sent
    elsewhere than its lower-case counterpart? *)
Fixpoint case_differs (destinations : list Z) (d : Z) (indices : list Z) : outcome bool :=
  match indices with
  | [] => Done false
  | j :: js =>
      let* dl := vget destinations (toASCIILower j) in
      if negb (d =? dl) then Done true else case_differs destinations d js
  end.

Definition char_seq (lo hi : Z) : list Z := seqZ lo (hi - lo + 1).

(** State of the loop that turns [destinations] into ranges. *)
Record scan := mkScan { sc_destinations : list Z; sc_ranges : list Range; sc_rangeMin : option Z }.

(** The end of the range [rangeMin..i-1]: emit it, case-insensitively when its
    lower-case counterpart agrees, which then needs no range of its own. *)
Definition commit_range (s : scan) (rangeMin i : Z) : outcome scan :=
  let destinations := sc_destinations s in
  let* d := vget destinations rangeMin in
  let rangeMax := u8 (i - 1) in
  let* caseSensitive :=
    if (65 <=? rangeMin) && (rangeMax <=? 90)
    then case_differs destinations d (char_seq rangeMin rangeMax)
    else Done true in
  let* destinations' :=
    if caseSensitive then Done destinations
    else ofold (fun v j => vset v (toASCIILower j) noDestination) destinations (char_seq rangeMin rangeMax) in
  let* d' := vget destinations' rangeMin in
  let range := if caseSensitive then mkRange rangeMin rangeMax d' true
               else mkRange (toASCIILower rangeMin) (toASCIILower rangeMax) d' false in
  let* di := vget destinations' i in
  Done (mkScan destinations' (sc_ranges s ++ [range]) (if di =? noDestination then None else Some i)).

Definition scan_step (s : scan) (i : Z) : outcome scan :=
  let* di := vget (sc_destinations s) i in
  match sc_rangeMin s with
  | Some rangeMin =>
      let* dm := vget (sc_destinations s) rangeMin in
      if negb (di =? dm) then commit_range s rangeMin i else Done s
  | None =>
      if negb (di =? noDestination)
      then Done (mkScan (sc_destinations s) (sc_ranges s) (Some i))
      else Done s
  end.

Definition collect_ranges (destinations : list Z) : outcome (list Range) :=
  let* s := ofold scan_step (mkScan destinations [] None) (seqZ 0 128) in
  match sc_rangeMin s with
  | Some rangeMin =>
      let* d := vget (sc_destinations s) rangeMin in
      Done (sc_ranges s ++ [mkRange rangeMin 127 d true])
  | None => Done (sc_ranges s)
  end.

(** [extractJumpTable(ranges, firstRange, lastRange)]: returns the table and
    the ranges without the extracted ones. *)
Definition extractJumpTable (ranges : list Range) (firstRange lastRange : Z) : outcome (JumpTable * list Range) :=
  let* rf := vget ranges firstRange in
  let* rl := vget ranges lastRange in
  let* extracted := vslice ranges firstRange (lastRange + 1) in
  Done (mkJumpTable (r_min rf) (r_max rl) (r_caseSensitive rl) (map r_destination extracted),
        take (Z.to_nat firstRange) ranges ++ drop (Z.to_nat (lastRange + 1)) ranges).

(** The loop that groups adjacent single-character ranges into jump tables;
    [base] is [baseRangePosition] when [baseRange] is not null. *)
Fixpoint group_jump_tables (fuel : nat) (ranges : list Range) (tables : list JumpTable)
    (rangePosition : Z) (base : option Z) : outcome (list JumpTable * list Range) :=
  if vsize ranges <=? rangePosition then
    match base with
    | Some b =>
        if 1 <? vsize ranges - b then
          let* (jt, ranges') := extractJumpTable ranges b (vsize ranges - 1) in
          Done (tables ++ [jt], ranges')
        else Done (tables, ranges)
    | None => Done (tables, ranges)
    end
  else
    match fuel with
    | O => OutOfFuel
    | S fuel' =>
        let* range := vget ranges rangePosition in
        match base with
        | Some b =>
            let* baseRange := vget ranges b in
            let* previous := vget ranges (rangePosition - 1) in
            if negb (r_min range =? r_max range)
               || negb (Bool.eqb (r_caseSensitive baseRange) (r_caseSensitive range))
               || negb (r_max previous + 1 =? r_min range)
            then
              if 1 <? rangePosition - b then
                let* (jt, ranges') := extractJumpTable ranges b (rangePosition - 1) in
                group_jump_tables fuel' ranges' (tables ++ [jt]) (b + 1) None
              else group_jump_tables fuel' ranges tables (rangePosition + 1) None
            else group_jump_tables fuel' ranges tables (rangePosition + 1) base
        | None =>
            group_jump_tables fuel' ranges tables (rangePosition + 1)
              (if r_min range =? r_max range then Some rangePosition else None)
        end
    end.

(** [DFABytecodeCompiler::transitions(node)]. *)
Definition compiler_transitions (dfa : DFA) (node : DFANode) : outcome Transitions :=
  let* useFallback := canUseFallbackTransition node dfa in
  let* fallback := if useFallback then bestFallbackTarget node dfa else Done UINT32_MAX in
  let* ts := node_transitions node dfa in
  let* destinations := build_destinations useFallback fallback ts in
  let* ranges := collect_ranges destinations in
  let* (tables, ranges') := group_jump_tables (length ranges) ranges [] 0 None in
  Done (mkTransitions tables ranges' useFallback fallback).

(** ** Worst-case sizes *)

Definition appendActionBytecodeSize (action : Z) : Z :=
  if negb (Z.land action ActionFlagMask =? 0) then 1 + 2 + 4 else 1 + 4.

Definition checkForJumpTableMaxBytecodeSize (t : JumpTable) : Z :=
  (1 + 2 * 1) + (jt_max t - jt_min t + 1) * 4.

Definition checkForRangeMaxBytecodeSize (r : Range) : Z :=
  if r_min r =? r_max r then 1 + 1 + 4 else 1 + 2 * 1 + 4.

Definition sum_sizes {A} (f : A -> Z) (l : list A) : Z := foldr (fun x n => f x + n) 0 l.

Definition nodeTransitionsMaxBytecodeSize (dfa : DFA) (node : DFANode) : outcome Z :=
  let* t := compiler_transitions dfa node in
  Done (sum_sizes checkForJumpTableMaxBytecodeSize (t_jumpTables t)
        + sum_sizes checkForRangeMaxBytecodeSize (t_ranges t)
        + (if t_useFallbackTransition t then 1 + 4 else 1)).

Definition compiledNodeMaxBytecodeSize (dfa : DFA) (index : Z) : outcome Z :=
  let* node := vget (dfa_nodes dfa) index in
  if isKilled node then Done 0 else
  let* actions := node_actions node dfa in
  let* size := nodeTransitionsMaxBytecodeSize dfa node in
  Done (u32 (sum_sizes appendActionBytecodeSize actions + size)).

(** ** Emitting *)

Definition emitAppendAction (c : compiler) (action : Z) : compiler :=
  let b := m_bytecode c in
  set_bytecode c
    (if negb (Z.land action ActionFlagMask =? 0) then
       let b1 := append_int 1 b (instruction_code
         (if negb (Z.land action IfDomainFlag =? 0)
          then TestFlagsAndAppendActionWithIfDomain else TestFlagsAndAppendAction)) in
       append_int 4 (append_int 2 b1 (u16 (Z.shiftr action 32))) (u32 action)
     else
       let b1 := append_int 1 b (instruction_code
         (if negb (Z.land action IfDomainFlag =? 0)
          then AppendActionWithIfDomain else AppendAction)) in
       append_int 4 b1 (u32 action)).

Definition longestPossibleJump (c : compiler) (instructionLocation sourceNodeIndex destinationNodeIndex : Z) : outcome Z :=
  let* destination := vget (m_nodeStartOffsets c) destinationNodeIndex in
  if destination =? UINT32_MAX then
    let* maxDestination := vget (m_maxNodeStartOffsets c) destinationNodeIndex in
    let* maxSource := vget (m_maxNodeStartOffsets c) sourceNodeIndex in
    let* source := vget (m_nodeStartOffsets c) sourceNodeIndex in
    Done (i32 (u32 (maxDestination - maxSource - (source - instructionLocation))))
  else Done (i32 (u32 (destination - instructionLocation))).

(** The tail shared by the single-jump instructions: the link record and the
    placeholder. *)
Definition emit_placeholder (c : compiler) (jumpSize : DFABytecodeJumpSize)
    (longest instructionLocation jumpLocation destinationNodeIndex : Z) : compiler :=
  let r := mkLinkRecord jumpSize longest instructionLocation jumpLocation destinationNodeIndex in
  let c' := add_link c r in
  set_bytecode c' (appendZeroes (m_bytecode c') jumpSize).

Definition emitJump (c : compiler) (sourceNodeIndex destinationNodeIndex : Z) : outcome compiler :=
  let instructionLocation := vsize (m_bytecode c) in
  let* longest := longestPossibleJump c instructionLocation sourceNodeIndex destinationNodeIndex in
  let jumpSize := smallestPossibleJumpSize longest in
  let c1 := set_bytecode c (append_int 1 (m_bytecode c) (opcode Jump jumpSize)) in
  Done (emit_placeholder c1 jumpSize longest instructionLocation (instructionLocation + 1) destinationNodeIndex).

Definition emitCheckValue (c : compiler) (value sourceNodeIndex destinationNodeIndex : Z) (caseSensitive : bool) : outcome compiler :=
  let instructionLocation := vsize (m_bytecode c) in
  let* longest := longestPossibleJump c instructionLocation sourceNodeIndex destinationNodeIndex in
  let jumpSize := smallestPossibleJumpSize longest in
  let instruction := if caseSensitive then CheckValueCaseSensitive else CheckValueCaseInsensitive in
  let b := append_int 1 (append_int 1 (m_bytecode c) (opcode instruction jumpSize)) value in
  Done (emit_placeholder (set_bytecode c b) jumpSize longest instructionLocation (instructionLocation + 2 * 1) destinationNodeIndex).

Definition emitCheckValueRange (c : compiler) (lowValue highValue sourceNodeIndex destinationNodeIndex : Z) (caseSensitive : bool) : outcome compiler :=
  let instructionLocation := vsize (m_bytecode c) in
  let* longest := longestPossibleJump c instructionLocation sourceNodeIndex destinationNodeIndex in
  let jumpSize := smallestPossibleJumpSize longest in
  let instruction := if caseSensitive then CheckValueRangeCaseSensitive else CheckValueRangeCaseInsensitive in
  let b := append_int 1 (append_int 1 (append_int 1 (m_bytecode c) (opcode instruction jumpSize)) lowValue) highValue in
  Done (emit_placeholder (set_bytecode c b) jumpSize longest instructionLocation (instructionLocation + 3 * 1) destinationNodeIndex).

Definition emitTerminate (c : compiler) : compiler :=
  set_bytecode c (append_int 1 (m_bytecode c) (instruction_code Terminate)).

Definition compileJumpTable (nodeIndex : Z) (c : compiler) (t : JumpTable) : outcome compiler :=
  let instructionLocation := vsize (m_bytecode c) in
  let* jumpSize := ofold (fun s destinationNodeIndex =>
      let* longest := longestPossibleJump c instructionLocation nodeIndex destinationNodeIndex in
      Done (jump_size_max s (smallestPossibleJumpSize longest))) Int8 (jt_destinations t) in
  let instruction := if jt_caseSensitive t then JumpTableCaseSensitive else JumpTableCaseInsensitive in
  let b := append_int 1 (append_int 1 (append_int 1 (m_bytecode c) (opcode instruction jumpSize)) (jt_min t)) (jt_max t) in
  ofold (fun c destinationNodeIndex =>
      let* longest := longestPossibleJump c instructionLocation nodeIndex destinationNodeIndex in
      let jumpLocation := vsize (m_bytecode c) in
      Done (emit_placeholder c jumpSize longest instructionLocation jumpLocation destinationNodeIndex))
    (set_bytecode c b) (jt_destinations t).

Definition compileCheckForRange (nodeIndex : Z) (c : compiler) (r : Range) : outcome compiler :=
  if r_min r =? r_max r
  then emitCheckValue c (r_min r) nodeIndex (r_destination r) (r_caseSensitive r)
  else emitCheckValueRange c (r_min r) (r_max r) nodeIndex (r_destination r) (r_caseSensitive r).

Definition compileNodeTransitions (dfa : DFA) (c : compiler) (nodeIndex : Z) : outcome compiler :=
  let* node := vget (dfa_nodes dfa) nodeIndex in
  let* t := compiler_transitions dfa node in
  let* c1 := ofold (compileJumpTable nodeIndex) c (t_jumpTables t) in
  let* c2 := ofold (compileCheckForRange nodeIndex) c1 (t_ranges t) in
  if t_useFallbackTransition t
  then emitJump c2 nodeIndex (t_fallbackTransitionTarget t)
  else Done (emitTerminate c2).

Definition compileNode (dfa : DFA) (c : compiler) (index : Z) (root : bool) : outcome compiler :=
  let* node := vget (dfa_nodes dfa) index in
  if isKilled node then Done c else
  let* c1 := if root then Done c
             else let* v := vset (m_nodeStartOffsets c) index (vsize (m_bytecode c)) in
                  Done (set_nodeStartOffsets c v) in
  let* actions := node_actions node dfa in
  let c2 := foldl emitAppendAction c1 actions in
  let* c3 := if root
             then let* v := vset (m_nodeStartOffsets c2) index (vsize (m_bytecode c2)) in
                  Done (set_nodeStartOffsets c2 v)
             else Done c2 in
  compileNodeTransitions dfa c3 index.

(** ** Layout and linking *)

(** [m_maxNodeStartOffsets]: where each node would start if no jump were
    compacted; the root comes first. *)
Definition max_offsets (dfa : DFA) : outcome (list Z) :=
  let root := dfa_root dfa in
  let* rootNode := vget (dfa_nodes dfa) root in
  let* rootActions := node_actions rootNode dfa in
  let* v := vset (replicate (length (dfa_nodes dfa)) 0) root
                 (u32 (4 + sum_sizes appendActionBytecodeSize rootActions)) in
  let* rootSize := compiledNodeMaxBytecodeSize dfa root in
  let* (v', _) := ofold (fun '(v, nextIndex) i =>
      if negb (i =? root) then
        let* v' := vset v i nextIndex in
        let* size := compiledNodeMaxBytecodeSize dfa i in
        Done (v', u32 (nextIndex + size))
      else Done (v, nextIndex)) (v, u32 (4 + rootSize)) (seqZ 0 (vsize (dfa_nodes dfa))) in
  Done v'.

(** One iteration of the link loop. *)
Definition link_one (nodeStartOffsets : list Z) (bytecode : list Z) (r : LinkRecord) : outcome (list Z) :=
  let* destination := vget nodeStartOffsets (lr_destinationNodeIndex r) in
  let* _ := release_assert (destination <? INT32_MAX) in
  let distance := i32 (u32 (destination - lr_instructionLocation r)) in
  let at_ := lr_jumpLocation r in
  match lr_jumpSize r with
  | Int8 =>
      let* _ := release_assert (distance =? i8 distance) in
      setBits 1 bytecode at_ (i8 distance)
  | Int16 =>
      let* _ := release_assert (distance =? i16 distance) in
      setBits 2 bytecode at_ (i16 distance)
  | Int24 =>
      let* _ := release_assert ((Int24Min <=? distance) && (distance <=? Int24Max)) in
      let* b := setBits 2 bytecode at_ (u16 distance) in
      setBits 1 b (at_ + 2) (i8 (Z.shiftr distance 16))
  | Int32 => setBits 4 bytecode at_ distance
  end.

(** The node order: the root, then the other nodes by index. *)
Definition compile_nodes (dfa : DFA) (c : compiler) : outcome compiler :=
  let* c1 := compileNode dfa c (dfa_root dfa) true in
  ofold (fun c i => if negb (i =? dfa_root dfa) then compileNode dfa c i false else Done c)
        c1 (seqZ 0 (vsize (dfa_nodes dfa))).

(** [DFABytecodeCompiler::compile()], appending to [bytecode]. *)
Definition compile (dfa : DFA) (bytecode : list Z) : outcome (list Z) :=
  let startLocation := vsize bytecode in
  let b := append_int 4 bytecode 0 in
  let* maxOffsets := max_offsets dfa in
  let* c := compile_nodes dfa (mkCompiler b maxOffsets (replicate (length (dfa_nodes dfa)) UINT32_MAX) []) in
  let* linked := ofold (link_one (m_nodeStartOffsets c)) (m_bytecode c) (m_linkRecords c) in
  setBits 4 linked startLocation (vsize linked - startLocation).
