(* ===== verification/BytecodeInterpreter.v ===== *)
(** * Running the bytecode (DFABytecodeInterpreter.h/.cpp)

    A URL is the list of its [char]s; reading at its length yields the
    terminating zero, as on the underlying C string. *)

From S2P Require Import Prelude Containers ResourceLoad Bytecode.

(** [url[urlIndex]]. *)
Definition url_at (url : list Z) (i : Z) : outcome Z := vget (url ++ [0]) i.

Section Interpreter.
Context `{HashOrder}.

(** [DFABytecodeInterpreter::Actions]. *)
Abbreviation Actions := (list Z).

(** [m_domainActions] is a null pointer or the set of domain actions. *)
Context (bytecode : list Z) (domainActions : option (list Z)).

Definition m_bytecodeLength : Z := vsize bytecode.

Definition matchesDomain (actionAndFlags : Z) (domainActions : Actions) : bool :=
  let ifDomain := negb (Z.land actionAndFlags IfDomainFlag =? 0) in
  let domain := hs_contains domainActions actionAndFlags in
  Bool.eqb ifDomain domain.

Definition domain_allows (action : Z) : bool :=
  match domainActions with
  | None => true
  | Some d => matchesDomain action d
  end.

(** [interpretAppendAction]: returns the new program counter and actions. *)
Definition interpretAppendAction (programCounter : Z) (actions : Actions) (ifDomain : bool) : outcome (Z * Actions) :=
  let* location := getBits_u32 bytecode (programCounter + 1) in
  let action := Z.lor (if ifDomain then IfDomainFlag else 0) location in
  let actions' := if domain_allows action then hs_add actions action else actions in
  let* size := instructionSizeWithArguments AppendAction in
  Done (u32 (programCounter + size), actions').

(** [interpretTestFlagsAndAppendAction]. *)
Definition interpretTestFlagsAndAppendAction (programCounter flags : Z) (actions : Actions) (ifDomain : bool) : outcome (Z * Actions) :=
  let* flagsToCheck := getBits_u16 bytecode (programCounter + 1) in
  let loadTypeFlags := Z.land flagsToCheck LoadTypeMask in
  let resourceTypeFlags := Z.land flagsToCheck ResourceTypeMask in
  let loadTypeMatches := if negb (loadTypeFlags =? 0) then negb (Z.land loadTypeFlags flags =? 0) else true in
  let resourceTypeMatches := if negb (resourceTypeFlags =? 0) then negb (Z.land resourceTypeFlags flags =? 0) else true in
  let* actions' :=
    if loadTypeMatches && resourceTypeMatches then
      let* location := getBits_u32 bytecode (programCounter + 1 + 2) in
      let actionAndFlags :=
        Z.lor (if ifDomain then IfDomainFlag else 0) (Z.lor (Z.shiftl flagsToCheck 32) location) in
      Done (if domain_allows actionAndFlags then hs_add actions actionAndFlags else actions)
    else Done actions in
  let* size := instructionSizeWithArguments TestFlagsAndAppendAction in
  Done (u32 (programCounter + size), actions').

(** The variables of the inner loop. *)
Record state := mkState {
  programCounter : Z;
  urlIndex : Z;
  urlIndexIsAfterEndOfString : bool;
  st_actions : list Z
}.

Definition at_pc (s : state) (pc : Z) : state :=
  mkState pc (urlIndex s) (urlIndexIsAfterEndOfString s) (st_actions s).

(** Following an edge: jump, note the end of the string, advance. *)
Definition take_edge (s : state) (character distance : Z) : state :=
  mkState (u32 (programCounter s + distance)) (u32 (urlIndex s + 1))
          (urlIndexIsAfterEndOfString s || (character =? 0)) (st_actions s).

(** [interpetJumpTable<caseSensitive>]. *)
Definition interpetJumpTable (caseSensitive : bool) (url : list Z) (s : state) : outcome state :=
  let pc := programCounter s in
  let* jumpSize := getJumpSize bytecode pc in
  let* c := url_at url (urlIndex s) in
  let character := if caseSensitive then c else toASCIILower c in
  let* firstCharacter := getBits_u8 bytecode (pc + 1) in
  let* lastCharacter := getBits_u8 bytecode (pc + 1 + 1) in
  if (firstCharacter <=? character) && (character <=? lastCharacter) then
    let startOffset := pc + 1 + 2 * 1 in
    let jumpLocation := startOffset + (character - firstCharacter) * jumpSizeInBytes jumpSize in
    let* distance := getJumpDistance bytecode jumpLocation jumpSize in
    Done (take_edge s character distance)
  else
    Done (at_pc s (u32 (pc + 1 + 2 * 1 + jumpSizeInBytes jumpSize * (lastCharacter - firstCharacter + 1)))).

Definition interpret_check_value (caseSensitive : bool) (url : list Z) (s : state) : outcome state :=
  let pc := programCounter s in
  let* c := url_at url (urlIndex s) in
  let character := if caseSensitive then c else toASCIILower c in
  let* jumpSize := getJumpSize bytecode pc in
  let* value := getBits_u8 bytecode (pc + 1) in
  if character =? value then
    let* distance := getJumpDistance bytecode (pc + 1 + 1) jumpSize in
    Done (take_edge s character distance)
  else Done (at_pc s (u32 (pc + 1 + 1 + jumpSizeInBytes jumpSize))).

Definition interpret_check_range (caseSensitive : bool) (url : list Z) (s : state) : outcome state :=
  let pc := programCounter s in
  let* c := url_at url (urlIndex s) in
  let character := if caseSensitive then c else toASCIILower c in
  let* jumpSize := getJumpSize bytecode pc in
  let* low := getBits_u8 bytecode (pc + 1) in
  let* high := getBits_u8 bytecode (pc + 1 + 1) in
  if (low <=? character) && (character <=? high) then
    let* distance := getJumpDistance bytecode (pc + 1 + 2 * 1) jumpSize in
    Done (take_edge s character distance)
  else Done (at_pc s (u32 (pc + 1 + 2 * 1 + jumpSizeInBytes jumpSize))).

(** One iteration of the inner loop; [None] is [goto nextDFA]. *)
Definition interpret_instruction (url : list Z) (flags : Z) (s : state) : outcome (option state) :=
  let pc := programCounter s in
  let* instruction := getInstruction bytecode pc in
  let unless_after_end (m : outcome state) : outcome (option state) :=
    if urlIndexIsAfterEndOfString s then Done None else let* s' := m in Done (Some s') in
  let with_actions (m : outcome (Z * list Z)) : outcome (option state) :=
    let* (pc', a) := m in
    Done (Some (mkState pc' (urlIndex s) (urlIndexIsAfterEndOfString s) a)) in
  match instruction with
  | Some Terminate => Done None
  | Some CheckValueCaseSensitive => unless_after_end (interpret_check_value true url s)
  | Some CheckValueCaseInsensitive => unless_after_end (interpret_check_value false url s)
  | Some JumpTableCaseInsensitive => unless_after_end (interpetJumpTable false url s)
  | Some JumpTableCaseSensitive => unless_after_end (interpetJumpTable true url s)
  | Some CheckValueRangeCaseSensitive => unless_after_end (interpret_check_range true url s)
  | Some CheckValueRangeCaseInsensitive => unless_after_end (interpret_check_range false url s)
  | Some Jump =>
      let* c := url_at url (urlIndex s) in
      if (c =? 0) || urlIndexIsAfterEndOfString s then Done None
      else
        let* jumpSize := getJumpSize bytecode pc in
        let* distance := getJumpDistance bytecode (pc + 1) jumpSize in
        Done (Some (mkState (u32 (pc + distance)) (u32 (urlIndex s + 1)) (urlIndexIsAfterEndOfString s) (st_actions s)))
  | Some AppendAction => with_actions (interpretAppendAction pc (st_actions s) false)
  | Some AppendActionWithIfDomain => with_actions (interpretAppendAction pc (st_actions s) true)
  | Some TestFlagsAndAppendAction => with_actions (interpretTestFlagsAndAppendAction pc flags (st_actions s) false)
  | Some TestFlagsAndAppendActionWithIfDomain => with_actions (interpretTestFlagsAndAppendAction pc flags (st_actions s) true)
  | None => Crash
  end.

(** [while (true) switch ...], until [goto nextDFA]. *)
Fixpoint interpret_dfa (fuel : nat) (url : list Z) (flags : Z) (s : state) : outcome (list Z) :=
  match fuel with
  | O => OutOfFuel
  | S fuel' =>
      let* r := interpret_instruction url flags s in
      match r with
      | None => Done (st_actions s)
      | Some s' => interpret_dfa fuel' url flags s'
      end
  end.

(** The loop that skips the unconditional actions on the root of the first
    DFA and tests the conditional ones. *)
Fixpoint skip_root_actions (fuel : nat) (dfaBytecodeLength flags pc : Z) (actions : Actions) : outcome (Z * Actions) :=
  if pc <? dfaBytecodeLength then
    let* instruction := getInstruction bytecode pc in
    match fuel with
    | O => OutOfFuel
    | S fuel' =>
        match instruction with
        | Some AppendAction =>
            let* size := instructionSizeWithArguments AppendAction in
            skip_root_actions fuel' dfaBytecodeLength flags (u32 (pc + size)) actions
        | Some AppendActionWithIfDomain =>
            let* size := instructionSizeWithArguments AppendActionWithIfDomain in
            skip_root_actions fuel' dfaBytecodeLength flags (u32 (pc + size)) actions
        | Some TestFlagsAndAppendAction =>
            let* (pc', a) := interpretTestFlagsAndAppendAction pc flags actions false in
            skip_root_actions fuel' dfaBytecodeLength flags pc' a
        | Some TestFlagsAndAppendActionWithIfDomain =>
            let* (pc', a) := interpretTestFlagsAndAppendAction pc flags actions true in
            skip_root_actions fuel' dfaBytecodeLength flags pc' a
        | _ => Done (pc, actions)
        end
    end
  else Done (pc, actions).

(** The outer loop over the DFAs of the stream. *)
Fixpoint interpret_stream (fuel innerFuel : nat) (url : list Z) (flags pc : Z) (actions : Actions) : outcome Actions :=
  if pc <? m_bytecodeLength then
    match fuel with
    | O => OutOfFuel
    | S fuel' =>
        let dfaStart := pc in
        let* dfaBytecodeLength := getBits_u32 bytecode pc in
        let pc1 := u32 (pc + 4) in
        let* (pc2, actions2) :=
          if dfaStart =? 0 then skip_root_actions innerFuel dfaBytecodeLength flags pc1 actions
          else Done (pc1, actions) in
        if (dfaStart =? 0) && (m_bytecodeLength <=? pc2) then Done actions2
        else
          let* actions3 := interpret_dfa innerFuel url flags (mkState pc2 0 false actions2) in
          interpret_stream fuel' innerFuel url flags (u32 (dfaStart + dfaBytecodeLength)) actions3
    end
  else Done actions.

(** Bounds that are never reached on compiled bytecode: see
    [BytecodeCorrect.v]. *)
Definition stream_fuel : nat := S (length bytecode).
Definition inner_fuel (url : list Z) : nat := (S (S (length url)) * S (S (length bytecode)))%nat.

(** [DFABytecodeInterpreter::interpret(url, flags)]. *)
Definition interpret (url : list Z) (flags : Z) : outcome Actions :=
  interpret_stream stream_fuel (inner_fuel url) url flags 0 [].

(** [DFABytecodeInterpreter::actionsMatchingEverything()]. *)
Fixpoint matching_everything_loop (fuel : nat) (dfaBytecodeLength pc : Z) (actions : Actions) : outcome Actions :=
  if pc <? dfaBytecodeLength then
    let* instruction := getInstruction bytecode pc in
    match fuel with
    | O => OutOfFuel
    | S fuel' =>
        match instruction with
        | Some AppendAction =>
            let* (pc', a) := interpretAppendAction pc actions false in
            matching_everything_loop fuel' dfaBytecodeLength pc' a
        | Some AppendActionWithIfDomain =>
            let* (pc', a) := interpretAppendAction pc actions true in
            matching_everything_loop fuel' dfaBytecodeLength pc' a
        | Some TestFlagsAndAppendAction =>
            let* size := instructionSizeWithArguments TestFlagsAndAppendAction in
            matching_everything_loop fuel' dfaBytecodeLength (u32 (pc + size)) actions
        | Some TestFlagsAndAppendActionWithIfDomain =>
            let* size := instructionSizeWithArguments TestFlagsAndAppendActionWithIfDomain in
            matching_everything_loop fuel' dfaBytecodeLength (u32 (pc + size)) actions
        | _ => Done actions
        end
    end
  else Done actions.

Definition actionsMatchingEverything : outcome Actions :=
  let* dfaBytecodeLength := getBits_u32 bytecode 0 in
  matching_everything_loop (S (length bytecode)) dfaBytecodeLength 4 [].
End Interpreter.

(** [interpretWithDomains(url, flags, domainActions)]: [interpret] with
    [m_domainActions] set for the duration of the call. *)
Definition interpretWithDomains `{HashOrder} (bytecode url : list Z) (flags : Z) (domainActions : list Z) : outcome (list Z) :=
  interpret bytecode (Some domainActions) url flags.
