(* ===== verification/TransitionTables.v ===== *)
(** * The transition tables of the bytecode compiler are exact

    [DFABytecodeCompiler::transitions] turns the transitions of a node into
    character ranges and jump tables, merging upper and lower case.  This file
    shows that the tables it returns send each ASCII character exactly where
    the transitions of the node send it. *)

From stdpp Require Import gmap.
From S2P Require Import Prelude Containers Dfa Bytecode BytecodeCompiler.

(** ** What a table does with a character *)

Definition fold_case (caseSensitive : bool) (c : Z) : Z := if caseSensitive then c else toASCIILower c.

(** The range instruction for [r] is taken on [c]. *)
Definition range_hits (r : Range) (c : Z) : bool :=
  let c' := fold_case (r_caseSensitive r) c in (r_min r <=? c') && (c' <=? r_max r).

(** The jump-table instruction for [t] is taken on [c], to this destination. *)
Definition table_hit (t : JumpTable) (c : Z) : option Z :=
  let c' := fold_case (jt_caseSensitive t) c in
  if (jt_min t <=? c') && (c' <=? jt_max t) then jt_destinations t !! Z.to_nat (c' - jt_min t) else None.

(** Some instruction among the tables and ranges sends [c] to [d]. *)
Definition sends (tables : list JumpTable) (ranges : list Range) (c d : Z) : Prop :=
  (exists t, t ∈ tables /\ table_hit t c = Some d) \/
  (exists r, r ∈ ranges /\ range_hits r c = true /\ r_destination r = d).

(** Bounds are characters; a case-insensitive range starts at a character that
    folding leaves alone. *)
Definition range_wf (r : Range) : Prop :=
  0 <= r_min r <= r_max r /\ r_max r < 128 /\ fold_case (r_caseSensitive r) (r_min r) = r_min r.

Definition table_wf (t : JumpTable) : Prop :=
  0 <= jt_min t <= jt_max t /\ jt_max t < 128 /\ vsize (jt_destinations t) = jt_max t - jt_min t + 1 /\
  forall c, jt_min t <= c <= jt_max t -> fold_case (jt_caseSensitive t) c = c.

(** ** Filling the 128-entry table *)

Lemma ofold_vset_const {A} (x : A) v l :
  Forall (fun i => 0 <= i < vsize v) l ->
  exists v', ofold (fun v i => vset v i x) v l = Done v' /\ vsize v' = vsize v /\
    forall i, vget v' i = if bool_decide (i ∈ l) then Done x else vget v i.
Proof.
  revert v. induction l as [|k l IH]; intros v Hl; cbn [ofold].
  - exists v. split_and!; [done..|]. intros i. rewrite bool_decide_false; [done|]. by apply not_elem_of_nil.
  - apply Forall_cons in Hl as [Hk Hl]. rewrite vset_Done by done. cbn [obind].
    destruct (IH (<[Z.to_nat k:=x]> v)) as (v' & -> & Hs & Hv).
    { by rewrite vsize_insert. }
    exists v'. rewrite Hs, vsize_insert. split_and!; [done..|]. intros i. rewrite Hv, vget_insert by done.
    repeat case_bool_decide; destruct (Z.eqb_spec i k); try done; exfalso;
      rewrite elem_of_cons in *; naive_solver.
Qed.

Lemma vget_replicate {A} (x : A) n i : 0 <= i < Z.of_nat n -> vget (replicate n x) i = Done x.
Proof.
  intros Hi. apply vget_Done. split; [lia|]. apply lookup_replicate_2. lia.
Qed.

Lemma fill_destinations_spec v t :
  vsize v = 128 -> 0 <= tr_first t -> tr_last t < 128 -> tr_first t <= tr_last t ->
  exists v', fill_destinations v t = Done v' /\ vsize v' = 128 /\
    forall i, vget v' i = if covers t i then Done (tr_target t) else vget v i.
Proof.
  intros Hv H1 H2 H3. unfold fill_destinations. rewrite u16_small by lia.
  destruct (ofold_vset_const (tr_target t) v (seqZ (tr_first t) (tr_last t - tr_first t + 1))) as (v' & E & Hs & Hg).
  { apply Forall_forall. intros i. rewrite elem_of_seqZ. lia. }
  exists v'. split_and!; [done|lia|]. intros i. rewrite Hg. unfold covers.
  case_bool_decide as Hi; rewrite elem_of_seqZ in Hi; ztest; try done; lia.
Qed.

(** The table holds, for each character, the target of the node's transition
    on it, unless that is the fallback target. *)
Definition table_entry (useFallback : bool) (fallback : Z) (ts : list DFATransition) (c : Z) : Z :=
  match trans_target ts c with
  | Some n => if useFallback && (fallback =? n) then noDestination else n
  | None => noDestination
  end.

Lemma build_destinations_from uf fb ts v lo :
  sorted_from lo ts -> 0 <= lo -> vsize v = 128 ->
  (forall i, lo <= i < 128 -> vget v i = Done noDestination) ->
  exists v', ofold (fun v t => if uf && (fb =? tr_target t) then Done v else fill_destinations v t) v ts = Done v' /\
    vsize v' = 128 /\
    forall i, 0 <= i < 128 -> vget v' i = if i <? lo then vget v i else Done (table_entry uf fb ts i).
Proof.
  intros Hs. revert v. induction Hs as [lo|lo t ts H1 H2 H3 Hs IH]; intros v Hlo Hv Hi; simpl.
  - exists v. split_and!; [done..|]. intros i Hi'. unfold table_entry. simpl. ztest; [done|]. apply Hi. lia.
  - assert (Hstep : exists v1, (if uf && (fb =? tr_target t) then Done v else fill_destinations v t) = Done v1 /\
       vsize v1 = 128 /\ forall i, 0 <= i < 128 ->
         vget v1 i = if covers t i then Done (if uf && (fb =? tr_target t) then noDestination else tr_target t) else vget v i).
    { destruct (uf && (fb =? tr_target t)).
      - exists v. split_and!; [done..|]. intros i ?. unfold covers. ztest; try done. apply Hi. lia.
      - destruct (fill_destinations_spec v t) as (v1 & -> & ? & Hg); try lia. by exists v1. }
    destruct Hstep as (v1 & -> & Hv1 & Hg1). simpl.
    destruct (IH v1) as (v' & -> & Hv' & Hg'); [lia|done| |].
    { intros i ?. rewrite Hg1 by lia. unfold covers. ztest; try lia; apply Hi; lia. }
    exists v'. split_and!; [done..|]. intros i ?. rewrite Hg', Hg1 by done.
    unfold table_entry. simpl. unfold covers.
    destruct (Z.ltb_spec i lo), (Z.ltb_spec i (tr_last t + 1)), (Z.leb_spec (tr_first t) i),
      (Z.leb_spec i (tr_last t)); simpl; try lia; try done.
    all: rewrite Hi by lia; destruct (trans_target ts i) eqn:E; [|done];
      apply (trans_target_range _ _ _ _ Hs) in E; lia.
Qed.

Lemma build_destinations_spec uf fb ts :
  sorted_from 0 ts ->
  exists v, build_destinations uf fb ts = Done v /\ vsize v = 128 /\
    forall i, 0 <= i < 128 -> vget v i = Done (table_entry uf fb ts i).
Proof.
  intros Hs. destruct (build_destinations_from uf fb ts (replicate 128 noDestination) 0) as (v & E & Hv & Hg); try done.
  - intros i Hi. apply vget_replicate. lia.
  - exists v. split_and!; [done..|]. intros i Hi. rewrite Hg by done. ztest; [lia|done].
Qed.

(** ** From the table to ranges *)

Lemma case_differs_spec v d l :
  Forall (fun j => 0 <= toASCIILower j < vsize v) l ->
  exists b, case_differs v d l = Done b /\ (b = false -> forall j, j ∈ l -> vget v (toASCIILower j) = Done d).
Proof.
  induction 1 as [|j l Hj Hl IH]; simpl.
  - exists false. split; [done|]. intros _ j Hj. by apply elem_of_nil in Hj.
  - destruct (vget_total v (toASCIILower j) Hj) as (x & Ex & _). rewrite Ex. simpl.
    destruct (Z.eqb_spec d x); simpl.
    + destruct IH as (b & -> & Hb). exists b. split; [done|]. intros -> k [->|Hk]%elem_of_cons; [congruence|auto].
    + exists true. done.
Qed.

Lemma elem_of_char_seq lo hi c : c ∈ char_seq lo hi <-> lo <= c <= hi.
Proof. unfold char_seq. rewrite elem_of_seqZ. lia. Qed.

Lemma upper_lower c : 65 <= c <= 90 -> toASCIILower c = c + 32.
Proof.
  intros Hc. rewrite toASCIILower_spec by lia. unfold isASCIIUpper. ztest; lia.
Qed.

(** The characters a case-insensitive range over upper-case letters takes. *)
Lemma insensitive_hits lo hi d c :
  65 <= lo -> hi <= 90 -> 0 <= c < 128 ->
  range_hits (mkRange (lo + 32) (hi + 32) d false) c = true <-> (lo <= c <= hi \/ lo + 32 <= c <= hi + 32).
Proof.
  intros H1 H2 Hc. unfold range_hits, fold_case. simpl. rewrite toASCIILower_spec by done.
  unfold isASCIIUpper. destruct (Z.leb_spec 65 c), (Z.leb_spec c 90); simpl; rewrite andb_true_iff, !Z.leb_le; lia.
Qed.

Section CollectRanges.
(** The table being compiled, as a function. *)
Context (D0 : Z -> Z).

(** Ranges never send a character elsewhere than the table... *)
Definition ranges_sound (rs : list Range) : Prop :=
  forall r c, r ∈ rs -> 0 <= c < 128 -> range_hits r c = true ->
    r_destination r = D0 c /\ D0 c <> noDestination.

(** ...and take every character below [base] that has a destination. *)
Definition ranges_complete (rs : list Range) (base : Z) : Prop :=
  forall c, 0 <= c < base -> D0 c <> noDestination -> exists r, r ∈ rs /\ range_hits r c = true.

Record scan_inv (i : Z) (s : scan) : Prop := {
  si_size : vsize (sc_destinations s) = 128;
  si_table : forall c, 0 <= c < 128 ->
    vget (sc_destinations s) c = Done (D0 c) \/
    (vget (sc_destinations s) c = Done noDestination /\ exists r, r ∈ sc_ranges s /\ range_hits r c = true);
  si_wf : Forall range_wf (sc_ranges s);
  si_sound : ranges_sound (sc_ranges s);
  si_complete : ranges_complete (sc_ranges s) (default i (sc_rangeMin s));
  si_open : forall rm, sc_rangeMin s = Some rm -> 0 <= rm < i /\
    exists d, d <> noDestination /\ forall j, rm <= j < i -> vget (sc_destinations s) j = Done d
}.

Lemma si_value i s c d : scan_inv i s -> vget (sc_destinations s) c = Done d -> d <> noDestination -> D0 c = d.
Proof.
  intros Hi Hd Hn. pose proof (vget_range _ _ _ Hd) as Hr. rewrite (si_size i) in Hr by done.
  destruct (si_table i s Hi c Hr) as [E|[E _]]; congruence.
Qed.

Lemma si_no_destination i s c :
  scan_inv i s -> vget (sc_destinations s) c = Done noDestination -> D0 c <> noDestination ->
  exists r, r ∈ sc_ranges s /\ range_hits r c = true.
Proof.
  intros Hi Hd Hn. pose proof (vget_range _ _ _ Hd) as Hr. rewrite (si_size i) in Hr by done.
  destruct (si_table i s Hi c Hr) as [E|[_ E]]; [congruence|done].
Qed.

(** Adding one range that agrees with the table. *)
Lemma ranges_sound_snoc rs r :
  ranges_sound rs ->
  (forall c, 0 <= c < 128 -> range_hits r c = true -> r_destination r = D0 c /\ D0 c <> noDestination) ->
  ranges_sound (rs ++ [r]).
Proof.
  intros Hs Hr r' c Hin Hc Hh. apply elem_of_app in Hin as [Hin|Hin]; [eauto|].
  apply list_elem_of_singleton in Hin as ->. eauto.
Qed.

Lemma ranges_complete_snoc rs r lo hi :
  ranges_complete rs lo -> (forall c, lo <= c <= hi -> range_hits r c = true) ->
  ranges_complete (rs ++ [r]) (hi + 1).
Proof.
  intros Hs Hr c Hc Hd. destruct (Z.lt_ge_cases c lo).
  - destruct (Hs c) as (r' & Hr' & ?); [lia|done|]. exists r'. rewrite elem_of_app. auto.
  - exists r. rewrite elem_of_app, list_elem_of_singleton. split; [by right|]. apply Hr. lia.
Qed.

(** The state after a range is committed, before looking at [i] again. *)
Lemma scan_inv_commit i s rm d v' r :
  scan_inv i s -> sc_rangeMin s = Some rm -> 0 <= i < 128 ->
  vsize v' = 128 -> r_destination r = d -> d <> noDestination -> range_wf r ->
  (forall c, 0 <= c < 128 -> range_hits r c = true -> D0 c = d) ->
  (forall c, rm <= c <= i - 1 -> range_hits r c = true) ->
  (forall c, 0 <= c < 128 -> vget v' c = vget (sc_destinations s) c \/
                             (vget v' c = Done noDestination /\ range_hits r c = true)) ->
  exists di, vget v' i = Done di /\
    scan_inv (i + 1) (mkScan v' (sc_ranges s ++ [r]) (if di =? noDestination then None else Some i)).
Proof.
  intros Hi Hrm Hib Hv' Hrd Hd Hwf Hsound Hcompl Hold.
  destruct (vget_total v' i) as (di & Edi & _); [lia|]. exists di. split; [done|].
  assert (Hc : ranges_complete (sc_ranges s ++ [r]) i).
  { replace i with (i - 1 + 1) by lia. apply ranges_complete_snoc with rm; [|done].
    pose proof (si_complete i s Hi) as H. by rewrite Hrm in H. }
  assert (Ht : forall c, 0 <= c < 128 -> vget v' c = Done (D0 c) \/
      (vget v' c = Done noDestination /\ exists r', r' ∈ sc_ranges s ++ [r] /\ range_hits r' c = true)).
  { intros c Hc'. destruct (Hold c Hc') as [->|[-> Hh]].
    - destruct (si_table i s Hi c Hc') as [->|(-> & r' & ? & ?)]; [by left|right].
      split; [done|]. exists r'. rewrite elem_of_app. auto.
    - right. split; [done|]. exists r. rewrite elem_of_app, list_elem_of_singleton. auto. }
  constructor; simpl; try done.
  - apply Forall_app. split; [exact (si_wf i s Hi)|]. by constructor.
  - apply ranges_sound_snoc; [exact (si_sound i s Hi)|]. intros c Hc' Hh.
    rewrite (Hsound c Hc' Hh), Hrd. done.
  - destruct (Z.eqb_spec di noDestination) as [->|]; simpl; [|done].
    intros c Hc' Hn. destruct (Z.eq_dec c i) as [->|]; [|apply Hc; [lia|done]].
    destruct (Ht i) as [E|[_ E]]; [lia|congruence|done].
  - intros rm'. destruct (Z.eqb_spec di noDestination); intros [= <-].
    split; [lia|]. exists di. split; [done|]. intros j Hj. by replace j with i by lia.
Qed.

Lemma commit_range_inv i s rm :
  scan_inv i s -> sc_rangeMin s = Some rm -> 0 <= i < 128 ->
  exists s', commit_range s rm i = Done s' /\ scan_inv (i + 1) s'.
Proof.
  intros Hi Hrm Hib. destruct (si_open i s Hi rm Hrm) as [Hrmi (d & Hd & Hopen)].
  pose proof (si_size i s Hi) as Hsz. assert (Edm : vget (sc_destinations s) rm = Done d) by (apply Hopen; lia).
  assert (HD : forall c, rm <= c <= i - 1 -> D0 c = d).
  { intros c Hc. eapply si_value; [exact Hi| |done]. apply Hopen. lia. }
  unfold commit_range. rewrite Edm. cbn [obind]. rewrite (u8_small (i - 1)) by lia.
  set (sensitive := mkRange rm (i - 1) d true).
  assert (Hsens : exists di, vget (sc_destinations s) i = Done di /\ scan_inv (i + 1)
     (mkScan (sc_destinations s) (sc_ranges s ++ [sensitive]) (if di =? noDestination then None else Some i))).
  { apply (scan_inv_commit i s rm d); try done.
    - unfold range_wf. simpl. split_and!; (lia || done).
    - intros c Hc Hh. unfold range_hits, fold_case in Hh. simpl in Hh. zprop. apply HD. lia.
    - intros c Hc. unfold range_hits, fold_case. simpl. zprop. lia.
    - auto. }
  destruct ((65 <=? rm) && (i - 1 <=? 90)) eqn:Eupper; cbn [obind].
  2:{ rewrite Edm. cbn [obind]. destruct Hsens as (di & -> & ?). cbn [obind]. eauto. }
  zprop. destruct (case_differs_spec (sc_destinations s) d (char_seq rm (i - 1))) as (b & -> & Hb).
  { apply Forall_forall. intros j. rewrite elem_of_char_seq. intros. rewrite upper_lower by lia. lia. }
  cbn [obind]. destruct b; cbn [obind].
  { rewrite Edm. cbn [obind]. destruct Hsens as (di & -> & ?). cbn [obind]. eauto. }
  specialize (Hb eq_refl). rewrite <- (ofold_map (fun v k => vset v k noDestination) toASCIILower).
  destruct (ofold_vset_const noDestination (sc_destinations s) (map toASCIILower (char_seq rm (i - 1)))) as (v' & Ev & Hv' & Hg).
  { apply Forall_forall. intros k Hk. apply list_elem_of_fmap in Hk as (j & -> & Hj).
    rewrite elem_of_char_seq in Hj. rewrite upper_lower by lia. lia. }
  assert (Hblank : forall c, c ∈ map toASCIILower (char_seq rm (i - 1)) <-> rm + 32 <= c <= i - 1 + 32).
  { intros c. change (map toASCIILower) with (fmap (M:=list) toASCIILower). rewrite list_elem_of_fmap. split.
    - intros (j & -> & Hj). rewrite elem_of_char_seq in Hj. rewrite upper_lower; lia.
    - intros Hc. exists (c - 32). rewrite elem_of_char_seq, upper_lower; lia. }
  rewrite Ev. cbn [obind]. rewrite Hg, bool_decide_false by (rewrite Hblank; lia). rewrite Edm. cbn [obind].
  rewrite !upper_lower by lia.
  destruct (scan_inv_commit i s rm d v' (mkRange (rm + 32) (i - 1 + 32) d false)) as (di & -> & Hinv); try done; try lia.
  - unfold range_wf, fold_case. simpl. rewrite toASCIILower_spec by lia. unfold isASCIIUpper.
    ztest; split_and!; lia.
  - intros c Hc [Hh|Hh]%insensitive_hits; try lia; [apply HD; lia|].
    eapply si_value; [exact Hi| |done]. replace c with (toASCIILower (c - 32)) by (rewrite upper_lower; lia).
    apply Hb. rewrite elem_of_char_seq. lia.
  - intros c Hc. apply insensitive_hits; lia.
  - intros c Hc. rewrite Hg. case_bool_decide as Hbl; [right|by left].
    split; [done|]. apply Hblank in Hbl. apply insensitive_hits; lia.
  - cbn [obind]. eauto.
Qed.

Lemma scan_step_inv i s :
  scan_inv i s -> 0 <= i < 128 -> exists s', scan_step s i = Done s' /\ scan_inv (i + 1) s'.
Proof.
  intros Hi Hib. pose proof (si_size i s Hi) as Hsz. unfold scan_step.
  destruct (vget_total (sc_destinations s) i) as (di & Edi & _); [lia|]. rewrite Edi. cbn [obind].
  destruct (sc_rangeMin s) as [rm|] eqn:Erm.
  - destruct (si_open i s Hi rm Erm) as [Hrmi (d & Hd & Hopen)].
    rewrite (Hopen rm) by lia. cbn [obind]. destruct (Z.eqb_spec di d) as [->|]; simpl.
    + exists s. split; [done|]. destruct Hi. constructor; try done; rewrite ?Erm in *; simpl in *; [done|].
      intros ? [= <-]. split; [lia|]. exists d. split; [done|]. intros j Hj.
      destruct (Z.eq_dec j i) as [->|]; [done|]. apply Hopen. lia.
    + by apply commit_range_inv.
  - destruct (Z.eqb_spec di noDestination) as [->|Hn]; simpl.
    + exists s. split; [done|]. pose proof (fun c => si_no_destination i s c Hi) as Hno.
      destruct Hi. constructor; try done; rewrite ?Erm in *; simpl in *; [|done].
      intros c Hc Hn. destruct (Z.eq_dec c i) as [->|]; [auto|]. apply si_complete0; [lia|done].
    + eexists. split; [done|]. destruct Hi. constructor; simpl; try done; rewrite ?Erm in *; simpl in *; [done|].
      intros ? [= <-]. split; [lia|]. exists di. split; [done|]. intros j Hj. by replace j with i by lia.
Qed.

(** [collect_ranges]: exact on the whole alphabet. *)
Lemma collect_ranges_spec v :
  vsize v = 128 -> (forall c, 0 <= c < 128 -> vget v c = Done (D0 c)) ->
  exists rs, collect_ranges v = Done rs /\ Forall range_wf rs /\ ranges_sound rs /\ ranges_complete rs 128.
Proof.
  intros Hv Ht. unfold collect_ranges.
  destruct (ofold_total scan_step (fun done s => scan_inv (vsize done) s) (mkScan v [] None) (seqZ 0 128)) as (s & -> & Hs).
  - intros done i s Hinv [k Hk]. rewrite vsize_app. change (vsize [i]) with 1.
    assert (Hl : seqZ 0 128 !! length done = Some i).
    { rewrite Hk, <- app_assoc. change ([i] ++ k) with (i :: k). by apply list_lookup_middle. }
    apply lookup_seqZ in Hl as [-> Hlt]. replace (0 + Z.of_nat (length done)) with (vsize done) by (unfold vsize; lia).
    apply scan_step_inv; [done|]. unfold vsize. lia.
  - constructor; simpl; auto; try done.
    + intros r c Hr. by apply elem_of_nil in Hr.
    + intros c Hc. unfold vsize in Hc. simpl in Hc. lia.
  - change (vsize (seqZ 0 128)) with 128 in Hs. cbn [obind].
    pose proof (si_sound _ _ Hs). pose proof (si_wf _ _ Hs). pose proof (si_complete _ _ Hs) as Hc.
    destruct (sc_rangeMin s) as [rm|] eqn:Erm; simpl in Hc; [|eauto].
    destruct (si_open _ s Hs rm Erm) as [Hrmi (d & Hd & Hopen)]. rewrite (Hopen rm) by lia. cbn [obind].
    eexists. split; [done|]. split_and!.
    + apply Forall_app. split; [done|]. constructor; [|done]. unfold range_wf. simpl. split_and!; (lia || done).
    + apply ranges_sound_snoc; [done|]. intros c Hc' Hh. unfold range_hits, fold_case in Hh. simpl in *. zprop.
      rewrite (si_value _ s c d Hs); [done| |done]. apply Hopen. lia.
    + replace 128 with (127 + 1) by lia. apply ranges_complete_snoc with rm; [done|].
      intros c Hc'. unfold range_hits, fold_case. simpl. zprop. lia.
Qed.
End CollectRanges.

(** ** From ranges to jump tables *)

(** Consecutive single characters from [m] on, of one case sensitivity. *)
Inductive is_run (cs : bool) : Z -> list Range -> Prop :=
| run_nil m : is_run cs m []
| run_cons m r l : r_min r = m -> r_max r = m -> r_caseSensitive r = cs ->
    is_run cs (m + 1) l -> is_run cs m (r :: l).

Lemma is_run_snoc cs m l r :
  is_run cs m l -> r_min r = m + vsize l -> r_max r = r_min r -> r_caseSensitive r = cs -> is_run cs m (l ++ [r]).
Proof.
  intros Hr. induction Hr as [m|m r' l ? ? ? Hr IH]; intros G1 G2 G3; simpl.
  - change (vsize []) with 0 in G1. constructor; try congruence || lia. constructor.
  - constructor; try done. apply IH; try done. rewrite vsize_cons in G1. lia.
Qed.

Lemma is_run_last cs m l r : is_run cs m (l ++ [r]) -> r_max r = m + vsize l /\ r_caseSensitive r = cs.
Proof.
  revert m. induction l as [|r' l IH]; intros m Hr; inversion Hr; subst.
  - change (vsize []) with 0. split; [lia|done].
  - edestruct IH as [-> ->]; [done|]. rewrite vsize_cons. split; [lia|done].
Qed.

(** A jump table over a run takes the same characters to the same places. *)
Lemma run_hits cs m l c d :
  is_run cs m l ->
  (exists r, r ∈ l /\ range_hits r c = true /\ r_destination r = d) <->
  (m <= fold_case cs c < m + vsize l /\ map r_destination l !! Z.to_nat (fold_case cs c - m) = Some d).
Proof.
  intros Hrun. induction Hrun as [m|m r l H1 H2 H3 Hr IH].
  - change (vsize []) with 0. split; [|intros []; lia]. intros (r & Hr & _). by apply elem_of_nil in Hr.
  - rewrite vsize_cons. assert (Hh : range_hits r c = (m =? fold_case cs c)).
    { unfold range_hits. rewrite H1, H2, H3. ztest; try done; lia. }
    split.
    + intros (r' & [->|Hin]%elem_of_cons & Hhit & Hd).
      * rewrite Hh in Hhit. apply Z.eqb_eq in Hhit. pose proof (vsize_nonneg l). rewrite <- Hhit, Z.sub_diag.
        simpl. split; [lia|congruence].
      * destruct IH as [IH _]. destruct IH as [Hb Hl]; [eauto|]. split; [lia|].
        replace (Z.to_nat (fold_case cs c - m)) with (S (Z.to_nat (fold_case cs c - (m + 1)))) by lia. done.
    + intros [Hb Hl]. destruct (Z.eq_dec (fold_case cs c) m) as [E|E].
      * rewrite E, Z.sub_diag in Hl. simpl in Hl. exists r. split; [left|]. rewrite Hh, E, Z.eqb_refl. split; [done|congruence].
      * destruct IH as [_ IH]. destruct IH as (r' & ? & ? & ?); [|exists r'; split; [by right|done]].
        split; [lia|]. by replace (Z.to_nat (fold_case cs c - m)) with (S (Z.to_nat (fold_case cs c - (m + 1)))) in Hl by lia.
Qed.

Lemma vget_middle {A} (pre l : list A) x i post : i = vsize pre + vsize l -> vget (pre ++ (l ++ [x]) ++ post) i = Done x.
Proof.
  intros ->. rewrite <- app_assoc. rewrite app_assoc. change ([x] ++ post) with (x :: post).
  apply vget_app_here. by rewrite vsize_app.
Qed.

Lemma extractJumpTable_spec pre run post cs m :
  is_run cs m run -> run <> [] ->
  exists jt, extractJumpTable (pre ++ run ++ post) (vsize pre) (vsize pre + vsize run - 1) = Done (jt, pre ++ post) /\
    jt_min jt = m /\ jt_max jt = m + vsize run - 1 /\ jt_caseSensitive jt = cs /\
    jt_destinations jt = map r_destination run.
Proof.
  intros Hr Hne. destruct run as [|r0 run0] using rev_ind; [done|]. clear IHrun0. clear Hne. rename r0 into rl.
  pose proof (is_run_last _ _ _ _ Hr) as [Hmax Hcs]. unfold extractJumpTable.
  assert (Hhd : exists rf tl, run0 ++ [rl] = rf :: tl /\ r_min rf = m).
  { destruct run0; inversion Hr; subst; eexists _, _; split; done. }
  destruct Hhd as (rf & tl & Htl & Hrf).
  assert (Ef : vget (pre ++ (run0 ++ [rl]) ++ post) (vsize pre) = Done rf).
  { rewrite Htl. by apply vget_app_here. }
  rewrite Ef. cbn [obind].
  rewrite (vget_middle pre run0 rl) by (rewrite vsize_app; change (vsize [rl]) with 1; lia). cbn [obind].
  replace (vsize pre + vsize (run0 ++ [rl]) - 1 + 1) with (vsize pre + vsize (run0 ++ [rl])) by lia.
  rewrite app_assoc. rewrite (vslice_mono _ _ _ _ (run0 ++ [rl])).
  2:{ apply vslice_app; [apply vsize_nonneg|done|done]. }
  cbn [obind]. eexists. split.
  - do 3 f_equal.
    + rewrite <- app_assoc. unfold vsize. rewrite Nat2Z.id. by rewrite take_app_length.
    + rewrite drop_app_ge; rewrite length_app; unfold vsize; [|lia].
      replace (Z.to_nat _ - _)%nat with 0%nat by lia. done.
  - simpl. rewrite vsize_app. change (vsize [rl]) with 1. split_and!; try done. lia.
Qed.

(** Moving a run into a table changes nothing. *)
Lemma sends_extract tables pre run post jt cs m c d :
  is_run cs m run -> jt_min jt = m -> jt_max jt = m + vsize run - 1 -> jt_caseSensitive jt = cs ->
  jt_destinations jt = map r_destination run ->
  sends (tables ++ [jt]) (pre ++ post) c d <-> sends tables (pre ++ run ++ post) c d.
Proof.
  intros Hr E1 E2 E3 E4. unfold sends.
  assert (Hjt : table_hit jt c = Some d <-> exists r, r ∈ run /\ range_hits r c = true /\ r_destination r = d).
  { rewrite (run_hits _ _ _ _ _ Hr). unfold table_hit. rewrite E1, E2, E3, E4.
    destruct (Z.leb_spec m (fold_case cs c)), (Z.leb_spec (fold_case cs c) (m + vsize run - 1)); simpl;
      split; try done; try lia; [intros ?; split; [lia|done]|by intros [_ ?]]. }
  split.
  - intros [(t & Ht & Hd)|(r & Hin & ? & ?)].
    + apply elem_of_app in Ht as [Ht|Ht]; [left; eauto|]. apply list_elem_of_singleton in Ht as ->.
      apply Hjt in Hd as (r & ? & ? & ?). right. exists r. rewrite !elem_of_app. auto.
    + right. exists r. rewrite !elem_of_app in *. naive_solver.
  - intros [(t & Ht & Hd)|(r & Hin & ? & ?)].
    + left. exists t. rewrite elem_of_app. auto.
    + rewrite !elem_of_app in Hin. destruct Hin as [|[|]].
      * right. exists r. rewrite elem_of_app. auto.
      * left. exists jt. rewrite elem_of_app, list_elem_of_singleton. split; [by right|]. apply Hjt. eauto.
      * right. exists r. rewrite elem_of_app. auto.
Qed.

Lemma run_bounds cs m run : is_run cs m run -> Forall range_wf run -> run <> [] -> 0 <= m /\ m + vsize run - 1 < 128.
Proof.
  intros Hr Hwf Hne. destruct run as [|r0 run0] using rev_ind; [done|]. clear IHrun0 Hne.
  pose proof (is_run_last _ _ _ _ Hr) as [Hmax _]. rewrite vsize_app. change (vsize [r0]) with 1.
  split.
  - destruct run0; inversion Hr; subst; simpl in Hwf; apply Forall_cons in Hwf as [Hw _]; unfold range_wf in Hw; destruct Hw; lia.
  - apply Forall_app in Hwf as [_ Hwf]. apply Forall_cons in Hwf as [Hw _]. unfold range_wf in Hw. destruct Hw as (? & ? & ?). lia.
Qed.

Lemma run_folds cs m run :
  is_run cs m run -> Forall range_wf run -> forall c, m <= c < m + vsize run -> fold_case cs c = c.
Proof.
  intros Hr. induction Hr as [m|m r l E1 E2 E3 Hr IH]; intros Hwf c Hc.
  - change (vsize []) with 0 in Hc. lia.
  - apply Forall_cons in Hwf as [(_ & _ & Hf) Hwf]. rewrite vsize_cons in Hc.
    destruct (Z.eq_dec c m) as [->|]; [congruence|]. apply IH; [done|lia].
Qed.

(** Extracting a run: the table is well formed and nothing else changes. *)
Lemma extract_grouped pre run post cs m :
  is_run cs m run -> run <> [] -> Forall range_wf run ->
  exists jt, extractJumpTable (pre ++ run ++ post) (vsize pre) (vsize pre + vsize run - 1) = Done (jt, pre ++ post) /\
    table_wf jt /\
    forall tables c d, sends (tables ++ [jt]) (pre ++ post) c d <-> sends tables (pre ++ run ++ post) c d.
Proof.
  intros Hr Hne Hwf. destruct (extractJumpTable_spec pre run post cs m Hr Hne) as (jt & E & E1 & E2 & E3 & E4).
  exists jt. split; [done|]. split; [|intros; by eapply sends_extract].
  destruct (run_bounds cs m run Hr Hwf Hne) as [Hb1 Hb2].
  assert (0 < vsize run).
  { destruct run; [done|]. rewrite vsize_cons. pose proof (vsize_nonneg run). lia. }
  unfold table_wf. rewrite E1, E2, E3, E4. pose proof (run_folds cs m run Hr Hwf). unfold vsize in *. rewrite length_map.
  split_and!; try lia. intros c Hc. auto with lia.
Qed.

Definition run_base (pre run : list Range) : option Z :=
  match run with [] => None | _ => Some (vsize pre) end.

(** The loop, with the ranges split into those already passed, the current
    run of single characters, and those still to look at. *)
Lemma group_jump_tables_spec rest : forall fuel pre run tables cs m,
  (length rest <= fuel)%nat -> is_run cs m run ->
  Forall range_wf (pre ++ run ++ rest) -> Forall table_wf tables ->
  exists tables' ranges',
    group_jump_tables fuel (pre ++ run ++ rest) tables (vsize pre + vsize run) (run_base pre run) = Done (tables', ranges') /\
    Forall table_wf tables' /\ Forall range_wf ranges' /\
    forall c d, sends tables' ranges' c d <-> sends tables (pre ++ run ++ rest) c d.
Proof.
  induction rest as [|r rest IH]; intros fuel pre run tables cs m Hf Hr Hwf Ht.
  - rewrite app_nil_r in *. assert (Hsz : vsize (pre ++ run) <=? vsize pre + vsize run = true).
    { rewrite vsize_app. apply Z.leb_le. lia. }
    destruct fuel; simpl; rewrite Hsz; clear Hf Hsz.
    all: destruct run as [|r0 run0]; simpl; [rewrite app_nil_r in *; eauto 10|].
    all: rewrite vsize_app; destruct (Z.ltb_spec 1 (vsize pre + vsize (r0 :: run0) - vsize pre)); [|eauto 10].
    all: destruct (extract_grouped pre (r0 :: run0) [] cs m) as (jt & E & Hjt & Hs); [done..|by apply Forall_app in Hwf as [??]|].
    all: rewrite app_nil_r in E; rewrite E; simpl; rewrite app_nil_r; eexists _, _; split_and!; [done| | |].
    all: try (apply Forall_app; split; [done|by constructor]).
    all: try (by apply Forall_app in Hwf as [??]).
    all: intros c d; specialize (Hs tables c d); by rewrite !app_nil_r in Hs.
  - destruct fuel as [|fuel]; [simpl in Hf; lia|]. simpl in Hf.
    cbn [group_jump_tables]. rewrite !vsize_app, vsize_cons. pose proof (vsize_nonneg rest).
    destruct (Z.leb_spec (vsize pre + (vsize run + (vsize rest + 1))) (vsize pre + vsize run)); [lia|].
    assert (Er : vget (pre ++ run ++ r :: rest) (vsize pre + vsize run) = Done r).
    { rewrite app_assoc. apply vget_app_here. by rewrite vsize_app. }
    rewrite Er. cbn [obind].
    destruct run as [|r0 run0] eqn:Erun.
    + (* no run yet *)
      simpl. change (vsize []) with 0 in *. rewrite Z.add_0_r in *.
      destruct (Z.eqb_spec (r_min r) (r_max r)) as [Hs|Hs].
      * destruct (IH fuel pre [r] tables (r_caseSensitive r) (r_min r)) as (t' & r' & E & ?); try done; [lia| |].
        { constructor; try done. constructor. }
        change (vsize [r]) with 1 in E. simpl in E. rewrite E. eauto.
      * destruct (IH fuel (pre ++ [r]) [] tables true 0) as (t' & r' & E & ?); try done; [lia|constructor| |].
        { by rewrite <- app_assoc. }
        rewrite vsize_app in E. change (vsize [r]) with 1 in E. change (vsize []) with 0 in E.
        rewrite Z.add_0_r, <- app_assoc in E. simpl in E. rewrite E. rewrite <- app_assoc in *. eauto.
    + rewrite <- Erun in *. assert (Hne : run <> []) by (by subst).
      assert (Hb : run_base pre run = Some (vsize pre)) by (by subst). rewrite Hb. clear Hb Erun r0 run0.
      destruct run as [|rl run1] using rev_ind; [done|]. clear IHrun1.
      pose proof (is_run_last _ _ _ _ Hr) as [Hmax Hcs].
      assert (Hbase : exists rf, vget (pre ++ (run1 ++ [rl]) ++ r :: rest) (vsize pre) = Done rf /\ r_caseSensitive rf = cs).
      { destruct run1 as [|rf tl]; inversion Hr; subst.
        - exists rl. split; [by apply vget_app_here|done].
        - exists rf. split; [by apply vget_app_here|done]. }
      destruct Hbase as (rf & -> & Hrf). cbn [obind].
      rewrite (vget_middle pre run1 rl) by (rewrite vsize_app; change (vsize [rl]) with 1; lia). cbn [obind].
      match goal with |- context [if ?b then _ else _] => destruct b eqn:Ebrk end.
      * (* the run ends here *)
        destruct (Z.ltb_spec 1 (vsize pre + vsize (run1 ++ [rl]) - vsize pre)).
        -- destruct (extract_grouped pre (run1 ++ [rl]) (r :: rest) cs m) as (jt & -> & Hjt & Hs); try done.
           { rewrite !Forall_app in *. naive_solver. }
           cbn [obind].
           destruct (IH fuel (pre ++ [r]) [] (tables ++ [jt]) true 0) as (t' & r' & E & G1 & G2 & G3); [lia|constructor| | |].
           { rewrite <- app_assoc. simpl. rewrite !Forall_app in *. naive_solver. }
           { apply Forall_app. split; [done|by constructor]. }
           rewrite vsize_app in E. change (vsize [r]) with 1 in E. change (vsize []) with 0 in E.
           rewrite Z.add_0_r, <- app_assoc in E. simpl in E. rewrite E. eexists _, _. split_and!; try done.
           intros c d. rewrite G3, <- app_assoc. simpl. apply Hs.
        -- destruct (IH fuel (pre ++ (run1 ++ [rl]) ++ [r]) [] tables true 0) as (t' & r' & E & G1 & G2 & G3); [lia|constructor| |done|].
           { by rewrite <- !app_assoc in *. }
           rewrite !vsize_app in E. change (vsize [r]) with 1 in E. change (vsize []) with 0 in E.
           rewrite <- !app_assoc in E. simpl in E. rewrite <- !app_assoc. rewrite !vsize_app. simpl.
           rewrite Z.add_0_r, !Z.add_assoc in E. rewrite !Z.add_assoc. rewrite E. eexists _, _. split_and!; try done.
           intros c d. rewrite G3, <- !app_assoc. done.
      * (* the run goes on *)
        apply orb_false_iff in Ebrk as [Ebrk E3]. apply orb_false_iff in Ebrk as [E1 E2].
        apply negb_false_iff, Z.eqb_eq in E1. apply negb_false_iff, Z.eqb_eq in E3. apply negb_false_iff, eqb_prop in E2.
        destruct (IH fuel pre ((run1 ++ [rl]) ++ [r]) tables cs m) as (t' & r' & E & G1 & G2 & G3); [lia| | |done|].
        { apply is_run_snoc; try done; try congruence. rewrite vsize_app. change (vsize [rl]) with 1. lia. }
        { by rewrite <- !app_assoc in *. }
        assert (Hb : run_base pre ((run1 ++ [rl]) ++ [r]) = Some (vsize pre)) by (by destruct run1).
        rewrite Hb in E. rewrite !vsize_app in *. change (vsize [r]) with 1 in E.
        rewrite <- !app_assoc in *. simpl in *. rewrite !Z.add_assoc in *. rewrite E.
        eexists _, _. split_and!; try done.
Qed.

(** ** What the code of a node does with a character *)

Fixpoint first_table_hit (tables : list JumpTable) (c : Z) : option Z :=
  match tables with
  | [] => None
  | t :: tables' => match table_hit t c with Some d => Some d | None => first_table_hit tables' c end
  end.

Fixpoint first_range_hit (ranges : list Range) (c : Z) : option Z :=
  match ranges with
  | [] => None
  | r :: ranges' => if range_hits r c then Some (r_destination r) else first_range_hit ranges' c
  end.

(** The jump tables in order, then the ranges in order, then the fallback
    jump, which is not taken at the end of the string. *)
Definition tables_target (t : Transitions) (c : Z) : option Z :=
  match first_table_hit (t_jumpTables t) c with
  | Some d => Some d
  | None =>
      match first_range_hit (t_ranges t) c with
      | Some d => Some d
      | None => if t_useFallbackTransition t && negb (c =? 0) then Some (t_fallbackTransitionTarget t) else None
      end
  end.

Lemma first_table_hit_Some tables c d : first_table_hit tables c = Some d -> exists t, t ∈ tables /\ table_hit t c = Some d.
Proof.
  induction tables as [|t tables IH]; simpl; [done|]. destruct (table_hit t c) eqn:E.
  - intros [= ->]. exists t. split; [left|done].
  - intros (t' & ? & ?)%IH. exists t'. split; [by right|done].
Qed.

Lemma first_table_hit_None tables c t : first_table_hit tables c = None -> t ∈ tables -> table_hit t c = None.
Proof.
  induction tables as [|t' tables IH]; simpl; intros HN Ht; [by apply elem_of_nil in Ht|].
  destruct (table_hit t' c) eqn:E; [done|]. apply elem_of_cons in Ht as [->|]; auto.
Qed.

Lemma first_range_hit_Some ranges c d :
  first_range_hit ranges c = Some d -> exists r, r ∈ ranges /\ range_hits r c = true /\ r_destination r = d.
Proof.
  induction ranges as [|r ranges IH]; simpl; [done|]. destruct (range_hits r c) eqn:E.
  - intros [= <-]. exists r. split; [left|done].
  - intros (r' & ? & ? & ?)%IH. exists r'. split; [by right|done].
Qed.

Lemma first_range_hit_None ranges c r : first_range_hit ranges c = None -> r ∈ ranges -> range_hits r c = false.
Proof.
  induction ranges as [|r' ranges IH]; simpl; intros HN Hr; [by apply elem_of_nil in Hr|].
  destruct (range_hits r' c) eqn:E; [done|]. apply elem_of_cons in Hr as [->|]; auto.
Qed.

(** When the tables send a character to one place only, the first hit is it. *)
Lemma first_hit_sends t c :
  (forall d, sends (t_jumpTables t) (t_ranges t) c d -> tables_target t c = Some d \/
     exists d', sends (t_jumpTables t) (t_ranges t) c d' /\ tables_target t c = Some d') /\
  ((forall d, ~ sends (t_jumpTables t) (t_ranges t) c d) ->
     tables_target t c = if t_useFallbackTransition t && negb (c =? 0) then Some (t_fallbackTransitionTarget t) else None).
Proof.
  unfold tables_target. destruct (first_table_hit (t_jumpTables t) c) as [d0|] eqn:E1.
  { apply first_table_hit_Some in E1. split.
    - intros d _. right. exists d0. split; [by left|done].
    - intros Hn. exfalso. apply (Hn d0). by left. }
  destruct (first_range_hit (t_ranges t) c) as [d0|] eqn:E2.
  { apply first_range_hit_Some in E2. split.
    - intros d _. right. exists d0. split; [by right|done].
    - intros Hn. exfalso. apply (Hn d0). by right. }
  split; [|done]. intros d [(t' & Ht & Hh)|(r & Hr & Hh & _)].
  - by rewrite (first_table_hit_None _ _ _ E1 Ht) in Hh.
  - by rewrite (first_range_hit_None _ _ _ E2 Hr) in Hh.
Qed.

Record tables_wf (t : Transitions) : Prop := {
  tw_tables : Forall table_wf (t_jumpTables t);
  tw_ranges : Forall range_wf (t_ranges t)
}.

(** [transitions(node)] returns, and its tables send a character to [d] exactly
    when the node has a transition to [d] on it that is not left to the
    fallback. *)
Lemma compiler_transitions_spec dfa node ts :
  node_transitions node dfa = Done ts -> sorted_from 0 ts -> Forall (fun t => tr_target t <> noDestination) ts ->
  exists t, compiler_transitions dfa node = Done t /\ tables_wf t /\
    t_useFallbackTransition t = transitions_allow_fallback ts /\
    (t_useFallbackTransition t = true -> transitions_best_target ts = Done (t_fallbackTransitionTarget t)) /\
    forall c d, 0 <= c < 128 -> sends (t_jumpTables t) (t_ranges t) c d <->
      (trans_target ts c = Some d /\ (t_useFallbackTransition t = true -> d <> t_fallbackTransitionTarget t)).
Proof.
  intros Ets Hs Hd. unfold compiler_transitions, canUseFallbackTransition, bestFallbackTarget.
  rewrite Ets. cbn [obind]. set (uf := transitions_allow_fallback ts).
  assert (Hfb : exists fb, (if uf then transitions_best_target ts else Done UINT32_MAX) = Done fb /\
                 (uf = true -> transitions_best_target ts = Done fb)).
  { destruct uf eqn:E; [|by exists UINT32_MAX]. destruct (best_target_total ts Hs E) as [fb ->]. eauto. }
  destruct Hfb as (fb & -> & Hfb). cbn [obind].
  destruct (build_destinations_spec uf fb ts Hs) as (v & -> & Hv & Hg). cbn [obind].
  destruct (collect_ranges_spec (table_entry uf fb ts) v Hv Hg) as (rs & -> & Hwf & Hsound & Hcompl). cbn [obind].
  destruct (group_jump_tables_spec rs (length rs) [] [] [] true 0) as (tables & rs' & E & W1 & W2 & Hsame);
    [lia|constructor|done|constructor|].
  simpl in E. change (vsize [] + vsize []) with 0 in E. rewrite E. cbn [obind].
  eexists. split; [done|]. simpl. split_and!; try done. intros c d Hc. rewrite Hsame. simpl.
  assert (Hn : forall n, trans_target ts c = Some n -> n <> noDestination).
  { intros n (t & Ht & _ & <-)%trans_target_elem. rewrite Forall_forall in Hd. auto. }
  split.
  - intros [(t & Ht & _)|(r & Hr & Hh & <-)]; [by apply elem_of_nil in Ht|].
    destruct (Hsound r c Hr Hc Hh) as [-> Hne]. unfold table_entry in *.
    destruct (trans_target ts c) as [n|] eqn:En; [|done].
    destruct (uf && (fb =? n)) eqn:Ef; [done|]. split; [done|]. intros ->. simpl in Ef. by apply Z.eqb_neq in Ef.
  - intros [Et Hf]. assert (He : table_entry uf fb ts c = d).
    { unfold table_entry. rewrite Et. destruct uf; simpl; [|done].
      destruct (Z.eqb_spec fb d); [|done]. subst. by destruct Hf. }
    destruct (Hcompl c Hc) as (r & Hr & Hh); [rewrite He; by apply Hn|].
    destruct (Hsound r c Hr Hc Hh) as [Hdest _]. right. exists r. split_and!; congruence.
Qed.

(** Exactness: the code of a node follows the node's transition on every
    character; on the terminator it does so unless that transition leads to
    the fallback target. *)
Lemma compiler_transitions_exact dfa node ts :
  node_transitions node dfa = Done ts -> sorted_from 0 ts -> Forall (fun t => tr_target t <> noDestination) ts ->
  exists t, compiler_transitions dfa node = Done t /\ tables_wf t /\
    forall c, 0 <= c < 128 ->
      tables_target t c =
        if (c =? 0) && t_useFallbackTransition t && bool_decide (trans_target ts 0 = Some (t_fallbackTransitionTarget t))
        then None else trans_target ts c.
Proof.
  intros Ets Hs Hd. destruct (compiler_transitions_spec dfa node ts Ets Hs Hd) as (t & E & Hwf & Huf & Hfb & Hsends).
  exists t. split_and!; [done..|]. intros c Hc. destruct (first_hit_sends t c) as [H1 H2].
  assert (Hhit : forall d, trans_target ts c = Some d ->
     (t_useFallbackTransition t = true -> d <> t_fallbackTransitionTarget t) -> tables_target t c = Some d).
  { intros d Et Hne. assert (Hsd : sends (t_jumpTables t) (t_ranges t) c d) by (by apply Hsends).
    destruct (H1 d Hsd) as [?|(d' & Hd' & ?)]; [done|]. apply Hsends in Hd'; [|done]. naive_solver. }
  assert (Hmiss : (forall d, trans_target ts c = Some d -> t_useFallbackTransition t = true /\ d = t_fallbackTransitionTarget t) ->
     tables_target t c = if t_useFallbackTransition t && negb (c =? 0) then Some (t_fallbackTransitionTarget t) else None).
  { intros Hm. apply H2. intros d Hsd. apply Hsends in Hsd as [Hsd Hne]; [|done]. destruct (Hm d Hsd). naive_solver. }
  destruct (trans_target ts c) as [d|] eqn:Et.
  - destruct (decide (t_useFallbackTransition t = true /\ d = t_fallbackTransitionTarget t)) as [[Hu ->]|Hno].
    + rewrite Hmiss by naive_solver. rewrite Hu. simpl. destruct (Z.eqb_spec c 0) as [->|]; simpl; [|done].
      by rewrite bool_decide_true.
    + rewrite (Hhit d); [|done|naive_solver]. destruct (Z.eqb_spec c 0) as [->|]; simpl; [|done].
      destruct (t_useFallbackTransition t) eqn:Hu; simpl; [|done]. rewrite bool_decide_false; [done|]. naive_solver.
  - rewrite Hmiss by done. destruct (Z.eqb_spec c 0) as [->|]; simpl.
    + destruct (t_useFallbackTransition t); simpl; [|done]. by case_bool_decide.
    + rewrite andb_true_r. destruct (t_useFallbackTransition t) eqn:Hu; [|done]. exfalso.
      symmetry in Huf. destruct (allow_fallback_total ts c Hs Huf) as [n0 Hn0]; [lia|congruence].
Qed.
