(* ===== verification/BytecodeLayout.v ===== *)
(** * Layout and linking of the compiled code

    The compiler writes opcodes and zero placeholders and links the distances
    afterwards.  Here its output is described by symbolic instructions: the
    main result, [compile_layout], says that [compile] returns, and that the
    linked bytes are, at the start offset of every live node, the encoding of
    that node's instructions with every jump leading to the start offset of
    its destination. *)

From stdpp Require Import gmap.
From S2P Require Import Prelude Containers ResourceLoad Dfa Bytecode BytecodeCompiler TransitionTables.

(** ** Symbolic instructions *)

Inductive instr :=
| IAct (action : Z)
| ITable (t : JumpTable)
| IRange (r : Range)
| IJump (destination : Z)
| ITerm.

Definition trans_code (t : Transitions) : list instr :=
  map ITable (t_jumpTables t) ++ map IRange (t_ranges t) ++
  [if t_useFallbackTransition t then IJump (t_fallbackTransitionTarget t) else ITerm].

Definition instr_dests (i : instr) : list Z :=
  match i with
  | ITable t => jt_destinations t
  | IRange r => [r_destination r]
  | IJump d => [d]
  | IAct _ | ITerm => []
  end.

Definition instr_wf (i : instr) : Prop :=
  match i with
  | ITable t => table_wf t
  | IRange r => range_wf r
  | _ => True
  end.

Definition instr_max_size (i : instr) : Z :=
  match i with
  | IAct a => appendActionBytecodeSize a
  | ITable t => checkForJumpTableMaxBytecodeSize t
  | IRange r => checkForRangeMaxBytecodeSize r
  | IJump _ => 1 + 4
  | ITerm => 1
  end.

Definition code_max_size (l : list instr) : Z := sum_sizes instr_max_size l.

Definition action_bytes (action : Z) : list Z :=
  if negb (Z.land action ActionFlagMask =? 0) then
    le_bytes 1 (instruction_code (if negb (Z.land action IfDomainFlag =? 0)
                then TestFlagsAndAppendActionWithIfDomain else TestFlagsAndAppendAction))
    ++ le_bytes 2 (u16 (Z.shiftr action 32)) ++ le_bytes 4 (u32 action)
  else
    le_bytes 1 (instruction_code (if negb (Z.land action IfDomainFlag =? 0)
                then AppendActionWithIfDomain else AppendAction))
    ++ le_bytes 4 (u32 action).

(** Bytes with holes: a hole is a placeholder for the jump to node [h_dest]
    of the instruction at [h_loc]. *)
Inductive item :=
| Lit (bs : list Z)
| Hole (s : DFABytecodeJumpSize) (longest loc dest : Z).

Definition zero_bytes (it : item) : list Z :=
  match it with
  | Lit bs => bs
  | Hole s _ _ _ => replicate (Z.to_nat (jumpSizeInBytes s)) 0
  end.

Definition flat0 (its : list item) : list Z := concat (map zero_bytes its).

Fixpoint links (pos : Z) (its : list item) : list LinkRecord :=
  match its with
  | [] => []
  | Lit bs :: its' => links (pos + vsize bs) its'
  | Hole s longest loc dest :: its' =>
      mkLinkRecord s longest loc pos dest :: links (pos + jumpSizeInBytes s) its'
  end.

Definition linked_bytes (off : Z -> Z) (it : item) : list Z :=
  match it with
  | Lit bs => bs
  | Hole s _ loc dest => jump_bytes s (off dest - loc)
  end.

Definition flat (off : Z -> Z) (its : list item) : list Z := concat (map (linked_bytes off) its).

Definition item_fits (off : Z -> Z) (it : item) : Prop :=
  match it with
  | Lit _ => True
  | Hole s _ loc dest => jump_fits s (off dest - loc)
  end.

Lemma flat0_app a b : flat0 (a ++ b) = flat0 a ++ flat0 b.
Proof. unfold flat0. by rewrite map_app, concat_app. Qed.

Lemma flat_app off a b : flat off (a ++ b) = flat off a ++ flat off b.
Proof. unfold flat. by rewrite map_app, concat_app. Qed.

Lemma jumpSizeInBytes_pos s : 1 <= jumpSizeInBytes s <= 4.
Proof. destruct s; simpl; lia. Qed.

Lemma vsize_zero_bytes off it : vsize (zero_bytes it) = vsize (linked_bytes off it).
Proof.
  destruct it as [bs|s l loc d]; simpl; [done|]. rewrite jump_bytes_length.
  unfold vsize. rewrite length_replicate. pose proof (jumpSizeInBytes_pos s). lia.
Qed.

Lemma vsize_flat0 off its : vsize (flat0 its) = vsize (flat off its).
Proof.
  induction its as [|it its IH]; [done|]. unfold flat0, flat in *. simpl.
  rewrite !vsize_app, IH. by rewrite (vsize_zero_bytes off).
Qed.

Lemma links_app pos a b : links pos (a ++ b) = links pos a ++ links (pos + vsize (flat0 a)) b.
Proof.
  revert pos. induction a as [|it a IH]; intros pos; simpl.
  - by rewrite Z.add_0_r.
  - assert (E : vsize (flat0 (it :: a)) = vsize (zero_bytes it) + vsize (flat0 a)).
    { unfold flat0. simpl. by rewrite vsize_app. }
    rewrite E. destruct it as [bs|s longest loc d]; simpl.
    + rewrite IH. by rewrite Z.add_assoc.
    + rewrite IH. replace (vsize (replicate (Z.to_nat (jumpSizeInBytes s)) 0)) with (jumpSizeInBytes s).
      * by rewrite Z.add_assoc.
      * unfold vsize. rewrite length_replicate. pose proof (jumpSizeInBytes_pos s). lia.
Qed.

(** The items of one instruction at [loc] with jump size [s]. *)
Definition hole (s : DFABytecodeJumpSize) (lg : Z -> Z) (loc d : Z) : item := Hole s (lg d) loc d.

Definition range_head (s : DFABytecodeJumpSize) (r : Range) : list Z :=
  if r_min r =? r_max r then
    le_bytes 1 (opcode (if r_caseSensitive r then CheckValueCaseSensitive else CheckValueCaseInsensitive) s)
    ++ le_bytes 1 (r_min r)
  else
    le_bytes 1 (opcode (if r_caseSensitive r then CheckValueRangeCaseSensitive else CheckValueRangeCaseInsensitive) s)
    ++ le_bytes 1 (r_min r) ++ le_bytes 1 (r_max r).

Definition table_head (s : DFABytecodeJumpSize) (t : JumpTable) : list Z :=
  le_bytes 1 (opcode (if jt_caseSensitive t then JumpTableCaseSensitive else JumpTableCaseInsensitive) s)
  ++ le_bytes 1 (jt_min t) ++ le_bytes 1 (jt_max t).

Definition instr_items (s : DFABytecodeJumpSize) (lg : Z -> Z) (loc : Z) (i : instr) : list item :=
  match i with
  | IAct a => [Lit (action_bytes a)]
  | ITable t => Lit (table_head s t) :: map (hole s lg loc) (jt_destinations t)
  | IRange r => [Lit (range_head s r); hole s lg loc (r_destination r)]
  | IJump d => [Lit (le_bytes 1 (opcode Jump s)); hole s lg loc d]
  | ITerm => [Lit (le_bytes 1 (instruction_code Terminate))]
  end.

Definition instr_bytes (off : Z -> Z) (s : DFABytecodeJumpSize) (loc : Z) (i : instr) : list Z :=
  flat off (instr_items s (fun _ => 0) loc i).

Lemma flat_instr_items off s lg loc i : flat off (instr_items s lg loc i) = instr_bytes off s loc i.
Proof.
  unfold instr_bytes. destruct i as [a|t|r|d|]; try done. simpl. unfold flat. simpl. f_equal. f_equal.
  rewrite !map_map. done.
Qed.

(** ** The linker fills every hole *)

Section Link.
Context (starts : list Z).

Definition start_of (n : Z) : Z := match vget starts n with Done z => z | _ => 0 end.

Definition item_linkable (it : item) : Prop :=
  match it with
  | Lit _ => True
  | Hole s _ loc d => jump_fits s (start_of d - loc) /\ 0 <= start_of d < INT32_MAX /\
                      exists z, vget starts d = Done z
  end.

Lemma link_one_spec s longest loc d pre post :
  item_linkable (Hole s longest loc d) ->
  link_one starts (pre ++ zero_bytes (Hole s longest loc d) ++ post)
    (mkLinkRecord s longest loc (vsize pre) d) =
  Done (pre ++ jump_bytes s (start_of d - loc) ++ post).
Proof.
  intros (Hfit & Hb & z & Ez). pose proof (jump_fits_i32 _ _ Hfit) as Hi.
  unfold link_one. cbn [lr_destinationNodeIndex lr_instructionLocation lr_jumpLocation lr_jumpSize].
  assert (Es : start_of d = z) by (unfold start_of; by rewrite Ez). rewrite Ez. cbn [obind]. rewrite <- Es.
  unfold release_assert at 1. destruct (Z.ltb_spec (start_of d) INT32_MAX); [|lia]. cbn [obind].
  rewrite i32_u32, i32_small by lia. set (dist := start_of d - loc) in *. unfold release_assert.
  destruct s; cbn [jump_fits jump_bytes zero_bytes] in *.
  - rewrite i8_small by lia. rewrite Z.eqb_refl. cbn [obind]. by apply setBits_at.
  - rewrite i16_small by lia. rewrite Z.eqb_refl. cbn [obind]. by apply setBits_at.
  - destruct (Z.leb_spec Int24Min dist), (Z.leb_spec dist Int24Max); try lia. cbn [andb obind].
    change (replicate (Z.to_nat (jumpSizeInBytes Int24)) 0) with ([0; 0] ++ [0]).
    rewrite <- app_assoc. rewrite (setBits_at 2 pre [0; 0]) by done. cbn [obind].
    rewrite (app_assoc pre). rewrite (setBits_at 1 (pre ++ le_bytes 2 (u16 dist)) [0]);
      [|by rewrite vsize_app, vsize_le_bytes|done].
    by rewrite <- !app_assoc.
  - by apply setBits_at.
Qed.

Lemma link_items its : forall pre post,
  Forall item_linkable its ->
  ofold (link_one starts) (pre ++ flat0 its ++ post) (links (vsize pre) its) = Done (pre ++ flat start_of its ++ post).
Proof.
  induction its as [|it its IH]; intros pre post Hl; [done|].
  apply Forall_cons in Hl as [Hit Hl]. unfold flat0, flat. simpl. fold (flat0 its) (flat start_of its).
  destruct it as [bs|s longest loc d]; cbn [links zero_bytes linked_bytes].
  - rewrite <- !app_assoc. rewrite !(app_assoc pre bs). rewrite <- vsize_app. by apply IH.
  - cbn [ofold]. rewrite <- app_assoc. rewrite (link_one_spec s longest loc d pre) by done. cbn [obind].
    rewrite (app_assoc pre). rewrite <- (jump_bytes_length s (start_of d - loc)), <- vsize_app.
    rewrite IH by done. by rewrite <- !app_assoc.
Qed.
End Link.

(** ** Emission *)

(** Appending items to the output. *)
Definition push (c : compiler) (its : list item) : compiler :=
  mkCompiler (m_bytecode c ++ flat0 its) (m_maxNodeStartOffsets c) (m_nodeStartOffsets c)
             (m_linkRecords c ++ links (vsize (m_bytecode c)) its).

Lemma push_app c a b : push (push c a) b = push c (a ++ b).
Proof.
  unfold push. cbn [m_bytecode m_maxNodeStartOffsets m_nodeStartOffsets m_linkRecords].
  rewrite flat0_app, links_app, vsize_app, !app_assoc. done.
Qed.

Lemma push_nil c : push c [] = c.
Proof. unfold push. simpl. rewrite !app_nil_r. by destruct c. Qed.

Lemma push_lit c b bs : b = m_bytecode c ++ bs -> set_bytecode c b = push c [Lit bs].
Proof. intros ->. unfold push, set_bytecode. simpl. unfold flat0. simpl. by rewrite !app_nil_r. Qed.

Lemma emit_placeholder_push c s longest loc pos d :
  pos = vsize (m_bytecode c) -> emit_placeholder c s longest loc pos d = push c [Hole s longest loc d].
Proof.
  intros ->. unfold emit_placeholder, push, add_link, set_bytecode. simpl.
  rewrite appendZeroes_eq. unfold flat0. simpl. by rewrite app_nil_r.
Qed.

Lemma emitAppendAction_push c a : emitAppendAction c a = push c [Lit (action_bytes a)].
Proof.
  unfold emitAppendAction. apply push_lit. unfold action_bytes, append_int.
  destruct (negb _); by rewrite <- ?app_assoc.
Qed.

Definition action_items (l : list Z) : list item := map (fun a => Lit (action_bytes a)) l.

Lemma emitAppendActions_push l c : foldl emitAppendAction c l = push c (action_items l).
Proof.
  revert c. induction l as [|a l IH]; intros c; simpl; [by rewrite push_nil|].
  rewrite emitAppendAction_push, IH, push_app. done.
Qed.

Section Emission.
(** The offset vectors while node [n] is being emitted. *)
Context (maxes starts : list Z) (n : Z).

Definition offsets_are (c : compiler) : Prop := m_maxNodeStartOffsets c = maxes /\ m_nodeStartOffsets c = starts.

Lemma offsets_push c its : offsets_are c -> offsets_are (push c its).
Proof. done. Qed.

(** [longestPossibleJump], as a function of the vectors. *)
Definition longest (loc d : Z) : outcome Z := longestPossibleJump (mkCompiler [] maxes starts []) loc n d.

Lemma longest_eq c loc d : offsets_are c -> longestPossibleJump c loc n d = longest loc d.
Proof. intros [E1 E2]. unfold longest, longestPossibleJump. simpl. by rewrite E1, E2. Qed.

Definition longest_value (loc d : Z) : Z := match longest loc d with Done z => z | _ => 0 end.

(** The chosen size is at least the one for the longest possible jump. *)
Definition sized (s : DFABytecodeJumpSize) (loc d : Z) : Prop :=
  longest loc d = Done (longest_value loc d) /\
  forall x, jump_fits (smallestPossibleJumpSize (longest_value loc d)) x -> jump_fits s x.

Definition instr_sized (s : DFABytecodeJumpSize) (loc : Z) (i : instr) : Prop :=
  Forall (sized s loc) (instr_dests i).

Inductive emits : Z -> list instr -> list item -> Prop :=
| em_nil loc : emits loc [] []
| em_cons loc i code s its :
    instr_wf i -> instr_sized s loc i ->
    emits (loc + vsize (flat0 (instr_items s (longest_value loc) loc i))) code its ->
    emits loc (i :: code) (instr_items s (longest_value loc) loc i ++ its).

Lemma emits_app loc a b its1 its2 :
  emits loc a its1 -> emits (loc + vsize (flat0 its1)) b its2 -> emits loc (a ++ b) (its1 ++ its2).
Proof.
  induction 1 as [loc|loc i code s its Hw Hs He IH]; simpl.
  - change (vsize (flat0 [])) with 0. by rewrite Z.add_0_r.
  - rewrite flat0_app, vsize_app, Z.add_assoc, <- app_assoc. intros Hb. constructor; auto.
Qed.

(** Every destination has entries in the offset vectors. *)
Definition dest_ok (d : Z) : Prop := forall loc, longest loc d = Done (longest_value loc d).

Lemma sized_exact loc d : dest_ok d -> sized (smallestPossibleJumpSize (longest_value loc d)) loc d.
Proof. intros Hd. split; [apply Hd|done]. Qed.

Lemma emitJump_push c d :
  offsets_are c -> dest_ok d ->
  exists s, emitJump c n d = Done (push c (instr_items s (longest_value (vsize (m_bytecode c))) (vsize (m_bytecode c)) (IJump d))) /\
    instr_sized s (vsize (m_bytecode c)) (IJump d).
Proof.
  intros Ho Hd. set (loc := vsize (m_bytecode c)). exists (smallestPossibleJumpSize (longest_value loc d)).
  split; [|constructor; [by apply sized_exact|constructor]].
  unfold emitJump. rewrite longest_eq by done. fold loc. rewrite Hd. cbn [obind]. f_equal.
  unfold append_int. rewrite (push_lit _ _ (le_bytes 1 (opcode Jump (smallestPossibleJumpSize (longest_value loc d))))) by done.
  rewrite emit_placeholder_push.
  - by rewrite push_app.
  - unfold push. cbn [m_bytecode]. rewrite vsize_app. unfold flat0. cbn [map concat zero_bytes].
    rewrite app_nil_r, vsize_le_bytes. done.
Qed.

Lemma compileCheckForRange_push c r :
  offsets_are c -> dest_ok (r_destination r) ->
  exists s, compileCheckForRange n c r =
      Done (push c (instr_items s (longest_value (vsize (m_bytecode c))) (vsize (m_bytecode c)) (IRange r))) /\
    instr_sized s (vsize (m_bytecode c)) (IRange r).
Proof.
  intros Ho Hd. set (loc := vsize (m_bytecode c)). exists (smallestPossibleJumpSize (longest_value loc (r_destination r))).
  split; [|constructor; [by apply sized_exact|constructor]].
  unfold compileCheckForRange, emitCheckValue, emitCheckValueRange. cbn [instr_items]. unfold range_head.
  set (s := smallestPossibleJumpSize _).
  destruct (r_min r =? r_max r); rewrite longest_eq by done; fold loc; rewrite Hd; cbn [obind]; f_equal; fold s; unfold append_int.
  - erewrite (push_lit c) by (rewrite <- !app_assoc; reflexivity). rewrite emit_placeholder_push; [by rewrite push_app|].
    unfold push. cbn [m_bytecode]. rewrite vsize_app. unfold flat0. cbn [map concat zero_bytes].
    rewrite app_nil_r, !vsize_app, !vsize_le_bytes. fold loc. lia.
  - erewrite (push_lit c) by (rewrite <- !app_assoc; reflexivity). rewrite emit_placeholder_push; [by rewrite push_app|].
    unfold push. cbn [m_bytecode]. rewrite vsize_app. unfold flat0. cbn [map concat zero_bytes].
    rewrite app_nil_r, !vsize_app, !vsize_le_bytes. fold loc. lia.
Qed.

(** The jump size of a table suits each of its destinations. *)
Lemma table_size_spec c loc ds s0 :
  offsets_are c -> Forall dest_ok ds ->
  exists s, ofold (fun s d => let* l := longestPossibleJump c loc n d in
                              Done (jump_size_max s (smallestPossibleJumpSize l))) s0 ds = Done s /\
    Forall (sized s loc) ds /\ (forall x, jump_fits s0 x -> jump_fits s x).
Proof.
  intros Ho. revert s0. induction ds as [|d ds IH]; intros s0 Hd; simpl.
  - exists s0. split_and!; [done|constructor|done].
  - apply Forall_cons in Hd as [Hd Hds]. rewrite longest_eq, Hd by done. cbn [obind].
    destruct (IH (jump_size_max s0 (smallestPossibleJumpSize (longest_value loc d))) Hds) as (s & -> & Hs & Hm).
    exists s. split_and!; [done| |].
    + constructor; [|done]. split; [apply Hd|]. intros x Hx. apply Hm. by apply jump_fits_max_r.
    + intros x Hx. apply Hm. by apply jump_fits_max.
Qed.

Lemma table_holes_push c loc s ds :
  offsets_are c -> Forall dest_ok ds ->
  ofold (fun c d => let* l := longestPossibleJump c loc n d in
                    let jumpLocation := vsize (m_bytecode c) in
                    Done (emit_placeholder c s l loc jumpLocation d)) c ds
    = Done (push c (map (hole s (longest_value loc) loc) ds)).
Proof.
  intros Ho Hd. revert c Ho. induction Hd as [|d ds Hd Hds IH]; intros c Ho; cbn [ofold map].
  - by rewrite push_nil.
  - rewrite longest_eq, Hd by done. cbn [obind]. rewrite emit_placeholder_push by done.
    rewrite IH by done. rewrite push_app. done.
Qed.

Lemma compileJumpTable_push c t :
  offsets_are c -> Forall dest_ok (jt_destinations t) ->
  exists s, compileJumpTable n c t =
      Done (push c (instr_items s (longest_value (vsize (m_bytecode c))) (vsize (m_bytecode c)) (ITable t))) /\
    instr_sized s (vsize (m_bytecode c)) (ITable t).
Proof.
  intros Ho Hd. set (loc := vsize (m_bytecode c)). unfold compileJumpTable. fold loc.
  destruct (table_size_spec c loc (jt_destinations t) Int8 Ho Hd) as (s & -> & Hs & _). cbn [obind].
  exists s. split; [|done]. unfold append_int. erewrite (push_lit c) by (rewrite <- !app_assoc; reflexivity).
  rewrite table_holes_push by done. rewrite push_app. done.
Qed.

(** Emitting a list of tables, ranges, then the final jump or terminator. *)
Lemma ofold_push {A} (f : compiler -> A -> outcome compiler) (mk : A -> instr) c l :
  offsets_are c ->
  Forall (fun x => instr_wf (mk x) /\ forall c, offsets_are c ->
    exists s, f c x = Done (push c (instr_items s (longest_value (vsize (m_bytecode c))) (vsize (m_bytecode c)) (mk x))) /\
      instr_sized s (vsize (m_bytecode c)) (mk x)) l ->
  exists its, ofold f c l = Done (push c its) /\ emits (vsize (m_bytecode c)) (map mk l) its.
Proof.
  intros Ho Hl. revert c Ho. induction Hl as [|x l [Hw Hx] Hl IH]; intros c Ho; simpl.
  - exists []. rewrite push_nil. split; [done|constructor].
  - destruct (Hx c Ho) as (s & -> & Hs). cbn [obind].
    edestruct IH as (its & E & He); [by apply offsets_push|]. rewrite E, push_app.
    eexists. split; [done|]. constructor; [done|done|]. unfold push in He. cbn [m_bytecode] in He. by rewrite vsize_app in He.
Qed.

Lemma emits_actions loc l : emits loc (map IAct l) (action_items l).
Proof.
  revert loc. induction l as [|a l IH]; intros loc; simpl; [constructor|].
  change (Lit (action_bytes a) :: ?x) with ([Lit (action_bytes a)] ++ x).
  apply (em_cons loc (IAct a) (map IAct l) Int8); [done|constructor|apply IH].
Qed.

Lemma compileNodeTransitions_push dfa c node t :
  offsets_are c -> vget (dfa_nodes dfa) n = Done node -> compiler_transitions dfa node = Done t -> tables_wf t ->
  Forall (fun i => Forall dest_ok (instr_dests i)) (trans_code t) ->
  exists its, compileNodeTransitions dfa c n = Done (push c its) /\ emits (vsize (m_bytecode c)) (trans_code t) its.
Proof.
  intros Ho En Et Hw Hd. unfold compileNodeTransitions. rewrite En. cbn [obind]. rewrite Et. cbn [obind].
  unfold trans_code in Hd. rewrite !Forall_app in Hd. destruct Hd as (Hd1 & Hd2 & Hd3).
  destruct (ofold_push (compileJumpTable n) ITable c (t_jumpTables t) Ho) as (its1 & -> & He1).
  { rewrite Forall_fmap in Hd1. pose proof (tw_tables _ Hw) as Hw1. rewrite !Forall_forall in *.
    intros x Hx. split; [by apply Hw1|]. intros c' Hc'. apply compileJumpTable_push; [done|]. by apply Hd1. }
  cbn [obind].
  destruct (ofold_push (compileCheckForRange n) IRange (push c its1) (t_ranges t)) as (its2 & -> & He2); [done| |].
  { rewrite Forall_fmap in Hd2. pose proof (tw_ranges _ Hw) as Hw2. rewrite !Forall_forall in *.
    intros x Hx. split; [by apply Hw2|]. intros c' Hc'. apply compileCheckForRange_push; [done|].
    specialize (Hd2 x Hx). simpl in Hd2. by apply Forall_cons in Hd2 as [? _]. }
  cbn [obind]. rewrite push_app. unfold trans_code.
  assert (He12 : emits (vsize (m_bytecode c)) (map ITable (t_jumpTables t) ++ map IRange (t_ranges t)) (its1 ++ its2)).
  { apply emits_app; [done|]. unfold push in He2. cbn [m_bytecode] in He2. by rewrite vsize_app in He2. }
  rewrite app_assoc. destruct (t_useFallbackTransition t).
  - destruct (emitJump_push (push c (its1 ++ its2)) (t_fallbackTransitionTarget t)) as (s & -> & Hs); [done| |].
    { apply Forall_cons in Hd3 as [Hd3 _]. simpl in Hd3. by apply Forall_cons in Hd3 as [? _]. }
    rewrite push_app. eexists. split; [done|]. apply emits_app; [done|].
    unfold push in *. cbn [m_bytecode] in *. rewrite vsize_app in *.
    rewrite <- (app_nil_r (instr_items _ _ _ _)). constructor; [done|done|constructor].
  - eexists. split; [unfold emitTerminate, append_int; rewrite (push_lit _ _ (le_bytes 1 (instruction_code Terminate))) by done; by rewrite push_app|].
    apply emits_app; [done|]. rewrite <- (app_nil_r [Lit _]).
    apply (em_cons _ ITerm [] Int8); [done|constructor|constructor].
Qed.
End Emission.

(** ** Sizes *)

Lemma vsize_action_bytes a : vsize (action_bytes a) = appendActionBytecodeSize a.
Proof.
  unfold action_bytes, appendActionBytecodeSize. destruct (negb _); rewrite !vsize_app, !vsize_le_bytes; lia.
Qed.

Lemma vsize_flat_cons off it its : vsize (flat off (it :: its)) = vsize (linked_bytes off it) + vsize (flat off its).
Proof. unfold flat. simpl. by rewrite vsize_app. Qed.

Lemma vsize_flat_holes off s lg loc ds : vsize (flat off (map (hole s lg loc) ds)) = vsize ds * jumpSizeInBytes s.
Proof.
  induction ds as [|d ds IH]; [done|]. cbn [map]. rewrite vsize_flat_cons, IH, vsize_cons.
  unfold hole. cbn [linked_bytes]. rewrite jump_bytes_length. lia.
Qed.

(** The number of bytes of an instruction. *)
Definition instr_size (s : DFABytecodeJumpSize) (i : instr) : Z :=
  match i with
  | IAct a => appendActionBytecodeSize a
  | ITable t => 3 + vsize (jt_destinations t) * jumpSizeInBytes s
  | IRange r => (if r_min r =? r_max r then 2 else 3) + jumpSizeInBytes s
  | IJump _ => 1 + jumpSizeInBytes s
  | ITerm => 1
  end.

Lemma vsize_instr_bytes off s loc i : vsize (instr_bytes off s loc i) = instr_size s i.
Proof.
  unfold instr_bytes. destruct i as [a|t|r|d|]; cbn [instr_items instr_size]; rewrite ?vsize_flat_cons;
    cbn [linked_bytes hole]; rewrite ?jump_bytes_length; change (vsize (flat off [])) with 0.
  - rewrite vsize_action_bytes. lia.
  - rewrite vsize_flat_holes. unfold table_head. rewrite !vsize_app, !vsize_le_bytes. lia.
  - unfold range_head. destruct (r_min r =? r_max r); rewrite !vsize_app, !vsize_le_bytes; lia.
  - rewrite vsize_le_bytes. lia.
  - rewrite vsize_le_bytes. lia.
Qed.

Lemma instr_size_max s i : instr_wf i -> 1 <= instr_size s i <= instr_max_size i.
Proof.
  pose proof (jumpSizeInBytes_pos s) as Hs.
  destruct i as [a|t|r|d|]; simpl; unfold appendActionBytecodeSize, checkForJumpTableMaxBytecodeSize,
    checkForRangeMaxBytecodeSize; intros Hw; try lia.
  - destruct (negb _); lia.
  - destruct Hw as (Hm & Hx & -> & _). nia.
  - destruct (r_min r =? r_max r); lia.
Qed.

Lemma vsize_instr_items s lg loc i : vsize (flat0 (instr_items s lg loc i)) = instr_size s i.
Proof. rewrite (vsize_flat0 (fun _ => 0)), flat_instr_items. apply vsize_instr_bytes. Qed.

Lemma emits_size maxes starts n loc code its :
  emits maxes starts n loc code its -> 0 <= vsize (flat0 its) <= code_max_size code.
Proof.
  induction 1 as [|loc i code s its Hw Hs He IH]; [done|].
  rewrite flat0_app, vsize_app, vsize_instr_items. pose proof (instr_size_max s i Hw).
  unfold code_max_size in *. simpl. lia.
Qed.

(** ** Code in place *)

Inductive code_at (off : Z -> Z) (bc : list Z) : Z -> list instr -> Prop :=
| ca_nil pc : code_at off bc pc []
| ca_cons pc s i code pre post :
    bc = pre ++ instr_bytes off s pc i ++ post -> pc = vsize pre -> instr_wf i ->
    Forall (fun d => jump_fits s (off d - pc)) (instr_dests i) ->
    code_at off bc (pc + instr_size s i) code -> code_at off bc pc (i :: code).

Lemma items_fit_dests off s lg loc i :
  Forall (item_fits off) (instr_items s lg loc i) <-> Forall (fun d => jump_fits s (off d - loc)) (instr_dests i).
Proof.
  destruct i as [a|t|r|d|]; cbn [instr_items instr_dests]; rewrite ?Forall_cons; unfold hole; simpl;
    rewrite ?Forall_nil; rewrite ?Forall_fmap; naive_solver.
Qed.

Lemma emits_code_at maxes starts n off loc code its :
  emits maxes starts n loc code its -> forall bc pre post,
  bc = pre ++ flat off its ++ post -> loc = vsize pre -> Forall (item_fits off) its -> code_at off bc loc code.
Proof.
  induction 1 as [|loc i code s its Hw Hs He IH]; intros bc pre post Hbc Hloc Hf; [constructor|].
  rewrite flat_app, flat_instr_items, <- app_assoc in Hbc. apply Forall_app in Hf as [Hf1 Hf2].
  eapply (ca_cons off bc loc s i code pre); [done|done|done|by apply items_fit_dests in Hf1|].
  rewrite vsize_instr_items in IH. eapply IH; [|..|done].
  - rewrite Hbc. rewrite app_assoc. done.
  - rewrite vsize_app, vsize_instr_bytes. lia.
Qed.

Lemma code_at_suffix off bc pc code suffix : code_at off bc pc code -> code_at off (bc ++ suffix) pc code.
Proof.
  induction 1 as [|pc s i code pre post Hbc Hpc Hw Hf Hc IH]; econstructor; try done.
  rewrite Hbc, <- !app_assoc. done.
Qed.

(** Distances are relative: the code can be moved. *)
Lemma instr_bytes_shift off s loc i k : instr_bytes (fun d => k + off d) s (k + loc) i = instr_bytes off s loc i.
Proof.
  unfold instr_bytes. destruct i as [a|t|r|d|]; try done; unfold flat; cbn [instr_items map concat linked_bytes hole].
  - f_equal. f_equal. rewrite !map_map. apply map_ext. intros d. unfold hole. simpl. f_equal. lia.
  - do 3 f_equal. lia.
  - do 3 f_equal. lia.
Qed.

Lemma code_at_prefix off bc pc code prefix :
  code_at off bc pc code -> code_at (fun d => vsize prefix + off d) (prefix ++ bc) (vsize prefix + pc) code.
Proof.
  induction 1 as [|pc s i code pre post Hbc Hpc Hw Hf Hc IH]; [constructor|].
  eapply (ca_cons _ _ _ s i code (prefix ++ pre)); try done.
  - rewrite instr_bytes_shift, Hbc, <- app_assoc. done.
  - rewrite vsize_app. lia.
  - eapply Forall_impl; [done|]. simpl. intros d. by replace (vsize prefix + off d - (vsize prefix + pc)) with (off d - pc) by lia.
  - by rewrite Z.add_assoc in IH.
Qed.

Lemma code_at_app off bc pc a b : code_at off bc pc (a ++ b) -> exists pc', code_at off bc pc a /\ code_at off bc pc' b.
Proof.
  revert pc. induction a as [|i a IH]; intros pc Hc; simpl in *.
  - exists pc. split; [constructor|done].
  - inversion Hc; subst. edestruct IH as (pc' & ? & ?); [done|]. exists pc'. split; [|done]. by econstructor.
Qed.

(** ** The whole automaton *)

Lemma ofold_filter {A S} (p : A -> bool) (f : S -> A -> outcome S) s l :
  ofold (fun s x => if p x then f s x else Done s) s l = ofold f s (filter (fun x => p x = true) l).
Proof.
  revert s. induction l as [|x l IH]; intros s; [done|]. rewrite filter_cons. cbn [ofold].
  destruct (p x) eqn:E; case_decide; try congruence; cbn [obind ofold]; [|apply IH].
  destruct (f s x); cbn [obind]; auto.
Qed.

Section Layout.
Context (dfa : DFA).

Definition node_tables (n : Z) : Transitions :=
  match vget (dfa_nodes dfa) n with
  | Done node => match compiler_transitions dfa node with Done t => t | _ => mkTransitions [] [] false 0 end
  | _ => mkTransitions [] [] false 0
  end.

Definition full_prog (n : Z) : list instr := map IAct (dfa_node_actions dfa n) ++ trans_code (node_tables n).

(** What a jump to the node runs: the actions of the root are not repeated. *)
Definition node_prog (n : Z) : list instr := if n =? dfa_root dfa then trans_code (node_tables n) else full_prog n.

Definition full_size (n : Z) : Z := if is_live dfa n then code_max_size (full_prog n) else 0.
Definition prog_size (n : Z) : Z := if is_live dfa n then code_max_size (node_prog n) else 0.

Definition other_nodes : list Z := filter (fun i => negb (i =? dfa_root dfa) = true) (seqZ 0 (vsize (dfa_nodes dfa))).

(** The worst-case size of the compiled automaton, header included. *)
Definition code_size_bound : Z := 4 + full_size (dfa_root dfa) + sum_sizes full_size other_nodes.

Lemma elem_of_other_nodes n : n ∈ other_nodes <-> 0 <= n < vsize (dfa_nodes dfa) /\ n <> dfa_root dfa.
Proof.
  unfold other_nodes. rewrite list_elem_of_filter, elem_of_seqZ, negb_true_iff, Z.eqb_neq. lia.
Qed.

Lemma NoDup_other_nodes : NoDup other_nodes.
Proof. apply NoDup_filter, NoDup_seqZ. Qed.

Lemma sum_sizes_nonneg {A} (f : A -> Z) l : (forall x, 0 <= f x) -> 0 <= sum_sizes f l.
Proof. intros Hf. induction l as [|x l IH]; simpl; [done|]. specialize (Hf x). lia. Qed.

Lemma sum_sizes_app {A} (f : A -> Z) a b : sum_sizes f (a ++ b) = sum_sizes f a + sum_sizes f b.
Proof. induction a as [|x a IH]; simpl; [done|]. lia. Qed.

Lemma sum_sizes_map {A B} (f : B -> Z) (g : A -> B) l : sum_sizes f (map g l) = sum_sizes (fun x => f (g x)) l.
Proof. induction l as [|x l IH]; simpl; [done|]. lia. Qed.

Hypothesis Hwf : dfa_wf dfa.

(** Everything the compiler reads for a live node is there. *)
Record node_ready (n : Z) (node : DFANode) : Prop := {
  nr_node : vget (dfa_nodes dfa) n = Done node;
  nr_killed : isKilled node = false;
  nr_actions : node_actions node dfa = Done (dfa_node_actions dfa n);
  nr_transitions : node_transitions node dfa = Done (dfa_node_transitions dfa n);
  nr_sorted : sorted_from 0 (dfa_node_transitions dfa n);
  nr_targets : Forall (fun t => live dfa (tr_target t)) (dfa_node_transitions dfa n);
  nr_tables : compiler_transitions dfa node = Done (node_tables n);
  nr_tables_wf : tables_wf (node_tables n);
  nr_dests : Forall (fun i => Forall (live dfa) (instr_dests i)) (trans_code (node_tables n))
}.

(** Every destination in the tables is where some character goes. *)
Lemma table_entry_sends t rs tables (d : Z) :
  t ∈ tables -> table_wf t -> d ∈ jt_destinations t -> exists c, 0 <= c < 128 /\ sends tables rs c d.
Proof.
  intros Ht (H1 & H2 & H3 & H4) Hd. apply list_elem_of_lookup in Hd as [k Hk].
  pose proof (lookup_lt_Some _ _ _ Hk). exists (jt_min t + Z.of_nat k). unfold vsize in H3. split; [lia|].
  left. exists t. split; [done|]. unfold table_hit. rewrite H4 by lia. ztest; try lia.
  by replace (Z.to_nat (jt_min t + Z.of_nat k - jt_min t)) with k by lia.
Qed.

Lemma range_sends r rs tables :
  r ∈ rs -> range_wf r -> exists c, 0 <= c < 128 /\ sends tables rs c (r_destination r).
Proof.
  intros Hr (H1 & H2 & H3). exists (r_min r). split; [lia|]. right. exists r. split_and!; try done.
  unfold range_hits. rewrite H3. ztest; try done; lia.
Qed.

Lemma live_ready n : live dfa n -> exists node, node_ready n node.
Proof.
  intros (node & Hn & Hk). exists node. destruct (dwf_nodes _ Hwf n node Hn Hk) as [(ts & Ets & Hs & Ht) (l & El)].
  assert (Ents : dfa_node_transitions dfa n = ts) by (unfold dfa_node_transitions; by rewrite Hn, Ets).
  assert (Hnd : Forall (fun t => tr_target t <> noDestination) ts).
  { eapply Forall_impl; [done|]. intros t Hl%live_bound. pose proof (dwf_size _ Hwf). unfold noDestination. lia. }
  destruct (compiler_transitions_spec dfa node ts Ets Hs Hnd) as (t & Et & Htw & Huf & Hfb & Hsends).
  assert (Ent : node_tables n = t) by (unfold node_tables; by rewrite Hn, Et).
  assert (Hd : forall c d, 0 <= c < 128 -> sends (t_jumpTables t) (t_ranges t) c d -> live dfa d).
  { intros c d Hc [Htt _]%Hsends; [|done]. apply trans_target_elem in Htt as (t' & Ht' & _ & <-).
    rewrite Forall_forall in Ht. by apply Ht. }
  constructor; rewrite ?Ents, ?Ent; try done.
  - unfold dfa_node_actions. by rewrite Hn, El.
  - unfold trans_code. rewrite !Forall_app, !Forall_fmap. destruct Htw as [Htw1 Htw2]. rewrite !Forall_forall in *. split_and!.
    + intros jt Hjt. simpl. apply Forall_forall. intros d Hdd.
      destruct (table_entry_sends jt (t_ranges t) (t_jumpTables t) d) as (c & ? & ?); eauto.
    + intros r Hr. simpl. constructor; [|constructor].
      destruct (range_sends r (t_ranges t) (t_jumpTables t)) as (c & ? & ?); eauto.
    + intros i Hi. apply list_elem_of_singleton in Hi as ->. destruct (t_useFallbackTransition t); simpl; [|constructor].
      constructor; [|constructor]. specialize (Hfb eq_refl). apply best_target_elem in Hfb as (t' & Ht' & <-). by apply Ht.
Qed.
End Layout.
