(* ===== verification/BytecodeLink.v ===== *)
(** * The compiled automaton, linked

    The main result, [compile_layout]: [compile] returns, keeps the bytes that
    were there, writes the length of the new code in its header, and puts the
    code of every live node at the offset recorded for it.  The size chosen
    for every jump is large enough although it was chosen before the distance
    was known. *)

From stdpp Require Import gmap.
From S2P Require Import Prelude Containers ResourceLoad Dfa Bytecode BytecodeCompiler TransitionTables BytecodeLayout.

Lemma start_of_insert v n z d :
  0 <= n < vsize v -> start_of (<[Z.to_nat n := z]> v) d = if d =? n then z else start_of v d.
Proof. intros Hn. unfold start_of. rewrite vget_insert by done. by destruct (d =? n). Qed.

Lemma start_of_get v n : 0 <= n < vsize v -> vget v n = Done (start_of v n).
Proof. intros (x & E & _)%vget_total. unfold start_of. by rewrite E. Qed.

(** [longestPossibleJump] when nothing wraps around. *)
Lemma longest_placed maxes starts n loc d :
  0 <= d < vsize starts -> start_of starts d <> UINT32_MAX -> - 2 ^ 31 <= start_of starts d - loc < 2 ^ 31 ->
  longest maxes starts n loc d = Done (start_of starts d - loc).
Proof.
  intros Hd Hm Hr. unfold longest, longestPossibleJump. cbn [m_nodeStartOffsets m_maxNodeStartOffsets].
  rewrite start_of_get by done. cbn [obind]. destruct (Z.eqb_spec (start_of starts d) UINT32_MAX); [done|].
  by rewrite i32_u32, i32_small.
Qed.

Lemma longest_later maxes starts n loc d :
  0 <= d < vsize starts -> 0 <= n < vsize starts -> vsize maxes = vsize starts -> start_of starts d = UINT32_MAX ->
  let l := start_of maxes d - start_of maxes n - (start_of starts n - loc) in
  - 2 ^ 31 <= l < 2 ^ 31 -> longest maxes starts n loc d = Done l.
Proof.
  intros Hd Hn Hs Hm l Hr. unfold longest, longestPossibleJump. cbn [m_nodeStartOffsets m_maxNodeStartOffsets].
  rewrite (start_of_get starts d) by done. cbn [obind]. rewrite Hm, Z.eqb_refl.
  rewrite !start_of_get by lia. cbn [obind]. rewrite i32_u32, i32_small; done.
Qed.

Lemma longest_total maxes starts n loc d :
  0 <= d < vsize starts -> 0 <= n < vsize starts -> vsize maxes = vsize starts ->
  longest maxes starts n loc d = Done (longest_value maxes starts n loc d).
Proof.
  intros Hd Hn Hs. unfold longest_value, longest, longestPossibleJump. cbn [m_nodeStartOffsets m_maxNodeStartOffsets].
  rewrite !start_of_get by lia. cbn [obind]. by destruct (_ =? _).
Qed.

(** ** Every hole of a node can be filled *)

Lemma emits_linkable maxes starts n loc code its starts' :
  emits maxes starts n loc code its ->
  (forall iloc i d, loc <= iloc <= loc + vsize (flat0 its) -> i ∈ code -> d ∈ instr_dests i ->
     jump_fits (smallestPossibleJumpSize (longest_value maxes starts n iloc d)) (start_of starts' d - iloc) /\
     0 <= start_of starts' d < INT32_MAX /\ 0 <= d < vsize starts') ->
  Forall (item_linkable starts') its.
Proof.
  induction 1 as [|loc i code s its Hw Hs He IH]; intros Hfit; [constructor|].
  rewrite flat0_app, vsize_app in Hfit. pose proof (vsize_nonneg (flat0 its)).
  set (its1 := instr_items _ _ _ _) in *. pose proof (vsize_nonneg (flat0 its1)).
  apply Forall_app. split.
  - assert (Hd : Forall (fun d => item_linkable starts' (hole s (longest_value maxes starts n loc) loc d)) (instr_dests i)).
    { unfold instr_sized in Hs. rewrite Forall_forall in Hs |- *. intros d Hd.
      destruct (Hfit loc i d) as (Hj & Hb & Hr); [lia|left|done|].
      destruct (Hs d Hd) as [_ Hs']. split_and!; [auto|lia|lia|]. rewrite start_of_get by done. eauto. }
    subst its1. destruct i as [a|t|r|d|]; cbn [instr_items instr_dests] in *;
      rewrite ?Forall_cons, ?Forall_nil, ?Forall_fmap in *; naive_solver.
  - apply IH. intros iloc i' d Hi Hi' Hd. apply (Hfit iloc i' d); [lia|by right|done].
Qed.

Section Placement.
Context (dfa : DFA) (Hwf : dfa_wf dfa) (maxes : list Z).

Abbreviation node_count := (vsize (dfa_nodes dfa)).

(** The nodes of the list are emitted one after the other from [loc] on. *)
Inductive placed : list Z -> Z -> list Z -> list item -> list Z -> Prop :=
| pl_nil starts loc : placed starts loc [] [] starts
| pl_killed starts loc n l its starts' :
    is_live dfa n = false -> placed starts loc l its starts' -> placed starts loc (n :: l) its starts'
| pl_node starts loc n l its1 its starts' :
    live dfa n -> emits maxes (<[Z.to_nat n := loc]> starts) n loc (node_prog dfa n) its1 ->
    placed (<[Z.to_nat n := loc]> starts) (loc + vsize (flat0 its1)) l its starts' ->
    placed starts loc (n :: l) (its1 ++ its) starts'.

Lemma placed_size starts loc l its starts' :
  placed starts loc l its starts' -> vsize starts' = vsize starts /\ 0 <= vsize (flat0 its) <= sum_sizes (prog_size dfa) l.
Proof.
  induction 1 as [|st loc n l its st' Hl Hp [IH1 IH2]|st loc n l its1 its st' Hl He Hp [IH1 IH2]]; [done| |].
  - split; [done|]. cbn [sum_sizes foldr]. fold (sum_sizes (prog_size dfa) l). unfold prog_size at 1. rewrite Hl. lia.
  - rewrite vsize_insert in IH1. split; [done|]. rewrite flat0_app, vsize_app.
    cbn [sum_sizes foldr]. fold (sum_sizes (prog_size dfa) l). unfold prog_size at 1.
    apply is_live_spec in Hl. rewrite Hl. apply emits_size in He. lia.
Qed.

Lemma placed_keeps starts loc l its starts' d :
  placed starts loc l its starts' -> vsize starts = node_count -> d ∉ l -> start_of starts' d = start_of starts d.
Proof.
  induction 1 as [|st loc n l its st' Hl Hp IH|st loc n l its1 its st' Hl He Hp IH]; intros Hs Hd; [done| |];
    apply not_elem_of_cons in Hd as [Hd1 Hd2]; [by apply IH|].
  rewrite IH; [|by rewrite vsize_insert|done]. apply live_bound in Hl. rewrite start_of_insert by lia.
  destruct (Z.eqb_spec d n); congruence.
Qed.

(** [maxes] is where the nodes would start if every node had its largest
    size. *)
Inductive maxes_from : Z -> list Z -> Prop :=
| mf_nil next : maxes_from next []
| mf_cons next n l : start_of maxes n = next -> maxes_from (next + prog_size dfa n) l -> maxes_from next (n :: l).

(** Compaction only brings nodes closer. *)
Lemma placed_slack starts loc l its starts' : forall next n,
  placed starts loc l its starts' -> vsize starts = node_count -> NoDup l -> maxes_from next l -> n ∈ l -> live dfa n ->
  0 <= start_of starts' n - loc <= start_of maxes n - next.
Proof.
  intros next n Hp. revert next.
  induction Hp as [|st loc m l its st' Hl Hp IH|st loc m l its1 its st' Hl He Hp IH]; intros next Hs Hnd Hm Hn Hln;
    [by apply elem_of_nil in Hn|..]; apply NoDup_cons in Hnd as [Hni Hnd]; inversion Hm as [|? ? ? Hnx Hm']; subst;
    apply elem_of_cons in Hn.
  - destruct Hn as [->|Hn]; [apply is_live_spec in Hln; congruence|].
    specialize (IH _ Hs Hnd Hm' Hn Hln). unfold prog_size in IH. rewrite Hl in IH. lia.
  - assert (Hsz : 0 <= vsize (flat0 its1) <= prog_size dfa m).
    { unfold prog_size. apply is_live_spec in Hl as Hl'. rewrite Hl'. by apply emits_size in He. }
    pose proof (live_bound _ _ Hl) as Hb. destruct Hn as [->|Hn].
    + erewrite placed_keeps; [|done|by rewrite vsize_insert|done].
      rewrite start_of_insert by lia. rewrite Z.eqb_refl. lia.
    + specialize (IH (start_of maxes m + prog_size dfa m)). rewrite vsize_insert in IH.
      specialize (IH Hs Hnd Hm' Hn Hln). lia.
Qed.

Lemma node_dests n i d : live dfa n -> i ∈ node_prog dfa n -> d ∈ instr_dests i -> live dfa d.
Proof.
  intros Hn Hi Hd. destruct (live_ready _ Hwf n Hn) as (node & Hr).
  assert (Ht : i ∈ trans_code (node_tables dfa n)).
  { unfold node_prog, full_prog in Hi. destruct (n =? dfa_root dfa); [done|].
    apply elem_of_app in Hi as [Hi|Hi]; [|done]. apply list_elem_of_fmap in Hi as (a & -> & _). by apply elem_of_nil in Hd. }
  pose proof (nr_dests _ _ _ Hr) as H. rewrite Forall_forall in H. specialize (H i Ht). rewrite Forall_forall in H. auto.
Qed.

(** The values met while a list is placed stay below a bound. *)
Record in_bounds (bound : Z) (starts : list Z) (loc next : Z) (l : list Z) : Prop := {
  ib_size : vsize starts = node_count;
  ib_msize : vsize maxes = node_count;
  ib_loc : 0 <= loc /\ 0 <= next /\ loc + sum_sizes (prog_size dfa) l <= bound /\ next + sum_sizes (prog_size dfa) l <= bound;
  ib_maxes : maxes_from next l;
  ib_nodup : NoDup l;
  ib_known : forall d, live dfa d -> (d ∈ l /\ start_of starts d = UINT32_MAX) \/ (d ∉ l /\ 0 <= start_of starts d <= loc)
}.

Lemma node_prog_wf n : live dfa n -> Forall instr_wf (node_prog dfa n).
Proof.
  intros (node & Hr)%(live_ready _ Hwf). destruct (nr_tables_wf _ _ _ Hr) as [Ht Hg].
  assert (Hc : Forall instr_wf (trans_code (node_tables dfa n))).
  { unfold trans_code. rewrite !Forall_app, !Forall_fmap. split_and!; [done|done|]. by destruct (t_useFallbackTransition _); repeat constructor. }
  unfold node_prog, full_prog. destruct (n =? dfa_root dfa); [done|]. apply Forall_app. split; [|done].
  apply Forall_fmap, Forall_true. done.
Qed.

Lemma prog_size_nonneg n : 0 <= prog_size dfa n.
Proof.
  unfold prog_size. destruct (is_live dfa n) eqn:E; [|done]. apply is_live_spec, node_prog_wf in E.
  unfold code_max_size. induction E as [|i l Hi Hl IH]; simpl; [done|]. pose proof (instr_size_max Int8 i Hi). lia.
Qed.

Lemma in_bounds_killed bound starts loc n l :
  is_live dfa n = false -> in_bounds bound starts loc (start_of maxes n) (n :: l) -> in_bounds bound starts loc (start_of maxes n) l.
Proof.
  intros Hl [H1 H2 H3 H4 H5 H6]. assert (Hz : prog_size dfa n = 0) by (unfold prog_size; by rewrite Hl).
  cbn [sum_sizes foldr] in H3. fold (sum_sizes (prog_size dfa) l) in H3. inversion H4 as [|? ? ? _ Hm]; subst.
  rewrite Hz, Z.add_0_r in Hm. apply NoDup_cons in H5 as [H5 H5']. constructor; [done|done|lia|done|done|].
  intros d Hd. destruct (H6 d Hd) as [[[->|Hdl]%elem_of_cons Hu]|[Hni Hu]].
  - apply is_live_spec in Hd. congruence.
  - by left.
  - right. split; [|done]. by apply not_elem_of_cons in Hni as [_ ?].
Qed.

Lemma in_bounds_node bound starts loc n l size :
  live dfa n -> 0 <= size <= prog_size dfa n -> in_bounds bound starts loc (start_of maxes n) (n :: l) ->
  in_bounds bound (<[Z.to_nat n := loc]> starts) (loc + size) (start_of maxes n + prog_size dfa n) l.
Proof.
  intros Hl Hz [H1 H2 H3 H4 H5 H6]. pose proof (live_bound _ _ Hl) as Hb.
  cbn [sum_sizes foldr] in H3. fold (sum_sizes (prog_size dfa) l) in H3. inversion H4 as [|? ? ? _ Hm]; subst.
  apply NoDup_cons in H5 as [H5 H5']. constructor; [by rewrite vsize_insert|done|lia|done|done|].
  intros d Hd. rewrite start_of_insert by lia. destruct (Z.eqb_spec d n) as [->|Hne].
  - right. split; [done|lia].
  - destruct (H6 d Hd) as [[[->|Hdl]%elem_of_cons Hu]|[Hni Hu]]; [done|by left|right].
    apply not_elem_of_cons in Hni as [_ ?]. split; [done|lia].
Qed.

Lemma maxes_from_bound next l n :
  maxes_from next l -> n ∈ l -> start_of maxes n <= next + sum_sizes (prog_size dfa) l.
Proof.
  induction 1 as [|next m l Hm Hl IH]; intros Hn; [by apply elem_of_nil in Hn|].
  assert (0 <= sum_sizes (prog_size dfa) l) by (apply sum_sizes_nonneg, prog_size_nonneg).
  pose proof (prog_size_nonneg m). cbn [sum_sizes foldr]. fold (sum_sizes (prog_size dfa) l).
  apply elem_of_cons in Hn as [->|Hn]; [lia|]. specialize (IH Hn). lia.
Qed.

(** The size chosen for a jump is large enough for its final distance. *)
Lemma jump_large_enough bound starts loc n l size its starts' iloc d :
  bound < 2 ^ 30 -> live dfa n -> live dfa d -> 0 <= size <= prog_size dfa n -> loc <= iloc <= loc + size ->
  in_bounds bound starts loc (start_of maxes n) (n :: l) ->
  placed (<[Z.to_nat n := loc]> starts) (loc + size) l its starts' ->
  jump_fits (smallestPossibleJumpSize (longest_value maxes (<[Z.to_nat n := loc]> starts) n iloc d)) (start_of starts' d - iloc) /\
  0 <= start_of starts' d < INT32_MAX.
Proof.
  intros Hbd Hl Hd Hz Hi Hib Hp. pose proof (in_bounds_node _ _ _ _ _ _ Hl Hz Hib) as [H1 H2 H3 H4 H5 H6].
  pose proof (live_bound _ _ Hl) as Hb. pose proof (live_bound _ _ Hd) as Hb'.
  pose proof (ib_size _ _ _ _ _ Hib) as Hsz. pose proof (ib_loc _ _ _ _ _ Hib) as Hlo.
  assert (Hsum : 0 <= sum_sizes (prog_size dfa) l) by (apply sum_sizes_nonneg, prog_size_nonneg).
  destruct (H6 d Hd) as [[Hin Hu]|[Hni Hk]].
  - pose proof (placed_slack _ _ _ _ _ _ d Hp H1 H5 H4 Hin Hd) as Hsl.
    assert (Hmx : start_of maxes d <= bound) by (pose proof (maxes_from_bound _ _ _ H4 Hin); lia).
    unfold longest_value. rewrite longest_later; [|lia|lia|lia|done|rewrite start_of_insert, Z.eqb_refl by lia; lia].
    rewrite start_of_insert, Z.eqb_refl by lia. unfold INT32_MAX. split; [|lia].
    apply smallestPossibleJumpSize_fits; lia.
  - rewrite (placed_keeps _ _ _ _ _ d Hp H1 Hni). unfold INT32_MAX. split; [|lia].
    unfold longest_value. rewrite longest_placed; [|lia|unfold UINT32_MAX; lia|lia].
    apply smallestPossibleJumpSize_fits; lia.
Qed.

Lemma placed_linkable bound starts loc l its starts' : forall next,
  placed starts loc l its starts' -> bound < 2 ^ 30 -> in_bounds bound starts loc next l ->
  Forall (item_linkable starts') its.
Proof.
  intros next Hp Hbd. revert next.
  induction Hp as [|st loc n l its st' Hl Hp IH|st loc n l its1 its st' Hl He Hp IH]; intros next Hib; [constructor|..];
    (assert (Hn : next = start_of maxes n) by (pose proof (ib_maxes _ _ _ _ _ Hib) as Hm; by inversion Hm); subst next).
  - eapply IH. by apply in_bounds_killed.
  - assert (Hz : 0 <= vsize (flat0 its1) <= prog_size dfa n).
    { unfold prog_size. apply is_live_spec in Hl as Hl'. rewrite Hl'. by apply emits_size in He. }
    apply Forall_app. split; [|eapply IH; by apply in_bounds_node].
    eapply emits_linkable; [done|]. intros iloc i d Hi Hic Hd. pose proof (node_dests n i d Hl Hic Hd) as Hld.
    destruct (jump_large_enough bound st loc n l (vsize (flat0 its1)) its st' iloc d) as [? ?]; [done..|].
    split_and!; try done. all: apply live_bound in Hld; try lia.
    apply placed_size in Hp as [-> _]. rewrite vsize_insert, (ib_size _ _ _ _ _ Hib). lia.
Qed.

(** The code is in place. *)
Lemma placed_code_at off starts loc l its starts' :
  placed starts loc l its starts' -> forall bc pre post n,
  vsize starts = node_count -> NoDup l ->
  bc = pre ++ flat off its ++ post -> loc = vsize pre -> Forall (item_fits off) its ->
  n ∈ l -> live dfa n -> code_at off bc (start_of starts' n) (node_prog dfa n).
Proof.
  induction 1 as [|st loc m l its st' Hl Hp IH|st loc m l its1 its st' Hl He Hp IH]; intros bc pre post n Hs Hnd Hbc Hloc Hf Hn Hln;
    [by apply elem_of_nil in Hn|..]; apply NoDup_cons in Hnd as [Hni Hnd]; apply elem_of_cons in Hn.
  - destruct Hn as [->|Hn]; [apply is_live_spec in Hln; congruence|]. eauto.
  - apply Forall_app in Hf as [Hf1 Hf2]. rewrite flat_app in Hbc.
    destruct Hn as [->|Hn].
    + erewrite placed_keeps; [|done|by rewrite vsize_insert|done]. apply live_bound in Hl.
      rewrite start_of_insert, Z.eqb_refl by lia. eapply emits_code_at; [done| |done|done].
      rewrite <- app_assoc in Hbc. done.
    + eapply (IH bc (pre ++ flat off its1) post); try done.
      * by rewrite vsize_insert.
      * rewrite Hbc, <- !app_assoc. done.
      * rewrite vsize_app, (vsize_flat0 off). lia.
Qed.

(** ** The emission loop produces such a placement *)

Definition place (c : compiler) (n : Z) : compiler :=
  set_nodeStartOffsets c (<[Z.to_nat n := vsize (m_bytecode c)]> (m_nodeStartOffsets c)).

Lemma compileNodeTransitions_placed c n :
  live dfa n -> m_maxNodeStartOffsets c = maxes -> vsize maxes = node_count -> vsize (m_nodeStartOffsets c) = node_count ->
  exists its, compileNodeTransitions dfa c n = Done (push c its) /\
    emits maxes (m_nodeStartOffsets c) n (vsize (m_bytecode c)) (trans_code (node_tables dfa n)) its.
Proof.
  intros Hl Hm Hms Hss. destruct (live_ready _ Hwf n Hl) as (node & Hr). pose proof (live_bound _ _ Hl).
  apply (compileNodeTransitions_push maxes (m_nodeStartOffsets c) n dfa c node).
  - done.
  - apply (nr_node _ _ _ Hr).
  - apply (nr_tables _ _ _ Hr).
  - apply (nr_tables_wf _ _ _ Hr).
  - eapply Forall_impl; [apply (nr_dests _ _ _ Hr)|]. intros i Hi. eapply Forall_impl; [exact Hi|].
    intros d Hd%live_bound loc. apply longest_total; lia.
Qed.

Lemma compileNode_other c n :
  live dfa n -> n <> dfa_root dfa -> m_maxNodeStartOffsets c = maxes -> vsize maxes = node_count ->
  vsize (m_nodeStartOffsets c) = node_count ->
  exists its, compileNode dfa c n false = Done (push (place c n) its) /\
    emits maxes (m_nodeStartOffsets (place c n)) n (vsize (m_bytecode c)) (node_prog dfa n) its.
Proof.
  intros Hl Hnr Hm Hms Hss. destruct (live_ready _ Hwf n Hl) as (node & Hr). pose proof (live_bound _ _ Hl).
  unfold compileNode. rewrite (nr_node _ _ _ Hr). cbn [obind]. rewrite (nr_killed _ _ _ Hr).
  rewrite vset_Done by lia. cbn [obind]. fold (place c n). rewrite (nr_actions _ _ _ Hr). cbn [obind].
  rewrite emitAppendActions_push. set (its1 := action_items (dfa_node_actions dfa n)). destruct (compileNodeTransitions_placed (push (place c n) its1) n) as (its2 & E2 & He2); [done|exact Hm|done| |].
  { cbn. by rewrite vsize_insert. }
  rewrite E2, push_app. eexists. split; [done|]. unfold node_prog, full_prog.
  destruct (Z.eqb_spec n (dfa_root dfa)); [done|]. apply emits_app; [apply emits_actions|]. cbn in He2 |- *. by rewrite vsize_app in He2.
Qed.

Lemma compileNode_root c :
  m_maxNodeStartOffsets c = maxes -> vsize maxes = node_count -> vsize (m_nodeStartOffsets c) = node_count ->
  let root := dfa_root dfa in
  let its1 := action_items (dfa_node_actions dfa root) in
  exists its2, compileNode dfa c root true = Done (push (place (push c its1) root) its2) /\
    emits maxes (m_nodeStartOffsets (place (push c its1) root)) root (vsize (m_bytecode (push c its1))) (node_prog dfa root) its2.
Proof.
  intros Hm Hms Hss root its1. pose proof (dwf_root _ Hwf) as Hl. fold root in Hl.
  destruct (live_ready _ Hwf root Hl) as (node & Hr). pose proof (live_bound _ _ Hl).
  unfold compileNode. rewrite (nr_node _ _ _ Hr). cbn [obind]. rewrite (nr_killed _ _ _ Hr). cbn [obind].
  rewrite (nr_actions _ _ _ Hr). cbn [obind].
  rewrite emitAppendActions_push. fold its1. rewrite vset_Done by (cbn; lia). cbn [obind]. fold (place (push c its1) root).
  destruct (compileNodeTransitions_placed (place (push c its1) root) root) as (its2 & E2 & He2); [done|exact Hm|done| |].
  { cbn. by rewrite vsize_insert. }
  exists its2. split; [done|]. unfold node_prog. by rewrite Z.eqb_refl.
Qed.

Lemma compile_others_placed l : forall c,
  m_maxNodeStartOffsets c = maxes -> vsize maxes = node_count -> vsize (m_nodeStartOffsets c) = node_count ->
  Forall (fun n => 0 <= n < node_count /\ n <> dfa_root dfa) l ->
  exists its starts', placed (m_nodeStartOffsets c) (vsize (m_bytecode c)) l its starts' /\
    ofold (fun c i => compileNode dfa c i false) c l = Done (set_nodeStartOffsets (push c its) starts').
Proof.
  induction l as [|n l IH]; intros c Hm Hms Hss Hl.
  { exists [], (m_nodeStartOffsets c). split; [constructor|]. cbn [ofold]. rewrite push_nil. by destruct c. }
  apply Forall_cons in Hl as [[Hn Hnr] Hl]. cbn [ofold]. destruct (is_live dfa n) eqn:El.
  - apply is_live_spec in El. destruct (compileNode_other c n El Hnr Hm Hms Hss) as (its1 & E1 & He1). rewrite E1. cbn [obind].
    destruct (IH (push (place c n) its1)) as (its & st' & Hp & E2); [exact Hm|done|cbn; by rewrite vsize_insert|done|].
    exists (its1 ++ its), st'. split.
    + apply pl_node; [done|done|]. cbn in Hp. by rewrite vsize_app in Hp.
    + rewrite E2, push_app. done.
  - destruct (IH c) as (its & st' & Hp & E2); [done..|]. exists its, st'. split; [by apply pl_killed|].
    assert (E : compileNode dfa c n false = Done c).
    { unfold compileNode. unfold is_live in El. destruct (vget_total _ _ Hn) as (node & E & _). rewrite E in *. cbn [obind].
      apply negb_false_iff in El. by rewrite El. }
    rewrite E. done.
Qed.

End Placement.

(** ** The maximal offsets *)

Section Maxes.
Context (dfa : DFA) (Hwf : dfa_wf dfa).

Abbreviation node_count := (vsize (dfa_nodes dfa)).

Lemma code_max_full n :
  code_max_size (full_prog dfa n) =
  sum_sizes appendActionBytecodeSize (dfa_node_actions dfa n) + code_max_size (trans_code (node_tables dfa n)).
Proof. unfold code_max_size, full_prog. rewrite sum_sizes_app, sum_sizes_map. done. Qed.

Lemma full_size_other n : n <> dfa_root dfa -> prog_size dfa n = full_size dfa n.
Proof. intros Hn. unfold prog_size, full_size, node_prog. by destruct (Z.eqb_spec n (dfa_root dfa)). Qed.

Lemma full_size_nonneg n : 0 <= full_size dfa n.
Proof.
  pose proof (prog_size_nonneg dfa Hwf n) as H. unfold full_size, prog_size, node_prog in *. destruct (is_live dfa n); [|done].
  destruct (n =? dfa_root dfa); [|done]. rewrite code_max_full.
  assert (0 <= sum_sizes appendActionBytecodeSize (dfa_node_actions dfa n)); [|lia].
  apply sum_sizes_nonneg. intros a. unfold appendActionBytecodeSize. destruct (negb _); lia.
Qed.

Lemma code_max_trans t :
  code_max_size (trans_code t) =
  sum_sizes checkForJumpTableMaxBytecodeSize (t_jumpTables t) + sum_sizes checkForRangeMaxBytecodeSize (t_ranges t)
  + (if t_useFallbackTransition t then 1 + 4 else 1).
Proof.
  unfold code_max_size, trans_code. rewrite !sum_sizes_app, !sum_sizes_map, Z.add_assoc.
  f_equal. by destruct (t_useFallbackTransition t).
Qed.

Lemma compiledNodeMax_spec n :
  0 <= n < node_count -> full_size dfa n < 2 ^ 30 -> compiledNodeMaxBytecodeSize dfa n = Done (full_size dfa n).
Proof.
  intros Hn Hb. pose proof (full_size_nonneg n) as H0. unfold compiledNodeMaxBytecodeSize. destruct (is_live dfa n) eqn:El.
  - apply is_live_spec in El as Hl. destruct (live_ready _ Hwf n Hl) as (node & Hr).
    rewrite (nr_node _ _ _ Hr). cbn [obind]. rewrite (nr_killed _ _ _ Hr), (nr_actions _ _ _ Hr). cbn [obind].
    unfold nodeTransitionsMaxBytecodeSize. rewrite (nr_tables _ _ _ Hr). cbn [obind]. f_equal.
    unfold full_size in *. rewrite El in *. rewrite <- code_max_trans, <- code_max_full. apply u32_small. lia.
  - unfold full_size. rewrite El. unfold is_live in El. destruct (vget_total _ _ Hn) as (node & E & _). rewrite E in *. cbn [obind].
    apply negb_false_iff in El. by rewrite El.
Qed.

Lemma max_offsets_loop l : forall v next,
  vsize v = node_count -> NoDup l -> Forall (fun n => 0 <= n < node_count /\ n <> dfa_root dfa) l ->
  0 <= next -> next + sum_sizes (full_size dfa) l < 2 ^ 30 ->
  exists v', ofold (fun s i =>
      let '(v, nextIndex) := s in
      let* v' := vset v i nextIndex in
      let* size := compiledNodeMaxBytecodeSize dfa i in
      Done (v', u32 (nextIndex + size))) (v, next) l = Done (v', next + sum_sizes (full_size dfa) l) /\
    vsize v' = node_count /\ (forall d, d ∉ l -> start_of v' d = start_of v d) /\ maxes_from dfa v' next l.
Proof.
  induction l as [|n l IH]; intros v next Hv Hnd Hl H0 Hb.
  { exists v. cbn. rewrite Z.add_0_r. split_and!; try done. constructor. }
  apply NoDup_cons in Hnd as [Hni Hnd]. apply Forall_cons in Hl as [[Hn Hnr] Hl].
  assert (Hz : 0 <= sum_sizes (full_size dfa) l) by (apply sum_sizes_nonneg, full_size_nonneg).
  pose proof (full_size_nonneg n) as Hfn.
  cbn [sum_sizes foldr] in Hb |- *. fold (sum_sizes (full_size dfa) l) in Hb |- *.
  cbn [ofold]. rewrite vset_Done by lia. cbn [obind]. rewrite compiledNodeMax_spec by lia. cbn [obind].
  rewrite u32_small by lia.
  destruct (IH (<[Z.to_nat n := next]> v) (next + full_size dfa n)) as (v' & E & Hs & Hk & Hm);
    [by rewrite vsize_insert|done|done|lia|lia|].
  exists v'. split_and!; [by rewrite E, Z.add_assoc|done| |].
  - intros d [Hd1 Hd2]%not_elem_of_cons. rewrite Hk by done. rewrite start_of_insert by lia.
    destruct (Z.eqb_spec d n); congruence.
  - constructor.
    + rewrite Hk by done. rewrite start_of_insert, Z.eqb_refl by lia. done.
    + by rewrite full_size_other.
Qed.
End Maxes.

(** ** The whole compilation *)

Section Compile.
Context (dfa : DFA) (Hwf : dfa_wf dfa).

Abbreviation node_count := (vsize (dfa_nodes dfa)).
Abbreviation root := (dfa_root dfa).

Definition root_actions_size : Z := sum_sizes appendActionBytecodeSize (dfa_node_actions dfa root).

Lemma root_actions_size_nonneg : 0 <= root_actions_size.
Proof. apply sum_sizes_nonneg. intros a. unfold appendActionBytecodeSize. destruct (negb _); lia. Qed.

Lemma root_full_size : full_size dfa root = root_actions_size + prog_size dfa root.
Proof.
  pose proof (dwf_root _ Hwf) as Hl. apply is_live_spec in Hl. unfold full_size, prog_size, node_prog. rewrite Hl, Z.eqb_refl.
  apply code_max_full.
Qed.

Lemma others_full_size l : root ∉ l -> sum_sizes (prog_size dfa) l = sum_sizes (full_size dfa) l.
Proof.
  induction l as [|n l IH]; intros Hn; [done|]. apply not_elem_of_cons in Hn as [Hn1 Hn2]. cbn [sum_sizes foldr].
  fold (sum_sizes (prog_size dfa) l) (sum_sizes (full_size dfa) l). rewrite IH, full_size_other by done. done.
Qed.

Lemma root_not_other : root ∉ other_nodes dfa.
Proof. rewrite elem_of_other_nodes. naive_solver. Qed.

Lemma order_NoDup : NoDup (root :: other_nodes dfa).
Proof. constructor; [apply root_not_other|apply NoDup_other_nodes]. Qed.

Lemma order_size : 4 + root_actions_size + sum_sizes (prog_size dfa) (root :: other_nodes dfa) = code_size_bound dfa.
Proof.
  cbn [sum_sizes foldr]. fold (sum_sizes (prog_size dfa) (other_nodes dfa)). rewrite others_full_size by apply root_not_other.
  unfold code_size_bound. rewrite root_full_size. lia.
Qed.

Lemma order_others : Forall (fun n => 0 <= n < node_count /\ n <> root) (other_nodes dfa).
Proof. apply Forall_forall. intros n. by rewrite elem_of_other_nodes. Qed.

Lemma max_offsets_spec :
  code_size_bound dfa < 2 ^ 30 ->
  exists maxes, max_offsets dfa = Done maxes /\ vsize maxes = node_count /\
    maxes_from dfa maxes (4 + root_actions_size) (root :: other_nodes dfa).
Proof.
  intros Hb. pose proof (dwf_root _ Hwf) as Hl. destruct (live_ready _ Hwf _ Hl) as (node & Hr).
  pose proof (live_bound _ _ Hl) as Hrb. pose proof root_actions_size_nonneg as Ha. pose proof (prog_size_nonneg _ Hwf root) as Hp.
  assert (Hs : 0 <= sum_sizes (full_size dfa) (other_nodes dfa)) by (apply sum_sizes_nonneg, full_size_nonneg; done).
  unfold code_size_bound in Hb. pose proof root_full_size as Ef.
  unfold max_offsets. rewrite (nr_node _ _ _ Hr). cbn [obind]. rewrite (nr_actions _ _ _ Hr). cbn [obind].
  fold root_actions_size. rewrite (u32_small (4 + _)) by lia.
  rewrite vset_Done by (unfold vsize in *; rewrite length_replicate; lia). cbn [obind].
  rewrite compiledNodeMax_spec by (done || lia). cbn [obind]. rewrite u32_small by lia.
  rewrite (ofold_ext _ (fun s i => if negb (i =? root) then
      (let '(v, nextIndex) := s in
       let* v' := vset v i nextIndex in
       let* size := compiledNodeMaxBytecodeSize dfa i in
       Done (v', u32 (nextIndex + size))) else Done s)); [|by intros [v next] i; destruct (negb (i =? root))].
  rewrite (ofold_filter (fun i => negb (i =? root))). fold (other_nodes dfa).
  set (v0 := <[_ := _]> _).
  assert (Hv0 : vsize v0 = node_count) by (unfold v0; rewrite vsize_insert; unfold vsize; by rewrite length_replicate).
  destruct (max_offsets_loop dfa Hwf (other_nodes dfa) v0 (4 + full_size dfa root)) as (v & E & Hv & Hk & Hm);
    [done|apply NoDup_other_nodes|apply order_others|lia|lia|].
  rewrite E. cbn [obind]. exists v. split_and!; [done|done|]. constructor.
  - rewrite Hk by apply root_not_other. unfold v0. rewrite start_of_insert, Z.eqb_refl; [done|].
    unfold vsize in *. rewrite length_replicate. lia.
  - replace (4 + root_actions_size + prog_size dfa root) with (4 + full_size dfa root) by lia. done.
Qed.
(** [compile] succeeds; the code of every live node is in place. *)
Record compiled (bc0 bc : list Z) (off : Z -> Z) : Prop := {
  cp_header : exists code, bc = le_bytes 4 (vsize bc) ++ code;
  cp_size : 4 <= vsize bc <= code_size_bound dfa;
  cp_root : code_at off (bc0 ++ bc) (vsize bc0 + 4) (full_prog dfa root);
  cp_nodes : forall n, live dfa n -> code_at off (bc0 ++ bc) (off n) (node_prog dfa n)
}.

(** The emission: all the nodes are placed after the actions of the root. *)
Lemma compile_nodes_placed bc maxes starts :
  vsize maxes = node_count -> vsize starts = node_count ->
  let acts := action_items (dfa_node_actions dfa root) in
  exists its starts', placed dfa maxes starts (vsize bc + vsize (flat0 acts)) (root :: other_nodes dfa) its starts' /\
    compile_nodes dfa (mkCompiler bc maxes starts []) =
      Done (mkCompiler (bc ++ flat0 (acts ++ its)) maxes starts' (links (vsize bc) (acts ++ its))).
Proof.
  intros Hm Hs acts. unfold compile_nodes. set (c := mkCompiler bc maxes starts []).
  destruct (compileNode_root dfa Hwf maxes c) as (its1 & E1 & He1); [done..|]. fold acts in E1, He1.
  rewrite E1. cbn [obind]. rewrite (ofold_filter (fun i => negb (i =? root))). fold (other_nodes dfa).
  destruct (compile_others_placed dfa Hwf maxes (other_nodes dfa) (push (place (push c acts) root) its1))
    as (its2 & starts' & Hp & E2); [done|done|cbn; by rewrite vsize_insert|apply order_others|].
  rewrite E2. exists (its1 ++ its2), starts'. cbn in Hp, He1. rewrite !vsize_app in Hp. rewrite vsize_app in He1. split.
  - apply pl_node; [apply (dwf_root _ Hwf)|done|done].
  - unfold set_nodeStartOffsets. f_equal. rewrite push_app. cbn. rewrite !flat0_app, !links_app, !vsize_app, <- !app_assoc. done.
Qed.

(** The actions of the root come first. *)
Lemma code_at_actions off bc l : forall pc code pre post,
  bc = pre ++ flat off (action_items l) ++ post -> pc = vsize pre ->
  code_at off bc (pc + sum_sizes appendActionBytecodeSize l) code -> code_at off bc pc (map IAct l ++ code).
Proof.
  induction l as [|a l IH]; intros pc code pre post Hbc Hpc Hc; simpl in *.
  - by rewrite Z.add_0_r in Hc.
  - unfold flat in Hbc. simpl in Hbc. fold (flat off (action_items l)) in Hbc. rewrite <- app_assoc in Hbc.
    apply (ca_cons off bc pc Int8 (IAct a) _ pre (flat off (action_items l) ++ post)).
    + unfold instr_bytes, flat. simpl. rewrite app_nil_r. done.
    + done.
    + exact I.
    + constructor.
    + simpl. eapply (IH _ code (pre ++ action_bytes a) post).
      * by rewrite Hbc, <- app_assoc.
      * rewrite vsize_app, vsize_action_bytes. lia.
      * by rewrite <- Z.add_assoc.
Qed.

Lemma vsize_action_items l : vsize (flat0 (action_items l)) = sum_sizes appendActionBytecodeSize l.
Proof.
  induction l as [|a l IH]; [done|]. unfold action_items, flat0 in *. simpl. rewrite vsize_app, vsize_action_bytes, IH. done.
Qed.

Abbreviation no_starts := (replicate (length (dfa_nodes dfa)) UINT32_MAX).

(** Nothing is placed yet. *)
Lemma in_bounds_start bound maxes loc :
  vsize maxes = node_count -> maxes_from dfa maxes (4 + root_actions_size) (root :: other_nodes dfa) ->
  4 + root_actions_size <= loc -> loc + sum_sizes (prog_size dfa) (root :: other_nodes dfa) <= bound ->
  in_bounds dfa maxes bound no_starts loc (4 + root_actions_size) (root :: other_nodes dfa).
Proof.
  intros Hms Hmf Hloc Hb. pose proof root_actions_size_nonneg.
  constructor; [unfold vsize; by rewrite length_replicate|done|lia|done|apply order_NoDup|]. intros d Hd. left.
  pose proof (live_bound _ _ Hd). split.
  - rewrite elem_of_cons, elem_of_other_nodes. lia.
  - unfold start_of. unfold vget, vsize in *. destruct (Z.ltb_spec d 0); [lia|]. by rewrite lookup_replicate_2 by lia.
Qed.

(** Once every hole is filled, the code is in place. *)
Lemma placed_compiled bc0 maxes its starts' :
  vsize maxes = node_count ->
  placed dfa maxes no_starts (vsize bc0 + 4 + root_actions_size) (root :: other_nodes dfa) its starts' ->
  Forall (item_linkable starts') its ->
  let off := start_of starts' in
  let code := flat off (action_items (dfa_node_actions dfa root) ++ its) in
  compiled bc0 (le_bytes 4 (4 + vsize code) ++ code) off.
Proof.
  intros Hms Hp Hlk off code. set (acts := action_items (dfa_node_actions dfa root)) in *.
  set (pre := bc0 ++ le_bytes 4 (4 + vsize code)).
  assert (Hpre : vsize pre = vsize bc0 + 4) by (unfold pre; by rewrite vsize_app, vsize_le_bytes).
  assert (Ebc : bc0 ++ le_bytes 4 (4 + vsize code) ++ code = (pre ++ flat off acts) ++ flat off its ++ []).
  { unfold pre, code. by rewrite flat_app, app_nil_r, <- !app_assoc. }
  assert (Hza : vsize (flat off acts) = root_actions_size) by (rewrite <- vsize_flat0; apply vsize_action_items).
  pose proof (placed_size _ _ _ _ _ _ _ Hp) as [Hss' Hzp]. pose proof order_size as Hord. pose proof root_actions_size_nonneg.
  assert (Hn : forall n, live dfa n -> code_at off (bc0 ++ le_bytes 4 (4 + vsize code) ++ code) (off n) (node_prog dfa n)).
  { intros n Hn. eapply placed_code_at; [exact Hp|..|exact Ebc| | | |done].
    - unfold vsize. by rewrite length_replicate.
    - apply order_NoDup.
    - rewrite vsize_app. lia.
    - eapply Forall_impl; [exact Hlk|]. intros [bs|s l loc d]; [done|]. by intros [? _].
    - rewrite elem_of_cons, elem_of_other_nodes. pose proof (live_bound _ _ Hn). lia. }
  constructor.
  - exists code. by rewrite vsize_app, vsize_le_bytes.
  - rewrite vsize_app, vsize_le_bytes. unfold code. rewrite flat_app, vsize_app, <- (vsize_flat0 off its). lia.
  - unfold full_prog. eapply code_at_actions; [rewrite Ebc, <- app_assoc; done|done|]. fold root_actions_size.
    specialize (Hn root (dwf_root _ Hwf)). unfold node_prog in Hn. rewrite Z.eqb_refl in Hn.
    replace (vsize bc0 + 4 + root_actions_size) with (off root); [done|].
    inversion Hp as [|? ? ? ? ? ? Hl|? ? ? ? its1 its2 ? Hl He Hp']; subst.
    { pose proof (dwf_root _ Hwf) as Hl'. apply is_live_spec in Hl'. congruence. }
    unfold off. pose proof (live_bound _ _ Hl).
    erewrite placed_keeps; [|done|rewrite vsize_insert; unfold vsize; by rewrite length_replicate|apply root_not_other].
    rewrite start_of_insert, Z.eqb_refl; [done|]. unfold vsize in *. rewrite length_replicate. lia.
  - done.
Qed.

Lemma compile_layout bc0 :
  vsize bc0 + code_size_bound dfa < 2 ^ 30 ->
  exists bc off, compile dfa bc0 = Done (bc0 ++ bc) /\ compiled bc0 bc off.
Proof.
  intros Hb. pose proof (vsize_nonneg bc0) as H0.
  destruct max_offsets_spec as (maxes & Em & Hms & Hmf); [lia|]. set (hd := bc0 ++ le_bytes 4 0).
  assert (Hhd : vsize hd = vsize bc0 + 4) by (unfold hd; by rewrite vsize_app, vsize_le_bytes).
  destruct (compile_nodes_placed hd maxes no_starts Hms) as (its & starts' & Hp & En).
  { unfold vsize. by rewrite length_replicate. }
  set (acts := action_items (dfa_node_actions dfa root)) in *.
  assert (Hza : vsize (flat0 acts) = root_actions_size) by apply vsize_action_items. rewrite Hhd, Hza in Hp.
  pose proof order_size as Hord. pose proof root_actions_size_nonneg.
  assert (Hlk : Forall (item_linkable starts') its).
  { eapply (placed_linkable dfa Hwf maxes (vsize bc0 + code_size_bound dfa)); [exact Hp|done|].
    apply in_bounds_start; [done|done|lia|lia]. }
  exists (le_bytes 4 (4 + vsize (flat (start_of starts') (acts ++ its))) ++ flat (start_of starts') (acts ++ its)), (start_of starts').
  split; [|by eapply placed_compiled].
  unfold compile. rewrite Em. cbn [obind]. unfold append_int. fold hd. rewrite En. cbn [obind m_nodeStartOffsets m_bytecode m_linkRecords].
  rewrite <- (app_nil_r (flat0 _)). rewrite link_items.
  - cbn [obind]. rewrite app_nil_r. unfold hd. rewrite <- app_assoc. rewrite (setBits_at 4 bc0 (le_bytes 4 0)) by done.
    rewrite !vsize_app, vsize_le_bytes. do 4 f_equal. lia.
  - apply Forall_app. split; [|done]. unfold acts, action_items. apply Forall_fmap, Forall_true. done.
Qed.
End Compile.
