(* ===== verification/BytecodeCorrect.v ===== *)
(** * The interpreter runs the automaton

    On compiled bytecode the interpreter follows the transitions of the
    automaton along the URL and its terminating zero, and collects the actions
    of the nodes it enters, filtered by resource flags and by domain. *)

From stdpp Require Import gmap.
From S2P Require Import Prelude Containers ResourceLoad Dfa Bytecode BytecodeCompiler TransitionTables BytecodeLayout BytecodeLink BytecodeInterpreter.

(** ** Filtering of actions *)

(** The trigger flags of an action against the flags of a load: for the load
    type and for the resource type, no restriction or a common bit. *)
Definition group_matches (mask actionFlags flags : Z) : bool :=
  (Z.land actionFlags mask =? 0) || negb (Z.land (Z.land actionFlags mask) flags =? 0).

Definition flags_match (flags action : Z) : bool :=
  let actionFlags := u16 (Z.shiftr action 32) in
  group_matches LoadTypeMask actionFlags flags && group_matches ResourceTypeMask actionFlags flags.

Section Collect.
Context `{HashOrder} (domainActions : option (list Z)) (flags : Z).

Definition allowed (action : Z) : bool := flags_match flags action && domain_allows domainActions action.

Definition collect (acc l : list Z) : list Z :=
  foldl (fun acc a => if allowed a then hs_add acc a else acc) acc l.

Lemma collect_app acc l1 l2 : collect acc (l1 ++ l2) = collect (collect acc l1) l2.
Proof. apply foldl_app. Qed.

(** The collected set: the allowed actions. *)
Lemma elem_of_collect acc l a : a ∈ collect acc l <-> (a ∈ l /\ allowed a = true) \/ a ∈ acc.
Proof.
  unfold collect. revert acc. induction l as [|x l IH]; intros acc; cbn [foldl]; [rewrite elem_of_nil; tauto|].
  rewrite IH, elem_of_cons. destruct (allowed x) eqn:E; [rewrite elem_of_hs_add|]; intuition (subst; tauto || congruence).
Qed.

Lemma NoDup_collect acc l : NoDup acc -> NoDup (collect acc l).
Proof. unfold collect. revert acc. induction l as [|x l IH]; intros acc Hn; cbn [foldl]; [done|]. apply IH. destruct (allowed x); auto with ce. Qed.
End Collect.

(** ** Reading bytes *)

Lemma getBits_u8_get bc i b : vget bc i = Done b -> getBits_u8 bc i = Done b.
Proof.
  intros [Hi Hb]%vget_Done. apply list_elem_of_split_length in Hb as (l1 & l2 & -> & Hl).
  unfold getBits_u8. change (b :: l2) with ([b] ++ l2). rewrite getBits_unsigned_at; [simpl; f_equal; lia|unfold vsize; lia|done].
Qed.

Lemma getBits_u8_at pre b post i : i = vsize pre -> getBits_u8 (pre ++ b :: post) i = Done b.
Proof. intros ->. apply getBits_u8_get, vget_app_here. done. Qed.

Lemma getBits_u8_at1 pre x b post i : i = vsize pre + 1 -> getBits_u8 (pre ++ x :: b :: post) i = Done b.
Proof.
  intros ->. change (x :: b :: post) with ([x] ++ b :: post). rewrite app_assoc.
  apply getBits_u8_at. by rewrite vsize_app.
Qed.

Lemma getBits_u8_at2 pre x y b post i : i = vsize pre + 1 + 1 -> getBits_u8 (pre ++ x :: y :: b :: post) i = Done b.
Proof.
  intros ->. change (x :: y :: b :: post) with ([x; y] ++ b :: post). rewrite app_assoc.
  apply getBits_u8_at. rewrite vsize_app. change (vsize [x; y]) with 2. lia.
Qed.

Lemma getInstruction_at pre b post i : i = vsize pre ->
  getInstruction (pre ++ b :: post) i = Done (instruction_of_code (Z.land b DFABytecodeInstructionMask)).
Proof. intros ->. unfold getInstruction. by rewrite getBits_u8_at. Qed.

Lemma getInstruction_opcode pre i s post pc : pc = vsize pre ->
  getInstruction (pre ++ opcode i s :: post) pc = Done (Some i).
Proof. intros ->. rewrite getInstruction_at by done. by rewrite opcode_instruction. Qed.

Lemma getJumpSize_opcode pre i s post pc : pc = vsize pre -> getJumpSize (pre ++ opcode i s :: post) pc = Done s.
Proof. intros ->. unfold getJumpSize. rewrite getBits_u8_at by done. cbn [obind]. by rewrite opcode_jump_size. Qed.

Lemma le_bytes_1 b : 0 <= b < 256 -> le_bytes 1 b = [b].
Proof. intros Hb. simpl. by rewrite Z.mod_small. Qed.

Lemma le_bytes_opcode i s : le_bytes 1 (opcode i s) = [opcode i s].
Proof. simpl. by rewrite opcode_byte. Qed.

(** An action instruction holds the fields of the action word. *)
Lemma action_bytes_cases a :
  action_wf a ->
  (exists d location, 0 <= location < 2 ^ 32 /\ a = action_word d 0 location /\
     action_bytes a = instruction_code (if d then AppendActionWithIfDomain else AppendAction) :: le_bytes 4 location) \/
  (exists d fl location, 0 < fl < 2 ^ 16 /\ 0 <= location < 2 ^ 32 /\ a = action_word d fl location /\
     action_bytes a = instruction_code (if d then TestFlagsAndAppendActionWithIfDomain else TestFlagsAndAppendAction)
                      :: le_bytes 2 fl ++ le_bytes 4 location).
Proof.
  intros (d & fl & location & -> & Hf & Hl). unfold action_bytes.
  rewrite action_word_has_flags, action_word_has_domain, action_word_location, action_word_flags by done.
  destruct (Z.eqb_spec fl 0) as [->|]; [left; exists d, location|right; exists d, fl, location]; split_and!; try lia; try done;
    by destruct d.
Qed.

Lemma le_value_2 z : 0 <= z < 2 ^ 16 -> le_value (le_bytes 2 z) = z.
Proof. intros Hz. rewrite le_value_bytes. apply Z.mod_small. lia. Qed.

Lemma le_value_4 z : 0 <= z < 2 ^ 32 -> le_value (le_bytes 4 z) = z.
Proof. intros Hz. rewrite le_value_bytes. apply Z.mod_small. lia. Qed.

(** ** One instruction *)

Section Step.
Context `{HashOrder} (domainActions : option (list Z)) (off : Z -> Z) (bc : list Z) (url : list Z) (flags : Z).

Context (Hsize : vsize bc < 2 ^ 31) (Hurl : vsize url < 2 ^ 31).

Abbreviation exec := (interpret_instruction bc domainActions url flags).

(** The state after following an edge to node [d] on [c]. *)
Definition entered (s : state) (c d : Z) : state := mkState (off d) (urlIndex s + 1) (c =? 0) (st_actions s).

Lemma exec_Term pre post s :
  bc = pre ++ instr_bytes off Int8 (programCounter s) ITerm ++ post -> programCounter s = vsize pre -> exec s = Done None.
Proof.
  intros Hbc Hpc. unfold interpret_instruction. rewrite Hbc at 1. unfold instr_bytes, flat. cbn [instr_items map concat linked_bytes].
  rewrite app_nil_r. cbn [le_bytes app]. rewrite getInstruction_at by done. reflexivity.
Qed.

Lemma fold_case_0 cs c : 0 <= c < 128 -> (fold_case cs c =? 0) = (c =? 0).
Proof.
  intros Hc. unfold fold_case. destruct cs; [done|]. rewrite toASCIILower_spec by done. unfold isASCIIUpper.
  ztest; try lia.
Qed.

Lemma take_edge_entered s c cs d :
  urlIndexIsAfterEndOfString s = false -> 0 <= c < 128 -> 0 <= urlIndex s <= vsize url -> 0 <= off d < 2 ^ 31 ->
  take_edge s (fold_case cs c) (off d - programCounter s) = entered s c d.
Proof.
  intros He Hc Hi Hd. unfold take_edge, entered. rewrite He, fold_case_0 by done. cbn [orb].
  rewrite !u32_small by lia. f_equal. lia.
Qed.

Lemma code_at_cons pc i code :
  code_at off bc pc (i :: code) -> exists s pre post, bc = pre ++ instr_bytes off s pc i ++ post /\ pc = vsize pre /\ instr_wf i /\
    Forall (fun d => jump_fits s (off d - pc)) (instr_dests i) /\ code_at off bc (pc + instr_size s i) code.
Proof. inversion 1. subst pc0 i0 code0. eexists s, pre, post. eauto. Qed.

Lemma offset_bound n code : code_at off bc (off n) code -> code <> [] -> 0 <= off n < 2 ^ 31.
Proof.
  destruct code as [|i code]; intros Hc Hne; [done|]. apply code_at_cons in Hc as (s & pre & post & Hbc & Hpc & _). rewrite Hpc.
  pose proof (vsize_nonneg pre). apply (f_equal vsize) in Hbc. rewrite vsize_app in Hbc.
  pose proof (vsize_nonneg (instr_bytes off s (off n) i ++ post)). lia.
Qed.

(** Where an instruction ends is inside of the bytecode. *)
Lemma instr_end pre post s pc i :
  bc = pre ++ instr_bytes off s pc i ++ post -> vsize pre + instr_size s i <= vsize bc < 2 ^ 31.
Proof.
  intros Hbc. apply (f_equal vsize) in Hbc. rewrite !vsize_app, vsize_instr_bytes in Hbc. pose proof (vsize_nonneg post). lia.
Qed.

Section Char.
(** A state in front of the character [c]. *)
Context (s : state) (c : Z).
Context (Hend : urlIndexIsAfterEndOfString s = false) (Hc : url_at url (urlIndex s) = Done c) (Hascii : 0 <= c < 128).

Lemma index_bound : 0 <= urlIndex s <= vsize url.
Proof. apply vget_range in Hc. rewrite vsize_app in Hc. change (vsize [0]) with 1 in Hc. lia. Qed.

Lemma exec_Jump sz pre post d :
  bc = pre ++ instr_bytes off sz (programCounter s) (IJump d) ++ post -> programCounter s = vsize pre ->
  jump_fits sz (off d - programCounter s) -> 0 <= off d < 2 ^ 31 ->
  exec s = if c =? 0 then Done None else Done (Some (entered s c d)).
Proof.
  intros Hbc Hpc Hf Hd. unfold interpret_instruction. unfold instr_bytes, flat in Hbc. cbn [instr_items map concat linked_bytes hole] in Hbc.
  rewrite app_nil_r, le_bytes_opcode in Hbc. cbn [app] in Hbc.
  rewrite Hbc at 1. rewrite getInstruction_opcode by done. cbn [obind]. rewrite Hc. cbn [obind]. rewrite Hend, orb_false_r.
  destruct (c =? 0) eqn:E0; [done|]. rewrite Hbc at 1. rewrite getJumpSize_opcode by done. cbn [obind].
  rewrite Hbc. change (opcode Jump sz :: ?x) with ([opcode Jump sz] ++ x). rewrite app_assoc.
  rewrite getJumpDistance_at; [|rewrite vsize_app, Hpc; done|done]. cbn [obind]. unfold entered. rewrite E0.
  pose proof index_bound. rewrite !u32_small by lia. do 3 f_equal. lia.
Qed.

Lemma exec_Range sz pre post r :
  bc = pre ++ instr_bytes off sz (programCounter s) (IRange r) ++ post -> programCounter s = vsize pre -> range_wf r ->
  jump_fits sz (off (r_destination r) - programCounter s) -> 0 <= off (r_destination r) < 2 ^ 31 ->
  exec s = Done (Some (if range_hits r c then entered s c (r_destination r)
                       else at_pc s (programCounter s + instr_size sz (IRange r)))).
Proof.
  intros Hbc Hpc Hw Hf Hd. pose proof (instr_end _ _ _ _ _ Hbc) as Hie. pose proof index_bound as Hib. destruct Hw as (Hw1 & Hw2 & _).
  pose proof (take_edge_entered s c (r_caseSensitive r) (r_destination r) Hend Hascii Hib Hd) as Hte.
  pose proof (vsize_nonneg pre). pose proof (jumpSizeInBytes_pos sz).
  unfold instr_bytes, flat in Hbc. cbn [instr_items map concat linked_bytes hole] in Hbc. rewrite app_nil_r in Hbc.
  unfold range_head in Hbc. unfold interpret_instruction, range_hits. cbn [instr_size] in *.
  destruct (Z.eqb_spec (r_min r) (r_max r)) as [Em|Em].
  - rewrite le_bytes_opcode, le_bytes_1 in Hbc by lia. cbn [app] in Hbc.
    rewrite Hbc at 1. rewrite getInstruction_opcode by done. cbn [obind]. rewrite Hend.
    assert (E : interpret_check_value bc (r_caseSensitive r) url s =
      Done (if (r_min r <=? fold_case (r_caseSensitive r) c) && (fold_case (r_caseSensitive r) c <=? r_max r)
            then entered s c (r_destination r) else at_pc s (programCounter s + (2 + jumpSizeInBytes sz)))).
    { unfold interpret_check_value. rewrite Hc. cbn [obind]. rewrite Hbc at 1. rewrite getJumpSize_opcode by done. cbn [obind].
      rewrite Hbc at 1. rewrite getBits_u8_at1 by lia. cbn [obind]. fold (fold_case (r_caseSensitive r) c).
      rewrite Hbc. change (?a :: ?b :: ?x) with ([a; b] ++ x). rewrite app_assoc.
      rewrite getJumpDistance_at; [|rewrite vsize_app; change (vsize [_; _]) with 2; lia|done]. cbn [obind]. rewrite Hte.
      rewrite u32_small by lia. ztest; try lia; try done. all: try (do 2 f_equal; lia). }
    destruct (r_caseSensitive r); rewrite E; done.
  - rewrite le_bytes_opcode, !le_bytes_1 in Hbc by lia. cbn [app] in Hbc.
    rewrite Hbc at 1. rewrite getInstruction_opcode by done. cbn [obind]. rewrite Hend.
    assert (E : interpret_check_range bc (r_caseSensitive r) url s =
      Done (if (r_min r <=? fold_case (r_caseSensitive r) c) && (fold_case (r_caseSensitive r) c <=? r_max r)
            then entered s c (r_destination r) else at_pc s (programCounter s + (3 + jumpSizeInBytes sz)))).
    { unfold interpret_check_range. rewrite Hc. cbn [obind]. rewrite Hbc at 1. rewrite getJumpSize_opcode by done. cbn [obind].
      rewrite Hbc at 1. rewrite getBits_u8_at1 by lia. cbn [obind].
      rewrite Hbc at 1. rewrite getBits_u8_at2 by lia. cbn [obind]. fold (fold_case (r_caseSensitive r) c).
      rewrite Hbc. change (?a :: ?b :: ?d :: ?x) with ([a; b; d] ++ x). rewrite app_assoc.
      rewrite getJumpDistance_at; [|rewrite vsize_app; change (vsize [_; _; _]) with 3; lia|done]. cbn [obind]. rewrite Hte.
      rewrite u32_small by lia. destruct (_ && _); [done|]. do 2 f_equal. lia. }
    destruct (r_caseSensitive r); rewrite E; done.
Qed.

(** The entry of a jump table for its [k]-th destination. *)
Lemma table_entry sz pre head ds post k d :
  ds !! k = Some d -> jump_fits sz (off d - programCounter s) ->
  getJumpDistance (pre ++ (head ++ flat off (map (hole sz (fun _ => 0) (programCounter s)) ds)) ++ post)
    (vsize pre + vsize head + Z.of_nat k * jumpSizeInBytes sz) sz = Done (off d - programCounter s).
Proof.
  intros Hk Hf. apply list_elem_of_split_length in Hk as (l1 & l2 & -> & Hl). rewrite map_app, flat_app.
  unfold flat at 2. cbn [map concat linked_bytes hole]. fold (flat off (map (hole sz (fun _ => 0) (programCounter s)) l2)).
  rewrite <- !app_assoc. rewrite !(app_assoc pre), (app_assoc (pre ++ head)).
  apply getJumpDistance_at; [|done]. rewrite !vsize_app, vsize_flat_holes. unfold vsize at 5. lia.
Qed.

Lemma exec_Table sz pre post t :
  bc = pre ++ instr_bytes off sz (programCounter s) (ITable t) ++ post -> programCounter s = vsize pre -> table_wf t ->
  Forall (fun d => jump_fits sz (off d - programCounter s)) (jt_destinations t) ->
  Forall (fun d => 0 <= off d < 2 ^ 31) (jt_destinations t) ->
  exec s = Done (Some (match table_hit t c with
                       | Some d => entered s c d
                       | None => at_pc s (programCounter s + instr_size sz (ITable t))
                       end)).
Proof.
  intros Hbc Hpc Hw Hf Hd. pose proof (instr_end _ _ _ _ _ Hbc) as Hie. pose proof index_bound as Hib. destruct Hw as (Hw1 & Hw2 & Hw3 & _).
  pose proof (vsize_nonneg pre). pose proof (jumpSizeInBytes_pos sz).
  unfold instr_bytes, flat in Hbc. cbn [instr_items map concat linked_bytes] in Hbc.
  fold (flat off (map (hole sz (fun _ => 0) (programCounter s)) (jt_destinations t))) in Hbc.
  set (entries := flat _ _) in Hbc. unfold table_head in Hbc. rewrite le_bytes_opcode, !le_bytes_1 in Hbc by lia.
  set (instruction := if jt_caseSensitive t then JumpTableCaseSensitive else JumpTableCaseInsensitive) in Hbc.
  unfold interpret_instruction, table_hit. cbn [instr_size] in *.
  assert (Hbc' : bc = pre ++ opcode instruction sz :: jt_min t :: jt_max t :: entries ++ post) by done.
  rewrite Hbc' at 1. rewrite getInstruction_opcode by done. cbn [obind]. rewrite Hend.
  set (c' := fold_case (jt_caseSensitive t) c).
  assert (E : interpetJumpTable bc (jt_caseSensitive t) url s =
    Done (match (if (jt_min t <=? c') && (c' <=? jt_max t) then jt_destinations t !! Z.to_nat (c' - jt_min t) else None) with
          | Some d => entered s c d
          | None => at_pc s (programCounter s + (3 + vsize (jt_destinations t) * jumpSizeInBytes sz))
          end)).
  { unfold interpetJumpTable. rewrite Hbc' at 1. rewrite getJumpSize_opcode by done. cbn [obind]. rewrite Hc. cbn [obind].
    fold (fold_case (jt_caseSensitive t) c). fold c'.
    rewrite Hbc' at 1. rewrite getBits_u8_at1 by lia. cbn [obind]. rewrite Hbc' at 1. rewrite getBits_u8_at2 by lia. cbn [obind].
    destruct (Z.leb_spec (jt_min t) c'), (Z.leb_spec c' (jt_max t)); cbn [andb];
      try (do 2 f_equal; rewrite u32_small; rewrite Hw3 in *; lia).
    destruct (lookup_lt_is_Some_2 (jt_destinations t) (Z.to_nat (c' - jt_min t))) as [d Hk]; [unfold vsize in Hw3; lia|].
    rewrite Hk. pose proof (list_elem_of_lookup_2 _ _ _ Hk) as Hin. rewrite Forall_forall in Hf, Hd.
    rewrite Hbc. change ([?a] ++ [?b] ++ [?e]) with [a; b; e].
    replace (programCounter s + 1 + 2 * 1 + (c' - jt_min t) * jumpSizeInBytes sz)
      with (vsize pre + vsize [opcode instruction sz; jt_min t; jt_max t] + Z.of_nat (Z.to_nat (c' - jt_min t)) * jumpSizeInBytes sz)
      by (rewrite Z2Nat.id by lia; change (vsize [opcode instruction sz; jt_min t; jt_max t]) with 3; lia).
    unfold entries. rewrite (table_entry sz pre _ _ post _ d Hk) by auto. cbn [obind]. f_equal.
    apply take_edge_entered; auto. }
  unfold instruction. destruct (jt_caseSensitive t); rewrite E; done.
Qed.
End Char.

(** After the end of the string every test stops the automaton. *)
Lemma exec_after_end code s :
  urlIndexIsAfterEndOfString s = true -> code_at off bc (programCounter s) code ->
  match code with ITable _ :: _ | IRange _ :: _ | ITerm :: _ => True | _ => False end -> exec s = Done None.
Proof.
  intros He Hc Hi. destruct code as [|i code]; [done|]. apply code_at_cons in Hc as (sz & pre & post & Hbc & Hpc & _).
  unfold instr_bytes, flat in Hbc. unfold interpret_instruction. rewrite He.
  destruct i as [a|t|r|d|]; try done; cbn [instr_items map concat linked_bytes] in Hbc.
  - unfold table_head in Hbc. rewrite le_bytes_opcode in Hbc. rewrite Hbc. cbn [app]. rewrite getInstruction_opcode by done.
    by destruct (jt_caseSensitive t).
  - unfold range_head in Hbc. rewrite !le_bytes_opcode in Hbc.
    destruct (r_min r =? r_max r); rewrite Hbc; cbn [app]; rewrite getInstruction_opcode by done; by destruct (r_caseSensitive r).
  - rewrite Hbc. cbn [le_bytes app]. by rewrite getInstruction_at.
Qed.

Lemma flags_match_0 d location : 0 <= location < 2 ^ 32 -> flags_match flags (action_word d 0 location) = true.
Proof. intros Hl. unfold flags_match. rewrite action_word_flags by lia. reflexivity. Qed.

Lemma interpretAppendAction_at pre op post pc acc d location :
  bc = pre ++ op :: le_bytes 4 location ++ post -> pc = vsize pre -> 0 <= location < 2 ^ 32 ->
  interpretAppendAction bc domainActions pc acc d =
    Done (pc + 5, collect domainActions flags acc [action_word d 0 location]).
Proof.
  intros Hbc -> Hl. assert (Hz : vsize pre + 5 <= vsize bc).
  { rewrite Hbc, vsize_app, vsize_cons, vsize_app, vsize_le_bytes. pose proof (vsize_nonneg post). lia. }
  pose proof (vsize_nonneg pre). unfold interpretAppendAction. rewrite Hbc at 1.
  change (op :: le_bytes 4 location ++ post) with ([op] ++ le_bytes 4 location ++ post). rewrite app_assoc.
  unfold getBits_u32. rewrite getBits_unsigned_at; [|rewrite vsize_app; done|done]. cbn [obind instructionSizeWithArguments].
  rewrite le_value_4, u32_small by lia. unfold collect, allowed. cbn [foldl]. rewrite flags_match_0 by done. done.
Qed.

Lemma group_test mask fl :
  (if negb (Z.land fl mask =? 0) then negb (Z.land (Z.land fl mask) flags =? 0) else true) = group_matches mask fl flags.
Proof. unfold group_matches. by destruct (Z.land fl mask =? 0). Qed.

Lemma interpretTestFlags_at pre op post pc acc d fl location :
  bc = pre ++ op :: (le_bytes 2 fl ++ le_bytes 4 location) ++ post -> pc = vsize pre -> 0 <= fl < 2 ^ 16 -> 0 <= location < 2 ^ 32 ->
  interpretTestFlagsAndAppendAction bc domainActions pc flags acc d =
    Done (pc + 7, collect domainActions flags acc [action_word d fl location]).
Proof.
  intros Hbc -> Hf Hl. assert (Hz : vsize pre + 7 <= vsize bc).
  { rewrite Hbc, vsize_app, vsize_cons, !vsize_app, !vsize_le_bytes. pose proof (vsize_nonneg post). lia. }
  pose proof (vsize_nonneg pre). unfold interpretTestFlagsAndAppendAction, getBits_u16, getBits_u32.
  assert (E1 : getBits_unsigned 2 bc (vsize pre + 1) = Done fl).
  { rewrite Hbc, <- app_assoc. change (op :: ?x) with ([op] ++ x). rewrite app_assoc.
    rewrite getBits_unsigned_at; [by rewrite le_value_2|by rewrite vsize_app|done]. }
  assert (E2 : getBits_unsigned 4 bc (vsize pre + 1 + 2) = Done location).
  { rewrite Hbc, <- app_assoc. change (op :: le_bytes 2 fl ++ ?x) with ((op :: le_bytes 2 fl) ++ x). rewrite app_assoc.
    rewrite getBits_unsigned_at; [by rewrite le_value_4| |done].
    rewrite vsize_app, vsize_cons, vsize_le_bytes. lia. }
  rewrite E1. cbn [obind]. rewrite E2. cbn [obind instructionSizeWithArguments]. rewrite !group_test, u32_small by lia.
  unfold collect, allowed, flags_match. cbn [foldl]. rewrite action_word_flags by done. fold (action_word d fl location).
  destruct (group_matches LoadTypeMask fl flags), (group_matches ResourceTypeMask fl flags); done.
Qed.

Lemma exec_Act sz pre post s a :
  action_wf a -> bc = pre ++ instr_bytes off sz (programCounter s) (IAct a) ++ post -> programCounter s = vsize pre ->
  exec s = Done (Some (mkState (programCounter s + instr_size sz (IAct a)) (urlIndex s) (urlIndexIsAfterEndOfString s)
                         (collect domainActions flags (st_actions s) [a]))).
Proof.
  intros Hw Hbc Hpc. unfold instr_bytes, flat in Hbc. cbn [instr_items map concat linked_bytes] in Hbc. rewrite app_nil_r in Hbc.
  cbn [instr_size]. rewrite <- vsize_action_bytes. unfold interpret_instruction.
  destruct (action_bytes_cases a Hw) as [(d & loc & Hl & -> & Eb)|(d & fl & loc & Hf & Hl & -> & Eb)]; rewrite Eb in *.
  - rewrite Hbc at 1. cbn [app]. rewrite getInstruction_at by done.
    rewrite vsize_cons, vsize_le_bytes. cbn [obind]. change (Z.of_nat 4 + 1) with 5.
    pose proof (interpretAppendAction_at pre _ post _ (st_actions s) d loc Hbc Hpc Hl) as E. destruct d; cbn; by rewrite E.
  - rewrite Hbc at 1. cbn [app]. rewrite getInstruction_at by done.
    rewrite vsize_cons, vsize_app, !vsize_le_bytes. cbn [obind]. change (Z.of_nat 2 + Z.of_nat 4 + 1) with 7.
    pose proof (interpretTestFlags_at pre _ post _ (st_actions s) d fl loc Hbc Hpc) as E.
    destruct d; cbn; rewrite E; (done || lia).
Qed.

(** ** The code of a node *)

Abbreviation run := (fun fuel s => interpret_dfa bc domainActions fuel url flags s).

Lemma run_actions l : Forall action_wf l -> forall pc code i b acc,
  code_at off bc pc (map IAct l ++ code) ->
  exists pc', code_at off bc pc' code /\
    forall fuel, run (length l + fuel)%nat (mkState pc i b acc) = run fuel (mkState pc' i b (collect domainActions flags acc l)).
Proof.
  induction 1 as [|a l Ha Hl IH]; intros pc code i b acc Hc; [by exists pc|].
  cbn [map app] in Hc. apply code_at_cons in Hc as (sz & pre & post & Hbc & Hpc & _ & _ & Hc).
  destruct (IH _ _ i b (collect domainActions flags acc [a]) Hc) as (pc' & Hc' & Hr). exists pc'. split; [done|]. intros fuel.
  cbn [length Nat.add interpret_dfa]. rewrite (exec_Act sz pre post (mkState pc i b acc) a Ha Hbc Hpc). cbn [obind programCounter urlIndex urlIndexIsAfterEndOfString st_actions].
  by rewrite Hr.
Qed.

Section AtChar.
Context (i c : Z) (acc : list Z) (Hc : url_at url i = Done c) (Hascii : 0 <= c < 128).

Abbreviation arrive := (fun d => mkState (off d) (i + 1) (c =? 0) acc).

Lemma run_tables ts : forall pc code,
  code_at off bc pc (map ITable ts ++ code) -> Forall (fun t => Forall (fun d => 0 <= off d < 2 ^ 31) (jt_destinations t)) ts ->
  exists pc' k, code_at off bc pc' code /\ (k <= length ts)%nat /\
    forall fuel, run (k + fuel)%nat (mkState pc i false acc) =
      run fuel (match first_table_hit ts c with Some d => arrive d | None => mkState pc' i false acc end).
Proof.
  induction ts as [|t ts IH]; intros pc code Hcode Hd; [by exists pc, 0%nat|]. apply Forall_cons in Hd as [Hd1 Hd2].
  cbn [map app] in Hcode. apply code_at_cons in Hcode as (sz & pre & post & Hbc & Hpc & Hw & Hf & Hcode).
  destruct (IH _ _ Hcode Hd2) as (pc' & k & Hc' & Hk & Hr).
  pose proof (exec_Table (mkState pc i false acc) c eq_refl Hc Hascii sz pre post t Hbc Hpc Hw Hf Hd1) as E.
  exists pc'. cbn [first_table_hit]. destruct (table_hit t c) as [d|].
  - exists 1%nat. split_and!; [done|simpl; lia|]. intros fuel. cbn [Nat.add interpret_dfa]. by rewrite E.
  - exists (S k). split_and!; [done|simpl; lia|]. intros fuel. cbn [Nat.add interpret_dfa]. rewrite E. cbn [obind]. apply Hr.
Qed.

Lemma run_ranges rs : forall pc code,
  code_at off bc pc (map IRange rs ++ code) -> Forall (fun r => 0 <= off (r_destination r) < 2 ^ 31) rs ->
  exists pc' k, code_at off bc pc' code /\ (k <= length rs)%nat /\
    forall fuel, run (k + fuel)%nat (mkState pc i false acc) =
      run fuel (match first_range_hit rs c with Some d => arrive d | None => mkState pc' i false acc end).
Proof.
  induction rs as [|r rs IH]; intros pc code Hcode Hd; [by exists pc, 0%nat|]. apply Forall_cons in Hd as [Hd1 Hd2].
  cbn [map app] in Hcode. apply code_at_cons in Hcode as (sz & pre & post & Hbc & Hpc & Hw & Hf & Hcode).
  destruct (IH _ _ Hcode Hd2) as (pc' & k & Hc' & Hk & Hr). cbn [instr_dests] in Hf. apply Forall_cons in Hf as [Hf _].
  pose proof (exec_Range (mkState pc i false acc) c eq_refl Hc Hascii sz pre post r Hbc Hpc Hw Hf Hd1) as E.
  exists pc'. cbn [first_range_hit]. destruct (range_hits r c).
  - exists 1%nat. split_and!; [done|simpl; lia|]. intros fuel. cbn [Nat.add interpret_dfa]. by rewrite E.
  - exists (S k). split_and!; [done|simpl; lia|]. intros fuel. cbn [Nat.add interpret_dfa]. rewrite E. cbn [obind]. apply Hr.
Qed.

(** One character: the code of the node follows its transition tables. *)
Lemma run_char t pc :
  code_at off bc pc (trans_code t) -> Forall (fun i => Forall (fun d => 0 <= off d < 2 ^ 31) (instr_dests i)) (trans_code t) ->
  exists k, (k <= length (trans_code t))%nat /\
    forall fuel, run (k + fuel)%nat (mkState pc i false acc) =
      match tables_target t c with Some d => run fuel (arrive d) | None => Done acc end.
Proof.
  intros Hcode Hd. unfold trans_code in *. rewrite !Forall_app, !Forall_fmap in Hd. destruct Hd as (Hd1 & Hd2 & Hd3).
  destruct (run_tables _ _ _ Hcode Hd1) as (pc1 & k1 & Hc1 & Hk1 & Hr1).
  destruct (run_ranges _ _ _ Hc1) as (pc2 & k2 & Hc2 & Hk2 & Hr2).
  { eapply Forall_impl; [exact Hd2|]. simpl. intros r Hr. by apply Forall_cons in Hr as [? _]. }
  rewrite !length_app, !length_map. unfold tables_target. destruct (first_table_hit (t_jumpTables t) c) as [d|].
  { exists k1. split; [simpl; lia|]. intros fuel. by rewrite Hr1. }
  destruct (first_range_hit (t_ranges t) c) as [d|].
  { exists (k1 + k2)%nat. split; [simpl; lia|]. intros fuel. by rewrite <- Nat.add_assoc, Hr1, Hr2. }
  exists (k1 + k2 + 1)%nat. split; [simpl; lia|]. intros fuel. rewrite <- !Nat.add_assoc, Hr1, Hr2. cbn [Nat.add interpret_dfa].
  apply Forall_cons in Hd3 as [Hd3 _]. destruct (t_useFallbackTransition t); cbn [andb].
  - apply code_at_cons in Hc2 as (sz & pre & post & Hbc & Hpc & Hw & Hf & _). cbn [instr_dests] in *.
    apply Forall_cons in Hf as [Hf _]. apply Forall_cons in Hd3 as [Hd3 _].
    rewrite (exec_Jump (mkState pc2 i false acc) c eq_refl Hc Hascii sz pre post _ Hbc Hpc Hf Hd3). unfold entered. by destruct (c =? 0).
  - apply code_at_cons in Hc2 as (sz & pre & post & Hbc & Hpc & _). by rewrite (exec_Term pre post).
Qed.
End AtChar.

Lemma run_after_end t pc i acc fuel :
  code_at off bc pc (trans_code t) -> t_useFallbackTransition t = false -> run (S fuel) (mkState pc i true acc) = Done acc.
Proof.
  intros Hcode Hu. cbn [interpret_dfa]. rewrite (exec_after_end (trans_code t)); [done|done|done|].
  unfold trans_code. rewrite Hu. destruct (t_jumpTables t); simpl; [|done]. by destruct (t_ranges t).
Qed.
End Step.

(** ** The automaton along a word *)

(** The actions run when an edge enters the node: the actions of the root are
    only run at the start. *)
Definition entered_actions (dfa : DFA) (n : Z) : list Z :=
  if n =? dfa_root dfa then [] else dfa_node_actions dfa n.

(** What the automaton reports along [w] after its start node. *)
Definition reported (dfa : DFA) (n : Z) (w : list Z) : list Z :=
  concat (map (entered_actions dfa) (dfa_visits dfa n w)).

(** The end-of-line edges the bytecode can express: not to the fallback target
    of their source, and not to a node with a fallback. *)
Definition eol_ok (dfa : DFA) : Prop :=
  forall n m, live dfa n -> dfa_step dfa n 0 = Some m ->
    transitions_allow_fallback (dfa_node_transitions dfa m) = false /\
    (transitions_allow_fallback (dfa_node_transitions dfa n) = true ->
     transitions_best_target (dfa_node_transitions dfa n) <> Done m).

Definition actions_wf (dfa : DFA) : Prop := forall n, live dfa n -> Forall action_wf (dfa_node_actions dfa n).

(** A URL is ASCII without a zero. *)
Definition url_wf (url : list Z) : Prop := Forall (fun c => 0 < c < 128) url.

Lemma code_at_length off bc pc code :
  code_at off bc pc code -> code <> [] -> 0 <= pc /\ pc + Z.of_nat (length code) <= vsize bc.
Proof.
  induction 1 as [|pc s i code pre post Hbc Hpc Hw Hf Hc IH]; intros Hne; [done|].
  apply (f_equal vsize) in Hbc. rewrite !vsize_app, vsize_instr_bytes in Hbc. pose proof (vsize_nonneg pre). pose proof (vsize_nonneg post).
  pose proof (instr_size_max s i Hw). split; [lia|]. destruct code as [|i' code]; [simpl; lia|].
  destruct IH as [_ IH]; [done|]. cbn [length] in *. lia.
Qed.

Lemma trans_code_nonempty t : trans_code t <> [].
Proof. unfold trans_code. intros [_ [_ E]%app_eq_nil]%app_eq_nil. done. Qed.

Section Dfa.
Context (dfa : DFA) (Hwf : dfa_wf dfa).

Lemma node_prog_entered n : node_prog dfa n = map IAct (entered_actions dfa n) ++ trans_code (node_tables dfa n).
Proof. unfold node_prog, full_prog, entered_actions. by destruct (n =? dfa_root dfa). Qed.

Lemma node_tables_fallback n :
  live dfa n -> t_useFallbackTransition (node_tables dfa n) = transitions_allow_fallback (dfa_node_transitions dfa n) /\
    (t_useFallbackTransition (node_tables dfa n) = true ->
     transitions_best_target (dfa_node_transitions dfa n) = Done (t_fallbackTransitionTarget (node_tables dfa n))) /\
    forall c, 0 <= c < 128 -> tables_target (node_tables dfa n) c =
      if (c =? 0) && t_useFallbackTransition (node_tables dfa n)
         && bool_decide (dfa_step dfa n 0 = Some (t_fallbackTransitionTarget (node_tables dfa n)))
      then None else dfa_step dfa n c.
Proof.
  intros (node & Hr)%(live_ready _ Hwf).
  assert (Hnd : Forall (fun t => tr_target t <> noDestination) (dfa_node_transitions dfa n)).
  { eapply Forall_impl; [apply (nr_targets _ _ _ Hr)|]. intros t Hl%live_bound. pose proof (dwf_size _ Hwf). unfold noDestination. lia. }
  pose proof (nr_tables _ _ _ Hr) as Et.
  destruct (compiler_transitions_spec dfa node _ (nr_transitions _ _ _ Hr) (nr_sorted _ _ _ Hr) Hnd) as (t & Et1 & _ & H1 & H2 & _).
  destruct (compiler_transitions_exact dfa node _ (nr_transitions _ _ _ Hr) (nr_sorted _ _ _ Hr) Hnd) as (t' & Et2 & _ & H3).
  rewrite Et in Et1, Et2. injection Et1 as <-. injection Et2 as <-. done.
Qed.

(** Without a troublesome end-of-line edge, the tables are the edges. *)
Lemma tables_target_step n c : eol_ok dfa -> live dfa n -> 0 <= c < 128 -> tables_target (node_tables dfa n) c = dfa_step dfa n c.
Proof.
  intros He Hl Hc. destruct (node_tables_fallback n Hl) as (H1 & H2 & H3). rewrite H3 by done.
  destruct (Z.eqb_spec c 0) as [->|]; [|done]. destruct (t_useFallbackTransition (node_tables dfa n)); [|done]. simpl.
  case_bool_decide as Hb; [|done]. destruct (He n _ Hl Hb) as [_ He']. specialize (H2 eq_refl). symmetry in H1. specialize (He' H1). congruence.
Qed.

Lemma step_live n c m : live dfa n -> dfa_step dfa n c = Some m -> live dfa m.
Proof.
  intros (node & Hr)%(live_ready _ Hwf) (t & Ht & _ & <-)%trans_target_elem. pose proof (nr_targets _ _ _ Hr) as H.
  rewrite Forall_forall in H. auto.
Qed.

Section Run.
Context `{HashOrder} (domainActions : option (list Z)) (off : Z -> Z) (bc url : list Z) (flags : Z).
Context (Hsize : vsize bc < 2 ^ 31) (Hurl : vsize url < 2 ^ 31) (Huw : url_wf url).
Context (Hcode : forall n, live dfa n -> code_at off bc (off n) (node_prog dfa n)) (Hact : actions_wf dfa) (Heol : eol_ok dfa).

Abbreviation run := (fun fuel s => interpret_dfa bc domainActions fuel url flags s).
Abbreviation coll := (collect domainActions flags).

Lemma dests_bounded n : live dfa n -> Forall (fun i => Forall (fun d => 0 <= off d < 2 ^ 31) (instr_dests i)) (trans_code (node_tables dfa n)).
Proof.
  intros (node & Hr)%(live_ready _ Hwf). eapply Forall_impl; [apply (nr_dests _ _ _ Hr)|]. intros i Hi.
  eapply Forall_impl; [exact Hi|]. intros d Hd. eapply (offset_bound off bc Hsize); [by apply Hcode|].
  rewrite node_prog_entered. intros [_ E]%app_eq_nil. by apply trans_code_nonempty in E.
Qed.

Lemma prog_length pc l t : code_at off bc pc (map IAct l ++ trans_code t) -> (length l + length (trans_code t) <= length bc)%nat.
Proof.
  intros [Hp Hl]%code_at_length.
  - rewrite length_app, length_map in Hl. unfold vsize in Hl. lia.
  - intros [_ E]%app_eq_nil. by apply trans_code_nonempty in E.
Qed.

Lemma entered_wf n : live dfa n -> Forall action_wf (entered_actions dfa n).
Proof. intros Hn. unfold entered_actions. destruct (n =? dfa_root dfa); [constructor|by apply Hact]. Qed.

(** The node entered on the terminating zero only runs its actions. *)
Lemma run_last n i acc fuel :
  live dfa n -> transitions_allow_fallback (dfa_node_transitions dfa n) = false -> (length bc <= fuel)%nat ->
  run fuel (mkState (off n) i true acc) = Done (coll acc (entered_actions dfa n)).
Proof.
  intros Hn Hf Hfuel. pose proof (Hcode n Hn) as Hc. rewrite node_prog_entered in Hc. pose proof (prog_length _ _ _ Hc) as Hlen.
  destruct (run_actions domainActions off bc url flags Hsize _ (entered_wf n Hn) _ _ i true acc Hc) as (pc' & Hc' & Hr).
  pose proof (trans_code_nonempty (node_tables dfa n)). destruct (trans_code (node_tables dfa n)) eqn:E; [done|]. cbn [length] in Hlen.
  replace fuel with (length (entered_actions dfa n) + S (fuel - S (length (entered_actions dfa n))))%nat by lia.
  rewrite Hr. rewrite <- E in Hc'. eapply run_after_end; [done|]. destruct (node_tables_fallback n Hn) as [-> _]. done.
Qed.

Lemma run_word w : forall pre n pc l acc fuel,
  url ++ [0] = pre ++ w -> w <> [] -> live dfa n -> Forall action_wf l ->
  code_at off bc pc (map IAct l ++ trans_code (node_tables dfa n)) -> (S (length w) * length bc <= fuel)%nat ->
  run fuel (mkState pc (vsize pre) false acc) = Done (coll acc (l ++ reported dfa n w)).
Proof.
  induction w as [|c w IH]; intros pre n pc l acc fuel Hu Hne Hn Hl Hc Hfuel; [done|].
  pose proof (prog_length _ _ _ Hc) as Hlen.
  assert (Hat : url_at url (vsize pre) = Done c) by (unfold url_at; rewrite Hu; by apply vget_app_here).
  assert (Hcw : (c = 0 /\ w = []) \/ (0 < c < 128 /\ w <> [])).
  { destruct w as [|c' w']; [left|right].
    - apply app_inj_tail in Hu as [_ <-]. done.
    - split; [|done]. assert (Hin : c ∈ url); [|unfold url_wf in Huw; rewrite Forall_forall in Huw; by apply Huw].
      destruct (exists_last (l := c' :: w')) as (w'' & z & Ew); [done|]. rewrite Ew in Hu.
      change (c :: w'' ++ [z]) with ((c :: w'') ++ [z]) in Hu. rewrite app_assoc in Hu. apply app_inj_tail in Hu as [-> _].
      apply elem_of_app. right. left. }
  destruct (run_actions domainActions off bc url flags Hsize _ Hl _ _ (vsize pre) false acc Hc) as (pc' & Hc' & Hr).
  destruct (run_char domainActions off bc url flags Hsize Hurl (vsize pre) c (coll acc l) Hat ltac:(lia) _ _ Hc' (dests_bounded n Hn))
    as (k & Hk & Hr2).
  replace fuel with (length l + (k + (fuel - length l - k)))%nat by (cbn in Hfuel; lia).
  rewrite Hr, Hr2, tables_target_step by (done || lia). unfold reported. cbn [dfa_visits].
  destruct (dfa_step dfa n c) as [m|] eqn:Em; [|by rewrite app_nil_r].
  pose proof (step_live _ _ _ Hn Em) as Hm. cbn [map concat]. rewrite collect_app, collect_app.
  destruct Hcw as [[-> ->]|[Hc0 Hw]].
  - cbn [dfa_visits map concat]. apply run_last; [done|by apply (Heol n m)|]. cbn in Hfuel. lia.
  - destruct (Z.eqb_spec c 0); [lia|]. replace (vsize pre + 1) with (vsize (pre ++ [c])) by (by rewrite vsize_app).
    rewrite (IH _ m _ (entered_actions dfa m)); [by rewrite collect_app|by rewrite <- app_assoc|done|done|by apply entered_wf| |].
    + rewrite <- node_prog_entered. by apply Hcode.
    + cbn [length] in Hfuel. lia.
Qed.
End Run.
End Dfa.
