(* ===== verification/BytecodeStream.v ===== *)
(** * Streams of automata

    [compileRuleList] compiles each automaton to a vector of its own; the client
    writes the vectors one after the other, and [interpret] runs them in turn.  The actions on the root of
    the first automaton are special: the unconditional ones hold for every URL
    and are collected once by [actionsMatchingEverything]; [interpret] skips
    them. *)

From stdpp Require Import gmap.
From S2P Require Import Prelude Containers ResourceLoad Dfa Bytecode BytecodeCompiler TransitionTables BytecodeLayout BytecodeLink BytecodeInterpreter BytecodeCorrect.

Definition conditional (action : Z) : bool := negb (Z.land action ActionFlagMask =? 0).

(** What the stream reports for a URL, in the order of the stream. *)
Definition dfa_reported (url : list Z) (d : DFA) : list Z := reported d (dfa_root d) (url ++ [0]).

Definition later_reported (url : list Z) (d : DFA) : list Z := dfa_node_actions d (dfa_root d) ++ dfa_reported url d.

Definition stream_reported (url : list Z) (dfas : list DFA) : list Z :=
  match dfas with
  | [] => []
  | d :: ds => filter (fun a => conditional a = true) (dfa_node_actions d (dfa_root d)) ++ dfa_reported url d
               ++ concat (map (later_reported url) ds)
  end.

(** The actions that hold for every URL and every load. *)
Definition universal_actions (dfas : list DFA) : list Z :=
  match dfas with
  | [] => []
  | d :: _ => filter (fun a => negb (conditional a) = true) (dfa_node_actions d (dfa_root d))
  end.

Record dfa_ok (d : DFA) : Prop := { dk_wf : dfa_wf d; dk_actions : actions_wf d; dk_eol : eol_ok d }.

Definition stream_size (dfas : list DFA) : Z := sum_sizes code_size_bound dfas.

(** ** The loops over the actions of the first root *)

Section RootActions.
Context `{HashOrder} (domainActions : option (list Z)) (off : Z -> Z) (bc : list Z) (flags : Z) (Hsize : vsize bc < 2 ^ 31).

(** The first instruction of the transition code is not an action. *)
Lemma first_transition pc t :
  code_at off bc pc (trans_code t) -> exists i, getInstruction bc pc = Done (Some i) /\
    i ∉ [AppendAction; AppendActionWithIfDomain; TestFlagsAndAppendAction; TestFlagsAndAppendActionWithIfDomain].
Proof.
  intros Hc. pose proof (trans_code_nonempty t) as Hne. destruct (trans_code t) as [|i code] eqn:E; [done|].
  assert (Hi : match i with IAct _ => False | _ => True end).
  { assert (i ∈ trans_code t) as Hi by (rewrite E; left). unfold trans_code in Hi.
    rewrite !elem_of_app, !list_elem_of_fmap, list_elem_of_singleton in Hi.
    destruct Hi as [(? & -> & _)|[(? & -> & _)| -> ]]; [done|done|]. by destruct (t_useFallbackTransition t). }
  apply code_at_cons in Hc as (sz & pre & post & Hbc & Hpc & _). unfold instr_bytes, flat in Hbc.
  destruct i as [a|jt|r|d|]; try done; cbn [instr_items map concat linked_bytes] in Hbc.
  - unfold table_head in Hbc. rewrite le_bytes_opcode in Hbc. rewrite Hbc. cbn [app]. rewrite getInstruction_opcode by done.
    eexists. split; [done|]. destruct (jt_caseSensitive jt); by apply (bool_decide_unpack _).
  - unfold range_head in Hbc. rewrite !le_bytes_opcode in Hbc.
    destruct (r_min r =? r_max r); rewrite Hbc; cbn [app]; rewrite getInstruction_opcode by done;
      (eexists; split; [done|]); destruct (r_caseSensitive r); by apply (bool_decide_unpack _).
  - rewrite le_bytes_opcode in Hbc. rewrite Hbc. cbn [app]. rewrite getInstruction_opcode by done.
    eexists. split; [done|]. by apply (bool_decide_unpack _).
  - rewrite Hbc. cbn [le_bytes app]. rewrite getInstruction_at by done. exists Terminate. split; [done|]. by apply (bool_decide_unpack _).
Qed.

(** An action instruction, as the loops see it. *)
Lemma action_at pc a code :
  action_wf a -> code_at off bc pc (IAct a :: code) ->
  exists ifDomain : bool, code_at off bc (pc + appendActionBytecodeSize a) code /\
    0 <= pc /\ pc + appendActionBytecodeSize a < 2 ^ 31 /\
    if conditional a then
      appendActionBytecodeSize a = 7 /\
      getInstruction bc pc = Done (Some (if ifDomain then TestFlagsAndAppendActionWithIfDomain else TestFlagsAndAppendAction)) /\
      forall acc, interpretTestFlagsAndAppendAction bc domainActions pc flags acc ifDomain = Done (pc + 7, collect domainActions flags acc [a])
    else
      appendActionBytecodeSize a = 5 /\
      getInstruction bc pc = Done (Some (if ifDomain then AppendActionWithIfDomain else AppendAction)) /\
      forall acc, interpretAppendAction bc domainActions pc acc ifDomain = Done (pc + 5, collect domainActions flags acc [a]).
Proof.
  intros Hw Hc. apply code_at_cons in Hc as (sz & pre & post & Hbc & Hpc & _ & _ & Hc).
  pose proof (instr_end off bc Hsize _ _ _ _ _ Hbc) as Hie. pose proof (vsize_nonneg pre). cbn [instr_size] in *.
  unfold instr_bytes, flat in Hbc. cbn [instr_items map concat linked_bytes] in Hbc. rewrite app_nil_r in Hbc.
  unfold conditional. destruct (action_bytes_cases a Hw) as [(d & loc & Hl & Ea & Eb)|(d & fl & loc & Hf & Hl & Ea & Eb)];
    rewrite Eb in Hbc; rewrite <- vsize_action_bytes in *; rewrite Eb in *; exists d; rewrite Ea, action_word_has_flags by lia.
  - rewrite vsize_cons, vsize_le_bytes in *. cbn [Z.eqb negb]. split_and!; try lia; try done.
    + rewrite Hbc. cbn [app]. rewrite getInstruction_at by done. by destruct d.
    + intros acc. by eapply interpretAppendAction_at.
  - rewrite vsize_cons, vsize_app, !vsize_le_bytes in *. destruct (Z.eqb_spec fl 0); [lia|]. cbn [negb]. split_and!; try lia; try done.
    + rewrite Hbc. cbn [app]. rewrite getInstruction_at by done. by destruct d.
    + intros acc. eapply interpretTestFlags_at; try done. lia.
Qed.
End RootActions.

Section FirstDfa.
(** The first automaton [b] and the rest of the stream. *)
Context `{HashOrder} (domainActions : option (list Z)) (off : Z -> Z) (b tail : list Z) (flags : Z).
Context (Hsize : vsize (b ++ tail) < 2 ^ 31) (t : Transitions).

Lemma skip_root_actions_spec l : Forall action_wf l -> forall pc acc fuel,
  code_at off b pc (map IAct l ++ trans_code t) -> (length l < fuel)%nat ->
  exists pc', code_at off b pc' (trans_code t) /\
    skip_root_actions (b ++ tail) domainActions fuel (vsize b) flags pc acc =
      Done (pc', collect domainActions flags acc (filter (fun a => conditional a = true) l)).
Proof.
  induction 1 as [|a l Ha Hl IH]; intros pc acc fuel Hc Hfuel; (destruct fuel as [|fuel]; [simpl in Hfuel; lia|]).
  - exists pc. split; [done|]. cbn [map app] in Hc. destruct (code_at_length _ _ _ _ Hc (trans_code_nonempty t)) as [H0 Hlim].
    pose proof (trans_code_nonempty t). cbn [skip_root_actions]. destruct (Z.ltb_spec pc (vsize b)); [|destruct (trans_code t); [done|simpl in Hlim; lia]].
    destruct (first_transition off (b ++ tail) pc t (code_at_suffix _ _ _ _ _ Hc)) as (i & -> & Hi). cbn [obind filter list_filter].
    rewrite !not_elem_of_cons in Hi. destruct i; naive_solver.
  - cbn [map app] in Hc. destruct (code_at_length _ _ _ _ Hc) as [H0 Hlim]; [done|]. cbn [length] in Hlim, Hfuel.
    destruct (action_at domainActions off (b ++ tail) flags Hsize pc a _ Ha (code_at_suffix _ _ _ _ _ Hc)) as (d & _ & _ & Hb & Hi).
    apply code_at_cons in Hc as (sz & pre & post & Hbc & Hpc & _ & _ & Hc). cbn [instr_size] in Hc.
    cbn [skip_root_actions]. destruct (Z.ltb_spec pc (vsize b)); [|lia]. rewrite filter_cons.
    destruct (conditional a) eqn:Ec; destruct Hi as (Hz & -> & Hi); rewrite Hz in *; cbn [obind];
      [rewrite decide_True by done|rewrite decide_False by done].
    + edestruct (IH _ (collect domainActions flags acc [a]) fuel Hc) as (pc' & Hc' & E); [lia|]. exists pc'. split; [done|].
      destruct d; rewrite Hi; cbn [obind]; by rewrite E.
    + edestruct (IH _ acc fuel Hc) as (pc' & Hc' & E); [lia|]. exists pc'. split; [done|].
      destruct d; cbn [instructionSizeWithArguments obind]; rewrite u32_small by lia; change (1 + 4) with 5; by rewrite E.
Qed.

Lemma matching_everything_spec l : Forall action_wf l -> forall pc acc fuel,
  code_at off b pc (map IAct l ++ trans_code t) -> (length l < fuel)%nat ->
  matching_everything_loop (b ++ tail) domainActions fuel (vsize b) pc acc =
    Done (collect domainActions flags acc (filter (fun a => negb (conditional a) = true) l)).
Proof.
  induction 1 as [|a l Ha Hl IH]; intros pc acc fuel Hc Hfuel; (destruct fuel as [|fuel]; [simpl in Hfuel; lia|]).
  - cbn [map app] in Hc. destruct (code_at_length _ _ _ _ Hc (trans_code_nonempty t)) as [H0 Hlim].
    pose proof (trans_code_nonempty t). cbn [matching_everything_loop]. destruct (Z.ltb_spec pc (vsize b)); [|destruct (trans_code t); [done|simpl in Hlim; lia]].
    destruct (first_transition off (b ++ tail) pc t (code_at_suffix _ _ _ _ _ Hc)) as (i & -> & Hi). cbn [obind filter list_filter].
    rewrite !not_elem_of_cons in Hi. destruct i; naive_solver.
  - cbn [map app] in Hc. destruct (code_at_length _ _ _ _ Hc) as [H0 Hlim]; [done|]. cbn [length] in Hlim, Hfuel.
    destruct (action_at domainActions off (b ++ tail) flags Hsize pc a _ Ha (code_at_suffix _ _ _ _ _ Hc)) as (d & _ & _ & Hb & Hi).
    apply code_at_cons in Hc as (sz & pre & post & Hbc & Hpc & _ & _ & Hc). cbn [instr_size] in Hc.
    cbn [matching_everything_loop]. destruct (Z.ltb_spec pc (vsize b)); [|lia]. rewrite filter_cons.
    destruct (conditional a) eqn:Ec; destruct Hi as (Hz & -> & Hi); rewrite Hz in *; cbn [obind negb];
      [rewrite decide_False by done|rewrite decide_True by done].
    + destruct d; cbn [instructionSizeWithArguments obind]; rewrite u32_small by lia; change (1 + 2 + 4) with 7; (rewrite IH; [done|done|lia]).
    + destruct d; rewrite Hi; cbn [obind]; (rewrite IH; [done|done|lia]).
Qed.
End FirstDfa.

(** ** The whole stream *)

Lemma code_size_bound_pos d : dfa_wf d -> 4 <= code_size_bound d.
Proof.
  intros Hwf. unfold code_size_bound. pose proof (full_size_nonneg d Hwf (dfa_root d)).
  pose proof (sum_sizes_nonneg (full_size d) (other_nodes d) (full_size_nonneg d Hwf)). lia.
Qed.

Lemma stream_size_nonneg dfas : Forall dfa_ok dfas -> 0 <= stream_size dfas.
Proof.
  induction 1 as [|d ds Hd Hds IH]; [done|]. unfold stream_size in *. cbn [sum_sizes foldr].
  fold (sum_sizes code_size_bound ds). pose proof (code_size_bound_pos d (dk_wf _ Hd)). lia.
Qed.

(** Automata laid out one after the other, after [pre]. *)
Fixpoint laid_out (dfas : list DFA) (pre bc : list Z) : Prop :=
  match dfas with
  | [] => bc = pre
  | d :: ds => exists b off, compiled d pre b off /\ laid_out ds (pre ++ b) bc
  end.

Lemma laid_out_suffix dfas : forall pre bc, laid_out dfas pre bc ->
  exists tail, bc = pre ++ tail /\ vsize tail <= stream_size dfas /\ 4 * vsize dfas <= vsize tail.
Proof.
  induction dfas as [|d ds IH]; intros pre bc Hl; [exists []; by rewrite app_nil_r|]. destruct Hl as (b & off & Hc & Hl).
  destruct (IH _ _ Hl) as (tail & -> & H1 & H2). pose proof (cp_size _ _ _ _ Hc). exists (b ++ tail). rewrite app_assoc, vsize_app, vsize_cons.
  unfold stream_size in *. cbn [sum_sizes foldr]. fold (sum_sizes code_size_bound ds). split; [done|lia].
Qed.

Section Stream.
Context `{HashOrder} (domainActions : option (list Z)) (url : list Z) (flags : Z).
Context (Hurl : vsize url < 2 ^ 31) (Huw : url_wf url).

(** One automaton of the stream, from [pc] on in the code of its root. *)
Lemma run_dfa d pre b tail off pc l acc fuel :
  dfa_ok d -> compiled d pre b off -> vsize ((pre ++ b) ++ tail) < 2 ^ 31 -> Forall action_wf l ->
  code_at off ((pre ++ b) ++ tail) pc (map IAct l ++ trans_code (node_tables d (dfa_root d))) ->
  (inner_fuel ((pre ++ b) ++ tail) url <= fuel)%nat ->
  interpret_dfa ((pre ++ b) ++ tail) domainActions fuel url flags (mkState pc 0 false acc) =
    Done (collect domainActions flags acc (l ++ dfa_reported url d)).
Proof.
  intros [Hwf Hact Heol] Hc Hs Hl Hcode Hf. change 0 with (vsize (@nil Z)).
  apply (run_word d Hwf domainActions off _ url flags Hs Hurl Huw); try done.
  - intros n Hn. apply code_at_suffix, (cp_nodes _ _ _ _ Hc n Hn).
  - by destruct url.
  - apply (dwf_root _ Hwf).
  - unfold inner_fuel in Hf. rewrite length_app. cbn [length]. nia.
Qed.

Lemma header_at d pre b tail off :
  compiled d pre b off -> vsize b < 2 ^ 32 -> getBits_u32 ((pre ++ b) ++ tail) (vsize pre) = Done (vsize b).
Proof.
  intros Hc Hb. destruct (cp_header _ _ _ _ Hc) as (code & E). rewrite E at 1. rewrite <- !app_assoc.
  unfold getBits_u32. rewrite getBits_unsigned_at; [|done|done]. rewrite le_value_4; [done|]. pose proof (vsize_nonneg b). lia.
Qed.

(** The automata after the first one. *)
Lemma interpret_later ds : Forall dfa_ok ds -> forall pre bc acc fuel innerFuel,
  laid_out ds pre bc -> vsize pre + stream_size ds < 2 ^ 30 -> pre <> [] ->
  (length ds < fuel)%nat -> (inner_fuel bc url <= innerFuel)%nat ->
  interpret_stream bc domainActions fuel innerFuel url flags (vsize pre) acc =
    Done (collect domainActions flags acc (concat (map (later_reported url) ds))).
Proof.
  induction 1 as [|d ds Hd Hds IH]; intros pre bc acc fuel innerFuel E Hb Hne Hf Hif;
    (destruct fuel as [|fuel]; [simpl in Hf; lia|]); cbn [interpret_stream].
  { cbn in E. subst bc. unfold m_bytecodeLength. by destruct (Z.ltb_spec (vsize pre) (vsize pre)); [lia|]. }
  unfold stream_size in Hb. cbn [sum_sizes foldr] in Hb. fold (sum_sizes code_size_bound ds) (stream_size ds) in Hb.
  pose proof (stream_size_nonneg _ Hds). pose proof (vsize_nonneg pre).
  destruct E as (b & off & Hc & Hl). pose proof (cp_size _ _ _ _ Hc) as Hz.
  destruct (laid_out_suffix _ _ _ Hl) as (tail & -> & Ht & _).
  assert (Hsz : vsize ((pre ++ b) ++ tail) < 2 ^ 31) by (rewrite !vsize_app; lia).
  unfold m_bytecodeLength. destruct (Z.ltb_spec (vsize pre) (vsize ((pre ++ b) ++ tail))) as [_|Hx];
    [|rewrite !vsize_app in Hx; pose proof (vsize_nonneg tail); lia].
  rewrite (header_at d pre b tail off Hc) by lia. cbn [obind].
  destruct (Z.eqb_spec (vsize pre) 0) as [Hp|_]; [by destruct pre; [|rewrite vsize_cons in Hp; pose proof (vsize_nonneg pre); lia]|].
  cbn [obind andb]. rewrite !u32_small by lia.
  rewrite (run_dfa d pre b tail off _ (dfa_node_actions d (dfa_root d))); try done.
  - cbn [obind]. replace (vsize pre + vsize b) with (vsize (pre ++ b)) by apply vsize_app.
    rewrite (IH (pre ++ b)); try done.
    + cbn [map concat]. fold (later_reported url d). by rewrite collect_app.
    + rewrite vsize_app. lia.
    + by destruct pre.
    + simpl in Hf. lia.
  - apply (dk_actions _ Hd), (dwf_root _ (dk_wf _ Hd)).
  - apply code_at_suffix, (cp_root _ _ _ _ Hc).
Qed.

(** [interpret] on the compiled stream. *)
Lemma interpret_laid_out dfas bc :
  Forall dfa_ok dfas -> stream_size dfas < 2 ^ 30 -> laid_out dfas [] bc ->
  interpret bc domainActions url flags = Done (collect domainActions flags [] (stream_reported url dfas)).
Proof.
  intros Hok Hb E. destruct dfas as [|d ds]; [cbn in E; by subst bc|]. apply Forall_cons in Hok as [Hd Hds].
  unfold stream_size in Hb. cbn [sum_sizes foldr] in Hb. fold (sum_sizes code_size_bound ds) (stream_size ds) in Hb.
  pose proof (stream_size_nonneg _ Hds). destruct E as (b & off & Hc & Hl). cbn [app] in Hl.
  pose proof (cp_size _ _ _ _ Hc) as Hz. destruct (laid_out_suffix _ _ _ Hl) as (tail & -> & Ht & Hn).
  assert (Hsz : vsize (b ++ tail) < 2 ^ 31) by (rewrite vsize_app; lia).
  unfold interpret. cbn [interpret_stream stream_fuel]. unfold m_bytecodeLength.
  destruct (Z.ltb_spec 0 (vsize (b ++ tail))) as [_|Hx]; [|rewrite vsize_app in Hx; pose proof (vsize_nonneg tail); lia].
  pose proof (header_at d [] b tail off Hc ltac:(lia)) as Hh. cbn [app] in Hh. change (vsize (@nil Z)) with 0 in Hh. rewrite Hh. cbn [obind Z.eqb].
  change (u32 (0 + 4)) with 4. pose proof (cp_root _ _ _ _ Hc) as Hroot. unfold full_prog in Hroot. cbn [app] in Hroot. change (vsize (@nil Z) + 4) with 4 in Hroot.
  pose proof (prog_length off b _ _ _ Hroot) as Hpl.
  destruct (skip_root_actions_spec domainActions off b tail flags Hsz _ _ (dk_actions _ Hd _ (dwf_root _ (dk_wf _ Hd))) 4 [] (inner_fuel (b ++ tail) url) Hroot)
    as (pc' & Hc' & ->).
  { unfold inner_fuel. rewrite length_app. nia. }
  cbn [obind andb]. destruct (code_at_length _ _ _ _ Hc' (trans_code_nonempty _)) as [Hp0 Hlim].
  destruct (Z.leb_spec (vsize (b ++ tail)) pc') as [Hx|_].
  { pose proof (trans_code_nonempty (node_tables d (dfa_root d))). rewrite vsize_app in Hx. pose proof (vsize_nonneg tail).
    destruct (trans_code _); [done|simpl in Hlim; lia]. }
  change (b ++ tail) with (([] ++ b) ++ tail). rewrite (run_dfa d [] b tail off pc' []); try done; [|by apply code_at_suffix].
  cbn [obind]. cbn [app]. rewrite Z.add_0_l, u32_small by lia.
  rewrite (interpret_later ds Hds b); try done; [|lia| | ].
  - unfold stream_reported. by rewrite !collect_app.
  - intros ->. change (vsize (@nil Z)) with 0 in Hz. lia.
  - rewrite length_app. unfold vsize in *. lia.
Qed.

End Stream.

(** [actionsMatchingEverything] on the compiled stream. *)
Lemma universal_laid_out `{HashOrder} domainActions flags dfas bc :
  dfas <> [] -> Forall dfa_ok dfas -> stream_size dfas < 2 ^ 30 -> laid_out dfas [] bc ->
  actionsMatchingEverything bc domainActions = Done (collect domainActions flags [] (universal_actions dfas)).
Proof.
  intros Hne Hok Hb E. destruct dfas as [|d ds]; [done|]. apply Forall_cons in Hok as [Hd Hds].
  unfold stream_size in Hb. cbn [sum_sizes foldr] in Hb. fold (sum_sizes code_size_bound ds) (stream_size ds) in Hb.
  pose proof (stream_size_nonneg _ Hds). destruct E as (b & off & Hc & Hl). cbn [app] in Hl.
  pose proof (cp_size _ _ _ _ Hc) as Hz. destruct (laid_out_suffix _ _ _ Hl) as (tail & -> & Ht & Hn).
  assert (Hsz : vsize (b ++ tail) < 2 ^ 31) by (rewrite vsize_app; lia).
  unfold actionsMatchingEverything. pose proof (header_at d [] b tail off Hc ltac:(lia)) as Hh. cbn [app] in Hh.
  change (vsize (@nil Z)) with 0 in Hh. rewrite Hh. cbn [obind].
  pose proof (cp_root _ _ _ _ Hc) as Hroot. unfold full_prog in Hroot. cbn [app] in Hroot. change (vsize (@nil Z) + 4) with 4 in Hroot.
  pose proof (prog_length off b _ _ _ Hroot) as Hpl.
  eapply matching_everything_spec; [done| |exact Hroot|].
  - apply (dk_actions _ Hd), (dwf_root _ (dk_wf _ Hd)).
  - rewrite length_app. lia.
Qed.

(** Exactly the unconditional actions of the first root. *)
Lemma universal_collected `{HashOrder} dfas bc : dfas <> [] -> Forall dfa_ok dfas -> stream_size dfas < 2 ^ 30 -> laid_out dfas [] bc ->
  exists actions, actionsMatchingEverything bc None = Done actions /\ NoDup actions /\ forall a, a ∈ actions <-> a ∈ universal_actions dfas.
Proof.
  intros Hne Hok Hb Hl. exists (collect None 0 [] (universal_actions dfas)). split_and!; [by apply universal_laid_out|apply NoDup_collect; constructor|].
  intros a. rewrite elem_of_collect, elem_of_nil. split; [tauto|]. intros Ha. left. split; [done|].
  destruct dfas as [|d ds]; [done|]. apply Forall_cons in Hok as [Hd _]. unfold universal_actions in Ha.
  apply list_elem_of_filter in Ha as [Hc Ha]. pose proof (dk_actions _ Hd _ (dwf_root _ (dk_wf _ Hd))) as Hw.
  rewrite Forall_forall in Hw. destruct (Hw a Ha) as (i & fl & loc & -> & Hf & Hlo). unfold conditional in Hc.
  rewrite action_word_has_flags in Hc by done. destruct (Z.eqb_spec fl 0) as [->|]; [|done].
  unfold allowed. by rewrite flags_match_0.
Qed.

(** Automata compiled each on its own can be put one after the other: the code
    does not depend on where it is. *)
Lemma compiled_moved d pre b off : compiled d [] b off -> compiled d pre b (fun n => vsize pre + off n).
Proof.
  intros [H1 H2 H3 H4]. constructor; [done|done| |].
  - by apply (code_at_prefix off b 4 _ pre).
  - intros n Hn. apply (code_at_prefix off b (off n) _ pre), (H4 n Hn).
Qed.

Definition compile_each (written : list (list Z)) (dfas : list DFA) : outcome (list (list Z)) :=
  ofold (fun written d => let* bytecode := compile d [] in Done (written ++ [bytecode])) written dfas.

Lemma compile_each_laid_out dfas : Forall dfa_ok dfas -> stream_size dfas < 2 ^ 30 ->
  exists codes, (forall written, compile_each written dfas = Done (written ++ codes)) /\ forall pre, laid_out dfas pre (pre ++ concat codes).
Proof.
  induction 1 as [|d ds Hd Hds IH]; intros Hb; [exists []; split; [intros written|intros pre]; by rewrite app_nil_r|].
  unfold stream_size in Hb. cbn [sum_sizes foldr] in Hb. fold (sum_sizes code_size_bound ds) (stream_size ds) in Hb. pose proof (stream_size_nonneg _ Hds).
  pose proof (code_size_bound_pos d (dk_wf _ Hd)). destruct IH as (codes & E & Hl); [lia|].
  destruct (compile_layout d (dk_wf _ Hd) []) as (b & off & E1 & Hc); [change (vsize (@nil Z)) with 0; lia|]. exists (b :: codes).
  unfold compile_each in *. split; [intros written; cbn [ofold]; rewrite E1; cbn [obind]; rewrite E, <- app_assoc; done|]. intros pre. exists b, (fun n => vsize pre + off n). split; [by apply compiled_moved|].
  cbn [concat]. rewrite app_assoc. apply Hl.
Qed.

Lemma compile_each_extends dfas : forall written all, compile_each written dfas = Done all -> exists codes, all = written ++ codes.
Proof.
  induction dfas as [|d dfas IH]; intros written all E; unfold compile_each in *; cbn [ofold] in E; [injection E as <-; exists []; by rewrite app_nil_r|].
  apply obind_Done in E as (w1 & E1 & E). apply obind_Done in E1 as (code & _ & E1). injection E1 as <-. destruct (IH _ _ E) as (codes & ->). rewrite <- app_assoc. by eexists.
Qed.

Lemma compile_each_Forall2 dfas : forall written codes, compile_each written dfas = Done (written ++ codes) -> Forall2 (fun d code => compile d [] = Done code) dfas codes.
Proof.
  induction dfas as [|d dfas IH]; intros written codes E; unfold compile_each in *; cbn [ofold] in E.
  - injection E as E. rewrite <- (app_nil_r written) in E at 1. apply app_inv_head in E as <-. constructor.
  - apply obind_Done in E as (w1 & E1 & E). apply obind_Done in E1 as (code & Ec & E1). injection E1 as <-.
    destruct (compile_each_extends _ _ _ E) as (codes' & Hr). rewrite <- app_assoc in Hr. apply app_inv_head in Hr as ->.
    constructor; [done|]. apply (IH (written ++ [code])). by rewrite <- app_assoc.
Qed.

(** A stream whose later roots have no actions. *)
Lemma elem_of_stream_reported url first later a : Forall (fun d => dfa_node_actions d (dfa_root d) = []) later ->
  a ∈ stream_reported url (first :: later) <-> (a ∈ dfa_node_actions first (dfa_root first) /\ conditional a = true) \/ exists d, d ∈ first :: later /\ a ∈ dfa_reported url d.
Proof.
  intros Hl. unfold stream_reported. rewrite !elem_of_app, list_elem_of_filter.
  assert (Hx : a ∈ concat (map (later_reported url) later) <-> exists d, d ∈ later /\ a ∈ dfa_reported url d).
  { induction Hl as [|d ds Hd Hds IH]; cbn [map concat]; [split; [by intros ?%elem_of_nil|intros (d & Hd%elem_of_nil & _); done]|].
    rewrite elem_of_app, IH. unfold later_reported. rewrite Hd. cbn [app]. set_solver. }
  rewrite Hx. set_solver.
Qed.

(** ** Deciding the conditions *)

Definition all_live (dfa : DFA) (p : Z -> bool) : bool :=
  forallb (fun n => negb (is_live dfa n) || p n) (seqZ 0 (vsize (dfa_nodes dfa))).

Definition eol_okb (dfa : DFA) (n : Z) : bool :=
  match dfa_step dfa n 0 with
  | None => true
  | Some m =>
      negb (transitions_allow_fallback (dfa_node_transitions dfa m)) &&
      (negb (transitions_allow_fallback (dfa_node_transitions dfa n)) ||
       match transitions_best_target (dfa_node_transitions dfa n) with Done t => negb (t =? m) | _ => true end)
  end.

Definition dfa_okb (dfa : DFA) : bool :=
  dfa_wfb dfa && all_live dfa (fun n => forallb (fun a => (0 <=? a) && (a <? 2 ^ 49)) (dfa_node_actions dfa n))
  && all_live dfa (eol_okb dfa).

Lemma all_live_sound dfa p : all_live dfa p = true -> forall n, live dfa n -> p n = true.
Proof.
  intros Ha n Hn. unfold all_live in Ha. rewrite forallb_forall in Ha.
  specialize (Ha n). rewrite <- list_elem_of_In, elem_of_seqZ in Ha. pose proof (live_bound _ _ Hn). apply is_live_spec in Hn.
  rewrite Hn in Ha. apply Ha. lia.
Qed.

Lemma action_wf_range a : 0 <= a < 2 ^ 49 -> action_wf a.
Proof.
  intros Ha. exists (2 ^ 48 <=? a), (a / 2 ^ 32 mod 2 ^ 16), (a mod 2 ^ 32).
  pose proof (Z.mod_pos_bound (a / 2 ^ 32) (2 ^ 16) ltac:(lia)). pose proof (Z.mod_pos_bound a (2 ^ 32) ltac:(lia)).
  split_and!; try lia. rewrite action_word_value by lia.
  pose proof (Z.div_mod a (2 ^ 32) ltac:(lia)). pose proof (Z.div_mod (a / 2 ^ 32) (2 ^ 16) ltac:(lia)) as Hd.
  rewrite Z.div_div in Hd by lia. change (2 ^ 32 * 2 ^ 16) with (2 ^ 48) in Hd.
  assert (a / 2 ^ 48 = if 2 ^ 48 <=? a then 1 else 0) as E.
  { destruct (Z.leb_spec (2 ^ 48) a); [|apply Z.div_small; lia]. symmetry. apply (Z.div_unique_pos a (2 ^ 48) 1 (a - 2 ^ 48)); lia. }
  rewrite E in Hd. lia.
Qed.

Lemma dfa_okb_sound dfa : dfa_okb dfa = true -> dfa_ok dfa.
Proof.
  unfold dfa_okb. rewrite !andb_true_iff. intros [[Hw Ha] He]. constructor; [by apply dfa_wfb_sound|..].
  - intros n Hl. apply (all_live_sound _ _ Ha) in Hl. apply Forall_forall. rewrite forallb_forall in Hl. intros a Hin.
    specialize (Hl a). rewrite <- list_elem_of_In in Hl. specialize (Hl Hin). zprop. apply action_wf_range. lia.
  - intros n m Hl Hm. apply (all_live_sound _ _ He) in Hl. unfold eol_okb in Hl. rewrite Hm in Hl.
    apply andb_true_iff in Hl as [H1 H2]. apply negb_true_iff in H1. split; [done|]. intros H3. rewrite H3 in H2. simpl in H2.
    intros E. rewrite E, Z.eqb_refl in H2. done.
Qed.
