(* ===== verification/BytecodeTheorems.v ===== *)
(** * What is proved about the bytecode *)

From stdpp Require Import gmap.
From S2P Require Import Prelude Containers ResourceLoad Dfa Bytecode BytecodeCompiler TransitionTables BytecodeLayout BytecodeLink BytecodeInterpreter BytecodeCorrect BytecodeStream.

(** Two automata for the examples: the first matches every URL with action 3,
    URLs starting with [a] or [A] with action 5, and a URL equal to [ab] with
    action 7 if the load is an image; the second URLs starting with [z]. *)
Definition example_dfa1 : DFA :=
  mkDFA [mkDFANode 0 0 1 2 0; mkDFANode 1 2 1 1 0; mkDFANode 0 3 0 1 0; mkDFANode 2 4 1 0 0]
        [3; 5; Z.shiftl 2 32 + 7] [mkCharRange 65 65; mkCharRange 97 97; mkCharRange 98 98; mkCharRange 0 0] [1; 1; 2; 3] 0.
Definition example_dfa2 : DFA :=
  mkDFA [mkDFANode 0 0 0 1 0; mkDFANode 0 1 1 0 0] [9] [mkCharRange 122 122] [1] 0.

(** Decide the conditions on a concrete stream. *)
Ltac stream_ok := repeat (apply Forall_cons_2; [apply dfa_okb_sound; vm_compute; reflexivity|]); apply Forall_nil_2.

(** C10: Compiling each automaton of a stream to its own bytecode and
    interpreting one bytecode after the other returns, and reports exactly the
    conditional actions on the root of the first automaton and the actions of
    the nodes the automata enter along the URL and its terminating zero,
    restricted to those that pass the flag test and the domain test; each action
    once.  The automata are well-formed, with action words of 49 bits; their
    end-of-line edges are ones the bytecode expresses ([eol_ok]: not to the
    fallback target of their node, and to a node without fallback); the roots
    after the first have no actions, as the interpreter asserts; the URL is
    ASCII, without zeroes, and shorter than 2 GB, and the bytecode than 1 GB. *)
Theorem interpret_runs_automata `{HashOrder} (first : DFA) (later : list DFA) (domainActions : option (list Z)) (url : list Z) (flags : Z) :
  Forall dfa_wf (first :: later) -> Forall actions_wf (first :: later) -> Forall eol_ok (first :: later) ->
  Forall (fun d => dfa_node_actions d (dfa_root d) = []) later ->
  stream_size (first :: later) < 2 ^ 30 -> vsize url < 2 ^ 31 -> url_wf url ->
  exists codes actions,
    Forall2 (fun d code => compile d [] = Done code) (first :: later) codes /\
    interpret (concat codes) domainActions url flags = Done actions /\ NoDup actions /\
    forall a, a ∈ actions <-> allowed domainActions flags a = true /\
      ((a ∈ dfa_node_actions first (dfa_root first) /\ conditional a = true) \/ exists d, d ∈ first :: later /\ a ∈ dfa_reported url d).
Proof.
  intros Hwf Haw Heol Hroots Hb Hu Huw. assert (Hok : Forall dfa_ok (first :: later)).
  { apply Forall_forall. intros d Hd. rewrite !Forall_forall in *. by constructor; [apply Hwf|apply Haw|apply Heol]. }
  destruct (compile_each_laid_out _ Hok Hb) as (codes & E & Hl). specialize (E []). specialize (Hl []). cbn [app] in E, Hl.
  exists codes, (collect domainActions flags [] (stream_reported url (first :: later))). split_and!.
  - by apply (compile_each_Forall2 _ []).
  - by apply interpret_laid_out.
  - apply NoDup_collect. constructor.
  - intros a. rewrite elem_of_collect, elem_of_nil, elem_of_stream_reported by done. tauto.
Qed.

Lemma interpret_runs_automata_witness :
  url_wf [97; 98] /\
  exists codes actions,
    Forall2 (fun d code => compile d [] = Done code) [example_dfa1; example_dfa2] codes /\
    interpret (concat codes) None [97; 98] 2 = Done actions /\ NoDup actions /\
    forall a, a ∈ actions <-> allowed None 2 a = true /\
      ((a ∈ dfa_node_actions example_dfa1 (dfa_root example_dfa1) /\ conditional a = true) \/ exists d, d ∈ [example_dfa1; example_dfa2] /\ a ∈ dfa_reported [97; 98] d).
Proof.
  assert (H1 : Forall dfa_ok [example_dfa1; example_dfa2]) by stream_ok.
  assert (H2 : url_wf [97; 98]) by (repeat constructor; lia).
  split; [exact H2|]. apply (interpret_runs_automata example_dfa1 [example_dfa2] None [97; 98] 2).
  - exact (Forall_impl _ _ _ H1 dk_wf).
  - exact (Forall_impl _ _ _ H1 dk_actions).
  - exact (Forall_impl _ _ _ H1 dk_eol).
  - repeat constructor.
  - vm_compute. reflexivity.
  - vm_compute. reflexivity.
  - exact H2.
Defined.

(** C20: Compiling a well-formed automaton into an empty vector, as every caller
    does, returns: no release assertion of the compiler or of the linker fails,
    and the header of the bytecode holds its size, which is at most the
    worst-case size.  The worst-case size is below 1 GB. *)
Theorem compile_returns (dfa : DFA) :
  dfa_wf dfa -> code_size_bound dfa < 2 ^ 30 ->
  exists code, compile dfa [] = Done code /\ getBits_u32 code 0 = Done (vsize code) /\ 4 <= vsize code <= code_size_bound dfa.
Proof.
  intros Hwf Hb. destruct (compile_layout dfa Hwf [] Hb) as (code & off & E & Hc). exists code.
  pose proof (cp_size _ _ _ _ Hc). split_and!; [done| |lia|lia].
  pose proof (header_at dfa [] code [] off Hc) as Hh. rewrite app_nil_r in Hh. apply Hh. lia.
Qed.

Lemma compile_returns_witness :
  exists code, compile example_dfa1 [] = Done code /\ getBits_u32 code 0 = Done (vsize code) /\ 4 <= vsize code <= code_size_bound example_dfa1.
Proof.
  apply (compile_returns example_dfa1).
  - apply dk_wf, dfa_okb_sound. vm_compute. reflexivity.
  - vm_compute. reflexivity.
Defined.

(** C27: The ranges, jump tables and fallback that [transitions] computes for a
    node send every ASCII character where the transitions of the node send it;
    the only exception is the end-of-line character when its target is the
    fallback target, which is dropped. *)
Theorem transition_tables_exact (dfa : DFA) (node : DFANode) (ts : list DFATransition) :
  node_transitions node dfa = Done ts -> sorted_from 0 ts -> Forall (fun t => tr_target t <> noDestination) ts ->
  exists t, compiler_transitions dfa node = Done t /\
    forall c, 0 <= c < 128 ->
      tables_target t c =
        if (c =? 0) && t_useFallbackTransition t && bool_decide (trans_target ts 0 = Some (t_fallbackTransitionTarget t))
        then None else trans_target ts c.
Proof. intros Ht Hs Hn. destruct (compiler_transitions_exact dfa node ts Ht Hs Hn) as (t & E & _ & H). eauto. Qed.

Definition example_transitions : list DFATransition :=
  [mkDFATransition (mkCharRange 65 65) 1; mkDFATransition (mkCharRange 97 97) 1].

Lemma transition_tables_exact_witness :
  exists t, compiler_transitions example_dfa1 (mkDFANode 0 0 1 2 0) = Done t /\
    forall c, 0 <= c < 128 ->
      tables_target t c =
        if (c =? 0) && t_useFallbackTransition t &&
           bool_decide (trans_target example_transitions 0 = Some (t_fallbackTransitionTarget t))
        then None else trans_target example_transitions c.
Proof.
  apply (transition_tables_exact example_dfa1 (mkDFANode 0 0 1 2 0) example_transitions).
  - reflexivity.
  - apply sorted_fromb_sound. reflexivity.
  - repeat constructor; discriminate.
Defined.

(** A jump written by the linker is read back by the interpreter: for any
    distance between zero and the longest possible jump the instruction was
    sized for, linking succeeds and [getJumpDistance] returns the distance. *)
Theorem jump_roundtrip (pre post starts : list Z) (longest location n : Z) :
  - 2 ^ 31 <= longest < 2 ^ 31 -> vget starts n = Done (start_of starts n) -> 0 <= start_of starts n < INT32_MAX ->
  Z.min 0 longest <= start_of starts n - location <= Z.max 0 longest ->
  let size := smallestPossibleJumpSize longest in
  exists linked,
    link_one starts (pre ++ appendZeroes [] size ++ post) (mkLinkRecord size longest location (vsize pre) n) = Done linked /\
    getJumpDistance linked (vsize pre) size = Done (start_of starts n - location).
Proof.
  intros Hl Hg Hs Hd size. pose proof (smallestPossibleJumpSize_fits _ _ Hl Hd) as Hf. fold size in Hf.
  exists (pre ++ jump_bytes size (start_of starts n - location) ++ post). split; [|by apply getJumpDistance_at].
  rewrite appendZeroes_eq. apply (link_one_spec starts size longest location n pre post). split_and!; try done; try lia. eauto.
Qed.

Lemma jump_roundtrip_witness :
  let size := smallestPossibleJumpSize (-70000) in
  exists linked,
    link_one [100000; 40000] ([1; 2] ++ appendZeroes [] size ++ [3]) (mkLinkRecord size (-70000) 100010 (vsize [1; 2]) 1) = Done linked /\
    getJumpDistance linked (vsize [1; 2]) size = Done (start_of [100000; 40000] 1 - 100010).
Proof.
  apply (jump_roundtrip [1; 2] [3] [100000; 40000] (-70000) 100010 1).
  - lia.
  - reflexivity.
  - vm_compute. split; [discriminate|reflexivity].
  - vm_compute. split; discriminate.
Defined.

(** The bytes of an action instruction decode to the action: running the
    instruction emitted for an action word adds that word to the set exactly
    when the flags and the domain allow it, and moves past the instruction. *)
Theorem action_instruction_roundtrip `{HashOrder} (c : compiler) (action flags : Z) (domainActions : option (list Z)) (url : list Z) (s : state) :
  action_wf action -> vsize (m_bytecode (emitAppendAction c action)) < 2 ^ 31 -> programCounter s = vsize (m_bytecode c) ->
  interpret_instruction (m_bytecode (emitAppendAction c action)) domainActions url flags s =
    Done (Some (mkState (vsize (m_bytecode (emitAppendAction c action))) (urlIndex s) (urlIndexIsAfterEndOfString s)
                  (if flags_match flags action && domain_allows domainActions action then hs_add (st_actions s) action else st_actions s))).
Proof.
  intros Hw Hs Hpc. rewrite emitAppendAction_push in *. unfold push in *. cbn [m_bytecode] in *. unfold flat0 in *. cbn [map concat zero_bytes] in *.
  rewrite app_nil_r in *. rewrite (exec_Act domainActions (fun _ => 0) _ url flags Hs Int8 (m_bytecode c) [] s action Hw).
  - rewrite vsize_app, vsize_action_bytes, Hpc. done.
  - unfold instr_bytes, flat. cbn [instr_items map concat linked_bytes]. by rewrite !app_nil_r.
  - done.
Qed.

Lemma action_instruction_roundtrip_witness :
  let c := mkCompiler [0; 0; 0; 0] [] [] [] in
  let s := mkState 4 0 false [] in
  let action := action_word true 1026 70000 in
  interpret_instruction (m_bytecode (emitAppendAction c action)) (Some [action]) [] 1026 s =
    Done (Some (mkState (vsize (m_bytecode (emitAppendAction c action))) 0 false
                  (if flags_match 1026 action && domain_allows (Some [action]) action then hs_add [] action else []))).
Proof.
  intros c s action. apply (action_instruction_roundtrip c action 1026 (Some [action]) [] s).
  - exists true, 1026, 70000. split; [reflexivity|]. lia.
  - vm_compute. reflexivity.
  - reflexivity.
Defined.

(** A node may use a fallback transition exactly when every character from
    1 to 127 has a transition. *)
Theorem fallback_iff_complete (dfa : DFA) (node : DFANode) (ts : list DFATransition) :
  node_transitions node dfa = Done ts -> sorted_from 0 ts ->
  canUseFallbackTransition node dfa = Done true <-> forall c, 0 < c < 128 -> is_Some (trans_target ts c).
Proof.
  intros Ht Hs. unfold canUseFallbackTransition. rewrite Ht. cbn [obind]. split.
  - intros [= Hf] c Hc. by eapply allow_fallback_total.
  - intros Hc. f_equal. by apply allow_fallback_complete.
Qed.

Lemma fallback_iff_complete_witness :
  let dfa := mkDFA [mkDFANode 0 0 0 2 0] [] [mkCharRange 1 64; mkCharRange 65 127] [0; 0] 0 in
  let ts := [mkDFATransition (mkCharRange 1 64) 0; mkDFATransition (mkCharRange 65 127) 0] in
  canUseFallbackTransition (mkDFANode 0 0 0 2 0) dfa = Done true <-> forall c, 0 < c < 128 -> is_Some (trans_target ts c).
Proof.
  intros dfa ts. apply (fallback_iff_complete dfa (mkDFANode 0 0 0 2 0) ts).
  - reflexivity.
  - apply sorted_fromb_sound. reflexivity.
Defined.

(** An automaton whose root goes to the accepting node 1 on end of line and on
    every character, as for the rules [^$] and [^.] with the same action. *)
Definition eol_dfa : DFA :=
  mkDFA [mkDFANode 0 0 0 2 0; mkDFANode 0 2 1 0 0] [5] [mkCharRange 0 0; mkCharRange 1 127] [1; 1] 0.

(** C28: An end-of-line edge to the fallback target is lost: the well-formed
    automaton [eol_dfa] accepts the empty string with action 5, but its
    bytecode reports nothing for it. *)
Theorem eol_edge_to_fallback_lost :
  dfa_wf eol_dfa /\ dfa_run eol_dfa 0 [0] = Some 1 /\ dfa_node_actions eol_dfa 1 = [5] /\
  exists bc, compile eol_dfa [] = Done bc /\ interpret bc None [] 0 = Done [].
Proof.
  split_and!; [|reflexivity|reflexivity|].
  - constructor.
    + eexists. split; reflexivity.
    + intros n node Hn _. apply vget_Done in Hn as [_ Hn]. destruct (Z.to_nat n) as [|[|k]]; simpl in Hn; [..|done]; injection Hn as <-;
        (constructor; [|eexists; reflexivity]); eexists; (split; [reflexivity|]); (split; [by apply sorted_fromb_sound|]);
        repeat constructor; eexists; split; reflexivity.
    + by vm_compute.
  - eexists. split; [vm_compute; reflexivity|]. vm_compute. reflexivity.
Qed.

(** A well-formed automaton that reads the whole URL in its root, and whose
    end-of-line target has only a fallback. *)
Definition past_end_dfa : DFA :=
  mkDFA [mkDFANode 0 0 0 2 0; mkDFANode 0 2 0 1 0] [] [mkCharRange 0 0; mkCharRange 1 127; mkCharRange 1 127] [1; 0; 0] 0.

Definition past_end_code : list Z := Eval vm_compute in match compile past_end_dfa [] with Done code => code | _ => [] end.

(** The state after some instructions. *)
Fixpoint instructions (n : nat) (bytecode url : list Z) (s : state) : outcome (option state) :=
  match n with
  | O => Done (Some s)
  | S n' =>
      let* r := interpret_instruction bytecode None url 0 s in
      match r with Some s' => instructions n' bytecode url s' | None => Done None end
  end.

(** At the root, two instructions read a character and one reads the end. *)
Lemma past_end_root url i c : 0 <= i < 2 ^ 31 -> url_at url i = Done c -> 0 <= c < 128 ->
  if c =? 0 then instructions 1 past_end_code url (mkState 4 i false []) = Done (Some (mkState 9 (i + 1) true []))
  else instructions 2 past_end_code url (mkState 4 i false []) = Done (Some (mkState 4 (i + 1) false [])).
Proof.
  intros Hi Hc Hr. assert (Hu : u32 (i + 1) = i + 1) by (apply u32_small; lia).
  assert (E1 : interpret_instruction past_end_code None url 0 (mkState 4 i false []) =
    Done (Some (if c =? 0 then take_edge (mkState 4 i false []) c 5 else mkState 7 i false []))).
  { unfold interpret_instruction. cbn [programCounter]. change (getInstruction past_end_code 4) with (Done (Some CheckValueCaseSensitive)). cbn [obind urlIndexIsAfterEndOfString].
    unfold interpret_check_value. cbn [programCounter urlIndex]. rewrite Hc. change (getBits_u8 past_end_code (4 + 1)) with (Done 0). cbn [obind].
    change (getJumpSize past_end_code 4) with (Done Int8). cbn [obind]. by destruct (c =? 0). }
  unfold instructions. rewrite E1. cbn [obind]. destruct (Z.eqb_spec c 0) as [->|Hne].
  - unfold take_edge. cbn [programCounter urlIndex urlIndexIsAfterEndOfString st_actions orb Z.eqb]. by rewrite Hu.
  - unfold interpret_instruction. cbn [programCounter]. change (getInstruction past_end_code 7) with (Done (Some Jump)). cbn [obind urlIndex]. rewrite Hc. cbn [obind urlIndexIsAfterEndOfString].
    destruct (Z.eqb_spec c 0); [done|]. cbn [orb]. change (getJumpSize past_end_code 7) with (Done Int8). cbn [obind]. change (getJumpDistance past_end_code (7 + 1) Int8) with (Done (-3)). cbn [obind st_actions].
    by rewrite Hu.
Qed.

Lemma instructions_app n m bytecode url s : forall s', instructions n bytecode url s = Done (Some s') -> instructions (n + m) bytecode url s = instructions m bytecode url s'.
Proof.
  revert s. induction n as [|n IH]; intros s s'; cbn [instructions Nat.add]; [by intros [= ->]|].
  intros E. apply obind_Done in E as (r & -> & E). cbn [obind]. destruct r as [s1|]; [by apply IH|done].
Qed.

(** The loop of the interpreter goes through the states. *)
Lemma interpret_dfa_instructions n bytecode url s s' fuel : instructions n bytecode url s = Done (Some s') ->
  interpret_dfa bytecode None (n + fuel) url 0 s = interpret_dfa bytecode None fuel url 0 s'.
Proof.
  revert s. induction n as [|n IH]; intros s; cbn [instructions Nat.add]; [by intros [= ->]|].
  intros E. apply obind_Done in E as (r & E1 & E). cbn [interpret_dfa]. rewrite E1. cbn [obind]. destruct r as [s1|]; [by apply IH|done].
Qed.

(** The root reads the whole URL. *)
Lemma past_end_reads rest : forall url pre, url = pre ++ rest -> url_wf url -> vsize url < 2 ^ 31 - 1 ->
  instructions (2 * length rest + 1) past_end_code url (mkState 4 (vsize pre) false []) = Done (Some (mkState 9 (vsize url + 1) true [])).
Proof.
  induction rest as [|c rest IH]; intros url pre -> Hw Hs; pose proof (vsize_nonneg pre).
  - rewrite app_nil_r in *. pose proof (past_end_root pre (vsize pre) 0) as Hr. apply Hr; [lia|by apply vget_app_here|lia].
  - assert (Hc : 0 < c < 128) by (unfold url_wf in Hw; rewrite Forall_app, Forall_cons in Hw; tauto).
    rewrite vsize_app, vsize_cons in Hs. pose proof (vsize_nonneg rest).
    pose proof (past_end_root (pre ++ c :: rest) (vsize pre) c) as Hr. destruct (Z.eqb_spec c 0); [lia|].
    replace (2 * length (c :: rest) + 1)%nat with (2 + (2 * length rest + 1))%nat by (cbn [length]; lia). erewrite instructions_app.
    2: { apply Hr; [lia| |lia]. unfold url_at. rewrite <- app_assoc. by apply vget_app_here. }
    replace (vsize pre + 1) with (vsize (pre ++ [c])) by (rewrite vsize_app; reflexivity). apply IH; [by rewrite <- app_assoc|done|]. rewrite vsize_app, vsize_cons. lia.
Qed.

(** C29: The fallback jump reads the URL before it tests that the end was
    passed.  On the bytecode of the concrete well-formed automaton
    [past_end_dfa] (whose end-of-line target has a fallback, which [eol_ok]
    excludes) and any ASCII URL without zeroes of less than 2 GB, the
    interpreter comes to a jump with the note that the end was passed, at the
    index after that of the terminating zero, and reads the URL there. *)
Theorem jump_reads_past_terminator url : url_wf url -> vsize url < 2 ^ 31 - 1 ->
  dfa_wf past_end_dfa /\ compile past_end_dfa [] = Done past_end_code /\
  (exists n s, instructions n past_end_code url (mkState 4 0 false []) = Done (Some s) /\
    getInstruction past_end_code (programCounter s) = Done (Some Jump) /\ urlIndexIsAfterEndOfString s = true /\
    urlIndex s = vsize (url ++ [0]) /\ url_at url (urlIndex s) = Crash /\ interpret_instruction past_end_code None url 0 s = Crash) /\
  interpret past_end_code None url 0 = Crash.
Proof.
  intros Hw Hs. pose proof (past_end_reads url url [] eq_refl Hw Hs) as Hn. change (vsize (@nil Z)) with 0 in Hn.
  assert (Hu : url_at url (vsize url + 1) = Crash) by (destruct (url_at url (vsize url + 1)) as [c| |] eqn:E; [apply vget_range in E; rewrite vsize_app in E; change (vsize [0]) with 1 in E; lia|done|unfold url_at, vget in E; repeat case_match; done]).
  assert (Hi : interpret_instruction past_end_code None url 0 (mkState 9 (vsize url + 1) true []) = Crash).
  { unfold interpret_instruction. cbn [programCounter urlIndex]. change (getInstruction past_end_code 9) with (Done (Some Jump)). cbn [obind]. by rewrite Hu. }
  split; [apply dfa_wfb_sound; vm_compute; reflexivity|]. split; [vm_compute; reflexivity|]. split.
  - eexists _, _. split; [exact Hn|]. split_and!; [reflexivity..|by rewrite vsize_app|exact Hu|exact Hi].
  - unfold interpret. cbn [interpret_stream stream_fuel]. change (0 <? m_bytecodeLength past_end_code) with true. cbn iota.
    change (getBits_u32 past_end_code 0) with (Done 11). cbn [obind Z.eqb]. change (u32 (0 + 4)) with 4.
    assert (Hk : exists k, inner_fuel past_end_code url = (2 * length url + 1 + S k)%nat).
    { exists (inner_fuel past_end_code url - (2 * length url + 2))%nat. unfold inner_fuel. cbn [length past_end_code]. lia. }
    destruct Hk as (k & ->). destruct (2 * length url + 1 + S k)%nat eqn:Ef; [lia|].
    change (skip_root_actions past_end_code None (S n) 11 0 4 []) with (@Done (Z * list Z) (4, [])). cbn [obind andb].
    change (m_bytecodeLength past_end_code <=? 4) with false. cbn iota. rewrite <- Ef, (interpret_dfa_instructions _ _ _ _ _ _ Hn). cbn [interpret_dfa]. by rewrite Hi.
Qed.

Lemma jump_reads_past_terminator_witness :
  dfa_wf past_end_dfa /\ compile past_end_dfa [] = Done past_end_code /\
  (exists n s, instructions n past_end_code [97] (mkState 4 0 false []) = Done (Some s) /\
    getInstruction past_end_code (programCounter s) = Done (Some Jump) /\ urlIndexIsAfterEndOfString s = true /\
    urlIndex s = vsize ([97] ++ [0]) /\ url_at [97] (urlIndex s) = Crash /\ interpret_instruction past_end_code None [97] 0 s = Crash) /\
  interpret past_end_code None [97] 0 = Crash.
Proof.
  apply (jump_reads_past_terminator [97]).
  - repeat constructor; lia.
  - vm_compute. reflexivity.
Defined.
