(* ===== verification/Backend.v ===== *)
(** * Applying content extensions (ContentExtension.cpp, ContentExtensionsBackend.cpp,
    ContentExtensionStyleSheet.cpp)

    A compiled extension is installed under an identifier.  For a load the
    backend interprets the bytecode of every extension and returns the actions
    of the matching rules; the actions are then applied to the request and to
    the document. *)

From stdpp Require Import strings.
From S2P Require Import Prelude Containers Strings ResourceLoad Bytecode Rules BytecodeInterpreter.

(** [CompiledContentExtension]. *)
Record CompiledContentExtension := mkCompiled {
  filtersWithoutDomainsBytecode : list Z;
  filtersWithDomainsBytecode : list Z;
  domainFiltersBytecode : list Z;
  c_actions : list Z
}.

(** What the code asks of a [URL], of [SecurityOrigin] and of the CSS parser.
    A null URL has a null host. *)
Class Platform := {
  URL : Type;
  url_string : URL -> WTFString;
  protocolIsData : URL -> bool;
  url_host : URL -> option WTFString;
  protocolIsHTTP : URL -> bool;
  hasPort : URL -> bool;
  hasDefaultPort : URL -> bool;
  withProtocolHTTPS : URL -> URL;
  withDefaultHTTPSPort : URL -> URL;
  isThirdParty : URL -> URL -> bool;
  utf8 : list Z -> list Z;
  parseStyleSheet : WTFString -> bool
}.

(** A style sheet is the text it was parsed from. *)
Record ContentExtension := mkContentExtension {
  m_identifier : WTFString;
  m_compiledExtension : CompiledContentExtension;
  m_globalDisplayNoneStyleSheet : option WTFString;
  m_cachedDomain : option WTFString;
  m_cachedDomainActions : list Z;
  m_cachedUniversalDomainActions : list Z;
  m_universalActionsWithoutDomains : list Z;
  m_universalActionsWithDomains : list Z
}.

(** [String::operator==] on strings that may be null. *)
Definition nullable_equal (a b : option WTFString) : bool :=
  match a, b with
  | None, None => true
  | Some a, Some b => s_equal a b
  | _, _ => false
  end.

Section Extension.
Context `{HashOrder} `{Platform}.

(** [findFirstIgnorePreviousRules()]: every step moves past an action. *)
Fixpoint find_ignore_loop (fuel : nat) (actions : list Z) (currentActionIndex : Z) : outcome Z :=
  if currentActionIndex <? vsize actions then
    match fuel with
    | O => OutOfFuel
    | S fuel' =>
        let* type := deserializeType actions currentActionIndex in
        if bool_decide (type = IgnorePreviousRules) then Done currentActionIndex
        else
          let* length := serializedLength actions currentActionIndex in
          find_ignore_loop fuel' actions (u32 (currentActionIndex + length))
    end
  else Done UINT32_MAX.

Definition findFirstIgnorePreviousRules (actions : list Z) : outcome Z := find_ignore_loop (length actions) actions 0.

Definition displayNoneCSSRule : WTFString := s_literal "display:none !important;".

(** [inGlobalDisplayNoneStyleSheet(location)]. *)
Definition inGlobalDisplayNoneStyleSheet (actions : list Z) (firstIgnorePreviousRules location : Z) : outcome bool :=
  if location <? firstIgnorePreviousRules then
    let* type := deserializeType actions location in Done (bool_decide (type = CSSDisplayNoneSelector))
  else Done false.

(** The selectors of the universal actions that go to the style sheet. *)
Definition append_global_selector (actions : list Z) (first : Z) (css : WTFString) (location : Z) : outcome WTFString :=
  let* inside := inGlobalDisplayNoneStyleSheet actions first location in
  if inside then
    let css1 := if s_isEmpty css then css else sb_appendChar css 44 in
    let* action := deserialize actions location in
    Done (sb_append css1 (m_stringArgument action))
  else Done css.

(** [removeAllMatching(inGlobalDisplayNoneStyleSheet)]. *)
Fixpoint remove_global (actions : list Z) (first : Z) (locations : list Z) : outcome (list Z) :=
  match locations with
  | [] => Done []
  | l :: locations' =>
      let* inside := inGlobalDisplayNoneStyleSheet actions first l in
      let* rest := remove_global actions first locations' in
      Done (if inside then rest else l :: rest)
  end.

(** [compileGlobalDisplayNoneStyleSheet()]: the style sheet and the universal
    actions that are left. *)
Definition compileGlobalDisplayNoneStyleSheet (actions : list Z) (universalActions : list Z) : outcome (option WTFString * list Z) :=
  let* first := findFirstIgnorePreviousRules actions in
  let* css := ofold (append_global_selector actions first) emptyString universalActions in
  if s_isEmpty css then Done (None, universalActions)
  else
    let text := sb_append (sb_append (sb_append css (s_literal "{")) displayNoneCSSRule) (s_literal "}") in
    let* rest := remove_global actions first universalActions in
    Done (if parseStyleSheet text then Some text else None, rest).

(** [ContentExtension::create(identifier, compiledExtension)]. *)
Definition newContentExtension (identifier : WTFString) (compiled : CompiledContentExtension) : outcome ContentExtension :=
  let* withoutDomains := actionsMatchingEverything (filtersWithoutDomainsBytecode compiled) None in
  let* withDomains := actionsMatchingEverything (filtersWithDomainsBytecode compiled) None in
  let* (sheet, universalWithoutDomains) := compileGlobalDisplayNoneStyleSheet (c_actions compiled) (map u32 withoutDomains) in
  Done (mkContentExtension identifier compiled sheet None [] [] universalWithoutDomains withDomains).

(** [CString(domain.utf8())] of a string that may be null is the empty string
    for a null one. *)
Definition nullable_utf8 (s : option WTFString) : list Z := match s with Some s => utf8 (s_chars s) | None => [] end.

Definition allLoadTypesAndResourceTypes : Z := Z.lor LoadTypeMask ResourceTypeMask.

(** The universal actions that hold for a domain with the given actions. *)
Definition universal_for_domain (domainActions universalActions : list Z) : list Z :=
  map u32 (List.filter (fun action => Bool.eqb (negb (Z.land action IfDomainFlag =? 0)) (hs_contains domainActions action)) universalActions).

Definition populateDomainCacheIfNeeded (e : ContentExtension) (domain : option WTFString) : outcome ContentExtension :=
  if nullable_equal (m_cachedDomain e) domain then Done e
  else
    let* domainActions := interpret (domainFiltersBytecode (m_compiledExtension e)) None (nullable_utf8 domain) allLoadTypesAndResourceTypes in
    let cached := hs_add_range [] domainActions in
    Done (mkContentExtension (m_identifier e) (m_compiledExtension e) (m_globalDisplayNoneStyleSheet e) domain cached
            (universal_for_domain cached (m_universalActionsWithDomains e)) (m_universalActionsWithoutDomains e) (m_universalActionsWithDomains e)).

Definition cachedDomainActions (e : ContentExtension) (domain : option WTFString) : outcome (ContentExtension * list Z) :=
  let* e' := populateDomainCacheIfNeeded e domain in Done (e', m_cachedDomainActions e').

Definition universalActionsWithDomains (e : ContentExtension) (domain : option WTFString) : outcome (ContentExtension * list Z) :=
  let* e' := populateDomainCacheIfNeeded e domain in Done (e', m_cachedUniversalDomainActions e').

(** ** The backend *)

Record ResourceLoadInfo := mkResourceLoadInfo { resourceURL : URL; mainDocumentURL : URL; rli_type : ResourceType }.

(** The loop over the sorted locations from the last: the actions after the
    last [ignore-previous-rules], and whether there was one. *)
Fixpoint actions_in_reverse (actions : list Z) (identifier : WTFString) (locations : list Z) : outcome (list Action * bool) :=
  match locations with
  | [] => Done ([], false)
  | l :: locations' =>
      let* action := deserialize actions l in
      if bool_decide (m_type action = IgnorePreviousRules) then Done ([], true)
      else
        let* (rest, sawIgnorePreviousRules) := actions_in_reverse actions identifier locations' in
        Done (setExtensionIdentifier action identifier :: rest, sawIgnorePreviousRules)
  end.

(** The body of the loop of [actionsForResourceLoad] for one extension. *)
Definition extension_actions (e : ContentExtension) (info : ResourceLoadInfo) : outcome (ContentExtension * list Action) :=
  let compiled := m_compiledExtension e in
  let urlCString := utf8 (s_chars (url_string (resourceURL info))) in
  let flags := getResourceFlags (rli_type info) (isThirdParty (mainDocumentURL info) (resourceURL info)) in
  let* withoutDomainsActions := interpret (filtersWithoutDomainsBytecode compiled) None urlCString flags in
  let domain := url_host (mainDocumentURL info) in
  let* (e1, domainActions) := cachedDomainActions e domain in
  let* withDomainsActions := interpretWithDomains (filtersWithDomainsBytecode compiled) urlCString flags domainActions in
  let* (e2, universalWithDomains) := universalActionsWithDomains e1 domain in
  let universalWithoutDomains := m_universalActionsWithoutDomains e2 in
  let locations := merge_sort Z.le (map u32 withoutDomainsActions ++ map u32 withDomainsActions ++ universalWithoutDomains ++ universalWithDomains) in
  let* (found, sawIgnorePreviousRules) := actions_in_reverse (c_actions compiled) (m_identifier e2) (reverse locations) in
  let sheet := setExtensionIdentifier (newActionWithString CSSDisplayNoneStyleSheet (m_identifier e2) UINT32_MAX) (m_identifier e2) in
  Done (e2, found ++ if sawIgnorePreviousRules then [] else [sheet]).

(** [ContentExtensionsBackend]: the extensions by identifier. *)
Definition backend : Type := list (WTFString * ContentExtension).

Fixpoint replace_extension (b : backend) (identifier : WTFString) (e : ContentExtension) : option backend :=
  match b with
  | [] => None
  | (i, x) :: b' =>
      if s_equal i identifier then Some ((i, e) :: b')
      else match replace_extension b' identifier e with Some b'' => Some ((i, x) :: b'') | None => None end
  end.

Definition removeContentExtension (b : backend) (identifier : WTFString) : backend :=
  hash_rehash (List.filter (fun slot => negb (s_equal (fst slot) identifier)) b).

Definition addContentExtension (b : backend) (identifier : WTFString) (compiled : option CompiledContentExtension) : outcome backend :=
  if s_isEmpty identifier then Done b
  else
    match compiled with
    | None => Done (removeContentExtension b identifier)
    | Some compiled =>
        let* extension := newContentExtension identifier compiled in
        Done (match replace_extension b identifier extension with Some b' => b' | None => hash_place (identifier, extension) b end)
    end.

Definition removeAllContentExtensions (b : backend) : backend := [].

(** The extensions, whose caches may have been filled, and the actions. *)
Fixpoint actions_for_extensions (b : backend) (info : ResourceLoadInfo) : outcome (backend * list Action) :=
  match b with
  | [] => Done ([], [])
  | (i, e) :: b' =>
      let* (e', actions) := extension_actions e info in
      let* (b'', rest) := actions_for_extensions b' info in
      Done ((i, e') :: b'', actions ++ rest)
  end.

Definition actionsForResourceLoad (b : backend) (info : ResourceLoadInfo) : outcome (backend * list Action) :=
  if protocolIsData (resourceURL info) then Done (b, []) else actions_for_extensions b info.

Definition globalDisplayNoneStyleSheet (b : backend) (identifier : WTFString) : option WTFString :=
  match List.find (fun slot => s_equal (fst slot) identifier) b with
  | Some (_, e) => m_globalDisplayNoneStyleSheet e
  | None => None
  end.

(** ** Applying the actions *)

(** What [processContentExtensionRulesForLoad] does to the request, the loader
    and the document, in order. *)
Inductive load_effect :=
| SetAllowCookies (allow : bool)
| AddPendingDisplayNoneSelector (identifier selector : WTFString) (actionID : Z)
| AddDisplayNoneSelector (identifier selector : WTFString) (actionID : Z)
| AddPendingSheet (identifier sheet : WTFString)
| MaybeAddSheet (identifier sheet : WTFString)
| SetRequestURL (url : URL)
| SetLoaderRequestURL (url : URL)
| DispatchDidChangeProvisionalURL
| PromotionMessage (from to : URL)
| BlockMessage (document resource : URL).

Inductive BlockedStatus := Blocked | NotBlocked.

(** The context of a load: the current document is there, the loader loads the
    main resource. *)
Record load_context := mkLoadContext { hasDocument : bool; isLoadingMainResource : bool }.

Record load_state := mkLoadState { ls_url : URL; ls_effects : list load_effect; ls_willBlockLoad : bool }.

Definition add_effects (s : load_state) (l : list load_effect) : load_state := mkLoadState (ls_url s) (ls_effects s ++ l) (ls_willBlockLoad s).

Definition apply_action (b : backend) (context : load_context) (type : ResourceType) (s : load_state) (action : Action) : outcome load_state :=
  let isDocument := match type with RT_Document => true | _ => false end in
  match m_type action with
  | BlockLoad => Done (mkLoadState (ls_url s) (ls_effects s) true)
  | BlockCookies => Done (add_effects s [SetAllowCookies false])
  | CSSDisplayNoneSelector =>
      Done (if isDocument then add_effects s [AddPendingDisplayNoneSelector (m_extensionIdentifier action) (m_stringArgument action) (m_actionID action)]
            else if hasDocument context then add_effects s [AddDisplayNoneSelector (m_extensionIdentifier action) (m_stringArgument action) (m_actionID action)]
            else s)
  | CSSDisplayNoneStyleSheet =>
      Done (match globalDisplayNoneStyleSheet b (m_stringArgument action) with
            | Some sheet =>
                if isDocument then add_effects s [AddPendingSheet (m_stringArgument action) sheet]
                else if hasDocument context then add_effects s [MaybeAddSheet (m_stringArgument action) sheet]
                else s
            | None => s
            end)
  | MakeHTTPS =>
      let originalURL := ls_url s in
      Done (if protocolIsHTTP originalURL && (negb (hasPort originalURL) || hasDefaultPort originalURL) then
              let newURL1 := withProtocolHTTPS originalURL in
              let newURL := if hasPort originalURL then withDefaultHTTPSPort newURL1 else newURL1 in
              mkLoadState newURL
                (ls_effects s ++ [SetRequestURL newURL]
                 ++ (if isDocument && isLoadingMainResource context then [SetLoaderRequestURL newURL; DispatchDidChangeProvisionalURL] else [])
                 ++ (if hasDocument context then [PromotionMessage originalURL newURL] else []))
                (ls_willBlockLoad s)
            else s)
  | IgnorePreviousRules | InvalidAction => Crash
  end.

(** [processContentExtensionRulesForLoad]; [mainDocumentURL] is the URL of the
    request for the main resource of the main frame, else that of the main
    document. *)
Definition processContentExtensionRulesForLoad (b : backend) (context : load_context) (requestURL mainDocumentURL : URL) (type : ResourceType)
    : outcome (backend * load_state * BlockedStatus) :=
  let* (b', actions) := actionsForResourceLoad b (mkResourceLoadInfo requestURL mainDocumentURL type) in
  let* s := ofold (apply_action b' context type) (mkLoadState requestURL [] false) actions in
  if ls_willBlockLoad s then
    Done (b', if hasDocument context then add_effects s [BlockMessage mainDocumentURL (ls_url s)] else s, Blocked)
  else Done (b', s, NotBlocked).

(** ** ContentExtensionStyleSheet *)

(** [addDisplayNoneSelector(selector, selectorID)]: the identifiers added so far
    and the rules of the sheet. *)
Record ContentExtensionStyleSheet := mkStyleSheet { m_addedSelectorIDs : list Z; m_styleSheet : list WTFString }.

Definition addDisplayNoneSelector (sheet : ContentExtensionStyleSheet) (selector : WTFString) (selectorID : Z) : ContentExtensionStyleSheet * bool :=
  if hs_contains (m_addedSelectorIDs sheet) selectorID then (sheet, false)
  else
    let css := sb_appendChar (sb_append (sb_appendChar (sb_append emptyString selector) 123) displayNoneCSSRule) 125 in
    (mkStyleSheet (hs_add (m_addedSelectorIDs sheet) selectorID) (m_styleSheet sheet ++ [css]), true).
End Extension.
