(* ===== verification/BackendTheorems.v ===== *)
(** * Properties of the backend

    Which of the matching rules take effect, what blocks a load, the coherence
    of the domain cache, and the table of extensions. *)

From stdpp Require Import gmap strings.
From S2P Require Import Prelude Containers Strings Dfa ResourceLoad Bytecode BytecodeCompiler BytecodeInterpreter BytecodeStream Rules RulesSerialize Backend.

Section Actions.
Context `{HashOrder}.

(** ** The actions after the last ignored ones *)

(** The longest prefix of elements that [p] does not hold of. *)
Fixpoint before_first (p : Z -> bool) (l : list Z) : list Z :=
  match l with [] => [] | x :: l' => if p x then [] else x :: before_first p l' end.

Lemma elem_of_before_first p l x : StronglySorted Z.ge l -> x ∈ before_first p l <-> x ∈ l /\ forall y, y ∈ l -> p y = true -> y < x.
Proof.
  induction 1 as [|z l Hs IH Hz]; cbn [before_first]; [rewrite elem_of_nil; tauto|]. rewrite Forall_forall in Hz. destruct (p z) eqn:Ez.
  - split; [by intros ?%elem_of_nil|]. intros [Hx Hlt]. pose proof (Hlt z ltac:(left) Ez). apply elem_of_cons in Hx as [->|Hx]; [lia|]. apply Hz in Hx. lia.
  - rewrite !elem_of_cons, IH. split.
    + intros [->|[Hx Hlt]]; [split; [by left|]|split; [by right|]]; intros y [->|Hy]%elem_of_cons Hp; try congruence; [|by apply Hlt].
      destruct (Z.eq_dec y z) as [->|]; [congruence|]. apply Hz in Hy. lia.
    + intros [[->|Hx] Hlt]; [by left|]. right. split; [done|]. intros y Hy. apply Hlt. by right.
Qed.

Definition ignores (actions : list Z) (l : Z) : bool :=
  match deserialize actions l with Done a => bool_decide (m_type a = IgnorePreviousRules) | _ => false end.

Lemma actions_in_reverse_spec actions identifier locations : (forall l, l ∈ locations -> exists a, deserialize actions l = Done a) ->
  exists found, actions_in_reverse actions identifier locations = Done (found, existsb (ignores actions) locations) /\
    Forall2 (fun l a => exists a0, deserialize actions l = Done a0 /\ a = setExtensionIdentifier a0 identifier) (before_first (ignores actions) locations) found.
Proof.
  induction locations as [|l locations IH]; intros Hd; [exists []; by split|]. destruct (Hd l) as [a Ea]; [left|]. cbn [actions_in_reverse existsb before_first].
  unfold ignores at 1 3. rewrite Ea. cbn [obind]. case_bool_decide as Et; [exists []; by split|]. destruct IH as (found & -> & Hf); [intros; apply Hd; by right|].
  cbn [obind]. eexists. split; [done|]. constructor; [by exists a|done].
Qed.

Lemma reverse_sorted (l : list Z) : StronglySorted Z.ge (reverse (merge_sort Z.le l)).
Proof.
  pose proof (StronglySorted_merge_sort Z.le l) as Hs. induction Hs as [|x m Hm IH Hx]; [constructor|]. rewrite reverse_cons.
  apply StronglySorted_app_2; [|done|repeat constructor]. intros y z Hy ->%list_elem_of_singleton. rewrite elem_of_reverse in Hy. rewrite Forall_forall in Hx. apply Hx in Hy. lia.
Qed.
End Actions.

(** ** Which rules take effect *)

(** The rule [i] is not ignored by a matching rule after it. *)
Definition in_effect (rules : list ContentExtensionRule) (matched : list Z) (i : Z) : Prop :=
  exists ri, vget rules i = Done ri /\ rule_type ri <> IgnorePreviousRules /\
    forall j rj, j ∈ matched -> vget rules j = Done rj -> rule_type rj = IgnorePreviousRules -> j < i.

Section Effect.
Context `{HashOrder}.
Variables (rules : list ContentExtensionRule) (bytes locations : list Z).
Hypothesis Hok : rules_ok rules.
Hypothesis Hser : serializeActions rules = Done (bytes, locations).
Hypothesis Hsize : vsize bytes < 2 ^ 32.

Lemma location_read i r l : vget rules i = Done r -> vget locations i = Done l -> exists a, deserialize bytes l = Done a /\ m_type a = rule_type r /\ m_actionID a = l.
Proof.
  intros Hr Hl. destruct (serializeActions_spec rules Hok) as (s & E & Hs & Hp). rewrite Hser in E. injection E as Eb El.
  destruct (si_located _ _ Hs i r l) as (sel & Hat & Hw & _); [split_and!; [done|by rewrite <- El|apply Hp]|]. rewrite <- Eb in Hat.
  assert (Hs' : serializable (rule_type r) = true).
  { unfold rules_ok in Hok. rewrite Forall_forall in Hok. apply Hok. apply vget_Done in Hr as [_ Hr]. by eapply list_elem_of_lookup_2. }
  eexists. split; [by apply (deserialize_at _ _ (rule_type r) sel)|]. by case_bool_decide.
Qed.

Lemma location_order i j ri rj li lj : vget rules i = Done ri -> vget rules j = Done rj -> vget locations i = Done li -> vget locations j = Done lj ->
  rule_type rj = IgnorePreviousRules -> rule_type ri <> IgnorePreviousRules -> lj < li <-> j < i.
Proof.
  intros Hri Hrj Hli Hlj Hj Hi. destruct (serializeActions_spec rules Hok) as (s & E & Hs & Hp). rewrite Hser in E. injection E as Eb El.
  assert (Ho : li < lj <-> i < j) by (apply (si_order _ _ Hs i j ri rj); [split_and!; [done|by rewrite <- El|apply Hp]..|done|done]).
  assert (Hne : li <> lj).
  { intros ->. destruct (location_read i ri lj Hri Hli) as (a & Ea & Ha & _), (location_read j rj lj Hrj Hlj) as (a' & Ea' & Ha' & _). rewrite Ea in Ea'. injection Ea' as <-. congruence. }
  assert (i <> j) by (intros ->; congruence). lia.
Qed.

Lemma rule_of_location i l : vget locations i = Done l -> exists r, vget rules i = Done r.
Proof.
  intros [Hi Hl]%vget_Done. destruct (serializeActions_spec rules Hok) as (s & E & Hs & _). rewrite Hser in E. injection E as _ El. pose proof (si_size _ _ Hs) as Hsz. rewrite <- El in Hsz.
  apply lookup_lt_Some in Hl. destruct (vget_total rules i) as (r & Hr & _); [unfold vsize in *; lia|]. by exists r.
Qed.

Lemma ignores_spec i r l : vget rules i = Done r -> vget locations i = Done l -> ignores bytes l = true <-> rule_type r = IgnorePreviousRules.
Proof. intros Hr Hl. destruct (location_read i r l Hr Hl) as (a & Ea & Ht & _). unfold ignores. rewrite Ea, bool_decide_eq_true. by rewrite Ht. Qed.

(** The locations of the matching rules, in the order they are read. *)
Variables matched ids : list Z.
Hypothesis Hids : Forall2 (fun i l => vget locations i = Done l) matched ids.
Let sorted := reverse (merge_sort Z.le ids).

Lemma elem_of_sorted l : l ∈ sorted <-> exists i, i ∈ matched /\ vget locations i = Done l.
Proof.
  unfold sorted. rewrite elem_of_reverse, merge_sort_Permutation. split.
  - intros [n Hn]%list_elem_of_lookup. destruct (Forall2_lookup_r _ _ _ _ _ Hids Hn) as (i & Hi & Hl). exists i. split; [by eapply list_elem_of_lookup_2|done].
  - intros (i & [n Hn]%list_elem_of_lookup & Hl). destruct (Forall2_lookup_l _ _ _ _ _ Hids Hn) as (l' & Hl' & E). rewrite Hl in E. injection E as <-. by eapply list_elem_of_lookup_2.
Qed.

Lemma matched_location j : j ∈ matched -> exists l, vget locations j = Done l /\ l ∈ sorted.
Proof.
  intros Hj. pose proof Hj as [n Hn]%list_elem_of_lookup. destruct (Forall2_lookup_l _ _ _ _ _ Hids Hn) as (l & _ & Hl). exists l. split; [done|]. apply elem_of_sorted. by exists j.
Qed.

Lemma sorted_read l : l ∈ sorted -> exists a, deserialize bytes l = Done a /\ m_actionID a = l.
Proof.
  intros (i & _ & Hl)%elem_of_sorted. destruct (rule_of_location i l Hl) as [r Hr]. destruct (location_read i r l Hr Hl) as (a & Ea & _ & Hid). by exists a.
Qed.

(** A location is read before the first ignoring one exactly when its rule is
    in effect. *)
Lemma read_in_effect i l : i ∈ matched -> vget locations i = Done l -> l ∈ before_first (ignores bytes) sorted <-> in_effect rules matched i.
Proof.
  intros Hi Hl. rewrite (elem_of_before_first (ignores bytes) sorted l (reverse_sorted ids)). destruct (rule_of_location i l Hl) as [r Hr]. split.
  - intros [Hs Hlt]. exists r. assert (Hni : rule_type r <> IgnorePreviousRules).
    { intros Hri. apply (ignores_spec i r l Hr Hl) in Hri. apply Hlt in Hri; [lia|done]. }
    split_and!; [done|done|]. intros j rj Hj Hrj Htj. destruct (matched_location j Hj) as (lj & Hlj & Hsj).
    apply (location_order i j r rj l lj); try done. apply Hlt; [done|by apply (ignores_spec j rj)].
  - intros (r' & Hr' & Hni & Hall). rewrite Hr in Hr'. injection Hr' as <-. split; [apply elem_of_sorted; by exists i|]. intros lj (j & Hj & Hlj)%elem_of_sorted Hp.
    destruct (rule_of_location j lj Hlj) as [rj Hrj]. apply (ignores_spec j rj lj Hrj Hlj) in Hp. apply (location_order i j r rj l lj); try done. by apply (Hall j rj).
Qed.

Lemma any_ignores : existsb (ignores bytes) sorted = true <-> exists j rj, j ∈ matched /\ vget rules j = Done rj /\ rule_type rj = IgnorePreviousRules.
Proof.
  rewrite existsb_exists. split.
  - intros (l & Hl%list_elem_of_In & Hp). apply elem_of_sorted in Hl as (j & Hj & Hlj). destruct (rule_of_location j l Hlj) as [rj Hrj]. exists j, rj. split_and!; [done|done|]. by apply (ignores_spec j rj l).
  - intros (j & rj & Hj & Hrj & Htj). destruct (matched_location j Hj) as (lj & Hlj & Hsj). exists lj. split; [by apply list_elem_of_In|by apply (ignores_spec j rj)].
Qed.
End Effect.

(** C16: [ignore-previous-rules] takes effect exactly on the rules before it:
    let [matched] be the rules that match a load and [sorted] their serialized
    locations in the order the backend reads them.  The backend returns an
    action for the rule [i] exactly when [i] matched, is no such rule itself,
    and no matching such rule comes after it in the rule list; and the global
    style sheet is added exactly when no such rule matched. *)
Theorem ignore_previous_rules_exact `{HashOrder} rules bytes locations matched ids identifier :
  rules_ok rules -> serializeActions rules = Done (bytes, locations) -> vsize bytes < 2 ^ 32 ->
  Forall2 (fun i l => vget locations i = Done l) matched ids ->
  exists found saw, actions_in_reverse bytes identifier (reverse (merge_sort Z.le ids)) = Done (found, saw) /\
    (forall i l, i ∈ matched -> vget locations i = Done l ->
       in_effect rules matched i <-> exists r a, vget rules i = Done r /\ a ∈ found /\ m_actionID a = l /\ m_type a = rule_type r) /\
    (saw = true <-> exists j rj, j ∈ matched /\ vget rules j = Done rj /\ rule_type rj = IgnorePreviousRules).
Proof.
  intros Hok Hser Hsize Hids. set (sorted := reverse (merge_sort Z.le ids)).
  pose proof (sorted_read rules bytes locations Hok Hser Hsize matched ids Hids) as Hread.
  destruct (actions_in_reverse_spec bytes identifier sorted) as (found & E & Hf); [intros l Hl; destruct (Hread l Hl) as (a & Ea & _); by exists a|].
  exists found, (existsb (ignores bytes) sorted). split; [done|]. split; [|by apply (any_ignores rules bytes locations Hok Hser Hsize)].
  intros i l Hi Hl. destruct (rule_of_location rules bytes locations Hok Hser i l Hl) as [r Hr].
  destruct (location_read rules bytes locations Hok Hser Hsize i r l Hr Hl) as (a & Ea & Ht & Hid).
  rewrite <- (read_in_effect rules bytes locations Hok Hser Hsize matched ids Hids i l Hi Hl). split.
  - intros [n Hn]%list_elem_of_lookup. destruct (Forall2_lookup_l _ _ _ _ _ Hf Hn) as (a' & Ha' & a0 & Ea0 & ->). rewrite Ea in Ea0. injection Ea0 as <-.
    exists r, (setExtensionIdentifier a identifier). split_and!; try done. by eapply list_elem_of_lookup_2.
  - intros (r' & a' & Hr' & [n Hn]%list_elem_of_lookup & Hid' & _). destruct (Forall2_lookup_r _ _ _ _ _ Hf Hn) as (l' & Hl' & a0 & Ea0 & ->). cbn in Hid'.
    assert (Hb : l' ∈ before_first (ignores bytes) sorted) by (by eapply list_elem_of_lookup_2).
    pose proof (proj1 (elem_of_before_first (ignores bytes) sorted l' (reverse_sorted ids)) Hb) as [Hls _]. destruct (Hread l' Hls) as (a1 & Ea1 & Hid1).
    assert (l' = l) as -> by congruence. done.
Qed.

(** ** Applying actions *)

Section Apply.
Context `{HashOrder} `{Platform}.

Definition applicable (a : Action) : Prop := m_type a <> IgnorePreviousRules /\ m_type a <> InvalidAction.

Lemma deserialize_valid bytes l a : deserialize bytes l = Done a -> m_type a <> InvalidAction.
Proof.
  unfold deserialize. intros E. repeat (apply obind_Done in E as (? & _ & E)).
  destruct (action_type_of_code _); try (by injection E as <-); try done. repeat (apply obind_Done in E as (? & _ & E)).
  destruct (negb _); repeat (apply obind_Done in E as (? & _ & E)); by injection E as <-.
Qed.

Lemma actions_in_reverse_applicable bytes identifier ls : forall found saw, actions_in_reverse bytes identifier ls = Done (found, saw) -> Forall applicable found.
Proof.
  induction ls as [|l ls IH]; intros found saw E; cbn [actions_in_reverse] in E; [by injection E as <- <-|]. apply obind_Done in E as (a & Ea & E).
  case_bool_decide as Et; [by injection E as <- <-|]. apply obind_Done in E as ([rest saw'] & Er & E). injection E as <- <-. constructor; [|by eapply IH].
  split; [done|]. exact (deserialize_valid _ _ _ Ea).
Qed.

Lemma actions_applicable b info : forall b' actions, actionsForResourceLoad b info = Done (b', actions) -> Forall applicable actions.
Proof.
  unfold actionsForResourceLoad. intros b' actions E. destruct (protocolIsData _); [by injection E as <- <-|]. revert b' actions E.
  induction b as [|[i e] b IH]; intros b' actions E; cbn [actions_for_extensions] in E; [by injection E as <- <-|].
  apply obind_Done in E as ([e' acts] & Ee & E). apply obind_Done in E as ([b'' rest] & Er & E). injection E as <- <-. apply Forall_app. split; [|by eapply IH].
  unfold extension_actions in Ee. apply obind_Done in Ee as (l1 & _ & Ee). apply obind_Done in Ee as ([e1 d] & _ & Ee). apply obind_Done in Ee as (l2 & _ & Ee).
  apply obind_Done in Ee as ([e2 u] & _ & Ee). apply obind_Done in Ee as ([found saw] & Ef & Ee). injection Ee as <- <-. apply Forall_app. split; [by eapply actions_in_reverse_applicable|].
  destruct saw; [constructor|]. by constructor.
Qed.

Lemma apply_action_spec b context type s a : applicable a -> exists s', apply_action b context type s a = Done s' /\
  (ls_willBlockLoad s' = true <-> ls_willBlockLoad s = true \/ m_type a = BlockLoad) /\
  (SetAllowCookies false ∈ ls_effects s' <-> SetAllowCookies false ∈ ls_effects s \/ m_type a = BlockCookies).
Proof.
  intros [Hi Hn]. unfold apply_action. destruct (m_type a) eqn:Et; try done; eexists; (split; [done|]).
  - cbn. intuition congruence.
  - cbn. rewrite elem_of_app, list_elem_of_singleton. intuition congruence.
  - destruct type, (hasDocument context); cbn; rewrite ?elem_of_app, ?list_elem_of_singleton; intuition congruence.
  - destruct (globalDisplayNoneStyleSheet b (m_stringArgument a)); [|intuition congruence].
    destruct type, (hasDocument context); cbn; rewrite ?elem_of_app, ?list_elem_of_singleton; intuition congruence.
  - destruct (protocolIsHTTP (ls_url s) && _); [|intuition congruence]. cbn [ls_effects ls_willBlockLoad].
    destruct type, (hasDocument context), (isLoadingMainResource context); cbn [andb app]; rewrite ?elem_of_app, ?elem_of_cons, ?elem_of_nil; intuition congruence.
Qed.

Lemma apply_actions_spec b context type actions : forall s, Forall applicable actions -> exists s', ofold (apply_action b context type) s actions = Done s' /\
  (ls_willBlockLoad s' = true <-> ls_willBlockLoad s = true \/ exists a, a ∈ actions /\ m_type a = BlockLoad) /\
  (SetAllowCookies false ∈ ls_effects s' <-> SetAllowCookies false ∈ ls_effects s \/ exists a, a ∈ actions /\ m_type a = BlockCookies).
Proof.
  induction actions as [|a actions IH]; intros s Ha; [exists s; split; [done|]; setoid_rewrite elem_of_nil; naive_solver|]. apply Forall_cons in Ha as [Ha Has]. cbn [ofold].
  destruct (apply_action_spec b context type s a Ha) as (s1 & -> & H1 & H2). cbn [obind]. destruct (IH s1 Has) as (s' & -> & H1' & H2'). exists s'. split; [done|].
  rewrite H1', H2', H1, H2. setoid_rewrite elem_of_cons. split; (split; [intros [[?|?]|(x & ? & ?)]; eauto|intros [?|(x & [->|?] & ?)]; eauto]).
Qed.

(** What the actions do to a load. *)
Lemma load_blocked b context url document type b' actions :
  actionsForResourceLoad b (mkResourceLoadInfo url document type) = Done (b', actions) ->
  exists s status, processContentExtensionRulesForLoad b context url document type = Done (b', s, status) /\
    (status = Blocked <-> exists a, a ∈ actions /\ m_type a = BlockLoad) /\
    (SetAllowCookies false ∈ ls_effects s <-> exists a, a ∈ actions /\ m_type a = BlockCookies).
Proof.
  intros E. unfold processContentExtensionRulesForLoad. rewrite E. cbn [obind].
  destruct (apply_actions_spec b' context type actions (mkLoadState url [] false) (actions_applicable _ _ _ _ E)) as (s & -> & Hb & Hc). cbn [obind]. cbn in Hb, Hc.
  assert (Hc' : SetAllowCookies false ∈ ls_effects s <-> exists a, a ∈ actions /\ m_type a = BlockCookies) by (rewrite Hc, elem_of_nil; naive_solver).
  destruct (ls_willBlockLoad s) eqn:Ew; eexists _, _; (split; [done|]).
  - split; [split; [intros _|done]; destruct Hb as [[?|?] _]; done|]. destruct (hasDocument context); [|done]. cbn. rewrite elem_of_app, list_elem_of_singleton, Hc'.
    split; [by intros [?|?]|by left].
  - split; [|done]. split; [done|]. intros Hx. assert (Hf : false = true) by (apply Hb; by right). done.
Qed.
End Apply.

(** ** The domain cache *)

Section Cache.
Context `{HashOrder} `{Platform}.

(** The actions of a domain, without the cache. *)
Definition domain_actions (e : ContentExtension) (domain : WTFString) : outcome (list Z) :=
  let* found := interpret (domainFiltersBytecode (m_compiledExtension e)) None (utf8 (s_chars domain)) allLoadTypesAndResourceTypes in
  Done (hs_add_range [] found).

(** The cache holds the answers for the cached domain. *)
Definition cache_ok (e : ContentExtension) : Prop :=
  match m_cachedDomain e with
  | None => True
  | Some d => domain_actions e d = Done (m_cachedDomainActions e) /\
              m_cachedUniversalDomainActions e = universal_for_domain (m_cachedDomainActions e) (m_universalActionsWithDomains e)
  end.

Lemma populate_spec e d actions : cache_ok e -> domain_actions e d = Done actions ->
  exists e', populateDomainCacheIfNeeded e (Some d) = Done e' /\ cache_ok e' /\ m_compiledExtension e' = m_compiledExtension e /\
    m_universalActionsWithDomains e' = m_universalActionsWithDomains e /\ m_cachedDomainActions e' = actions /\
    m_cachedUniversalDomainActions e' = universal_for_domain actions (m_universalActionsWithDomains e).
Proof.
  intros Hc Hd. unfold populateDomainCacheIfNeeded. destruct (nullable_equal (m_cachedDomain e) (Some d)) eqn:En.
  - exists e. unfold cache_ok in Hc. destruct (m_cachedDomain e) as [d'|] eqn:Ed; [|done]. apply bool_decide_eq_true in En. destruct Hc as [H1 H2].
    unfold domain_actions in H1, Hd. rewrite En, Hd in H1. injection H1 as Ha. subst actions. split_and!; try done. unfold cache_ok. rewrite Ed. split; [|done]. unfold domain_actions. rewrite En. exact Hd.
  - unfold domain_actions in Hd. apply obind_Done in Hd as (found & Ef & Hd). injection Hd as <-. unfold nullable_utf8. rewrite Ef. cbn [obind]. eexists. split; [done|].
    split_and!; try done. unfold cache_ok, domain_actions.
    cbn [m_cachedDomain m_compiledExtension m_cachedDomainActions m_cachedUniversalDomainActions m_universalActionsWithDomains]. by rewrite Ef.
Qed.

(** C31: The cache of domain actions is transparent for domains that are not
    null: on an extension whose cache is coherent (as it is when created), asking
    for the actions of such a domain, whose domain filters run, gives what
    interpreting the domain filters gives, the universal actions are those whose
    if- or unless-domain condition the domain satisfies, and the cache stays
    coherent, whatever domains were asked for before. *)
Theorem domain_cache_coherent e d actions : cache_ok e -> domain_actions e d = Done actions ->
  exists e1 e2, cachedDomainActions e (Some d) = Done (e1, actions) /\
    universalActionsWithDomains e1 (Some d) = Done (e2, universal_for_domain actions (m_universalActionsWithDomains e)) /\
    cache_ok e1 /\ cache_ok e2.
Proof.
  intros Hc Hd. destruct (populate_spec e d actions Hc Hd) as (e1 & E1 & Hc1 & Hk1 & Hu1 & Ha1 & _).
  assert (Hd1 : domain_actions e1 d = Done actions) by (unfold domain_actions in *; by rewrite Hk1).
  destruct (populate_spec e1 d actions Hc1 Hd1) as (e2 & E2 & Hc2 & _ & Hu2 & _ & Hun2). exists e1, e2. unfold cachedDomainActions, universalActionsWithDomains.
  rewrite E1, E2. cbn [obind]. rewrite Ha1, Hun2, Hu1. done.
Qed.

Lemma newContentExtension_cache i c e : newContentExtension i c = Done e -> cache_ok e.
Proof.
  unfold newContentExtension. intros E. apply obind_Done in E as (l1 & _ & E). apply obind_Done in E as (l2 & _ & E). apply obind_Done in E as ([sheet u] & _ & E). by injection E as <-.
Qed.

(** ** The table of extensions *)

Definition installed (b : backend) (identifier : WTFString) (e : ContentExtension) : Prop := exists i, (i, e) ∈ b /\ s_chars i = s_chars identifier.

Definition backend_ok (b : backend) : Prop := NoDup (map (fun slot => s_chars (fst slot)) b).

Lemma replace_extension_None b identifier e : replace_extension b identifier e = None -> forall x, ~ installed b identifier x.
Proof.
  induction b as [|[i y] b IH]; intros E x (j & Hin & Hj); [by apply elem_of_nil in Hin|]. cbn [replace_extension] in E.
  unfold s_equal in E. case_bool_decide as Ei; [done|]. destruct (replace_extension b identifier e) eqn:Er; [done|].
  apply elem_of_cons in Hin as [[= -> ->]|Hin]; [done|]. apply (IH eq_refl x). by exists j.
Qed.

Lemma replace_extension_Some b identifier e b' : replace_extension b identifier e = Some b' ->
  exists i y before after, b = before ++ (i, y) :: after /\ b' = before ++ (i, e) :: after /\ s_chars i = s_chars identifier.
Proof.
  revert b'. induction b as [|[i y] b IH]; intros b' E; [done|]. cbn [replace_extension] in E. unfold s_equal in E. case_bool_decide as Ei.
  - injection E as <-. by exists i, y, [], b.
  - destruct (replace_extension b identifier e) as [b''|] eqn:Er; [|done]. injection E as <-. destruct (IH _ eq_refl) as (i' & y' & before & after & -> & -> & Hi).
    by exists i', y', ((i, y) :: before), after.
Qed.

Lemma installed_perm b b' identifier e : b ≡ₚ b' -> installed b identifier e <-> installed b' identifier e.
Proof. intros Hp. unfold installed. by setoid_rewrite Hp. Qed.

Lemma installed_cons i y b identifier e : installed ((i, y) :: b) identifier e <-> (s_chars i = s_chars identifier /\ e = y) \/ installed b identifier e.
Proof.
  unfold installed. setoid_rewrite elem_of_cons. split.
  - intros (j & [[= -> ->]|Hin] & Hj); [by left|right; by exists j].
  - intros [[Hi ->]|(j & Hin & Hj)]; [exists i|exists j]; auto.
Qed.

Lemma backend_ok_cons i y b : backend_ok ((i, y) :: b) -> forall e, ~ installed b i e.
Proof.
  unfold backend_ok. cbn [map fst]. intros [Hn _]%NoDup_cons e (j & Hin & Hj). apply Hn. rewrite <- Hj. apply list_elem_of_In, in_map_iff. exists (j, e). split; [done|by apply list_elem_of_In].
Qed.

(** C32: The table of extensions is a map from identifiers: installing an
    extension replaces what its identifier had and nothing else, removing
    drops exactly that identifier, and an identifier has at most one
    extension, for every order in which the hash table keeps its slots. *)
Theorem extensions_are_a_map b identifier compiled e : backend_ok b -> s_isEmpty identifier = false -> newContentExtension identifier compiled = Done e ->
  exists b', addContentExtension b identifier (Some compiled) = Done b' /\ backend_ok b' /\
    (forall j x, installed b' j x <-> if s_equal j identifier then x = e else installed b j x) /\
    (forall j x, installed (removeContentExtension b' identifier) j x <-> s_equal j identifier = false /\ installed b j x).
Proof.
  intros Hb Hne He. unfold addContentExtension. rewrite Hne, He. cbn [obind]. eexists. split; [done|].
  set (b' := match replace_extension b identifier e with Some _ => _ | None => _ end).
  assert (Hb' : exists i y, s_chars i = s_chars identifier /\ b' ≡ₚ (i, e) :: y /\ backend_ok ((i, e) :: y) /\
    forall j x, s_equal j identifier = false -> installed y j x <-> installed b j x).
  { unfold b'. destruct (replace_extension b identifier e) as [b1|] eqn:Er.
    - apply replace_extension_Some in Er as (i & y & before & after & -> & -> & Hi). exists i, (before ++ after). split_and!; [done|by rewrite Permutation_middle| |].
      + unfold backend_ok in *. rewrite map_app in Hb. cbn [map fst] in *. rewrite map_app. by rewrite <- Permutation_middle in Hb.
      + intros j x Hj. rewrite (installed_perm (before ++ (i, y) :: after) ((i, y) :: before ++ after)) by (by rewrite Permutation_middle). rewrite installed_cons.
        apply bool_decide_eq_false in Hj. split; [by right|]. intros [[E _]|?]; [congruence|done].
    - exists identifier, b. split_and!; [done|by rewrite hash_place_perm| |done]. unfold backend_ok. cbn [map fst]. apply NoDup_cons. split; [|done].
      intros Hin%list_elem_of_In%in_map_iff. destruct Hin as ([j x] & Ej & Hin). apply (replace_extension_None _ _ _ Er x). exists j. split; [by apply list_elem_of_In|done]. }
  clearbody b'. destruct Hb' as (i & y & Hi & Hp & Hok & Hold).
  assert (Hinst : forall j x, installed b' j x <-> if s_equal j identifier then x = e else installed b j x).
  { intros j x. rewrite (installed_perm _ _ _ _ Hp), installed_cons. destruct (s_equal j identifier) eqn:Ej.
    - apply bool_decide_eq_true in Ej. split; [|intros ->; left; split; congruence]. intros [[_ ?]|Hin]; [done|]. exfalso. apply (backend_ok_cons i e y Hok x).
      destruct Hin as (k & Hin & Hk). exists k. split; [done|congruence].
    - rewrite Hold by done. split; [|by right]. intros [[E _]|?]; [|done]. apply bool_decide_eq_false in Ej. congruence. }
  split_and!; [unfold backend_ok in *; by rewrite Hp|done|]. intros j x. unfold removeContentExtension. rewrite (installed_perm _ _ _ _ (hash_rehash_perm _)).
  assert (Hf : installed (List.filter (fun slot => negb (s_equal (fst slot) identifier)) b') j x <-> s_equal j identifier = false /\ installed b' j x).
  { unfold installed. setoid_rewrite list_elem_of_In. setoid_rewrite List.filter_In. cbn [fst]. unfold s_equal. split.
    - intros (k & [Hin Hk%negb_true_iff] & Ek). rewrite <- Ek. split; [done|]. by exists k.
    - intros [Ej (k & Hin & Ek)]. exists k. rewrite Ek, Ej. done. }
  rewrite Hf, Hinst. destruct (s_equal j identifier); intuition congruence.
Qed.
End Cache.

(** ** Witnesses *)

(** A platform whose URLs are a text and a host. *)
#[local] Instance sample_platform : Platform := {
  URL := WTFString * option WTFString;
  url_string := fst;
  protocolIsData _ := false;
  url_host := snd;
  protocolIsHTTP _ := false;
  hasPort _ := false;
  hasDefaultPort _ := false;
  withProtocolHTTPS u := u;
  withDefaultHTTPSPort u := u;
  isThirdParty _ _ := false;
  utf8 l := l;
  parseStyleSheet _ := true
}.

Definition sample_url : @URL sample_platform := (s_literal "a", None).
Definition sample_document : @URL sample_platform := (s_literal "c", Some (s_literal "c")).

(** One automaton that performs the action on the word [w]. *)
Definition word_dfa (c : Z) (a : Z) : DFA := mkDFA [mkDFANode 0 0 0 1 0; mkDFANode 0 1 1 0 0] [a] [mkCharRange c c] [1] 0.
Definition universal_dfa (a : Z) : DFA := mkDFA [mkDFANode 0 0 1 0 0] [a] [] [] 0.

Definition bytecode_of (d : DFA) : list Z := match compile d [] with Done b => b | _ => [] end.

(** [a] blocks; every load on a page that is not on [b] sends no cookies. *)
Definition sample_compiled : CompiledContentExtension :=
  mkCompiled (bytecode_of (word_dfa 97 0)) (bytecode_of (universal_dfa 1)) (bytecode_of (word_dfa 98 1)) [0; 1].

Definition sample_extension : ContentExtension :=
  mkContentExtension (s_literal "id") sample_compiled None None [] [] [] [1].

Lemma sample_extension_new : newContentExtension (s_literal "id") sample_compiled = Done sample_extension.
Proof. vm_compute. reflexivity. Qed.

Lemma ignore_previous_rules_exact_witness : exists bytes locations, serializeActions sample_rules = Done (bytes, locations) /\
  exists found saw, actions_in_reverse bytes (s_literal "id") (reverse (merge_sort Z.le [1; 17; 18])) = Done (found, saw) /\ saw = true /\ in_effect sample_rules [2; 3; 4] 4.
Proof.
  destruct (serializeActions sample_rules) as [[bytes locations]| |] eqn:E; [|vm_compute in E; discriminate..]. exists bytes, locations. split; [reflexivity|].
  pose proof E as E'. vm_compute in E'. injection E' as <- <-.
  destruct (ignore_previous_rules_exact sample_rules _ _ [2; 3; 4] [1; 17; 18] (s_literal "id") sample_rules_ok E) as (found & saw & Ef & Hin & Hs).
  - vm_compute. reflexivity.
  - repeat constructor.
  - exists found, saw. split; [exact Ef|]. split.
    + apply Hs. exists 3. eexists. split; [do 2 constructor|]. split; reflexivity.
    + apply (Hin 4 18); [do 3 constructor|reflexivity|]. eexists _, _. split; [reflexivity|]. vm_compute in Ef. injection Ef as <- <-. split; [left|]. split; reflexivity.
Defined.

Lemma domain_cache_coherent_witness : exists e1 e2, cachedDomainActions sample_extension (Some (s_literal "b")) = Done (e1, [1]) /\
  universalActionsWithDomains e1 (Some (s_literal "b")) = Done (e2, []) /\ cache_ok e1 /\ cache_ok e2.
Proof.
  destruct (domain_cache_coherent sample_extension (s_literal "b") [1]) as (e1 & e2 & H1 & H2 & H3 & H4); [exact I|vm_compute; reflexivity|].
  exists e1, e2. split; [exact H1|]. split; [|split; [exact H3|exact H4]]. rewrite H2. vm_compute. reflexivity.
Defined.

Lemma extensions_are_a_map_witness : exists b', addContentExtension [] (s_literal "id") (Some sample_compiled) = Done b' /\ installed b' (s_literal "id") sample_extension.
Proof.
  destruct (extensions_are_a_map [] (s_literal "id") sample_compiled sample_extension) as (b' & E & _ & Hi & _);
    [constructor|reflexivity|exact sample_extension_new|]. exists b'. split; [exact E|]. apply Hi. vm_compute. reflexivity.
Defined.

(** A null host escapes the cache: the cached domain is null when an
    extension is created, so a first load without a main document finds the
    cache filled and skips the universal actions with an unless-domain
    condition, which the same load performs once another domain has been
    seen. *)
Theorem null_domain_skips_universal_actions :
  universalActionsWithDomains sample_extension None = Done (sample_extension, []) /\
  (let* (e1, _) := universalActionsWithDomains sample_extension (Some (s_literal "c")) in
   let* (_, actions) := universalActionsWithDomains e1 None in Done actions) = Done [1].
Proof. split; vm_compute; reflexivity. Qed.

(** ** Creating an extension

    Walking the serialized actions to the first [ignore-previous-rules], and
    moving the selectors that hold everywhere to the global style sheet.  Only
    selectors are moved; every other universal action stays. *)

(** ** Walking the actions *)

Lemma type_byte pre t s post : vget (pre ++ encode t s ++ post) (vsize pre) = Done (action_type_code t).
Proof. unfold encode. case_bool_decide as E; [subst t|]; by apply vget_mid. Qed.

Lemma deserializeType_at bytes l t s : action_at bytes l t s -> serializable t = true -> deserializeType bytes l = Done t.
Proof.
  intros Hat Ht. pose proof (action_at_bound _ _ _ _ Hat) as Hl. destruct Hat as (pre & post & -> & ->). unfold deserializeType.
  destruct (Z.ltb_spec (vsize pre) (vsize (pre ++ encode t s ++ post))); [|lia]. cbn [release_assert obind]. rewrite type_byte. cbn [obind]. rewrite action_type_of_code_code. by destruct t.
Qed.

Lemma serializedLength_at bytes l t s : action_at bytes l t s -> serializable t = true -> vsize bytes < 2 ^ 32 -> serializedLength bytes l = Done (vsize (encode t s)).
Proof.
  intros Hat Ht Hb. pose proof (action_at_bound _ _ _ _ Hat) as Hl. destruct Hat as (pre & post & -> & ->). unfold serializedLength.
  destruct (Z.ltb_spec (vsize pre) (vsize (pre ++ encode t s ++ post))); [|lia]. cbn [release_assert obind]. rewrite type_byte. cbn [obind]. rewrite action_type_of_code_code.
  destruct t; try done. pose proof (selector_size pre post s) as Hsz. pose proof (vsize_nonneg pre). pose proof (vsize_nonneg post).
  pose proof (vsize_nonneg (if s_is8Bit s then s_chars s else concat (map (le_bytes 2) (s_chars s)))) as Hbody. unfold headerLength in *. rewrite u32_small by lia.
  match goal with |- context [?a <=? ?b] => destruct (Z.leb_spec a b); [|lia] end. cbn [release_assert obind]. rewrite selector_length, selector_width by done. cbn [obind].
  assert (He : vsize (encode CSSDisplayNoneSelector s) = 1 + 4 + 1 + s_length s * (if s_is8Bit s then 1 else 2)).
  { rewrite !vsize_app in Hsz. unfold s_length in *. destruct (s_is8Bit s); rewrite ?length_wide in Hsz; lia. }
  f_equal. rewrite He. rewrite !vsize_app in Hsz, Hb. unfold s_length in *. destruct (s_is8Bit s); cbn [negb Z.eqb]; apply u32_small; rewrite ?length_wide in Hsz; pose proof (vsize_nonneg (s_chars s)); lia.
Qed.

Lemma find_ignore_items items : forall pre bytes fuel, Forall (fun '(t, s) => serializable t = true /\ width_ok s) items ->
  bytes = pre ++ concat (map (fun '(t, s) => encode t s) items) -> vsize bytes < 2 ^ 32 -> (length items <= fuel)%nat ->
  exists z, find_ignore_loop fuel bytes (vsize pre) = Done z.
Proof.
  induction items as [|[t s] items IH]; intros pre bytes fuel Hi -> Hb Hf.
  { cbn [map concat]. rewrite app_nil_r. destruct fuel; cbn [find_ignore_loop]; (destruct (Z.ltb_spec (vsize pre) (vsize pre)); [lia|by eexists]). }
  apply Forall_cons in Hi as [[Ht Hw] Hi]. cbn [map concat] in *. set (rest := concat _) in *.
  assert (Hat : action_at (pre ++ encode t s ++ rest) (vsize pre) t s) by (by exists pre, rest). pose proof (action_at_bound _ _ _ _ Hat) as Hbd.
  destruct fuel as [|fuel]; [cbn in Hf; lia|]. cbn [find_ignore_loop]. destruct (Z.ltb_spec (vsize pre) (vsize (pre ++ encode t s ++ rest))); [|lia].
  rewrite (deserializeType_at _ _ _ _ Hat Ht). cbn [obind]. case_bool_decide; [by eexists|]. rewrite (serializedLength_at _ _ _ _ Hat Ht Hb). cbn [obind].
  rewrite u32_small, <- vsize_app by (rewrite !vsize_app in Hb; pose proof (vsize_nonneg pre); pose proof (vsize_nonneg rest); pose proof (encode_length t s); lia).
  rewrite app_assoc. apply IH; [done|done|by rewrite <- app_assoc|cbn in Hf; lia].
Qed.

Lemma findFirst_returns bytes : encoded bytes -> vsize bytes < 2 ^ 32 -> exists z, findFirstIgnorePreviousRules bytes = Done z.
Proof.
  intros (items & Hi & E) Hb. unfold findFirstIgnorePreviousRules. change 0 with (vsize (@nil Z)). apply (find_ignore_items items); [done|done|done|].
  rewrite E. clear. induction items as [|[t s] items IH]; [done|]. cbn [map concat length]. rewrite length_app. pose proof (encode_length t s). unfold vsize in *. lia.
Qed.

(** ** The style sheet *)

Section Sheet.
Context `{HashOrder} `{Platform}.
Variables (bytes : list Z) (universal : list Z).
Hypothesis Hencoded : encoded bytes.
Hypothesis Hsize : vsize bytes < 2 ^ 32.
Hypothesis Hread : forall l, l ∈ universal -> exists t s, action_at bytes l t s /\ serializable t = true /\ width_ok s.

Lemma inGlobal_spec first l : l ∈ universal -> exists b, inGlobalDisplayNoneStyleSheet bytes first l = Done b /\ (b = true -> deserializeType bytes l = Done CSSDisplayNoneSelector).
Proof.
  intros Hl. destruct (Hread l Hl) as (t & s & Hat & Ht & _). unfold inGlobalDisplayNoneStyleSheet. destruct (l <? first); [|by exists false]. rewrite (deserializeType_at _ _ _ _ Hat Ht). cbn [obind].
  eexists. split; [done|]. intros Hb. apply bool_decide_eq_true in Hb. by rewrite Hb.
Qed.

Lemma append_global first : forall ls css, (forall l, l ∈ ls -> l ∈ universal) -> exists css', ofold (append_global_selector bytes first) css ls = Done css'.
Proof.
  induction ls as [|l ls IH]; intros css Hin; [by eexists|]. cbn [ofold]. unfold append_global_selector at 1. destruct (inGlobal_spec first l) as (b & -> & _); [apply Hin; left|]. cbn [obind].
  destruct (Hread l) as (t & s & Hat & Ht & Hw); [apply Hin; left|]. rewrite (deserialize_at _ _ _ _ Hat Ht Hsize Hw). cbn [obind]. destruct b; apply IH; intros x Hx; apply Hin; by right.
Qed.

Lemma remove_global_spec first : forall ls, (forall l, l ∈ ls -> l ∈ universal) -> exists rest, remove_global bytes first ls = Done rest /\
  (forall l, l ∈ rest -> l ∈ ls) /\ forall l, l ∈ ls -> l ∈ rest \/ deserializeType bytes l = Done CSSDisplayNoneSelector.
Proof.
  induction ls as [|l ls IH]; intros Hin; [exists []; split; [done|]; split; [done|]; by intros l ?%elem_of_nil|]. cbn [remove_global].
  destruct (inGlobal_spec first l) as (b & -> & Hb); [apply Hin; left|]. cbn [obind]. destruct IH as (rest & -> & H1 & H2); [intros x Hx; apply Hin; by right|]. cbn [obind].
  eexists. split; [done|]. destruct b.
  - split; [intros x Hx; right; auto|]. intros x [->|Hx]%elem_of_cons; auto.
  - split; [intros x [->|Hx]%elem_of_cons; [left|right; auto]|]. intros x [->|Hx]%elem_of_cons; [left; left|]. destruct (H2 x Hx); [left; by right|by right].
Qed.

Lemma compileGlobal_spec : exists sheet rest, compileGlobalDisplayNoneStyleSheet bytes universal = Done (sheet, rest) /\
  (forall l, l ∈ rest -> l ∈ universal) /\ forall l, l ∈ universal -> l ∈ rest \/ deserializeType bytes l = Done CSSDisplayNoneSelector.
Proof.
  unfold compileGlobalDisplayNoneStyleSheet. destruct (findFirst_returns bytes Hencoded Hsize) as (first & ->). cbn [obind]. destruct (append_global first universal emptyString) as (css & ->); [done|]. cbn [obind].
  destruct (s_isEmpty css); [eexists _, _; split; [done|]; auto|]. destruct (remove_global_spec first universal) as (rest & -> & H1 & H2); [done|]. cbn [obind]. eexists _, _. split; [done|]. done.
Qed.
End Sheet.
