(* ===== verification/FileNames.v ===== *)
(** * Names of the files of the store (WebCore/platform/FileSystem.cpp,
    posix/FileSystemPOSIX.cpp, WTF/wtf/HexNumber.h)

    An identifier is escaped to a file name, which is put in the directory of
    the store.  Escaping can be undone, so that different identifiers have
    different files, and leaves neither a separator nor half of a surrogate pair
    in the name.  A name is its list of UTF-16 code units. *)

From stdpp Require Import strings.
From S2P Require Import Prelude Containers Strings.

(** The table of the code, a row for eight characters; [1] is [true]. *)
Definition needsEscaping : list bool := Eval vm_compute in flat_map (fun row => map (fun c => c =? 49) (literal row)) [
   (* 00-07 *) "11111111"; (* 08-0F *) "11111111";
   (* 10-17 *) "11111111"; (* 18-1F *) "11111111";
   (* 20-27 *) "10100100"; (* 28-2F *) "00100001";
   (* 30-37 *) "00000000"; (* 38-3F *) "00101011";
   (* 40-47 *) "00000000"; (* 48-4F *) "00000000";
   (* 50-57 *) "00000000"; (* 58-5F *) "00001000";
   (* 60-67 *) "00000000"; (* 68-6F *) "00000000";
   (* 70-77 *) "00000000"; (* 78-7F *) "00001001"
]%string.

(** [U16_IS_LEAD], [U16_IS_TRAIL] of ICU. *)
Definition U16_IS_LEAD (c : Z) : bool := Z.land c 0xfffffc00 =? 0xd800.
Definition U16_IS_TRAIL (c : Z) : bool := Z.land c 0xfffffc00 =? 0xdc00.

Definition shouldEscapeUChar (character previousCharacter nextCharacter : Z) : bool :=
  if character <=? 127 then nth (Z.to_nat character) needsEscaping false
  else if U16_IS_LEAD character && negb (U16_IS_TRAIL nextCharacter) then true
  else if U16_IS_TRAIL character && negb (U16_IS_LEAD previousCharacter) then true
  else false.

(** [upperHexDigits]. *)
Definition hexDigit (n : Z) : Z := nth (Z.to_nat n) (literal "0123456789ABCDEF") 0.

Definition appendByteAsHex (byte : Z) (destination : list Z) : list Z :=
  destination ++ [hexDigit (Z.shiftr (u8 byte) 4); hexDigit (Z.land (u8 byte) 0xf)].

(** The body of the loop: [previousCharacter] has been read before [character]. *)
Fixpoint encode_loop (previousCharacter : Z) (characters : list Z) (result : list Z) : list Z :=
  match characters with
  | [] => result
  | character :: rest =>
      let nextCharacter := hd 0 rest in
      let result' :=
        if shouldEscapeUChar character previousCharacter nextCharacter then
          if character <=? 255 then appendByteAsHex character (result ++ literal "%")
          else appendByteAsHex character (appendByteAsHex (Z.shiftr character 8) (result ++ literal "%+"))
        else result ++ [character] in
      encode_loop character rest result'
  end.

Definition encodeForFileName (inputString : list Z) : list Z := encode_loop 0 inputString [].

(** [pathByAppendingComponent] of posix/FileSystemPOSIX.cpp. *)
Definition pathByAppendingComponent (path component : list Z) : list Z :=
  if bool_decide (last path = Some 47) then path ++ component else path ++ literal "/" ++ component.

(** [constructedPath] of APIUserContentExtensionStore.cpp. *)
Definition constructedPath (base identifier : list Z) : list Z :=
  pathByAppendingComponent base (literal "ContentExtension-" ++ encodeForFileName identifier).

(** ** Undoing the escapes *)

Definition utf16 (s : list Z) : Prop := Forall (fun c => 0 <= c < 65536) s.

Definition hexValue (c : Z) : Z := if c <=? 57 then c - 48 else c - 55.

Fixpoint decode_name (fuel : nat) (s : list Z) : list Z :=
  match fuel with
  | O => []
  | S fuel' =>
      match s with
      | [] => []
      | c :: rest =>
          if c =? 37 then
            match rest with
            | a :: b :: rest' =>
                if a =? 43 then
                  match rest' with
                  | d :: e :: f :: rest'' => (hexValue b * 4096 + hexValue d * 256 + hexValue e * 16 + hexValue f) :: decode_name fuel' rest''
                  | _ => []
                  end
                else (hexValue a * 16 + hexValue b) :: decode_name fuel' rest'
            | _ => []
            end
          else c :: decode_name fuel' rest
      end
  end.

(** The reader the escapes are meant for. *)
Definition decodeFileName (name : list Z) : list Z := decode_name (length name) name.

(** ** The escapes of one character *)

Definition escape (character previousCharacter nextCharacter : Z) : list Z :=
  if shouldEscapeUChar character previousCharacter nextCharacter then
    if character <=? 255 then appendByteAsHex character (literal "%")
    else appendByteAsHex character (appendByteAsHex (Z.shiftr character 8) (literal "%+"))
  else [character].

Fixpoint encode_from (p : Z) (s : list Z) : list Z :=
  match s with [] => [] | c :: rest => escape c p (hd 0 rest) ++ encode_from c rest end.

Lemma encode_loop_from s : forall p r, encode_loop p s r = r ++ encode_from p s.
Proof.
  induction s as [|c s IH]; intros p r; cbn [encode_loop encode_from]; [by rewrite app_nil_r|]. rewrite IH. unfold escape, appendByteAsHex.
  destruct (shouldEscapeUChar c p (hd 0 s)); [destruct (c <=? 255)|]; by rewrite ?app_assoc.
Qed.

Lemma hexDigit_spec n : 0 <= n < 16 -> hexValue (hexDigit n) = n /\ hexDigit n <> 43 /\ 0 <= hexDigit n < 128 /\ nth (Z.to_nat (hexDigit n)) needsEscaping false = false.
Proof.
  intros Hn. assert (Hd : n ∈ seqZ 0 16) by (apply elem_of_seqZ; lia). clear Hn. revert n Hd. apply Forall_forall. vm_compute. repeat (constructor; [split_and!; done|]). constructor.
Qed.

Lemma high_nibble c : 0 <= Z.shiftr (u8 c) 4 < 16.
Proof. rewrite Z.shiftr_div_pow2 by lia. pose proof (u8_range c). change (2 ^ 4) with 16. split; [apply Z.div_pos; lia|apply Z.div_lt_upper_bound; lia]. Qed.

Lemma low_nibble c : 0 <= Z.land (u8 c) 15 < 16.
Proof. change 15 with (Z.ones 4). rewrite Z.land_ones by lia. apply Z.mod_pos_bound. lia. Qed.

Lemma nibbles c : Z.shiftr (u8 c) 4 * 16 + Z.land (u8 c) 15 = u8 c.
Proof. rewrite Z.shiftr_div_pow2 by lia. change 15 with (Z.ones 4). rewrite Z.land_ones by lia. change (2 ^ 4) with 16. pose proof (Z.div_mod (u8 c) 16). lia. Qed.

Lemma two_bytes c : 0 <= c < 65536 -> u8 (Z.shiftr c 8) * 256 + u8 c = c.
Proof.
  intros Hc. rewrite Z.shiftr_div_pow2 by lia. unfold u8. change (2 ^ 8) with 256. rewrite (Z.mod_small (c / 256)); [pose proof (Z.div_mod c 256); lia|].
  split; [apply Z.div_pos; lia|apply Z.div_lt_upper_bound; lia].
Qed.

(** Reading back what one character became. *)
Lemma decode_escape fuel c p n rest : 0 <= c < 65536 -> decode_name (S fuel) (escape c p n ++ rest) = c :: decode_name fuel rest.
Proof.
  intros Hc. unfold escape, appendByteAsHex. destruct (shouldEscapeUChar c p n) eqn:E.
  - destruct (Z.leb_spec c 255).
    + destruct (hexDigit_spec _ (high_nibble c)) as (Hv1 & Hne & _). destruct (hexDigit_spec _ (low_nibble c)) as (Hv2 & _).
      cbn [literal app decode_name]. change (Z.of_nat _ =? 37) with true. cbn iota. apply Z.eqb_neq in Hne as ->. f_equal.
      rewrite Hv1, Hv2, nibbles. apply u8_small. lia.
    + destruct (hexDigit_spec _ (high_nibble (Z.shiftr c 8))) as (Hv1 & _). destruct (hexDigit_spec _ (low_nibble (Z.shiftr c 8))) as (Hv2 & _).
      destruct (hexDigit_spec _ (high_nibble c)) as (Hv3 & _). destruct (hexDigit_spec _ (low_nibble c)) as (Hv4 & _).
      cbn [literal app decode_name]. change (Z.of_nat _ =? 37) with true. change (Z.of_nat _ =? 43) with true. cbn iota. f_equal.
      rewrite Hv1, Hv2, Hv3, Hv4. pose proof (nibbles (Z.shiftr c 8)). pose proof (nibbles c). pose proof (two_bytes c Hc). lia.
  - cbn [app decode_name]. destruct (Z.eqb_spec c 37) as [->|Hne]; [by vm_compute in E|done].
Qed.

Lemma escape_nonempty c p n : (0 < length (escape c p n))%nat.
Proof. unfold escape, appendByteAsHex. repeat case_match; rewrite ?length_app; simpl; lia. Qed.

Lemma decode_encode s : forall p fuel, utf16 s -> (length (encode_from p s) <= fuel)%nat -> decode_name fuel (encode_from p s) = s.
Proof.
  induction s as [|c s IH]; intros p fuel Hs Hf; [by destruct fuel|]. apply Forall_cons in Hs as [Hc Hs]. cbn [encode_from] in *. rewrite length_app in Hf.
  pose proof (escape_nonempty c p (hd 0 s)). destruct fuel as [|fuel]; [lia|]. rewrite decode_escape by done. f_equal. apply IH; [done|lia].
Qed.

(** ** Well-formed names *)

(** Every surrogate is half of a pair. *)
Fixpoint well_formed (s : list Z) : bool :=
  match s with
  | [] => true
  | c :: rest =>
      if U16_IS_LEAD c then match rest with d :: rest' => U16_IS_TRAIL d && well_formed rest' | [] => false end
      else negb (U16_IS_TRAIL c) && well_formed rest
  end.

(** The characters that some file system refuses in a name, or that separate
    names: the control characters, DEL, the space, and these nine. *)
Definition refused (c : Z) : Prop := 0 <= c <= 0x20 \/ c = 0x7f \/ c ∈ literal "\/:*?<>|" ++ [0x22].

Definition plain (s : list Z) : Prop := Forall (fun c => ~ refused c) s.

Definition refusedb (c : Z) : bool := (c <=? 0x20) || (c =? 0x7f) || bool_decide (c ∈ literal "\/:*?<>|" ++ [0x22]).

Lemma refusedb_spec c : 0 <= c -> refusedb c = false -> ~ refused c.
Proof. unfold refusedb, refused. rewrite !orb_false_iff, bool_decide_eq_false. intros Hc [[H1 H2] H3] [H4|[H4|H4]]; [lia..|done]. Qed.

(** What the table leaves alone is not refused. *)
Lemma unescaped_plain c : 0 <= c <= 127 -> nth (Z.to_nat c) needsEscaping false = false -> ~ refused c.
Proof.
  intros Hc He. apply refusedb_spec; [lia|]. assert (Hb : nth (Z.to_nat c) needsEscaping false || negb (refusedb c) = true).
  { apply (forall_ascii (fun c => nth (Z.to_nat c) needsEscaping false || negb (refusedb c))); [by vm_compute|lia]. }
  rewrite He in Hb. by apply negb_true_iff in Hb.
Qed.

(** Nor is the percent sign, which starts the escapes. *)
Lemma percent_plain : ~ refused 37.
Proof. by apply refusedb_spec. Qed.

Lemma wide_plain c : 127 < c -> ~ refused c.
Proof. intros Hc [?|[?|Hin]]; [lia..|]. cbn [literal app] in Hin. rewrite !elem_of_cons, elem_of_nil in Hin. vm_compute (Z.of_nat _) in Hin. lia. Qed.

Lemma not_both c : U16_IS_LEAD c = true -> U16_IS_TRAIL c = false.
Proof. unfold U16_IS_LEAD, U16_IS_TRAIL. intros ->%Z.eqb_eq. done. Qed.

Lemma ascii_no_surrogate c : 0 <= c < 128 -> U16_IS_LEAD c = false /\ U16_IS_TRAIL c = false.
Proof.
  intros Hc. assert (Hb : U16_IS_LEAD c || U16_IS_TRAIL c = false); [|by apply orb_false_iff in Hb].
  apply negb_true_iff. revert c Hc. apply (forall_ascii (fun c => negb (U16_IS_LEAD c || U16_IS_TRAIL c))). by vm_compute.
Qed.

Lemma well_formed_ascii l rest : Forall (fun c => 0 <= c < 128) l -> well_formed (l ++ rest) = well_formed rest.
Proof. induction 1 as [|c l Hc _ IH]; [done|]. cbn [app well_formed]. by destruct (ascii_no_surrogate c Hc) as [-> ->]. Qed.

Lemma hexDigit_plain n : 0 <= n < 16 -> 0 <= hexDigit n < 128 /\ ~ refused (hexDigit n).
Proof. intros Hn. destruct (hexDigit_spec n Hn) as (_ & _ & H1 & H2). split; [done|]. apply unescaped_plain; [lia|done]. Qed.

(** An escape has no surrogates and only plain characters. *)
Lemma escape_ascii c p n : shouldEscapeUChar c p n = true -> Forall (fun x => 0 <= x < 128) (escape c p n) /\ plain (escape c p n).
Proof.
  intros E. unfold escape. rewrite E. unfold appendByteAsHex, plain. rewrite <- Forall_and.
  pose proof (hexDigit_plain _ (high_nibble c)). pose proof (hexDigit_plain _ (low_nibble c)).
  pose proof (hexDigit_plain _ (high_nibble (Z.shiftr c 8))). pose proof (hexDigit_plain _ (low_nibble (Z.shiftr c 8))).
  assert (0 <= 37 < 128 /\ ~ refused 37) by (split; [lia|by apply percent_plain]).
  assert (0 <= 43 < 128 /\ ~ refused 43) by (split; [lia|by apply unescaped_plain; [lia|vm_compute]]).
  destruct (c <=? 255); cbn [literal app]; repeat (apply Forall_cons; split; [assumption|]); apply Forall_nil_2.
Qed.

Lemma escaped_half c p n : 0 <= c -> shouldEscapeUChar c p n = true -> U16_IS_LEAD c && U16_IS_TRAIL n = false.
Proof.
  intros Hc. unfold shouldEscapeUChar. destruct (Z.leb_spec c 127); [by destruct (ascii_no_surrogate c) as [-> _]; [lia|]|].
  destruct (U16_IS_LEAD c) eqn:El; [|done]. rewrite (not_both c El). by destruct (U16_IS_TRAIL n).
Qed.

Lemma kept_half c p n : 0 <= c -> shouldEscapeUChar c p n = false ->
  (U16_IS_LEAD c = true -> U16_IS_TRAIL n = true) /\ (U16_IS_TRAIL c = true -> U16_IS_LEAD p = true) /\ (c <= 127 -> nth (Z.to_nat c) needsEscaping false = false).
Proof.
  intros Hc. unfold shouldEscapeUChar. destruct (Z.leb_spec c 127) as [Hle|Hle]; [destruct (ascii_no_surrogate c) as [-> ->]; [lia|done]|].
  destruct (U16_IS_LEAD c), (U16_IS_TRAIL n), (U16_IS_TRAIL c), (U16_IS_LEAD p); simpl; (done || (intros; split_and!; (done || lia))).
Qed.

(** A pair that is read stays a pair. *)
Lemma kept_pair c p n : 127 < c -> U16_IS_LEAD p = true -> U16_IS_TRAIL c = true -> escape c p n = [c].
Proof.
  intros Hc Hp Ht. unfold escape, shouldEscapeUChar. destruct (Z.leb_spec c 127); [lia|]. rewrite Ht, Hp.
  destruct (U16_IS_LEAD c) eqn:E; [by rewrite (not_both c E) in Ht|done].
Qed.

Lemma encode_well_formed s : forall p, utf16 s ->
  if U16_IS_LEAD p && U16_IS_TRAIL (hd 0 s)
  then exists t r, s = t :: r /\ U16_IS_TRAIL t = true /\ encode_from p s = t :: encode_from t r /\ well_formed (encode_from t r) = true
  else well_formed (encode_from p s) = true.
Proof.
  induction s as [|c s IH]; intros p Hs; [cbn [hd]; change (U16_IS_TRAIL 0) with false; by rewrite andb_false_r|].
  apply Forall_cons in Hs as [Hc Hs]. specialize (IH c Hs). cbn [hd encode_from]. destruct (U16_IS_LEAD p && U16_IS_TRAIL c) eqn:Ep.
  - apply andb_true_iff in Ep as [Hp Ht]. assert (127 < c). { destruct (decide (c < 128)); [destruct (ascii_no_surrogate c) as [_ Hf]; [lia|congruence]|lia]. }
    rewrite kept_pair by done. assert (El : U16_IS_LEAD c = false) by (destruct (U16_IS_LEAD c) eqn:E; [rewrite (not_both c E) in Ht|]; done).
    rewrite El in IH. eexists c, s. by split_and!.
  - destruct (shouldEscapeUChar c p (hd 0 s)) eqn:Ee.
    + rewrite well_formed_ascii by (by apply escape_ascii). rewrite (escaped_half c p (hd 0 s)) in IH; [done|lia|done].
    + destruct (kept_half c p (hd 0 s)) as (H1 & H2 & _); [lia|done|]. unfold escape. rewrite Ee. cbn [app well_formed]. destruct (U16_IS_LEAD c) eqn:El.
      * rewrite H1 in IH by done. cbn [andb] in IH. destruct IH as (t & r & -> & Ht & -> & Hw). by rewrite Ht, Hw.
      * cbn [andb] in IH. rewrite IH. destruct (U16_IS_TRAIL c); [|done]. by rewrite H2 in Ep.
Qed.

Lemma encode_name_plain s : forall p, utf16 s -> plain (encode_from p s).
Proof.
  induction s as [|c s IH]; intros p Hs; [constructor|]. apply Forall_cons in Hs as [Hc Hs]. cbn [encode_from]. apply Forall_app. split; [|by apply IH].
  destruct (shouldEscapeUChar c p (hd 0 s)) eqn:Ee; [by apply escape_ascii|]. unfold escape. rewrite Ee. destruct (kept_half c p (hd 0 s)) as (_ & _ & H3); [lia|done|].
  constructor; [|constructor]. destruct (Z.leb_spec c 127); [apply unescaped_plain; auto with lia|by apply wide_plain].
Qed.

Lemma encode_decodes s : utf16 s -> decodeFileName (encodeForFileName s) = s.
Proof. intros Hs. unfold decodeFileName, encodeForFileName. rewrite encode_loop_from. by apply decode_encode. Qed.

(** Different identifiers have different files. *)
Lemma constructedPath_inj base a b : utf16 a -> utf16 b -> constructedPath base a = constructedPath base b -> a = b.
Proof.
  intros Ha Hb. unfold constructedPath, pathByAppendingComponent. intros E.
  assert (Hn : encodeForFileName a = encodeForFileName b) by (destruct (bool_decide _); by simplify_list_eq).
  rewrite <- (encode_decodes a Ha), <- (encode_decodes b Hb). by f_equal.
Qed.

(** Every ASCII character that is neither refused nor a percent sign is kept. *)
Lemma escaped_refused c : 0 <= c <= 127 -> ~ refused c -> c <> 37 -> nth (Z.to_nat c) needsEscaping false = false.
Proof.
  intros Hc Hr Hp. assert (Hb : negb (nth (Z.to_nat c) needsEscaping false) || (c =? 37) || refusedb c = true).
  { apply (forall_ascii (fun c => negb (nth (Z.to_nat c) needsEscaping false) || (c =? 37) || refusedb c)); [by vm_compute|lia]. }
  destruct (nth (Z.to_nat c) needsEscaping false); [|done]. apply Z.eqb_neq in Hp. rewrite Hp in Hb. destruct Hr. cbn [negb orb] in Hb.
  unfold refusedb in Hb. rewrite !orb_true_iff, bool_decide_eq_true in Hb. unfold refused. destruct Hb as [[?|?]|?]; [left; lia|right; left; lia|auto].
Qed.

Lemma encode_plain_name s : forall p, Forall (fun c => 0 <= c <= 127 /\ c <> 37) s -> plain s -> encode_from p s = s.
Proof.
  induction s as [|c s IH]; intros p Hs Hp; [done|]. apply Forall_cons in Hs as [[Hc H37] Hs]. apply Forall_cons in Hp as [Hr Hp]. cbn [encode_from].
  rewrite IH by done. unfold escape, shouldEscapeUChar. destruct (Z.leb_spec c 127); [|lia]. by rewrite escaped_refused.
Qed.

(** C25: Escaping an identifier (UTF-16 code units) for a file name can be
    undone.  The name has no separator or other character that a file system
    refuses (control characters, space, DEL, backslash, slash, colon, star,
    question mark, angle brackets, bar, double quote), and no surrogate that is
    not part of a pair.  An ASCII identifier with none of these and no percent
    sign is its own file name. *)
Theorem encodeForFileName_roundtrip identifier : utf16 identifier ->
  decodeFileName (encodeForFileName identifier) = identifier /\ plain (encodeForFileName identifier) /\ well_formed (encodeForFileName identifier) = true /\
  (Forall (fun c => c <= 127 /\ c <> 37) identifier -> plain identifier -> encodeForFileName identifier = identifier).
Proof.
  intros Hs. split; [by apply encode_decodes|]. unfold encodeForFileName. rewrite encode_loop_from. cbn [app]. split; [by apply encode_name_plain|]. split.
  - pose proof (encode_well_formed identifier 0 Hs) as Hw. change (U16_IS_LEAD 0) with false in Hw. exact Hw.
  - intros Ha Hp. apply encode_plain_name; [|done]. unfold utf16 in Hs. rewrite !Forall_forall in *. intros c Hc. split; [|by apply Ha]. split; [by apply Hs|by apply Ha].
Qed.

(** A path, a percent sign, a lone and a paired surrogate. *)
Lemma encodeForFileName_roundtrip_witness :
  encodeForFileName (literal "a/b%" ++ [0xd800; 0x20; 0xd800; 0xdc00]) = literal "a%2Fb%25%+D800%20" ++ [0xd800; 0xdc00] /\
  decodeFileName (encodeForFileName (literal "a/b%" ++ [0xd800; 0x20; 0xd800; 0xdc00])) = literal "a/b%" ++ [0xd800; 0x20; 0xd800; 0xdc00].
Proof.
  split; [vm_compute; reflexivity|]. apply (encodeForFileName_roundtrip (literal "a/b%" ++ [0xd800; 0x20; 0xd800; 0xdc00])).
  repeat (constructor; [split; [discriminate|reflexivity]|]). constructor.
Defined.
