(* ===== verification/PosixFiles.v ===== *)
(** * Files (WebCore/platform/posix/FileSystemPOSIX.cpp,
    WebKit2/NetworkProcess/cache/NetworkCacheData.cpp, NetworkCacheDataSoup.cpp)

    Code that calls the operating system is a tree of calls and answers.  What
    the operating system does is a parameter; [posix] is what its calls are
    documented to do.  Every call may fail, and a write may be short. *)

From stdpp Require Import gmap strings.
From S2P Require Import Prelude Containers Strings.

(** ** System calls *)

Inductive write_answer := Written (n : Z) | Interrupted | WriteError.

(** A mapping refers to the file, not to its name. *)
Record mapping := mkMapping { map_inode : Z; map_size : Z }.

(** [ReadMap] stands for the loads from mapped memory; [MoveFile] is
    [WebCore::moveFile]. *)
Inductive syscall :=
| Mkstemp (template : list Z)
| Write (fd : Z) (data : list Z)
| Lseek (fd offset : Z)
| Close (fd : Z)
| Open (path : list Z)
| Fstat (fd : Z)
| Mmap (fd size : Z)
| ReadMap (m : mapping)
| Unlink (path : list Z)
| Readdir (path : list Z)
| MoveFile (oldPath newPath : list Z).

Definition answer (c : syscall) : Type :=
  match c with
  | Mkstemp _ => option (list Z * Z)
  | Write _ _ => write_answer
  | Lseek _ _ => option Z
  | Close _ => unit
  | Open _ => option Z
  | Fstat _ => option Z
  | Mmap _ _ => option mapping
  | ReadMap _ => list Z
  | Unlink _ => bool
  | Readdir _ => option (list (list Z))
  | MoveFile _ _ => bool
  end.

(** Code that makes system calls. *)
Inductive io (A : Type) : Type :=
| Ret (result : outcome A)
| Sys (c : syscall) (k : answer c -> io A).
Arguments Ret {A} result.
Arguments Sys {A} c k.

Fixpoint io_bind {A B} (m : io A) (f : A -> io B) : io B :=
  match m with
  | Ret (Done a) => f a
  | Ret Crash => Ret Crash
  | Ret OutOfFuel => Ret OutOfFuel
  | Sys c k => Sys c (fun a => io_bind (k a) f)
  end.

Definition io_ret {A} (a : A) : io A := Ret (Done a).
Definition call (c : syscall) : io (answer c) := Sys c io_ret.

Declare Scope io_scope.
Delimit Scope io_scope with io.
Notation "'do*' x ':=' m 'in' k" := (io_bind m (fun x => k))
  (at level 200, x pattern, m at level 100, k at level 200, right associativity) : io_scope.
Open Scope io_scope.

Fixpoint io_fold {A S} (body : S -> A -> io S) (s : S) (l : list A) : io S :=
  match l with
  | [] => io_ret s
  | x :: l' => do* s' := body s x in io_fold body s' l'
  end.

(** ** The file system *)

(** Names of files, the contents of files, and the open descriptors with their
    offset. *)
Record fs := mkFs { directory : gmap (list Z) Z; contents : gmap Z (list Z); descriptors : gmap Z (Z * Z) }.

(** Writing [data] at [offset] of a file; a gap is filled with zeroes. *)
Definition overwrite (file : list Z) (offset : Z) (data : list Z) : list Z :=
  let n := Z.to_nat offset in
  take n file ++ replicate (n - length file) 0 ++ data ++ drop (n + length data) file.

(** [mkstemp] replaces the six [X] at the end of the template. *)
Definition temporary_name (template name : list Z) : Prop :=
  exists suffix, length suffix = 6%nat /\ name = take (length template - 6) template ++ suffix.

(** What the calls are documented to do (POSIX.1).  A call that fails changes
    nothing; a descriptor that is handed out is not open; [write] may write less
    than it was given. *)
Definition posix (s : fs) (c : syscall) : answer c -> fs -> Prop :=
  match c with
  | Mkstemp template => fun a s' =>
      match a with
      | Some (name, fd) =>
          temporary_name template name /\ directory s !! name = None /\ 0 <= fd /\ descriptors s !! fd = None /\
          exists i, contents s !! i = None /\ s' = mkFs (<[name := i]> (directory s)) (<[i := []]> (contents s)) (<[fd := (i, 0)]> (descriptors s))
      | None => s' = s
      end
  | Write fd data => fun a s' =>
      match a with
      | Written n =>
          0 <= n <= vsize data /\
          exists i offset file, descriptors s !! fd = Some (i, offset) /\ contents s !! i = Some file /\
            s' = mkFs (directory s) (<[i := overwrite file offset (take (Z.to_nat n) data)]> (contents s)) (<[fd := (i, offset + n)]> (descriptors s))
      | Interrupted | WriteError => s' = s
      end
  | Lseek fd offset => fun a s' =>
      match a with
      | Some result => result = offset /\ 0 <= offset /\ exists i o, descriptors s !! fd = Some (i, o) /\ s' = mkFs (directory s) (contents s) (<[fd := (i, offset)]> (descriptors s))
      | None => s' = s
      end
  | Close fd => fun _ s' => s' = mkFs (directory s) (contents s) (delete fd (descriptors s))
  | Open path => fun a s' =>
      match a with
      | Some fd => 0 <= fd /\ descriptors s !! fd = None /\ exists i, directory s !! path = Some i /\ s' = mkFs (directory s) (contents s) (<[fd := (i, 0)]> (descriptors s))
      | None => s' = s
      end
  | Fstat fd => fun a s' => s' = s /\ forall n, a = Some n -> exists i o file, descriptors s !! fd = Some (i, o) /\ contents s !! i = Some file /\ n = vsize file
  | Mmap fd size => fun a s' => s' = s /\ forall m, a = Some m -> map_size m = size /\ exists o, descriptors s !! fd = Some (map_inode m, o)
  | ReadMap m => fun a s' => s' = s /\ a = take (Z.to_nat (map_size m)) (default [] (contents s !! map_inode m))
  | Unlink path => fun a s' =>
      if a : bool then is_Some (directory s !! path) /\ s' = mkFs (delete path (directory s)) (contents s) (descriptors s) else s' = s
  | Readdir path => fun a s' =>
      s' = s /\ forall names, a = Some names ->
        forall name, name ∈ names <-> name = literal "." \/ name = literal ".." \/ (47 ∉ name /\ is_Some (directory s !! (path ++ literal "/" ++ name)))
  | MoveFile oldPath newPath => fun a s' =>
      if a : bool then exists i, directory s !! oldPath = Some i /\ s' = mkFs (<[newPath := i]> (delete oldPath (directory s))) (contents s) (descriptors s)
      else s' = s
  end.

(** An operating system: what its calls do is what is documented. *)
Class OS := {
  os_step : fs -> forall c : syscall, answer c -> fs -> Prop;
  os_posix : forall s c a s', os_step s c a s' -> posix s c a s';
  (** [getenv("TMPDIR")]. *)
  env_TMPDIR : option (list Z);
  (** Names of files as strings and as the operating system has them. *)
  fileSystemRepresentation : list Z -> list Z;
  stringFromUTF8 : list Z -> list Z;
  string_utf8 : list Z -> list Z;
  (** [vm_page_size]; [mach_make_memory_entry_64] gives a port for mapped memory
      and the size of its entry, which is at least what was asked for; and
      [mach_vm_map] maps the memory of a port, in this or another process. *)
  vm_page_size : Z;
  make_memory_entry : mapping -> Z -> option (Z * Z);
  vm_map : Z -> Z -> option mapping;
  vm_page_size_positive : 0 < vm_page_size;
  make_memory_entry_port m size port memoryObjectSize : make_memory_entry m size = Some (port, memoryObjectSize) -> port <> 0 /\ size <= memoryObjectSize;
  vm_map_entry m size port memoryObjectSize n m' : make_memory_entry m size = Some (port, memoryObjectSize) -> vm_map port n = Some m' -> m' = mkMapping (map_inode m) n
}.

(** ** FileSystemPOSIX.cpp *)

Definition invalidPlatformFileHandle : Z := -1.
Definition PATH_MAX : Z := 4096.

Section Functions.
Context `{OS}.
(** How often an interrupted write is tried again. *)
Variable retries : nat.

(** [openTemporaryFile(prefix, handle)]: the path and the handle; the prefix is
    ASCII. *)
Definition openTemporaryFile (prefix : list Z) : io (list Z * Z) :=
  let tmpDir := default (literal "/tmp") env_TMPDIR in
  let buffer := tmpDir ++ literal "/" ++ prefix ++ literal "XXXXXX" in
  if PATH_MAX <=? vsize buffer then io_ret ([], invalidPlatformFileHandle)
  else
    do* a := call (Mkstemp buffer) in
    match a with
    | Some (name, handle) => io_ret (stringFromUTF8 name, handle)
    | None => io_ret ([], invalidPlatformFileHandle)
    end.

(** The loop of [writeToFile]. *)
Fixpoint write_loop (fuel : nat) (handle : Z) (data : list Z) : io Z :=
  match fuel with
  | O => Ret OutOfFuel
  | S fuel' =>
      do* a := call (Write handle data) in
      match a with
      | Written bytesWritten => io_ret bytesWritten
      | Interrupted => write_loop fuel' handle data
      | WriteError => io_ret (-1)
      end
  end.

(** [writeToFile(handle, data, length)]; the length is an [int], and what the
    call does with a negative one is not specified. *)
Definition writeToFile (handle : Z) (data : list Z) : io Z :=
  if vsize data <=? INT32_MAX then write_loop retries handle data else Ret Crash.

Definition isHandleValid (handle : Z) : bool := negb (handle =? invalidPlatformFileHandle).

(** [closeFile(handle)] also sets the variable it is given to the invalid
    handle. *)
Definition closeFile (handle : Z) : io unit :=
  if isHandleValid handle then call (Close handle) else io_ret tt.

(** [seekFile(handle, offset, SeekFromBeginning)]. *)
Definition seekFile (handle offset : Z) : io Z :=
  do* a := call (Lseek handle offset) in io_ret (default (-1) a).

Definition deleteFile (path : list Z) : io bool :=
  let fsRep := fileSystemRepresentation path in
  if hd 0 fsRep =? 0 then io_ret false else call (Unlink fsRep).

(** [listDirectory(path, "*")]: every name matches the pattern, and a path is
    built in a buffer of 1024 bytes; a C string is taken as Latin-1. *)
Definition listDirectory (path : list Z) : io (list (list Z)) :=
  let cpath := string_utf8 path in
  do* names := call (Readdir cpath) in
  io_ret (List.filter (fun filePath => vsize filePath <=? 1023)
    (map (fun name => cpath ++ literal "/" ++ name)
      (List.filter (fun name => negb (bool_decide (name = literal ".") || bool_decide (name = literal ".."))) (default [] names)))).

Definition moveFile (oldPath newPath : list Z) : io bool :=
  call (MoveFile (fileSystemRepresentation oldPath) (fileSystemRepresentation newPath)).

(** ** NetworkCacheData.cpp *)

(** [NetworkCache::Data]: null, empty, or a mapping that owns its descriptor. *)
Inductive Data := NullData | EmptyData | MapData (m : mapping) (fd : Z).

Definition data_isNull (d : Data) : bool := match d with NullData => true | _ => false end.
Definition data_size (d : Data) : Z := match d with MapData m _ => map_size m | _ => 0 end.

(** The destructor of the last reference ([~MapWrapper]). *)
Definition data_release (d : Data) : io unit := match d with MapData _ fd => call (Close fd) | _ => io_ret tt end.

Definition adoptAndMapFile (fd size : Z) : io Data :=
  if size =? 0 then do* _ := call (Close fd) in io_ret EmptyData
  else
    do* map := call (Mmap fd size) in
    match map with
    | None => do* _ := call (Close fd) in io_ret NullData
    | Some m => io_ret (MapData m fd)
    end.

Definition mapFile (path : list Z) : io Data :=
  do* a := call (Open path) in
  match a with
  | None => io_ret NullData
  | Some fd =>
      do* stat := call (Fstat fd) in
      match stat with
      | None => do* _ := call (Close fd) in io_ret NullData
      | Some size =>
          if size =? 0 then do* _ := call (Close fd) in io_ret EmptyData
          else adoptAndMapFile fd size
      end
  end.

(** ** SharedMemoryMac.cpp *)

Definition MACH_PORT_NULL : Z := 0.

(** [SharedMemory]: memory that is mapped here, or the port of a memory; it is
    read-only. *)
Record SharedMemory := mkSharedMemory { sm_size : Z; sm_data : option mapping; sm_port : Z }.

(** [SharedMemory::Handle]. *)
Record SharedMemoryHandle := mkHandle { h_port : Z; h_size : Z }.

Definition nullHandle : SharedMemoryHandle := mkHandle MACH_PORT_NULL 0.
Definition handle_isNull (h : SharedMemoryHandle) : bool := h_port h =? MACH_PORT_NULL.

Definition round_page (size : Z) : Z := (size + vm_page_size - 1) / vm_page_size * vm_page_size.

(** [makeMemoryEntry]: the port, or none; with the release assertion on the size
    of the entry. *)
Definition makeMemoryEntry (m : mapping) (size : Z) : outcome (option Z) :=
  match make_memory_entry m (round_page size) with
  | None => Done None
  | Some (port, memoryObjectSize) => if size <=? memoryObjectSize then Done (Some port) else Crash
  end.

(** [SharedMemory::create] of the bytes of file data. *)
Definition SharedMemory_create (d : Data) : outcome (option SharedMemory) :=
  match d with
  | MapData m _ =>
      let* sendRight := makeMemoryEntry m (data_size d) in
      match sendRight with
      | Some port => Done (Some (mkSharedMemory (data_size d) None port))
      | None => Done None
      end
  | _ => Done None
  end.

(** [createSendRight]. *)
Definition createSendRight (s : SharedMemory) : outcome (option Z) :=
  if sm_port s =? MACH_PORT_NULL
  then match sm_data s with Some m => makeMemoryEntry m (sm_size s) | None => Done None end
  else Done (Some (sm_port s)).

(** [createHandle]; the handle stays null when there is no send right. *)
Definition createHandle (s : SharedMemory) : outcome SharedMemoryHandle :=
  let* sendRight := createSendRight s in
  match sendRight with
  | Some port => Done (mkHandle port (round_page (sm_size s)))
  | None => Done nullHandle
  end.

(** [SharedMemory::map]. *)
Definition SharedMemory_map (h : SharedMemoryHandle) : option SharedMemory :=
  if handle_isNull h then None
  else
    match vm_map (h_port h) (round_page (h_size h)) with
    | Some m => Some (mkSharedMemory (h_size h) (Some m) MACH_PORT_NULL)
    | None => None
    end.

(** The release assertion holds, so that these functions always return. *)

Lemma round_page_bound n : n <= round_page n.
Proof. pose proof vm_page_size_positive. unfold round_page. pose proof (Z.div_mod (n + vm_page_size - 1) vm_page_size). pose proof (Z.mod_pos_bound (n + vm_page_size - 1) vm_page_size). lia. Qed.

Definition memory_port (m : mapping) (size : Z) : option Z := fst <$> make_memory_entry m (round_page size).

Lemma makeMemoryEntry_returns m size : makeMemoryEntry m size = Done (memory_port m size).
Proof.
  unfold makeMemoryEntry, memory_port. destruct (make_memory_entry m (round_page size)) as [[port n]|] eqn:E; [|done].
  apply make_memory_entry_port in E as [_ Hn]. pose proof (round_page_bound size). by destruct (Z.leb_spec size n); [|lia].
Qed.

Definition shared_memory (d : Data) : option SharedMemory :=
  match d with MapData m _ => mkSharedMemory (data_size d) None <$> memory_port m (data_size d) | _ => None end.

Lemma SharedMemory_create_returns d : SharedMemory_create d = Done (shared_memory d).
Proof. destruct d; [done..|]. cbn [SharedMemory_create shared_memory]. rewrite makeMemoryEntry_returns. cbn [obind]. by destruct (memory_port _ _). Qed.

Definition memory_handle (s : SharedMemory) : SharedMemoryHandle :=
  match (if sm_port s =? MACH_PORT_NULL then sm_data s ≫= fun m => memory_port m (sm_size s) else Some (sm_port s)) with
  | Some port => mkHandle port (round_page (sm_size s))
  | None => nullHandle
  end.

Lemma createHandle_returns s : createHandle s = Done (memory_handle s).
Proof.
  unfold createHandle, createSendRight, memory_handle. destruct (sm_port s =? MACH_PORT_NULL); [|done]. destruct (sm_data s) as [m|]; [|done].
  rewrite makeMemoryEntry_returns. cbn [obind mbind option_bind]. by destruct (memory_port _ _).
Qed.
End Functions.

(** ** A file system that works

    An operating system in which every call succeeds that can, for running code
    on concrete states.  Descriptors and files are numbered upwards. *)

Definition fresh_key {A} (m : gmap Z A) : Z := map_fold (fun k _ n => Z.max (k + 1) n) 0 m.

Lemma fresh_key_spec {A} (m : gmap Z A) : 0 <= fresh_key m /\ forall k x, m !! k = Some x -> k < fresh_key m.
Proof.
  unfold fresh_key. apply (map_fold_weak_ind (fun n m => 0 <= n /\ forall k x, m !! k = Some x -> k < n)); [split; [lia|]; intros k x; by rewrite lookup_empty|].
  intros i x m' n _ [Hn Hk]. split; [lia|]. intros k y. rewrite lookup_insert_Some. intros [[<- _]|[_ Hl]]; [lia|]. specialize (Hk k y Hl). lia.
Qed.

Lemma fresh_key_free {A} (m : gmap Z A) : m !! fresh_key m = None.
Proof. destruct (m !! fresh_key m) eqn:E; [|done]. destruct (fresh_key_spec m) as [_ Hk]. specialize (Hk _ _ E). lia. Qed.

Definition six_digits (n : Z) : list Z := map (fun d => 48 + n / 10 ^ d mod 10) [5; 4; 3; 2; 1; 0].

(** The first of a thousand temporary names that is not taken. *)
Definition free_name (directory : gmap (list Z) Z) (template : list Z) : option (list Z) :=
  List.find (fun name => bool_decide (directory !! name = None)) (map (fun n => take (length template - 6) template ++ six_digits n) (seqZ 0 1000)).

Lemma free_name_spec d template name : free_name d template = Some name -> temporary_name template name /\ d !! name = None.
Proof.
  unfold free_name. intros [Hin Hd]%find_some. apply bool_decide_eq_true in Hd. split; [|done]. apply in_map_iff in Hin as (n & <- & _). by exists (six_digits n).
Qed.

(** The names of the files in a directory. *)
Fixpoint strip (prefix l : list Z) : option (list Z) :=
  match prefix, l with
  | [], _ => Some l
  | x :: prefix', y :: l' => if x =? y then strip prefix' l' else None
  | _ :: _, [] => None
  end.

Definition names_in (directory : gmap (list Z) Z) (path : list Z) : list (list Z) :=
  literal "." :: literal ".." :: List.filter (fun name => bool_decide (47 ∉ name)) (omap (fun slot => strip (path ++ literal "/") slot.1) (map_to_list directory)).

Lemma strip_Some prefix l r : strip prefix l = Some r <-> l = prefix ++ r.
Proof.
  revert l. induction prefix as [|x prefix IH]; intros l; cbn [strip app]; [naive_solver|]. destruct l as [|y l]; [done|]. destruct (Z.eqb_spec x y); [rewrite IH; naive_solver|naive_solver].
Qed.

Lemma names_in_spec d path name : name ∈ names_in d path <-> name = literal "." \/ name = literal ".." \/ (47 ∉ name /\ is_Some (d !! (path ++ literal "/" ++ name))).
Proof.
  unfold names_in. rewrite !elem_of_cons, list_elem_of_In, filter_In, bool_decide_eq_true, <- list_elem_of_In, list_elem_of_omap. do 2 f_equiv. split.
  - intros [([key i] & Hin%elem_of_map_to_list & Hs%strip_Some) Hn]. split; [done|]. exists i. cbn [fst] in Hs. rewrite app_assoc. by rewrite <- Hs.
  - intros [Hn [i Hi]]. split; [|done]. exists (path ++ literal "/" ++ name, i). split; [by apply elem_of_map_to_list|]. apply strip_Some. cbn [fst]. by rewrite <- app_assoc.
Qed.

Definition posix_do (s : fs) (c : syscall) : answer c * fs :=
  match c with
  | Mkstemp template =>
      match free_name (directory s) template with
      | Some name =>
          let i := fresh_key (contents s) in
          let fd := fresh_key (descriptors s) in
          (Some (name, fd), mkFs (<[name := i]> (directory s)) (<[i := []]> (contents s)) (<[fd := (i, 0)]> (descriptors s)))
      | None => (None, s)
      end
  | Write fd data =>
      match descriptors s !! fd with
      | Some (i, offset) =>
          match contents s !! i with
          | Some file => (Written (vsize data), mkFs (directory s) (<[i := overwrite file offset data]> (contents s)) (<[fd := (i, offset + vsize data)]> (descriptors s)))
          | None => (WriteError, s)
          end
      | None => (WriteError, s)
      end
  | Lseek fd offset =>
      match descriptors s !! fd with
      | Some (i, _) => if 0 <=? offset then (Some offset, mkFs (directory s) (contents s) (<[fd := (i, offset)]> (descriptors s))) else (None, s)
      | None => (None, s)
      end
  | Close fd => (tt, mkFs (directory s) (contents s) (delete fd (descriptors s)))
  | Open path =>
      match directory s !! path with
      | Some i => let fd := fresh_key (descriptors s) in (Some fd, mkFs (directory s) (contents s) (<[fd := (i, 0)]> (descriptors s)))
      | None => (None, s)
      end
  | Fstat fd =>
      (match descriptors s !! fd with
       | Some (i, _) => match contents s !! i with Some file => Some (vsize file) | None => None end
       | None => None
       end, s)
  | Mmap fd size => (match descriptors s !! fd with Some (i, _) => Some (mkMapping i size) | None => None end, s)
  | ReadMap m => (take (Z.to_nat (map_size m)) (default [] (contents s !! map_inode m)), s)
  | Unlink path => match directory s !! path with Some _ => (true, mkFs (delete path (directory s)) (contents s) (descriptors s)) | None => (false, s) end
  | Readdir path => (Some (names_in (directory s) path), s)
  | MoveFile oldPath newPath =>
      match directory s !! oldPath with
      | Some i => (true, mkFs (<[newPath := i]> (delete oldPath (directory s))) (contents s) (descriptors s))
      | None => (false, s)
      end
  end.

(** It does what is documented. *)
Lemma posix_do_posix s c : posix s c (posix_do s c).1 (posix_do s c).2.
Proof.
  destruct c as [t|fd data|fd offset|fd|path|fd|fd size|m|path|path|old new]; cbn.
  - destruct (free_name (directory s) t) as [name|] eqn:E; [|done]. apply free_name_spec in E as [E1 E2]. cbn. split_and!; [done|done|apply fresh_key_spec|apply fresh_key_free|].
    eexists. split; [apply fresh_key_free|done].
  - destruct (descriptors s !! fd) as [[i o]|] eqn:E; [|done]. destruct (contents s !! i) as [file|] eqn:Ef; [|done]. cbn. split; [pose proof (vsize_nonneg data); lia|].
    exists i, o, file. split; [done|]. split; [done|]. rewrite take_ge by (unfold vsize; lia). done.
  - destruct (descriptors s !! fd) as [[i o]|] eqn:E; [|done]. destruct (Z.leb_spec 0 offset); [|done]. cbn. split; [done|]. split; [done|]. by eexists _, _.
  - done.
  - destruct (directory s !! path) as [i|] eqn:E; [|done]. cbn. split; [apply fresh_key_spec|]. split; [apply fresh_key_free|]. by exists i.
  - split; [done|]. intros n. destruct (descriptors s !! fd) as [[i o]|] eqn:E; [|done]. destruct (contents s !! i) as [file|] eqn:Ef; [|done]. intros [= <-]. by eexists _, _, _.
  - split; [done|]. intros m. destruct (descriptors s !! fd) as [[i o]|] eqn:E; [|done]. intros [= <-]. split; [done|]. by exists o.
  - done.
  - destruct (directory s !! path) as [i|] eqn:E; [|done]. cbn. by split; [eexists|].
  - split; [done|]. intros names [= <-] name. apply names_in_spec.
  - destruct (directory s !! old) as [i|] eqn:E; [|done]. cbn. by exists i.
Qed.

(** Running code from a state. *)
Fixpoint run {A} (m : io A) (s : fs) : outcome A * fs :=
  match m with
  | Ret r => (r, s)
  | Sys c k => let (a, s') := posix_do s c in run (k a) s'
  end.

Lemma run_bind {A B} (m : io A) (f : A -> io B) : forall s,
  run (io_bind m f) s = match run m s with (Done a, s') => run (f a) s' | (Crash, s') => (Crash, s') | (OutOfFuel, s') => (OutOfFuel, s') end.
Proof. induction m as [[a| |]|c k IH]; intros s; cbn; [done..|]. destruct (posix_do s c). apply IH. Qed.

Lemma run_call c s : run (call c) s = (Done (posix_do s c).1, (posix_do s c).2).
Proof. cbn. by destruct (posix_do s c). Qed.

(** The calls whose answer is a truth value. *)
Lemma run_move oldPath newPath s : @run bool (call (MoveFile oldPath newPath)) s =
  match directory s !! oldPath with
  | Some i => (Done true, mkFs (<[newPath := i]> (delete oldPath (directory s))) (contents s) (descriptors s))
  | None => (Done false, s)
  end.
Proof. cbn. by destruct (directory s !! oldPath). Qed.

Lemma run_unlink path s : @run bool (call (Unlink path)) s =
  match directory s !! path with Some _ => (Done true, mkFs (delete path (directory s)) (contents s) (descriptors s)) | None => (Done false, s) end.
Proof. cbn. by destruct (directory s !! path). Qed.
