(* ===== verification/RuleListParser.v ===== *)
(** * Parsing rule lists (ContentExtensionParser.cpp, ContentExtensionError.h/.cpp)

    A rule list is JSON text.  The JSON parser of JavaScriptCore and the CSS
    selector parser are parameters; what the code does with the parsed value is
    modelled, every error included.  No operation on a value that was parsed
    from JSON throws, but for the conversion of null to an object. *)

From stdpp Require Import strings.
From S2P Require Import Prelude Containers Strings ResourceLoad Rules.

(** ** Errors *)

Inductive ContentExtensionError :=
| JSONInvalid
| JSONTopLevelStructureNotAnObject | JSONTopLevelStructureNotAnArray | JSONInvalidObjectInTopLevelArray | JSONInvalidRule | JSONContainsNoRules
| JSONInvalidTrigger | JSONInvalidURLFilterInTrigger | JSONInvalidTriggerFlagsArray | JSONInvalidObjectInTriggerFlagsArray
| JSONInvalidStringInTriggerFlagsArray | JSONInvalidDomainList | JSONDomainNotLowerCaseASCII | JSONUnlessAndIfDomain | JSONTooManyRules
| JSONInvalidAction | JSONInvalidActionType | JSONInvalidCSSDisplayNoneActionType | JSONInvalidRegex.

#[global] Instance ContentExtensionError_eq_dec : EqDecision ContentExtensionError.
Proof. solve_decision. Defined.

(** [ContentExtensionErrorCategory::message]. *)
Definition error_message (error : ContentExtensionError) : string :=
  match error with
  | JSONInvalid => "Failed to parse the JSON String."
  | JSONTopLevelStructureNotAnObject => "Invalid input, the top level structure is not an object."
  | JSONTopLevelStructureNotAnArray => "Invalid input, the top level structure is not an array."
  | JSONInvalidObjectInTopLevelArray => "Invalid object in the top level array."
  | JSONInvalidRule => "Invalid rule."
  | JSONContainsNoRules => "Empty extension."
  | JSONInvalidTrigger => "Invalid trigger object."
  | JSONInvalidURLFilterInTrigger => "Invalid url-filter object."
  | JSONInvalidTriggerFlagsArray => "Invalid trigger flags array."
  | JSONInvalidObjectInTriggerFlagsArray => "Invalid object in the trigger flags array."
  | JSONInvalidStringInTriggerFlagsArray => "Invalid string in the trigger flags array."
  | JSONInvalidAction => "Invalid action object."
  | JSONInvalidActionType => "Invalid action type."
  | JSONInvalidCSSDisplayNoneActionType => "Invalid css-display-none action type. Requires a selector."
  | JSONInvalidRegex => "Invalid or unsupported regular expression."
  | JSONInvalidDomainList => "Invalid domain list."
  | JSONTooManyRules => "Too many rules in JSON array."
  | JSONDomainNotLowerCaseASCII => "Domains must be lower case ASCII. Use punycode to encode non-ASCII characters."
  | JSONUnlessAndIfDomain => "A trigger cannot have both unless- and if-domain."
  end.

(** The result of a function that returns a [std::error_code]. *)
Inductive result (A : Type) : Type :=
| Parsed (a : A)
| Failed (error : ContentExtensionError).
Arguments Parsed {A} a.
Arguments Failed {A} error.

Definition rbind {A B} (m : result A) (f : A -> result B) : result B :=
  match m with Parsed a => f a | Failed error => Failed error end.

Declare Scope result_scope.
Delimit Scope result_scope with result.
Notation "'let?' x ':=' m 'in' k" := (rbind m (fun x => k)) (at level 10, x pattern, m at level 100, k at level 200) : result_scope.
#[global] Open Scope result_scope.

Fixpoint rfold {A S} (body : S -> A -> result S) (s : S) (l : list A) : result S :=
  match l with
  | [] => Parsed s
  | x :: l' => let? s' := body s x in rfold body s' l'
  end.

(** ** JSON values *)

(** A number is kept as its text; an object has each of its properties once. *)
Inductive json :=
| JNull
| JBoolean (b : bool)
| JNumber (text : list Z)
| JString (s : WTFString)
| JArray (elements : list json)
| JObject (properties : list (WTFString * json)).

Definition isObject (v : json) : bool := match v with JArray _ | JObject _ => true | _ => false end.

(** [get(exec, name)]; [None] is undefined.  No property the code asks for is
    on a prototype. *)
Definition json_get (v : json) (name : string) : option json :=
  match v with
  | JObject properties => snd <$> List.find (fun p => s_is p.1 name) properties
  | _ => None
  end.

(** The parts of JavaScriptCore and of the CSS parser that are called. *)
Class Parsers := {
  JSONParse : WTFString -> option json;
  toWTFString : json -> WTFString;
  isValidSelector : WTFString -> bool
}.

Section Parser.
Context `{Parsers}.

(** ** Domains and flags *)

Definition containsOnlyASCIIWithNoUppercase (domain : WTFString) : bool :=
  forallb (fun c => isASCII c && negb (isASCIIUpper c)) (s_chars domain).

Definition add_domain (domains : list WTFString) (value : json) : result (list WTFString) :=
  match value with
  | JString domain =>
      if s_isEmpty domain then Failed JSONInvalidDomainList
      else if negb (containsOnlyASCIIWithNoUppercase domain) then Failed JSONDomainNotLowerCaseASCII
      else Parsed (domains ++ [domain])
  | _ => Failed JSONInvalidDomainList
  end.

Definition getDomainList (object : json) (domains : list WTFString) : result (list WTFString) :=
  match object with
  | JArray elements => rfold add_domain domains elements
  | _ => Failed JSONInvalidDomainList
  end.

Definition add_flag (stringToType : WTFString -> Z) (flags : Z) (value : json) : result Z :=
  let type := stringToType (toWTFString value) in
  if type =? 0 then Failed JSONInvalidStringInTriggerFlagsArray else Parsed (Z.lor flags type).

Definition getTypeFlags (typeValue : json) (flags : Z) (stringToType : WTFString -> Z) : result Z :=
  if negb (isObject typeValue) then Parsed flags
  else match typeValue with
       | JArray elements => rfold (add_flag stringToType) flags elements
       | _ => Failed JSONInvalidTriggerFlagsArray
       end.

(** ** Triggers *)

Definition load_url_filter (triggerObject : json) : result WTFString :=
  match json_get triggerObject "url-filter" with
  | Some (JString urlFilter) => if s_isEmpty urlFilter then Failed JSONInvalidURLFilterInTrigger else Parsed urlFilter
  | _ => Failed JSONInvalidURLFilterInTrigger
  end.

Definition load_case_sensitivity (triggerObject : json) : bool :=
  match json_get triggerObject "url-filter-is-case-sensitive" with Some (JBoolean b) => b | _ => false end.

(** [resource-type] and [load-type]. *)
Definition load_flags (triggerObject : json) (name : string) (stringToType : WTFString -> Z) (flags : Z) : result Z :=
  match json_get triggerObject name with
  | None => Parsed flags
  | Some value => if isObject value then getTypeFlags value flags stringToType else Failed JSONInvalidTriggerFlagsArray
  end.

(** [if-domain] and [unless-domain]: the domains, and whether there was a
    condition. *)
Definition load_if_domain (triggerObject : json) (t : Trigger) : result Trigger :=
  match json_get triggerObject "if-domain" with
  | None => Parsed t
  | Some value =>
      if isObject value then
        let? domains := getDomainList value (t_domains t) in
        match domains with
        | [] => Failed JSONInvalidDomainList
        | _ => Parsed (mkTrigger (t_urlFilter t) (t_urlFilterIsCaseSensitive t) (t_flags t) domains DC_IfDomain)
        end
      else Failed JSONInvalidDomainList
  end.

Definition load_unless_domain (triggerObject : json) (t : Trigger) : result Trigger :=
  match json_get triggerObject "unless-domain" with
  | None => Parsed t
  | Some value =>
      if isObject value then
        if negb (bool_decide (t_domainCondition t = DC_None)) then Failed JSONUnlessAndIfDomain
        else
          let? domains := getDomainList value (t_domains t) in
          match domains with
          | [] => Failed JSONInvalidDomainList
          | _ => Parsed (mkTrigger (t_urlFilter t) (t_urlFilterIsCaseSensitive t) (t_flags t) domains DC_UnlessDomain)
          end
      else Failed JSONInvalidDomainList
  end.

Definition loadTrigger (ruleObject : json) : result Trigger :=
  match json_get ruleObject "trigger" with
  | Some triggerObject =>
      if negb (isObject triggerObject) then Failed JSONInvalidTrigger
      else
        let? urlFilter := load_url_filter triggerObject in
        let? flags := load_flags triggerObject "resource-type" readResourceType 0 in
        let? flags := load_flags triggerObject "load-type" readLoadType flags in
        let? t := load_if_domain triggerObject (mkTrigger urlFilter (load_case_sensitivity triggerObject) flags [] DC_None) in
        load_unless_domain triggerObject t
  | None => Failed JSONInvalidTrigger
  end.

(** ** Actions *)

(** [None] for a rule with an invalid selector, which is skipped. *)
Definition loadAction (ruleObject : json) : result (option Action) :=
  match json_get ruleObject "action" with
  | Some actionObject =>
      if negb (isObject actionObject) then Failed JSONInvalidAction
      else
        match json_get actionObject "type" with
        | Some (JString actionType) =>
            if s_is actionType "block" then Parsed (Some (newAction BlockLoad UINT32_MAX))
            else if s_is actionType "ignore-previous-rules" then Parsed (Some (newAction IgnorePreviousRules UINT32_MAX))
            else if s_is actionType "block-cookies" then Parsed (Some (newAction BlockCookies UINT32_MAX))
            else if s_is actionType "css-display-none" then
              match json_get actionObject "selector" with
              | Some (JString s) =>
                  if negb (isValidSelector s) then Parsed None else Parsed (Some (newActionWithString CSSDisplayNoneSelector s UINT32_MAX))
              | _ => Failed JSONInvalidCSSDisplayNoneActionType
              end
            else if s_is actionType "make-https" then Parsed (Some (newAction MakeHTTPS UINT32_MAX))
            else Failed JSONInvalidActionType
        | _ => Failed JSONInvalidActionType
        end
  | None => Failed JSONInvalidAction
  end.

(** ** Rules *)

Definition loadRule (ruleList : list ContentExtensionRule) (ruleObject : json) : result (list ContentExtensionRule) :=
  let? trigger := loadTrigger ruleObject in
  let? action := loadAction ruleObject in
  Parsed (match action with Some action => ruleList ++ [mkRule trigger action] | None => ruleList end).

(** An element of the top level array; null has no object. *)
Definition load_element (ruleList : list ContentExtensionRule) (value : json) : result (list ContentExtensionRule) :=
  match value with JNull => Failed JSONInvalidRule | _ => loadRule ruleList value end.

Definition maxRuleCount : Z := 50000.

Definition loadEncodedRules (rules : WTFString) : result (list ContentExtensionRule) :=
  match JSONParse rules with
  | None => Failed JSONInvalid
  | Some decodedRules =>
      if negb (isObject decodedRules) then Failed JSONTopLevelStructureNotAnObject
      else
        match decodedRules with
        | JArray elements => if maxRuleCount <? vsize elements then Failed JSONTooManyRules else rfold load_element [] elements
        | _ => Failed JSONTopLevelStructureNotAnArray
        end
  end.

Definition parseRuleList (rules : WTFString) : result (list ContentExtensionRule) :=
  let? ruleList := loadEncodedRules rules in
  match ruleList with [] => Failed JSONContainsNoRules | _ => Parsed ruleList end.
End Parser.
