(* ===== verification/RuleListTheorems.v ===== *)
(** * Properties of the rule list parser

    What every parsed rule satisfies, and that the JSON encoding of a rule list
    parses back. *)

From stdpp Require Import strings.
From S2P Require Import Prelude Containers Strings ResourceLoad Rules RulesSerialize RuleListParser.

#[global] Instance WTFString_eq_dec : EqDecision WTFString.
Proof. solve_decision. Defined.

(** ** Rules *)

(** The flags that have names: all but plug-in streams. *)
Definition namedFlags : Z := Z.lor (Z.land ResourceTypeMask (Z.lnot (resource_type_code RT_PlugInStream))) LoadTypeMask.

Section Valid.
Context `{Parsers}.

Definition domain_ok (domain : WTFString) : bool := negb (s_isEmpty domain) && containsOnlyASCIIWithNoUppercase domain && width_okb domain.

Definition trigger_ok (t : Trigger) : bool :=
  negb (s_isEmpty (t_urlFilter t)) && width_okb (t_urlFilter t) && (Z.lor (t_flags t) namedFlags =? namedFlags) && (0 <=? t_flags t) &&
  forallb domain_ok (t_domains t) &&
  match t_domainCondition t, t_domains t with
  | DC_None, [] => true
  | DC_IfDomain, _ :: _ | DC_UnlessDomain, _ :: _ => true
  | _, _ => false
  end.

(** An action as the parser makes it. *)
Definition action_ok (a : Action) : bool :=
  bool_decide (m_extensionIdentifier a = emptyString) && (m_actionID a =? UINT32_MAX) &&
  match m_type a with
  | BlockLoad | BlockCookies | IgnorePreviousRules | MakeHTTPS => bool_decide (m_stringArgument a = emptyString)
  | CSSDisplayNoneSelector => isValidSelector (m_stringArgument a) && width_okb (m_stringArgument a)
  | CSSDisplayNoneStyleSheet | InvalidAction => false
  end.

Definition rule_ok (r : ContentExtensionRule) : bool := trigger_ok (r_trigger r) && action_ok (r_action r).

(** ** Strings of a parsed value *)

Fixpoint json_width (v : json) : Prop :=
  match v with
  | JString s => width_ok s
  | JArray l => (fix all l := match l with [] => True | v :: l' => json_width v /\ all l' end) l
  | JObject l => (fix all l := match l with [] => True | p :: l' => json_width p.2 /\ all l' end) l
  | _ => True
  end.
End Valid.

Section Sound.
Context `{Parsers}.

Lemma json_width_array l : json_width (JArray l) <-> Forall json_width l.
Proof. simpl. induction l as [|v l IH]; [split; [constructor|done]|]. by rewrite Forall_cons, <- IH. Qed.

Lemma json_width_get v name x : json_width v -> json_get v name = Some x -> json_width x.
Proof.
  destruct v as [| | | | |l]; try done. simpl. induction l as [|p l IH]; [done|]. intros [Hp Hl]. simpl. destruct (s_is p.1 name); [by intros [= <-]|by apply IH].
Qed.

Lemma width_okb_complete s : width_ok s -> width_okb s = true.
Proof.
  unfold width_ok, width_okb. intros Hs. apply forallb_forall. intros c Hc%list_elem_of_In. rewrite Forall_forall in Hs. apply Hs in Hc. destruct (s_is8Bit s); lia.
Qed.

Lemma rfold_inv {A S} (body : S -> A -> result S) (I : S -> Prop) s l s' : (forall s x s', I s -> x ∈ l -> body s x = Parsed s' -> I s') ->
  I s -> rfold body s l = Parsed s' -> I s'.
Proof.
  revert s. induction l as [|x l IH]; intros s Hb Hs; simpl; [by intros [= <-]|]. destruct (body s x) as [s1|] eqn:E; [|done]. simpl.
  apply IH; [intros; eapply Hb; [done|by right|done]|]. eapply Hb; [exact Hs|by left|done].
Qed.

Lemma getDomainList_ok v ds ds' : json_width v -> forallb domain_ok ds = true -> getDomainList v ds = Parsed ds' -> forallb domain_ok ds' = true.
Proof.
  intros Hv Hd. destruct v as [| | | |l|]; try done. cbn [getDomainList]. apply json_width_array in Hv. rewrite Forall_forall in Hv.
  apply (rfold_inv _ (fun ds => forallb domain_ok ds = true)); [|done]. intros s x s' Hs Hx%Hv. unfold add_domain. destruct x as [| | |d| |]; try done.
  destruct (s_isEmpty d) eqn:Ee; [done|]. destruct (containsOnlyASCIIWithNoUppercase d) eqn:Ea; [|done]. intros [= <-]. rewrite forallb_app, Hs. cbn [forallb andb].
  unfold domain_ok. by rewrite Ee, Ea, (width_okb_complete d Hx).
Qed.

(** Flags with names only. *)
Definition flags_ok (flags : Z) : Prop := 0 <= flags /\ Z.lor flags namedFlags = namedFlags.

Lemma flags_ok_lor a b : flags_ok a -> flags_ok b -> flags_ok (Z.lor a b).
Proof. intros [Ha Ea] [Hb Eb]. split; [by apply Z.lor_nonneg|]. by rewrite <- Z.lor_assoc, Eb. Qed.

Lemma readResourceType_ok name : flags_ok (readResourceType name).
Proof. unfold readResourceType. repeat (destruct (s_is name _); [by split|]). by split. Qed.

Lemma readLoadType_ok name : flags_ok (readLoadType name).
Proof. unfold readLoadType. repeat (destruct (s_is name _); [by split|]). by split. Qed.

Lemma load_flags_ok v name f flags flags' : (forall name, flags_ok (f name)) -> flags_ok flags -> load_flags v name f flags = Parsed flags' -> flags_ok flags'.
Proof.
  intros Hf Hfl. unfold load_flags. destruct (json_get v name) as [value|]; [|by intros [= <-]]. destruct (isObject value) eqn:Eo; [|done].
  unfold getTypeFlags. rewrite Eo. cbn [negb]. destruct value as [| | | |l|]; try done.
  apply (rfold_inv _ flags_ok); [|done]. intros s x s' Hs _. unfold add_flag. destruct (_ =? _); [done|]. intros [= <-]. by apply flags_ok_lor.
Qed.

(** What holds of a trigger between its fields. *)
Definition trigger_part (t : Trigger) : Prop :=
  s_isEmpty (t_urlFilter t) = false /\ width_okb (t_urlFilter t) = true /\ flags_ok (t_flags t) /\ forallb domain_ok (t_domains t) = true /\
  match t_domainCondition t with DC_None => t_domains t = [] | _ => t_domains t <> [] end.

Lemma trigger_part_ok t : trigger_part t -> trigger_ok t = true.
Proof.
  intros (He & Hw & [Hf1 Hf2] & Hd & Hc). unfold trigger_ok. rewrite He, Hw, Hd, Hf2, Z.eqb_refl. destruct (Z.leb_spec 0 (t_flags t)); [|lia]. cbn [negb andb].
  destruct (t_domainCondition t); [by rewrite Hc|by destruct (t_domains t)..].
Qed.

Lemma load_if_domain_ok v t t' : json_width v -> trigger_part t -> t_domainCondition t = DC_None -> load_if_domain v t = Parsed t' -> trigger_part t'.
Proof.
  intros Hv Ht Hn. pose proof Ht as (He & Hw & Hf & Hd & Hc). unfold load_if_domain. destruct (json_get v "if-domain") as [x|] eqn:Ex; [|by intros [= <-]].
  destruct (isObject x); [|done]. destruct (getDomainList x (t_domains t)) as [ds|] eqn:Ed; [|done]. cbn [rbind].
  apply getDomainList_ok in Ed; [|by eapply json_width_get|done]. destruct ds as [|d ds]; [done|]. intros [= <-]. by split_and!.
Qed.

Lemma load_unless_domain_ok v t t' : json_width v -> trigger_part t -> load_unless_domain v t = Parsed t' -> trigger_part t'.
Proof.
  intros Hv Ht. pose proof Ht as (He & Hw & Hf & Hd & Hc). unfold load_unless_domain. destruct (json_get v "unless-domain") as [x|] eqn:Ex; [|by intros [= <-]].
  destruct (isObject x); [|done]. destruct (bool_decide_reflect (t_domainCondition t = DC_None)); [|done]. cbn [negb].
  destruct (getDomainList x (t_domains t)) as [ds|] eqn:Ed; [|done]. cbn [rbind].
  apply getDomainList_ok in Ed; [|by eapply json_width_get|done]. destruct ds as [|d ds]; [done|]. intros [= <-]. by split_and!.
Qed.

Lemma loadTrigger_ok v t : json_width v -> loadTrigger v = Parsed t -> trigger_ok t = true.
Proof.
  intros Hv. unfold loadTrigger. destruct (json_get v "trigger") as [o|] eqn:Eo; [|done]. apply json_width_get in Eo; [|done]. destruct (isObject o); [|done]. cbn [negb].
  unfold load_url_filter. destruct (json_get o "url-filter") as [[| | |u| |]|] eqn:Eu; try done. apply json_width_get in Eu; [|done]. destruct (s_isEmpty u) eqn:Ee; [done|]. cbn [rbind].
  destruct (load_flags o "resource-type" readResourceType 0) as [f1|] eqn:E1; [|done]. apply load_flags_ok in E1; [|apply readResourceType_ok|by split]. cbn [rbind].
  destruct (load_flags o "load-type" readLoadType f1) as [f2|] eqn:E2; [|done]. apply load_flags_ok in E2; [|apply readLoadType_ok|done]. cbn [rbind].
  destruct (load_if_domain o _) as [t1|] eqn:E3; [|done]. apply load_if_domain_ok in E3; [|done| |done].
  - cbn [rbind]. intros E4. apply load_unless_domain_ok in E4; [|done..]. by apply trigger_part_ok.
  - split_and!; try done. by apply width_okb_complete.
Qed.

Lemma loadAction_ok v a : json_width v -> loadAction v = Parsed (Some a) -> action_ok a = true.
Proof.
  intros Hv. unfold loadAction. destruct (json_get v "action") as [o|] eqn:Eo; [|done]. apply json_width_get in Eo; [|done]. destruct (isObject o); [|done]. cbn [negb].
  destruct (json_get o "type") as [[| | |ty| |]|]; try done. repeat (destruct (s_is ty _); [try by intros [= <-]|]); try done.
  destruct (json_get o "selector") as [[| | |s| |]|] eqn:Es; try done. apply json_width_get in Es; [|done]. destruct (isValidSelector s) eqn:Ev; [|done]. cbn [negb].
  intros [= <-]. unfold action_ok. cbn. by rewrite Ev, (width_okb_complete s Es).
Qed.

Lemma load_element_ok l v l' : json_width v -> load_element l v = Parsed l' -> l' = l \/ exists r, l' = l ++ [r] /\ rule_ok r = true.
Proof.
  intros Hv E. assert (E' : loadRule l v = Parsed l') by (by destruct v). clear E. unfold loadRule in E'. destruct (loadTrigger v) as [t|] eqn:Et; [|done]. cbn [rbind] in E'.
  destruct (loadAction v) as [[a|]|] eqn:Ea; cbn [rbind] in E'; [| |done]; injection E' as <-; [|by left]. right. eexists. split; [done|].
  unfold rule_ok. cbn. by rewrite (loadTrigger_ok _ _ Hv Et), (loadAction_ok _ _ Hv Ea).
Qed.

Lemma load_elements_ok elements : forall l l', Forall json_width elements -> forallb rule_ok l = true -> rfold load_element l elements = Parsed l' ->
  forallb rule_ok l' = true /\ vsize l' <= vsize l + vsize elements.
Proof.
  induction elements as [|v elements IH]; intros l l' Hw Hl; simpl.
  - intros [= <-]. split; [done|]. change (vsize (@nil json)) with 0. lia.
  - apply Forall_cons in Hw as [Hv Hw]. destruct (load_element l v) as [l1|] eqn:E; [|done]. simpl. intros E2. rewrite vsize_cons.
    apply load_element_ok in E as [->|(r & -> & Hr)]; [| |done].
    + destruct (IH l l' Hw Hl E2) as [? ?]. split; [done|lia].
    + destruct (IH (l ++ [r]) l' Hw) as [? Hs]; [by rewrite forallb_app, Hl; cbn; rewrite Hr|done|]. rewrite vsize_app in Hs. change (vsize [r]) with 1 in Hs. split; [done|lia].
Qed.
End Sound.

(** ** The JSON of a rule list *)

Definition resource_names : list (string * Z) :=
  [("document", 0x0001); ("image", 0x0002); ("style-sheet", 0x0004); ("script", 0x0008); ("font", 0x0010); ("raw", 0x0020);
   ("svg-document", 0x0040); ("media", 0x0080); ("popup", 0x0200)].
Definition load_names : list (string * Z) := [("first-party", 0x0400); ("third-party", 0x0800)].

Definition flag_names (names : list (string * Z)) (flags : Z) : list WTFString :=
  map (fun p => s_literal p.1) (List.filter (fun p => negb (Z.land flags p.2 =? 0)) names).

Definition property (name : string) (v : json) : WTFString * json := (s_literal name, v).

Definition encode_domains (t : Trigger) : list (WTFString * json) :=
  match t_domainCondition t with
  | DC_None => []
  | DC_IfDomain => [property "if-domain" (JArray (map JString (t_domains t)))]
  | DC_UnlessDomain => [property "unless-domain" (JArray (map JString (t_domains t)))]
  end.

Definition encode_trigger (t : Trigger) : json :=
  JObject ([property "url-filter" (JString (t_urlFilter t));
            property "url-filter-is-case-sensitive" (JBoolean (t_urlFilterIsCaseSensitive t));
            property "resource-type" (JArray (map JString (flag_names resource_names (t_flags t))));
            property "load-type" (JArray (map JString (flag_names load_names (t_flags t))))] ++ encode_domains t).

Definition action_name (t : ActionType) : string :=
  match t with
  | BlockLoad => "block" | BlockCookies => "block-cookies" | CSSDisplayNoneSelector => "css-display-none"
  | IgnorePreviousRules => "ignore-previous-rules" | MakeHTTPS => "make-https" | CSSDisplayNoneStyleSheet | InvalidAction => ""
  end.

Definition encode_action (a : Action) : json :=
  JObject (property "type" (JString (s_literal (action_name (m_type a)))) ::
           match m_type a with CSSDisplayNoneSelector => [property "selector" (JString (m_stringArgument a))] | _ => [] end).

Definition encode_rule (r : ContentExtensionRule) : json :=
  JObject [property "trigger" (encode_trigger (r_trigger r)); property "action" (encode_action (r_action r))].

Definition encode_rules (rules : list ContentExtensionRule) : json := JArray (map encode_rule rules).

Section Encoded.
Context `{Parsers}.
Hypothesis string_value : forall s, toWTFString (JString s) = s.

(** The flags read back from their names. *)
Definition read_names (f : WTFString -> Z) (flags : Z) (names : list WTFString) : option Z :=
  foldl (fun o name => match o with Some z => if f name =? 0 then None else Some (Z.lor z (f name)) | None => None end) (Some flags) names.

Lemma rfold_names f names flags flags' : read_names f flags names = Some flags' -> rfold (add_flag f) flags (map JString names) = Parsed flags'.
Proof.
  unfold read_names. revert flags. induction names as [|name names IH]; intros flags; cbn [foldl map rfold]; [by intros [= <-]|].
  unfold add_flag. rewrite string_value. destruct (f name =? 0); [|intros E; by apply IH].
  intros E. exfalso. clear IH. induction names as [|n names IH]; [done|]. by apply IH.
Qed.

Definition names_ok (flags : Z) : bool :=
  match read_names readResourceType 0 (flag_names resource_names flags) with
  | Some f => match read_names readLoadType f (flag_names load_names flags) with Some f' => f' =? flags | None => false end
  | None => false
  end.

Lemma named_flags_range flags : flags_ok flags -> 0 <= flags < 4096.
Proof.
  intros [H0 Hl]. split; [done|]. destruct (Z.lt_ge_cases flags 4096) as [|Hge]; [done|]. exfalso.
  assert (Hlog : 12 <= Z.log2 flags) by (change 12 with (Z.log2 4096); by apply Z.log2_le_mono).
  assert (E : Z.log2 (Z.lor flags namedFlags) = Z.log2 namedFlags) by (by rewrite Hl).
  rewrite Z.log2_lor in E by (done || by vm_compute). change (Z.log2 namedFlags) with 11 in E. lia.
Qed.

Lemma names_read flags : flags_ok flags -> names_ok flags = true.
Proof.
  intros Hf. pose proof (named_flags_range flags Hf) as Hr.
  assert (Ha : forallb (fun f => negb (Z.lor f namedFlags =? namedFlags) || names_ok f) (seqZ 0 4096) = true) by (vm_compute; reflexivity).
  rewrite forallb_forall in Ha. specialize (Ha flags). rewrite <- list_elem_of_In, elem_of_seqZ in Ha. specialize (Ha Hr). destruct Hf as [_ Hl].
  rewrite Hl, Z.eqb_refl in Ha. done.
Qed.

Lemma rfold_domains ds : forall acc, forallb domain_ok ds = true -> rfold add_domain acc (map JString ds) = Parsed (acc ++ ds).
Proof.
  induction ds as [|d ds IH]; intros acc Hd; cbn [map rfold]; [by rewrite app_nil_r|]. cbn [forallb] in Hd. apply andb_true_iff in Hd as [Hd Hds].
  unfold domain_ok in Hd. apply andb_true_iff in Hd as [[He Ha]%andb_true_iff _]. unfold add_domain. apply negb_true_iff in He. rewrite He, Ha. cbn [negb rbind].
  rewrite IH by done. by rewrite <- app_assoc.
Qed.

Lemma trigger_roundtrip t a : trigger_ok t = true -> loadTrigger (JObject [property "trigger" (encode_trigger t); a]) = Parsed t.
Proof.
  intros Ht. unfold trigger_ok in Ht. rewrite !andb_true_iff in Ht. destruct Ht as [[[[[He Hw] Hl] Hp] Hd] Hc]. apply negb_true_iff in He.
  assert (Hf : flags_ok (t_flags t)) by (split; lia). apply names_read in Hf. unfold names_ok in Hf.
  destruct (read_names readResourceType 0 (flag_names resource_names (t_flags t))) as [f|] eqn:E1; [|done].
  destruct (read_names readLoadType f (flag_names load_names (t_flags t))) as [f'|] eqn:E2; [|done]. apply Z.eqb_eq in Hf as ->.
  apply rfold_names in E1, E2. destruct t as [u cs fl ds dc]. cbn [t_urlFilter t_urlFilterIsCaseSensitive t_flags t_domains t_domainCondition] in *.
  change (json_get (JObject [property "trigger" (encode_trigger (mkTrigger u cs fl ds dc)); a]) "trigger") with (Some (encode_trigger (mkTrigger u cs fl ds dc))).
  unfold loadTrigger. set (o := encode_trigger (mkTrigger u cs fl ds dc)).
  assert (G0 : json_get (JObject [property "trigger" o; a]) "trigger" = Some o) by done.
  assert (G1 : json_get o "url-filter" = Some (JString u)) by done.
  assert (G2 : json_get o "url-filter-is-case-sensitive" = Some (JBoolean cs)) by done.
  assert (G3 : json_get o "resource-type" = Some (JArray (map JString (flag_names resource_names fl)))) by done.
  assert (G4 : json_get o "load-type" = Some (JArray (map JString (flag_names load_names fl)))) by done.
  rewrite G0. change (isObject o) with true. cbn [negb]. unfold load_url_filter, load_case_sensitivity, load_flags. rewrite G1, G2, G3, G4, He.
  cbn [rbind isObject getTypeFlags negb]. rewrite E1. cbn [rbind]. rewrite E2. cbn [rbind]. unfold load_if_domain, load_unless_domain.
  destruct dc; destruct ds as [|d ds]; try done.
  - assert (G5 : json_get o "if-domain" = Some (JArray (map JString (d :: ds)))) by done. assert (G6 : json_get o "unless-domain" = None) by done.
    rewrite G5. cbn [isObject getDomainList t_domains]. rewrite rfold_domains by done. cbn [app rbind]. by rewrite G6.
  - assert (G5 : json_get o "if-domain" = None) by done. assert (G6 : json_get o "unless-domain" = Some (JArray (map JString (d :: ds)))) by done.
    rewrite G5. cbn [rbind]. rewrite G6. cbn [isObject getDomainList t_domains t_domainCondition]. rewrite bool_decide_true by done. cbn [negb]. rewrite rfold_domains by done. done.
Qed.

Lemma action_roundtrip t a : action_ok a = true -> loadAction (JObject [t; property "action" (encode_action a)]) = Parsed (Some a) \/ s_is t.1 "action" = true.
Proof.
  intros Ha. destruct (s_is t.1 "action") eqn:Et; [by right|]. left. unfold action_ok in Ha. rewrite !andb_true_iff in Ha. destruct Ha as [[Hi Hn] Hs].
  apply bool_decide_eq_true in Hi. apply Z.eqb_eq in Hn. destruct a as [i ty n s]. cbn [m_extensionIdentifier m_type m_actionID m_stringArgument] in *. subst i n. unfold loadAction.
  assert (G0 : json_get (JObject [t; property "action" (encode_action (mkAction emptyString ty UINT32_MAX s))]) "action" = Some (encode_action (mkAction emptyString ty UINT32_MAX s))).
  { cbn [json_get List.find]. by rewrite Et. }
  rewrite G0. destruct ty; try done; try (apply bool_decide_eq_true in Hs as ->; done).
  apply andb_true_iff in Hs as [Hv _]. set (o := encode_action _).
  assert (G1 : json_get o "type" = Some (JString (s_literal "css-display-none"))) by done. assert (G2 : json_get o "selector" = Some (JString s)) by done.
  change (isObject o) with true. cbn [negb]. rewrite G1, G2, Hv. done.
Qed.

Lemma rule_roundtrip r l : rule_ok r = true -> load_element l (encode_rule r) = Parsed (l ++ [r]).
Proof.
  unfold rule_ok. intros [Ht Ha]%andb_true_iff. cbn [load_element encode_rule]. unfold loadRule, encode_rule. rewrite trigger_roundtrip by done. cbn [rbind].
  destruct (action_roundtrip (property "trigger" (encode_trigger (r_trigger r))) (r_action r) Ha) as [E|E]; [|done]. rewrite E. cbn [rbind]. by destruct r.
Qed.

Lemma rules_roundtrip rules : forall l, forallb rule_ok rules = true -> rfold load_element l (map encode_rule rules) = Parsed (l ++ rules).
Proof.
  induction rules as [|r rules IH]; intros l Hr; cbn [map rfold]; [by rewrite app_nil_r|]. cbn [forallb] in Hr. apply andb_true_iff in Hr as [Hr Hrs].
  rewrite rule_roundtrip by done. cbn [rbind]. rewrite IH by done. by rewrite <- app_assoc.
Qed.
End Encoded.

(** ** The properties *)

(** What the JSON parser and the string conversion are documented to do: the
    strings of a parsed value fit the width of their buffers, and a string
    converts to itself. *)
Class ParserLaws `{Parsers} : Prop := {
  parsed_width : forall text v, JSONParse text = Some v -> json_width v;
  string_value_law : forall s, toWTFString (JString s) = s
}.

(** What the parser returns. *)
Lemma parsed_rules_ok `{ParserLaws} text rules : parseRuleList text = Parsed rules ->
  forallb rule_ok rules = true /\ 0 < vsize rules <= maxRuleCount /\ rules_ok rules.
Proof.
  unfold parseRuleList, loadEncodedRules. destruct (JSONParse text) as [v|] eqn:Ev; [|done]. apply parsed_width in Ev. destruct (isObject v); [|done]. cbn [negb].
  destruct v as [| | | |elements|]; try done. destruct (Z.ltb_spec maxRuleCount (vsize elements)) as [|Hm]; [done|].
  destruct (rfold load_element [] elements) as [l|] eqn:E; [|done]. cbn [rbind]. apply json_width_array in Ev.
  destruct (load_elements_ok elements [] l Ev eq_refl E) as [Hok Hs]. change (vsize (@nil ContentExtensionRule)) with 0 in Hs.
  intros El. assert (l = rules) as -> by (destruct l; congruence). destruct rules as [|r rules]; [done|]. split; [done|]. split; [rewrite vsize_cons in *; pose proof (vsize_nonneg rules); lia|].
  apply Forall_forall. intros x Hx%list_elem_of_In. rewrite forallb_forall in Hok. apply Hok, andb_true_iff in Hx as [_ Ha].
  unfold action_ok in Ha. rewrite !andb_true_iff in Ha. destruct Ha as [_ Ha]. change (serializable (m_type (r_action x)) = true /\ width_ok (m_stringArgument (r_action x))). destruct (m_type (r_action x)); try done.
  1,2,4,5: apply bool_decide_eq_true in Ha as ->; split; [done|constructor].
  apply andb_true_iff in Ha as [_ Hw]. split; [done|by apply width_okb_sound].
Qed.

(** C36: Every rule of a rule list that parses is valid: its filter is not
    empty, its flags have names, its domains are non-empty lower case ASCII and
    present exactly with a condition, its action is one that can be serialized
    and a selector is one that the CSS parser accepts; the list is not empty and
    has at most 50000 rules.  Such lists satisfy what the serialization of
    actions asks for. *)
Theorem parsed_rules_valid `{ParserLaws} text rules : parseRuleList text = Parsed rules ->
  forallb rule_ok rules = true /\ 0 < vsize rules <= maxRuleCount /\ rules_ok rules.
Proof. apply parsed_rules_ok. Qed.

(** C18: Rule lists round trip through JSON: if the JSON parser decodes a text to
    the encoding of a list of valid rules, of a length between 1 and 50000, then
    parsing that text returns exactly these rules, with their flags rebuilt from
    the names of resource and load types. *)
Theorem rule_list_roundtrip `{ParserLaws} text rules : forallb rule_ok rules = true -> 0 < vsize rules <= maxRuleCount ->
  JSONParse text = Some (encode_rules rules) -> parseRuleList text = Parsed rules.
Proof.
  intros Hr Hs E. unfold parseRuleList, loadEncodedRules. rewrite E. cbn [isObject encode_rules negb].
  destruct (Z.ltb_spec maxRuleCount (vsize (map encode_rule rules))) as [Hl|_]; [unfold vsize in *; rewrite length_map in Hl; lia|].
  rewrite rules_roundtrip; [|apply string_value_law|done]. cbn [app rbind]. destruct rules; [change (vsize (@nil ContentExtensionRule)) with 0 in Hs; lia|done].
Qed.

(** *** Witnesses *)

Definition sample_trigger : Trigger := mkTrigger (s_literal "ads") false 0x0402 [s_literal "a.com"] DC_IfDomain.
Definition sample_rule_list : list ContentExtensionRule :=
  [mkRule sample_trigger (newAction BlockLoad UINT32_MAX); mkRule sample_trigger (newActionWithString CSSDisplayNoneSelector (s_literal "#ad") UINT32_MAX)].

(** A JSON parser that knows one text. *)
#[local] Instance sample_parsers : Parsers := {
  JSONParse text := if s_is text "[...]" then Some (encode_rules sample_rule_list) else None;
  toWTFString v := match v with JString s => s | _ => emptyString end;
  isValidSelector _ := true
}.

#[local] Instance sample_laws : ParserLaws.
Proof.
  split; [|done]. intros text v. cbn [JSONParse sample_parsers]. destruct (s_is text "[...]"); [|done]. intros [= <-]. cbn.
  repeat split; apply width_okb_sound; vm_compute; reflexivity.
Qed.

Lemma parsed_rules_valid_witness : parseRuleList (s_literal "[...]") = Parsed sample_rule_list /\
  forallb rule_ok sample_rule_list = true /\ 0 < vsize sample_rule_list <= maxRuleCount /\ rules_ok sample_rule_list.
Proof. split; [vm_compute; reflexivity|]. apply (parsed_rules_valid (s_literal "[...]") sample_rule_list). vm_compute. reflexivity. Defined.

Lemma rule_list_roundtrip_witness : parseRuleList (s_literal "[...]") = Parsed sample_rule_list.
Proof. apply (rule_list_roundtrip (s_literal "[...]") sample_rule_list); [vm_compute; reflexivity|split; vm_compute; [reflexivity|discriminate]|vm_compute; reflexivity]. Defined.
