(* ===== verification/RuleListCompiler.v ===== *)
(** * Compiling a rule list (ContentExtensionCompiler.cpp)

    [compileRuleList] composes the whole pipeline: the rule list is parsed, its
    actions are serialized, its filters are partitioned into those without and
    with domains and the domains themselves, and each group becomes automata in
    bytecode.  The client is what it was given to write. *)

From S2P Require Import Prelude Containers Strings ResourceLoad Nfa Term CombinedFilters YarrParser UrlFilterParser Dfa NfaToDfa DfaMerger DfaMinimizer DfaCombiner.
From S2P Require Import Bytecode Rules BytecodeCompiler RuleListParser Backend.

(** [ContentExtensionCompilationClient]: the writes, in order. *)
Record client := mkClient {
  w_actions : list Z;
  w_filtersWithoutDomains : list (list Z);
  w_filtersWithDomains : list (list Z);
  w_domainFilters : list (list Z);
  w_finalized : bool
}.

Definition emptyClient : client := mkClient [] [] [] [] false.

(** A client that stores what is written one after the other. *)
Definition compiled_extension (c : client) : CompiledContentExtension :=
  mkCompiled (concat (w_filtersWithoutDomains c)) (concat (w_filtersWithDomains c)) (concat (w_domainFilters c)) (w_actions c).

(** The filters, by group, and the actions that match everything. *)
Record partition := mkPartitionedRules {
  filtersWithoutDomains : CombinedURLFilters;
  filtersWithDomains : CombinedURLFilters;
  domainFilters : CombinedURLFilters;
  universalWithoutDomains : list Z;
  universalWithDomains : list Z
}.

Definition emptyPartitionedRules : partition := mkPartitionedRules emptyCombinedURLFilters emptyCombinedURLFilters emptyCombinedURLFilters [] [].

Definition maxNFASize : Z := 75000.
Definition smallDFASize : Z := 100.

Section Compiler.
Context `{HashOrder} `{Parsers}.
(** Fuel of the subset construction. *)
Variable fuel : nat.

Definition addUniversalActionsToDFA (dfa : DFA) (universalActions : list Z) : outcome DFA :=
  match universalActions with
  | [] => Done dfa
  | _ =>
      let* root := vget (dfa_nodes dfa) (dfa_root dfa) in
      let actionsStart := vsize (dfa_actions dfa) in
      let actions := dfa_actions dfa ++ universalActions in
      let actionsLength := vsize actions - actionsStart in
      let* _ := release_assert (actionsLength <? UINT16_MAX) in
      let* nodes := vset (dfa_nodes dfa) (dfa_root dfa) (setActions root actionsStart actionsLength) in
      Done (mkDFA nodes actions (dfa_transitionRanges dfa) (dfa_transitionDestinations dfa) (dfa_root dfa))
  end.

(** ** Partitioning the rules *)

Definition add_rule_without_domains (p : partition) (trigger : Trigger) (actionLocationAndFlags : Z) : outcome (result partition) :=
  let* (filters, status) := url_filter_addPattern (filtersWithoutDomains p) (t_urlFilter trigger) (t_urlFilterIsCaseSensitive trigger) actionLocationAndFlags in
  Done (match status with
        | Ok => Parsed (mkPartitionedRules filters (filtersWithDomains p) (domainFilters p) (universalWithoutDomains p) (universalWithDomains p))
        | MatchesEverything =>
            Parsed (mkPartitionedRules filters (filtersWithDomains p) (domainFilters p) (hs_add (universalWithoutDomains p) actionLocationAndFlags) (universalWithDomains p))
        | _ => Failed JSONInvalidRegex
        end).

Definition add_rule_with_domains (p : partition) (trigger : Trigger) (actionLocationAndFlags : Z) : outcome (result partition) :=
  let action := match t_domainCondition trigger with DC_IfDomain => Z.lor actionLocationAndFlags IfDomainFlag | _ => actionLocationAndFlags end in
  let* (filters, status) := url_filter_addPattern (filtersWithDomains p) (t_urlFilter trigger) (t_urlFilterIsCaseSensitive trigger) action in
  let added universal :=
    let* domains := ofold (fun f domain => addDomain f action (s_chars domain)) (domainFilters p) (t_domains trigger) in
    Done (Parsed (mkPartitionedRules (filtersWithoutDomains p) filters domains (universalWithoutDomains p) universal)) in
  match status with
  | Ok => added (universalWithDomains p)
  | MatchesEverything => added (hs_add (universalWithDomains p) action)
  | _ => Done (Failed JSONInvalidRegex)
  end.

Definition add_rule (p : partition) (rule : ContentExtensionRule * Z) : outcome (result partition) :=
  let (contentExtensionRule, actionLocation) := rule in
  let trigger := r_trigger contentExtensionRule in
  let actionLocationAndFlags := Z.lor (Z.shiftl (t_flags trigger) 32) actionLocation in
  match t_domains trigger with
  | [] => add_rule_without_domains p trigger actionLocationAndFlags
  | _ => add_rule_with_domains p trigger actionLocationAndFlags
  end.

(** The loop over the rules; it stops at the first error. *)
Fixpoint partition_rules (p : partition) (rules : list (ContentExtensionRule * Z)) : outcome (result partition) :=
  match rules with
  | [] => Done (Parsed p)
  | rule :: rules' =>
      let* r := add_rule p rule in
      match r with
      | Parsed p' => partition_rules p' rules'
      | Failed error => Done (Failed error)
      end
  end.

(** ** From filters to bytecode *)

(** Whether a DFA was lowered, and the bytecode that was written. *)
Definition lowering : Type := bool * list (list Z).

(** [lowerFiltersWithoutDomainsDFAToBytecode], [lowerFiltersWithDomainsDFAToBytecode]. *)
Definition lower_dfa (universalActions : list Z) (s : lowering) (dfa : DFA) : outcome lowering :=
  let (firstSeen, written) := s in
  let* dfa' := if firstSeen then Done dfa else addUniversalActionsToDFA dfa universalActions in
  let* bytecode := compile dfa' [] in
  Done (true, written ++ [bytecode]).

(** The handler of [processNFAs]: small DFAs go to the combiner. *)
Definition handle_nfa (universalActions : list Z) (s : list DFA * lowering) (nfa : NFA) : outcome (list DFA * lowering) :=
  let (small, lowered) := s in
  let* dfa := convert fuel nfa in
  if graphSize dfa <? smallDFASize then
    let* small' := addDFA small dfa in Done (small', lowered)
  else
    let* dfa' := minimize dfa in
    let* lowered' := lower_dfa universalActions lowered dfa' in
    Done (small, lowered').

Definition compile_filters (filters : CombinedURLFilters) (universalActions : list Z) : outcome (list (list Z)) :=
  let* nfas := processNFAs filters maxNFASize in
  let* (small, lowered) := ofold (handle_nfa universalActions) ([], (false, [])) nfas in
  let* dfas := combineDFAs smallDFASize small in
  let* (firstSeen, written) := ofold (lower_dfa universalActions) lowered dfas in
  if firstSeen then Done written
  else
    let* dummyDFA := addUniversalActionsToDFA DFA_empty universalActions in
    let* bytecode := compile dummyDFA [] in
    Done (written ++ [bytecode]).

Definition compile_domain_nfa (written : list (list Z)) (nfa : NFA) : outcome (list (list Z)) :=
  let* dfa := convert fuel nfa in
  let* bytecode := compile dfa [] in
  Done (written ++ [bytecode]).

Definition compile_domains (filters : CombinedURLFilters) : outcome (list (list Z)) :=
  let* nfas := processNFAs filters maxNFASize in
  ofold compile_domain_nfa [] nfas.

(** ** The whole compilation *)

(** The actions of the client have been written. *)
Definition compile_rules (rules : list ContentExtensionRule) : outcome (client * option ContentExtensionError) :=
  let* (actions, actionLocations) := serializeActions rules in
  let* partitioned := partition_rules emptyPartitionedRules (zip rules actionLocations) in
  match partitioned with
  | Failed error => Done (mkClient actions [] [] [] false, Some error)
  | Parsed p =>
      let* without := compile_filters (filtersWithoutDomains p) (universalWithoutDomains p) in
      let* withd := compile_filters (filtersWithDomains p) (universalWithDomains p) in
      let* domains := compile_domains (domainFilters p) in
      Done (mkClient actions without withd domains true, None)
  end.

Definition compileRuleList (ruleList : WTFString) : outcome (client * option ContentExtensionError) :=
  match parseRuleList ruleList with
  | Failed error => Done (emptyClient, Some error)
  | Parsed parsedRuleList => compile_rules parsedRuleList
  end.
End Compiler.
