(* ===== verification/IpcCoders.v ===== *)
(** * Arguments of messages between processes
    (WebKit2/Platform/IPC/ArgumentEncoder.cpp, ArgumentDecoder.cpp,
    ArgumentCoders.h, ArgumentCoders.cpp, Attachment.cpp,
    WebKit2/Platform/mac/SharedMemoryMac.cpp,
    WebKit2/Shared/WebCompiledContentExtensionData.cpp)

    Values are written to a buffer at their alignment; what cannot be copied is
    attached to the message.  Attachments are taken off the end of a vector that
    the connection has reversed.  [ArgumentCoder] is the template of the code,
    with the law that decoding undoes encoding wherever the value is put. *)

From S2P Require Import Prelude Containers Strings Bytecode Rules PosixFiles.

#[local] Arguments vsize {A} v : simpl never.

(** ** Encoder and decoder *)

(** [ArgumentEncoder]: what has been written, and the attachments (ports).  The
    bytes that are skipped for alignment are whatever the buffer has there. *)
Record ArgumentEncoder := mkEncoder { e_buffer : list Z; e_attachments : list Z }.

(** [ArgumentDecoder]: the buffer, the position and the attachments. *)
Record ArgumentDecoder := mkArgumentDecoder { d_buffer : list Z; d_bufferPos : Z; d_attachments : list Z }.

(** [roundUpToAlignment] of ArgumentEncoder.cpp. *)
Definition roundUpToAlignment (value alignment : Z) : Z := (value + alignment - 1) / alignment * alignment.

(** [roundUpToAlignment] of ArgumentDecoder.cpp; the buffer is aligned for every
    type. *)
Definition alignPosition (position alignment : Z) : Z := Z.land (position + (alignment - 1)) (Z.lnot (alignment - 1)).

Section Coders.
(** What is in the memory of the buffer before it is written. *)
Variable garbage : Z -> Z.

(** [grow], with the bytes that are then copied. *)
Definition grow (e : ArgumentEncoder) (alignment : Z) (data : list Z) : ArgumentEncoder :=
  let size := vsize (e_buffer e) in
  let alignedSize := roundUpToAlignment size alignment in
  mkEncoder (e_buffer e ++ map garbage (seqZ size (alignedSize - size)) ++ data) (e_attachments e).

(** [encodeFixedLengthData]. *)
Definition encodeFixedLengthData (e : ArgumentEncoder) (data : list Z) (alignment : Z) : ArgumentEncoder := grow e alignment data.

(** [encode] of an integer with [n] bytes. *)
Definition encode_number (n : nat) (e : ArgumentEncoder) (value : Z) : ArgumentEncoder := grow e (Z.of_nat n) (le_bytes n value).

Definition addAttachment (e : ArgumentEncoder) (attachment : Z) : ArgumentEncoder := mkEncoder (e_buffer e) (e_attachments e ++ [attachment]).

(** [bufferIsLargeEnoughToContain(alignment, size)]. *)
Definition isLargeEnough (d : ArgumentDecoder) (alignment size : Z) : bool :=
  let alignedPosition := alignPosition (d_bufferPos d) alignment in
  (alignedPosition <=? vsize (d_buffer d)) && (size <=? vsize (d_buffer d) - alignedPosition).

(** [decodeFixedLengthData]: [None] when the decoder becomes invalid. *)
Definition decodeFixedLengthData (d : ArgumentDecoder) (size alignment : Z) : option (list Z * ArgumentDecoder) :=
  let alignedPosition := alignPosition (d_bufferPos d) alignment in
  if isLargeEnough d alignment size
  then Some (take (Z.to_nat size) (drop (Z.to_nat alignedPosition) (d_buffer d)), mkArgumentDecoder (d_buffer d) (alignedPosition + size) (d_attachments d))
  else None.

Definition decode_number (n : nat) (d : ArgumentDecoder) : option (Z * ArgumentDecoder) :=
  match decodeFixedLengthData d (Z.of_nat n) (Z.of_nat n) with
  | Some (bytes, d') => Some (le_value bytes, d')
  | None => None
  end.

(** [removeAttachment] takes the last one. *)
Definition removeAttachment (d : ArgumentDecoder) : option (Z * ArgumentDecoder) :=
  match last (d_attachments d) with
  | Some attachment => Some (attachment, mkArgumentDecoder (d_buffer d) (d_bufferPos d) (take (length (d_attachments d) - 1) (d_attachments d)))
  | None => None
  end.

(** The message as the connection of the receiver makes it: the attachments are
    in the opposite order (ConnectionUnix.cpp, ConnectionMac.mm). *)
Definition received (e : ArgumentEncoder) (position : Z) : ArgumentDecoder := mkArgumentDecoder (e_buffer e) position (reverse (e_attachments e)).

(** ** Coders *)

Definition dec (T : Type) : Type := ArgumentDecoder -> option (T * ArgumentDecoder).

Definition dec_ret {T} (t : T) : dec T := fun d => Some (t, d).
Definition dec_bind {A B} (m : dec A) (f : A -> dec B) : dec B := fun d => match m d with Some (a, d') => f a d' | None => None end.

(** From [e] to [e'] a value was written that [decode] reads: wherever the bytes
    and the attachments are followed by others, it gives the value and goes past
    them. *)
Definition coded {T} (e e' : ArgumentEncoder) (decode : dec T) (t : T) : Prop :=
  exists bytes attached, e' = mkEncoder (e_buffer e ++ bytes) (e_attachments e ++ attached) /\
    forall rest more, decode (mkArgumentDecoder (e_buffer e ++ bytes ++ rest) (vsize (e_buffer e)) (more ++ reverse attached)) =
      Some (t, mkArgumentDecoder (e_buffer e ++ bytes ++ rest) (vsize (e_buffer e ++ bytes)) more).

Lemma coded_ret {T} e (t : T) : coded e e (dec_ret t) t.
Proof. exists [], []. rewrite !app_nil_r. split; [by destruct e|]. intros rest more. by rewrite reverse_nil, app_nil_r. Qed.

(** One value after the other. *)
Lemma coded_bind {A B} e e1 e2 (m : dec A) (f : A -> dec B) a b : coded e e1 m a -> coded e1 e2 (f a) b -> coded e e2 (dec_bind m f) b.
Proof.
  intros (bytes1 & at1 & -> & H1) (bytes2 & at2 & -> & H2). cbn [e_buffer e_attachments] in *. exists (bytes1 ++ bytes2), (at1 ++ at2). split; [by rewrite !app_assoc|]. intros rest more.
  unfold dec_bind. rewrite reverse_app, (app_assoc more), <- (app_assoc bytes1 bytes2 rest), H1. specialize (H2 rest more). rewrite <- !app_assoc in *. exact H2.
Qed.

(** [encode] gives an encoder with a value that [decode] reads. *)
Definition encodes {T} (e : ArgumentEncoder) (encoded : outcome ArgumentEncoder) (decode : dec T) (t : T) : Prop :=
  exists e', encoded = Done e' /\ coded e e' decode t.

Lemma encodes_bind {A B} e o (g : ArgumentEncoder -> outcome ArgumentEncoder) (m : dec A) (f : A -> dec B) a b :
  encodes e o m a -> (forall e1, encodes e1 (g e1) (f a) b) -> encodes e (obind o g) (dec_bind m f) b.
Proof. intros (e1 & -> & H1) Hg. destruct (Hg e1) as (e2 & E2 & H2). exists e2. split; [done|]. by eapply coded_bind. Qed.

(** What follows the last value only computes. *)
Lemma encodes_map {A B} e o (m : dec A) (f : A -> B) a : encodes e o m a -> encodes e o (dec_bind m (fun x => dec_ret (f x))) (f a).
Proof. intros (e1 & -> & H1). exists e1. split; [done|]. eapply coded_bind; [exact H1|apply coded_ret]. Qed.

(** [ArgumentCoder<T>] with its law: what can be sent arrives. *)
Class ArgumentCoder (T : Type) := {
  encode_argument : ArgumentEncoder -> T -> outcome ArgumentEncoder;
  decode_argument : dec T;
  sendable : T -> Prop;
  arrives : T -> T;
  coder_law : forall e t, sendable t -> encodes e (encode_argument e t) decode_argument (arrives t)
}.

(** *** Alignment *)

Lemma align_same p k : 0 <= p -> 0 <= k -> alignPosition p (2 ^ k) = roundUpToAlignment p (2 ^ k).
Proof.
  intros Hp Hk. unfold alignPosition, roundUpToAlignment. replace (2 ^ k - 1) with (Z.ones k) by (rewrite Z.ones_equiv; lia).
  rewrite <- Z.ldiff_land, Z.ldiff_ones_r by done. rewrite Z.shiftl_mul_pow2, Z.shiftr_div_pow2 by done. do 2 f_equal. rewrite Z.ones_equiv. lia.
Qed.

Lemma roundUp_bound p a : 0 <= p -> 0 < a -> p <= roundUpToAlignment p a.
Proof. intros Hp Ha. unfold roundUpToAlignment. pose proof (Z.div_mod (p + a - 1) a). pose proof (Z.mod_pos_bound (p + a - 1) a). lia. Qed.

(** Data that was put at an alignment is read back. *)
Lemma grow_coded e k data : 0 <= k -> coded e (grow e (2 ^ k) data) (fun d => decodeFixedLengthData d (vsize data) (2 ^ k)) data.
Proof.
  intros Hk. unfold grow. set (size := vsize (e_buffer e)). set (aligned := roundUpToAlignment size (2 ^ k)). exists (map garbage (seqZ size (aligned - size)) ++ data), []. split; [by rewrite (app_nil_r (e_attachments e))|]. intros rest more.
  assert (0 <= size) by apply vsize_nonneg. assert (Hal : size <= aligned) by (apply roundUp_bound; [done|by apply Z.pow_pos_nonneg]). pose proof (vsize_nonneg data). pose proof (vsize_nonneg rest).
  set (pad := map garbage (seqZ size (aligned - size))). assert (Hpad : vsize pad = aligned - size) by (unfold vsize, pad; rewrite length_map, length_seqZ; lia).
  unfold decodeFixedLengthData, isLargeEnough. cbn [d_buffer d_bufferPos d_attachments]. fold size. rewrite align_same by lia. fold aligned. rewrite !vsize_app. fold size. rewrite Hpad.
  destruct (Z.leb_spec aligned (size + (aligned - size + vsize data + vsize rest))); [|lia].
  destruct (Z.leb_spec (vsize data) (size + (aligned - size + vsize data + vsize rest) - aligned)); [|lia]. cbn [andb].
  assert (Hl : length (e_buffer e ++ pad) = Z.to_nat aligned). { apply (inj Z.of_nat). change (Z.of_nat (length (e_buffer e ++ pad))) with (vsize (e_buffer e ++ pad)). rewrite vsize_app. fold size. lia. }
  rewrite reverse_nil, app_nil_r. replace (e_buffer e ++ (pad ++ data) ++ rest) with ((e_buffer e ++ pad) ++ data ++ rest) by (by rewrite <- !app_assoc).
  f_equal. f_equal; [|f_equal; lia]. rewrite <- Hl, drop_app_length. unfold vsize. rewrite Nat2Z.id. apply take_app_length.
Qed.

(** *** Numbers *)

Lemma number_coded e k value n : 0 <= k -> Z.of_nat n = 2 ^ k -> 0 <= value < 256 ^ Z.of_nat n -> coded e (encode_number n e value) (decode_number n) value.
Proof.
  intros Hk Hn Hv. unfold encode_number. rewrite Hn. destruct (grow_coded e k (le_bytes n value) Hk) as (bytes & at_ & E & Hd). exists bytes, at_. split; [done|]. intros rest more.
  unfold decode_number. specialize (Hd rest more). cbn beta in Hd. rewrite vsize_le_bytes in Hd. rewrite Hn in *. rewrite Hd. rewrite le_value_bytes, Z.mod_small by (rewrite Hn in *; lia). done.
Qed.

Lemma number_encodes e k value n : 0 <= k -> Z.of_nat n = 2 ^ k -> 0 <= value < 256 ^ Z.of_nat n -> encodes e (Done (encode_number n e value)) (decode_number n) value.
Proof. intros Hk Hn Hv. eexists. split; [done|]. by eapply number_coded. Qed.

(** [encode] and [decode] of [bool]. *)
Definition encode_bool (e : ArgumentEncoder) (b : bool) : ArgumentEncoder := encode_number 1 e (Z.b2z b).
Definition decode_bool : dec bool := dec_bind (decode_number 1) (fun v => dec_ret (negb (v =? 0))).

Lemma bool_coded e b : coded e (encode_bool e b) decode_bool b.
Proof.
  eapply coded_bind; [apply (number_coded e 0 (Z.b2z b) 1); [done|done|by destruct b]|]. cbn beta. assert (E : negb (Z.b2z b =? 0) = b) by (by destruct b). rewrite E. apply coded_ret.
Qed.

(** *** Strings, pairs and vectors *)

(** [ArgumentCoder<String>]; a null string has the largest length. *)
Definition encode_string (e : ArgumentEncoder) (string : option WTFString) : ArgumentEncoder :=
  match string with
  | None => encode_number 4 e UINT32_MAX
  | Some s =>
      let e1 := encode_number 4 e (u32 (s_length s)) in
      let e2 := encode_bool e1 (s_is8Bit s) in
      if s_is8Bit s then encodeFixedLengthData e2 (s_chars s) 1
      else encodeFixedLengthData e2 (concat (map (le_bytes 2) (s_chars s))) 2
  end.

(** [decodeStringText<CharacterType>] for a type with [size] bytes. *)
Definition decodeStringText (size length : Z) (read : list Z -> WTFString) : dec (option WTFString) := fun d =>
  if isLargeEnough d size (length * size)
  then dec_bind (fun d => decodeFixedLengthData d (length * size) size) (fun bytes => dec_ret (Some (read bytes))) d
  else None.

Definition decode_string : dec (option WTFString) :=
  dec_bind (decode_number 4) (fun length =>
    if length =? UINT32_MAX then dec_ret None
    else
      dec_bind decode_bool (fun is8Bit =>
        if is8Bit : bool then decodeStringText 1 length (mkString true)
        else decodeStringText 2 length (fun bytes => mkString false (wide_chars bytes)))).

(** The length of a string fits, and its buffer holds its characters. *)
Definition string_sendable (string : option WTFString) : Prop :=
  match string with None => True | Some s => s_length s < UINT32_MAX /\ width_ok s end.

Lemma text_coded e k data length read s : 0 <= k -> vsize data = length * 2 ^ k -> read data = s ->
  coded e (encodeFixedLengthData e data (2 ^ k)) (decodeStringText (2 ^ k) length read) (Some s).
Proof.
  intros Hk Hl <-. destruct (grow_coded e k data Hk) as (bytes & at_ & E & Hd). exists bytes, at_. split; [done|]. intros rest more. specialize (Hd rest more). cbn beta in Hd.
  unfold decodeStringText. rewrite <- Hl. unfold dec_bind. rewrite Hd. unfold decodeFixedLengthData in Hd. destruct (isLargeEnough _ _ _); [done|discriminate].
Qed.

Lemma string_coded e string : string_sendable string -> coded e (encode_string e string) decode_string string.
Proof.
  destruct string as [s|]; cbn [string_sendable encode_string].
  - intros [Hl Hw]. assert (0 <= s_length s) by (unfold s_length; apply vsize_nonneg). unfold UINT32_MAX in Hl. rewrite u32_small by lia.
    eapply coded_bind; [apply (number_coded e 2 (s_length s) 4); [done|done|change (256 ^ Z.of_nat 4) with (2 ^ 32); lia]|]. unfold UINT32_MAX. destruct (Z.eqb_spec (s_length s) (2 ^ 32 - 1)); [lia|].
    eapply coded_bind; [apply (bool_coded _ (s_is8Bit s))|]. destruct s as [[] l]; cbn [s_is8Bit s_chars].
    + apply (text_coded _ 0); [done|unfold s_length; cbn [s_chars]; lia|done].
    + apply (text_coded _ 1); [done|rewrite length_wide; unfold s_length; cbn [s_chars]; lia|]. by rewrite wide_chars_bytes.
  - intros _. eapply coded_bind; [by apply (number_coded e 2 UINT32_MAX 4)|]. apply coded_ret.
Qed.

#[export] Instance coder_string : ArgumentCoder (option WTFString).
Proof using garbage.
  refine {| encode_argument e s := Done (encode_string e s); decode_argument := decode_string; sendable := string_sendable; arrives s := s |}.
  intros e s Hs. eexists. split; [done|]. by apply string_coded.
Defined.

(** [ArgumentCoder<std::pair<T, U>>]. *)
Definition encode_pair {T U} `{ArgumentCoder T} `{ArgumentCoder U} (e : ArgumentEncoder) (p : T * U) : outcome ArgumentEncoder :=
  let* e := encode_argument e p.1 in encode_argument e p.2.
Definition decode_pair {T U} `{ArgumentCoder T} `{ArgumentCoder U} : dec (T * U) :=
  dec_bind decode_argument (fun first => dec_bind decode_argument (fun second => dec_ret (first, second))).

#[export] Instance coder_pair {T U} `{ArgumentCoder T} `{ArgumentCoder U} : ArgumentCoder (T * U).
Proof using.
  refine {| encode_argument := encode_pair; decode_argument := decode_pair; sendable p := sendable p.1 /\ sendable p.2; arrives p := (arrives p.1, arrives p.2) |}.
  intros e [t u] [Ht Hu]. eapply encodes_bind; [by apply coder_law|]. intros e1. by apply encodes_map, coder_law.
Defined.

(** [VectorArgumentCoder<false, T>]. *)
Fixpoint encode_elements {T} `{ArgumentCoder T} (e : ArgumentEncoder) (v : list T) : outcome ArgumentEncoder :=
  match v with
  | [] => Done e
  | t :: v' => let* e := encode_argument e t in encode_elements e v'
  end.
Definition encode_vector {T} `{ArgumentCoder T} (e : ArgumentEncoder) (v : list T) : outcome ArgumentEncoder :=
  encode_elements (encode_number 8 e (vsize v)) v.
Fixpoint decode_elements {T} `{ArgumentCoder T} (n : nat) : dec (list T) :=
  match n with
  | O => dec_ret []
  | S n' => dec_bind decode_argument (fun t => dec_bind (decode_elements n') (fun l => dec_ret (t :: l)))
  end.
Definition decode_vector {T} `{ArgumentCoder T} : dec (list T) := dec_bind (decode_number 8) (fun size => decode_elements (Z.to_nat size)).

Lemma elements_coded {T} `{ArgumentCoder T} v : forall e, Forall sendable v -> encodes e (encode_elements e v) (decode_elements (length v)) (map arrives v).
Proof.
  induction v as [|t v IH]; intros e Hv; [eexists; split; [done|apply coded_ret]|]. apply Forall_cons in Hv as [Ht Hv]. eapply encodes_bind; [by apply coder_law|].
  intros e1. by apply (encodes_map _ _ _ (cons (arrives t))), IH.
Qed.

#[export] Instance coder_vector {T} `{ArgumentCoder T} : ArgumentCoder (list T).
Proof using garbage.
  refine {| encode_argument := encode_vector; decode_argument := decode_vector; sendable v := vsize v < 2 ^ 64 /\ Forall sendable v; arrives := map arrives |}. intros e v [Hl Hv].
  unfold encode_vector. change (encode_elements (encode_number 8 e (vsize v)) v) with (obind (Done (encode_number 8 e (vsize v))) (fun e => encode_elements e v)).
  eapply encodes_bind; [apply (number_encodes e 3 (vsize v) 8); [done|done|pose proof (vsize_nonneg v); change (256 ^ Z.of_nat 8) with (2 ^ 64); lia]|].
  intros e1. unfold vsize. rewrite Nat2Z.id. by apply elements_coded.
Defined.

(** *** Handles of shared memory *)

(** [SharedMemory::Handle::encode]; the port is attached by [MachPort::encode]. *)
Definition encode_handle (e : ArgumentEncoder) (h : SharedMemoryHandle) : ArgumentEncoder :=
  addAttachment (encode_number 8 e (u64 (h_size h))) (h_port h).

Definition decode_handle : dec SharedMemoryHandle :=
  dec_bind (decode_number 8) (fun size => dec_bind removeAttachment (fun port => dec_ret (mkHandle port size))).

Lemma attachment_coded e port : coded e (addAttachment e port) removeAttachment port.
Proof.
  exists [], [port]. rewrite app_nil_r. split; [done|]. intros rest more. unfold removeAttachment. cbn [d_attachments d_buffer d_bufferPos].
  rewrite reverse_singleton, last_snoc, length_app. cbn [length]. replace (length more + 1 - 1)%nat with (length more) by lia. by rewrite take_app_length.
Qed.

Lemma handle_coded e h : 0 <= h_size h < 2 ^ 64 -> coded e (encode_handle e h) decode_handle h.
Proof.
  intros Hh. unfold encode_handle, u64. rewrite Z.mod_small by done. eapply coded_bind; [by apply (number_coded e 3 (h_size h) 8)|]. eapply coded_bind; [apply (attachment_coded _ (h_port h))|]. destruct h. apply coded_ret.
Qed.
End Coders.
