(* ===== verification/ExtensionStore.v ===== *)
(** * The store of compiled extensions
    (WebKit2/UIProcess/API/APIUserContentExtensionStore.cpp,
    WebKit2/NetworkProcess/cache/NetworkCacheEncoder.cpp, NetworkCacheDecoder.cpp,
    WebKit2/Shared/WebCompiledContentExtension.cpp)

    A rule list is compiled to a temporary file, whose header is written last
    and which is then moved to its place.  Looking an extension up maps the file
    and reads the header.  The tasks run on queues of their own. *)

From stdpp Require Import gmap strings.
From S2P Require Import Prelude Containers Strings Bytecode Backend FileNames PosixFiles RuleListParser RuleListCompiler.

(** ** The header *)

(** [Encoder::encodeNumber] of a type with [n] bytes: the bytes in memory.  The
    checksum the encoder keeps is not written here. *)
Definition encodeNumber (n : nat) (buffer : list Z) (value : Z) : list Z := buffer ++ le_bytes n value.

(** [Decoder]: the buffer, its size and the position. *)
Record Decoder := mkDecoder { m_buffer : list Z; m_bufferSize : Z; m_bufferPosition : Z }.

Definition bufferIsLargeEnoughToContain (d : Decoder) (size : Z) : bool := size <=? m_bufferSize d - m_bufferPosition d.

(** [decodeNumber]: [None] when the buffer is too small. *)
Definition decodeNumber (n : nat) (d : Decoder) : outcome (option (Z * Decoder)) :=
  if bufferIsLargeEnoughToContain d (Z.of_nat n) then
    let* bytes := vslice (m_buffer d) (m_bufferPosition d) (m_bufferPosition d + Z.of_nat n) in
    Done (Some (le_value bytes, mkDecoder (m_buffer d) (m_bufferSize d) (m_bufferPosition d + Z.of_nat n)))
  else Done None.

Definition ContentExtensionFileHeaderSize : Z := 4 + 4 * 8.
Definition CurrentContentExtensionFileVersion : Z := 7.

Record ContentExtensionMetaData := mkMetaData {
  version : Z;
  actionsSize : Z;
  filtersWithoutDomainsBytecodeSize : Z;
  filtersWithDomainBytecodeSize : Z;
  domainFiltersBytecodeSize : Z
}.

Definition newMetaData : ContentExtensionMetaData := mkMetaData CurrentContentExtensionFileVersion 0 0 0 0.

Definition fileSize (m : ContentExtensionMetaData) : Z :=
  u64 (ContentExtensionFileHeaderSize + actionsSize m + filtersWithoutDomainsBytecodeSize m + filtersWithDomainBytecodeSize m + domainFiltersBytecodeSize m).

Definition encodeContentExtensionMetaData (m : ContentExtensionMetaData) : list Z :=
  let b1 := encodeNumber 4 [] (version m) in
  let b2 := encodeNumber 8 b1 (actionsSize m) in
  let b3 := encodeNumber 8 b2 (filtersWithoutDomainsBytecodeSize m) in
  let b4 := encodeNumber 8 b3 (filtersWithDomainBytecodeSize m) in
  encodeNumber 8 b4 (domainFiltersBytecodeSize m).

(** A decoding step that ends with failure when the buffer is too small. *)
Definition decode_then {A} (n : nat) (d : Decoder) (k : Z -> Decoder -> outcome (option A)) : outcome (option A) :=
  let* r := decodeNumber n d in
  match r with Some (value, d') => k value d' | None => Done None end.

(** The function that is applied to the data of the file. *)
Definition decode_header (data : list Z) (size : Z) : outcome (option ContentExtensionMetaData) :=
  decode_then 4 (mkDecoder data size 0) (fun version d =>
  decode_then 8 d (fun actionsSize d =>
  decode_then 8 d (fun withoutDomains d =>
  decode_then 8 d (fun withDomain d =>
  decode_then 8 d (fun domainFilters _ =>
  Done (Some (mkMetaData version actionsSize withoutDomains withDomain domainFilters))))))).

(** [Data::apply] does nothing on data without bytes. *)
Definition decodeContentExtensionMetaData (fileData : Data) : io (option ContentExtensionMetaData) :=
  match fileData with
  | MapData m _ => do* data := call (ReadMap m) in Ret (decode_header data (map_size m))
  | _ => io_ret None
  end.

(** ** Compiled extensions in a file *)

(** [WebCompiledContentExtensionData]; the offsets and sizes are [unsigned]. *)
Record WebCompiledContentExtensionData := mkCompiledData {
  wc_data : option SharedMemory;
  wc_fileData : Data;
  wc_actionsOffset : Z;
  wc_actionsSize : Z;
  wc_filtersWithoutDomainsBytecodeOffset : Z;
  wc_filtersWithoutDomainsBytecodeSize : Z;
  wc_filtersWithDomainsBytecodeOffset : Z;
  wc_filtersWithDomainsBytecodeSize : Z;
  wc_domainFiltersBytecodeOffset : Z;
  wc_domainFiltersBytecodeSize : Z
}.

(** [UserContentExtension]: a name and the compiled extension. *)
Record UserContentExtension := mkUserContentExtension { uce_name : list Z; uce_compiledExtension : WebCompiledContentExtensionData }.

(** [createExtension], with the shared memory of the data. *)
Definition extension_with (identifier : list Z) (m : ContentExtensionMetaData) (fileData : Data) (sharedMemory : option SharedMemory) : UserContentExtension :=
  mkUserContentExtension identifier
    (mkCompiledData sharedMemory fileData
      (u32 ContentExtensionFileHeaderSize)
      (u32 (actionsSize m))
      (u32 (u64 (ContentExtensionFileHeaderSize + actionsSize m)))
      (u32 (filtersWithoutDomainsBytecodeSize m))
      (u32 (u64 (ContentExtensionFileHeaderSize + actionsSize m + filtersWithoutDomainsBytecodeSize m)))
      (u32 (filtersWithDomainBytecodeSize m))
      (u32 (u64 (ContentExtensionFileHeaderSize + actionsSize m + filtersWithoutDomainsBytecodeSize m + filtersWithDomainBytecodeSize m)))
      (u32 (domainFiltersBytecodeSize m))).

Definition createExtension `{OS} (identifier : list Z) (m : ContentExtensionMetaData) (fileData : Data) : outcome UserContentExtension :=
  let* sharedMemory := SharedMemory_create fileData in Done (extension_with identifier m fileData sharedMemory).

(** The extension it returns. *)
Definition made_extension `{OS} (identifier : list Z) (m : ContentExtensionMetaData) (fileData : Data) : UserContentExtension :=
  extension_with identifier m fileData (shared_memory fileData).

Lemma createExtension_returns `{OS} identifier m fileData : createExtension identifier m fileData = Done (made_extension identifier m fileData).
Proof. unfold createExtension. by rewrite SharedMemory_create_returns. Qed.

(** The accessors of [WebCompiledContentExtension], on the bytes of the mapped
    memory: a range that leaves the memory cannot be read. *)
Definition filtersWithoutDomains_range (d : WebCompiledContentExtensionData) (memory : list Z) : outcome (list Z) :=
  vslice memory (wc_filtersWithoutDomainsBytecodeOffset d) (wc_filtersWithoutDomainsBytecodeOffset d + wc_filtersWithoutDomainsBytecodeSize d).
Definition filtersWithDomains_range (d : WebCompiledContentExtensionData) (memory : list Z) : outcome (list Z) :=
  vslice memory (wc_filtersWithDomainsBytecodeOffset d) (wc_filtersWithDomainsBytecodeOffset d + wc_filtersWithDomainsBytecodeSize d).
Definition domainFilters_range (d : WebCompiledContentExtensionData) (memory : list Z) : outcome (list Z) :=
  vslice memory (wc_domainFiltersBytecodeOffset d) (wc_domainFiltersBytecodeOffset d + wc_domainFiltersBytecodeSize d).
Definition actions_range (d : WebCompiledContentExtensionData) (memory : list Z) : outcome (list Z) :=
  vslice memory (wc_actionsOffset d) (wc_actionsOffset d + wc_actionsSize d).

(** What an extension is to the code that interprets it. *)
Definition compiled_view (d : WebCompiledContentExtensionData) (memory : list Z) : outcome CompiledContentExtension :=
  let* without := filtersWithoutDomains_range d memory in
  let* withd := filtersWithDomains_range d memory in
  let* domains := domainFilters_range d memory in
  let* actions := actions_range d memory in
  Done (mkCompiled without withd domains actions).

(** ** Errors *)

Inductive StoreError := LookupFailed | VersionMismatch | CompileFailed | RemoveFailed.

(** [std::error_code], of the store or of the compiler. *)
Inductive error_code := FromStore (e : StoreError) | FromCompiler (e : ContentExtensionError).

(** [UserContentExtensionStoreErrorCategory::message]. *)
Definition store_error_message (e : StoreError) : string :=
  match e with
  | LookupFailed => "Unspecified error during lookup."
  | VersionMismatch => "Version of file does not match version of interpreter."
  | CompileFailed => "Unspecified error during compile."
  | RemoveFailed => "Unspecified error during remove."
  end.

(** ** Compiling to a file *)

Section Store.
Context `{OS} `{HashOrder} `{Parsers}.
(** Fuel of the subset construction, and of interrupted writes. *)
Variables (fuel retries : nat).

(** [writeDataToFile]: [Data::apply] does nothing on data without bytes. *)
Definition writeDataToFile (fileData : list Z) (fd : Z) : io bool :=
  match fileData with
  | [] => io_ret true
  | _ => do* n := writeToFile retries fd fileData in io_ret (negb (n =? -1))
  end.

(** [CompilationClient], with the metadata it refers to. *)
Record CompilationClient := mkCompilationClient {
  m_fileHandle : Z;
  m_metaData : ContentExtensionMetaData;
  m_filtersWithoutDomainsBytecodeWritten : Z;
  m_filtersWithDomainBytecodeWritten : Z;
  m_domainFiltersBytecodeWritten : Z;
  m_actionsWritten : Z;
  m_fileError : bool
}.

Definition newCompilationClient (fileHandle : Z) (metaData : ContentExtensionMetaData) : CompilationClient :=
  mkCompilationClient fileHandle metaData 0 0 0 0 false.

(** The handle is closed and no longer valid, and the error is kept. *)
Definition client_failed (c : CompilationClient) : CompilationClient :=
  mkCompilationClient invalidPlatformFileHandle (m_metaData c) (m_filtersWithoutDomainsBytecodeWritten c) (m_filtersWithDomainBytecodeWritten c)
    (m_domainFiltersBytecodeWritten c) (m_actionsWritten c) true.

(** [CompilationClient::writeToFile]. *)
Definition client_writeToFile (c : CompilationClient) (data : list Z) : io CompilationClient :=
  if m_fileError c then io_ret c
  else
    do* success := writeDataToFile data (m_fileHandle c) in
    if success then io_ret c
    else do* _ := closeFile (m_fileHandle c) in io_ret (client_failed c).

Definition writeFiltersWithoutDomainsBytecode (c : CompilationClient) (bytecode : list Z) : io CompilationClient :=
  client_writeToFile (mkCompilationClient (m_fileHandle c) (m_metaData c) (u64 (m_filtersWithoutDomainsBytecodeWritten c + vsize bytecode))
    (m_filtersWithDomainBytecodeWritten c) (m_domainFiltersBytecodeWritten c) (m_actionsWritten c) (m_fileError c)) bytecode.

Definition writeFiltersWithDomainsBytecode (c : CompilationClient) (bytecode : list Z) : io CompilationClient :=
  client_writeToFile (mkCompilationClient (m_fileHandle c) (m_metaData c) (m_filtersWithoutDomainsBytecodeWritten c)
    (u64 (m_filtersWithDomainBytecodeWritten c + vsize bytecode)) (m_domainFiltersBytecodeWritten c) (m_actionsWritten c) (m_fileError c)) bytecode.

Definition writeDomainFiltersBytecode (c : CompilationClient) (bytecode : list Z) : io CompilationClient :=
  client_writeToFile (mkCompilationClient (m_fileHandle c) (m_metaData c) (m_filtersWithoutDomainsBytecodeWritten c)
    (m_filtersWithDomainBytecodeWritten c) (u64 (m_domainFiltersBytecodeWritten c + vsize bytecode)) (m_actionsWritten c) (m_fileError c)) bytecode.

Definition writeActions (c : CompilationClient) (actions : list Z) : io CompilationClient :=
  client_writeToFile (mkCompilationClient (m_fileHandle c) (m_metaData c) (m_filtersWithoutDomainsBytecodeWritten c)
    (m_filtersWithDomainBytecodeWritten c) (m_domainFiltersBytecodeWritten c) (u64 (m_actionsWritten c + vsize actions)) (m_fileError c)) actions.

(** [CompilationClient::finalize]. *)
Definition client_finalize (c : CompilationClient) : io CompilationClient :=
  let metaData := mkMetaData (version (m_metaData c)) (m_actionsWritten c) (m_filtersWithoutDomainsBytecodeWritten c) (m_filtersWithDomainBytecodeWritten c) (m_domainFiltersBytecodeWritten c) in
  let c1 := mkCompilationClient (m_fileHandle c) metaData (m_filtersWithoutDomainsBytecodeWritten c) (m_filtersWithDomainBytecodeWritten c)
    (m_domainFiltersBytecodeWritten c) (m_actionsWritten c) (m_fileError c) in
  let header := encodeContentExtensionMetaData metaData in
  do* c2 :=
    (if m_fileError c1 then io_ret c1
     else
       do* result := seekFile (m_fileHandle c1) 0 in
       if result =? -1 then do* _ := closeFile (m_fileHandle c1) in io_ret (client_failed c1) else io_ret c1) in
  client_writeToFile c2 header.

(** The calls [compileRuleList] makes to its client, in order.  (It makes none
    when the rule list does not parse; writing no bytes does nothing.) *)
Definition client_calls (c : CompilationClient) (calls : client) : io CompilationClient :=
  do* c1 := writeActions c (w_actions calls) in
  do* c2 := io_fold writeFiltersWithoutDomainsBytecode c1 (w_filtersWithoutDomains calls) in
  do* c3 := io_fold writeFiltersWithDomainsBytecode c2 (w_filtersWithDomains calls) in
  do* c4 := io_fold writeDomainFiltersBytecode c3 (w_domainFilters calls) in
  if w_finalized calls then client_finalize c4 else io_ret c4.

Definition invalidHeader : list Z := replicate (Z.to_nat ContentExtensionFileHeaderSize) 0xff.

(** [compiledToFile]: the error, or the metadata and the mapped file.  The
    mapping is released where the caller drops it on an error. *)
Definition compiledToFile (json : WTFString) (finalFilePath : list Z) : io (ContentExtensionMetaData * Data + error_code) :=
  do* (temporaryFilePath, temporaryFileHandle) := openTemporaryFile (literal "ContentExtension") in
  if temporaryFileHandle =? invalidPlatformFileHandle then io_ret (inr (FromStore CompileFailed))
  else
    do* n := writeToFile retries temporaryFileHandle invalidHeader in
    if n =? -1 then do* _ := closeFile temporaryFileHandle in io_ret (inr (FromStore CompileFailed))
    else
      do* (calls, compilerError) := Ret (compileRuleList fuel json) in
      do* compilationClient := client_calls (newCompilationClient temporaryFileHandle newMetaData) calls in
      match compilerError with
      | Some e => do* _ := closeFile temporaryFileHandle in io_ret (inr (FromCompiler e))
      | None =>
          if m_fileError compilationClient then do* _ := closeFile temporaryFileHandle in io_ret (inr (FromStore CompileFailed))
          else
            let metaData := m_metaData compilationClient in
            do* mappedData := adoptAndMapFile temporaryFileHandle (fileSize metaData) in
            if data_isNull mappedData then io_ret (inr (FromStore CompileFailed))
            else
              do* moved := moveFile temporaryFilePath finalFilePath in
              if moved then io_ret (inl (metaData, mappedData))
              else do* _ := data_release mappedData in io_ret (inr (FromStore CompileFailed))
      end.

(** ** The tasks *)

Definition compileContentExtension (storePath identifier : list Z) (json : WTFString) : io (UserContentExtension + error_code) :=
  let path := constructedPath storePath identifier in
  do* r := compiledToFile json path in
  match r with
  | inl (metaData, fileData) => do* extension := Ret (createExtension identifier metaData fileData) in io_ret (inl extension)
  | inr error => io_ret (inr error)
  end.

(** [openAndMapContentExtension]. *)
Definition openAndMapContentExtension (path : list Z) : io (option ContentExtensionMetaData * Data) :=
  do* fileData := mapFile (fileSystemRepresentation path) in
  if data_isNull fileData then io_ret (None, fileData)
  else
    do* metaData := decodeContentExtensionMetaData fileData in
    io_ret (metaData, fileData).

Definition lookupContentExtension (storePath identifier : list Z) : io (UserContentExtension + error_code) :=
  let path := constructedPath storePath identifier in
  do* (metaData, fileData) := openAndMapContentExtension path in
  match metaData with
  | None => do* _ := data_release fileData in io_ret (inr (FromStore LookupFailed))
  | Some metaData =>
      if version metaData =? CurrentContentExtensionFileVersion then do* extension := Ret (createExtension identifier metaData fileData) in io_ret (inl extension)
      else do* _ := data_release fileData in io_ret (inr (FromStore VersionMismatch))
  end.

Definition removeContentExtension_task (storePath identifier : list Z) : io (option error_code) :=
  let path := constructedPath storePath identifier in
  do* deleted := deleteFile path in
  io_ret (if deleted then None else Some (FromStore RemoveFailed)).

Definition synchronousRemoveAllContentExtensions (storePath : list Z) : io unit :=
  do* paths := listDirectory storePath in
  io_fold (fun _ path => do* _ := deleteFile path in io_ret tt) tt paths.
End Store.
