(* ===== verification/StoreSafety.v ===== *)
(** * What the tasks of the store do to the file system

    A task owns the temporary file it writes, or holds a file of the store open.
    [safe] says that a task makes only calls its ownership allows, for every
    answer of the operating system; what a task owns cannot change behind its
    back. *)

From stdpp Require Import gmap strings.
From S2P Require Import Prelude Containers Strings Bytecode Rules Backend FileNames PosixFiles RuleListParser RuleListCompiler ExtensionStore.

#[local] Arguments vsize {A} v : simpl never.

(** ** The file of a compiled rule list *)

Definition client_metaData (c : client) : ContentExtensionMetaData :=
  mkMetaData CurrentContentExtensionFileVersion (vsize (w_actions c)) (vsize (concat (w_filtersWithoutDomains c)))
    (vsize (concat (w_filtersWithDomains c))) (vsize (concat (w_domainFilters c))).

Definition client_body (c : client) : list Z :=
  w_actions c ++ concat (w_filtersWithoutDomains c) ++ concat (w_filtersWithDomains c) ++ concat (w_domainFilters c).

Definition extension_file (c : client) : list Z := encodeContentExtensionMetaData (client_metaData c) ++ client_body c.

(** Offsets and sizes are [unsigned]. *)
Definition client_fits (c : client) : Prop := ContentExtensionFileHeaderSize + vsize (client_body c) < 2 ^ 32.

Lemma vsize_header m : vsize (encodeContentExtensionMetaData m) = ContentExtensionFileHeaderSize.
Proof. unfold encodeContentExtensionMetaData, encodeNumber. rewrite !vsize_app, !vsize_le_bytes. reflexivity. Qed.

Lemma vsize_extension_file c : vsize (extension_file c) = ContentExtensionFileHeaderSize + vsize (client_body c).
Proof. unfold extension_file. by rewrite vsize_app, vsize_header. Qed.

Lemma vsize_client_body c : vsize (client_body c) = vsize (w_actions c) + vsize (concat (w_filtersWithoutDomains c)) + vsize (concat (w_filtersWithDomains c)) + vsize (concat (w_domainFilters c)).
Proof. unfold client_body. rewrite !vsize_app. lia. Qed.

Lemma take_vsize {A} (l : list A) : take (Z.to_nat (vsize l)) l = l.
Proof. unfold vsize. rewrite Nat2Z.id. by apply take_ge. Qed.

Lemma decode_then_number {A} n pre value rest buffer size (k : Z -> Decoder -> outcome (option A)) pos :
  buffer = pre ++ le_bytes n value ++ rest -> 0 <= value < 256 ^ Z.of_nat n -> pos = vsize pre -> pos + Z.of_nat n <= size ->
  decode_then n (mkDecoder buffer size pos) k = k value (mkDecoder buffer size (pos + Z.of_nat n)).
Proof.
  intros -> Hv -> Hs. unfold decode_then, decodeNumber, bufferIsLargeEnoughToContain. cbn [m_buffer m_bufferSize m_bufferPosition]. destruct (Z.leb_spec (Z.of_nat n) (size - vsize pre)); [|lia].
  rewrite vslice_mid by (rewrite ?vsize_le_bytes; lia). cbn [obind]. rewrite le_value_bytes, Z.mod_small by lia. done.
Qed.

(** Every number of the header fits. *)
Definition metaData_fits (m : ContentExtensionMetaData) : Prop :=
  0 <= version m < 2 ^ 32 /\ 0 <= actionsSize m < 2 ^ 64 /\ 0 <= filtersWithoutDomainsBytecodeSize m < 2 ^ 64 /\
  0 <= filtersWithDomainBytecodeSize m < 2 ^ 64 /\ 0 <= domainFiltersBytecodeSize m < 2 ^ 64.

Ltac header_side := first [by rewrite <- ?app_assoc | reflexivity | rewrite ?vsize_app; change (256 ^ Z.of_nat 4) with (2 ^ 32); change (256 ^ Z.of_nat 8) with (2 ^ 64); simpl Z.of_nat; lia].

Lemma decode_header_encoded m body size : metaData_fits m -> ContentExtensionFileHeaderSize <= size ->
  decode_header (encodeContentExtensionMetaData m ++ body) size = Done (Some m).
Proof.
  intros (H1 & H2 & H3 & H4 & H5) Hs. unfold ContentExtensionFileHeaderSize in Hs. unfold encodeContentExtensionMetaData, encodeNumber, decode_header. cbn [app].
  set (b1 := le_bytes 4 (version m)). set (b2 := le_bytes 8 (actionsSize m)). set (b3 := le_bytes 8 (filtersWithoutDomainsBytecodeSize m)). set (b4 := le_bytes 8 (filtersWithDomainBytecodeSize m)). set (b5 := le_bytes 8 (domainFiltersBytecodeSize m)).
  assert (vsize b1 = 4 /\ vsize b2 = 8 /\ vsize b3 = 8 /\ vsize b4 = 8) as (E1 & E2 & E3 & E4) by (unfold b1, b2, b3, b4; by rewrite !vsize_le_bytes).
  rewrite (decode_then_number 4 [] (version m) (b2 ++ b3 ++ b4 ++ b5 ++ body)) by header_side.
  rewrite (decode_then_number 8 b1 (actionsSize m) (b3 ++ b4 ++ b5 ++ body)) by header_side.
  rewrite (decode_then_number 8 (b1 ++ b2) (filtersWithoutDomainsBytecodeSize m) (b4 ++ b5 ++ body)) by header_side.
  rewrite (decode_then_number 8 (b1 ++ b2 ++ b3) (filtersWithDomainBytecodeSize m) (b5 ++ body)) by header_side.
  rewrite (decode_then_number 8 (b1 ++ b2 ++ b3 ++ b4) (domainFiltersBytecodeSize m) body) by header_side. by destruct m.
Qed.

Lemma client_metaData_fits c : client_fits c -> metaData_fits (client_metaData c).
Proof.
  unfold client_fits, ContentExtensionFileHeaderSize. rewrite vsize_client_body. intros Hc. unfold metaData_fits, client_metaData. cbn.
  pose proof (vsize_nonneg (w_actions c)). pose proof (vsize_nonneg (concat (w_filtersWithoutDomains c))). pose proof (vsize_nonneg (concat (w_filtersWithDomains c))). pose proof (vsize_nonneg (concat (w_domainFilters c))).
  unfold CurrentContentExtensionFileVersion. lia.
Qed.

(** The extension created from the file of a rule list is the compiled one. *)
Lemma made_extension_view `{OS} c identifier d : client_fits c ->
  compiled_view (uce_compiledExtension (made_extension identifier (client_metaData c) d)) (extension_file c) = Done (compiled_extension c).
Proof.
  unfold client_fits. rewrite vsize_client_body. intros Hc. unfold compiled_view, filtersWithoutDomains_range, filtersWithDomains_range, domainFilters_range, actions_range, made_extension, extension_with, extension_file, client_body.
  cbn [uce_compiledExtension wc_actionsOffset wc_actionsSize wc_filtersWithoutDomainsBytecodeOffset wc_filtersWithoutDomainsBytecodeSize wc_filtersWithDomainsBytecodeOffset wc_filtersWithDomainsBytecodeSize wc_domainFiltersBytecodeOffset wc_domainFiltersBytecodeSize
       client_metaData actionsSize filtersWithoutDomainsBytecodeSize filtersWithDomainBytecodeSize domainFiltersBytecodeSize].
  set (hd := encodeContentExtensionMetaData (client_metaData c)). assert (Hhd : vsize hd = ContentExtensionFileHeaderSize) by apply vsize_header.
  set (a := w_actions c) in *. set (f := concat (w_filtersWithoutDomains c)) in *. set (g := concat (w_filtersWithDomains c)) in *. set (h := concat (w_domainFilters c)) in *.
  pose proof (vsize_nonneg a). pose proof (vsize_nonneg f). pose proof (vsize_nonneg g). pose proof (vsize_nonneg h). unfold ContentExtensionFileHeaderSize in *.
  assert (Hu : forall z, 0 <= z < 2 ^ 32 -> u32 (u64 z) = z) by (intros z Hz; unfold u64; rewrite (Z.mod_small z) by lia; by apply u32_small).
  rewrite !Hu by lia. rewrite !u32_small by lia. rewrite (app_assoc hd a), (vslice_mid (hd ++ a) f) by (rewrite ?vsize_app; lia). cbn [obind].
  rewrite (app_assoc (hd ++ a) f), (vslice_mid ((hd ++ a) ++ f) g) by (rewrite ?vsize_app; lia). cbn [obind].
  rewrite (app_assoc _ g), <- (app_nil_r (_ ++ h)), <- app_assoc, (vslice_mid (((hd ++ a) ++ f) ++ g) h) by (rewrite ?vsize_app; lia). cbn [obind].
  rewrite <- !app_assoc, (vslice_mid hd a) by lia. done.
Qed.

(** ** Ownership *)

(** What a task holds: nothing; a temporary file that is open for writing, its
    name, its contents and the offset, and whether a write or a seek has failed;
    a file of the store that is open; a descriptor that was closed after such a
    failure and will be closed again. *)
Inductive own :=
| Nothing
| Writing (fd : Z) (name : list Z) (i : Z) (file : list Z) (offset : Z) (failed : bool)
| Reading (fd i : Z) (file : list Z)
| Faulted (fd : Z).

Section Safety.
Context `{OS} `{HashOrder} `{Parsers}.
Variables (fuel retries : nat) (storePath : list Z).

(** The calls to compile that are made; their results have offsets that fit. *)
Variable requested : list Z -> WTFString -> Prop.
Hypothesis requests_fit : forall id json c, requested id json -> compileRuleList fuel json = Done (c, None) -> client_fits c.

(** The name of the file of an identifier. *)
Definition file_name (id : list Z) : list Z := fileSystemRepresentation (constructedPath storePath id).

(** The template of temporary files. *)
Definition template : list Z := default (literal "/tmp") env_TMPDIR ++ literal "/" ++ literal "ContentExtension" ++ literal "XXXXXX".

(** The string that is made of the name of a temporary file names the file. *)
Hypothesis temporary_representation : forall name, temporary_name template name -> fileSystemRepresentation (stringFromUTF8 name) = name.

(** The file is the whole result of a requested compilation. *)
Definition good (id file : list Z) : Prop :=
  exists json c, requested id json /\ compileRuleList fuel json = Done (c, None) /\ file = extension_file c.

(** The calls a task for [id] may make. *)
Definition enabled (id : list Z) (o : own) (c : syscall) : Prop :=
  match c with
  | Mkstemp t => o = Nothing /\ t = template
  | Write fd _ | Lseek fd _ => exists name i file offset, o = Writing fd name i file offset false
  | Close fd => (exists name i file offset failed, o = Writing fd name i file offset failed) \/ (exists i file, o = Reading fd i file) \/ o = Faulted fd
  | Open path => o = Nothing /\ path = file_name id
  | Fstat fd => exists i file, o = Reading fd i file
  | Mmap fd _ => (exists name i file offset, o = Writing fd name i file offset false) \/ (exists i file, o = Reading fd i file)
  | ReadMap m => exists fd file, o = Reading fd (map_inode m) file
  | Unlink path => path = file_name id
  | Readdir _ => False
  | MoveFile oldPath newPath => exists fd i file offset, o = Writing fd oldPath i file offset false /\ newPath = file_name id /\ good id file
  end.

(** What a task owns after a call, when writes are complete. *)
Definition allowed (id : list Z) (o : own) (c : syscall) : answer c -> own -> Prop :=
  match c with
  | Mkstemp _ => fun a o' => match a with Some (name, fd) => 0 <= fd /\ temporary_name template name /\ exists i, o' = Writing fd name i [] 0 false | None => o' = o end
  | Write _ data => fun a o' =>
      match o with
      | Writing fd name i file offset _ =>
          match a with
          | Written n => n = vsize data /\ o' = Writing fd name i (overwrite file offset data) (offset + vsize data) false
          | Interrupted => o' = o
          | WriteError => o' = Writing fd name i file offset true
          end
      | _ => False
      end
  | Lseek _ offset => fun a o' =>
      match o with
      | Writing fd name i file o _ => match a with Some n => n = offset /\ o' = Writing fd name i file offset false | None => o' = Writing fd name i file o true end
      | _ => False
      end
  | Close _ => fun _ o' => match o with Writing fd _ _ _ _ true => o' = Faulted fd | _ => o' = Nothing end
  | Open _ => fun a o' => match a with Some fd => 0 <= fd /\ exists i file, o' = Reading fd i file /\ good id file | None => o' = o end
  | Fstat _ => fun a o' => o' = o /\ forall n fd i file, o = Reading fd i file -> a = Some n -> n = vsize file
  | Mmap _ size => fun a o' =>
      o' = o /\ forall m, a = Some m -> map_size m = size /\ match o with Writing _ _ i _ _ _ | Reading _ i _ => map_inode m = i | _ => False end
  | ReadMap m => fun a o' => o' = o /\ forall fd i file, o = Reading fd i file -> a = take (Z.to_nat (map_size m)) file
  | Unlink _ => fun _ o' => o' = o
  | Readdir _ => fun _ _ => False
  | MoveFile _ _ => fun a o' => if a : bool then match o with Writing fd _ i file _ _ => o' = Reading fd i file | _ => False end else o' = o
  end.

Fixpoint safe {A} (id : list Z) (o : own) (m : io A) (post : own -> A -> Prop) : Prop :=
  match m with
  | Ret (Done a) => post o a
  | Ret _ => True
  | Sys c k => enabled id o c /\ forall a o', allowed id o c a o' -> safe id o' (k a) post
  end.

Lemma safe_bind {A B} id (m : io A) (f : A -> io B) post : forall o, safe id o m (fun o' a => safe id o' (f a) post) -> safe id o (io_bind m f) post.
Proof.
  induction m as [[a| |]|c k IH]; intros o Hm; cbn [io_bind safe] in *; try done. destruct Hm as [He Hk]. split; [done|]. intros a o' Ha. apply IH, Hk, Ha.
Qed.

Lemma safe_mono {A} id (m : io A) (post post' : own -> A -> Prop) : (forall o a, post o a -> post' o a) -> forall o, safe id o m post -> safe id o m post'.
Proof.
  intros Hp. induction m as [[a| |]|c k IH]; intros o Hm; cbn [safe] in *; auto. destruct Hm as [He Hk]. split; [done|]. intros a o' Ha. apply IH, Hk, Ha.
Qed.

Lemma safe_call id o c post : enabled id o c -> (forall a o', allowed id o c a o' -> post o' a) -> safe id o (call c) post.
Proof. intros He Ha. unfold call. cbn [safe]. split; [done|]. intros a o' Ho. cbn [safe io_ret]. by apply Ha. Qed.

(** A loop over a list keeps an invariant of what has been processed. *)
Lemma safe_fold {A S} id (body : S -> A -> io S) (I : list A -> own -> S -> Prop) l :
  (forall done x o s, I done o s -> safe id o (body s x) (I (done ++ [x]))) ->
  forall done o s, I done o s -> safe id o (io_fold body s l) (I (done ++ l)).
Proof.
  intros Hb. induction l as [|x l IH]; intros dn o s HI; cbn [io_fold]; [by rewrite app_nil_r|]. apply safe_bind. eapply safe_mono; [|by apply Hb]. intros o' s' HI'.
  change (x :: l) with ([x] ++ l). rewrite app_assoc. by apply IH.
Qed.

(** ** The functions on files *)

Lemma safe_closeFile_writing id fd name i file offset (failed : bool) (post : own -> unit -> Prop) : 0 <= fd ->
  post (if failed then Faulted fd else Nothing) tt -> safe id (Writing fd name i file offset failed) (closeFile fd) post.
Proof.
  intros Hfd Hp. unfold closeFile, isHandleValid, invalidPlatformFileHandle. destruct (Z.eqb_spec fd (-1)); [lia|]. cbn [negb]. apply safe_call; [left; eauto 10|].
  intros [] o' Ho. cbn in Ho. by destruct failed; subst o'.
Qed.

Lemma safe_closeFile_faulted id fd (post : own -> unit -> Prop) : 0 <= fd -> post Nothing tt -> safe id (Faulted fd) (closeFile fd) post.
Proof.
  intros Hfd Hp. unfold closeFile, isHandleValid, invalidPlatformFileHandle. destruct (Z.eqb_spec fd (-1)); [lia|]. cbn [negb]. apply safe_call; [right; by right|].
  intros [] o' Ho. cbn in Ho. by subst o'.
Qed.

Lemma safe_close_reading id fd i file (post : own -> unit -> Prop) : post Nothing tt -> safe id (Reading fd i file) (call (Close fd)) post.
Proof. intros Hp. apply safe_call; [right; left; eauto|]. intros [] o' Ho. cbn in Ho. by subst o'. Qed.

(** What a write leaves: everything was written, or the write failed. *)
Definition after_write (fd : Z) (name : list Z) (i : Z) (file : list Z) (offset : Z) (data : list Z) (o : own) (n : Z) : Prop :=
  (n = vsize data /\ o = Writing fd name i (overwrite file offset data) (offset + vsize data) false) \/ (n = -1 /\ o = Writing fd name i file offset true).

Lemma safe_writeToFile id fd name i file offset data :
  safe id (Writing fd name i file offset false) (writeToFile retries fd data) (after_write fd name i file offset data).
Proof.
  unfold writeToFile. destruct (vsize data <=? INT32_MAX); [|done]. induction retries as [|n IH]; [done|]. cbn [write_loop]. apply safe_bind, safe_call; [cbn; eauto 10|].
  intros a o' Ha. destruct a as [k| |]; cbn in Ha.
  - destruct Ha as [-> ->]. left. done.
  - subst o'. apply IH.
  - subst o'. right. done.
Qed.

Lemma safe_writeDataToFile id fd name i file offset data :
  safe id (Writing fd name i file offset false) (writeDataToFile retries data fd)
    (fun o b => if b : bool then o = Writing fd name i (match data with [] => file | _ => overwrite file offset data end) (offset + vsize data) false
                else o = Writing fd name i file offset true).
Proof.
  unfold writeDataToFile. destruct data as [|x data]; [cbn; by rewrite Z.add_0_r|]. apply safe_bind. eapply safe_mono; [|apply safe_writeToFile].
  intros o n [[-> ->]|[-> ->]]; cbn; [|done]. pose proof (vsize_nonneg (x :: data)). destruct (Z.eqb_spec (vsize (x :: data)) (-1)); [lia|done].
Qed.

(** ** The client *)

Lemma overwrite_end file data : overwrite file (vsize file) data = file ++ data.
Proof.
  unfold overwrite, vsize. rewrite Nat2Z.id, take_ge, Nat.sub_diag by lia. cbn [replicate app]. rewrite drop_ge by lia. by rewrite app_nil_r.
Qed.

Lemma overwrite_start a b data : length data = length a -> overwrite (a ++ b) 0 data = data ++ b.
Proof. intros Hl. unfold overwrite. change (Z.to_nat 0) with 0%nat. cbn [take replicate app Nat.sub Nat.add]. by rewrite Hl, drop_app_length. Qed.

(** The client has written [body] after the place of the header, or has failed
    and closed the file. *)
Definition client_state (fd : Z) (name : list Z) (i : Z) (body : list Z) (o : own) (c : CompilationClient) : Prop :=
  if m_fileError c then o = Faulted fd
  else m_fileHandle c = fd /\ o = Writing fd name i (invalidHeader ++ body) (vsize (invalidHeader ++ body)) false.

(** ... and has counted what it was given. *)
Record client_inv (fd : Z) (name : list Z) (i : Z) (actions without withd domains : list Z) (o : own) (c : CompilationClient) : Prop := {
  ci_state : client_state fd name i (actions ++ without ++ withd ++ domains) o c;
  ci_metaData : m_metaData c = newMetaData;
  ci_actions : m_actionsWritten c = u64 (vsize actions);
  ci_without : m_filtersWithoutDomainsBytecodeWritten c = u64 (vsize without);
  ci_with : m_filtersWithDomainBytecodeWritten c = u64 (vsize withd);
  ci_domains : m_domainFiltersBytecodeWritten c = u64 (vsize domains)
}.

(** Two clients that differ in the handle and the error only. *)
Definition same_counts (c c' : CompilationClient) : Prop :=
  m_metaData c' = m_metaData c /\ m_actionsWritten c' = m_actionsWritten c /\ m_filtersWithoutDomainsBytecodeWritten c' = m_filtersWithoutDomainsBytecodeWritten c /\
  m_filtersWithDomainBytecodeWritten c' = m_filtersWithDomainBytecodeWritten c /\ m_domainFiltersBytecodeWritten c' = m_domainFiltersBytecodeWritten c.

Lemma safe_client_write id fd name i body data o c : 0 <= fd -> client_state fd name i body o c ->
  safe id o (client_writeToFile retries c data) (fun o' c' => client_state fd name i (body ++ data) o' c' /\ same_counts c c').
Proof.
  intros Hfd Hc. unfold client_writeToFile. unfold client_state in Hc. destruct (m_fileError c) eqn:Ee.
  - cbn. unfold client_state. rewrite Ee. done.
  - destruct Hc as [Eh ->]. rewrite Eh. apply safe_bind. eapply safe_mono; [|apply safe_writeDataToFile]. intros o b Hb. destruct b; subst o.
    + cbn. unfold client_state. rewrite Ee. split; [|done]. split; [done|]. rewrite app_assoc, (vsize_app _ data). destruct data as [|x data]; [by rewrite app_nil_r|]. by rewrite overwrite_end.
    + apply safe_bind. apply safe_closeFile_writing; [done|]. cbn. done.
Qed.

Lemma u64_add a b : u64 (u64 a + b) = u64 (a + b).
Proof. unfold u64. by rewrite Zplus_mod_idemp_l. Qed.

Ltac client_counts Hi :=
  intros [Hi1 Hi2 Hi3 Hi4 Hi5 Hi6]; eapply safe_mono; [|eapply safe_client_write; [done|exact Hi1]];
  intros ? ? [?Hst (?E1 & ?E2 & ?E3 & ?E4 & ?E5)]; constructor;
  [cbn [app] in *; rewrite ?app_nil_r in *; rewrite <- ?app_assoc in *; rewrite ?app_nil_r in *; assumption | ..];
  (etrans; [eassumption|]); cbn; rewrite ?Hi2, ?Hi3, ?Hi4, ?Hi5, ?Hi6, ?u64_add, ?vsize_app; done.

Lemma safe_writeActions id fd name i bytes o c : 0 <= fd -> client_inv fd name i [] [] [] [] o c ->
  safe id o (writeActions retries c bytes) (client_inv fd name i bytes [] [] []).
Proof. intros Hfd. unfold writeActions. client_counts Hi. Qed.

Lemma safe_writeWithout id fd name i actions without bytes o c : 0 <= fd -> client_inv fd name i actions without [] [] o c ->
  safe id o (writeFiltersWithoutDomainsBytecode retries c bytes) (client_inv fd name i actions (without ++ bytes) [] []).
Proof. intros Hfd. unfold writeFiltersWithoutDomainsBytecode. client_counts Hi. Qed.

Lemma safe_writeWith id fd name i actions without withd bytes o c : 0 <= fd -> client_inv fd name i actions without withd [] o c ->
  safe id o (writeFiltersWithDomainsBytecode retries c bytes) (client_inv fd name i actions without (withd ++ bytes) []).
Proof. intros Hfd. unfold writeFiltersWithDomainsBytecode. client_counts Hi. Qed.

Lemma safe_writeDomains id fd name i actions without withd domains bytes o c : 0 <= fd -> client_inv fd name i actions without withd domains o c ->
  safe id o (writeDomainFiltersBytecode retries c bytes) (client_inv fd name i actions without withd (domains ++ bytes)).
Proof. intros Hfd. unfold writeDomainFiltersBytecode. client_counts Hi. Qed.

(** The metadata of what was counted. *)
Definition counted (actions without withd domains : list Z) : ContentExtensionMetaData :=
  mkMetaData CurrentContentExtensionFileVersion (u64 (vsize actions)) (u64 (vsize without)) (u64 (vsize withd)) (u64 (vsize domains)).

(** The client has written the header, or has failed and closed the file. *)
Definition finalized (fd : Z) (name : list Z) (i : Z) (m : ContentExtensionMetaData) (body : list Z) (o : own) (c : CompilationClient) : Prop :=
  if m_fileError c then o = Faulted fd
  else m_metaData c = m /\ exists offset, o = Writing fd name i (encodeContentExtensionMetaData m ++ body) offset false.

Lemma safe_header id fd name i m body c : 0 <= fd -> m_fileError c = false -> m_fileHandle c = fd -> m_metaData c = m ->
  safe id (Writing fd name i (invalidHeader ++ body) 0 false) (client_writeToFile retries c (encodeContentExtensionMetaData m)) (finalized fd name i m body).
Proof.
  intros Hfd Ee Eh Em. unfold client_writeToFile. rewrite Ee, Eh. apply safe_bind. eapply safe_mono; [|apply safe_writeDataToFile]. intros o b Hb. destruct b; subst o.
  - cbn [safe io_ret]. unfold finalized. rewrite Ee. split; [done|]. destruct (encodeContentExtensionMetaData m) as [|x h] eqn:Eh'; [pose proof (vsize_header m) as Hv; by rewrite Eh' in Hv|].
    rewrite <- Eh'. rewrite overwrite_start; [by eexists|]. apply (inj Z.of_nat). apply (vsize_header m).
  - apply safe_bind, safe_closeFile_writing; done.
Qed.

Lemma safe_finalize id fd name i actions without withd domains o c : 0 <= fd -> client_inv fd name i actions without withd domains o c ->
  safe id o (client_finalize retries c) (finalized fd name i (counted actions without withd domains) (actions ++ without ++ withd ++ domains)).
Proof.
  intros Hfd [Hs Em Ea Ew Ed Et]. unfold client_finalize. rewrite Em, Ea, Ew, Ed, Et. cbn [m_fileError m_fileHandle]. unfold client_state in Hs. destruct (m_fileError c).
  - subst o. cbn. done.
  - destruct Hs as [Eh ->]. rewrite Eh. apply safe_bind, safe_bind. unfold seekFile. apply safe_bind, safe_call; [cbn; eauto 10|]. intros a o Ha. cbn in Ha. destruct a as [n|].
    + destruct Ha as [-> ->]. cbn [default safe io_ret]. change (0 =? -1) with false. cbn [safe io_ret]. apply safe_header; done.
    + subst o. cbn [default safe io_ret]. change (-1 =? -1) with true. apply safe_bind, safe_closeFile_writing; done.
Qed.

Lemma concat_single {A} (x : list A) : concat [x] = x.
Proof. apply app_nil_r. Qed.

(** After the calls of the compiler. *)
Lemma safe_client_calls id fd name i calls o c : 0 <= fd -> client_inv fd name i [] [] [] [] o c ->
  safe id o (client_calls retries c calls) (fun o' c' =>
    if w_finalized calls
    then finalized fd name i (counted (w_actions calls) (concat (w_filtersWithoutDomains calls)) (concat (w_filtersWithDomains calls)) (concat (w_domainFilters calls))) (client_body calls) o' c'
    else exists body, client_state fd name i body o' c').
Proof.
  intros Hfd Hi. unfold client_calls. apply safe_bind. eapply safe_mono; [|by apply safe_writeActions]. intros o1 c1 Hc1. apply safe_bind.
  eapply safe_mono; [|apply (safe_fold id _ (fun dn => client_inv fd name i (w_actions calls) (concat dn) [] []) _) with (done := []); [|exact Hc1]].
  2: { intros dn x o' s Hx. eapply safe_mono; [|by apply safe_writeWithout]. intros ? ?. by rewrite concat_app, concat_single. }
  intros o2 c2 Hc2. apply safe_bind.
  eapply safe_mono; [|apply (safe_fold id _ (fun dn => client_inv fd name i (w_actions calls) (concat (w_filtersWithoutDomains calls)) (concat dn) []) _) with (done := []); [|exact Hc2]].
  2: { intros dn x o' s Hx. eapply safe_mono; [|by apply safe_writeWith]. intros ? ?. by rewrite concat_app, concat_single. }
  intros o3 c3 Hc3. apply safe_bind.
  eapply safe_mono; [|apply (safe_fold id _ (fun dn => client_inv fd name i (w_actions calls) (concat (w_filtersWithoutDomains calls)) (concat (w_filtersWithDomains calls)) (concat dn)) _) with (done := []); [|exact Hc3]].
  2: { intros dn x o' s Hx. eapply safe_mono; [|by apply safe_writeDomains]. intros ? ?. by rewrite concat_app, concat_single. }
  intros o4 c4 Hc4. cbn [app] in Hc4. destruct (w_finalized calls); [by apply safe_finalize|]. cbn. eexists. apply Hc4.
Qed.

(** ** The tasks *)

Lemma compile_finalizes json c : compileRuleList fuel json = Done (c, None) -> w_finalized c = true.
Proof.
  unfold compileRuleList, compile_rules. destruct (parseRuleList json); [|done]. intros E. apply obind_Done in E as ([actions locations] & _ & E). apply obind_Done in E as (p & _ & E).
  destruct p as [p|e]; [|done]. apply obind_Done in E as (x1 & _ & E). apply obind_Done in E as (x2 & _ & E). apply obind_Done in E as (x3 & _ & E). by injection E as <-.
Qed.

Lemma counted_fits c : client_fits c ->
  counted (w_actions c) (concat (w_filtersWithoutDomains c)) (concat (w_filtersWithDomains c)) (concat (w_domainFilters c)) = client_metaData c.
Proof.
  unfold client_fits, ContentExtensionFileHeaderSize. rewrite vsize_client_body. intros Hc. unfold counted, client_metaData, u64.
  pose proof (vsize_nonneg (w_actions c)). pose proof (vsize_nonneg (concat (w_filtersWithoutDomains c))). pose proof (vsize_nonneg (concat (w_filtersWithDomains c))). pose proof (vsize_nonneg (concat (w_domainFilters c))).
  by rewrite !Z.mod_small by lia.
Qed.

Lemma fileSize_file c : client_fits c -> fileSize (client_metaData c) = vsize (extension_file c) /\ 0 < vsize (extension_file c).
Proof.
  unfold client_fits. rewrite vsize_extension_file. intros Hc. pose proof (vsize_nonneg (client_body c)). unfold fileSize, u64, ContentExtensionFileHeaderSize in *. rewrite Z.mod_small;
    unfold client_metaData; cbn [actionsSize filtersWithoutDomainsBytecodeSize filtersWithDomainBytecodeSize domainFiltersBytecodeSize]; rewrite vsize_client_body in *; lia.
Qed.

(** The extension made of a file, which the task has open. *)
Definition extension_of (id : list Z) (c : client) (o : own) (e : UserContentExtension) : Prop :=
  exists fd i, o = Reading fd i (extension_file c) /\ e = made_extension id (client_metaData c) (MapData (mkMapping i (vsize (extension_file c))) fd).

Definition compile_post (id : list Z) (json : WTFString) (o : own) (r : UserContentExtension + error_code) : Prop :=
  match r with
  | inl e => exists c, compileRuleList fuel json = Done (c, None) /\ extension_of id c o e
  | inr (FromCompiler e) => exists c, compileRuleList fuel json = Done (c, Some e)
  | inr (FromStore e) => e = CompileFailed
  end.

(** The file has been written: it is mapped and moved. *)
Lemma safe_publish id json c fd name i offset : requested id json -> compileRuleList fuel json = Done (c, None) -> 0 <= fd -> temporary_name template name ->
  safe id (Writing fd name i (extension_file c) offset false)
    (do* mappedData := adoptAndMapFile fd (fileSize (client_metaData c)) in
     if data_isNull mappedData then io_ret (inr (FromStore CompileFailed))
     else
       do* moved := moveFile (stringFromUTF8 name) (constructedPath storePath id) in
       if moved then io_ret (inl (client_metaData c, mappedData))
       else do* _ := data_release mappedData in io_ret (inr (FromStore CompileFailed)))
    (fun o r => compile_post id json o (match r with inl (metaData, fileData) => inl (made_extension id metaData fileData) | inr error => inr error end)).
Proof.
  intros Hr Hc Hfd Hn. destruct (fileSize_file c) as [-> Hpos]; [by eapply requests_fit|]. unfold adoptAndMapFile. destruct (Z.eqb_spec (vsize (extension_file c)) 0); [lia|].
  apply safe_bind, safe_bind, safe_call; [cbn; eauto 10|]. intros a o [-> Ha]. destruct a as [m|].
  - destruct (Ha m eq_refl) as [Es Ei]. destruct m as [i' size]. cbn [map_size map_inode] in *. subst i' size. cbn [safe io_ret data_isNull]. apply safe_bind. unfold moveFile.
    rewrite temporary_representation by done. apply safe_call.
    { exists fd, i, (extension_file c), offset. split; [done|]. split; [done|]. by exists json, c. }
    intros [] o' Ho; cbn in Ho; subst o'; cbn [safe io_ret].
    + exists c. split; [done|]. by eexists _, _.
    + cbn [data_release]. apply safe_bind. apply safe_call; [left; eauto 10|]. by intros [] o' Ho.
  - apply safe_bind, safe_call; [left; eauto 10|]. by intros [] o' Ho.
Qed.

Lemma safe_compile id json : requested id json -> safe id Nothing (compileContentExtension fuel retries storePath id json) (compile_post id json).
Proof.
  intros Hr. unfold compileContentExtension. apply safe_bind.
  eapply (safe_mono _ _ (fun o r => compile_post id json o (match r with inl (metaData, fileData) => inl (made_extension id metaData fileData) | inr error => inr error end))).
  { intros o [[metaData fileData]|error] Hp; [by rewrite createExtension_returns|done]. }
  unfold compiledToFile. apply safe_bind. unfold openTemporaryFile. fold template. destruct (PATH_MAX <=? _); [done|].
  apply safe_bind, safe_call; [done|]. intros [[name fd]|] o Ha; cbn in Ha; [|by subst o]. destruct Ha as (Hfd & Hn & i & ->). cbn [safe io_ret].
  destruct (Z.eqb_spec fd invalidPlatformFileHandle) as [E|_]; [unfold invalidPlatformFileHandle in E; lia|]. apply safe_bind. eapply safe_mono; [|apply safe_writeToFile].
  intros o n [[-> ->]|[-> ->]]; [|change (-1 =? -1) with true; by apply safe_bind, safe_closeFile_writing].
  change (vsize invalidHeader =? -1) with false. change (overwrite [] 0 invalidHeader) with (overwrite [] (vsize (@nil Z)) invalidHeader). rewrite overwrite_end. cbn [app].
  destruct (compileRuleList fuel json) as [[calls e]| |] eqn:Ec; [|done..]. cbn [io_bind]. apply safe_bind.
  eapply safe_mono; [|eapply safe_client_calls; [exact Hfd|]; by constructor].
  intros o c Ho. destruct e as [e|].
  - assert (Hclose : o = Faulted fd \/ exists file offset, o = Writing fd name i file offset false).
    { unfold finalized, client_state in Ho. destruct (w_finalized calls); destruct (m_fileError c); naive_solver. }
    destruct Hclose as [->|(file & offset & ->)]; apply safe_bind; [apply safe_closeFile_faulted|apply safe_closeFile_writing]; (done || by eexists).
  - rewrite (compile_finalizes json calls Ec) in Ho. unfold finalized in Ho. destruct (m_fileError c); [subst o; by apply safe_bind, safe_closeFile_faulted|].
    destruct Ho as (-> & offset & ->). rewrite counted_fits by (by eapply requests_fit). by apply (safe_publish id json calls).
Qed.

Definition lookup_post (id : list Z) (o : own) (r : UserContentExtension + error_code) : Prop :=
  match r with
  | inl e => exists json c, requested id json /\ compileRuleList fuel json = Done (c, None) /\ extension_of id c o e
  | inr e => e = FromStore LookupFailed
  end.

(** The file of a requested compilation reads back. *)
Lemma safe_read_header id fd i c : client_fits c ->
  safe id (Reading fd i (extension_file c)) (decodeContentExtensionMetaData (MapData (mkMapping i (vsize (extension_file c))) fd))
    (fun o m => o = Reading fd i (extension_file c) /\ m = Some (client_metaData c)).
Proof.
  intros Hc. unfold decodeContentExtensionMetaData. apply safe_bind, safe_call; [by eexists _, _|]. intros a o [-> Ha]. rewrite (Ha _ _ _ eq_refl). cbn [map_size].
  rewrite take_vsize. cbn [safe]. unfold extension_file at 1. rewrite decode_header_encoded; [done|by apply client_metaData_fits|].
  rewrite vsize_extension_file. pose proof (vsize_nonneg (client_body c)). lia.
Qed.

Lemma safe_lookup id : safe id Nothing (lookupContentExtension storePath id) (lookup_post id).
Proof.
  unfold lookupContentExtension, openAndMapContentExtension, mapFile. apply safe_bind, safe_bind, safe_bind, safe_call; [done|]. intros a o Ha. destruct a as [fd|]; cbn in Ha; [|by subst o].
  destruct Ha as (Hfd & i & file & -> & json & c & Hr & Hc & ->). assert (Hfits : client_fits c) by (by eapply requests_fit). destruct (fileSize_file c Hfits) as [_ Hpos].
  apply safe_bind, safe_call; [by eexists _, _|]. intros a o [-> Ha]. destruct a as [n|]; [|apply safe_bind; by apply safe_close_reading].
  rewrite (Ha n _ _ _ eq_refl eq_refl). destruct (Z.eqb_spec (vsize (extension_file c)) 0); [lia|]. unfold adoptAndMapFile. destruct (Z.eqb_spec (vsize (extension_file c)) 0); [lia|].
  apply safe_bind, safe_call; [right; by eexists _, _|]. intros a o [-> Hm]. destruct a as [m|]; [|apply safe_bind; by apply safe_close_reading].
  destruct (Hm m eq_refl) as [Es Ei]. destruct m as [i' size]. cbn [map_size map_inode] in *. subst i' size. cbn [safe io_ret data_isNull]. apply safe_bind.
  eapply safe_mono; [|by apply safe_read_header]. intros o m [-> ->]. cbn [safe io_ret]. change (version (client_metaData c) =? CurrentContentExtensionFileVersion) with true. rewrite createExtension_returns.
  exists json, c. split; [done|]. split; [done|]. by eexists _, _.
Qed.

Lemma safe_remove id o : safe id o (removeContentExtension_task storePath id) (fun o' r => o' = o /\ (r = None \/ r = Some (FromStore RemoveFailed))).
Proof.
  unfold removeContentExtension_task, deleteFile. apply safe_bind. destruct (hd 0 _ =? 0); [cbn; auto|]. apply safe_call; [done|]. intros [] o' Ho; cbn in *; auto.
Qed.
End Safety.
