(* ===== verification/StoreSystem.v ===== *)
(** * The store while its tasks run

    Compile, look-up and remove tasks run at the same time, one system call
    after the other in any order.  Whatever the order and whichever calls fail,
    the files of the store are whole: every one is the result of a compilation
    that was asked for under its identifier. *)

From stdpp Require Import gmap strings.
From S2P Require Import Prelude Containers Strings Bytecode Backend FileNames PosixFiles RuleListParser RuleListCompiler ExtensionStore StoreSafety.

#[local] Arguments vsize {A} v : simpl never.

(** ** Names *)

(** What the store relies on about names: representations of well-formed strings
    differ, and temporary files are not put in the place of a stored one. *)
Class StoreNames `{OS} (storePath : list Z) := {
  representation_inj : forall a b, well_formed a = true -> well_formed b = true -> fileSystemRepresentation a = fileSystemRepresentation b -> a = b;
  storePath_well_formed : well_formed storePath = true;
  temporary_representation : forall name, temporary_name template name -> fileSystemRepresentation (stringFromUTF8 name) = name;
  temporary_elsewhere : forall name id, temporary_name template name -> utf16 id -> name <> file_name storePath id
}.

Lemma well_formed_app a b : forall n, (length a <= n)%nat -> well_formed a = true -> well_formed b = true -> well_formed (a ++ b) = true.
Proof.
  intros n. revert a. induction n as [|n IH]; intros [|c a] Hn Ha Hb; try done; [cbn in Hn; lia|]. cbn [app well_formed length] in *. destruct (U16_IS_LEAD c).
  - destruct a as [|d a]; [done|]. cbn [app length] in *. apply andb_true_iff in Ha as [Hd Ha]. rewrite Hd. apply IH; (done || lia).
  - apply andb_true_iff in Ha as [Hc Ha]. rewrite Hc. apply IH; (done || lia).
Qed.

Lemma encode_name_well_formed id : utf16 id -> well_formed (encodeForFileName id) = true.
Proof. intros Hid. unfold encodeForFileName. rewrite encode_loop_from. exact (encode_well_formed id 0 Hid). Qed.

Lemma constructedPath_well_formed base id : well_formed base = true -> utf16 id -> well_formed (constructedPath base id) = true.
Proof.
  intros Hb Hid. unfold constructedPath, pathByAppendingComponent. pose proof (encode_name_well_formed id Hid).
  destruct (bool_decide _); repeat (eapply well_formed_app; [reflexivity|done|]); done.
Qed.

Lemma file_name_inj `{StoreNames} a b : utf16 a -> utf16 b -> file_name storePath a = file_name storePath b -> a = b.
Proof.
  intros Ha Hb E. eapply constructedPath_inj; [done..|]. eapply representation_inj; [..|exact E]; by apply constructedPath_well_formed; [apply storePath_well_formed|].
Qed.

(** ** The system *)

Inductive request := RCompile (id : list Z) (json : WTFString) | RLookup (id : list Z) | RRemove (id : list Z).
Inductive reply := GotExtension (e : UserContentExtension) | GotError (e : error_code) | Removed.

Definition request_id (r : request) : list Z := match r with RCompile id _ | RLookup id | RRemove id => id end.

Section System.
Context `{OS} `{HashOrder} `{Parsers}.
Variables (fuel retries : nat) (storePath : list Z).

(** What the queue runs for a request. *)
Definition request_code (r : request) : io reply :=
  match r with
  | RCompile id json => do* r := compileContentExtension fuel retries storePath id json in io_ret (match r with inl e => GotExtension e | inr e => GotError e end)
  | RLookup id => do* r := lookupContentExtension storePath id in io_ret (match r with inl e => GotExtension e | inr e => GotError e end)
  | RRemove id => do* r := removeContentExtension_task storePath id in io_ret (match r with None => Removed | Some e => GotError e end)
  end.

(** The file system, the tasks with what is left of them, the replies that have
    been handed to completion handlers, and the descriptors on which a write or
    a seek has failed. *)
Record store := mkStore { st_fs : fs; st_tasks : list (request * io reply); st_replies : list (request * reply); st_faults : list Z }.

Definition faults (c : syscall) : answer c -> list Z :=
  match c with
  | Write fd _ => fun a => match a with WriteError => [fd] | _ => [] end
  | Lseek fd _ => fun a => match a with None => [fd] | Some _ => [] end
  | _ => fun _ => []
  end.

(** A step; [ok] restricts the answers of the operating system. *)
Inductive store_step (ok : list Z -> forall c, answer c -> Prop) (s : store) : store -> Prop :=
| step_dispatch r : utf16 (request_id r) -> store_step ok s (mkStore (st_fs s) (st_tasks s ++ [(r, request_code r)]) (st_replies s) (st_faults s))
| step_run j r c k a fs' : st_tasks s !! j = Some (r, Sys c k) -> os_step (st_fs s) c a fs' -> ok (st_faults s) c a ->
    store_step ok s (mkStore fs' (<[j := (r, k a)]> (st_tasks s)) (st_replies s) (faults c a ++ st_faults s))
| step_reply j r v : st_tasks s !! j = Some (r, Ret (Done v)) ->
    store_step ok s (mkStore (st_fs s) (delete j (st_tasks s)) (st_replies s ++ [(r, v)]) (st_faults s)).

(** Writes are complete or fail, and a descriptor on which a write or a seek has
    failed is not handed out again. *)
Definition reliable (faulted : list Z) (c : syscall) : answer c -> Prop :=
  match c with
  | Write _ data => fun a => forall n, a = Written n -> n = vsize data
  | Mkstemp _ => fun a => forall name fd, a = Some (name, fd) -> fd ∉ faulted
  | Open _ => fun a => forall fd, a = Some fd -> fd ∉ faulted
  | _ => fun _ => True
  end.

(** The requests that have been made. *)
Definition made (s : store) (r : request) : Prop := r ∈ (st_tasks s).*1 \/ r ∈ (st_replies s).*1.

(** The bytes an extension has in memory. *)
Definition extension_memory (s : fs) (e : UserContentExtension) : list Z :=
  match wc_fileData (uce_compiledExtension e) with
  | MapData m _ => take (Z.to_nat (map_size m)) (default [] (contents s !! map_inode m))
  | _ => []
  end.

(** ** The invariant *)

Context `{!StoreNames storePath}.
Variable requested : list Z -> WTFString -> Prop.
Hypothesis requests_fit : forall id json c, requested id json -> compileRuleList fuel json = Done (c, None) -> client_fits c.

Notation good := (good fuel requested).
Notation allowed := (allowed fuel requested).
Notation enabled := (enabled fuel storePath requested).
Notation file_name := (file_name storePath).
Implicit Types (sealed : gmap Z (list Z)) (o : own) (f : fs).

(** What is owned is there; [sealed] are the files that no longer change. *)
Definition holds (f : fs) (faulted : list Z) (sealed : gmap Z (list Z)) (o : own) : Prop :=
  match o with
  | Nothing => True
  | Writing fd name i file offset failed =>
      descriptors f !! fd = Some (i, offset) /\ contents f !! i = Some file /\ directory f !! name = Some i /\ temporary_name template name /\
      sealed !! i = None /\ (failed = true -> fd ∈ faulted)
  | Reading fd i file => (exists offset, descriptors f !! fd = Some (i, offset)) /\ sealed !! i = Some file
  | Faulted fd => fd ∈ faulted /\ descriptors f !! fd = None
  end.

Definition own_fd (o : own) : option Z := match o with Writing fd _ _ _ _ _ | Reading fd _ _ => Some fd | _ => None end.
Definition own_inode (o : own) : option Z := match o with Writing _ _ i _ _ _ => Some i | _ => None end.

(** No descriptor and no unfinished file is owned twice. *)
Definition apart (o1 o2 : own) : Prop :=
  (forall fd, own_fd o1 = Some fd -> own_fd o2 = Some fd -> False) /\ (forall i, own_inode o1 = Some i -> own_inode o2 = Some i -> False).

(** The files of the store are sealed and good. *)
Definition whole (f : fs) sealed : Prop :=
  sealed ⊆ contents f /\ forall id i, utf16 id -> directory f !! file_name id = Some i -> exists file, sealed !! i = Some file /\ good id file.

(** What a step of a task that owns [o] does for the task and for the others. *)
Record stepped (id : list Z) (f : fs) (faulted : list Z) sealed (o : own) (c : syscall) (a : answer c) (f' : fs) sealed' (o' : own) : Prop := {
  sd_allowed : allowed id o c a o';
  sd_sealed : sealed ⊆ sealed';
  sd_holds : holds f' (faults c a ++ faulted) sealed' o';
  sd_whole : whole f' sealed';
  sd_frame : forall o2, apart o o2 -> holds f faulted sealed o2 -> holds f' (faults c a ++ faulted) sealed' o2 /\ apart o' o2
}.

Lemma owns_apart_sym o1 o2 : apart o1 o2 -> apart o2 o1.
Proof. unfold apart. naive_solver. Qed.

Lemma holds_open f faulted sealed o fd : holds f faulted sealed o -> own_fd o = Some fd -> exists d, descriptors f !! fd = Some d.
Proof. destruct o; intros Ho [= <-]; [by destruct Ho; eexists|destruct Ho as [[o Ho] _]; by eexists]. Qed.

(** A call that changes nothing the invariant speaks of. *)
Lemma stepped_same id f faulted sealed o c a : allowed id o c a o -> holds f faulted sealed o -> whole f sealed -> stepped id f faulted sealed o c a f sealed o.
Proof.
  intros Ha Ho Hw. assert (Hm : forall o2, holds f faulted sealed o2 -> holds f (faults c a ++ faulted) sealed o2).
  { intros o2. destruct o2; cbn; [done|..|]; [|done|]; set_solver. }
  constructor; [done|done|by apply Hm|done|]. intros o2 Hap H2. split; [by apply Hm|done].
Qed.

(** Other descriptors. *)
Lemma frame_descriptors f faulted sealed o2 fd d ds extra : own_fd o2 <> Some fd -> (forall fd2, o2 = Faulted fd2 -> fd2 <> fd) ->
  (ds = <[fd := d]> (descriptors f) \/ ds = delete fd (descriptors f)) ->
  holds f faulted sealed o2 -> holds (mkFs (directory f) (contents f) ds) (extra ++ faulted) sealed o2.
Proof.
  intros Hfd Hft Hds. destruct o2 as [|fd2 name i file offset failed|fd2 i file|fd2]; cbn; [done|..]; cbn in Hfd.
  - intros (H1' & Hrest). split; [|set_solver]. destruct Hds as [->| ->]; [rewrite lookup_insert_ne|rewrite lookup_delete_ne]; congruence.
  - intros ([off H1'] & H2'). split; [|done]. exists off. destruct Hds as [->| ->]; [rewrite lookup_insert_ne|rewrite lookup_delete_ne]; congruence.
  - intros [H1' H2']. split; [set_solver|]. specialize (Hft fd2 eq_refl). destruct Hds as [->| ->]; [rewrite lookup_insert_ne|rewrite lookup_delete_ne]; congruence.
Qed.

(** *** The calls *)

Lemma stepped_mkstemp id f faulted sealed t name fd f' : whole f sealed -> t = template -> posix f (Mkstemp t) (Some (name, fd)) f' -> fd ∉ faulted ->
  exists o', stepped id f faulted sealed Nothing (Mkstemp t) (Some (name, fd)) f' sealed o'.
Proof.
  intros [Hs Hw] -> (Hn & Hd & Hfd & Hf & i & Hi & ->) Hnf. exists (Writing fd name i [] 0 false).
  assert (Hsi : sealed !! i = None). { destruct (sealed !! i) eqn:E; [|done]. eapply lookup_weaken in E; [|exact Hs]. congruence. }
  constructor; [cbn; by eauto|done|cbn; rewrite !lookup_insert_eq; done|split|].
  - apply insert_subseteq_r; done.
  - cbn. intros id' i' Hid. rewrite lookup_insert_ne by (by apply temporary_elsewhere). by apply Hw.
  - intros o2 _ H2'. assert (Hne : own_fd o2 <> Some fd). { intros E. destruct (holds_open _ _ _ _ _ H2' E). congruence. }
    split.
    + eapply (frame_descriptors f faulted sealed o2 fd (i, 0) _ []) in H2'; [|done| |by left].
      2: { intros fd2 -> ->. destruct H2' as [Hin _]. done. }
      destruct o2; cbn in *; [done| |done|done]. destruct H2' as (E1 & E2 & E3 & E4). split; [done|]. split; [by rewrite lookup_insert_ne by congruence|]. split; [by rewrite lookup_insert_ne by congruence|done].
    + split; cbn; [intros ? [= <-] E; by apply Hne|]. intros i' [= <-] E. destruct o2; try done. injection E as ->. destruct H2' as (_ & E2 & _). congruence.
Qed.

Lemma stepped_write id f faulted sealed fd name i file offset data n f' : holds f faulted sealed (Writing fd name i file offset false) -> whole f sealed ->
  posix f (Write fd data) (Written n) f' -> n = vsize data ->
  exists o', stepped id f faulted sealed (Writing fd name i file offset false) (Write fd data) (Written n) f' sealed o'.
Proof.
  intros (E1 & E2 & E3 & E4 & E5 & _) [Hs Hw] (_ & i' & offset' & file' & Ei & Ef & ->) ->. rewrite E1 in Ei. injection Ei as <- <-. rewrite E2 in Ef. injection Ef as <-. exists (Writing fd name i (overwrite file offset data) (offset + vsize data) false).
  rewrite take_ge by (unfold vsize; lia).
  constructor; [done|done|cbn; rewrite !lookup_insert_eq; done|split; [|done]|].
  - cbn. apply map_subseteq_spec. intros j x Hj. rewrite lookup_insert_ne by congruence. by eapply lookup_weaken.
  - intros o2 [Ha1 Ha2] H2'. assert (own_fd o2 <> Some fd) by (intros E; by apply (Ha1 fd)). split; [|by split].
    eapply (frame_descriptors f faulted sealed o2 fd (i, offset + vsize data) _ []) in H2'; [|done| |by left].
    2: { intros fd2 -> ->. destruct H2' as [_ Hno]. congruence. }
    destruct o2; cbn in *; [done| |done|done]. destruct H2' as (D1 & D2 & D3). split; [done|]. split; [|done]. rewrite lookup_insert_ne by (intros ->; by eapply Ha2). done.
Qed.

Lemma stepped_lseek id f faulted sealed fd name i file offset target n f' : holds f faulted sealed (Writing fd name i file offset false) -> whole f sealed ->
  posix f (Lseek fd target) (Some n) f' -> exists o', stepped id f faulted sealed (Writing fd name i file offset false) (Lseek fd target) (Some n) f' sealed o'.
Proof.
  intros (E1 & E2 & E3 & E4 & E5 & _) [Hs Hw] (-> & _ & i' & offset' & Ei & ->). rewrite E1 in Ei. injection Ei as <- <-. exists (Writing fd name i file target false).
  constructor; [done|done|cbn; by rewrite lookup_insert_eq|done|]. intros o2 [Ha1 Ha2] H2'. split; [|by split]. eapply frame_descriptors; [| |by left|done].
  - intros E. by apply (Ha1 fd).
  - intros fd2 -> ->. destruct H2' as [_ Hno]. congruence.
Qed.

Lemma stepped_close id f faulted sealed fd o f' : holds f faulted sealed o -> whole f sealed -> enabled id o (Close fd) ->
  posix f (Close fd) tt f' -> exists o', stepped id f faulted sealed o (Close fd) tt f' sealed o'.
Proof.
  intros Ho [Hs Hw] He ->. exists (match o with Writing fd _ _ _ _ true => Faulted fd | _ => Nothing end).
  assert (Hother : forall o2, apart o o2 -> holds f faulted sealed o2 -> own_fd o2 <> Some fd).
  { intros o2 [Ha _] H2' E. destruct He as [(? & ? & ? & ? & ? & ->)|[(? & ? & ->)| ->]]; [by eapply Ha..|]. destruct Ho as [_ Hno]. destruct (holds_open _ _ _ _ _ H2' E). congruence. }
  constructor; [|done| |done|].
  - cbn. destruct He as [(? & ? & ? & ? & [] & ->)|[(? & ? & ->)| ->]]; done.
  - destruct He as [(? & ? & ? & ? & [] & ->)|[(? & ? & ->)| ->]]; cbn; try done. destruct Ho as (_ & _ & _ & _ & _ & Hin). split; [by apply Hin|apply lookup_delete_eq].
  - intros o2 Ha H2'. pose proof (Hother o2 Ha H2') as Hne. split.
    + destruct o2; cbn in *; [done|..].
      * destruct H2' as (D1 & D2). rewrite lookup_delete_ne by congruence. done.
      * destruct H2' as ([off D1] & D2). split; [|done]. exists off. rewrite lookup_delete_ne by congruence. done.
      * destruct H2' as [D1 D2]. split; [done|]. destruct (decide (fd0 = fd)) as [->|]; [apply lookup_delete_eq|by rewrite lookup_delete_ne].
    + split; destruct o as [|? ? ? ? ? []|? ? ?|?]; done.
Qed.

Lemma stepped_open id f faulted sealed fd f' : utf16 id -> whole f sealed -> posix f (Open (file_name id)) (Some fd) f' -> fd ∉ faulted ->
  exists o', stepped id f faulted sealed Nothing (Open (file_name id)) (Some fd) f' sealed o'.
Proof.
  intros Hid [Hs Hw] (Hfd & Hno & i & Hi & ->) Hnf. destruct (Hw id i Hid Hi) as (file & Hf & Hg). exists (Reading fd i file).
  constructor; [cbn; split; [done|]; by exists i, file|done|cbn; rewrite lookup_insert_eq; split; [by eexists|done]|done|].
  intros o2 _ H2'. assert (Hne : own_fd o2 <> Some fd). { intros E. destruct (holds_open _ _ _ _ _ H2' E). congruence. }
  split; [|split; cbn; [intros ? [= <-] E; by apply Hne|done]]. eapply frame_descriptors; [done| |by left|done]. intros fd2 -> ->. by destruct H2' as [Hin _].
Qed.

Lemma stepped_move id f faulted sealed fd name i file offset f' : utf16 id -> holds f faulted sealed (Writing fd name i file offset false) -> whole f sealed -> good id file ->
  posix f (MoveFile name (file_name id)) true f' ->
  exists sealed' o', stepped id f faulted sealed (Writing fd name i file offset false) (MoveFile name (file_name id)) true f' sealed' o'.
Proof.
  intros Hid (E1 & E2 & E3 & E4 & E5 & _) [Hs Hw] Hg (i' & Ei & ->). rewrite E3 in Ei. injection Ei as <-. exists (<[i := file]> sealed), (Reading fd i file).
  assert (Hsub : sealed ⊆ <[i := file]> sealed) by (by apply insert_subseteq).
  constructor; [done|done|cbn; rewrite lookup_insert_eq; split; [by eexists|done]|split|].
  - cbn. apply map_subseteq_spec. intros j x. rewrite lookup_insert_Some. intros [[<- <-]|[_ Hj]]; [done|]. by eapply lookup_weaken.
  - cbn. intros id' j Hid'. destruct (decide (file_name id' = file_name id)) as [E|Hne].
    + rewrite E, lookup_insert_eq. intros [= <-]. rewrite (file_name_inj id' id Hid' Hid E). exists file. by rewrite lookup_insert_eq.
    + rewrite lookup_insert_ne by congruence. rewrite lookup_delete_ne by (by apply temporary_elsewhere). intros Hj. destruct (Hw id' j Hid' Hj) as (x & Hx & Hgx).
      exists x. split; [|done]. rewrite lookup_insert_ne by congruence. done.
  - intros o2 [Ha1 Ha2] H2'. split; [|by split]. destruct o2 as [|fd2 name2 i2 file2 offset2 failed2|fd2 i2 file2|fd2]; cbn in *; [done|..|done].
    + destruct H2' as (D1 & D2 & D3 & D4 & D5 & D6). assert (i2 <> i) by (intros ->; by apply (Ha2 i)). split_and!; [done|done| |done|by rewrite lookup_insert_ne|done].
      rewrite lookup_insert_ne by (intros En; symmetry in En; revert En; by apply temporary_elsewhere). rewrite lookup_delete_ne by congruence. done.
    + destruct H2' as [D1 D2]. split; [done|]. by eapply lookup_weaken.
Qed.

Lemma stepped_unlink id f faulted sealed o f' : utf16 id -> holds f faulted sealed o -> whole f sealed -> posix f (Unlink (file_name id)) true f' ->
  stepped id f faulted sealed o (Unlink (file_name id)) true f' sealed o.
Proof.
  intros Hid Ho [Hs Hw] (_ & ->).
  assert (Hh : forall o2, holds f faulted sealed o2 -> holds (mkFs (delete (file_name id) (directory f)) (contents f) (descriptors f)) faulted sealed o2).
  { intros o2. destruct o2; cbn; try done. intros (D1 & D2 & D3 & D4 & D5). rewrite lookup_delete_ne; [done|]. intros En. symmetry in En. revert En. by apply temporary_elsewhere. }
  constructor; [done|done|by apply Hh|split; [done|]|].
  - cbn. intros id' j Hid'. rewrite lookup_delete_Some. intros [_ Hj]. by apply Hw.
  - intros o2 Ha H2'. split; [by apply Hh|done].
Qed.

Lemma stepped_fault id f faulted sealed fd name i file offset c a : holds f faulted sealed (Writing fd name i file offset false) -> whole f sealed ->
  allowed id (Writing fd name i file offset false) c a (Writing fd name i file offset true) -> faults c a = [fd] ->
  stepped id f faulted sealed (Writing fd name i file offset false) c a f sealed (Writing fd name i file offset true).
Proof.
  intros (E1 & E2 & E3 & E4 & E5 & _) Hw Ha Hf. constructor; [done|done|rewrite Hf; cbn; split_and!; try done; set_solver|done|].
  intros o2 [Ha1 Ha2] H2'. split; [|by split]. destruct o2; cbn in *; [done|..|done|]; set_solver.
Qed.

(** Every call a task may make is a step it is prepared for. *)
Lemma run_stepped id f faulted sealed o c a f' : utf16 id -> holds f faulted sealed o -> whole f sealed -> enabled id o c -> posix f c a f' -> reliable faulted c a ->
  exists sealed' o', stepped id f faulted sealed o c a f' sealed' o'.
Proof.
  intros Hid Ho Hw He Hp Hr. destruct c as [t|fd data|fd target|fd|path|fd|fd size|m|path|path|old new]; cbn in a, He.
  - destruct He as [-> ->]. destruct a as [[name fd]|].
    + destruct (stepped_mkstemp id f faulted sealed _ _ _ _ Hw eq_refl Hp (Hr _ _ eq_refl)) as [o' Ho']. eauto.
    + cbn in Hp. subst f'. exists sealed, Nothing. by apply stepped_same.
  - destruct He as (name & i & file & offset & ->). destruct a as [n| |].
    + destruct (stepped_write id f faulted sealed fd name i file offset data n f' Ho Hw Hp (Hr _ eq_refl)) as [o' Ho']. eauto.
    + cbn in Hp. subst f'. eexists _, _. by apply stepped_same.
    + cbn in Hp. subst f'. eexists _, _. by apply stepped_fault.
  - destruct He as (name & i & file & offset & ->). destruct a as [n|].
    + destruct (stepped_lseek id f faulted sealed fd name i file offset target n f' Ho Hw Hp) as [o' Ho']. eauto.
    + cbn in Hp. subst f'. eexists _, _. by apply stepped_fault.
  - destruct a. destruct (stepped_close id f faulted sealed fd o f' Ho Hw He Hp) as [o' Ho']. eauto.
  - destruct He as [-> ->]. destruct a as [fd|].
    + destruct (stepped_open id f faulted sealed fd f' Hid Hw Hp (Hr _ eq_refl)) as [o' Ho']. eauto.
    + cbn in Hp. subst f'. eexists _, _. by apply stepped_same.
  - destruct He as (i & file & ->). destruct Hp as [-> Hp]. eexists _, _. apply stepped_same; [|done|done]. cbn. split; [done|]. intros n fd' i' file' [= <- <- <-] ->.
    destruct (Hp n eq_refl) as (j & off & x & E1 & E2 & ->). destruct Ho as [[off' Ho] Hse]. rewrite Ho in E1. injection E1 as <- <-. destruct Hw as [Hs _]. eapply lookup_weaken in Hse; [|exact Hs]. congruence.
  - destruct Hp as [-> Hp]. eexists _, _. apply stepped_same; [|done|done]. cbn. split; [done|]. intros m ->. destruct (Hp m eq_refl) as (Es & off & Em). split; [done|].
    destruct He as [(name & i & file & offset & ->)|(i & file & ->)]; cbn in Ho; [destruct Ho as (Ho & _)|destruct Ho as [[? Ho] _]]; congruence.
  - destruct He as (fd & file & ->). destruct Hp as [-> ->]. eexists _, _. apply stepped_same; [|done|done]. cbn. split; [done|]. intros fd' i' file' [= <- <- <-].
    destruct Ho as [_ Hse]. destruct Hw as [Hs _]. eapply lookup_weaken in Hse; [|exact Hs]. by rewrite Hse.
  - subst path. destruct a; cbn in Hp; [|subst f'; eexists _, _; by apply stepped_same]. eexists _, _. by apply stepped_unlink.
  - done.
  - destruct He as (fd & i & file & offset & -> & -> & Hg). destruct a; cbn in Hp; [|subst f'; eexists _, _; by apply stepped_same]. by apply stepped_move.
Qed.

(** *** The tasks together *)

(** What the result of a request says, given what the task owns at the end. *)
Definition request_post (r : request) (o : own) (v : reply) : Prop :=
  match r, v with
  | RCompile id json, GotExtension e => compile_post fuel id json o (inl e)
  | RCompile id json, GotError e => compile_post fuel id json o (inr e)
  | RLookup id, GotExtension e => lookup_post fuel requested id o (inl e)
  | RLookup id, GotError e => lookup_post fuel requested id o (inr e)
  | RRemove id, GotError e => e = FromStore RemoveFailed
  | RRemove id, Removed => True
  | _, _ => False
  end.

Lemma request_safe r : (forall id json, r = RCompile id json -> requested id json) -> safe fuel storePath requested (request_id r) Nothing (request_code r) (request_post r).
Proof.
  intros Hr. destruct r as [id json|id|id]; cbn [request_code request_id]; apply safe_bind.
  - eapply safe_mono; [|apply safe_compile; [done|apply temporary_representation|by apply Hr]]. by intros o [e|e] Hp.
  - eapply safe_mono; [|by apply safe_lookup]. by intros o [e|e] Hp.
  - eapply safe_mono; [|apply safe_remove]. by intros o v [_ [->| ->]].
Qed.

(** A reply that has been given: the memory of an extension is sealed. *)
Definition reply_ok sealed (rv : request * reply) : Prop :=
  exists o, request_post rv.1 o rv.2 /\ forall fd i file, o = Reading fd i file -> sealed !! i = Some file.

Definition invariant (s : store) : Prop :=
  exists owns sealed,
    Forall2 (fun t o => utf16 (request_id t.1) /\ safe fuel storePath requested (request_id t.1) o t.2 (request_post t.1)) (st_tasks s) owns /\
    Forall (holds (st_fs s) (st_faults s) sealed) owns /\
    (forall j k oj ok, owns !! j = Some oj -> owns !! k = Some ok -> j <> k -> apart oj ok) /\
    whole (st_fs s) sealed /\ Forall (reply_ok sealed) (st_replies s).

Lemma reply_ok_mono sealed sealed' rv : sealed ⊆ sealed' -> reply_ok sealed rv -> reply_ok sealed' rv.
Proof. intros Hs (o & Hp & Ho). exists o. split; [done|]. intros fd i file E. eapply lookup_weaken; [by eapply Ho|done]. Qed.

Lemma invariant_dispatch s r : invariant s -> utf16 (request_id r) -> (forall id json, r = RCompile id json -> requested id json) ->
  invariant (mkStore (st_fs s) (st_tasks s ++ [(r, request_code r)]) (st_replies s) (st_faults s)).
Proof.
  intros (owns & sealed & Ht & Ho & Ha & Hw & Hr) Hid Hreq. exists (owns ++ [Nothing]), sealed. split_and!; [| |  |done|done].
  - apply Forall2_app; [done|]. constructor; [|constructor]. split; [done|]. by apply request_safe.
  - apply Forall_app. split; [done|]. by constructor.
  - assert (Hnone : forall o, apart o Nothing) by (intros o; split; cbn; congruence).
    intros j k oj ok Hj Hk Hne. apply lookup_app_Some in Hj as [Hj|[Hlj Hj]], Hk as [Hk|[Hlk Hk]]; [by eapply Ha|..].
    + apply list_lookup_singleton_Some in Hk as [_ <-]. apply Hnone.
    + apply list_lookup_singleton_Some in Hj as [_ <-]. apply owns_apart_sym, Hnone.
    + apply list_lookup_singleton_Some in Hj as [Ej _], Hk as [Ek _]. lia.
Qed.

Lemma invariant_run s j r c k a f' : invariant s -> st_tasks s !! j = Some (r, Sys c k) -> os_step (st_fs s) c a f' -> reliable (st_faults s) c a ->
  invariant (mkStore f' (<[j := (r, k a)]> (st_tasks s)) (st_replies s) (faults c a ++ st_faults s)).
Proof.
  intros (owns & sealed & Ht & Ho & Ha & Hw & Hr) Hj Hos Hre. destruct (Forall2_lookup_l _ _ _ _ _ Ht Hj) as (o & Hoj & Hid & He & Hk). cbn [fst] in *.
  rewrite Forall_lookup in Ho. destruct (run_stepped (request_id r) _ _ _ o c a f' Hid (Ho _ _ Hoj) Hw He (os_posix _ _ _ _ Hos) Hre) as (sealed' & o' & [S1 S2 S3 S4 S5]).
  exists (<[j := o']> owns), sealed'. assert (Hlen : (j < length owns)%nat) by (by eapply lookup_lt_Some). split_and!.
  - apply Forall2_insert; [done|]. split; [done|]. by apply Hk.
  - apply Forall_lookup. intros n x. rewrite list_lookup_insert_Some. intros [(<- & <- & _)|[Hne Hx]]; [done|]. eapply S5; [by eapply Ha|by eapply Ho].
  - intros n m x y. rewrite !list_lookup_insert_Some. intros [(<- & <- & _)|[Hn Hx]] [(<- & <- & _)|[Hm Hy]] Hne; [done|..|by eapply Ha].
    + eapply S5; [by eapply Ha|by eapply Ho].
    + apply owns_apart_sym. eapply S5; [eapply Ha; [exact Hoj|exact Hx|done]|by eapply Ho].
  - done.
  - eapply Forall_impl; [exact Hr|]. intros rv. by apply reply_ok_mono.
Qed.

Lemma invariant_reply s j r v : invariant s -> st_tasks s !! j = Some (r, Ret (Done v)) ->
  invariant (mkStore (st_fs s) (delete j (st_tasks s)) (st_replies s ++ [(r, v)]) (st_faults s)).
Proof.
  intros (owns & sealed & Ht & Ho & Ha & Hw & Hr) Hj. destruct (Forall2_lookup_l _ _ _ _ _ Ht Hj) as (o & Hoj & Hid & Hpost). cbn [fst snd safe] in *.
  rewrite Forall_lookup in Ho. exists (delete j owns), sealed. split_and!; [by apply Forall2_delete| | |done|].
  - apply Forall_delete, Forall_lookup. done.
  - intros n m x y. rewrite !list_lookup_delete. repeat case_decide; intros Hx Hy Hne; (eapply Ha; [exact Hx|exact Hy|lia]).
  - apply Forall_app. split; [done|]. constructor; [|constructor]. exists o. split; [done|]. intros fd i file ->. by apply (Ho _ _ Hoj).
Qed.

(** The requests of a store are those of the stores before and the dispatched
    one. *)
Lemma made_step ok s s' r : store_step ok s s' -> made s r -> made s' r.
Proof.
  unfold made. intros [r' Hid|j r' c k a f' Hj Hos Hok|j r' v Hj]; cbn [st_tasks st_replies].
  - rewrite fmap_app. set_solver.
  - rewrite list_fmap_insert. rewrite list_insert_id; [done|]. by rewrite list_lookup_fmap, Hj.
  - rewrite fmap_app. intros [Hin|Hin]; [|right; set_solver]. apply list_elem_of_fmap in Hin as ([r2 m] & -> & Hin). apply list_elem_of_lookup in Hin as [n Hn].
    destruct (decide (n = j)) as [->|Hne]; [right; rewrite Hj in Hn; injection Hn as <- <-; set_solver|]. left. apply list_elem_of_fmap. exists (r2, m). split; [done|].
    apply list_elem_of_lookup. destruct (decide (n < j)%nat) as [Hlt|Hge]; [exists n; by rewrite list_lookup_delete_lt|].
    exists (pred n). rewrite list_lookup_delete_ge by lia. by replace (S (pred n)) with n by lia.
Qed.

Lemma invariant_steps s0 s : invariant s0 -> rtc (store_step reliable) s0 s -> (forall id json, made s (RCompile id json) -> requested id json) -> invariant s.
Proof.
  intros H0' Hs. revert s Hs. refine (rtc_ind_r _ _ _ _); [done|]. intros s1 s2 _ Hstep IH Hm.
  assert (Hi : invariant s1). { apply IH. intros id json Hmade. apply Hm. by eapply made_step. }
  destruct Hstep as [r Hid|j r c k a f' Hj Hos Hok|j r v Hj].
  - apply invariant_dispatch; [done|done|]. intros id json ->. apply Hm. left. cbn. rewrite fmap_app. set_solver.
  - by apply invariant_run.
  - by apply invariant_reply.
Qed.

(** A store nothing has been asked of yet, with whole files. *)
Lemma invariant_initial f : (forall id i, utf16 id -> directory f !! file_name id = Some i -> exists file, contents f !! i = Some file /\ good id file) ->
  invariant (mkStore f [] [] []).
Proof.
  intros Hw. exists [], (contents f). split_and!; [constructor|constructor|done|split; done|constructor].
Qed.
End System.
