(* ===== verification/StoreTheorems.v ===== *)
(** * Properties of the store

    On a file system that works the store is a map from identifiers to compiled
    rule lists.  While tasks run at the same time and calls fail its files are
    whole, and extensions that were handed out do not change.  Two executions
    show what happens when a write is short, and when a descriptor is reused
    after an error. *)

From stdpp Require Import gmap strings.
From S2P Require Import Prelude Containers Strings Bytecode Rules Backend FileNames PosixFiles RuleListParser RuleListTheorems RuleListCompiler ExtensionStore StoreSafety StoreSystem.

#[local] Arguments vsize {A} v : simpl never.

(** ** One task after the other *)

Section Sequential.
Context `{OS} `{HashOrder} `{Parsers}.
Variables (fuel retries : nat) (storePath : list Z).
Context `{!StoreNames storePath}.

(** A file that is being written, in the file system [D], [C], [F]. *)
Definition writing (D : gmap (list Z) Z) (C : gmap Z (list Z)) (F : gmap Z (Z * Z)) (name : list Z) (i fd : Z) (file : list Z) (offset : Z) : fs :=
  mkFs (<[name := i]> D) (<[i := file]> C) (<[fd := (i, offset)]> F).

Section Write.
Variables (D : gmap (list Z) Z) (C : gmap Z (list Z)) (F : gmap Z (Z * Z)) (name : list Z) (i fd : Z).
Hypothesis Hretries : (0 < retries)%nat.
Notation writing := (writing D C F name i fd).

Lemma do_write file offset data : posix_do (writing file offset) (Write fd data) = (Written (vsize data), writing (overwrite file offset data) (offset + vsize data)).
Proof. unfold writing, posix_do. cbn [descriptors contents directory]. rewrite !lookup_insert_eq, !insert_insert_eq. done. Qed.

Lemma do_rewind file offset : posix_do (writing file offset) (Lseek fd 0) = (Some 0, writing file 0).
Proof. unfold writing, posix_do. cbn [descriptors contents directory]. rewrite lookup_insert_eq, insert_insert_eq. done. Qed.

Lemma run_writeToFile file offset data : vsize data <= INT32_MAX ->
  run (writeToFile retries fd data) (writing file offset) = (Done (vsize data), writing (overwrite file offset data) (offset + vsize data)).
Proof.
  intros Hd. unfold writeToFile. apply Z.leb_le in Hd as ->. destruct retries as [|n]; [lia|]. cbn [write_loop]. rewrite run_bind, run_call, do_write. done.
Qed.

Lemma run_client_write c body data : vsize data <= INT32_MAX -> m_fileError c = false -> m_fileHandle c = fd ->
  run (client_writeToFile retries c data) (writing (invalidHeader ++ body) (vsize (invalidHeader ++ body))) =
  (Done c, writing (invalidHeader ++ body ++ data) (vsize (invalidHeader ++ body ++ data))).
Proof.
  intros Hd Ee Eh. unfold client_writeToFile. rewrite Ee, Eh, run_bind. unfold writeDataToFile. destruct data as [|x data]; [cbn [run io_ret]; by rewrite app_nil_r|].
  rewrite run_bind, run_writeToFile by done. cbn [run io_ret]. pose proof (vsize_nonneg (x :: data)). destruct (Z.eqb_spec (vsize (x :: data)) (-1)); [lia|]. cbn [negb run io_ret].
  rewrite overwrite_end, <- app_assoc, (vsize_app invalidHeader (body ++ _)), (vsize_app invalidHeader body), (vsize_app body). do 2 f_equal. lia.
Qed.

(** What the client has counted. *)
Definition counts (c : CompilationClient) (actions without withd domains : list Z) : Prop :=
  c = mkCompilationClient fd newMetaData (u64 (vsize without)) (u64 (vsize withd)) (u64 (vsize domains)) (u64 (vsize actions)) false.

Notation at_body body := (writing (invalidHeader ++ body) (vsize (invalidHeader ++ body))).

Lemma run_fold_write (write : CompilationClient -> list Z -> io CompilationClient) (P : list Z -> CompilationClient -> Prop) body :
  (forall data pre c, P pre c -> vsize data <= INT32_MAX -> exists c', run (write c data) (at_body (body ++ pre)) = (Done c', at_body (body ++ pre ++ data)) /\ P (pre ++ data) c') ->
  forall chunks pre c, P pre c -> Forall (fun data => vsize data <= INT32_MAX) chunks ->
  exists c', run (io_fold write c chunks) (at_body (body ++ pre)) = (Done c', at_body (body ++ pre ++ concat chunks)) /\ P (pre ++ concat chunks) c'.
Proof.
  intros Hw. induction chunks as [|data chunks IH]; intros pre c Hp Hf; cbn [io_fold concat]; [rewrite !app_nil_r; by exists c|]. apply Forall_cons in Hf as [Hd Hf].
  destruct (Hw data pre c Hp Hd) as (c1 & E1 & Hp1). rewrite run_bind, E1. destruct (IH (pre ++ data) c1 Hp1 Hf) as (c2 & E2 & Hp2). exists c2. rewrite <- app_assoc in E2, Hp2. done.
Qed.

(** Writing a chunk adds it to the file and to its count. *)
Lemma run_count c body data body' c' : vsize data <= INT32_MAX -> c' = c -> body' = body ++ data -> m_fileError c = false -> m_fileHandle c = fd ->
  run (client_writeToFile retries c data) (at_body body) = (Done c', at_body body').
Proof. intros Hd -> -> Ee Eh. by apply run_client_write. Qed.

Ltac count_chunk := intros data pre c -> Hd; eexists; split; [apply run_count; [done|reflexivity|by rewrite app_assoc|done|done]|];
  unfold counts; cbn; rewrite u64_add, <- vsize_app; done.

(** The header takes its place. *)
Lemma run_finalize actions without withd domains body :
  exists c, run (client_finalize retries (mkCompilationClient fd newMetaData (u64 (vsize without)) (u64 (vsize withd)) (u64 (vsize domains)) (u64 (vsize actions)) false)) (at_body body) =
      (Done c, writing (encodeContentExtensionMetaData (m_metaData c) ++ body) ContentExtensionFileHeaderSize) /\
    m_fileError c = false /\ m_metaData c = counted actions without withd domains.
Proof.
  exists (mkCompilationClient fd (counted actions without withd domains) (u64 (vsize without)) (u64 (vsize withd)) (u64 (vsize domains)) (u64 (vsize actions)) false).
  split; [|done]. unfold client_finalize. cbn [m_fileError m_fileHandle m_metaData m_actionsWritten m_filtersWithoutDomainsBytecodeWritten m_filtersWithDomainBytecodeWritten m_domainFiltersBytecodeWritten].
  rewrite run_bind, run_bind. unfold seekFile. rewrite run_bind, run_call, do_rewind. cbn [fst snd default run io_ret]. change (id 0 =? -1) with false. cbn [run io_ret]. unfold client_writeToFile. cbn [m_fileError m_fileHandle]. rewrite run_bind. unfold writeDataToFile.
  match goal with |- context [encodeContentExtensionMetaData ?m] => set (md := m) end.
  destruct (encodeContentExtensionMetaData md) as [|x h] eqn:Eh; [pose proof (vsize_header md) as Hv; by rewrite Eh in Hv|]. rewrite <- Eh.
  assert (Hv := vsize_header md). unfold ContentExtensionFileHeaderSize in Hv. rewrite run_bind, run_writeToFile by (rewrite Hv; done). cbn [run io_ret]. rewrite Hv. change (4 + 4 * 8 =? -1) with false. cbn [negb run io_ret m_metaData].
  rewrite overwrite_start by (apply (inj Z.of_nat); exact Hv). done.
Qed.

(** The calls of the compiler write the body of the file. *)
Lemma run_client_calls calls : Forall (fun data => vsize data <= INT32_MAX) (w_actions calls :: w_filtersWithoutDomains calls ++ w_filtersWithDomains calls ++ w_domainFilters calls) ->
  exists c, run (client_calls retries (newCompilationClient fd newMetaData) calls) (at_body []) =
      (Done c, if w_finalized calls then writing (encodeContentExtensionMetaData (m_metaData c) ++ client_body calls) ContentExtensionFileHeaderSize else at_body (client_body calls)) /\
    m_fileError c = false /\ (w_finalized calls = true -> m_metaData c = counted (w_actions calls) (concat (w_filtersWithoutDomains calls)) (concat (w_filtersWithDomains calls)) (concat (w_domainFilters calls))).
Proof.
  intros [Ha [Hf [Hg Hh]%Forall_app]%Forall_app]%Forall_cons. unfold client_calls. set (a := w_actions calls) in *.
  rewrite run_bind. unfold writeActions. cbn [m_fileHandle m_metaData m_filtersWithoutDomainsBytecodeWritten m_filtersWithDomainBytecodeWritten m_domainFiltersBytecodeWritten m_actionsWritten m_fileError newCompilationClient].
  erewrite (run_count _ [] a a) by done.
  destruct (run_fold_write (writeFiltersWithoutDomainsBytecode retries) (fun pre c => counts c a pre [] []) a) with (chunks := w_filtersWithoutDomains calls) (pre := @nil Z)
    (c := mkCompilationClient fd newMetaData 0 0 0 (u64 (0 + vsize a)) false) as (c1 & E1 & H1'); [count_chunk|done|done|]. rewrite app_nil_r in E1. rewrite run_bind, E1. cbn [app] in *.
  destruct (run_fold_write (writeFiltersWithDomainsBytecode retries) (fun pre c => counts c a (concat (w_filtersWithoutDomains calls)) pre []) (a ++ concat (w_filtersWithoutDomains calls))) with (chunks := w_filtersWithDomains calls) (pre := @nil Z) (c := c1)
    as (c2 & E2 & H2'); [count_chunk|done|done|]. rewrite app_nil_r in E2. rewrite run_bind, E2. cbn [app] in *.
  destruct (run_fold_write (writeDomainFiltersBytecode retries) (fun pre c => counts c a (concat (w_filtersWithoutDomains calls)) (concat (w_filtersWithDomains calls)) pre) ((a ++ concat (w_filtersWithoutDomains calls)) ++ concat (w_filtersWithDomains calls)))
    with (chunks := w_domainFilters calls) (pre := @nil Z) (c := c2) as (c3 & E3 & H3'); [count_chunk|done|done|]. rewrite app_nil_r in E3. rewrite run_bind, E3. cbn [app] in *.
  rewrite <- !app_assoc. fold (client_body calls). unfold counts in H3'. subst c3. destruct (w_finalized calls); [|by eexists].
  destruct (run_finalize a (concat (w_filtersWithoutDomains calls)) (concat (w_filtersWithDomains calls)) (concat (w_domainFilters calls)) (client_body calls)) as (c & Ec & Ee & Em). by exists c.
Qed.
End Write.

(** *** The operations on the map *)

(** Offsets and the sizes of chunks fit. *)
Definition client_small (c : client) : Prop := ContentExtensionFileHeaderSize + vsize (client_body c) <= INT32_MAX.

Lemma small_fits c : client_small c -> client_fits c.
Proof. unfold client_small, client_fits, INT32_MAX. lia. Qed.

Lemma concat_bound (l : list (list Z)) x : x ∈ l -> vsize x <= vsize (concat l).
Proof.
  induction l as [|y l IH]; [by intros Hx%not_elem_of_nil|]. cbn [concat]. rewrite vsize_app, elem_of_cons. pose proof (vsize_nonneg (concat l)). pose proof (vsize_nonneg y).
  intros [->|Hx]; [lia|]. specialize (IH Hx). lia.
Qed.

Lemma small_chunks c : client_small c -> Forall (fun data => vsize data <= INT32_MAX) (w_actions c :: w_filtersWithoutDomains c ++ w_filtersWithDomains c ++ w_domainFilters c).
Proof.
  unfold client_small, ContentExtensionFileHeaderSize. rewrite vsize_client_body. intros Hc. apply Forall_forall. intros x.
  pose proof (vsize_nonneg (w_actions c)). pose proof (vsize_nonneg (concat (w_filtersWithoutDomains c))). pose proof (vsize_nonneg (concat (w_filtersWithDomains c))). pose proof (vsize_nonneg (concat (w_domainFilters c))).
  rewrite elem_of_cons, !elem_of_app. intros [->|[Hx|[Hx|Hx]]]; [|apply concat_bound in Hx..]; lia.
Qed.

(** The file system has the files of a map from identifiers. *)
Definition represents (f : fs) (m : gmap (list Z) client) : Prop := forall id, utf16 id ->
  match m !! id with
  | Some c => client_small c /\ exists i, directory f !! file_name storePath id = Some i /\ contents f !! i = Some (extension_file c)
  | None => directory f !! file_name storePath id = None
  end.

(** A temporary file can be made. *)
Definition can_write (f : fs) : Prop := (0 < retries)%nat /\ vsize template < PATH_MAX /\ exists name, free_name (directory f) template = Some name.

(** Files that are added elsewhere, and descriptors, are not seen. *)
Lemma represents_frame f m D F i file : represents f m -> contents f !! i = None -> (forall id, utf16 id -> D !! file_name storePath id = directory f !! file_name storePath id) ->
  represents (mkFs D (<[i := file]> (contents f)) F) m.
Proof.
  intros Hm Hi HD id Hid. specialize (Hm id Hid). cbn. rewrite HD by done. destruct (m !! id) as [c|]; [|done]. destruct Hm as (Hs & j & Hj & Hc). split; [done|]. exists j. split; [done|].
  by rewrite lookup_insert_ne by congruence.
Qed.

Lemma represents_insert f m id c i F : utf16 id -> represents f m -> contents f !! i = None -> client_small c ->
  represents (mkFs (<[file_name storePath id := i]> (directory f)) (<[i := extension_file c]> (contents f)) F) (<[id := c]> m).
Proof.
  intros Hid Hm Hi Hs id' Hid'. destruct (decide (id' = id)) as [->|Hne].
  - rewrite lookup_insert_eq. split; [done|]. exists i. cbn. by rewrite !lookup_insert_eq.
  - rewrite lookup_insert_ne by congruence. specialize (Hm id' Hid'). cbn. assert (file_name storePath id <> file_name storePath id') by (intros E; by apply file_name_inj in E).
    rewrite lookup_insert_ne by done. destruct (m !! id') as [c'|]; [|done]. destruct Hm as (Hs' & j & Hj & Hc). split; [done|]. exists j. split; [done|]. by rewrite lookup_insert_ne by congruence.
Qed.

Lemma run_openTemporaryFile f : can_write f -> exists name, temporary_name template name /\ directory f !! name = None /\
  run (openTemporaryFile (literal "ContentExtension")) f =
    (Done (stringFromUTF8 name, fresh_key (descriptors f)), writing (directory f) (contents f) (descriptors f) name (fresh_key (contents f)) (fresh_key (descriptors f)) [] 0).
Proof.
  intros (_ & Ht & name & En). destruct (free_name_spec _ _ _ En) as [Hn Hd]. exists name. split; [done|]. split; [done|]. unfold openTemporaryFile. fold template.
  destruct (Z.leb_spec PATH_MAX (vsize template)); [lia|]. rewrite run_bind, run_call. cbn [posix_do]. rewrite En. done.
Qed.

Notation extension_at f e c := (compiled_view (uce_compiledExtension e) (extension_memory f e) = Done (compiled_extension c)).

(** The memory of an extension is the file. *)
Lemma memory_file f id c i fd : client_small c -> contents f !! i = Some (extension_file c) ->
  extension_at f (made_extension id (client_metaData c) (MapData (mkMapping i (vsize (extension_file c))) fd)) c.
Proof.
  intros Hs Hi. unfold extension_memory. cbn [made_extension extension_with uce_compiledExtension wc_fileData map_inode map_size]. rewrite Hi. cbn [default from_option].
  rewrite take_vsize. by apply (made_extension_view c id), small_fits.
Qed.

Lemma run_compile f m id json c : utf16 id -> represents f m -> can_write f -> compileRuleList fuel json = Done (c, None) -> client_small c ->
  exists e f', run (compileContentExtension fuel retries storePath id json) f = (Done (inl e), f') /\ uce_name e = id /\ extension_at f' e c /\ represents f' (<[id := c]> m).
Proof.
  intros Hid Hm Hf Hc Hs. assert (Hr := proj1 Hf). destruct (run_openTemporaryFile f Hf) as (name & Hn & Hd & Eo). set (i := fresh_key (contents f)) in *. set (fd := fresh_key (descriptors f)) in *.
  assert (Hi : contents f !! i = None) by apply fresh_key_free. assert (Hfd : 0 <= fd) by apply fresh_key_spec.
  unfold compileContentExtension, compiledToFile. rewrite run_bind, run_bind, Eo. destruct (Z.eqb_spec fd invalidPlatformFileHandle) as [E|_]; [unfold invalidPlatformFileHandle in E; lia|].
  rewrite run_bind, run_writeToFile by done. change (vsize invalidHeader =? -1) with false. change (overwrite [] 0 invalidHeader) with (invalidHeader ++ []). change (0 + vsize invalidHeader) with (vsize (invalidHeader ++ [])).
  rewrite Hc. cbn [io_bind]. destruct (run_client_calls (directory f) (contents f) (descriptors f) name i fd Hr c (small_chunks c Hs)) as (cc & Ecc & Ee & Em).
  rewrite (compile_finalizes fuel json c Hc) in Ecc, Em. rewrite counted_fits in Em by (by apply small_fits). rewrite Em in Ecc by done. rewrite run_bind, Ecc, Ee, Em by done.
  destruct (fileSize_file c (small_fits c Hs)) as [-> Hpos]. fold (extension_file c). unfold adoptAndMapFile. destruct (Z.eqb_spec (vsize (extension_file c)) 0); [lia|].
  rewrite run_bind, run_bind, run_call. cbn [posix_do writing descriptors directory contents fst snd]. rewrite lookup_insert_eq. cbn [run io_ret data_isNull]. unfold moveFile. rewrite run_bind, run_move.
  rewrite temporary_representation by done. cbn [writing directory contents descriptors]. rewrite lookup_insert_eq. cbn [run io_ret]. rewrite createExtension_returns. cbn [io_bind run io_ret]. rewrite delete_insert_id by done.
  eexists _, _. split; [reflexivity|]. split; [done|]. split; [apply memory_file; [done|]; cbn; by rewrite lookup_insert_eq|]. by apply represents_insert.
Qed.

(** A rule list with an error leaves a temporary file behind, and no more. *)
Lemma run_compile_error f m id json c error : represents f m -> can_write f -> compileRuleList fuel json = Done (c, Some error) -> client_small c ->
  exists f', run (compileContentExtension fuel retries storePath id json) f = (Done (inr (FromCompiler error)), f') /\ represents f' m.
Proof.
  intros Hm Hf Hc Hs. assert (Hr := proj1 Hf). destruct (run_openTemporaryFile f Hf) as (name & Hn & Hd & Eo). set (i := fresh_key (contents f)) in *. set (fd := fresh_key (descriptors f)) in *.
  assert (Hi : contents f !! i = None) by apply fresh_key_free. assert (Hfd : 0 <= fd) by apply fresh_key_spec.
  unfold compileContentExtension, compiledToFile. rewrite run_bind, run_bind, Eo. destruct (Z.eqb_spec fd invalidPlatformFileHandle) as [E|Hinv]; [unfold invalidPlatformFileHandle in E; lia|].
  rewrite run_bind, run_writeToFile by done. change (vsize invalidHeader =? -1) with false. change (overwrite [] 0 invalidHeader) with (invalidHeader ++ []). change (0 + vsize invalidHeader) with (vsize (invalidHeader ++ [])).
  rewrite Hc. cbn [io_bind]. destruct (run_client_calls (directory f) (contents f) (descriptors f) name i fd Hr c (small_chunks c Hs)) as (cc & Ecc & _).
  rewrite run_bind, Ecc. unfold closeFile, isHandleValid. apply Z.eqb_neq in Hinv as ->. cbn [negb]. rewrite run_bind.
  destruct (w_finalized c); (eexists; split; [reflexivity|]); cbn; (apply represents_frame; [done|done|]); intros id' Hid'; rewrite lookup_insert_ne; (done || by apply temporary_elsewhere).
Qed.

Lemma run_lookup f m id c : utf16 id -> represents f m -> m !! id = Some c ->
  exists e f', run (lookupContentExtension storePath id) f = (Done (inl e), f') /\ uce_name e = id /\ extension_at f' e c /\ represents f' m.
Proof.
  intros Hid Hm Hc. assert (Hr := Hm id Hid). rewrite Hc in Hr. destruct Hr as (Hs & i & Hi & Hfile). destruct (fileSize_file c (small_fits c Hs)) as [_ Hpos].
  assert (Hfits := small_fits c Hs). set (fd := fresh_key (descriptors f)). unfold lookupContentExtension, openAndMapContentExtension, mapFile. rewrite !run_bind, run_call. cbn [posix_do]. fold (file_name storePath id). rewrite Hi. fold fd.
  cbn [fst snd]. rewrite run_bind, run_call. cbn [posix_do descriptors contents directory]. rewrite lookup_insert_eq, Hfile. cbn [fst snd].
  unfold adoptAndMapFile. destruct (Z.eqb_spec (vsize (extension_file c)) 0); [lia|]. rewrite run_bind, run_call. cbn [posix_do descriptors contents directory]. rewrite lookup_insert_eq. cbn [fst snd run io_ret data_isNull].
  unfold decodeContentExtensionMetaData. rewrite !run_bind, run_call. cbn [posix_do fst snd run map_inode map_size contents]. rewrite Hfile. change (default [] (Some (extension_file c))) with (extension_file c). rewrite take_vsize. unfold extension_file at 1.
  rewrite decode_header_encoded; [|by apply client_metaData_fits|rewrite vsize_extension_file; pose proof (vsize_nonneg (client_body c)); lia]. cbn [run io_ret]. change (version (client_metaData c) =? CurrentContentExtensionFileVersion) with true. rewrite createExtension_returns.
  eexists _, _. split; [reflexivity|]. split; [done|]. split; [by apply memory_file|]. intros id' Hid'. exact (Hm id' Hid').
Qed.

Lemma run_lookup_missing f m id : utf16 id -> represents f m -> m !! id = None -> run (lookupContentExtension storePath id) f = (Done (inr (FromStore LookupFailed)), f).
Proof.
  intros Hid Hm Hc. assert (Hr := Hm id Hid). rewrite Hc in Hr. unfold lookupContentExtension, openAndMapContentExtension, mapFile. rewrite !run_bind, run_call. cbn [posix_do]. fold (file_name storePath id). by rewrite Hr.
Qed.

(** The name of a file of the store is not empty. *)
Definition named (id : list Z) : Prop := hd 0 (file_name storePath id) <> 0.

Lemma run_remove f m id : utf16 id -> represents f m -> named id ->
  exists f', run (removeContentExtension_task storePath id) f = (Done (match m !! id with Some _ => None | None => Some (FromStore RemoveFailed) end), f') /\ represents f' (delete id m).
Proof.
  intros Hid Hm Hn. assert (Hr := Hm id Hid). unfold removeContentExtension_task, deleteFile. fold (file_name storePath id). apply Z.eqb_neq in Hn as ->. rewrite run_bind, run_unlink. destruct (m !! id) as [c|] eqn:Ec.
  - destruct Hr as (_ & i & Hi & _). rewrite Hi. eexists. split; [done|]. intros id' Hid'. cbn. destruct (decide (id' = id)) as [->|Hne]; [by rewrite !lookup_delete_eq|].
    rewrite !lookup_delete_ne; [apply (Hm id' Hid')|intros E; by apply file_name_inj in E|done].
  - rewrite Hr. eexists. split; [done|]. by rewrite delete_id.
Qed.

(** *** Removing everything *)

Lemma run_delete path s : fileSystemRepresentation path = path -> hd 0 path <> 0 ->
  exists b, run (deleteFile path) s = (Done b, mkFs (delete path (directory s)) (contents s) (descriptors s)).
Proof.
  intros E Hh. unfold deleteFile. rewrite E. apply Z.eqb_neq in Hh as ->. rewrite run_unlink. destruct (directory s !! path) eqn:Ep; [by eexists|]. eexists. rewrite delete_id by done. by destruct s.
Qed.

Lemma run_delete_all paths : forall s, Forall (fun path => fileSystemRepresentation path = path /\ hd 0 path <> 0) paths ->
  exists s', run (io_fold (fun _ path => do* _ := deleteFile path in io_ret tt) tt paths) s = (Done tt, s') /\ contents s' = contents s /\ descriptors s' = descriptors s /\
    forall key, directory s' !! key = if decide (key ∈ paths) then None else directory s !! key.
Proof.
  induction paths as [|path paths IH]; intros s Hp; cbn [io_fold].
  - exists s. split_and!; [done..|]. intros key. by rewrite decide_False by apply not_elem_of_nil.
  - apply Forall_cons in Hp as [[E Hh] Hp]. destruct (run_delete path s E Hh) as (b & Eb). rewrite run_bind, run_bind, Eb. cbn [run io_ret].
    destruct (IH (mkFs (delete path (directory s)) (contents s) (descriptors s)) Hp) as (s' & Er & Hc & Hd & Hk). exists s'. split_and!; [done..|]. intros key. rewrite Hk. cbn [directory].
    destruct (decide (key = path)) as [->|Hne]; [rewrite lookup_delete_eq, (decide_True (P := path ∈ path :: paths)) by left; by destruct (decide _)|]. rewrite lookup_delete_ne by done.
    destruct (decide (key ∈ paths)); [by rewrite decide_True by (by right)|]. rewrite decide_False; [done|]. by intros [?|?]%elem_of_cons.
Qed.

(** [synchronousRemoveAllContentExtensions] removes the files of the directory of
    the store, and those only, when their paths are short and are the same as
    strings and as file names: the store is then the empty map. *)
Theorem removeAll_empties_store f m : let inside name := string_utf8 storePath ++ literal "/" ++ name in
  (forall name, 47 ∉ name -> is_Some (directory f !! inside name) -> name <> literal "." /\ name <> literal ".." /\ fileSystemRepresentation (inside name) = inside name /\ hd 0 (inside name) <> 0 /\ vsize (inside name) <= 1023) ->
  (forall id, utf16 id -> exists name, 47 ∉ name /\ file_name storePath id = inside name) -> represents f m ->
  exists f', run (synchronousRemoveAllContentExtensions storePath) f = (Done tt, f') /\ represents f' ∅ /\
    forall key, (forall name, 47 ∉ name -> key <> inside name) -> directory f' !! key = directory f !! key.
Proof.
  intros inside Hn Hid Hm. unfold synchronousRemoveAllContentExtensions, listDirectory. rewrite run_bind, run_bind, run_call. cbn [posix_do fst snd run io_ret default from_option]. unfold id.
  set (paths := List.filter _ _). assert (Hin : forall key, key ∈ paths <-> exists name, key = inside name /\ 47 ∉ name /\ is_Some (directory f !! inside name)).
  { intros key. unfold paths. rewrite list_elem_of_In, filter_In, in_map_iff, Z.leb_le. split.
    - intros [(name & <- & [Hname Hb]%filter_In) _]. apply list_elem_of_In, names_in_spec in Hname. apply negb_true_iff, orb_false_iff in Hb as [B1 B2]. apply bool_decide_eq_false in B1, B2.
      destruct Hname as [?|[?|[? ?]]]; [done|done|]. by exists name.
    - intros (name & -> & Hs & Hi). destruct (Hn name Hs Hi) as (N1 & N2 & _ & _ & N5). split; [|done]. exists name. split; [done|]. apply filter_In. split; [apply list_elem_of_In, names_in_spec; auto|].
      by rewrite !bool_decide_eq_false_2. }
  destruct (run_delete_all paths f) as (f' & Er & Hc & Hd & Hk). { apply Forall_forall. intros key (name & -> & Hs & Hi)%Hin. destruct (Hn name Hs Hi) as (_ & _ & ? & ? & _). done. }
  exists f'. split; [exact Er|]. split.
  - intros id' Hid'. rewrite lookup_empty. destruct (Hid id' Hid') as (name & Hs & E). rewrite Hk. destruct (decide _) as [?|Hno]; [done|]. destruct (directory f !! file_name storePath id') eqn:Ed; [|done]. exfalso. apply Hno, Hin. exists name. split; [done|]. split; [done|]. rewrite <- E. by eexists.
  - intros key Hkey. rewrite Hk. rewrite decide_False; [done|]. intros (name & -> & Hs & _)%Hin. by apply (Hkey name Hs).
Qed.
End Sequential.

(** ** Executions

    A list of events runs the system; it tells whether a write works, is short
    or fails. *)

Inductive how := Works | Short (n : Z) | Fails.
Inductive event := Dispatch (r : request) | RunTask (j : nat) (h : how) | Reply (j : nat).

Definition posix_answer (h : how) (s : fs) (c : syscall) : option (answer c * fs) :=
  match h with
  | Works => Some (posix_do s c)
  | Short n =>
      match c with
      | Write fd data =>
          match descriptors s !! fd with
          | Some (i, offset) =>
              match contents s !! i with
              | Some file =>
                  if (0 <=? n) && (n <=? vsize data)
                  then Some (Written n, mkFs (directory s) (<[i := overwrite file offset (take (Z.to_nat n) data)]> (contents s)) (<[fd := (i, offset + n)]> (descriptors s)))
                  else None
              | None => None
              end
          | None => None
          end
      | _ => None
      end
  | Fails => match c with Write _ _ => Some (WriteError, s) | _ => None end
  end.

Lemma posix_answer_posix h s c a s' : posix_answer h s c = Some (a, s') -> posix s c a s'.
Proof.
  destruct h as [|n|]; cbn [posix_answer].
  - intros [= E]. pose proof (posix_do_posix s c) as Hp. by rewrite E in Hp.
  - destruct c; try done. destruct (descriptors s !! fd) as [[i o]|] eqn:E; [|done]. destruct (contents s !! i) as [file|] eqn:Ef; [|done].
    destruct (Z.leb_spec 0 n); [|done]. destruct (Z.leb_spec n (vsize data)); [|done]. intros [= <- <-]. cbn. split; [done|]. by eexists _, _, _.
  - destruct c; try done. by intros [= <- <-].
Qed.

(** An operating system that may give every documented answer. *)
Program Definition any_posix : OS := {|
  os_step := posix;
  os_posix s c a s' Hp := Hp;
  env_TMPDIR := None;
  fileSystemRepresentation l := l;
  stringFromUTF8 l := l;
  string_utf8 l := l;
  vm_page_size := 4096;
  make_memory_entry m size := if 0 <=? map_inode m then Some (map_inode m + 1, size) else None;
  vm_map port n := Some (mkMapping (port - 1) n)
|}.
Next Obligation. done. Qed.
Next Obligation. intros m size port n. cbn. destruct (Z.leb_spec 0 (map_inode m)); [|done]. intros [= <- <-]. lia. Qed.
Next Obligation. intros m size port k n m'. cbn. destruct (0 <=? map_inode m); [|done]. intros [= <- <-] [= <-]. f_equal. lia. Qed.

Section Execute.
#[local] Existing Instance any_posix.
Context `{HashOrder} `{Parsers}.
Variables (fuel retries : nat) (storePath : list Z).

Definition utf16b (s : list Z) : bool := forallb (fun c => (0 <=? c) && (c <? 65536)) s.

Definition reliableb (faulted : list Z) (c : syscall) : answer c -> bool :=
  match c with
  | Write _ data => fun a => match a with Written n => n =? vsize data | _ => true end
  | Mkstemp _ => fun a => match a with Some (_, fd) => bool_decide (fd ∉ faulted) | None => true end
  | Open _ => fun a => match a with Some fd => bool_decide (fd ∉ faulted) | None => true end
  | _ => fun _ => true
  end.

(** [strict] asks for reliable answers. *)
Definition exec (strict : bool) (s : store) (e : event) : option store :=
  match e with
  | Dispatch r => if utf16b (request_id r) then Some (mkStore (st_fs s) (st_tasks s ++ [(r, request_code fuel retries storePath r)]) (st_replies s) (st_faults s)) else None
  | RunTask j h =>
      match st_tasks s !! j with
      | Some (r, Sys c k) =>
          match posix_answer h (st_fs s) c with
          | Some (a, f') => if negb strict || reliableb (st_faults s) c a then Some (mkStore f' (<[j := (r, k a)]> (st_tasks s)) (st_replies s) (faults c a ++ st_faults s)) else None
          | None => None
          end
      | _ => None
      end
  | Reply j =>
      match st_tasks s !! j with
      | Some (r, Ret (Done v)) => Some (mkStore (st_fs s) (delete j (st_tasks s)) (st_replies s ++ [(r, v)]) (st_faults s))
      | _ => None
      end
  end.

Fixpoint exec_all (strict : bool) (s : store) (es : list event) : option store :=
  match es with
  | [] => Some s
  | e :: es' => match exec strict s e with Some s' => exec_all strict s' es' | None => None end
  end.

Lemma utf16b_sound s : utf16b s = true -> utf16 s.
Proof. unfold utf16b, utf16. rewrite forallb_forall. intros Hs. apply Forall_forall. intros c Hc%list_elem_of_In. apply Hs in Hc. lia. Qed.

Lemma reliableb_sound faulted c a : reliableb faulted c a = true -> reliable faulted c a.
Proof.
  destruct c; cbn; try done.
  - destruct a as [[name fd]|]; [|done]. intros Hb%bool_decide_eq_true name' fd' [= <- <-]. done.
  - destruct a as [n| |]; try done. intros ->%Z.eqb_eq n' [= <-]. done.
  - destruct a as [fd|]; [|done]. intros Hb%bool_decide_eq_true fd' [= <-]. done.
Qed.

(** The answers an execution may have. *)
Definition answers (strict : bool) (faulted : list Z) (c : syscall) (a : answer c) : Prop := if strict then reliable faulted c a else True.

Lemma exec_step strict s e s' : exec strict s e = Some s' -> store_step fuel retries storePath (answers strict) s s'.
Proof.
  destruct e as [r|j h|j]; cbn [exec].
  - destruct (utf16b (request_id r)) eqn:E; [|done]. intros [= <-]. apply step_dispatch. by apply utf16b_sound.
  - destruct (st_tasks s !! j) as [[r [v|c k]]|] eqn:Ej; try done. destruct (posix_answer h (st_fs s) c) as [[a f']|] eqn:Ea; [|done].
    destruct (negb strict || reliableb (st_faults s) c a) eqn:Er; [|done]. intros [= <-]. eapply step_run; [done|by apply posix_answer_posix in Ea|].
    unfold answers. destruct strict; [|done]. by apply reliableb_sound.
  - destruct (st_tasks s !! j) as [[r [[v| |]|c k]]|] eqn:Ej; try done. intros [= <-]. by apply step_reply.
Qed.

Lemma exec_all_steps strict es : forall s s', exec_all strict s es = Some s' -> rtc (store_step fuel retries storePath (answers strict)) s s'.
Proof.
  induction es as [|e es IH]; intros s s'; cbn; [by intros [= <-]|]. destruct (exec strict s e) as [s1|] eqn:E; [|done]. intros Hes. eapply rtc_l; [by eapply exec_step|by apply IH].
Qed.
End Execute.

(** ** The claims *)

(** C8: On a file system that works the store is a map from identifiers to
    compiled rule lists: compiling adds the rule list, or reports its error and
    changes nothing; looking up finds the extension of the rule list compiled
    last, whose memory is exactly the compiled rule list, or fails; removing
    removes. *)
Theorem store_is_a_map `{OS} `{HashOrder} `{Parsers} fuel retries storePath `{!StoreNames storePath} f m id json c error :
  utf16 id -> named storePath id -> represents storePath f m -> can_write retries f -> compileRuleList fuel json = Done (c, error) -> client_small c ->
  let is_extension_of f r c := exists e, r = inl e /\ uce_name e = id /\ compiled_view (uce_compiledExtension e) (extension_memory f e) = Done (compiled_extension c) in
  (exists r f', run (compileContentExtension fuel retries storePath id json) f = (Done r, f') /\
    match error with
    | None => is_extension_of f' r c /\ represents storePath f' (<[id := c]> m)
    | Some e => r = inr (FromCompiler e) /\ represents storePath f' m
    end) /\
  (exists r f', run (lookupContentExtension storePath id) f = (Done r, f') /\ represents storePath f' m /\
    match m !! id with Some c' => is_extension_of f' r c' | None => r = inr (FromStore LookupFailed) end) /\
  (exists f', run (removeContentExtension_task storePath id) f = (Done (match m !! id with Some _ => None | None => Some (FromStore RemoveFailed) end), f') /\
    represents storePath f' (delete id m)).
Proof.
  intros Hid Hn Hm Hw Hc Hs is_extension_of. split_and!; [| |by apply run_remove].
  - destruct error as [e|].
    + destruct (run_compile_error fuel retries storePath f m id json c e Hm Hw Hc Hs) as (f' & E & Hr). by exists (inr (FromCompiler e)), f'.
    + destruct (run_compile fuel retries storePath f m id json c Hid Hm Hw Hc Hs) as (e & f' & E & Hname & He & Hr). exists (inl e), f'. split; [done|]. split; [by exists e|done].
  - destruct (m !! id) as [c'|] eqn:Em.
    + destruct (run_lookup storePath f m id c' Hid Hm Em) as (e & f' & E & Hname & He & Hr). exists (inl e), f'. split; [done|]. split; [done|]. by exists e.
    + exists (inr (FromStore LookupFailed)), f. by rewrite (run_lookup_missing storePath f m id Hid Hm Em).
Qed.

(** C4: However compile, look-up and remove tasks are interleaved and whichever
    system calls fail, as long as writes are complete or fail and a descriptor
    on which a write failed is not reused: every file in the place of an
    identifier is the whole result of a compilation asked for under it; every
    extension that was handed out has, whatever has happened to its file since,
    the memory of such a result, and the one of its own rule list if it was
    compiled; look-ups fail only with [LookupFailed]. *)
Theorem store_files_are_whole `{OS} `{HashOrder} `{Parsers} fuel retries storePath `{!StoreNames storePath} f s (earlier : list Z -> WTFString -> Prop) :
  let asked id json := made s (RCompile id json) \/ earlier id json in
  (forall id json c, asked id json -> compileRuleList fuel json = Done (c, None) -> client_fits c) ->
  (forall id i, utf16 id -> directory f !! file_name storePath id = Some i -> exists json c, earlier id json /\ compileRuleList fuel json = Done (c, None) /\ contents f !! i = Some (extension_file c)) ->
  rtc (store_step fuel retries storePath reliable) (mkStore f [] [] []) s ->
  let extension_of e json := exists c, compileRuleList fuel json = Done (c, None) /\ compiled_view (uce_compiledExtension e) (extension_memory (st_fs s) e) = Done (compiled_extension c) in
  (forall id i, utf16 id -> directory (st_fs s) !! file_name storePath id = Some i ->
    exists json c, asked id json /\ compileRuleList fuel json = Done (c, None) /\ contents (st_fs s) !! i = Some (extension_file c)) /\
  (forall id json e, (RCompile id json, GotExtension e) ∈ st_replies s -> uce_name e = id /\ extension_of e json) /\
  (forall id e, (RLookup id, GotExtension e) ∈ st_replies s -> uce_name e = id /\ exists json, asked id json /\ extension_of e json) /\
  (forall id e, (RLookup id, GotError e) ∈ st_replies s -> e = FromStore LookupFailed).
Proof.
  intros asked Hfit H0' Hs extension_of.
  assert (Hinv : invariant fuel storePath asked s).
  { apply (invariant_steps fuel retries storePath asked Hfit (mkStore f [] [] []) s); [|exact Hs|by left]. apply invariant_initial. intros id i Hid Hi. destruct (H0' id i Hid Hi) as (json & c & He & Hc & Hf). exists (extension_file c). split; [done|]. exists json, c. split; [by right|done]. }
  destruct Hinv as (owns & sealed & _ & _ & _ & [Hsub Hw] & Hr). rewrite Forall_forall in Hr.
  assert (Hmem : forall id json c o e i0, asked id json -> compileRuleList fuel json = Done (c, None) -> StoreSafety.extension_of id c o e ->
    (forall fd i file, o = Reading fd i file -> sealed !! i = Some file) -> i0 = id -> uce_name e = i0 /\ extension_of e json).
  { intros id json c o e i0 Ha Hc (fd & i & -> & ->) Hse ->. split; [done|]. exists c. split; [done|]. specialize (Hse _ _ _ eq_refl). eapply lookup_weaken in Hse; [|exact Hsub].
    unfold extension_memory. cbn [made_extension extension_with uce_compiledExtension wc_fileData map_inode map_size]. rewrite Hse. cbn [default from_option].
    rewrite take_vsize. apply (made_extension_view c id). by eapply Hfit. }
  split_and!.
  - intros id i Hid Hi. destruct (Hw id i Hid Hi) as (file & Hf & json & c & Ha & Hc & ->). exists json, c. split; [done|]. split; [done|]. by eapply lookup_weaken.
  - intros id json e Hin. destruct (Hr _ Hin) as (o & (c & Hc & He) & Hse). eapply (Hmem id json c); [|done..]. left. right. apply list_elem_of_fmap. by exists (RCompile id json, GotExtension e).
  - intros id e Hin. destruct (Hr _ Hin) as (o & (json & c & Ha & Hc & He) & Hse). destruct (Hmem id json c o e id Ha Hc He Hse eq_refl) as [Hn Hx]. split; [done|]. by exists json.
  - intros id e Hin. by destruct (Hr _ Hin) as (o & He & _).
Qed.

(** ** Examples *)

Section Examples.
#[local] Existing Instance any_posix.

Definition store_path : list Z := literal "/store".

#[local] Instance store_path_names : StoreNames store_path.
Proof.
  split; [done|done|done|]. intros name id (suffix & _ & ->) _ E. change (length template - 6)%nat with 21%nat in E. unfold file_name in E. cbn in E. discriminate E.
Qed.

Definition block_rule (filter : string) : list ContentExtensionRule :=
  [mkRule (mkTrigger (s_literal filter) false 0 [] DC_None) (newAction BlockLoad UINT32_MAX)].

(** A JSON parser that knows two texts. *)
#[local] Instance two_texts : Parsers := {
  JSONParse text := if s_is text "[1]" then Some (encode_rules (block_rule "a")) else if s_is text "[2]" then Some (encode_rules (block_rule "bc")) else None;
  toWTFString v := match v with JString s => s | _ => emptyString end;
  isValidSelector _ := true
}.

Definition text1 : WTFString := s_literal "[1]".
Definition text2 : WTFString := s_literal "[2]".
Definition empty_fs : fs := mkFs ∅ ∅ ∅.
Definition idle (f : fs) : store := mkStore f [] [] [].

Notation execute strict := (exec_all 128 3 store_path strict (idle empty_fs)).

Lemma empty_represents : represents store_path empty_fs ∅.
Proof. intros id Hid. rewrite lookup_empty. reflexivity. Qed.

Lemma store_is_a_map_witness : exists c r f', compileRuleList 128 text1 = Done (c, None) /\
  run (compileContentExtension 128 3 store_path (literal "x") text1) empty_fs = (Done (inl r), f') /\ represents store_path f' {[literal "x" := c]} /\
  compiled_view (uce_compiledExtension r) (extension_memory f' r) = Done (compiled_extension c).
Proof.
  destruct (compileRuleList 128 text1) as [[c [e|]]| |] eqn:Ec; [assert (E := Ec); vm_compute in E; discriminate E| |assert (E := Ec); vm_compute in E; discriminate E..].
  assert (Hsmall : client_small c). { assert (E := Ec). vm_compute in E. injection E as <-. vm_compute. discriminate. }
  destruct (store_is_a_map 128 3 store_path empty_fs ∅ (literal "x") text1 c None) as ((r & f' & E & (e & -> & _ & He) & Hr) & _).
  - apply utf16b_sound. vm_compute. reflexivity.
  - vm_compute. discriminate.
  - apply empty_represents.
  - split; [lia|]. split; [vm_compute; reflexivity|]. eexists. vm_compute. reflexivity.
  - exact Ec.
  - exact Hsmall.
  - exists c, e, f'. split; [reflexivity|]. split; [exact E|]. split; [exact Hr|exact He].
Defined.

(** A look-up before the file is moved into place, and one after. *)
Definition example_events : list event :=
  [Dispatch (RCompile (literal "x") text1)] ++ replicate 8 (RunTask 0 Works) ++ [Dispatch (RLookup (literal "x")); RunTask 1 Works; Reply 1] ++
  [RunTask 0 Works; Dispatch (RLookup (literal "x"))] ++ replicate 4 (RunTask 1 Works) ++ [Reply 1; Reply 0].

Lemma example_runs : exists s, execute true example_events = Some s /\
  exists e1 e2, st_replies s = [(RLookup (literal "x"), GotError (FromStore LookupFailed)); (RLookup (literal "x"), GotExtension e1); (RCompile (literal "x") text1, GotExtension e2)] /\ st_tasks s = [].
Proof. eexists. split; [vm_compute; reflexivity|]. eexists _, _. split; reflexivity. Qed.

Lemma text1_fits c : compileRuleList 128 text1 = Done (c, None) -> client_fits c.
Proof. intros E. vm_compute in E. injection E as <-. vm_compute. reflexivity. Qed.

Lemma store_files_are_whole_witness : exists s e c, execute true example_events = Some s /\ (RLookup (literal "x"), GotExtension e) ∈ st_replies s /\
  compileRuleList 128 text1 = Done (c, None) /\ compiled_view (uce_compiledExtension e) (extension_memory (st_fs s) e) = Done (compiled_extension c).
Proof.
  destruct example_runs as (s & Es & e1 & e2 & Er & Et). exists s, e1.
  assert (Hmade : forall id json, made s (RCompile id json) \/ False -> json = text1).
  { intros id json [[Hin|Hin]|[]]; [rewrite Et in Hin; apply elem_of_nil in Hin; destruct Hin|]. rewrite Er in Hin. apply list_elem_of_In in Hin. destruct Hin as [E|[E|[E|[]]]]; [discriminate E|discriminate E|]. injection E as _ <-. reflexivity. }
  destruct (store_files_are_whole 128 3 store_path empty_fs s (fun _ _ => False)) as (_ & _ & H3 & _).
  - intros id json c Ha Hc. rewrite (Hmade id json Ha) in Hc. exact (text1_fits c Hc).
  - intros id i Hid Hi. unfold empty_fs in Hi. cbn [directory] in Hi. rewrite lookup_empty in Hi. discriminate Hi.
  - exact (exec_all_steps 128 3 store_path true example_events _ s Es).
  - destruct (H3 (literal "x") e1) as (_ & json & Ha & c & Hc & Hv); [rewrite Er; right; left|]. exists c. split; [exact Es|]. split; [rewrite Er; right; left|].
    rewrite (Hmade _ _ Ha) in Hc. split; [exact Hc|exact Hv].
Defined.

(** The system call a task makes next. *)
Definition next_call (s : store) (j : nat) : option syscall :=
  match st_tasks s !! j with Some (_, Sys c _) => Some c | _ => None end.

(** A run that works so far, one event, and a run that works after it. *)
Definition around (before : list event) (e : event) (after : list event) : option (store * store * store) :=
  s1 ← execute true before; s2 ← exec 128 3 store_path false s1 e; s3 ← exec_all 128 3 store_path true s2 after; Some (s1, s2, s3).

Lemma around_Some {B} before e after (f : store * store * store -> B) v : (f <$> around before e after) = Some v -> exists s1 s2 s3,
  execute true before = Some s1 /\ exec 128 3 store_path false s1 e = Some s2 /\ exec_all 128 3 store_path true s2 after = Some s3 /\ f (s1, s2, s3) = v.
Proof.
  unfold around. destruct (execute true before) as [s1|]; [|done]. cbn [mbind option_bind]. destruct (exec 128 3 store_path false s1 e) as [s2|] eqn:E2; [|done]. cbn [mbind option_bind].
  destruct (exec_all 128 3 store_path true s2 after) as [s3|] eqn:E3; [|done]. cbn. intros [= <-]. by exists s1, s2, s3.
Qed.

(** A compilation up to its third write, that of five bytes of bytecode, and the
    rest of it. *)
Definition before_short_write : list event := Dispatch (RCompile (literal "x") text1) :: replicate 4 (RunTask 0 Works).
Definition after_short_write : list event := replicate 4 (RunTask 0 Works) ++ [Reply 0].

(** C39: In a concrete run a short write is taken for a complete one.  The run
    is one compilation on an empty store; every answer is one that
    [store_files_are_whole] allows except that one call to write five bytes
    writes fewer.  However many it writes, the compilation succeeds and puts a
    file into place, and the bytecode of the extension it returns lies outside
    of the mapped file. *)
Theorem short_write_is_published n : 0 <= n < 5 -> exists before after s fd data e,
  execute true before_short_write = Some before /\
  next_call before 0 = Some (Write fd data) /\ vsize data = 5 /\
  exec 128 3 store_path false before (RunTask 0 (Short n)) = Some after /\
  exec_all 128 3 store_path true after after_short_write = Some s /\
  st_replies s = [(RCompile (literal "x") text1, GotExtension e)] /\
  is_Some (directory (st_fs s) !! file_name store_path (literal "x")) /\
  compiled_view (uce_compiledExtension e) (extension_memory (st_fs s) e) = Crash.
Proof.
  intros Hn. assert (Hc : n ∈ [0; 1; 2; 3; 4]) by (rewrite !elem_of_cons; lia). clear Hn.
  set (f := fun p : store * store * store => (next_call p.1.1 0, p.2)).
  assert (Ho : exists v, (f <$> around before_short_write (RunTask 0 (Short n)) after_short_write) = Some v /\
    exists fd data e, fst v = Some (Write fd data) /\ vsize data = 5 /\ st_replies (snd v) = [(RCompile (literal "x") text1, GotExtension e)] /\
      is_Some (directory (st_fs (snd v)) !! file_name store_path (literal "x")) /\ compiled_view (uce_compiledExtension e) (extension_memory (st_fs (snd v)) e) = Crash).
  { rewrite !elem_of_cons, elem_of_nil in Hc. destruct Hc as [->|[->|[->|[->|[->|[]]]]]];
      (eexists; split; [vm_compute; reflexivity|]; eexists _, _, _; split_and!; [reflexivity..|eexists; vm_compute; reflexivity|vm_compute; reflexivity]). }
  destruct Ho as (v & Ho & fd & data & e & H1 & H2 & H3 & H4 & H5). apply around_Some in Ho as (s1 & s2 & s3 & E1 & E2 & E3 & Hf). subst v.
  exists s1, s2, s3, fd, data, e. split_and!; assumption.
Qed.

(** Nothing of the five bytes is written. *)
Lemma short_write_is_published_witness : exists before after s fd data e,
  execute true before_short_write = Some before /\
  next_call before 0 = Some (Write fd data) /\ vsize data = 5 /\
  exec 128 3 store_path false before (RunTask 0 (Short 0)) = Some after /\
  exec_all 128 3 store_path true after after_short_write = Some s /\
  st_replies s = [(RCompile (literal "x") text1, GotExtension e)] /\
  is_Some (directory (st_fs s) !! file_name store_path (literal "x")) /\
  compiled_view (uce_compiledExtension e) (extension_memory (st_fs s) e) = Crash.
Proof. apply (short_write_is_published 0). split; [discriminate|reflexivity]. Defined.

(** A write of the task for [x] fails, and its client closes the descriptor.
    Then [y] is to be compiled. *)
Definition failed_write_events : list event :=
  [Dispatch (RCompile (literal "x") text1); RunTask 0 Works; RunTask 0 Works; RunTask 0 Fails; RunTask 0 Works; Dispatch (RCompile (literal "y") text2)].

(** Then [z] is to be compiled, and opens its temporary file. *)
Definition third_task_events : list event := [Reply 0; Dispatch (RCompile (literal "z") text1); RunTask 1 Works].

(** The task for [y] writes its file and answers. *)
Definition second_task_events : list event := replicate 8 (RunTask 0 Works) ++ [Reply 0].

(** The states of that run: after the failed write, after [y] has opened its
    file, after the task for [x] has closed it, after [z] has opened its file,
    and at the end. *)
Definition reuse_run : option (store * store * store * store * store) :=
  s1 ← execute true failed_write_events; s2 ← exec 128 3 store_path false s1 (RunTask 1 Works); s3 ← exec 128 3 store_path true s2 (RunTask 0 Works);
  s4 ← exec_all 128 3 store_path false s3 third_task_events; s5 ← exec_all 128 3 store_path true s4 second_task_events; Some (s1, s2, s3, s4, s5).

Lemma reuse_run_Some {B} (f : store * store * store * store * store -> B) v : (f <$> reuse_run) = Some v -> exists s1 s2 s3 s4 s5,
  execute true failed_write_events = Some s1 /\ exec 128 3 store_path false s1 (RunTask 1 Works) = Some s2 /\ exec 128 3 store_path true s2 (RunTask 0 Works) = Some s3 /\
  exec_all 128 3 store_path false s3 third_task_events = Some s4 /\ exec_all 128 3 store_path true s4 second_task_events = Some s5 /\ f (s1, s2, s3, s4, s5) = v.
Proof.
  unfold reuse_run. destruct (execute true failed_write_events) as [s1|]; [|done]. cbn [mbind option_bind]. destruct (exec 128 3 store_path false s1 _) as [s2|] eqn:E2; [|done]. cbn [mbind option_bind].
  destruct (exec 128 3 store_path true s2 _) as [s3|] eqn:E3; [|done]. cbn [mbind option_bind]. destruct (exec_all 128 3 store_path false s3 _) as [s4|] eqn:E4; [|done]. cbn [mbind option_bind].
  destruct (exec_all 128 3 store_path true s4 _) as [s5|] eqn:E5; [|done]. cbn. intros [= <-]. by exists s1, s2, s3, s4, s5.
Qed.

(** C40: In a concrete run the second close of a descriptor mixes up files.  A
    write of the task for [x] fails, and the descriptor is closed (no write is
    short); the next call of the task closes the same number again.  Before it
    does, the task for [y] opens its temporary file [i] and is given that
    number; the close of the task for [x] closes it; the task for [z] opens the
    file [j] and is given the number in turn.  The task for [y] succeeds: the
    file it puts into place is [i], which is empty, and the bytes of its
    extension are in [j]. *)
Theorem second_close_mixes_files : exists s1 s2 s3 s4 s fd i j e c,
  execute true failed_write_events = Some s1 /\ descriptors (st_fs s1) !! fd = None /\ next_call s1 0 = Some (Close fd) /\
  exec 128 3 store_path false s1 (RunTask 1 Works) = Some s2 /\ descriptors (st_fs s2) !! fd = Some (i, 0) /\
  exec 128 3 store_path true s2 (RunTask 0 Works) = Some s3 /\ descriptors (st_fs s3) !! fd = None /\
  exec_all 128 3 store_path false s3 third_task_events = Some s4 /\ descriptors (st_fs s4) !! fd = Some (j, 0) /\ i <> j /\
  exec_all 128 3 store_path true s4 second_task_events = Some s /\
  st_replies s = [(RCompile (literal "x") text1, GotError (FromStore CompileFailed)); (RCompile (literal "y") text2, GotExtension e)] /\
  directory (st_fs s) !! file_name store_path (literal "y") = Some i /\ contents (st_fs s) !! i = Some [] /\
  compileRuleList 128 text2 = Done (c, None) /\ contents (st_fs s) !! j = Some (extension_file c).
Proof.
  set (f := fun p : store * store * store * store * store => let '(s1, s2, s3, s4, s) := p in
    (descriptors (st_fs s1) !! 0, next_call s1 0, descriptors (st_fs s2) !! 0, descriptors (st_fs s3) !! 0, descriptors (st_fs s4) !! 0,
     st_replies s, directory (st_fs s) !! file_name store_path (literal "y"), contents (st_fs s) !! 1, contents (st_fs s) !! 2)).
  assert (Ho : exists v, (f <$> reuse_run) = Some v /\ exists e c, compileRuleList 128 text2 = Done (c, None) /\
    v = (None, Some (Close 0), Some (1, 0), None, Some (2, 0),
         [(RCompile (literal "x") text1, GotError (FromStore CompileFailed)); (RCompile (literal "y") text2, GotExtension e)], Some 1, Some [], Some (extension_file c))).
  { eexists. split; [vm_compute; reflexivity|]. eexists _, _. split; vm_compute; reflexivity. }
  destruct Ho as (v & Ho & e & c & Hc & ->). apply reuse_run_Some in Ho as (s1 & s2 & s3 & s4 & s & E1 & E2 & E3 & E4 & E5 & Hf). injection Hf as H1 H2 H3 H4 H5 H6 H7 H8 H9.
  exists s1, s2, s3, s4, s, 0, 1, 2, e, c. split_and!; first [assumption | discriminate].
Qed.
End Examples.
