(* ===== verification/FilterDfas.v ===== *)
(** * The DFAs of a group of filters

    [compile_filters] converts the NFAs of the combined filters, combines the
    small DFAs, minimizes the large ones and lowers each to bytecode, the first
    with the universal actions on its root.  The DFAs it lowers, as a list,
    and that together they perform exactly the filters. *)

From stdpp Require Import gmap.
From S2P Require Import Prelude Containers Nfa NfaProofs Term CombinedFilters CombinedFiltersProofs CombinedFiltersTheorems Dfa RangeListProofs Worklist NfaToDfa NfaClosures NfaToDfaProofs ProcessTheorems.
From S2P Require Import DfaMerger DfaMinimizer MinimizerRelocate MinimizerTheorems DfaCombiner FreshDfa BytecodeCompiler ResourceLoad BytecodeCorrect BytecodeStream RuleListCompiler.

(** ** The subset construction *)

Section Convert.
Context `{HashOrder}.

Lemma set_actions_in nfa l acts : set_actions nfa l = Done acts -> forall a, a ∈ acts -> a ∈ nfa_actions nfa.
Proof.
  unfold set_actions. intros E. revert E. apply (ofold_keeps _ (fun acts => forall a, a ∈ acts -> a ∈ nfa_actions nfa)); [|by intros a ?%elem_of_nil].
  intros s x s' E Hs a Ha. apply obind_Done in E as (l1 & E1 & E). injection E as <-. apply elem_of_hs_add_range in Ha as [Ha|Ha]; [|auto].
  unfold actionsForNode in E1. apply obind_Done in E1 as (node & _ & E1). by eapply vslice_elem.
Qed.

Lemma table_add_actions_in S nfa table dfa l table' dfa' u b : (forall a, a ∈ nfa_actions nfa -> a ∈ S) ->
  table_add table dfa nfa l = Done (table', dfa', u, b) -> actions_in S dfa -> actions_in S dfa'.
Proof.
  intros HS. unfold table_add. destruct (List.find _ table); [by intros [= <- <- <- <-]|]. intros E Hd. apply obind_Done in E as ([d1 u1] & E & E'). injection E' as <- <- <- <-.
  unfold translate in E. apply obind_Done in E as (acts & Ea & E). apply obind_Done in E as (? & _ & E). injection E as <- <-.
  intros a Ha. cbn [dfa_actions] in Ha. apply elem_of_app in Ha as [Ha|Ha]; [auto|]. right. by eapply HS, set_actions_in.
Qed.

Lemma convert_actions_in S fuel nfa dfa : (forall a, a ∈ nfa_actions nfa -> a ∈ S) -> convert fuel nfa = Done dfa -> actions_in S dfa.
Proof.
  intros HS. unfold convert. intros E. apply obind_Done in E as ([nfa' cl] & En & E). unfold resolveEpsilonClosures in En. apply obind_Done in En as (cl' & _ & En). injection En as <- <-.
  apply obind_Done in E as (root & _ & E). apply obind_Done in E as (set0 & _ & E). apply obind_Done in E as ([[[t d] u] b] & Et & E).
  set (nfa' := mkNFA _ _ _ _ _) in *. change (nfa_actions nfa) with (nfa_actions nfa') in HS. apply (table_add_actions_in S) in Et; [|done|by intros ? ?%elem_of_nil].
  revert E. change (actions_in S d) with (actions_in S (ws_dfa (mkWorkState d t [u]))) in Et. revert Et. generalize (mkWorkState d t [u]) as s.
  induction fuel as [|fuel IH]; intros s Hs E; [done|]. cbn [convert_loop] in E. destruct (ws_unprocessed s) as [|v rest]; [done|].
  apply obind_Done in E as (s1 & E1 & E). unfold process_set in E1. apply obind_Done in E1 as (c & _ & E1).
  apply (emit_actions_in (getOrCreateDFANode nfa') S) in E1; [|intros s0 D i s2 Eg Hd|done].
  - destruct (ws_unprocessed s1); [by injection E as <-|by eapply IH].
  - unfold getOrCreateDFANode in Eg. apply obind_Done in Eg as ([[[t1 d1] u1] b1] & Ea & Eg). injection Eg as <- <-. by eapply table_add_actions_in.
Qed.

(** The DFA of an NFA can be minimized and combined, and performs what the NFA does. *)
Lemma convert_good S fuel nfa : nfa_closed nfa -> nfa_nodes nfa <> [] -> (forall a, a ∈ nfa_actions nfa -> a ∈ S) -> vsize S < UINT16_MAX ->
  (2 ^ length (nfa_nodes nfa) <= fuel)%nat -> (forall dfa, convert fuel nfa = Done dfa -> 128 * vsize (dfa_nodes dfa) < 2 ^ 32) ->
  exists dfa, convert fuel nfa = Done dfa /\ fresh_dfa dfa /\ actions_in S dfa /\ live_actions (fun a => a ∈ S) dfa /\
    forall w a, ascii_word w -> a ∈ word_actions dfa w <-> exists q, path (nfa_edge nfa) 0 w q /\ nfa_action nfa q a.
Proof.
  intros Hc Hne HS Hlen Hf Hsz.
  assert (Ha : vsize (remove_dups (nfa_actions nfa)) <= UINT16_MAX).
  { assert (Hle : (length (remove_dups (nfa_actions nfa)) <= length S)%nat).
    { apply submseteq_length, NoDup_submseteq; [apply NoDup_remove_dups|]. intros a Ha. rewrite elem_of_remove_dups in Ha. auto. }
    unfold vsize in *. lia. }
  destruct (convert_runs nfa fuel Hc Hne Ha Hf) as (dfa & E & Hr & Hl). exists dfa. split; [done|]. specialize (Hsz dfa E). split_and!; [|by eapply convert_actions_in| |].
  - pose proof (convert_fresh _ _ _ E) as Hfr. apply fresh_slices in Hfr as [H1 H2]. constructor; [|done..]. eapply convert_wf; [done..|]. unfold UINT32_MAX. lia.
  - destruct (convert_spec nfa fuel Hc Hne Ha Hf) as (dfa' & table & u & E' & Hs & _). rewrite E in E'. injection E' as <-.
    apply (table_live_actions _ Hs). intros v acts a _ [_ Hx] Hin. apply Hx in Hin as (q & _ & Hq). by eapply HS, nfa_action_elem.
  - intros w a Hw. specialize (Hl w Hw). unfold word_actions. rewrite Hr. destruct (dfa_run dfa 0 w) as [m|]; [apply Hl|]. split; [by intros ?%elem_of_nil|].
    intros (q & Hq & _). by destruct (Hl q).
Qed.
End Convert.

(** ** The universal actions *)

(** [d'] is [d] with the actions [root_actions] on its root. *)
Record rooted (root_actions : list Z) (d d' : DFA) : Prop := {
  rt_wf : dfa_wf d';
  rt_root : dfa_root d' = dfa_root d;
  rt_actions : dfa_node_actions d' (dfa_root d) = root_actions;
  rt_live : forall n, live d' n <-> live d n;
  rt_transitions : forall n, dfa_node_transitions d' n = dfa_node_transitions d n;
  rt_others : forall n, live d n -> n <> dfa_root d -> dfa_node_actions d' n = dfa_node_actions d n
}.

Lemma rooted_self d : dfa_wf d -> rooted (dfa_node_actions d (dfa_root d)) d d.
Proof. by constructor. Qed.

Lemma addUniversalActions_spec d universalActions : dfa_wf d -> vsize universalActions < UINT16_MAX ->
  exists d', addUniversalActionsToDFA d universalActions = Done d' /\
    rooted (match universalActions with [] => dfa_node_actions d (dfa_root d) | _ => universalActions end) d d'.
Proof.
  intros Hw Hu. destruct universalActions as [|u us]; [exists d; split; [done|by apply rooted_self]|]. set (U := u :: us) in *.
  destruct (dwf_root _ Hw) as (root & Er & Hk). pose proof (vget_range _ _ _ Er) as Hrange. pose proof (vsize_nonneg U) as HU.
  unfold addUniversalActionsToDFA. rewrite Er. cbn [obind U]. fold U. rewrite vsize_app. replace (vsize (dfa_actions d) + vsize U - vsize (dfa_actions d)) with (vsize U) by lia.
  destruct (Z.ltb_spec (vsize U) UINT16_MAX) as [_|]; [|lia]. cbn [release_assert obind]. rewrite vset_Done by done. cbn [obind].
  set (root' := setActions root (vsize (dfa_actions d)) (vsize U)). eexists. split; [done|]. set (d' := mkDFA _ _ _ _ _).
  assert (Hget : forall n, vget (dfa_nodes d') n = if n =? dfa_root d then Done root' else vget (dfa_nodes d) n) by (intros n; by apply vget_insert).
  assert (Hlive : forall n, live d' n <-> live d n).
  { intros n. unfold live. setoid_rewrite Hget. destruct (Z.eqb_spec n (dfa_root d)) as [->|]; [|done]. split; intros _; [by exists root|by exists root']. }
  assert (Hroot : node_actions root' d' = Done U).
  { unfold node_actions. cbn. unfold u16. rewrite Z.mod_small by (unfold UINT16_MAX in *; lia). apply vslice_app; [apply vsize_nonneg|done|done]. }
  assert (Hother : forall node l, node_actions node d = Done l -> node_actions node d' = Done l) by (intros node l; apply vslice_mono).
  constructor; [constructor|..]; try done.
  - apply Hlive, Hw.
  - intros n node. rewrite Hget. destruct (Z.eqb_spec n (dfa_root d)) as [->|_].
    + intros [= <-] _. destruct (dwf_nodes _ Hw _ _ Er Hk) as [(ts & Ht & Hs & Hf) _]. constructor; [|by exists U]. exists ts. split_and!; [done..|].
      eapply Forall_impl; [exact Hf|]. intros t. apply Hlive.
    + intros En Hkn. destruct (dwf_nodes _ Hw _ _ En Hkn) as [(ts & Ht & Hs & Hf) (l & Hl)]. constructor; [|exists l; auto]. exists ts. split_and!; [done..|].
      eapply Forall_impl; [exact Hf|]. intros t. apply Hlive.
  - cbn. rewrite vsize_insert. apply (dwf_size _ Hw).
  - unfold dfa_node_actions. by rewrite Hget, Z.eqb_refl, Hroot.
  - intros n. unfold dfa_node_transitions. rewrite Hget. destruct (Z.eqb_spec n (dfa_root d)) as [->|]; [|done]. by rewrite Er.
  - intros n Hn Hne. destruct (live_node _ _ Hw Hn) as (node & ts & acts & En & _ & Ha & _ & -> & _). unfold dfa_node_actions. rewrite Hget.
    destruct (Z.eqb_spec n (dfa_root d)); [done|]. by rewrite En, (Hother _ _ Ha).
Qed.

(** ** What a DFA reports *)

Lemma rooted_step U d d' n c : rooted U d d' -> dfa_step d' n c = dfa_step d n c.
Proof. intros Hr. unfold dfa_step. by rewrite (rt_transitions _ _ _ Hr). Qed.

Lemma rooted_visits U d d' w : rooted U d d' -> forall n, dfa_visits d' n w = dfa_visits d n w.
Proof. intros Hr. induction w as [|c w IH]; intros n; [done|]. cbn [dfa_visits]. rewrite (rooted_step U d d') by done. destruct (dfa_step d n c); [|done]. by rewrite IH. Qed.

Lemma visits_live d w : dfa_wf d -> forall n m, live d n -> m ∈ dfa_visits d n w -> live d m.
Proof.
  intros Hw. induction w as [|c w IH]; intros n m Hn; cbn [dfa_visits]; [by intros ?%elem_of_nil|]. destruct (dfa_step d n c) as [k|] eqn:E; [|by intros ?%elem_of_nil].
  assert (Hk : live d k). { destruct (live_node _ _ Hw Hn) as (node & ts & acts & _ & _ & _ & Ht & _ & _ & Hf). unfold dfa_step in E. rewrite Ht in E.
    apply trans_target_elem in E as (t & Hin & _ & <-). rewrite Forall_forall in Hf. auto. }
  intros [->|Hm]%elem_of_cons; [done|by eapply IH].
Qed.

Lemma rooted_reported U d d' url : dfa_wf d -> rooted U d d' -> dfa_reported url d' = dfa_reported url d.
Proof.
  intros Hw Hr. unfold dfa_reported, reported. rewrite (rt_root _ _ _ Hr), (rooted_visits U d d') by done. f_equal. apply map_ext_in. intros m Hm%list_elem_of_In.
  unfold entered_actions. rewrite (rt_root _ _ _ Hr). destruct (Z.eqb_spec m (dfa_root d)); [done|]. apply (rt_others _ _ _ Hr); [|done]. eapply visits_live; [done|by apply dwf_root|done].
Qed.

Lemma rooted_ok U d d' : rooted U d d' -> Forall action_wf U -> dfa_ok d -> dfa_ok d'.
Proof.
  intros Hr HU [Hw Ha He]. constructor; [by eapply rt_wf| |].
  - intros n Hn. destruct (Z.eq_dec n (dfa_root d)) as [->|Hne]; [by rewrite (rt_actions _ _ _ Hr)|]. apply (rt_live _ _ _ Hr) in Hn. rewrite (rt_others _ _ _ Hr) by done. by apply Ha.
  - intros n m Hn. rewrite (rooted_step U d d'), !(rt_transitions _ _ _ Hr) by done. apply He. by apply (rt_live _ _ _ Hr).
Qed.

(** Without actions on the root, the actions along the word are those of its prefixes. *)
Lemma elem_of_reported d a w : forall n, a ∈ reported d n w <-> exists p r m, w = p ++ r /\ p <> [] /\ dfa_run d n p = Some m /\ a ∈ entered_actions d m.
Proof.
  induction w as [|c w IH]; intros n.
  - split; [by intros ?%elem_of_nil|]. intros (p & r & m & E & Hp & _). symmetry in E. by apply app_eq_nil in E as [-> _].
  - unfold reported. cbn [dfa_visits]. destruct (dfa_step d n c) as [k|] eqn:E.
    + cbn [map concat]. rewrite elem_of_app. fold (reported d k w). rewrite IH. split.
      * intros [Ha|(p & r & m & -> & Hp & Hm & Ha)]; [exists [c], w, k|exists (c :: p), r, m]; cbn [dfa_run]; rewrite E; done.
      * intros (p & r & m & Ep & Hp & Hm & Ha). destruct p as [|c' p]; [done|]. injection Ep as <- ->. cbn [dfa_run] in Hm. rewrite E in Hm.
        destruct p as [|c' p]; [left; by injection Hm as ->|right; by exists (c' :: p), r, m].
    + split; [by intros ?%elem_of_nil|]. intros (p & r & m & Ep & Hp & Hm & _). destruct p as [|c' p]; [done|]. injection Ep as <- _. cbn [dfa_run] in Hm. by rewrite E in Hm.
Qed.

Lemma reported_word d a w : dfa_node_actions d (dfa_root d) = [] -> a ∈ reported d (dfa_root d) w <-> exists p r, w = p ++ r /\ a ∈ word_actions d p.
Proof.
  intros Hroot. rewrite elem_of_reported. unfold word_actions, entered_actions. split.
  - intros (p & r & m & -> & Hp & Hm & Ha). exists p, r. split; [done|]. rewrite Hm. destruct (m =? dfa_root d); [by apply elem_of_nil in Ha|done].
  - intros (p & r & -> & Ha). destruct (dfa_run d (dfa_root d) p) as [m|] eqn:Hm; [|by apply elem_of_nil in Ha]. exists p, r, m.
    destruct (Z.eqb_spec m (dfa_root d)) as [->|]; [rewrite Hroot in Ha; by apply elem_of_nil in Ha|]. split_and!; [done| |done..]. intros ->. by injection Hm.
Qed.

(** ** The DFAs of the filters *)

Section Filters.
Context `{HashOrder} (fuel : nat).

(** The handler of [processNFAs] without the lowering: the large DFAs, in order. *)
Definition sort_dfa (s : list DFA * list DFA) (nfa : NFA) : outcome (list DFA * list DFA) :=
  let (small, large) := s in
  let* dfa := convert fuel nfa in
  if graphSize dfa <? smallDFASize then let* small' := addDFA small dfa in Done (small', large)
  else let* dfa' := minimize dfa in Done (small, large ++ [dfa']).

Definition filter_dfas (filters : CombinedURLFilters) : outcome (list DFA) :=
  let* nfas := processNFAs filters maxNFASize in
  let* (small, large) := ofold sort_dfa ([], []) nfas in
  let* dfas := combineDFAs smallDFASize small in
  Done (large ++ dfas).

(** The universal actions are on the root of the first DFA; there is at least one. *)
Definition with_universal_actions (universalActions : list Z) (dfas : list DFA) : outcome (list DFA) :=
  match dfas with
  | [] => let* d := addUniversalActionsToDFA DFA_empty universalActions in Done [d]
  | d :: ds => let* d' := addUniversalActionsToDFA d universalActions in Done (d' :: ds)
  end.

Definition lowered_dfas (filters : CombinedURLFilters) (universalActions : list Z) : outcome (list DFA) :=
  let* dfas := filter_dfas filters in with_universal_actions universalActions dfas.

(** The DFAs of the domains. *)
Definition domain_dfas (filters : CombinedURLFilters) : outcome (list DFA) :=
  let* nfas := processNFAs filters maxNFASize in
  ofold (fun dfas nfa => let* dfa := convert fuel nfa in Done (dfas ++ [dfa])) [] nfas.

(** *** Lowering *)

Lemma compile_domains_each filters dfas written : domain_dfas filters = Done dfas -> compile_each [] dfas = Done written -> compile_domains fuel filters = Done written.
Proof.
  unfold domain_dfas, compile_domains. intros E Ew. apply obind_Done in E as (nfas & En & E). rewrite En. cbn [obind].
  assert (Hgen : forall ds0 w0, ofold (fun dfas nfa => let* dfa := convert fuel nfa in Done (dfas ++ [dfa])) ds0 nfas = Done dfas ->
    exists new, dfas = ds0 ++ new /\ forall w, compile_each w0 new = Done w -> ofold (compile_domain_nfa fuel) w0 nfas = Done w).
  { clear E Ew En. induction nfas as [|nfa nfas IH]; intros ds0 w0 E; [injection E as <-; exists []; by rewrite app_nil_r|]. cbn [ofold] in *. apply obind_Done in E as (ds1 & E1 & E).
    apply obind_Done in E1 as (d & Ed & E1). injection E1 as <-. destruct (compile d []) as [b| |] eqn:Eb.
    - destruct (IH _ (w0 ++ [b]) E) as (new & -> & Hn). exists (d :: new). rewrite <- app_assoc. split; [done|]. intros w Hw. unfold compile_domain_nfa at 1. rewrite Ed. cbn [obind]. rewrite Eb.
      cbn [obind]. apply Hn. unfold compile_each in *. cbn [ofold] in Hw. by rewrite Eb in Hw.
    - destruct (IH _ w0 E) as (new & -> & _). exists (d :: new). rewrite <- app_assoc. split; [done|]. unfold compile_each. cbn [ofold]. by rewrite Eb.
    - destruct (IH _ w0 E) as (new & -> & _). exists (d :: new). rewrite <- app_assoc. split; [done|]. unfold compile_each. cbn [ofold]. by rewrite Eb. }
  destruct (Hgen [] [] E) as (new & Enew & Hn). cbn [app] in Enew. subst new. by apply Hn.
Qed.

Lemma handle_sorted U nfas : forall small0 large0 low0 small large, ofold sort_dfa (small0, large0) nfas = Done (small, large) ->
  exists new, large = large0 ++ new /\ forall low, ofold (lower_dfa U) low0 new = Done low -> ofold (handle_nfa fuel U) (small0, low0) nfas = Done (small, low).
Proof.
  induction nfas as [|nfa nfas IH]; intros small0 large0 low0 small large E.
  { injection E as <- <-. exists []. split; [by rewrite app_nil_r|]. by intros low [= <-]. }
  cbn [ofold] in *. apply obind_Done in E as ([s1 l1] & E1 & E). unfold sort_dfa in E1. apply obind_Done in E1 as (dfa & Ec & E1). unfold handle_nfa at 1. rewrite Ec. cbn [obind].
  destruct (graphSize dfa <? smallDFASize).
  - apply obind_Done in E1 as (small' & Ea & E1). injection E1 as -> ->. rewrite Ea. cbn [obind]. by apply IH.
  - apply obind_Done in E1 as (dfa' & Em & E1). injection E1 as -> <-. rewrite Em. cbn [obind]. destruct (lower_dfa U low0 dfa') as [low1| |] eqn:El.
    + destruct (IH _ _ low1 _ _ E) as (new & -> & Hn). exists (dfa' :: new). rewrite <- app_assoc. split; [done|]. intros low. cbn [ofold]. rewrite El. cbn [obind]. apply Hn.
    + destruct (IH _ _ low0 _ _ E) as (new & -> & _). exists (dfa' :: new). rewrite <- app_assoc. split; [done|]. intros low. cbn [ofold]. by rewrite El.
    + destruct (IH _ _ low0 _ _ E) as (new & -> & _). exists (dfa' :: new). rewrite <- app_assoc. split; [done|]. intros low. cbn [ofold]. by rewrite El.
Qed.

Lemma lower_later U dfas : forall written written', compile_each written dfas = Done written' -> ofold (lower_dfa U) (true, written) dfas = Done (true, written').
Proof.
  induction dfas as [|d dfas IH]; intros written written' E; [by injection E as <-|]. unfold compile_each in *. cbn [ofold] in *. apply obind_Done in E as (w1 & E1 & E).
  apply obind_Done in E1 as (b & Eb & E1). injection E1 as <-. unfold lower_dfa at 1. cbn [obind]. rewrite Eb. cbn [obind]. by apply IH.
Qed.

(** [compile_filters] compiles the lowered DFAs, each on its own. *)
Lemma compile_filters_lowered filters U dfas written : lowered_dfas filters U = Done dfas -> compile_each [] dfas = Done written ->
  compile_filters fuel filters U = Done written.
Proof.
  unfold lowered_dfas, filter_dfas, compile_filters. intros E Ew. apply obind_Done in E as (all & E & Eu). apply obind_Done in E as (nfas & En & E). rewrite En. cbn [obind].
  apply obind_Done in E as ([small large] & Es & E). apply obind_Done in E as (out & Ec & E). injection E as <-.
  destruct (handle_sorted U nfas [] [] (false, []) small large Es) as (new & Enew & Hn). cbn [app] in Enew. subst new.
  assert (Hall : exists low, ofold (lower_dfa U) (false, []) (large ++ out) = Done low /\ (if fst low then Done (snd low) else
    let* d := addUniversalActionsToDFA DFA_empty U in let* b := compile d [] in Done (snd low ++ [b])) = Done written).
  { destruct (large ++ out) as [|d ds]; cbn [with_universal_actions] in Eu; apply obind_Done in Eu as (d' & Ed & Eu); injection Eu as <-.
    - exists (false, []). split; [done|]. cbn [fst snd]. rewrite Ed. cbn [obind]. unfold compile_each in Ew. cbn [ofold] in Ew. by destruct (compile d' []).
    - exists (true, written). split; [|done]. unfold compile_each in Ew. cbn [ofold] in *. apply obind_Done in Ew as (w1 & E1 & Ew). apply obind_Done in E1 as (b & Eb & E1).
      injection E1 as <-. unfold lower_dfa at 1. rewrite Ed. cbn [obind]. rewrite Eb. cbn [obind]. by apply lower_later. }
  destruct Hall as ([seen low] & El & Hlast). rewrite ofold_app in El. apply obind_Done in El as (low0 & El0 & El1). apply Hn in El0. unfold lowering in *. rewrite El0. cbn [obind]. rewrite Ec. cbn [obind].
  rewrite El1. cbn [obind]. exact Hlast.
Qed.
(** *** What the DFAs perform *)

(** The NFAs of the filters, and their DFAs, have a size that the subset
    construction and the minimizer can work with. *)
Definition nfas_fit (filters : CombinedURLFilters) : Prop :=
  forall nfas nfa, processNFAs filters maxNFASize = Done nfas -> nfa ∈ nfas ->
    (2 ^ length (nfa_nodes nfa) <= fuel)%nat /\ forall dfa, convert fuel nfa = Done dfa -> 128 * vsize (dfa_nodes dfa) < 2 ^ 32.

Section Actions.
Context (S : list Z) (HS : vsize S < UINT16_MAX).
Abbreviation good := (combinable S (fun a => a ∈ S)).

Lemma sort_dfas_spec nfas :
  Forall (fun nfa => nfa_closed nfa /\ nfa_nodes nfa <> [] /\ (forall a, a ∈ nfa_actions nfa -> a ∈ S) /\
    (2 ^ length (nfa_nodes nfa) <= fuel)%nat /\ forall dfa, convert fuel nfa = Done dfa -> 128 * vsize (dfa_nodes dfa) < 2 ^ 32) nfas ->
  exists small large, ofold sort_dfa ([], []) nfas = Done (small, large) /\ Forall good (large ++ small) /\
    forall w a, ascii_word w -> perform (large ++ small) w a <-> nfas_perform nfas a w.
Proof.
  induction nfas as [|nfa nfas IH] using rev_ind; intros Hn.
  { exists [], []. split; [done|]. split; [done|]. intros w a _. split; [by intros (d & Hd%elem_of_nil & _)|by intros (n & q & Hx%elem_of_nil & _)]. }
  apply Forall_app in Hn as [Hn Hx]. apply Forall_cons in Hx as [(H1 & H2 & H3 & H4 & H5) _]. destruct (IH Hn) as (small & large & E & Hg & Hp).
  destruct (convert_good S fuel nfa H1 H2 H3 HS H4 H5) as (dfa & Ec & Hf & Ha & Hl & Hw). destruct (minimize_combinable S _ dfa Hf (conj (fr_wf _ Hf) (conj Ha Hl))) as (d' & Em & Hd & Hd').
  assert (Hall : forall w a, ascii_word w -> nfas_perform (nfas ++ [nfa]) a w <-> perform (large ++ small) w a \/ a ∈ word_actions d' w).
  { intros w a Hw'. rewrite Hp, Hd', Hw by done. unfold nfas_perform. setoid_rewrite elem_of_app. setoid_rewrite list_elem_of_singleton. naive_solver. }
  rewrite ofold_app, E. cbn [obind ofold]. unfold sort_dfa. rewrite Ec. cbn [obind]. apply Forall_app in Hg as [Hg1 Hg2]. destruct (graphSize dfa <? smallDFASize).
  - unfold addDFA. rewrite Em. cbn [obind]. exists (small ++ [d']), large. split; [done|]. split; [by repeat (apply Forall_app; split); [..|constructor]|].
    intros w a Hw'. rewrite Hall, !perform_app, !perform_cons, !perform_nil by done. tauto.
  - rewrite Em. cbn [obind]. exists small, (large ++ [d']). split; [done|]. split; [by repeat (apply Forall_app; split); [..|constructor|]|].
    intros w a Hw'. rewrite Hall, !perform_app, !perform_cons, !perform_nil by done. tauto.
Qed.

Lemma filter_dfas_spec filters : filters_ok filters -> nfas_fit filters -> (forall v a, a ∈ actions_get (m_filterActions filters) v -> a ∈ S) ->
  exists dfas, filter_dfas filters = Done dfas /\ Forall good dfas /\ forall w a, ascii_word w -> perform dfas w a <-> filter_matches filters a w.
Proof.
  intros Hf Hfit Ha. destruct (processNFAs_good filters maxNFASize Hf) as (nfas & E & Hg & Hp). destruct (sort_dfas_spec nfas) as (small & large & Es & Hd & Hw).
  { apply Forall_forall. intros nfa Hin. rewrite Forall_forall in Hg. destruct (Hg nfa Hin) as (H1 & H2 & H3). destruct (Hfit nfas nfa E Hin) as [H4 H5].
    split_and!; [done..| |done|done]. intros a (v & Hv)%H3. by eapply Ha. }
  apply Forall_app in Hd as [Hd1 Hd2]. destruct (combineDFAs_spec S HS _ smallDFASize ltac:(unfold smallDFASize; lia) small Hd2) as (out & Ec & Ho & So).
  unfold filter_dfas. rewrite E. cbn [obind]. rewrite Es. cbn [obind]. rewrite Ec. cbn [obind]. exists (large ++ out). split; [done|]. split; [by apply Forall_app|].
  intros w a Hw'. rewrite <- Hp, <- Hw, !perform_app, (So w a Hw') by done. done.
Qed.
(** *** The domains: each NFA becomes one DFA. *)

Lemma converted_dfas_spec filters : filters_ok filters -> nfas_fit filters -> (forall v a, a ∈ actions_get (m_filterActions filters) v -> a ∈ S) ->
  exists dfas, domain_dfas filters = Done dfas /\ Forall good dfas /\ forall w a, ascii_word w -> perform dfas w a <-> filter_matches filters a w.
Proof.
  intros Hf Hfit Ha. destruct (processNFAs_good filters maxNFASize Hf) as (nfas & E & Hg & Hp). unfold domain_dfas. rewrite E. cbn [obind].
  assert (Hall : Forall (fun nfa => exists dfa, convert fuel nfa = Done dfa /\ good dfa /\
    forall w a, ascii_word w -> a ∈ word_actions dfa w <-> exists q, path (nfa_edge nfa) 0 w q /\ nfa_action nfa q a) nfas).
  { apply Forall_forall. intros nfa Hin. rewrite Forall_forall in Hg. destruct (Hg nfa Hin) as (H1 & H2 & H3). destruct (Hfit nfas nfa E Hin) as [H4 H5].
    destruct (convert_good S fuel nfa H1 H2) as (dfa & Ec & Hfr & Hai & Hl & Hw); [|done..|]; [intros a (v & Hv)%H3; by eapply Ha|]. exists dfa. split; [done|]. split; [|done]. split; [apply Hfr|done]. }
  clear E Hg. setoid_rewrite <- Hp. clear Hp Ha Hfit Hf.
  induction nfas as [|nfa nfas IH] using rev_ind.
  { exists []. split; [done|]. split; [done|]. intros w a _. split; [by intros ?%perform_nil|by intros (n & q & Hx%elem_of_nil & _)]. }
  apply Forall_app in Hall as [Hall Hx]. apply Forall_cons in Hx as [(dfa & Ec & Hd & Hw) _]. destruct (IH Hall) as (dfas & E & Hds & Hp). rewrite ofold_app, E. cbn [obind ofold]. rewrite Ec.
  cbn [obind]. exists (dfas ++ [dfa]). split; [done|]. split; [apply Forall_app; split; [done|by constructor]|]. intros w a Hw'. rewrite perform_app, perform_cons, perform_nil, (Hp w a Hw'), (Hw w a Hw').
  unfold nfas_perform. setoid_rewrite elem_of_app. setoid_rewrite list_elem_of_singleton. naive_solver.
Qed.
End Actions.
End Filters.
