(* ===== verification/FilterTheorems.v ===== *)
(** * From combined filters to what the bytecode reports

    The composition of the pipeline for one group of filters: NFAs, DFAs,
    bytecode and interpreter together report exactly the actions of the
    patterns that match the URL. *)

From stdpp Require Import gmap.
From S2P Require Import Prelude Containers ResourceLoad Nfa Term TermGraph CombinedFilters CombinedFiltersProofs CombinedFiltersTheorems ProcessTheorems UrlFilterSimplify UrlFilterTheorems TermTheorems Dfa NfaToDfa NfaToDfaProofs.
From S2P Require Import DfaMerger DfaCombiner Bytecode BytecodeCompiler BytecodeInterpreter BytecodeCorrect BytecodeStream RuleListCompiler FilterDfas.

(** What the pipeline asks of a group of filters and its universal actions: the
    automata have a workable size, no pattern matches the empty word, and the
    actions are few and fit their instruction. *)
Record filters_fit `{HashOrder} (fuel : nat) (filters : CombinedURLFilters) (universalActions : list Z) : Prop := {
  ff_ok : filters_ok filters;
  ff_nfas : nfas_fit fuel filters;
  ff_root : forall a, ~ filter_matches filters a [];
  ff_actions : exists S, vsize S < UINT16_MAX /\ Forall action_wf S /\ forall v a, a ∈ actions_get (m_filterActions filters) v -> a ∈ S;
  ff_universal : vsize universalActions < UINT16_MAX /\ Forall action_wf universalActions
}.

(** ** Growing a group of filters *)

(** The combined filters are well formed, match no empty word and have actions of [S]. *)
Record group_ok (S : list Z) (filters : CombinedURLFilters) : Prop := {
  go_ok : filters_ok filters;
  go_root : forall a, ~ filter_matches filters a [];
  go_actions : forall v a, a ∈ actions_get (m_filterActions filters) v -> a ∈ S
}.

Lemma group_empty S : group_ok S emptyCombinedURLFilters.
Proof.
  constructor; [apply empty_filters_ok| |].
  - intros a (p & (v & acts & _ & Hv & _) & _). done.
  - intros v a Ha. by apply elem_of_nil in Ha.
Qed.

Lemma addPattern_actions filters filters' id ts : addPattern filters id ts = Done filters' ->
  forall v a, a ∈ actions_get (m_filterActions filters') v -> a = id \/ a ∈ actions_get (m_filterActions filters) v.
Proof.
  unfold addPattern. destruct ts as [|t ts]; [intros [= <-]; auto|]. intros E. apply obind_Done in E as ([f1 last] & E1 & E). injection E as <-.
  assert (Hf1 : m_filterActions f1 = m_filterActions filters).
  { change (m_filterActions (fst (f1, last)) = m_filterActions filters). revert E1. apply (ofold_keeps add_term (fun s => m_filterActions (fst s) = m_filterActions filters)); [|done].
    intros [f2 l2] x [f3 l3] E Hf2. unfold add_term in E. cbn [fst] in *. apply obind_Done in E as (edges & _ & E). apply obind_Done in E as (next & _ & E). destruct next; [by injection E as <- <-|].
    destruct (interned (m_alphabet f2) x) as [alphabet pointer]. apply obind_Done in E as (vertices & _ & E). by injection E as <- <-. }
  intros v a. unfold actions_get. cbn [m_filterActions]. rewrite Hf1. destruct (decide (v = last)) as [->|Hne]; [|by rewrite lookup_insert_ne by done; auto].
  rewrite lookup_insert_eq. change (default [] (Some ?l)) with l. generalize (default [] (m_filterActions filters !! last)) as l. intros l. unfold vector_append_unique.
  destruct (bool_decide (id ∈ l)); [by right|]. rewrite elem_of_app, list_elem_of_singleton. tauto.
Qed.

Lemma group_add S filters filters' id ts : group_ok S filters -> id ∈ S -> addPattern filters id ts = Done filters' -> ts <> [] -> ~ terms_lang ts [] -> group_ok S filters'.
Proof.
  intros [H1 H2 H3] Hid E Hne Hn. destruct (filter_matches_addPattern filters id ts H1 Hne) as (f' & E' & Hf' & Hm). rewrite E in E'. injection E' as <-. constructor; [done| |].
  - intros a [Ha|[_ Ha]]%Hm; [by apply (H2 a)|done].
  - intros v a [->|Ha]%(addPattern_actions _ _ _ _ E); [done|by eapply H3].
Qed.

Lemma group_fits `{HashOrder} fuel S filters universalActions : group_ok S filters -> nfas_fit fuel filters -> vsize S < UINT16_MAX -> Forall action_wf S ->
  vsize universalActions < UINT16_MAX -> Forall action_wf universalActions -> filters_fit fuel filters universalActions.
Proof. intros [H1 H2 H3] Hn HS Hwf HU HUwf. constructor; eauto. Qed.

Section Filters.
Context `{HashOrder} (fuel : nat) (filters : CombinedURLFilters) (universalActions : list Z) (Hfit : filters_fit fuel filters universalActions).

Definition no_root_actions (d : DFA) : Prop := dfa_node_actions d (dfa_root d) = [].

Lemma url_prefix_ascii url p r : url_word url -> url ++ [0] = p ++ r -> ascii_word p.
Proof.
  intros Hu E. assert (Ha : ascii_word (url ++ [0])) by (apply Forall_app; split; [eapply Forall_impl; [exact Hu|]; cbn; lia|apply Forall_singleton; lia]).
  rewrite E in Ha. by apply Forall_app in Ha as [? _].
Qed.

(** DFAs without actions on their roots report what their words perform. *)
Lemma stream_performs dfas url a : Forall no_root_actions dfas ->
  a ∈ concat (map (dfa_reported url) dfas) <-> lang_matches (fun w => perform dfas w a) url.
Proof.
  intros Hr. rewrite list_elem_of_In, in_concat. setoid_rewrite in_map_iff. unfold lang_matches, perform. rewrite Forall_forall in Hr. split.
  - intros (l & (d & <- & Hd%list_elem_of_In) & Ha%list_elem_of_In). apply reported_word in Ha as (p & r & E & Ha); [|by apply Hr]. exists p, r. split; [done|]. by exists d.
  - intros (p & r & E & d & Hd & Ha). exists (dfa_reported url d). split; [exists d; by rewrite <- list_elem_of_In|]. apply list_elem_of_In, reported_word; [by apply Hr|]. by exists p, r.
Qed.

Lemma later_is_reported url dfas : Forall no_root_actions dfas -> map (later_reported url) dfas = map (dfa_reported url) dfas.
Proof. intros Hr. apply map_ext_in. intros d Hd%list_elem_of_In. rewrite Forall_forall in Hr. unfold later_reported. by rewrite Hr. Qed.

Lemma DFA_empty_wf : dfa_wf DFA_empty.
Proof. by apply dfa_wfb_sound. Qed.

(** DFAs that perform the filters have well-formed actions, and none on their roots. *)
Lemma performing_dfas S dfas : Forall action_wf S -> (forall a, ~ filter_matches filters a []) -> Forall (combinable S (fun a => a ∈ S)) dfas ->
  (forall w a, ascii_word w -> perform dfas w a <-> filter_matches filters a w) -> Forall (fun d => dfa_wf d /\ actions_wf d /\ no_root_actions d) dfas.
Proof.
  intros Hwf Hroot Hd Hp. apply Forall_forall. intros d Hin. rewrite Forall_forall in Hd. destruct (Hd d Hin) as (Hw & _ & Hl). split_and!; [done| |].
  - intros n Hn'. apply Forall_forall. intros a Ha. rewrite Forall_forall in Hwf. by eapply Hwf, Hl.
  - unfold no_root_actions. destruct (dfa_node_actions d (dfa_root d)) as [|a l] eqn:El; [done|]. exfalso. apply (Hroot a), Hp; [constructor|]. exists d. split; [done|].
    unfold word_actions. cbn [dfa_run]. rewrite El. left.
Qed.

Lemma performed_accepts dfas url a : (forall w a, ascii_word w -> perform dfas w a <-> filter_matches filters a w) -> url_word url ->
  lang_matches (fun w => perform dfas w a) url <-> accepts filters a url.
Proof. intros Hp Hu. unfold accepts, lang_matches. split; intros (p & r & E & Hx); exists p, r; (split; [done|]); (apply Hp; [by eapply url_prefix_ascii|done]). Qed.

Lemma filters_dfas : exists dfas, filter_dfas fuel filters = Done dfas /\ Forall (fun d => dfa_wf d /\ actions_wf d /\ no_root_actions d) dfas /\
  forall w a, ascii_word w -> perform dfas w a <-> filter_matches filters a w.
Proof.
  destruct Hfit as [Hok Hn Hroot (S & HS & Hwf & HA) _]. destruct (filter_dfas_spec fuel S HS filters Hok Hn HA) as (dfas & E & Hd & Hp). exists dfas. split; [done|]. split; [|done].
  by apply (performing_dfas S).
Qed.

(** The lowered DFAs, the first with the universal actions. *)
Record lowered (dfas : list DFA) : Prop := {
  lw_nonempty : dfas <> [];
  lw_wf : Forall (fun d => dfa_wf d /\ actions_wf d) dfas;
  lw_universal : forall a, a ∈ universal_actions dfas <-> a ∈ universalActions /\ conditional a = false;
  lw_reported : forall url a, url_word url -> a ∈ stream_reported url dfas <-> accepts filters a url \/ (a ∈ universalActions /\ conditional a = true)
}.

Lemma lowered_from d0 rest dfas d' : addUniversalActionsToDFA d0 universalActions = Done d' -> dfas = d' :: rest ->
  Forall (fun d => dfa_wf d /\ actions_wf d /\ no_root_actions d) (d0 :: rest) ->
  (forall w a, ascii_word w -> perform (d0 :: rest) w a <-> filter_matches filters a w) -> lowered dfas.
Proof.
  intros E -> Hd Hp. destruct (ff_universal _ _ _ Hfit) as [HU1 HU2]. apply Forall_cons in Hd as [(Hw & Ha & Hr) Hd]. destruct (addUniversalActions_spec d0 universalActions Hw HU1) as (d1 & E1 & H1).
  rewrite E in E1. injection E1 as <-.
  assert (Hact : rooted universalActions d0 d') by (destruct universalActions; [by rewrite Hr in H1|done]). clear H1.
  assert (Hrest : Forall no_root_actions rest) by (eapply Forall_impl; [exact Hd|]; by intros d (_ & _ & ?)).
  constructor; [done| | |].
  - constructor; [|eapply Forall_impl; [exact Hd|]; by intros d (? & ? & _)]. split; [apply Hact|]. intros n Hn. destruct (Z.eq_dec n (dfa_root d0)) as [->|Hne].
    + by rewrite (rt_actions _ _ _ Hact).
    + apply (rt_live _ _ _ Hact) in Hn. rewrite (rt_others _ _ _ Hact) by done. by apply Ha.
  - intros a. unfold universal_actions. rewrite list_elem_of_filter, (rt_root _ _ _ Hact), (rt_actions _ _ _ Hact), negb_true_iff. tauto.
  - intros url a Hu. unfold stream_reported. rewrite !elem_of_app, list_elem_of_filter, (rt_root _ _ _ Hact), (rt_actions _ _ _ Hact), (rooted_reported universalActions d0 d' url Hw Hact), later_is_reported by done.
    assert (Hall : a ∈ dfa_reported url d0 \/ a ∈ concat (map (dfa_reported url) rest) <-> accepts filters a url); [|tauto].
    rewrite <- elem_of_app. change (_ ++ _) with (concat (map (dfa_reported url) (d0 :: rest))). rewrite stream_performs by (by constructor). by apply performed_accepts.
Qed.

Lemma lowered_dfas_spec : exists dfas, lowered_dfas fuel filters universalActions = Done dfas /\ lowered dfas.
Proof.
  destruct filters_dfas as (dfas & E & Hd & Hp). unfold lowered_dfas. rewrite E. cbn [obind]. destruct (ff_universal _ _ _ Hfit) as [HU1 HU2]. destruct dfas as [|d0 rest]; cbn [with_universal_actions].
  - destruct (addUniversalActions_spec DFA_empty universalActions DFA_empty_wf HU1) as (d' & E' & _). rewrite E'. cbn [obind]. eexists. split; [done|].
    eapply lowered_from; [exact E'|done| |].
    + constructor; [|constructor]. split_and!; [apply DFA_empty_wf| |done]. intros n Hn. apply live_bound in Hn. cbn in Hn. change (vsize [newDFANode]) with 1 in Hn. assert (n = 0) as -> by lia. constructor.
    + intros w a Hw. rewrite <- Hp by done. rewrite perform_cons. split; [|by right]. intros [Ha|]; [|done]. exfalso. unfold word_actions in Ha.
      destruct w as [|c w]; cbn in Ha; by apply elem_of_nil in Ha.
  - apply Forall_cons in Hd as Hd'. destruct Hd' as [(Hw & _) _]. destruct (addUniversalActions_spec d0 universalActions Hw HU1) as (d' & E' & _). rewrite E'. cbn [obind].
    eexists. split; [done|]. by eapply lowered_from.
Qed.
End Filters.

Lemma compile_filters_reports `{HashOrder} fuel filters universalActions dfas domainActions url flags :
  filters_fit fuel filters universalActions -> lowered_dfas fuel filters universalActions = Done dfas -> Forall eol_ok dfas -> stream_size dfas < 2 ^ 30 ->
  vsize url < 2 ^ 31 -> url_word url ->
  exists written actions universal, compile_filters fuel filters universalActions = Done written /\
    interpret (concat written) domainActions url flags = Done actions /\ NoDup actions /\
    (forall a, a ∈ actions <-> allowed domainActions flags a = true /\ (accepts filters a url \/ (a ∈ universalActions /\ conditional a = true))) /\
    actionsMatchingEverything (concat written) None = Done universal /\ NoDup universal /\
    (forall a, a ∈ universal <-> a ∈ universalActions /\ conditional a = false).
Proof.
  intros Hfit El He Hs Hu Hw. destruct (lowered_dfas_spec fuel filters universalActions Hfit) as (dfas' & E' & [Hne Hwf Hun Hrep]). rewrite El in E'. injection E' as <-.
  assert (Hok : Forall dfa_ok dfas).
  { apply Forall_forall. intros d Hd. rewrite Forall_forall in Hwf, He. destruct (Hwf d Hd). constructor; auto. }
  destruct (compile_each_laid_out dfas Hok Hs) as (codes & Ec & Hl). specialize (Hl []). cbn [app] in Hl.
  destruct (universal_collected dfas _ Hne Hok Hs Hl) as (universal & Eu & Hnu & Hau).
  exists codes, (collect domainActions flags [] (stream_reported url dfas)), universal. split_and!; try done.
  - by apply (compile_filters_lowered fuel filters universalActions dfas codes El), (Ec []).
  - apply interpret_laid_out; [done| |done..]. eapply Forall_impl; [exact Hw|]. cbn. lia.
  - apply NoDup_collect. constructor.
  - intros a. rewrite elem_of_collect, elem_of_nil, <- (Hrep url a Hw). tauto.
  - intros a. by rewrite Hau, Hun.
Qed.

(** The domains: there are no universal actions. *)
Lemma compile_domains_reports `{HashOrder} fuel S filters dfas host flags :
  group_ok S filters -> nfas_fit fuel filters -> vsize S < UINT16_MAX -> Forall action_wf S ->
  domain_dfas fuel filters = Done dfas -> Forall eol_ok dfas -> stream_size dfas < 2 ^ 30 -> vsize host < 2 ^ 31 -> url_word host ->
  exists written actions, compile_domains fuel filters = Done written /\ interpret (concat written) None host flags = Done actions /\ NoDup actions /\
    forall a, a ∈ actions <-> flags_match flags a = true /\ accepts filters a host.
Proof.
  intros [Hok Hroot HA] Hn HS Hwf El He Hs Hu Hw. destruct (converted_dfas_spec fuel S HS filters Hok Hn HA) as (dfas' & E' & Hd & Hp). rewrite El in E'. injection E' as <-.
  pose proof (performing_dfas filters S dfas Hwf Hroot Hd Hp) as Hall.
  assert (Hdok : Forall dfa_ok dfas).
  { apply Forall_forall. intros d Hin. rewrite Forall_forall in Hall, He. destruct (Hall d Hin) as (? & ? & _). constructor; auto. }
  assert (Hr : Forall no_root_actions dfas) by (eapply Forall_impl; [exact Hall|]; by intros d (_ & _ & ?)).
  destruct (compile_each_laid_out dfas Hdok Hs) as (codes & Ec & Hl). specialize (Hl []). cbn [app] in Hl.
  exists codes, (collect None flags [] (stream_reported host dfas)). split_and!.
  - by apply (compile_domains_each fuel filters dfas codes El), (Ec []).
  - apply interpret_laid_out; [done| |done..]. eapply Forall_impl; [exact Hw|]. cbn. lia.
  - apply NoDup_collect. constructor.
  - intros a. rewrite elem_of_collect, elem_of_nil. unfold allowed. cbn [domain_allows]. rewrite andb_true_r.
    rewrite <- (performed_accepts filters dfas host a Hp Hw), <- stream_performs by done.
    assert (Hsr : stream_reported host dfas = concat (map (dfa_reported host) dfas)); [|rewrite Hsr; tauto].
    destruct dfas as [|d ds]; [done|]. apply Forall_cons in Hr as [Hr Hrs]. unfold stream_reported. rewrite Hr, (later_is_reported host ds Hrs). done.
Qed.

(** ** The properties *)

(** C9: Compiling a group of filters with its universal actions returns, and
    running the bytecode reports, for every URL, exactly the actions whose
    pattern accepts the URL and the conditional universal actions, restricted
    to those that pass the flag and the domain test, while
    [actionsMatchingEverything] collects exactly the unconditional universal
    actions.  The end-of-line edges of the DFAs are assumed to be expressible
    in bytecode, and the code to be smaller than a gigabyte. *)
Theorem compile_filters_exact `{HashOrder} fuel filters universalActions dfas domainActions url flags :
  filters_fit fuel filters universalActions -> lowered_dfas fuel filters universalActions = Done dfas -> Forall eol_ok dfas -> stream_size dfas < 2 ^ 30 ->
  vsize url < 2 ^ 31 -> url_word url ->
  exists written actions universal, compile_filters fuel filters universalActions = Done written /\
    interpret (concat written) domainActions url flags = Done actions /\ NoDup actions /\
    (forall a, a ∈ actions <-> allowed domainActions flags a = true /\ (accepts filters a url \/ (a ∈ universalActions /\ conditional a = true))) /\
    actionsMatchingEverything (concat written) None = Done universal /\ NoDup universal /\
    (forall a, a ∈ universal <-> a ∈ universalActions /\ conditional a = false).
Proof. apply compile_filters_reports. Qed.

(** ** Witness *)

(** [ab] and [cb] with action 7, [a*b] with action 8; the actions 3, and 5 for
    one resource type, match everything. *)
Lemma shared_group : exists filters, shared_filters = Done filters /\ group_ok [7; 8] filters.
Proof.
  assert (Hl : forall c q ts, In c [97; 98; 99] -> q <> ZeroOrMore -> q <> ZeroOrOne -> ~ terms_lang (letter c q :: ts) []).
  { intros c q ts Hc Hq Hq' (u & v & E & Hu & _). symmetry in E. apply app_eq_nil in E as [-> ->]. revert Hu. apply at_least_one_sound.
    - destruct Hc as [<-|[<-|[<-|[]]]]; destruct q; try done; (split; [vm_compute; split; intros ?; discriminate|vm_compute; reflexivity]).
    - destruct Hc as [<-|[<-|[<-|[]]]]; by destruct q. }
  assert (Hstep : forall f id ts, group_ok [7; 8] f -> id ∈ [7; 8] -> ts <> [] -> ~ terms_lang ts [] -> exists f', addPattern f id ts = Done f' /\ group_ok [7; 8] f').
  { intros f id ts Hf Hid Hne Hn. destruct (addPattern_spec f id ts (go_ok _ _ Hf) Hne) as (f' & E & _). exists f'. split; [done|]. by eapply group_add. }
  unfold shared_filters. destruct (Hstep _ 7 [letter 97 One; letter 98 One] (group_empty _)) as (f1 & -> & H1); [left|done|apply Hl; [left|..]; done|]. cbn [obind].
  destruct (Hstep f1 7 [letter 99 One; letter 98 One] H1) as (f2 & -> & H2); [left|done|apply Hl; [right; right; left|..]; done|]. cbn [obind].
  apply Hstep; [done|right; left|done|]. intros (u & v & E & _ & Hv). symmetry in E. apply app_eq_nil in E as [_ ->]. revert Hv. apply Hl; [right; left|..]; done.
Qed.

Definition universal_example : list Z := [3; Z.shiftl 2 32 + 5].

Lemma shared_fit : exists filters, shared_filters = Done filters /\ filters_fit 300 filters universal_example.
Proof.
  destruct shared_group as (filters & E & Hg). exists filters. split; [exact E|]. apply (group_fits 300 [7; 8]); [exact Hg| |vm_compute; reflexivity| |vm_compute; reflexivity|].
  - vm_compute in E. injection E as <-. intros nfas nfa Ep. vm_compute in Ep. injection Ep as <-. intros Hin.
    repeat (apply elem_of_cons in Hin as [->|Hin]; [split; [apply Nat.leb_le; vm_compute; reflexivity|intros dfa Ed; vm_compute in Ed; injection Ed as <-; vm_compute; reflexivity]|]).
    by apply elem_of_nil in Hin.
  - repeat (constructor; [apply action_wf_range; lia|]). constructor.
  - repeat (constructor; [apply action_wf_range; vm_compute; split; [discriminate|reflexivity]|]). constructor.
Qed.

Lemma compile_filters_exact_witness : exists filters written actions universal, shared_filters = Done filters /\ compile_filters 300 filters universal_example = Done written /\
  interpret (concat written) None [97; 98] 2 = Done actions /\ actionsMatchingEverything (concat written) None = Done universal /\
  (forall a, a ∈ actions <-> allowed None 2 a = true /\ (accepts filters a [97; 98] \/ (a ∈ universal_example /\ conditional a = true))) /\
  length actions = 3%nat /\ universal = [3].
Proof.
  destruct shared_fit as (filters & E & Hf). assert (Ef := E). vm_compute in Ef. injection Ef as Ef.
  destruct (lowered_dfas_spec 300 filters universal_example Hf) as (dfas & Ed & _). assert (Hd := Ed). rewrite <- Ef in Hd. vm_compute in Hd. injection Hd as Hd.
  destruct (compile_filters_exact 300 filters universal_example dfas None [97; 98] 2 Hf Ed) as (written & actions & universal & H1 & H2 & _ & H3 & H4 & _ & _).
  - rewrite <- Hd. assert (Hok : Forall dfa_ok dfas) by (rewrite <- Hd; repeat (apply Forall_cons_2; [apply dfa_okb_sound; vm_compute; reflexivity|]); apply Forall_nil_2).
    rewrite Hd. eapply Forall_impl; [exact Hok|]. intros d Hk. apply Hk.
  - rewrite <- Hd. vm_compute. reflexivity.
  - vm_compute. reflexivity.
  - repeat constructor; vm_compute; discriminate.
  - exists filters, written, actions, universal. split; [exact E|]. split; [exact H1|]. split; [exact H2|]. split; [exact H4|]. split; [exact H3|].
    rewrite <- Ef in H1. vm_compute in H1. injection H1 as <-. vm_compute in H2. injection H2 as <-. vm_compute in H4. injection H4 as <-. split; reflexivity.
Defined.
