(* ===== verification/RuleMatching.v ===== *)
(** * The partition of the rules

    [partition_rules] sorts the filters of the rules into those without and
    with domains and the domains themselves.  Each group accepts exactly what
    its rules ask for, under the action word of the rule. *)

From stdpp Require Import gmap.
From S2P Require Import Prelude Containers Strings Term TermGraph TermTheorems CombinedFilters CombinedFiltersProofs CombinedFiltersTheorems YarrParser UrlFilterParser UrlFilterSimplify UrlFilterParse UrlFilterTheorems Dfa ResourceLoad Bytecode Rules RulesSerialize BytecodeCompiler BytecodeInterpreter BytecodeCorrect BytecodeStream Backend RuleListParser RuleListCompiler FilterDfas FilterTheorems.

(** ** The rules *)

(** The filter of a rule is the text of [r]; it is not reported as matching
    everything unless it does (a filter with both anchors asks for a
    character). *)
Record rule_filter (rule : ContentExtensionRule) (r : url_filter) : Prop := {
  rf_text : exists is8Bit, t_urlFilter (r_trigger rule) = mkString is8Bit (print_filter r);
  rf_ok : filter_ok r = true;
  rf_nonempty : print_filter r <> [];
  rf_size : vsize (print_filter r) <= MAX_PATTERN_SIZE;
  rf_anchored : f_start r = true -> f_end r = true -> ~ filter_accepts (t_urlFilterIsCaseSensitive (r_trigger rule)) r [];
  rf_domains : Forall (fun d => url_word (s_chars d)) (t_domains (r_trigger rule))
}.

Definition has_domains (rule : ContentExtensionRule) : bool := match t_domains (r_trigger rule) with [] => false | _ => true end.

Definition is_if_domain (rule : ContentExtensionRule) : bool := match t_domainCondition (r_trigger rule) with DC_IfDomain => true | _ => false end.

(** The word the automata carry for a rule. *)
Definition rule_word (rule : ContentExtensionRule) (location : Z) : Z :=
  action_word (has_domains rule && is_if_domain rule) (t_flags (r_trigger rule)) location.

(** The host is the domain, or with a star one of its subdomains. *)
Definition domain_host (domain host : list Z) : Prop :=
  match domain with
  | 42 :: rest => host = rest \/ exists sub, host = sub ++ [46] ++ rest
  | _ => host = domain
  end.

Definition rule_host (rule : ContentExtensionRule) (host : list Z) : Prop := exists d, d ∈ t_domains (r_trigger rule) /\ domain_host (s_chars d) host.

Definition rule_accepts (rule : ContentExtensionRule) (r : url_filter) (url : list Z) : Prop := filter_accepts (t_urlFilterIsCaseSensitive (r_trigger rule)) r url.

(** A rule with its location and its filter. *)
Record located_rule := mkLocated { lr_rule : ContentExtensionRule; lr_location : Z; lr_filter : url_filter }.

Definition lr_word (x : located_rule) : Z := rule_word (lr_rule x) (lr_location x).
Definition lr_ok (x : located_rule) : Prop := rule_filter (lr_rule x) (lr_filter x).

(** ** Adding one filter *)

Section Filters.
Context (S : list Z).

Lemma add_filter filters rule r id : group_ok S filters -> id ∈ S -> rule_filter rule r ->
  exists filters' status, url_filter_addPattern filters (t_urlFilter (r_trigger rule)) (t_urlFilterIsCaseSensitive (r_trigger rule)) id = Done (filters', status) /\ group_ok S filters' /\
    ((status = Ok /\ forall a url, url_word url -> accepts filters' a url <-> accepts filters a url \/ (a = id /\ rule_accepts rule r url)) \/
     (status = MatchesEverything /\ filters' = filters /\ forall url, url_word url -> rule_accepts rule r url)).
Proof.
  intros Hg Hid [(b & Et) Hr Hn Hm Ha _]. rewrite Et. destruct (url_filter_spec filters r b (t_urlFilterIsCaseSensitive (r_trigger rule)) id (go_ok _ _ Hg) Hr Hn Hm) as (f' & st & E & Hok & Hc).
  exists f', st. split; [done|]. destruct Hc as [(Hst & Hacc & _ & ts & Eadd & Hne & Hnil)|(Hst & -> & He & Hall)].
  - split; [by eapply group_add|]. left. split; [done|]. intros a url. apply Hacc.
  - split; [done|]. right. split; [done|]. split; [done|]. apply Hall. destruct (f_start r); [|by left]. destruct (f_end r); [|by right]. by destruct (Ha eq_refl eq_refl).
Qed.

(** ** Adding one domain *)

Lemma star_match domain : (exists rest, domain = 42 :: rest) \/ forall A (x : list Z -> A) (y : A), match domain with 42 :: rest => x rest | _ => y end = y.
Proof.
  destruct domain as [|c rest]; [by right|]. destruct (Z.eq_dec c 42) as [->|Hne]; [left; by exists rest|]. right. intros A x y. by repeat (destruct c as [|c|c]; try done).
Qed.

Lemma addDomain_actions filters id domain filters' : addDomain filters id domain = Done filters' ->
  forall v a, a ∈ actions_get (m_filterActions filters') v -> a = id \/ a ∈ actions_get (m_filterActions filters) v.
Proof.
  unfold addDomain. intros E. apply obind_Done in E as (eol & _ & E). destruct (star_match domain) as [(rest & ->)|Hm].
  - apply obind_Done in E as (u & _ & E). apply obind_Done in E as (dot & _ & E). apply obind_Done in E as (cs & _ & E). apply obind_Done in E as (f1 & E1 & E).
    intros v a [->|[->|Ha]%(addPattern_actions _ _ _ _ E1)]%(addPattern_actions _ _ _ _ E); auto.
  - rewrite Hm in E. apply obind_Done in E as (cs & _ & E). by apply (addPattern_actions _ _ _ _ E).
Qed.

Lemma host_end host w r : url_word host -> url_word w -> host ++ [0] = (w ++ [0]) ++ r -> host = w.
Proof.
  intros Hh Hw E. rewrite <- app_assoc in E. destruct (url_prefix _ _ _ Hw E) as (after & Eh & Ea). destruct after as [|c after]; [by rewrite app_nil_r in Eh|].
  injection Ea as -> _. rewrite Eh in Hh. apply Forall_app in Hh as [_ [Hc _]%Forall_cons]. lia.
Qed.

Lemma domain_host_match domain host : url_word domain -> url_word host -> lang_matches (domain_matches domain) host <-> domain_host domain host.
Proof.
  intros Hd Hh. unfold lang_matches, domain_host, domain_matches. destruct (star_match domain) as [(rest & ->)|Hm].
  - apply Forall_cons in Hd as [_ Hd]. split.
    + intros (p & r & E & [->|(sub & Hs & ->)]); [left; by eapply host_end|]. right. exists sub. eapply host_end; [done| |].
      * apply Forall_app. split; [done|]. constructor; [lia|done].
      * rewrite E. by rewrite <- !app_assoc.
    + intros [->|(sub & ->)]; [exists (rest ++ [0]), []; rewrite app_nil_r; auto|]. exists ((sub ++ [46] ++ rest) ++ [0]), []. rewrite app_nil_r. split; [done|]. right. exists sub.
      apply Forall_app in Hh as [Hs _]. split; [done|]. by rewrite <- !app_assoc.
  - rewrite Hm. setoid_rewrite Hm. split.
    + intros (p & r & E & ->). by eapply host_end.
    + intros ->. exists (domain ++ [0]), []. by rewrite app_nil_r.
Qed.

Lemma add_domain filters id domain : group_ok S filters -> id ∈ S -> url_word domain ->
  exists filters', addDomain filters id domain = Done filters' /\ group_ok S filters' /\
    forall a host, url_word host -> accepts filters' a host <-> accepts filters a host \/ (a = id /\ domain_host domain host).
Proof.
  intros Hg Hid Hd. destruct (addDomain_spec filters id domain (go_ok _ _ Hg) Hd) as (f' & E & Hf & Hm). exists f'. split; [done|]. split.
  - constructor; [done| |].
    + intros a [Ha|[_ Ha]]%Hm; [by apply (go_root _ _ Hg a)|]. unfold domain_matches in Ha. destruct (star_match domain) as [(rest & ->)|Hm'].
      * destruct Ha as [Ha|(sub & _ & Ha)]; symmetry in Ha; [by apply app_eq_nil in Ha as [_ ?]|]. by apply app_eq_nil in Ha as [_ ?].
      * rewrite Hm' in Ha. symmetry in Ha. by apply app_eq_nil in Ha as [_ ?].
    + intros v a [->|Ha]%(addDomain_actions _ _ _ _ E); [done|by eapply (go_actions _ _ Hg)].
  - intros a host Hh. rewrite <- (domain_host_match domain host Hd Hh). unfold accepts, lang_matches. setoid_rewrite (Hm a _). naive_solver.
Qed.

Lemma add_domains id domains : forall filters, group_ok S filters -> id ∈ S -> Forall (fun d => url_word (s_chars d)) domains ->
  exists filters', ofold (fun f domain => addDomain f id (s_chars domain)) filters domains = Done filters' /\ group_ok S filters' /\
    forall a host, url_word host -> accepts filters' a host <-> accepts filters a host \/ (a = id /\ exists d, d ∈ domains /\ domain_host (s_chars d) host).
Proof.
  induction domains as [|d domains IH]; intros filters Hg Hid Hd.
  { exists filters. split; [done|]. split; [done|]. intros a host _. setoid_rewrite elem_of_nil. naive_solver. }
  apply Forall_cons in Hd as [Hd Hds]. destruct (add_domain filters id (s_chars d) Hg Hid Hd) as (f1 & E1 & H1 & A1). destruct (IH f1 H1 Hid Hds) as (f2 & E2 & H2 & A2).
  exists f2. cbn [ofold]. rewrite E1. cbn [obind]. split; [done|]. split; [done|]. intros a host Hh. rewrite A2, A1 by done. setoid_rewrite elem_of_cons. naive_solver.
Qed.
End Filters.

(** ** The groups *)

(** The filters and the universal actions of a group do what its rules ask. *)
Definition group_exact (filters : CombinedURLFilters) (universal : list Z) (rules : list located_rule) : Prop :=
  forall a url, url_word url -> accepts filters a url \/ a ∈ universal <-> exists x, x ∈ rules /\ a = lr_word x /\ rule_accepts (lr_rule x) (lr_filter x) url.

Definition universal_ok (S universal : list Z) : Prop := NoDup universal /\ forall a, a ∈ universal -> a ∈ S.

Definition without_domains (rules : list located_rule) : list located_rule := List.filter (fun x => negb (has_domains (lr_rule x))) rules.
Definition with_domains (rules : list located_rule) : list located_rule := List.filter (fun x => has_domains (lr_rule x)) rules.

Record partitioned (S : list Z) (rules : list located_rule) (p : partition) : Prop := {
  pt_without : group_ok S (filtersWithoutDomains p);
  pt_with : group_ok S (filtersWithDomains p);
  pt_domains : group_ok S (domainFilters p);
  pt_universal_without : universal_ok S (universalWithoutDomains p);
  pt_universal_with : universal_ok S (universalWithDomains p);
  pt_without_exact : group_exact (filtersWithoutDomains p) (universalWithoutDomains p) (without_domains rules);
  pt_with_exact : group_exact (filtersWithDomains p) (universalWithDomains p) (with_domains rules);
  pt_domains_exact : forall a host, url_word host -> accepts (domainFilters p) a host <-> exists x, x ∈ rules /\ a = lr_word x /\ rule_host (lr_rule x) host
}.

Lemma accepts_empty a url : ~ accepts emptyCombinedURLFilters a url.
Proof. intros (p & r & _ & q & (v & acts & _ & Hv & _) & _). done. Qed.

Lemma partitioned_empty S : partitioned S [] emptyPartitionedRules.
Proof.
  constructor; cbn; try apply group_empty; try (split; [constructor|by intros a ?%elem_of_nil]).
  - intros a url _. split; [intros [?%accepts_empty|?%elem_of_nil]; done|by intros (x & ?%elem_of_nil & _)].
  - intros a url _. split; [intros [?%accepts_empty|?%elem_of_nil]; done|by intros (x & ?%elem_of_nil & _)].
  - intros a host _. split; [by intros ?%accepts_empty|by intros (x & ?%elem_of_nil & _)].
Qed.

Lemma group_exact_add filters universal rules x filters' universal' : group_exact filters universal rules ->
  (forall a url, url_word url -> accepts filters' a url \/ a ∈ universal' <-> (accepts filters a url \/ a ∈ universal) \/ (a = lr_word x /\ rule_accepts (lr_rule x) (lr_filter x) url)) ->
  group_exact filters' universal' (rules ++ [x]).
Proof.
  intros Hg Hn a url Hu. rewrite Hn, (Hg a url Hu) by done. setoid_rewrite elem_of_app. setoid_rewrite list_elem_of_singleton. naive_solver.
Qed.

Section Partition.
Context `{HashOrder}.

Lemma universal_ok_add S universal id : universal_ok S universal -> id ∈ S -> universal_ok S (hs_add universal id).
Proof. intros [H1 H2] Hid. split; [auto with ce|]. intros a [->|?]%elem_of_hs_add; auto. Qed.

(** Adding the filter of a rule to a group, and to its universal actions. *)
Lemma group_step S filters universal rules x : group_ok S filters -> universal_ok S universal -> group_exact filters universal rules -> lr_word x ∈ S -> lr_ok x ->
  exists filters' status, url_filter_addPattern filters (t_urlFilter (r_trigger (lr_rule x))) (t_urlFilterIsCaseSensitive (r_trigger (lr_rule x))) (lr_word x) = Done (filters', status) /\
    group_ok S filters' /\ exists universal', match status with Ok => universal' = universal | MatchesEverything => universal' = hs_add universal (lr_word x) | _ => False end /\
      universal_ok S universal' /\ group_exact filters' universal' (rules ++ [x]).
Proof.
  intros Hg Hu He Hin Hok. destruct (add_filter S filters (lr_rule x) (lr_filter x) (lr_word x) Hg Hin Hok) as (f' & st & E & Hg' & Hc). exists f', st. split; [done|]. split; [done|].
  destruct Hc as [(-> & Ha)|(-> & -> & Ha)].
  - exists universal. split; [done|]. split; [done|]. apply (group_exact_add filters universal); [done|]. intros a url Hw. rewrite Ha by done. tauto.
  - exists (hs_add universal (lr_word x)). split; [done|]. split; [by apply universal_ok_add|]. apply (group_exact_add filters universal); [done|]. intros a url Hw.
    rewrite elem_of_hs_add. specialize (Ha url Hw). naive_solver.
Qed.

Lemma filter_snoc {A} (p : A -> bool) l x : List.filter p (l ++ [x]) = if p x then List.filter p l ++ [x] else List.filter p l.
Proof. rewrite List.filter_app. cbn. destruct (p x); [done|by rewrite app_nil_r]. Qed.

Lemma add_rule_spec S rules p x : partitioned S rules p -> lr_word x ∈ S -> lr_ok x ->
  exists p', add_rule p (lr_rule x, lr_location x) = Done (Parsed p') /\ partitioned S (rules ++ [x]) p'.
Proof.
  intros [H1 H2 H3 H4 H5 H6 H7 H8] Hin Hok. unfold add_rule.
  assert (Hword : Z.lor (Z.shiftl (t_flags (r_trigger (lr_rule x))) 32) (lr_location x) = action_word false (t_flags (r_trigger (lr_rule x))) (lr_location x)) by (unfold action_word; by rewrite Z.lor_0_l).
  assert (Hrd : t_domains (r_trigger (lr_rule x)) = [] \/ has_domains (lr_rule x) = true) by (unfold has_domains; destruct (t_domains _); auto).
  destruct Hrd as [Hrd|Hrd].
  - assert (Hd : has_domains (lr_rule x) = false) by (unfold has_domains; by rewrite Hrd). rewrite Hrd. unfold add_rule_without_domains.
    assert (Hw : Z.lor (Z.shiftl (t_flags (r_trigger (lr_rule x))) 32) (lr_location x) = lr_word x) by (rewrite Hword; unfold lr_word, rule_word; by rewrite Hd). rewrite Hw.
    destruct (group_step S _ _ _ x H1 H4 H6 Hin Hok) as (f' & st & E & Hg & U' & Hst & Hu & He). rewrite E. cbn [obind].
    exists (mkPartitionedRules f' (filtersWithDomains p) (domainFilters p) U' (universalWithDomains p)).
    split; [destruct st; try done; by rewrite Hst|]. constructor; cbn [filtersWithoutDomains filtersWithDomains domainFilters universalWithoutDomains universalWithDomains]; try done.
    + unfold without_domains in *. by rewrite filter_snoc, Hd.
    + unfold with_domains in *. by rewrite filter_snoc, Hd.
    + intros a host Hh. rewrite H8 by done. setoid_rewrite elem_of_app. setoid_rewrite list_elem_of_singleton. split; [naive_solver|].
      intros (y & [Hy| ->] & Hrest); [by exists y|]. destruct Hrest as [_ (d & Hdd & _)]. rewrite Hrd in Hdd. by apply elem_of_nil in Hdd.
  - destruct (t_domains (r_trigger (lr_rule x))) as [|d0 ds] eqn:Ed; [unfold has_domains in Hrd; by rewrite Ed in Hrd|]. clear d0 ds Ed. unfold add_rule_with_domains.
    assert (Hw : match t_domainCondition (r_trigger (lr_rule x)) with DC_IfDomain => Z.lor (Z.lor (Z.shiftl (t_flags (r_trigger (lr_rule x))) 32) (lr_location x)) IfDomainFlag
      | _ => Z.lor (Z.shiftl (t_flags (r_trigger (lr_rule x))) 32) (lr_location x) end = lr_word x).
    { rewrite Hword. unfold lr_word, rule_word. rewrite Hrd. cbn [andb]. unfold is_if_domain, action_word. destruct (t_domainCondition _); try done. rewrite Z.lor_0_l. apply Z.lor_comm. }
    rewrite Hw. destruct (group_step S _ _ _ x H2 H5 H7 Hin Hok) as (f' & st & E & Hg & U' & Hst & Hu & He). rewrite E. cbn [obind].
    destruct (add_domains S (lr_word x) (t_domains (r_trigger (lr_rule x))) _ H3 Hin (rf_domains _ _ Hok)) as (D' & Ed' & Hg' & Ha').
    exists (mkPartitionedRules (filtersWithoutDomains p) f' D' (universalWithoutDomains p) U').
    split; [destruct st; try done; rewrite Hst, Ed'; done|]. constructor; cbn [filtersWithoutDomains filtersWithDomains domainFilters universalWithoutDomains universalWithDomains]; try done.
    + unfold without_domains in *. by rewrite filter_snoc, Hrd.
    + unfold with_domains in *. by rewrite filter_snoc, Hrd.
    + intros a host Hh. rewrite Ha', H8 by done. fold (rule_host (lr_rule x) host). setoid_rewrite elem_of_app. setoid_rewrite list_elem_of_singleton. naive_solver.
Qed.

(** The whole loop. *)
Lemma partition_rules_spec S todo : forall rules p, partitioned S rules p -> Forall (fun x => lr_word x ∈ S /\ lr_ok x) todo ->
  exists p', partition_rules p (map (fun x => (lr_rule x, lr_location x)) todo) = Done (Parsed p') /\ partitioned S (rules ++ todo) p'.
Proof.
  induction todo as [|x todo IH]; intros rules p Hp Ht; [exists p; by rewrite app_nil_r|]. apply Forall_cons in Ht as [[Hin Hok] Ht]. cbn [map partition_rules].
  destruct (add_rule_spec S rules p x Hp Hin Hok) as (p1 & -> & Hp1). cbn [obind]. destruct (IH _ _ Hp1 Ht) as (p2 & E & Hp2). exists p2. split; [done|]. by rewrite <- app_assoc in Hp2.
Qed.
End Partition.

(** ** From rules to the locations of the actions of a load

    The bytecode that [compile_rules] writes, interpreted for a load, gives the
    locations of exactly the rules that match the load: their filter accepts
    the URL, their flags the type of the load, and their condition the domain
    of the document. *)

(** ** When a rule matches *)

Definition trigger_flags (rule : ContentExtensionRule) (flags : Z) : bool :=
  group_matches LoadTypeMask (t_flags (r_trigger rule)) flags && group_matches ResourceTypeMask (t_flags (r_trigger rule)) flags.

Definition domain_condition (rule : ContentExtensionRule) (host : list Z) : Prop :=
  has_domains rule = true -> if is_if_domain rule then rule_host rule host else ~ rule_host rule host.

Definition rule_matches (rule : ContentExtensionRule) (r : url_filter) (url : list Z) (flags : Z) (host : list Z) : Prop :=
  rule_accepts rule r url /\ trigger_flags rule flags = true /\ domain_condition rule host.

(** ** A group of filters, for all URLs at once *)

Record group_code `{HashOrder} (filters : CombinedURLFilters) (universalActions : list Z) (code universal : list Z) : Prop := {
  gc_universal : actionsMatchingEverything code None = Done universal;
  gc_elements : forall a, a ∈ universal <-> a ∈ universalActions /\ conditional a = false;
  gc_reported : forall domainActions url flags, vsize url < 2 ^ 31 -> url_word url -> exists actions, interpret code domainActions url flags = Done actions /\
    forall a, a ∈ actions <-> allowed domainActions flags a = true /\ (accepts filters a url \/ (a ∈ universalActions /\ conditional a = true))
}.

Lemma compile_group `{HashOrder} fuel filters universalActions : filters_fit fuel filters universalActions ->
  (forall dfas, lowered_dfas fuel filters universalActions = Done dfas -> Forall eol_ok dfas /\ stream_size dfas < 2 ^ 30) ->
  exists written universal, compile_filters fuel filters universalActions = Done written /\ group_code filters universalActions (concat written) universal.
Proof.
  intros Hfit Hd. destruct (lowered_dfas_spec fuel filters universalActions Hfit) as (dfas & El & _). destruct (Hd dfas El) as [He Hs].
  assert (Hall : forall domainActions url flags, vsize url < 2 ^ 31 -> url_word url -> _) by (intros domainActions url flags Hu Hw; exact (compile_filters_reports fuel filters universalActions dfas domainActions url flags Hfit El He Hs Hu Hw)).
  destruct (Hall None [] 0) as (written & _ & universal & Ec & _ & _ & _ & Eu & _ & Hu); [done|constructor|]. exists written, universal. split; [done|]. constructor; [done|done|].
  intros domainActions url flags Hl Hw. destruct (Hall domainActions url flags Hl Hw) as (written' & actions & _ & Ec' & Ei & _ & Ha & _). rewrite Ec in Ec'. injection Ec' as <-. by exists actions.
Qed.

Lemma compile_domain_group `{HashOrder} fuel S filters : group_ok S filters -> nfas_fit fuel filters -> vsize S < UINT16_MAX -> Forall action_wf S ->
  (forall dfas, domain_dfas fuel filters = Done dfas -> Forall eol_ok dfas /\ stream_size dfas < 2 ^ 30) ->
  exists written, compile_domains fuel filters = Done written /\
    forall host flags, vsize host < 2 ^ 31 -> url_word host -> exists actions, interpret (concat written) None host flags = Done actions /\
      forall a, a ∈ actions <-> flags_match flags a = true /\ accepts filters a host.
Proof.
  intros Hg Hn HS Hwf Hd. destruct (converted_dfas_spec fuel S HS filters (go_ok _ _ Hg) Hn (go_actions _ _ Hg)) as (dfas & El & _). destruct (Hd dfas El) as [He Hs].
  assert (Hall : forall host flags, vsize host < 2 ^ 31 -> url_word host -> _) by (intros host flags Hu Hw; exact (compile_domains_reports fuel S filters dfas host flags Hg Hn HS Hwf El He Hs Hu Hw)).
  destruct (Hall [] 0) as (written & _ & Ec & _); [done|constructor|]. exists written. split; [done|]. intros host flags Hl Hw.
  destruct (Hall host flags Hl Hw) as (written' & actions & Ec' & Ei & _ & Ha). rewrite Ec in Ec'. injection Ec' as <-. by exists actions.
Qed.

(** The flags of a well-formed action without condition match every load, and
    those of any match when all bits are set. *)
Lemma unconditional_flags a flags : action_wf a -> conditional a = false -> flags_match flags a = true.
Proof.
  intros (d & fl & loc & -> & Hf & Hl) Hc. unfold conditional in Hc. rewrite action_word_has_flags in Hc by done. destruct (Z.eqb_spec fl 0) as [->|]; [|done]. by rewrite flags_match_0.
Qed.

(** ** The rules with their locations *)

Definition located_rules (rules : list ContentExtensionRule) (locations : list Z) (filters : list url_filter) : list located_rule :=
  zip_with (fun rl f => mkLocated (fst rl) (snd rl) f) (zip rules locations) filters.

Section Rules.
Context `{HashOrder}.
Variables (rules : list ContentExtensionRule) (filters : list url_filter) (bytes locations : list Z).
Hypothesis Hok : rules_ok rules.
Hypothesis Hser : serializeActions rules = Done (bytes, locations).
Hypothesis Hsize : vsize bytes < 2 ^ 32.
Hypothesis Hfilters : Forall2 rule_filter rules filters.
Hypothesis Hflags : Forall (fun r => 0 <= t_flags (r_trigger r) < 2 ^ 16) rules.

Abbreviation located := (located_rules rules locations filters).

Lemma elem_of_located x : x ∈ located <-> exists i, vget rules i = Done (lr_rule x) /\ vget locations i = Done (lr_location x) /\ vget filters i = Done (lr_filter x).
Proof.
  unfold located_rules. rewrite list_elem_of_lookup. split.
  - intros (n & Hn). apply lookup_zip_with_Some in Hn as ([r l] & f & -> & Hz & Hf). apply lookup_zip_with_Some in Hz as (r' & l' & [= <- <-] & Hr & Hl).
    exists (Z.of_nat n). cbn [lr_rule lr_location lr_filter fst snd]. rewrite !vget_Done, Nat2Z.id. split_and!; (lia || done).
  - intros (i & [_ Hr]%vget_Done & [_ Hl]%vget_Done & [_ Hf]%vget_Done). exists (Z.to_nat i). apply lookup_zip_with_Some. exists (lr_rule x, lr_location x), (lr_filter x).
    split_and!; [by destruct x|apply lookup_zip_with_Some; eauto|done].
Qed.

Lemma location_range i l : vget locations i = Done l -> 0 <= l < 2 ^ 32 /\ exists r f, vget rules i = Done r /\ vget filters i = Done f.
Proof.
  intros Hl. destruct (serializeActions_spec rules Hok) as (s & E & Hs & Hp). rewrite Hser in E. injection E as Eb El. pose proof (si_size _ _ Hs) as Hsz. rewrite <- El in Hsz.
  assert (Hi : 0 <= i < vsize rules) by (apply vget_range in Hl; lia). destruct (vget_total rules i Hi) as (r & Hr & _).
  destruct (vget_total filters i) as (f & Hf & _); [apply Forall2_length in Hfilters; unfold vsize in *; lia|]. split; [|by exists r, f].
  pose proof (si_located _ _ Hs i r l) as Hloc. assert (Hb : 0 <= l < vsize bytes) by (rewrite Eb; eapply located_bound, Hloc; split_and!; [done|by rewrite <- El|apply Hp]). lia.
Qed.

Lemma located_wf x : x ∈ located -> lr_ok x /\ 0 <= t_flags (r_trigger (lr_rule x)) < 2 ^ 16 /\ 0 <= lr_location x < 2 ^ 32.
Proof.
  intros (i & Hr & Hl & Hf)%elem_of_located. pose proof (location_range i _ Hl) as [Hlr _]. apply vget_Done in Hr as [_ Hr], Hf as [_ Hf]. split_and!; try lia.
  - destruct (Forall2_lookup_lr _ _ _ _ _ _ Hfilters Hr Hf). by constructor.
  - by apply (Forall_lookup_1 _ _ _ _ Hflags Hr).
  - by apply (Forall_lookup_1 _ _ _ _ Hflags Hr).
Qed.

Lemma word_wf x : x ∈ located -> action_wf (lr_word x).
Proof. intros (_ & Hf & Hl)%located_wf. by exists (has_domains (lr_rule x) && is_if_domain (lr_rule x)), (t_flags (r_trigger (lr_rule x))), (lr_location x). Qed.

Lemma word_location x : x ∈ located -> u32 (lr_word x) = lr_location x.
Proof. intros (_ & Hf & Hl)%located_wf. by apply action_word_location. Qed.

Lemma word_flags x flags : x ∈ located -> flags_match flags (lr_word x) = trigger_flags (lr_rule x) flags.
Proof. intros (_ & Hf & Hl)%located_wf. unfold flags_match, lr_word, rule_word. by rewrite action_word_flags. Qed.

Lemma word_condition x : x ∈ located -> negb (Z.land (lr_word x) IfDomainFlag =? 0) = has_domains (lr_rule x) && is_if_domain (lr_rule x).
Proof. intros (_ & Hf & Hl)%located_wf. by apply action_word_has_domain. Qed.

(** A rule with domains has its word for itself. *)
Lemma word_unique x y : x ∈ located -> y ∈ located -> has_domains (lr_rule x) = true -> lr_word x = lr_word y -> x = y.
Proof.
  intros Hx Hy Hd E. assert (El : lr_location x = lr_location y) by (rewrite <- (word_location x), <- (word_location y) by done; by rewrite E).
  apply elem_of_located in Hx as (i & Hr & Hl & Hf), Hy as (j & Hr' & Hl' & Hf'). assert (i = j) as <-.
  { eapply (domain_location_unique rules bytes locations i j); [done|done|done| |done|by rewrite El]. unfold no_domains, has_domains in *. by destruct (t_domains _). }
  destruct x, y. cbn in *. congruence.
Qed.

(** ** The partition *)

Definition words : list Z := map lr_word located.

Lemma words_size : vsize words <= vsize rules.
Proof. unfold words, located_rules, vsize. rewrite length_map, length_zip_with, length_zip_with. lia. Qed.

Lemma words_wf : Forall action_wf words.
Proof. apply Forall_forall. intros a Ha. apply list_elem_of_In, in_map_iff in Ha as (x & <- & Hx%list_elem_of_In). by apply word_wf. Qed.

Lemma zip_located : zip rules locations = map (fun x => (lr_rule x, lr_location x)) located.
Proof.
  assert (Hlen : length (zip rules locations) = length filters).
  { destruct (serializeActions_spec rules Hok) as (s & E & Hs & _). rewrite Hser in E. injection E as _ El. pose proof (si_size _ _ Hs) as Hsz. rewrite <- El in Hsz. apply Forall2_length in Hfilters.
    rewrite length_zip_with. unfold vsize in Hsz. lia. }
  unfold located_rules. revert Hlen. generalize (zip rules locations) as l. clear. intros l. revert filters. induction l as [|[r x] l IH]; intros [|f fs] Hlen; try done. cbn. f_equal. apply IH. by injection Hlen.
Qed.

Lemma partition_located : exists p, partition_rules emptyPartitionedRules (zip rules locations) = Done (Parsed p) /\ partitioned words located p.
Proof.
  rewrite zip_located. destruct (partition_rules_spec words located [] _ (partitioned_empty words)) as (p & E & Hp); [|by exists p]. apply Forall_forall. intros x Hx. split; [|by apply located_wf].
  apply list_elem_of_In, in_map_iff. exists x. by rewrite <- list_elem_of_In.
Qed.

(** ** The code of the rules *)

(** The automata of the groups have a workable size, and their end-of-line
    edges can be expressed in bytecode. *)
Record compilable (fuel : nat) (p : partition) : Prop := {
  cb_nfas : nfas_fit fuel (filtersWithoutDomains p) /\ nfas_fit fuel (filtersWithDomains p) /\ nfas_fit fuel (domainFilters p);
  cb_without : forall dfas, lowered_dfas fuel (filtersWithoutDomains p) (universalWithoutDomains p) = Done dfas -> Forall eol_ok dfas /\ stream_size dfas < 2 ^ 30;
  cb_with : forall dfas, lowered_dfas fuel (filtersWithDomains p) (universalWithDomains p) = Done dfas -> Forall eol_ok dfas /\ stream_size dfas < 2 ^ 30;
  cb_domains : forall dfas, domain_dfas fuel (domainFilters p) = Done dfas -> Forall eol_ok dfas /\ stream_size dfas < 2 ^ 30
}.

Record rules_code (p : partition) (c : client) (universalWithout universalWith : list Z) : Prop := {
  rc_actions : w_actions c = bytes;
  rc_finalized : w_finalized c = true;
  rc_without : group_code (filtersWithoutDomains p) (universalWithoutDomains p) (concat (w_filtersWithoutDomains c)) universalWithout;
  rc_with : group_code (filtersWithDomains p) (universalWithDomains p) (concat (w_filtersWithDomains c)) universalWith;
  rc_domains : forall host flags, vsize host < 2 ^ 31 -> url_word host -> exists actions, interpret (concat (w_domainFilters c)) None host flags = Done actions /\
    forall a, a ∈ actions <-> flags_match flags a = true /\ accepts (domainFilters p) a host
}.

Lemma universal_fits universal : universal_ok words universal -> vsize rules < UINT16_MAX -> vsize universal < UINT16_MAX /\ Forall action_wf universal.
Proof.
  intros [Hn Hin] Hc. pose proof words_size. split.
  - assert (length universal <= length words)%nat by (apply submseteq_length, NoDup_submseteq; done). unfold vsize in *. lia.
  - apply Forall_forall. intros a Ha. pose proof words_wf as Hw. rewrite Forall_forall in Hw. auto.
Qed.

Lemma compile_rules_code fuel p : vsize rules < UINT16_MAX -> partition_rules emptyPartitionedRules (zip rules locations) = Done (Parsed p) -> compilable fuel p ->
  exists c universalWithout universalWith, compile_rules fuel rules = Done (c, None) /\ rules_code p c universalWithout universalWith.
Proof.
  intros Hc Ep [(N1 & N2 & N3) C1 C2 C3]. destruct partition_located as (p' & Ep' & [G1 G2 G3 U1 U2 _ _ _]). rewrite Ep in Ep'. injection Ep' as <-.
  pose proof words_size as Hws. pose proof words_wf as Hww. assert (HS : vsize words < UINT16_MAX) by lia.
  destruct (universal_fits _ U1 Hc) as [S1 W1]. destruct (universal_fits _ U2 Hc) as [S2 W2].
  destruct (compile_group fuel _ _ (group_fits fuel words _ _ G1 N1 HS Hww S1 W1) C1) as (wo & uo & E1 & H1).
  destruct (compile_group fuel _ _ (group_fits fuel words _ _ G2 N2 HS Hww S2 W2) C2) as (wd & ud & E2 & H2).
  destruct (compile_domain_group fuel words _ G3 N3 HS Hww C3) as (dm & E3 & H3).
  exists (mkClient bytes wo wd dm true), uo, ud. split; [|by constructor]. unfold compile_rules. rewrite Hser. cbn [obind]. rewrite Ep. cbn [obind]. rewrite E1. cbn [obind]. rewrite E2. cbn [obind].
  rewrite E3. done.
Qed.

(** ** The locations for a load *)

Section Load.
Variables (p : partition) (c : client) (universalWithout universalWith : list Z) (url host : list Z) (flags : Z).
Hypothesis Hpart : partitioned words located p.
Hypothesis Hcode : rules_code p c universalWithout universalWith.
Hypothesis Hurl : vsize url < 2 ^ 31 /\ url_word url.
Hypothesis Hhost : vsize host < 2 ^ 31 /\ url_word host.

Lemma universal_word a universal : universal_ok words universal -> a ∈ universal -> exists x, x ∈ located /\ a = lr_word x.
Proof. intros [_ Hin] Ha. apply Hin, list_elem_of_In, in_map_iff in Ha as (x & <- & Hx%list_elem_of_In). by exists x. Qed.

(** What a group reports, universal actions included. *)
Lemma group_words domainActions combined universalActions code universal group actions :
  group_code combined universalActions code universal -> universal_ok words universalActions -> group_exact combined universalActions group -> (forall x, x ∈ group -> x ∈ located) ->
  interpret code domainActions url flags = Done actions ->
  forall a, a ∈ actions \/ (a ∈ universal /\ domain_allows domainActions a = true) <->
    exists x, x ∈ group /\ a = lr_word x /\ rule_accepts (lr_rule x) (lr_filter x) url /\ trigger_flags (lr_rule x) flags = true /\ domain_allows domainActions a = true.
Proof.
  intros [_ Hu Hr] Hok' Hex Hsub E a. destruct Hurl as [Hl Hw]. destruct (Hr domainActions url flags Hl Hw) as (actions' & E' & Ha). rewrite E in E'. injection E' as <-.
  assert (Hmid : a ∈ actions \/ (a ∈ universal /\ domain_allows domainActions a = true) <-> allowed domainActions flags a = true /\ (accepts combined a url \/ a ∈ universalActions)).
  { rewrite Ha, Hu. unfold allowed. rewrite andb_true_iff.
    assert (Hun : a ∈ universalActions -> conditional a = false -> flags_match flags a = true).
    { intros Hin. apply unconditional_flags. destruct (universal_word a _ Hok' Hin) as (x & Hx & ->). by apply word_wf. }
    destruct (conditional a); intuition congruence. }
  rewrite Hmid, (Hex a url Hw). unfold allowed. rewrite andb_true_iff. split.
  - intros ([Hf Hd] & x & Hx & -> & Hacc). exists x. rewrite word_flags in Hf by auto. done.
  - intros (x & Hx & -> & Hacc & Hf & Hd). rewrite word_flags by auto. split; [done|]. by exists x.
Qed.

Lemma all_flags a : a ∈ words -> flags_match allLoadTypesAndResourceTypes a = true.
Proof.
  intros Ha. apply list_elem_of_In, in_map_iff in Ha as (x & <- & Hx%list_elem_of_In). rewrite word_flags by done. unfold trigger_flags, group_matches, allLoadTypesAndResourceTypes.
  assert (Hm : forall z mask, Z.land mask (Z.lor LoadTypeMask ResourceTypeMask) = mask -> (Z.land z mask =? 0) || negb (Z.land (Z.land z mask) (Z.lor LoadTypeMask ResourceTypeMask) =? 0) = true).
  { intros z mask E. rewrite <- Z.land_assoc, E. by destruct (Z.land z mask =? 0). }
  by rewrite !Hm.
Qed.

(** The actions of the domain of the document. *)
Lemma domain_words found : interpret (concat (w_domainFilters c)) None host allLoadTypesAndResourceTypes = Done found ->
  forall a, a ∈ found <-> exists x, x ∈ located /\ a = lr_word x /\ rule_host (lr_rule x) host.
Proof.
  intros E a. destruct Hhost as [Hl Hw]. destruct (rc_domains _ _ _ _ Hcode host allLoadTypesAndResourceTypes Hl Hw) as (found' & E' & Ha). rewrite E in E'. injection E' as <-.
  rewrite Ha, (pt_domains_exact _ _ _ Hpart a host Hw). split; [by intros [_ ?]|]. intros (x & Hx & -> & Hr). split; [|by exists x]. apply all_flags, list_elem_of_In, in_map_iff.
  exists x. by rewrite <- list_elem_of_In.
Qed.

Lemma elem_of_with x : x ∈ with_domains located <-> x ∈ located /\ has_domains (lr_rule x) = true.
Proof. unfold with_domains. by rewrite !list_elem_of_In, List.filter_In. Qed.

Lemma elem_of_without x : x ∈ without_domains located <-> x ∈ located /\ has_domains (lr_rule x) = false.
Proof. unfold without_domains. by rewrite !list_elem_of_In, List.filter_In, negb_true_iff. Qed.

(** The test of the interpreter on the word of a rule is the condition of the rule. *)
Lemma matches_condition found x : interpret (concat (w_domainFilters c)) None host allLoadTypesAndResourceTypes = Done found -> x ∈ with_domains located ->
  matchesDomain (lr_word x) (hs_add_range [] found) = true <-> domain_condition (lr_rule x) host.
Proof.
  intros E [Hx Hd]%elem_of_with. unfold matchesDomain, domain_condition. rewrite word_condition, Hd, Bool.eqb_true_iff by done. cbn [andb].
  assert (Hc : hs_contains (hs_add_range [] found) (lr_word x) = true <-> rule_host (lr_rule x) host).
  { rewrite hs_contains_spec, elem_of_hs_add_range, elem_of_nil, (domain_words found E). split; [|intros Hr; left; by exists x].
    intros [(y & Hy & Ew & Hr)|[]]. by rewrite (word_unique x y Hx Hy Hd Ew). }
  destruct (is_if_domain (lr_rule x)), (hs_contains (hs_add_range [] found) (lr_word x)); split; try done.
  - intros _ _. by apply Hc.
  - intros Hr. specialize (Hr eq_refl). by apply Hc in Hr.
  - intros Hn. destruct (Hn eq_refl). by apply Hc.
  - intros _ _ Hr. by apply Hc in Hr.
Qed.

Lemma elem_of_universal_for_domain found universal l : l ∈ universal_for_domain (hs_add_range [] found) universal <->
  exists a, l = u32 a /\ a ∈ universal /\ matchesDomain a (hs_add_range [] found) = true.
Proof.
  unfold universal_for_domain. rewrite list_elem_of_In, in_map_iff. setoid_rewrite List.filter_In. setoid_rewrite <- list_elem_of_In. unfold matchesDomain. naive_solver.
Qed.

(** The locations that the backend collects for a load are those of the rules
    that match it. *)
Lemma load_locations : exists without found withDomains, interpret (concat (w_filtersWithoutDomains c)) None url flags = Done without /\
  interpret (concat (w_domainFilters c)) None host allLoadTypesAndResourceTypes = Done found /\
  interpretWithDomains (concat (w_filtersWithDomains c)) url flags (hs_add_range [] found) = Done withDomains /\
  forall l, l ∈ map u32 without ++ map u32 withDomains ++ map u32 universalWithout ++ universal_for_domain (hs_add_range [] found) universalWith <->
    exists x, x ∈ located /\ l = lr_location x /\ rule_matches (lr_rule x) (lr_filter x) url flags host.
Proof.
  destruct Hurl as [Hl Hw], Hhost as [Hl' Hw']. destruct (rc_domains _ _ _ _ Hcode host allLoadTypesAndResourceTypes Hl' Hw') as (found & Ef & _).
  destruct (gc_reported _ _ _ _ (rc_without _ _ _ _ Hcode) None url flags Hl Hw) as (without & Eo & _).
  destruct (gc_reported _ _ _ _ (rc_with _ _ _ _ Hcode) (Some (hs_add_range [] found)) url flags Hl Hw) as (withDomains & Ew & _).
  exists without, found, withDomains. split; [done|]. split; [done|]. split; [done|]. intros l.
  pose proof (group_words None _ _ _ _ _ _ (rc_without _ _ _ _ Hcode) (pt_universal_without _ _ _ Hpart) (pt_without_exact _ _ _ Hpart) ltac:(by intros x [? _]%elem_of_without) Eo) as G1.
  pose proof (group_words (Some (hs_add_range [] found)) _ _ _ _ _ _ (rc_with _ _ _ _ Hcode) (pt_universal_with _ _ _ Hpart) (pt_with_exact _ _ _ Hpart) ltac:(by intros x [? _]%elem_of_with) Ew) as G2.
  cbn [domain_allows] in G1, G2. rewrite !elem_of_app, elem_of_universal_for_domain.
  assert (Hmap : forall v, l ∈ map u32 v <-> exists a, l = u32 a /\ a ∈ v) by (intros v; rewrite list_elem_of_In, in_map_iff; setoid_rewrite <- list_elem_of_In; naive_solver).
  rewrite !Hmap. split.
  - assert (Hout : forall a, a ∈ without \/ (a ∈ universalWithout /\ true = true) -> exists x, x ∈ located /\ u32 a = lr_location x /\ rule_matches (lr_rule x) (lr_filter x) url flags host).
    { intros a Ha. apply G1 in Ha as (x & [Hx Hd]%elem_of_without & -> & Hacc & Hf & _). exists x. split; [done|]. split; [by apply word_location|]. split_and!; [done..|]. intros Hd'. congruence. }
    assert (Hin : forall a, a ∈ withDomains \/ (a ∈ universalWith /\ matchesDomain a (hs_add_range [] found) = true) -> exists x, x ∈ located /\ u32 a = lr_location x /\ rule_matches (lr_rule x) (lr_filter x) url flags host).
    { intros a Ha. apply G2 in Ha as (x & Hxw & -> & Hacc & Hf & Hd). apply (matches_condition found x Ef Hxw) in Hd. apply elem_of_with in Hxw as [Hx _]. exists x. split; [done|]. split; [by apply word_location|]. done. }
    intros [(a & -> & Ha)|[(a & -> & Ha)|[(a & -> & Ha)|(a & -> & Ha & Hd)]]]; auto.
  - intros (x & Hx & -> & Hacc & Hf & Hd). rewrite <- (word_location x Hx). destruct (has_domains (lr_rule x)) eqn:Eh.
    + assert (Hxw : x ∈ with_domains located) by (by apply elem_of_with). apply (matches_condition found x Ef Hxw) in Hd.
      assert (Hex : exists y, y ∈ with_domains located /\ lr_word x = lr_word y /\ rule_accepts (lr_rule y) (lr_filter y) url /\ trigger_flags (lr_rule y) flags = true /\ matchesDomain (lr_word x) (hs_add_range [] found) = true) by (by exists x).
      apply G2 in Hex as [?|[? ?]]; eauto 10.
    + assert (Hex : exists y, y ∈ without_domains located /\ lr_word x = lr_word y /\ rule_accepts (lr_rule y) (lr_filter y) url /\ trigger_flags (lr_rule y) flags = true /\ true = true) by (exists x; rewrite elem_of_without; done).
      apply G1 in Hex as [?|[? ?]]; eauto 10.
Qed.
End Load.
End Rules.
