(* ===== verification/EndToEnd.v ===== *)
(** * From a rule list to the fate of a load

    The whole pipeline: a rule list is parsed and compiled, the result is
    installed, and a load is processed. *)

From stdpp Require Import gmap strings.
From S2P Require Import Prelude Containers Strings ResourceLoad Nfa Term TermTheorems CombinedFilters UrlFilterParse Dfa Bytecode BytecodeInterpreter BytecodeStream Rules RulesSerialize RuleListParser RuleListTheorems.
From S2P Require Import Backend BackendTheorems RuleListCompiler FilterDfas RuleMatching.

(** ** Which rules take effect *)

Definition matched (rules : list ContentExtensionRule) (filters : list url_filter) (url : list Z) (flags : Z) (host : list Z) (i : Z) : Prop :=
  exists rule r, vget rules i = Done rule /\ vget filters i = Done r /\ rule_matches rule r url flags host.

(** The rule [i] has an action of type [t], matches the load, and no later rule
    that matches ignores it. *)
Definition effective (rules : list ContentExtensionRule) (filters : list url_filter) (url : list Z) (flags : Z) (host : list Z) (t : ActionType) (i : Z) : Prop :=
  matched rules filters url flags host i /\ exists rule, vget rules i = Done rule /\ rule_type rule = t /\
    forall j rj, matched rules filters url flags host j -> vget rules j = Done rj -> rule_type rj = IgnorePreviousRules -> j < i.

(** An action that the backend hands to the load. *)
Definition plain_action (t : ActionType) : Prop := t = BlockLoad \/ t = BlockCookies \/ t = MakeHTTPS.

Section Effect.
Context `{HashOrder}.
Variables (rules : list ContentExtensionRule) (bytes locations : list Z) (M : Z -> Prop) (L : list Z).
Hypothesis Hok : rules_ok rules.
Hypothesis Hser : serializeActions rules = Done (bytes, locations).
Hypothesis Hsize : vsize bytes < 2 ^ 32.
Hypothesis Hsound : forall l, l ∈ L -> exists i, M i /\ vget locations i = Done l.
Hypothesis Hcomplete : forall i l r, M i -> vget locations i = Done l -> vget rules i = Done r -> rule_type r <> CSSDisplayNoneSelector -> l ∈ L.
Hypothesis Hlocated : forall i, M i -> exists l, vget locations i = Done l.

Lemma elem_of_order l : l ∈ reverse (merge_sort Z.le L) <-> l ∈ L.
Proof. by rewrite elem_of_reverse, merge_sort_Permutation. Qed.

(** The actions of the collected locations are those of the rules in effect. *)
Lemma effective_actions identifier : exists found saw, actions_in_reverse bytes identifier (reverse (merge_sort Z.le L)) = Done (found, saw) /\
  forall t, plain_action t -> (exists a, a ∈ found /\ m_type a = t) <->
    exists i ri, M i /\ vget rules i = Done ri /\ rule_type ri = t /\ forall j rj, M j -> vget rules j = Done rj -> rule_type rj = IgnorePreviousRules -> j < i.
Proof.
  assert (Hread : forall l, l ∈ reverse (merge_sort Z.le L) -> exists i r a, M i /\ vget locations i = Done l /\ vget rules i = Done r /\ deserialize bytes l = Done a /\ m_type a = rule_type r).
  { intros l (i & Hi & Hl)%elem_of_order%Hsound. destruct (rule_of_location rules bytes locations Hok Hser i l Hl) as [r Hr].
    destruct (location_read rules bytes locations Hok Hser Hsize i r l Hr Hl) as (a & Ea & Ht & _). by exists i, r, a. }
  destruct (actions_in_reverse_spec bytes identifier (reverse (merge_sort Z.le L))) as (found & E & Hf); [intros l Hl; destruct (Hread l Hl) as (i & r & a & _ & _ & _ & Ea & _); by exists a|].
  exists found, (existsb (ignores bytes) (reverse (merge_sort Z.le L))). split; [done|]. intros t Ht. split.
  - intros (a & [n Hn]%list_elem_of_lookup & Hat). destruct (Forall2_lookup_r _ _ _ _ _ Hf Hn) as (l & Hl & a0 & Ea0 & ->). apply list_elem_of_lookup_2 in Hl.
    apply (elem_of_before_first (ignores bytes) _ l (reverse_sorted L)) in Hl as [Hl Hlt]. destruct (Hread l Hl) as (i & r & a' & Hi & Hli & Hr & Ea & Hta). rewrite Ea0 in Ea. injection Ea as <-.
    exists i, r. cbn in Hat. split_and!; [done|done|congruence|]. intros j rj Hj Hrj Hig. destruct (Hlocated j Hj) as [lj Hlj].
    assert (Hin : lj ∈ L) by (eapply Hcomplete; [done|done|done|congruence]).
    apply (location_order rules bytes locations Hok Hser Hsize i j r rj l lj); try done; [destruct Ht as [->|[->| ->]]; congruence|]. apply Hlt; [by apply elem_of_order|]. by apply (ignores_spec rules bytes locations Hok Hser Hsize j rj).
  - intros (i & ri & Hi & Hri & Hti & Hlast). destruct (Hlocated i Hi) as [l Hl]. assert (Hin : l ∈ L) by (eapply Hcomplete; [done|done|done|destruct Ht as [->|[->| ->]]; congruence]).
    assert (Hbf : l ∈ before_first (ignores bytes) (reverse (merge_sort Z.le L))).
    { apply (elem_of_before_first _ _ _ (reverse_sorted L)). split; [by apply elem_of_order|]. intros y (j & Hj & Hly)%elem_of_order%Hsound Hig.
      destruct (rule_of_location rules bytes locations Hok Hser j y Hly) as [rj Hrj]. apply (ignores_spec rules bytes locations Hok Hser Hsize j rj y Hrj Hly) in Hig.
      apply (location_order rules bytes locations Hok Hser Hsize i j ri rj l y); try done; [destruct Ht as [->|[->| ->]]; congruence|]. by eapply Hlast. }
    apply list_elem_of_lookup in Hbf as [n Hn]. destruct (Forall2_lookup_l _ _ _ _ _ Hf Hn) as (a & Ha & a0 & Ea0 & ->).
    destruct (location_read rules bytes locations Hok Hser Hsize i ri l Hri Hl) as (a1 & Ea1 & Ht1 & _). rewrite Ea0 in Ea1. injection Ea1 as <-.
    exists (setExtensionIdentifier a0 identifier). split; [by eapply list_elem_of_lookup_2|]. cbn. congruence.
Qed.
End Effect.

(** ** The extension of a compiled rule list *)

Section Extension.
Context `{HashOrder} `{Platform}.
Variables (rules : list ContentExtensionRule) (filters : list url_filter) (bytes locations : list Z).
Hypothesis Hok : rules_ok rules.
Hypothesis Hser : serializeActions rules = Done (bytes, locations).
Hypothesis Hsize : vsize bytes < 2 ^ 32.
Hypothesis Hfilters : Forall2 rule_filter rules filters.
Hypothesis Hflags : Forall (fun r => 0 <= t_flags (r_trigger r) < 2 ^ 16) rules.
Variables (p : partition) (c : client) (universalWithout universalWith : list Z).
Hypothesis Hpart : partitioned (words rules filters locations) (located_rules rules locations filters) p.
Hypothesis Hcode : rules_code bytes p c universalWithout universalWith.

(** The extension as it was created, whatever its cache holds. *)
Record installed_extension (e : ContentExtension) : Prop := {
  ie_compiled : m_compiledExtension e = compiled_extension c;
  ie_with : m_universalActionsWithDomains e = universalWith;
  ie_sub : forall l, l ∈ m_universalActionsWithoutDomains e -> l ∈ map u32 universalWithout;
  ie_kept : forall l, l ∈ map u32 universalWithout -> l ∈ m_universalActionsWithoutDomains e \/ deserializeType bytes l = Done CSSDisplayNoneSelector;
  ie_cache : cache_ok e
}.

Lemma location_action i l r : vget rules i = Done r -> vget locations i = Done l -> exists s, action_at bytes l (rule_type r) s /\ serializable (rule_type r) = true /\ width_ok s.
Proof.
  intros Hr Hl. destruct (serializeActions_spec rules Hok) as (s & E & Hs & Hp). rewrite Hser in E. injection E as Eb El.
  destruct (si_located _ _ Hs i r l) as (sel & Hat & Hw & _); [split_and!; [done|by rewrite <- El|apply Hp]|]. rewrite <- Eb in Hat. exists sel. split_and!; [done| |done].
  unfold rules_ok in Hok. rewrite Forall_forall in Hok. apply Hok. apply vget_Done in Hr as [_ Hr]. by eapply list_elem_of_lookup_2.
Qed.

Lemma bytes_encoded : encoded bytes.
Proof. destruct (serializeActions_spec rules Hok) as (s & E & Hs & _). rewrite Hser in E. injection E as Eb _. rewrite Eb. apply (si_encoded _ _ Hs). Qed.

Lemma new_extension identifier : exists e, newContentExtension identifier (compiled_extension c) = Done e /\ installed_extension e.
Proof.
  destruct (compileGlobal_spec bytes (map u32 universalWithout) bytes_encoded Hsize) as (sheet & rest & Eg & H1 & H2).
  { intros l Hl. apply list_elem_of_In, in_map_iff in Hl as (a & <- & Ha%list_elem_of_In). apply (gc_elements _ _ _ _ (rc_without _ _ _ _ _ Hcode)) in Ha as [Ha _].
    destruct (universal_word _ _ _ a _ (pt_universal_without _ _ _ Hpart) Ha) as (x & Hx & ->). rewrite (word_location rules filters bytes locations Hok Hser Hsize Hfilters Hflags) by done.
    apply elem_of_located in Hx as (i & Hr & Hl & _). destruct (location_action i _ _ Hr Hl) as (s & Hs). by exists (rule_type (lr_rule x)), s. }
  unfold newContentExtension. cbn [compiled_extension filtersWithoutDomainsBytecode filtersWithDomainsBytecode c_actions]. rewrite (gc_universal _ _ _ _ (rc_without _ _ _ _ _ Hcode)). cbn [obind].
  rewrite (gc_universal _ _ _ _ (rc_with _ _ _ _ _ Hcode)). cbn [obind]. rewrite (rc_actions _ _ _ _ _ Hcode), Eg. cbn [obind]. eexists. split; [done|]. by constructor.
Qed.

Lemma populate_keeps e d e' : populateDomainCacheIfNeeded e d = Done e' -> m_universalActionsWithoutDomains e' = m_universalActionsWithoutDomains e.
Proof. unfold populateDomainCacheIfNeeded. destruct (nullable_equal _ _); [by intros [= <-]|]. intros E. apply obind_Done in E as (found & _ & E). by injection E as <-. Qed.

(** For a load, the extension gives the actions of the rules in effect. *)
Lemma extension_effective e info domain : installed_extension e -> url_host (mainDocumentURL info) = Some domain ->
  let url := utf8 (s_chars (url_string (resourceURL info))) in let host := utf8 (s_chars domain) in
  let flags := getResourceFlags (rli_type info) (isThirdParty (mainDocumentURL info) (resourceURL info)) in
  vsize url < 2 ^ 31 /\ url_word url -> vsize host < 2 ^ 31 /\ url_word host ->
  exists e' actions, extension_actions e info = Done (e', actions) /\ installed_extension e' /\
    forall t, plain_action t -> (exists a, a ∈ actions /\ m_type a = t) <-> exists i, effective rules filters url flags host t i.
Proof.
  intros [I1 I2 I3 I4 I5] Hd url host flags Hurl Hhost.
  destruct (load_locations rules filters bytes locations Hok Hser Hsize Hfilters Hflags p c universalWithout universalWith url host flags Hpart Hcode Hurl Hhost) as (without & found & withD & Eo & Ef & Ew & Hloc).
  assert (Hda : domain_actions e domain = Done (hs_add_range [] found)) by (unfold domain_actions; rewrite I1; cbn [compiled_extension domainFiltersBytecode]; fold host; by rewrite Ef).
  destruct (populate_spec e domain _ I5 Hda) as (e1 & E1 & C1 & K1 & U1 & A1 & _).
  assert (Hda1 : domain_actions e1 domain = Done (hs_add_range [] found)) by (unfold domain_actions in *; by rewrite K1).
  destruct (populate_spec e1 domain _ C1 Hda1) as (e2 & E2 & C2 & K2 & U2 & A2 & V2). pose proof (populate_keeps _ _ _ E1) as P1. pose proof (populate_keeps _ _ _ E2) as P2.
  set (L := map u32 without ++ map u32 withD ++ m_universalActionsWithoutDomains e2 ++ universal_for_domain (hs_add_range [] found) universalWith).
  set (M := matched rules filters url flags host).
  assert (HM : forall i l, vget locations i = Done l -> M i <-> exists x, vget rules i = Done (lr_rule x) /\ vget filters i = Done (lr_filter x) /\ l = lr_location x /\ rule_matches (lr_rule x) (lr_filter x) url flags host).
  { intros i l Hl. split; [intros (rule & r & Hr & Hf & Hm); by exists (mkLocated rule l r)|intros (x & Hr & Hf & _ & Hm); by exists (lr_rule x), (lr_filter x)]. }
  destruct (effective_actions rules bytes locations M L Hok Hser Hsize) with (identifier := m_identifier e2) as (acts & saw & Er & Heff).
  { intros l Hl. assert (Hin : exists x, x ∈ located_rules rules locations filters /\ l = lr_location x /\ rule_matches (lr_rule x) (lr_filter x) url flags host).
    { apply Hloc. unfold L in Hl. rewrite !elem_of_app in *. rewrite P2, P1 in Hl. pose proof (I3 l). tauto. }
    destruct Hin as (x & (i & Hr & Hli & Hf)%elem_of_located & -> & Hm). exists i. split; [|done]. by exists (lr_rule x), (lr_filter x). }
  { intros i l r Hi Hl Hr Ht. apply (HM i l Hl) in Hi as (x & Hrx & Hfx & -> & Hm).
    assert (Hin : exists y, y ∈ located_rules rules locations filters /\ lr_location x = lr_location y /\ rule_matches (lr_rule y) (lr_filter y) url flags host) by (exists x; split; [apply elem_of_located; by exists i|done]).
    apply Hloc in Hin. unfold L. rewrite !elem_of_app in *. rewrite P2, P1. destruct Hin as [?|[?|[Hu|?]]]; auto. apply I4 in Hu as [?|Hcss]; [auto|]. exfalso.
    destruct (location_action i _ _ Hr Hl) as (s & Hat & Hs & _). rewrite (deserializeType_at _ _ _ _ Hat Hs) in Hcss. congruence. }
  { intros i (rule & r & Hr & _). destruct (serializeActions_spec rules Hok) as (s & E & Hs & _). rewrite Hser in E. injection E as _ El. pose proof (si_size _ _ Hs) as Hsz. rewrite <- El in Hsz.
    apply vget_range in Hr. destruct (vget_total locations i) as (l & Hl & _); [lia|]. by exists l. }
  unfold extension_actions. rewrite I1. cbn [compiled_extension filtersWithoutDomainsBytecode filtersWithDomainsBytecode c_actions]. fold url flags. rewrite Eo. cbn [obind]. unfold cachedDomainActions.
  rewrite Hd, E1. cbn [obind]. rewrite A1, Ew. cbn [obind]. unfold universalActionsWithDomains. rewrite E2. cbn [obind]. rewrite V2, U1, I2. fold L. rewrite (rc_actions _ _ _ _ _ Hcode), Er. cbn [obind].
  eexists _, _. split; [done|]. split.
  - constructor; [congruence|congruence|rewrite P2, P1; done|rewrite P2, P1; done|done].
  - intros t Ht. assert (Happ : forall extra, (forall a, a ∈ extra -> m_type a <> t) -> (exists a, a ∈ acts ++ extra /\ m_type a = t) <-> exists a, a ∈ acts /\ m_type a = t).
    { intros extra He. setoid_rewrite elem_of_app. split; [intros (a & [?|Hx] & Hta); [by exists a|by apply He in Hx]|intros (a & ? & ?); exists a; auto]. }
    rewrite Happ, (Heff t Ht).
    + unfold effective. fold M. naive_solver.
    + intros a. destruct saw; [by intros ?%elem_of_nil|]. intros ->%list_elem_of_singleton. cbn. destruct Ht as [->|[->| ->]]; done.
Qed.
End Extension.

(** ** The whole pipeline *)

Definition ascii_text (w : list Z) : Prop := vsize w < 2 ^ 31 /\ url_word w.

Lemma valid_flags `{Parsers} rules : forallb rule_ok rules = true -> Forall (fun r => 0 <= t_flags (r_trigger r) < 2 ^ 16) rules.
Proof.
  intros Hr. rewrite forallb_forall in Hr. apply Forall_forall. intros r Hin%list_elem_of_In. specialize (Hr r Hin). unfold rule_ok, trigger_ok in Hr. rewrite !andb_true_iff in Hr.
  destruct Hr as [[[[[[_ _] Hf] H0] _] _] _]. assert (Hr : flags_ok (t_flags (r_trigger r))) by (split; [by apply Z.leb_le|by apply Z.eqb_eq]). apply named_flags_range in Hr. lia.
Qed.

(** C1: The whole pipeline decides loads as the rules say.  Let a text parse to
    rules whose filters are texts of the filter syntax.  Compiling it returns;
    installing the result in an empty backend under a non-empty name returns;
    processing a load returns; and the load is blocked exactly when its URL is
    not a [data:] URL (those are never blocked), some [block] rule matches it (its
    filter accepts the URL, its flags the type of the load, and its if- or
    unless-domain condition the domain of the document), and no later
    [ignore-previous-rules] rule matches it too.  The same holds of
    [block-cookies] and the cookies.  Assumed are: the document has a host that
    is not null; URL, host and the domains of the rules are ASCII without zeroes,
    and URL and host shorter than 2 GB; no filter has both anchors and accepts
    the empty string ([^a?$] is compiled as matching everything), nor is longer
    than the parser takes; the automata have a workable size, and end-of-line
    edges that the bytecode expresses ([eol_ok]); the serialized actions are
    smaller than 4 GB. *)
Theorem rule_list_decides_loads `{HashOrder} `{ParserLaws} `{Platform} fuel text rules filters bytes locations p identifier context url document type domain :
  parseRuleList text = Parsed rules -> Forall2 rule_filter rules filters ->
  serializeActions rules = Done (bytes, locations) -> vsize bytes < 2 ^ 32 ->
  partition_rules emptyPartitionedRules (zip rules locations) = Done (Parsed p) -> compilable fuel p ->
  s_isEmpty identifier = false -> url_host document = Some domain ->
  ascii_text (utf8 (s_chars (url_string url))) -> ascii_text (utf8 (s_chars domain)) ->
  let rule_in_effect := effective rules filters (utf8 (s_chars (url_string url))) (getResourceFlags type (isThirdParty document url)) (utf8 (s_chars domain)) in
  exists c b b' s status, compileRuleList fuel text = Done (c, None) /\ addContentExtension [] identifier (Some (compiled_extension c)) = Done b /\
    processContentExtensionRulesForLoad b context url document type = Done (b', s, status) /\
    (status = Blocked <-> protocolIsData url = false /\ exists i, rule_in_effect BlockLoad i) /\
    (SetAllowCookies false ∈ ls_effects s <-> protocolIsData url = false /\ exists i, rule_in_effect BlockCookies i).
Proof.
  intros Et Hf Hser Hsize Ep Hc Hid Hdom Hurl Hhost rule_in_effect. destruct (parsed_rules_ok text rules Et) as (Hvalid & Hcount & Hok). apply valid_flags in Hvalid as Hflags.
  destruct (partition_located rules filters bytes locations Hok Hser Hsize Hf Hflags) as (p' & Ep' & Hpart). rewrite Ep in Ep'. injection Ep' as <-.
  destruct (compile_rules_code rules filters bytes locations Hok Hser Hsize Hf Hflags fuel p) as (c & uo & ud & Ec & Hcode); [unfold maxRuleCount, UINT16_MAX in *; lia|done|done|].
  destruct (new_extension rules filters bytes locations Hok Hser Hsize Hf Hflags p c uo ud Hpart Hcode identifier) as (e & Ee & Hi).
  destruct (extension_effective rules filters bytes locations Hok Hser Hsize Hf Hflags p c uo ud Hpart Hcode e (mkResourceLoadInfo url document type) domain Hi Hdom Hurl Hhost) as (e' & actions & Ea & _ & Heff).
  assert (Hb : hash_place (identifier, e) [] = [(identifier, e)]) by (apply Permutation_singleton_r; apply hash_place_perm).
  assert (Hact : exists b' found, actionsForResourceLoad [(identifier, e)] (mkResourceLoadInfo url document type) = Done (b', found) /\
    forall t, plain_action t -> (exists a, a ∈ found /\ m_type a = t) <-> protocolIsData url = false /\ exists i, rule_in_effect t i).
  { unfold actionsForResourceLoad. cbn [resourceURL]. destruct (protocolIsData url).
    - eexists _, _. split; [done|]. intros t _. split; [by intros (? & ?%elem_of_nil & _)|by intros [? _]].
    - cbn [actions_for_extensions]. rewrite Ea. cbn [obind]. rewrite app_nil_r. eexists _, _. split; [done|]. intros t Ht. rewrite (Heff t Ht). split; [done|by intros [_ ?]]. }
  destruct Hact as (b' & found & Hact & Hfound). destruct (load_blocked _ context _ _ _ _ _ Hact) as (s & status & Eproc & Hblock & Hcookies).
  exists c, [(identifier, e)], b', s, status. split; [unfold compileRuleList; by rewrite Et|].
  split; [unfold addContentExtension; rewrite Hid, Ee; cbn [obind replace_extension]; by rewrite Hb|]. split; [done|]. rewrite Hblock, Hcookies. split; apply Hfound; [by left|by right; left].
Qed.

(** ** Witness *)

(** A platform whose URLs are a text and a host. *)
#[local] Instance text_platform : Platform := {
  URL := WTFString * option WTFString;
  url_string := fst;
  protocolIsData _ := false;
  url_host := snd;
  protocolIsHTTP _ := false;
  hasPort _ := false;
  hasDefaultPort _ := false;
  withProtocolHTTPS u := u;
  withDefaultHTTPSPort u := u;
  isThirdParty _ _ := false;
  utf8 l := l;
  parseStyleSheet _ := true
}.

(** [a] blocks; no cookies unless the document is on [d]; [ab] on [*.e] ignores
    the rules before it. *)
Definition example_rules : list ContentExtensionRule :=
  [mkRule (mkTrigger (s_literal "a") false 0 [] DC_None) (newAction BlockLoad UINT32_MAX);
   mkRule (mkTrigger (s_literal ".*") false 0 [s_literal "d"] DC_UnlessDomain) (newAction BlockCookies UINT32_MAX);
   mkRule (mkTrigger (s_literal "ab") false 0 [s_literal "*e"] DC_IfDomain) (newAction IgnorePreviousRules UINT32_MAX)].

Definition example_filters : list url_filter :=
  [mkFilter false [Character 97 One] false; mkFilter false [AnyCharacter ZeroOrMore] false; mkFilter false [Character 97 One; Character 98 One] false].

#[local] Instance example_parsers : Parsers := {
  JSONParse text := if s_is text "[...]" then Some (encode_rules example_rules) else None;
  toWTFString v := match v with JString s => s | _ => emptyString end;
  isValidSelector _ := true
}.

#[local] Instance example_laws : ParserLaws.
Proof.
  split; [|done]. intros text v. cbn [JSONParse example_parsers]. destruct (s_is text "[...]"); [|done]. intros [= <-]. cbn.
  repeat split; apply width_okb_sound; vm_compute; reflexivity.
Qed.

Lemma example_rule_filters : Forall2 rule_filter example_rules example_filters.
Proof.
  repeat (constructor; [constructor; [exists true; vm_compute; reflexivity|vm_compute; reflexivity|vm_compute; discriminate|vm_compute; intros H; discriminate H|intros H; discriminate H|]|]); [..|constructor].
  - constructor.
  - repeat (constructor; [repeat (constructor; [vm_compute; split; [discriminate|reflexivity]|]); constructor|]). constructor.
  - repeat (constructor; [repeat (constructor; [vm_compute; split; [discriminate|reflexivity]|]); constructor|]). constructor.
Qed.

Ltac fits_by_computation :=
  let nfas := fresh "nfas" in let nfa := fresh "nfa" in let E := fresh "E" in let Hin := fresh "Hin" in let dfa := fresh "dfa" in
  intros nfas nfa E; vm_compute in E; injection E as <-; intros Hin;
  repeat (apply elem_of_cons in Hin as [->|Hin]; [split; [apply Nat.leb_le; vm_compute; reflexivity|intros dfa E; vm_compute in E; injection E as <-; vm_compute; reflexivity]|]);
  by apply elem_of_nil in Hin.

Ltac stream_by_computation :=
  let dfas := fresh "dfas" in let E := fresh "E" in
  intros dfas E; vm_compute in E; injection E as <-; split;
  [repeat (apply Forall_cons_2; [apply dk_eol, dfa_okb_sound; vm_compute; reflexivity|]); apply Forall_nil_2|vm_compute; reflexivity].

Lemma example_compilable p : partition_rules emptyPartitionedRules (zip example_rules [0; 1; 2]) = Done (Parsed p) -> compilable 128 p.
Proof.
  intros Ep. vm_compute in Ep. injection Ep as <-. constructor.
  - split; [fits_by_computation|]. split; fits_by_computation.
  - stream_by_computation.
  - stream_by_computation.
  - stream_by_computation.
Qed.

Definition example_url : @URL text_platform := (s_literal "xaby", None).
Definition example_document : @URL text_platform := (s_literal "doc", Some (s_literal "f")).

Lemma rule_list_decides_loads_witness : exists c b b' s, compileRuleList 128 (s_literal "[...]") = Done (c, None) /\
  addContentExtension [] (s_literal "id") (Some (compiled_extension c)) = Done b /\
  processContentExtensionRulesForLoad b (mkLoadContext true false) example_url example_document RT_Image = Done (b', s, Blocked) /\
  exists i, effective example_rules example_filters (literal "xaby") (getResourceFlags RT_Image false) (literal "f") BlockLoad i.
Proof.
  destruct (partition_rules emptyPartitionedRules (zip example_rules [0; 1; 2])) as [[p|err]| |] eqn:Ep; [|vm_compute in Ep; discriminate..].
  destruct (rule_list_decides_loads 128 (s_literal "[...]") example_rules example_filters [0; 1; 4] [0; 1; 2] p (s_literal "id") (mkLoadContext true false) example_url example_document RT_Image (s_literal "f"))
    as (c & b & b' & s & status & H1 & H2 & H3 & H4 & _).
  - vm_compute. reflexivity.
  - exact example_rule_filters.
  - vm_compute. reflexivity.
  - vm_compute. reflexivity.
  - exact Ep.
  - exact (example_compilable p Ep).
  - reflexivity.
  - reflexivity.
  - split; [vm_compute; reflexivity|]. repeat (constructor; [vm_compute; split; [discriminate|reflexivity]|]). constructor.
  - split; [vm_compute; reflexivity|]. repeat (constructor; [vm_compute; split; [discriminate|reflexivity]|]). constructor.
  - assert (Hs : status = Blocked).
    { assert (E1 := H1). vm_compute in E1. injection E1 as Ec. assert (E2 := H2). rewrite <- Ec in E2. vm_compute in E2. injection E2 as Eb. assert (E3 := H3). rewrite <- Eb in E3. vm_compute in E3. injection E3 as _ _ E3. congruence. }
    exists c, b, b', s. rewrite Hs in H3. split; [exact H1|]. split; [exact H2|]. split; [exact H3|]. apply (proj1 H4 Hs).
Defined.
