(* ===== verification/ContentControllers.v ===== *)
(** * The controllers of user content, and the messages between them
    (WebKit2/UIProcess/UserContent/WebUserContentControllerProxy.cpp,
    WebKit2/UIProcess/WebProcessProxy.cpp, WebPageProxy.cpp,
    WebKit2/WebProcess/UserContent/WebUserContentController.cpp,
    WebKit2/WebProcess/WebProcess.cpp, WebKit2/Platform/IPC/MessageEncoder.cpp,
    MessageDecoder.cpp, MessageReceiverMap.cpp,
    WebKit2/Shared/WebCompiledContentExtensionData.cpp,
    WebCore/page/UserContentController.cpp)

    The UI process keeps the extensions of a controller and sends every change to
    the web processes that have a page of the controller.  A web process has a
    controller of its own while it has such a page.  The messages are the bytes
    and the ports that the encoders write. *)

From stdpp Require Import gmap strings.
From S2P Require Import Prelude Containers Strings ResourceLoad Bytecode Rules Backend PosixFiles IpcCoders ExtensionStore.

#[local] Arguments vsize {A} v : simpl never.

(** [HashMap<String, V>]. *)
Section StringMap.
Context `{HashOrder} {V : Type}.

Fixpoint sm_get (m : list (WTFString * V)) (name : WTFString) : option V :=
  match m with
  | [] => None
  | (i, v) :: m' => if s_equal i name then Some v else sm_get m' name
  end.

Fixpoint sm_replace (m : list (WTFString * V)) (name : WTFString) (v : V) : option (list (WTFString * V)) :=
  match m with
  | [] => None
  | (i, x) :: m' =>
      if s_equal i name then Some ((i, v) :: m')
      else match sm_replace m' name v with Some m'' => Some ((i, x) :: m'') | None => None end
  end.

(** [set] keeps the key that is there. *)
Definition sm_set (m : list (WTFString * V)) (name : WTFString) (v : V) : list (WTFString * V) :=
  match sm_replace m name v with Some m' => m' | None => hash_place (name, v) m end.

Definition sm_remove (m : list (WTFString * V)) (name : WTFString) : list (WTFString * V) :=
  hash_rehash (List.filter (fun slot => negb (s_equal (fst slot) name)) m).
End StringMap.

(** ** UserContentController.cpp *)

Section UserContentController.
Context `{HashOrder} `{Platform}.

(** [UserContentController]: its backend, made when first needed. *)
Definition UserContentController : Type := option backend.

Definition controller_addUserContentExtension (c : UserContentController) (name : WTFString) (extension : option CompiledContentExtension) : outcome UserContentController :=
  let* b := addContentExtension (default [] c) name extension in Done (Some b).

Definition controller_removeUserContentExtension (c : UserContentController) (name : WTFString) : UserContentController :=
  match c with None => None | Some b => Some (removeContentExtension b name) end.

Definition controller_removeAllUserContentExtensions (c : UserContentController) : UserContentController :=
  match c with None => None | Some b => Some (removeAllContentExtensions b) end.

(** A document loader: its setting; when it has a frame, whether that is the main
    one, and the setting of the document loader of the main frame, if any. *)
Record DocumentLoader := mkDocumentLoader { dl_userContentExtensionsEnabled : bool; dl_frame : option (bool * option bool) }.

Definition contentExtensionsEnabled (loader : DocumentLoader) : bool :=
  match dl_frame loader with
  | Some (isMainFrame, mainDocumentLoader) =>
      if isMainFrame : bool then dl_userContentExtensionsEnabled loader
      else match mainDocumentLoader with Some enabled => enabled | None => true end
  | None => true
  end.

Definition controller_processContentExtensionRulesForLoad (c : UserContentController) (loader : DocumentLoader) (context : load_context)
    (requestURL mainDocumentURL : URL) (type : ResourceType) : outcome (UserContentController * load_state * BlockedStatus) :=
  match c with
  | None => Done (c, mkLoadState requestURL [] false, NotBlocked)
  | Some b =>
      if negb (contentExtensionsEnabled loader) then Done (c, mkLoadState requestURL [] false, NotBlocked)
      else
        let* (result, status) := processContentExtensionRulesForLoad b context requestURL mainDocumentURL type in
        let (b', s) := result in Done (Some b', s, status)
  end.

Definition controller_actionsForResourceLoad (c : UserContentController) (loader : DocumentLoader) (info : ResourceLoadInfo) : outcome (UserContentController * list Action) :=
  match c with
  | None => Done (c, [])
  | Some b =>
      if negb (contentExtensionsEnabled loader) then Done (c, [])
      else let* (b', actions) := actionsForResourceLoad b info in Done (Some b', actions)
  end.
End UserContentController.

(** ** Messages *)

Section Messages.
Context `{OS}.
Variable garbage : Z -> Z.
Notation encode_number := (encode_number garbage).

(** [WebCompiledContentExtensionData::encode]: without shared memory a null
    pointer is followed. *)
Definition encode_data (e : ArgumentEncoder) (d : WebCompiledContentExtensionData) : outcome ArgumentEncoder :=
  match wc_data d with
  | None => Crash
  | Some data =>
      let* handle := createHandle data in
      let e := encode_handle garbage e handle in
      let e := encode_number 4 e (wc_actionsOffset d) in
      let e := encode_number 4 e (wc_actionsSize d) in
      let e := encode_number 4 e (wc_filtersWithoutDomainsBytecodeOffset d) in
      let e := encode_number 4 e (wc_filtersWithoutDomainsBytecodeSize d) in
      let e := encode_number 4 e (wc_filtersWithDomainsBytecodeOffset d) in
      let e := encode_number 4 e (wc_filtersWithDomainsBytecodeSize d) in
      let e := encode_number 4 e (wc_domainFiltersBytecodeOffset d) in
      let e := encode_number 4 e (wc_domainFiltersBytecodeSize d) in
      Done e
  end.

Notation "'read*' x := m 'in' f" := (dec_bind m (fun x => f)) (at level 200, x name, m at level 100, f at level 200).

Definition decode_data : dec WebCompiledContentExtensionData :=
  read* handle := decode_handle in
  read* actionsOffset := decode_number 4 in
  read* actionsSize := decode_number 4 in
  read* filtersWithoutDomainsBytecodeOffset := decode_number 4 in
  read* filtersWithoutDomainsBytecodeSize := decode_number 4 in
  read* filtersWithDomainsBytecodeOffset := decode_number 4 in
  read* filtersWithDomainsBytecodeSize := decode_number 4 in
  read* domainFiltersBytecodeOffset := decode_number 4 in
  read* domainFiltersBytecodeSize := decode_number 4 in
  dec_ret (mkCompiledData (SharedMemory_map handle) NullData actionsOffset actionsSize filtersWithoutDomainsBytecodeOffset filtersWithoutDomainsBytecodeSize
             filtersWithDomainsBytecodeOffset filtersWithDomainsBytecodeSize domainFiltersBytecodeOffset domainFiltersBytecodeSize).

(** There is shared memory, and the offsets and sizes are [unsigned]. *)
Definition data_sendable (d : WebCompiledContentExtensionData) : Prop :=
  (exists data, wc_data d = Some data /\ 0 <= h_size (memory_handle data) < 2 ^ 64) /\
  Forall (fun v => 0 <= v < 2 ^ 32)
    [wc_actionsOffset d; wc_actionsSize d; wc_filtersWithoutDomainsBytecodeOffset d; wc_filtersWithoutDomainsBytecodeSize d;
     wc_filtersWithDomainsBytecodeOffset d; wc_filtersWithDomainsBytecodeSize d; wc_domainFiltersBytecodeOffset d; wc_domainFiltersBytecodeSize d].

(** The same ranges of the memory as it is mapped by the receiver. *)
Definition data_arrives (d : WebCompiledContentExtensionData) : WebCompiledContentExtensionData :=
  mkCompiledData (match wc_data d with Some data => SharedMemory_map (memory_handle data) | None => None end) NullData
    (wc_actionsOffset d) (wc_actionsSize d) (wc_filtersWithoutDomainsBytecodeOffset d) (wc_filtersWithoutDomainsBytecodeSize d)
    (wc_filtersWithDomainsBytecodeOffset d) (wc_filtersWithDomainsBytecodeSize d) (wc_domainFiltersBytecodeOffset d) (wc_domainFiltersBytecodeSize d).

(** An [unsigned] and what follows it. *)
Lemma u32_then {T} e v e' (f : Z -> dec T) t : 0 <= v < 2 ^ 32 -> coded (encode_number 4 e v) e' (f v) t -> coded e e' (dec_bind (decode_number 4) f) t.
Proof. intros Hv Hf. eapply coded_bind; [by apply (number_coded garbage e 2 v 4)|done]. Qed.

Lemma data_encodes e d : data_sendable d -> encodes e (encode_data e d) decode_data (data_arrives d).
Proof.
  intros [(data & Ed & Hh) Hf]. repeat (apply Forall_cons in Hf as [? Hf]). unfold encode_data, data_arrives. rewrite Ed, createHandle_returns. cbn [obind]. eexists. split; [done|].
  eapply coded_bind; [by apply (handle_coded garbage e (memory_handle data))|].
  apply (u32_then _ (wc_actionsOffset d)); [done|]. apply (u32_then _ (wc_actionsSize d)); [done|].
  apply (u32_then _ (wc_filtersWithoutDomainsBytecodeOffset d)); [done|]. apply (u32_then _ (wc_filtersWithoutDomainsBytecodeSize d)); [done|].
  apply (u32_then _ (wc_filtersWithDomainsBytecodeOffset d)); [done|]. apply (u32_then _ (wc_filtersWithDomainsBytecodeSize d)); [done|].
  apply (u32_then _ (wc_domainFiltersBytecodeOffset d)); [done|]. apply (u32_then _ (wc_domainFiltersBytecodeSize d)); [done|]. apply coded_ret.
Qed.

#[export] Instance coder_data : ArgumentCoder WebCompiledContentExtensionData :=
  {| encode_argument := encode_data; decode_argument := decode_data; sendable := data_sendable; arrives := data_arrives; coder_law := data_encodes |}.
#[local] Instance name_coder : ArgumentCoder (option WTFString) := coder_string garbage.
#[local] Instance extensions_coder : ArgumentCoder (list (option WTFString * WebCompiledContentExtensionData)) := coder_vector garbage.

(** [encodeVariableLengthByteArray], [decodeVariableLengthByteArray]. *)
Definition encodeVariableLengthByteArray (e : ArgumentEncoder) (data : list Z) : ArgumentEncoder :=
  encodeFixedLengthData garbage (encode_number 8 e (vsize data)) data 1.
Definition decodeVariableLengthByteArray : dec (list Z) := read* size := decode_number 8 in fun d => decodeFixedLengthData d size 1.

Definition defaultMessageFlags : Z := 0.

(** [MessageEncoder::encodeHeader], of a message that starts. *)
Definition encodeHeader (receiverName messageName : list Z) (destinationID : Z) : ArgumentEncoder :=
  let e := encode_number 1 (mkEncoder [] []) defaultMessageFlags in
  let e := encodeVariableLengthByteArray e receiverName in
  let e := encodeVariableLengthByteArray e messageName in
  encode_number 8 e destinationID.

Record message_header := mkHeader { m_messageReceiverName : list Z; m_messageName : list Z; m_destinationID : Z }.

(** The constructor of [MessageDecoder]. *)
Definition decodeHeader : dec message_header :=
  read* flags := decode_number 1 in
  read* receiverName := decodeVariableLengthByteArray in
  read* messageName := decodeVariableLengthByteArray in
  read* destinationID := decode_number 8 in
  dec_ret (mkHeader receiverName messageName destinationID).

Definition receiver_name : list Z := literal "WebUserContentController".
Definition name_add : list Z := literal "AddUserContentExtensions".
Definition name_remove : list Z := literal "RemoveUserContentExtension".
Definition name_removeAll : list Z := literal "RemoveAllUserContentExtensions".

(** The messages of WebUserContentController.messages.in about extensions. *)
Definition AddUserContentExtensions (identifier : Z) (extensions : list (WTFString * WebCompiledContentExtensionData)) : outcome ArgumentEncoder :=
  encode_argument (encodeHeader receiver_name name_add identifier) (map (fun x => (Some x.1, x.2)) extensions).
Definition RemoveUserContentExtension (identifier : Z) (name : WTFString) : outcome ArgumentEncoder :=
  encode_argument (encodeHeader receiver_name name_remove identifier) (Some name).
Definition RemoveAllUserContentExtensions (identifier : Z) : outcome ArgumentEncoder :=
  Done (encodeHeader receiver_name name_removeAll identifier).

(** ** The web process *)

Context `{HashOrder} `{Platform}.
(** The contents of the files that are mapped do not change. *)
Variable files : fs.

(** What the accessors of [WebCompiledContentExtension] read; they follow the
    pointer to the shared memory. *)
Definition web_view (d : WebCompiledContentExtensionData) : outcome CompiledContentExtension :=
  match wc_data d with
  | Some (mkSharedMemory _ (Some m) _) => compiled_view d (take (Z.to_nat (map_size m)) (default [] (contents files !! map_inode m)))
  | _ => Crash
  end.

(** [WebUserContentController::addUserContentExtensions]. *)
Definition web_addUserContentExtensions (c : UserContentController) (extensions : list (option WTFString * WebCompiledContentExtensionData)) : outcome UserContentController :=
  ofold (fun c x => let* compiled := web_view x.2 in controller_addUserContentExtension c (default emptyString x.1) (Some compiled)) c extensions.

(** [didReceiveMessage] of the controller; [handleMessage] gives up when the
    arguments cannot be read. *)
Definition controller_didReceiveMessage (c : UserContentController) (name : list Z) (d : ArgumentDecoder) : outcome UserContentController :=
  if bool_decide (name = name_add) then
    match decode_argument d with Some (extensions, _) => web_addUserContentExtensions c extensions | None => Done c end
  else if bool_decide (name = name_remove) then
    match decode_argument d with Some (n, _) => Done (controller_removeUserContentExtension c (default emptyString n)) | None => Done c end
  else if bool_decide (name = name_removeAll) then Done (controller_removeAllUserContentExtensions c)
  else Done c.

(** A web process: its pages with the identifiers of their controllers (0 for
    none), and its controllers. *)
Record web := mkWeb { m_pageMap : gmap Z Z; userContentControllers : gmap Z UserContentController }.

(** [WebUserContentController::getOrCreate]. *)
Definition getOrCreate (w : web) (identifier : Z) : web :=
  match userContentControllers w !! identifier with
  | Some _ => w
  | None => mkWeb (m_pageMap w) (<[identifier := None]> (userContentControllers w))
  end.

(** [WebProcess::createWebPage]. *)
Definition createWebPage (w : web) (pageID userContentControllerID : Z) : web :=
  match m_pageMap w !! pageID with
  | Some _ => w
  | None =>
      let w := mkWeb (<[pageID := userContentControllerID]> (m_pageMap w)) (userContentControllers w) in
      if userContentControllerID =? 0 then w else getOrCreate w userContentControllerID
  end.

Definition has_page (pages : gmap Z Z) (identifier : Z) : bool := existsb (fun slot => slot.2 =? identifier) (map_to_list pages).

(** [WebProcess::removeWebPage]: the page drops its reference to the controller,
    and the last reference destroys it. *)
Definition web_removeWebPage (w : web) (pageID : Z) : web :=
  match m_pageMap w !! pageID with
  | None => w
  | Some identifier =>
      let pages := delete pageID (m_pageMap w) in
      mkWeb pages (if has_page pages identifier then userContentControllers w else delete identifier (userContentControllers w))
  end.

(** What the UI process sends: [WebProcess::CreateWebPage], [WebPage::Close], and
    the messages for controllers. *)
Inductive message := CreateWebPage (pageID userContentControllerID : Z) | ClosePage (pageID : Z) | ControllerMessage (m : ArgumentEncoder).

(** [WebProcess::didReceiveMessage], by way of
    [MessageReceiverMap::dispatchMessage]: without a receiver the message is
    dropped. *)
Definition didReceiveMessage (w : web) (m : message) : outcome web :=
  match m with
  | CreateWebPage pageID identifier => Done (createWebPage w pageID identifier)
  | ClosePage pageID => Done (web_removeWebPage w pageID)
  | ControllerMessage m =>
      match decodeHeader (received m 0) with
      | None => Done w
      | Some (h, d) =>
          if bool_decide (m_messageReceiverName h = receiver_name) then
            match userContentControllers w !! m_destinationID h with
            | None => Done w
            | Some c =>
                let* c' := controller_didReceiveMessage c (m_messageName h) d in
                Done (mkWeb (m_pageMap w) (<[m_destinationID h := c']> (userContentControllers w)))
            end
          else Done w
      end
  end.

(** ** The UI process *)

(** [WebUserContentControllerProxy]. *)
Record controller_proxy := mkProxy { m_userContentExtensions : list (WTFString * WebCompiledContentExtensionData); m_processes : list Z }.

(** [WebProcessProxy]: the pages with the identifiers of their controllers and
    the proxies it knows; the messages that are on their way; and the process. *)
Record process := mkProcess { pr_pageMap : gmap Z Z; m_webUserContentControllerProxies : list Z; pr_messages : list message; pr_web : web }.

(** All processes and the proxies by their identifiers. *)
Record system := mkSystem { proxies : gmap Z controller_proxy; processes : gmap Z process }.

Definition push (m : message) (p : process) : process :=
  mkProcess (pr_pageMap p) (m_webUserContentControllerProxies p) (pr_messages p ++ [m]) (pr_web p).

Definition send (s : system) (p : Z) (m : message) : system := mkSystem (proxies s) (alter (push m) p (processes s)).

(** The loops over [m_processes]. *)
Definition send_all (s : system) (to : list Z) (m : message) : system := foldl (fun s p => send s p m) s to.

Definition set_proxy (s : system) (identifier : Z) (x : controller_proxy) : system := mkSystem (<[identifier := x]> (proxies s)) (processes s).

(** [addProcess]: a process that is known already is sent nothing. *)
Definition addProcess (s : system) (identifier p : Z) : outcome system :=
  match proxies s !! identifier with
  | None => Crash
  | Some x =>
      if bool_decide (p ∈ m_processes x) then Done s
      else
        let* m := AddUserContentExtensions identifier (m_userContentExtensions x) in
        Done (send (set_proxy s identifier (mkProxy (m_userContentExtensions x) (hash_place p (m_processes x)))) p (ControllerMessage m))
  end.

Definition removeProcess (s : system) (identifier p : Z) : system :=
  match proxies s !! identifier with
  | None => s
  | Some x => set_proxy s identifier (mkProxy (m_userContentExtensions x) (hash_rehash (List.filter (fun q => negb (q =? p)) (m_processes x))))
  end.

Definition proxy_addUserContentExtension (s : system) (identifier : Z) (name : WTFString) (d : WebCompiledContentExtensionData) : outcome system :=
  match proxies s !! identifier with
  | None => Crash
  | Some x =>
      let s := set_proxy s identifier (mkProxy (sm_set (m_userContentExtensions x) name d) (m_processes x)) in
      match m_processes x with
      | [] => Done s
      | to => let* m := AddUserContentExtensions identifier [(name, d)] in Done (send_all s to (ControllerMessage m))
      end
  end.

Definition proxy_removeUserContentExtension (s : system) (identifier : Z) (name : WTFString) : outcome system :=
  match proxies s !! identifier with
  | None => Crash
  | Some x =>
      let s := set_proxy s identifier (mkProxy (sm_remove (m_userContentExtensions x) name) (m_processes x)) in
      let* m := RemoveUserContentExtension identifier name in Done (send_all s (m_processes x) (ControllerMessage m))
  end.

Definition proxy_removeAllUserContentExtensions (s : system) (identifier : Z) : outcome system :=
  match proxies s !! identifier with
  | None => Crash
  | Some x =>
      let s := set_proxy s identifier (mkProxy [] (m_processes x)) in
      let* m := RemoveAllUserContentExtensions identifier in Done (send_all s (m_processes x) (ControllerMessage m))
  end.

(** [WebProcessProxy::addWebUserContentControllerProxy]. *)
Definition addWebUserContentControllerProxy (s : system) (p identifier : Z) : outcome system :=
  let s := mkSystem (proxies s)
    (alter (fun x => mkProcess (pr_pageMap x) (hs_add (m_webUserContentControllerProxies x) identifier) (pr_messages x) (pr_web x)) p (processes s)) in
  addProcess s identifier p.

(** [WebProcessProxy::createWebPage]. *)
Definition proxy_createWebPage (s : system) (p pageID identifier : Z) : system :=
  mkSystem (proxies s)
    (alter (fun x => mkProcess (<[pageID := identifier]> (pr_pageMap x)) (m_webUserContentControllerProxies x) (pr_messages x) (pr_web x)) p (processes s)).

(** [finishInitializingWebPageAfterProcessLaunch], in a process that is running. *)
Definition finishInitializingWebPageAfterProcessLaunch (s : system) (p identifier : Z) : outcome system :=
  if identifier =? 0 then Done s else addWebUserContentControllerProxy s p identifier.

(** [WebPageProxy::initializeWebPage]. *)
Definition initializeWebPage (s : system) (p pageID identifier : Z) : outcome system :=
  let s := send s p (CreateWebPage pageID identifier) in finishInitializingWebPageAfterProcessLaunch s p identifier.

Definition openPage (s : system) (p pageID identifier : Z) : outcome system := initializeWebPage (proxy_createWebPage s p pageID identifier) p pageID identifier.

(** [WebProcessProxy::shutDown]; the process ends. *)
Definition shutDown (s : system) (p : Z) : system :=
  match processes s !! p with
  | None => s
  | Some x =>
      let s := foldl (fun s identifier => removeProcess s identifier p) s (m_webUserContentControllerProxies x) in
      mkSystem (proxies s) (delete p (processes s))
  end.

(** [WebProcessProxy::removeWebPage]; [canTerminate] is
    [canTerminateChildProcess], which asks for no pages and for more. *)
Definition proxy_removeWebPage (s : system) (p pageID : Z) (canTerminate : bool) : system :=
  let s := mkSystem (proxies s)
    (alter (fun x => mkProcess (delete pageID (pr_pageMap x)) (m_webUserContentControllerProxies x) (pr_messages x) (pr_web x)) p (processes s)) in
  match processes s !! p with
  | Some x => if bool_decide (pr_pageMap x = ∅) && canTerminate then shutDown s p else s
  | None => s
  end.

(** The end of [WebPageProxy::close]. *)
Definition closePage (s : system) (p pageID : Z) (canTerminate : bool) : system :=
  let s := send s p (ClosePage pageID) in proxy_removeWebPage s p pageID canTerminate.

(** The first message reaches the process. *)
Definition deliver (s : system) (p : Z) : outcome system :=
  match processes s !! p with
  | Some (mkProcess pages known (m :: messages) w) =>
      let* w' := didReceiveMessage w m in Done (mkSystem (proxies s) (<[p := mkProcess pages known messages w']> (processes s)))
  | _ => Done s
  end.

(** A page of the process loads something. *)
Definition load (s : system) (p pageID : Z) (loader : DocumentLoader) (context : load_context) (requestURL mainDocumentURL : URL) (type : ResourceType)
    : outcome (system * load_state * BlockedStatus) :=
  let nothing := Done (s, mkLoadState requestURL [] false, NotBlocked) in
  match processes s !! p with
  | None => nothing
  | Some x =>
      match m_pageMap (pr_web x) !! pageID with
      | None => nothing
      | Some identifier =>
          match userContentControllers (pr_web x) !! identifier with
          | None => nothing
          | Some c =>
              let* (result, status) := controller_processContentExtensionRulesForLoad c loader context requestURL mainDocumentURL type in
              let (c', l) := result in
              let w' := mkWeb (m_pageMap (pr_web x)) (<[identifier := c']> (userContentControllers (pr_web x))) in
              Done (mkSystem (proxies s) (<[p := mkProcess (pr_pageMap x) (m_webUserContentControllerProxies x) (pr_messages x) w']> (processes s)), l, status)
          end
      end
  end.
End Messages.
