(* ===== verification/ControllerSync.v ===== *)
(** * The controllers of the web processes mirror those of the UI process

    What a controller of a web process must hold is a list of extensions: the
    ones its proxy had when the last message that was delivered was sent.  A
    message moves that list on; the messages on their way lead to the extensions
    the proxy has now. *)

From stdpp Require Import gmap strings.
From S2P Require Import Prelude Containers Strings ResourceLoad Bytecode Rules Backend BackendTheorems EndToEnd PosixFiles IpcCoders ExtensionStore ContentControllers.

#[local] Arguments vsize {A} v : simpl never.

(** ** Maps with string keys *)

Section StringMaps.
Context `{HashOrder} {V : Type}.
Implicit Types (m : list (WTFString * V)) (v : V).

(** No name twice. *)
Definition sm_ok (m : list (WTFString * V)) : Prop := NoDup (map (fun x => s_chars x.1) m).

Lemma s_equal_spec a b : s_equal a b = true <-> s_chars a = s_chars b.
Proof. unfold s_equal. apply bool_decide_eq_true. Qed.

Lemma elem_of_keys (m : list (WTFString * V)) l : l ∈ map (fun x => s_chars x.1) m <-> exists i v, (i, v) ∈ m /\ s_chars i = l.
Proof.
  rewrite list_elem_of_In, in_map_iff. split.
  - intros ([i v] & <- & Hin%list_elem_of_In). by exists i, v.
  - intros (i & v & Hin%list_elem_of_In & <-). by exists (i, v).
Qed.

Lemma sm_get_elem m n v : sm_ok m -> sm_get m n = Some v <-> exists i, (i, v) ∈ m /\ s_chars i = s_chars n.
Proof.
  unfold sm_ok. induction m as [|[i x] m IH]; cbn [sm_get map]; [intros _; split; [done|by intros (? & ?%elem_of_nil & _)]|]. intros [Hi Hm]%NoDup_cons. cbn [fst] in Hi.
  setoid_rewrite elem_of_cons. destruct (s_equal i n) eqn:E.
  - apply s_equal_spec in E. split; [intros [= ->]; exists i; auto|]. intros (j & [[= _ ->]|Hj] & Ej); [done|]. exfalso. apply Hi, elem_of_keys. exists j, v. split; [done|congruence].
  - rewrite (IH Hm). split; [naive_solver|]. intros (j & [[= -> ->]|Hj] & Ej); [|naive_solver]. exfalso. apply s_equal_spec in Ej. congruence.
Qed.

Lemma sm_get_perm m m' n : sm_ok m -> m ≡ₚ m' -> sm_get m n = sm_get m' n.
Proof.
  intros Hm Hp. assert (Hm' : sm_ok m') by (unfold sm_ok; by rewrite <- Hp). apply option_eq. intros v. rewrite !sm_get_elem by done. by setoid_rewrite Hp.
Qed.

Lemma sm_replace_spec m n v : match sm_replace m n v with
  | Some m' => map (fun x => s_chars x.1) m' = map (fun x => s_chars x.1) m /\ (forall n', sm_get m' n' = if s_equal n n' then Some v else sm_get m n') /\
      forall (A : WTFString -> Prop) (B : V -> Prop), B v -> Forall (fun x => A x.1 /\ B x.2) m -> Forall (fun x => A x.1 /\ B x.2) m'
  | None => sm_get m n = None
  end.
Proof.
  induction m as [|[i x] m IH]; cbn [sm_replace sm_get]; [done|]. destruct (s_equal i n) eqn:E.
  - split; [done|]. split; [|intros A B Hv [[Hi _] HP]%Forall_cons; apply Forall_cons; cbn [fst snd] in *; done]. intros n'. cbn [sm_get]. apply s_equal_spec in E. unfold s_equal. rewrite E. by destruct (bool_decide _).
  - destruct (sm_replace m n v) as [m'|]; [|done]. destruct IH as (K1 & K2 & K3). cbn [map sm_get]. rewrite K1. split; [done|]. split; [|intros A B Hv [Hx HP]%Forall_cons; apply Forall_cons; auto].
    intros n'. rewrite K2. destruct (s_equal i n') eqn:E'; [|done]. destruct (s_equal n n') eqn:E2; [|done]. apply s_equal_spec in E', E2. assert (s_equal i n = true) by (apply s_equal_spec; congruence). congruence.
Qed.

(** [set], on the names and the values. *)
Lemma sm_set_spec m n v : sm_ok m -> sm_ok (sm_set m n v) /\ (forall n', sm_get (sm_set m n v) n' = if s_equal n n' then Some v else sm_get m n') /\
  vsize (sm_set m n v) <= vsize m + 1 /\
  forall (A : WTFString -> Prop) (B : V -> Prop), A n -> B v -> Forall (fun x => A x.1 /\ B x.2) m -> Forall (fun x => A x.1 /\ B x.2) (sm_set m n v).
Proof.
  intros Hm. unfold sm_set. pose proof (sm_replace_spec m n v) as Hs. destruct (sm_replace m n v) as [m'|].
  - destruct Hs as (K1 & K2 & K3). split; [unfold sm_ok; by rewrite K1|]. split; [done|]. split; [|auto]. apply (f_equal length) in K1. rewrite !length_map in K1. unfold vsize. lia.
  - assert (Hp := hash_place_perm (n, v) m). assert (Hm2 : sm_ok ((n, v) :: m)).
    { unfold sm_ok. cbn. apply NoDup_cons. split; [|done]. intros (i & w & Hin & Ei)%elem_of_keys. assert (sm_get m n = Some w) by (apply sm_get_elem; [done|by exists i]). congruence. }
    split; [unfold sm_ok; by rewrite Hp|]. split; [|split; [unfold vsize; rewrite Hp; cbn; lia|intros A B HA HB HP; rewrite Hp; apply Forall_cons; done]].
    intros n'. by rewrite <- (sm_get_perm ((n, v) :: m)).
Qed.

(** [remove]. *)
Lemma sm_remove_spec m n : sm_ok m -> sm_ok (sm_remove m n) /\ (forall n', sm_get (sm_remove m n) n' = if s_equal n n' then None else sm_get m n') /\
  vsize (sm_remove m n) <= vsize m /\ forall P, Forall P m -> Forall P (sm_remove m n).
Proof.
  intros Hm. unfold sm_remove. set (l := List.filter _ m). assert (Hin : forall x, x ∈ l <-> x ∈ m /\ s_chars x.1 <> s_chars n).
  { intros x. unfold l. rewrite !list_elem_of_In, filter_In, negb_true_iff, <- not_true_iff_false, s_equal_spec. done. }
  assert (Hl : sm_ok l). { unfold sm_ok in *. clear Hin. induction m as [|x m IH]; [constructor|]. cbn in Hm. apply NoDup_cons in Hm as [Hx Hm]. unfold l. cbn [List.filter]. destruct (negb _); [|by apply IH]. cbn. constructor; [|by apply IH]. intros (i & v & Hiv & Ei)%elem_of_keys. apply Hx, elem_of_keys. exists i, v. split; [|done]. apply list_elem_of_In, filter_In in Hiv as [? _]. by apply list_elem_of_In. }
  assert (Hp := hash_rehash_perm l). split; [unfold sm_ok; by rewrite Hp|]. split.
  - intros n'. rewrite <- (sm_get_perm l) by done. apply option_eq. intros v. rewrite sm_get_elem by done. setoid_rewrite Hin. cbn [fst]. destruct (s_equal n n') eqn:E.
    + apply s_equal_spec in E. split; [|done]. intros (i & [_ Hi] & Ei). congruence.
    + rewrite sm_get_elem by done. split; [naive_solver|]. intros (i & Hi & Ei). exists i. split; [|done]. split; [done|]. intros Ein. assert (s_equal n n' = true) by (apply s_equal_spec; congruence). congruence.
  - split.
    + unfold vsize. rewrite Hp. unfold l. pose proof (filter_length_le (fun slot => negb (s_equal slot.1 n)) m). lia.
    + intros P HP. rewrite Hp. rewrite Forall_forall in *. intros x [? _]%Hin. auto.
Qed.
End StringMaps.

(** The map of the backend is one. *)
Lemma replace_extension_set b name e : replace_extension b name e = sm_replace b name e.
Proof. induction b as [|[i x] b IH]; cbn; [done|]. by rewrite IH. Qed.

(** ** What the controllers rely on *)

(** The interface between the controllers and the extensions of compiled rule
    lists: installing one gives an extension in a state that belongs to it; on an
    acceptable load, such an extension gives the actions of the rules in effect
    and stays in such a state. *)
Class LoadSpec `{HashOrder} `{Platform} := {
  meaning : Type;
  means : meaning -> CompiledContentExtension;
  acceptable : ResourceLoadInfo -> Prop;
  takes_effect : meaning -> ResourceLoadInfo -> ActionType -> Prop;
  state_of : CompiledContentExtension -> ContentExtension -> Prop;
  new_state m name : exists e, newContentExtension name (means m) = Done e /\ state_of (means m) e;
  state_load m e info : acceptable info -> state_of (means m) e ->
    exists e' actions, extension_actions e info = Done (e', actions) /\ state_of (means m) e' /\
      forall t, plain_action t -> (exists a, a ∈ actions /\ m_type a = t) <-> takes_effect m info t
}.

Section Sync.
Context `{OS} `{HashOrder} `{Platform} `{!LoadSpec}.
Variables (garbage : Z -> Z) (files : fs).
Notation extension := (WTFString * WebCompiledContentExtensionData)%type.
Implicit Types (l : list extension) (c : UserContentController) (name : WTFString) (d : WebCompiledContentExtensionData) (w : web).

(** Data that arrives as the extension of a rule list. *)
Definition has_meaning (d : WebCompiledContentExtensionData) (m : meaning) : Prop := web_view files (data_arrives d) = Done (means m).

Definition name_ok (name : WTFString) : Prop := string_sendable (Some name).
Definition data_ok (d : WebCompiledContentExtensionData) : Prop := data_sendable d /\ exists m, has_meaning d m.

(** Extensions that a proxy can hold. *)
Definition extensions_ok (l : list extension) : Prop := sm_ok l /\ vsize l < 2 ^ 64 /\ Forall (fun x => name_ok x.1 /\ data_ok x.2) l.

(** ** A controller that holds given extensions *)

(** Those with a name; the backend ignores the empty one. *)
Definition mirrors (l : list extension) (c : UserContentController) : Prop :=
  let b := default [] c in
  sm_ok l /\ sm_ok b /\ Forall (fun x => s_isEmpty x.1 = false) b /\
  forall name, s_isEmpty name = false ->
    match sm_get l name, sm_get b name with
    | Some d, Some e => exists m, has_meaning d m /\ state_of (means m) e
    | None, None => True
    | _, _ => False
    end.

Lemma isEmpty_equal a b : s_chars a = s_chars b -> s_isEmpty a = s_isEmpty b.
Proof. intros E. unfold s_isEmpty, s_length. by rewrite E. Qed.

Lemma mirrors_new : mirrors [] None.
Proof. by split_and!; [constructor..|]. Qed.

Lemma mirrors_add l c name d m : mirrors l c -> has_meaning d m ->
  exists c', controller_addUserContentExtension c name (Some (means m)) = Done c' /\ mirrors (sm_set l name d) c'.
Proof.
  intros (Hl & Hb & Hn & Hm) Hd. destruct (sm_set_spec l name d Hl) as (Sl & Gl & _). unfold controller_addUserContentExtension, addContentExtension. destruct (s_isEmpty name) eqn:En; cbn [obind].
  - eexists. split; [done|]. split; [done|]. split; [done|]. split; [done|]. intros name' Hn'. rewrite Gl. destruct (s_equal name name') eqn:E; [|by apply Hm]. apply s_equal_spec, isEmpty_equal in E. congruence.
  - destruct (new_state m name) as (e & -> & He). cbn [obind]. rewrite replace_extension_set. fold (sm_set (default [] c) name e). destruct (sm_set_spec (default [] c) name e Hb) as (Sb & Gb & _ & Fb).
    eexists. split; [done|]. cbn [default from_option]. split; [done|]. split; [done|]. split.
    + eapply Forall_impl; [apply (Fb (fun i => s_isEmpty i = false) (fun _ => True)); [done|done|]|naive_solver]. eapply Forall_impl; [exact Hn|done].
    + intros name' Hn'. cbn [id]. rewrite Gl, Gb. destruct (s_equal name name'); [by exists m|by apply Hm].
Qed.

Lemma mirrors_remove l c name : mirrors l c -> mirrors (sm_remove l name) (controller_removeUserContentExtension c name).
Proof.
  intros (Hl & Hb & Hn & Hm). destruct (sm_remove_spec l name Hl) as (Sl & Gl & _). unfold controller_removeUserContentExtension. destruct c as [b|].
  - change (removeContentExtension b name) with (sm_remove b name). cbn [default from_option] in *. unfold id in *. destruct (sm_remove_spec b name Hb) as (Sb & Gb & _ & Fb). split; [done|]. split; [done|]. split; [by apply Fb|].
    intros name' Hn'. cbn [default from_option]. unfold id. rewrite Gl, Gb. destruct (s_equal name name'); [done|by apply Hm].
  - split; [done|]. split; [done|]. split; [done|]. intros name' Hn'. rewrite Gl. specialize (Hm name' Hn'). destruct (s_equal name name'); [done|done].
Qed.

Lemma mirrors_removeAll l c : mirrors l c -> mirrors [] (controller_removeAllUserContentExtensions c).
Proof. intros _. destruct c; by split_and!; [constructor..|]. Qed.

(** Only what the names stand for matters. *)
Lemma mirrors_same l l' c : sm_ok l' -> (forall name, sm_get l name = sm_get l' name) -> mirrors l c -> mirrors l' c.
Proof. intros Hl' E (_ & Hb & Hn & Hm). split; [done|]. split; [done|]. split; [done|]. intros name Hname. rewrite <- E. by apply Hm. Qed.

Definition set_all (l0 l : list extension) : list extension := foldl (fun l x => sm_set l x.1 x.2) l0 l.

Lemma set_all_get l : forall l0 n, sm_ok l0 -> sm_ok l -> sm_ok (set_all l0 l) /\ sm_get (set_all l0 l) n = match sm_get l n with Some d => Some d | None => sm_get l0 n end.
Proof.
  induction l as [|[i d] l IH]; intros l0 n Hl0 Hl; [done|]. cbn [set_all foldl fst snd sm_get]. destruct (sm_set_spec l0 i d Hl0) as (S0 & G0 & _). assert (Hl' : sm_ok l) by (by apply NoDup_cons in Hl as [_ ?]).
  destruct (IH (sm_set l0 i d) n S0 Hl') as [S1 G1]. split; [done|]. unfold set_all in G1. rewrite G1, G0. destruct (s_equal i n) eqn:E; [|done]. destruct (sm_get l n) as [d'|] eqn:El; [|done]. exfalso.
  apply (sm_get_elem l n d' Hl') in El as (j & Hj & Ej). apply s_equal_spec in E. apply NoDup_cons in Hl as [Hni _]. apply Hni, elem_of_keys. exists j, d'. split; [done|]. cbn. congruence.
Qed.

(** Adding what arrives from a list. *)
Lemma mirrors_add_all l : forall l0 c, mirrors l0 c -> Forall (fun x => name_ok x.1 /\ data_ok x.2) l ->
  exists c', web_addUserContentExtensions files c (map (fun x => (Some x.1, data_arrives x.2)) l) = Done c' /\ mirrors (set_all l0 l) c'.
Proof.
  induction l as [|[i d] l IH]; intros l0 c Hc Hl; [by exists c|]. apply Forall_cons in Hl as [[_ [_ [m Hm]]] Hl]. unfold web_addUserContentExtensions. cbn [map ofold fst snd default from_option]. unfold id.
  unfold has_meaning in Hm. cbn [snd] in Hm. rewrite Hm. cbn [obind]. destruct (mirrors_add l0 c i d m Hc Hm) as (c1 & -> & Hc1). by apply IH.
Qed.

(** ** Messages *)

Lemma byteArray_coded e data : vsize data < 2 ^ 64 -> coded e (encodeVariableLengthByteArray garbage e data) decodeVariableLengthByteArray data.
Proof.
  intros Hd. pose proof (vsize_nonneg data). eapply coded_bind; [apply (number_coded garbage e 3 (vsize data) 8); [done|done|by change (256 ^ Z.of_nat 8) with (2 ^ 64)]|].
  exact (grow_coded garbage _ 0 data ltac:(done)).
Qed.

Lemma header_coded receiver (name : list Z) k : vsize receiver < 2 ^ 64 -> vsize name < 2 ^ 64 -> 0 <= k < 2 ^ 64 ->
  coded (mkEncoder [] []) (encodeHeader garbage receiver name k) decodeHeader (mkHeader receiver name k).
Proof.
  intros Hr Hn Hk. eapply coded_bind; [by apply (number_coded garbage _ 0 defaultMessageFlags 1)|]. eapply coded_bind; [by apply (byteArray_coded _ receiver)|]. eapply coded_bind; [by apply (byteArray_coded _ name)|].
  eapply coded_bind; [by apply (number_coded garbage _ 3 k 8)|]. apply coded_ret.
Qed.

(** The receiver reads the header and the arguments. *)
Lemma message_read {T} (name : list Z) k o (decode : dec T) t : vsize name < 2 ^ 64 -> 0 <= k < 2 ^ 64 ->
  encodes (encodeHeader garbage receiver_name name k) o decode t ->
  exists m (d : ArgumentDecoder), o = Done m /\ decodeHeader (received m 0) = Some (mkHeader receiver_name name k, d) /\ decode d = Some (t, mkArgumentDecoder (e_buffer m) (vsize (e_buffer m)) []).
Proof.
  intros Hn Hk (m & -> & Hm). destruct (header_coded receiver_name name k) as (b1 & a1 & E1 & R1); [done|done|done|]. destruct Hm as (b2 & a2 & -> & R2). cbn [e_buffer e_attachments] in *. rewrite E1 in *. cbn [e_buffer e_attachments app] in *.
  eexists _, _. split; [done|]. split.
  - unfold received. cbn [e_buffer e_attachments]. rewrite reverse_app. specialize (R1 b2 (reverse a2)). exact R1.
  - specialize (R2 [] []). cbn [app] in R2. rewrite !app_nil_r in R2. exact R2.
Qed.

(** ** Where the messages lead *)

(** The pages and the extensions that a web process must have. *)
Record ghost := mkGhost { g_pages : gmap Z Z; g_controllers : gmap Z (list extension) }.

Definition web_mirrors (g : ghost) (w : web) : Prop := m_pageMap w = g_pages g /\ map_Forall2 (fun _ => mirrors) (g_controllers g) (userContentControllers w).

(** The message takes a process that has the ones to the others. *)
Definition delivers (m : message) (g g' : ghost) : Prop := forall w, web_mirrors g w -> exists w', didReceiveMessage garbage files w m = Done w' /\ web_mirrors g' w'.

Inductive leads : list message -> ghost -> ghost -> Prop :=
| leads_nil g : leads [] g g
| leads_cons m ms g g1 g' : delivers m g g1 -> leads ms g1 g' -> leads (m :: ms) g g'.

Lemma leads_snoc ms m g g1 g' : leads ms g g1 -> delivers m g1 g' -> leads (ms ++ [m]) g g'.
Proof. induction 1 as [|m1 ms g g2 g1 D1 D2 IH]; intros Hm; cbn [app]; [by eapply leads_cons, leads_nil|]. eapply leads_cons; [done|by apply IH]. Qed.

Lemma mirrored_lookup g w k l : web_mirrors g w -> g_controllers g !! k = Some l -> exists c, userContentControllers w !! k = Some c /\ mirrors l c.
Proof.
  intros [_ Hw] Hk. specialize (Hw k). rewrite Hk in Hw. inversion Hw as [? c ? E1 E2|]; subst. by exists c.
Qed.

Definition open_page (g : ghost) (page k : Z) : ghost :=
  mkGhost (<[page := k]> (g_pages g)) (if k =? 0 then g_controllers g else match g_controllers g !! k with Some _ => g_controllers g | None => <[k := []]> (g_controllers g) end).

Lemma delivers_create g page k : g_pages g !! page = None -> delivers (CreateWebPage page k) g (open_page g page k).
Proof.
  intros Hp w [Ew Hw]. cbn [didReceiveMessage]. eexists. split; [done|]. unfold createWebPage, open_page. rewrite Ew, Hp. destruct (k =? 0); [by split|]. unfold getOrCreate. cbn [userContentControllers m_pageMap].
  pose proof (Hw k) as Hk. destruct (g_controllers g !! k) as [l|], (userContentControllers w !! k) as [c|]; try (by inversion Hk). split; [done|]. apply map_Forall2_insert_2; [apply mirrors_new|done].
Qed.

Definition close_page (g : ghost) (page k : Z) : ghost :=
  let pages := delete page (g_pages g) in mkGhost pages (if has_page pages k then g_controllers g else delete k (g_controllers g)).

Lemma delivers_close g page k : g_pages g !! page = Some k -> delivers (ClosePage page) g (close_page g page k).
Proof.
  intros Hp w [Ew Hw]. cbn [didReceiveMessage]. eexists. split; [done|]. unfold web_removeWebPage, close_page. rewrite Ew, Hp. split; [done|]. cbn [g_controllers userContentControllers].
  destruct (has_page _ k); [done|by apply map_Forall2_delete].
Qed.

Definition set_extensions (g : ghost) (k : Z) (l : list extension) : ghost := mkGhost (g_pages g) (<[k := l]> (g_controllers g)).

(** A message for a controller changes that one. *)
Lemma delivers_controller g k l l' m (name : list Z) (d : ArgumentDecoder) : g_controllers g !! k = Some l ->
  decodeHeader (received m 0) = Some (mkHeader receiver_name name k, d) ->
  (forall c, mirrors l c -> exists c', controller_didReceiveMessage garbage files c name d = Done c' /\ mirrors l' c') ->
  delivers (ControllerMessage m) g (set_extensions g k l').
Proof.
  intros Hk Hm Hc w Hw. destruct (mirrored_lookup g w k l Hw Hk) as (c & Ec & Hcl). destruct (Hc c Hcl) as (c' & Er & Hc'). cbn [didReceiveMessage]. rewrite Hm. cbn [m_messageReceiverName m_destinationID m_messageName].
  rewrite bool_decide_eq_true_2 by done. rewrite Ec. setoid_rewrite Er. cbn [obind]. eexists. split; [done|]. destruct Hw as [Ew Hw]. split; [done|]. by apply map_Forall2_insert_2.
Qed.

Lemma names_differ : name_remove <> name_add /\ name_removeAll <> name_add /\ name_removeAll <> name_remove.
Proof. by split_and!; vm_compute. Qed.

(** The extensions of a message arrive. *)
Lemma add_message_read k l2 : 0 <= k < 2 ^ 64 -> vsize l2 < 2 ^ 64 -> Forall (fun x => name_ok x.1 /\ data_sendable x.2) l2 ->
  exists m (d : ArgumentDecoder), AddUserContentExtensions garbage k l2 = Done m /\ decodeHeader (received m 0) = Some (mkHeader receiver_name name_add k, d) /\
    @decode_argument _ (extensions_coder garbage) d = Some (map (fun x => (Some x.1, data_arrives x.2)) l2, mkArgumentDecoder (e_buffer m) (vsize (e_buffer m)) []).
Proof.
  intros Hk Hsize Hok. apply message_read; [done|done|].
  replace (map _ l2) with (@arrives _ (extensions_coder garbage) (map (fun x => (Some x.1, x.2)) l2)) by (cbn; rewrite map_map; done).
  apply coder_law. split; [unfold vsize in *; by rewrite length_map|]. apply Forall_map. eapply Forall_impl; [exact Hok|]. by intros x [Hn Hd].
Qed.

Lemma delivers_add g k l l2 l' : 0 <= k < 2 ^ 64 -> g_controllers g !! k = Some l -> vsize l2 < 2 ^ 64 -> Forall (fun x => name_ok x.1 /\ data_ok x.2) l2 ->
  (forall c, mirrors (set_all l l2) c -> mirrors l' c) ->
  exists m, AddUserContentExtensions garbage k l2 = Done m /\ delivers (ControllerMessage m) g (set_extensions g k l').
Proof.
  intros Hk Hl Hsize Hok Hl'. destruct (add_message_read k l2) as (m & d & Em & Eh & Ed); [done|done|eapply Forall_impl; [exact Hok|]; by intros x [Hn [Hd _]]|].
  exists m. split; [done|]. eapply (delivers_controller g k l l' m name_add d); [done|done|]. intros c Hc. destruct (mirrors_add_all l2 l c Hc Hok) as (c' & Ec & Hc'). exists c'. split; [|by apply Hl'].
  unfold controller_didReceiveMessage. rewrite bool_decide_eq_true_2 by done. by rewrite Ed.
Qed.

Lemma delivers_remove g k l name : 0 <= k < 2 ^ 64 -> g_controllers g !! k = Some l -> name_ok name ->
  exists m, RemoveUserContentExtension garbage k name = Done m /\ delivers (ControllerMessage m) g (set_extensions g k (sm_remove l name)).
Proof.
  intros Hk Hl Hn. destruct (message_read name_remove k (RemoveUserContentExtension garbage k name) (@decode_argument _ (name_coder garbage)) (Some name)) as (m & d & Em & Eh & Ed); [done|done| |].
  - exact (@coder_law _ (name_coder garbage) _ (Some name) Hn).
  - exists m. split; [done|]. eapply (delivers_controller g k l _ m name_remove d); [done|done|]. intros c Hc. eexists. split; [|by apply mirrors_remove].
    unfold controller_didReceiveMessage. destruct names_differ as (N1 & _ & _). rewrite bool_decide_eq_false_2, bool_decide_eq_true_2 by done. by rewrite Ed.
Qed.

Lemma delivers_removeAll g k l : 0 <= k < 2 ^ 64 -> g_controllers g !! k = Some l ->
  exists m, RemoveAllUserContentExtensions garbage k = Done m /\ delivers (ControllerMessage m) g (set_extensions g k []).
Proof.
  intros Hk Hl. destruct (message_read name_removeAll k (RemoveAllUserContentExtensions garbage k) (dec_ret tt) tt) as (m & d & Em & Eh & _); [done|done|eexists; split; [done|apply coded_ret]|].
  exists m. split; [done|]. eapply (delivers_controller g k l [] m name_removeAll d); [done|done|]. intros c Hc. eexists. split; [|by eapply mirrors_removeAll].
  unfold controller_didReceiveMessage. destruct names_differ as (_ & N2 & N3). rewrite !bool_decide_eq_false_2, bool_decide_eq_true_2 by done. done.
Qed.
End Sync.
