(* ===== verification/ControllerSystem.v ===== *)
(** * The system of processes

    Pages open and close, extensions are added to controllers and removed,
    messages are delivered and pages load resources, in any order.  The invariant
    says what the messages on their way lead to; it holds as long as the last page
    of a controller is not closed in a process that goes on. *)

From stdpp Require Import gmap strings.
From S2P Require Import Prelude Containers Strings ResourceLoad Bytecode Rules Backend BackendTheorems EndToEnd PosixFiles IpcCoders ExtensionStore ContentControllers ControllerSync.

#[local] Arguments vsize {A} v : simpl never.

Section System.
Context `{OS} `{HashOrder} `{Platform} `{!LoadSpec}.
Variables (garbage : Z -> Z) (files : fs).
Notation extension := (WTFString * WebCompiledContentExtensionData)%type.
Implicit Types (l : list extension) (c : UserContentController) (name : WTFString) (w : web) (s : system) (P : process).
Notation mirrors := (mirrors files).
Notation has_meaning := (has_meaning files).
Notation extensions_ok := (extensions_ok files).
Notation web_mirrors := (web_mirrors files).
Notation delivers := (delivers garbage files).
Notation leads := (leads garbage files).

(** ** Loads *)

(** Every extension of the backend acts and stays what it is. *)
Lemma extensions_load info b : acceptable info -> Forall (fun x => exists m, state_of (means m) x.2) b ->
  exists b' actions, actions_for_extensions b info = Done (b', actions) /\
    Forall2 (fun x y => x.1 = y.1 /\ forall m, state_of (means m) x.2 -> state_of (means m) y.2) b b' /\
    forall t, plain_action t -> (exists a, a ∈ actions /\ m_type a = t) <-> exists x m, x ∈ b /\ state_of (means m) x.2 /\ takes_effect m info t.
Proof.
  intros Hi. induction b as [|[i e] b IH]; cbn [actions_for_extensions]; intros Hb.
  - exists [], []. split; [done|]. split; [done|]. intros t _. split; [by intros (? & ?%elem_of_nil & _)|by intros (? & ? & ?%elem_of_nil & _)].
  - apply Forall_cons in Hb as [[m He] Hb]. cbn [snd] in He. destruct (state_load m e info Hi He) as (e' & acts & Ee & He' & Ht). rewrite Ee. cbn [obind]. destruct (IH Hb) as (b' & rest & Er & Hf & Hr). rewrite Er. cbn [obind].
    assert (Hall : forall m', state_of (means m') e -> state_of (means m') e' /\ forall t, plain_action t -> (exists a, a ∈ acts /\ m_type a = t) <-> takes_effect m' info t).
    { intros m' Hm'. destruct (state_load m' e info Hi Hm') as (e2 & acts2 & E2 & He2 & Ht2). rewrite Ee in E2. by injection E2 as <- <-. }
    eexists _, _. split; [done|]. split; [constructor; [|done]; split; [done|]; intros m' Hm'; by apply Hall|]. intros t Hp. setoid_rewrite elem_of_app. setoid_rewrite elem_of_cons. split.
    + intros (a & [Ha|Ha] & Hat); [exists (i, e), m; split; [by left|]; split; [done|]; apply Ht; [done|by exists a]|]. destruct (proj1 (Hr t Hp)) as (y & m' & Hy & ? & ?); [by exists a|]. exists y, m'. split; [by right|done].
    + intros (y & m' & [->|Hy] & Hs & He2); [apply (proj2 (Hall m' Hs) t Hp) in He2 as (a & Ha & Hat); exists a; split; [by left|done]|].
      destruct (proj2 (Hr t Hp)) as (a & Ha & Hat); [by exists y, m'|]. exists a. split; [by right|done].
Qed.

(** Some extension with a name has a rule of the type in effect. *)
Definition some_effect (l : list extension) (info : ResourceLoadInfo) (t : ActionType) : Prop :=
  exists name d m, sm_get l name = Some d /\ s_isEmpty name = false /\ has_meaning d m /\ takes_effect m info t.

Lemma mirrors_states l c : mirrors l c -> Forall (fun x => exists m, state_of (means m) x.2) (default [] c).
Proof.
  intros (Hl & Hb & Hn & Hm). apply Forall_forall. intros [i e] Hin. rewrite Forall_forall in Hn. specialize (Hn _ Hin). cbn in Hn. specialize (Hm i Hn).
  assert (E : sm_get (default [] c) i = Some e) by (apply sm_get_elem; [done|by exists i]). rewrite E in Hm. destruct (sm_get l i); [|done]. destruct Hm as (m & _ & ?). by exists m.
Qed.

Lemma mirrors_effect l c info t b' actions : mirrors l c -> acceptable info -> plain_action t -> actions_for_extensions (default [] c) info = Done (b', actions) ->
  (exists x m, x ∈ default [] c /\ state_of (means m) x.2 /\ takes_effect m info t) <-> some_effect l info t.
Proof.
  intros (Hl & Hb & Hn & Hm) Hi Ht _. rewrite Forall_forall in Hn. split.
  - intros ([i e] & m & Hin & Hs & He). assert (E : sm_get (default [] c) i = Some e) by (apply sm_get_elem; [done|by exists i]). specialize (Hn _ Hin). cbn in Hn, Hs. pose proof (Hm i Hn) as Hmi. rewrite E in Hmi.
    destruct (sm_get l i) as [d|] eqn:El; [|done]. destruct Hmi as (m0 & Hd & Hs0). exists i, d, m0. split_and!; [done|done|done|].
    destruct (state_load m e info Hi Hs) as (e1 & a1 & E1 & _ & T1). destruct (state_load m0 e info Hi Hs0) as (e2 & a2 & E2 & _ & T2). rewrite E1 in E2. injection E2 as <- <-. by apply T2, T1.
  - intros (name & d & m & El & Hname & Hd & He). specialize (Hm name Hname). rewrite El in Hm. destruct (sm_get (default [] c) name) as [e|] eqn:E; [|done]. apply sm_get_elem in E as (i & Hin & _); [|done].
    destruct Hm as (m0 & Hd0 & Hs0). exists (i, e), m. split; [done|]. split; [|done]. unfold ControllerSync.has_meaning in *. rewrite Hd in Hd0. injection Hd0 as ->. done.
Qed.

(** The same extensions, after loads. *)
Definition same_extensions (b b' : backend) : Prop :=
  Forall2 (fun x y => x.1 = y.1 /\ forall m, state_of (means m) x.2 -> state_of (means m) y.2) b b'.

Lemma same_get b b' name : same_extensions b b' ->
  match sm_get b name, sm_get b' name with Some e, Some e' => forall m, state_of (means m) e -> state_of (means m) e' | None, None => True | _, _ => False end.
Proof. induction 1 as [|[i e] [j e'] b b' [E He] Hb IH]; cbn [sm_get]; [done|]. cbn [fst snd] in *. subst j. by destruct (s_equal i name). Qed.

Lemma same_keys b b' : same_extensions b b' -> map fst b = map fst b'.
Proof. induction 1 as [|x y b b' [E _] Hb IH]; cbn; [done|]. by rewrite E, IH. Qed.

Lemma mirrors_loaded l c b' : mirrors l c -> same_extensions (default [] c) b' -> mirrors l (Some b').
Proof.
  intros (Hl & Hb & Hn & Hm) Hf. pose proof (same_keys _ _ Hf) as Hk. split; [done|]. cbn [default from_option]. unfold id. split.
  { unfold sm_ok in *. rewrite <- (map_map fst s_chars) in *. by rewrite <- Hk. }
  split; [apply (Forall_map fst (fun i => s_isEmpty i = false)); rewrite <- Hk; by apply Forall_map|]. intros name Hname. specialize (Hm name Hname). pose proof (same_get _ _ name Hf) as Hg.
  destruct (sm_get l name), (sm_get (default [] c) name), (sm_get b' name); try done. destruct Hm as (m & Hd & Hs). exists m. auto.
Qed.

(** A controller that mirrors extensions decides a load, and still mirrors them. *)
Lemma mirrors_process l c loader context url document type : mirrors l c -> acceptable (mkResourceLoadInfo url document type) ->
  exists c' ls status, controller_processContentExtensionRulesForLoad c loader context url document type = Done (c', ls, status) /\ mirrors l c' /\
    (contentExtensionsEnabled loader = true -> protocolIsData url = false ->
      (status = Blocked <-> some_effect l (mkResourceLoadInfo url document type) BlockLoad) /\
      (SetAllowCookies false ∈ ls_effects ls <-> some_effect l (mkResourceLoadInfo url document type) BlockCookies)) /\
    (contentExtensionsEnabled loader = false \/ protocolIsData url = true -> status = NotBlocked /\ SetAllowCookies false ∉ ls_effects ls).
Proof.
  intros Hc Hi. set (info := mkResourceLoadInfo url document type) in *. destruct (extensions_load info (default [] c) Hi (mirrors_states l c Hc)) as (b' & actions & Ea & Hb' & Hact).
  assert (Heff : forall t, plain_action t -> (exists a, a ∈ actions /\ m_type a = t) <-> some_effect l info t) by (intros t Ht; rewrite (Hact t Ht); by eapply mirrors_effect).
  destruct c as [b|]; cbn [controller_processContentExtensionRulesForLoad default from_option] in *.
  - unfold id in *. destruct (contentExtensionsEnabled loader); cbn [negb].
    2:{ eexists _, _, _. split; [done|]. split; [done|]. split; [done|]. intros _. split; [done|]. apply not_elem_of_nil. }
    destruct (protocolIsData url) eqn:Edata.
    + assert (Hact' : actionsForResourceLoad b info = Done (b, [])) by (unfold actionsForResourceLoad; cbn [resourceURL info]; by rewrite Edata).
      destruct (load_blocked b context url document type b [] Hact') as (ls & status & E & Hbl & Hco). rewrite E. cbn [obind]. eexists _, _, _. split; [done|]. split; [done|]. split; [done|]. intros _. split; [destruct status; [|done]; destruct (proj1 Hbl eq_refl) as (? & ?%elem_of_nil & _); done|].
      intros (? & ?%elem_of_nil & _)%Hco. done.
    + assert (Hact' : actionsForResourceLoad b info = Done (b', actions)) by (unfold actionsForResourceLoad; cbn [resourceURL info]; by rewrite Edata).
      destruct (load_blocked b context url document type b' actions Hact') as (ls & status & E & Hbl & Hco). rewrite E. cbn [obind]. eexists _, _, _. split; [done|]. split; [by apply (mirrors_loaded l (Some b))|].
      split; [intros _ _; rewrite Hbl, Hco; split; apply Heff; [by left|by right; left]|intros [|]; done].
  - assert (Hno : forall t, plain_action t -> ~ some_effect l info t).
    { intros t Ht (a & Ha & _)%Heff; [|done]. cbn in Ea. injection Ea as <- <-. by apply elem_of_nil in Ha. }
    eexists _, _, _. split; [done|]. split; [done|]. split; [|intros _; split; [done|apply not_elem_of_nil]]. intros _ _. split; [split; [done|intros Hs; exfalso; revert Hs; apply Hno; by left]|]. cbn [ls_effects].
    split; [by intros ?%elem_of_nil|intros Hs; exfalso; revert Hs; apply Hno; by right; left].
Qed.

(** ** Runs *)

Inductive event :=
| NewController (identifier : Z)
| LaunchProcess (p : Z)
| AddExtension (identifier : Z) (name : WTFString) (d : WebCompiledContentExtensionData)
| RemoveExtension (identifier : Z) (name : WTFString)
| RemoveAllExtensions (identifier : Z)
| OpenPage (p pageID identifier : Z)
| CloseWebPage (p pageID : Z) (canTerminate : bool)
| Deliver (p : Z)
| Load (p pageID : Z) (loader : DocumentLoader) (context : load_context) (requestURL mainDocumentURL : URL) (type : ResourceType).

Definition exec_event (s : system) (e : event) : outcome system :=
  match e with
  | NewController k => Done (set_proxy s k (mkProxy [] []))
  | LaunchProcess p => Done (mkSystem (proxies s) (<[p := mkProcess ∅ [] [] (mkWeb ∅ ∅)]> (processes s)))
  | AddExtension k name d => proxy_addUserContentExtension garbage s k name d
  | RemoveExtension k name => proxy_removeUserContentExtension garbage s k name
  | RemoveAllExtensions k => proxy_removeAllUserContentExtensions garbage s k
  | OpenPage p page k => openPage garbage s p page k
  | CloseWebPage p page canTerminate => Done (closePage s p page canTerminate)
  | Deliver p => deliver garbage files s p
  | Load p page loader context url document type => let* (result, _) := load s p page loader context url document type in Done result.1
  end.

(** What may happen: identifiers are new; extensions are ones of rule lists; pages
    that are opened are new, and their controllers there; and no page is closed
    that is the last one of its controller, unless its process ends. *)
Definition allowed (s : system) (e : event) : Prop :=
  match e with
  | NewController k => proxies s !! k = None /\ 0 < k < 2 ^ 64
  | LaunchProcess p => processes s !! p = None
  | AddExtension k name d => name_ok name /\ data_ok files d /\ exists x, proxies s !! k = Some x /\ vsize (m_userContentExtensions x) + 1 < 2 ^ 64
  | RemoveExtension k name => name_ok name /\ is_Some (proxies s !! k)
  | RemoveAllExtensions k => is_Some (proxies s !! k)
  | OpenPage p page k => (exists P, processes s !! p = Some P /\ pr_pageMap P !! page = None) /\ (k = 0 \/ is_Some (proxies s !! k))
  | CloseWebPage p page canTerminate =>
      exists P k, processes s !! p = Some P /\ pr_pageMap P !! page = Some k /\
        (k = 0 \/ has_page (delete page (pr_pageMap P)) k = true \/ delete page (pr_pageMap P) = ∅ /\ canTerminate = true)
  | Deliver _ => True
  | Load _ _ _ _ url document type => acceptable (mkResourceLoadInfo url document type)
  end.

Definition system_step (s s' : system) : Prop := exists e, allowed s e /\ exec_event s e = Done s'.

Definition no_processes : system := mkSystem ∅ ∅.

(** ** The invariant *)

(** The messages lead to the extensions that the proxies have. *)
Definition target (px : gmap Z controller_proxy) (P : process) (g : ghost) : Prop :=
  g_pages g = pr_pageMap P /\
  forall k l, g_controllers g !! k = Some l <-> k ∈ m_webUserContentControllerProxies P /\ exists x, px !! k = Some x /\ l = m_userContentExtensions x.

Record process_ok (px : gmap Z controller_proxy) (p : Z) (P : process) : Prop := {
  po_known k : k ∈ m_webUserContentControllerProxies P <-> k <> 0 /\ exists page, pr_pageMap P !! page = Some k;
  po_proxy k : k ∈ m_webUserContentControllerProxies P -> exists x, px !! k = Some x /\ p ∈ m_processes x;
  po_process k x : px !! k = Some x -> p ∈ m_processes x -> k ∈ m_webUserContentControllerProxies P;
  po_leads : exists g g', web_mirrors g (pr_web P) /\ leads (pr_messages P) g g' /\ target px P g'
}.

Record proxy_ok (procs : gmap Z process) (k : Z) (x : controller_proxy) : Prop := {
  xo_identifier : 0 < k < 2 ^ 64;
  xo_extensions : extensions_ok (m_userContentExtensions x);
  xo_nodup : NoDup (m_processes x);
  xo_processes p : p ∈ m_processes x -> is_Some (procs !! p)
}.

Record system_ok (s : system) : Prop := {
  so_proxies k x : proxies s !! k = Some x -> proxy_ok (processes s) k x;
  so_processes p P : processes s !! p = Some P -> process_ok (proxies s) p P
}.

Lemma initial_ok : system_ok no_processes.
Proof. by split. Qed.

(** Sending to some processes. *)
Lemma send_all_proxies m to : forall s, proxies (send_all s to m) = proxies s.
Proof. induction to as [|p to IH]; intros s; [done|]. cbn [send_all foldl]. unfold send_all in IH. by rewrite IH. Qed.

Lemma send_all_processes m to : forall s p, NoDup to -> processes (send_all s to m) !! p = (if decide (p ∈ to) then push m <$> processes s !! p else processes s !! p).
Proof.
  induction to as [|q to IH]; intros s p Hn; [by rewrite decide_False by apply not_elem_of_nil|]. apply NoDup_cons in Hn as [Hq Hn]. cbn [send_all foldl]. unfold send_all in IH. rewrite IH by done. cbn [send processes].
  destruct (decide (p = q)) as [->|Hpq].
  - rewrite decide_False by done. rewrite decide_True by left. apply lookup_alter_eq.
  - rewrite lookup_alter_ne by done. destruct (decide (p ∈ to)); [by rewrite decide_True by (by right)|]. rewrite decide_False; [done|]. by intros [?|?]%elem_of_cons.
Qed.

Lemma push_ok (procs : gmap Z process) (to : list Z) m p : is_Some (procs !! p) -> is_Some (if decide (p ∈ to) then push m <$> procs !! p else procs !! p).
Proof. intros [P ->]. by destruct (decide _). Qed.

(** The extensions of a proxy change, and its processes are told. *)
Lemma change_ok s k x l' m : system_ok s -> proxies s !! k = Some x -> extensions_ok l' ->
  (forall g, g_controllers g !! k = Some (m_userContentExtensions x) -> delivers (ControllerMessage m) g (set_extensions g k l')) ->
  system_ok (send_all (set_proxy s k (mkProxy l' (m_processes x))) (m_processes x) (ControllerMessage m)).
Proof.
  intros [Sx Sp] Hx Hl' Hm. destruct (Sx k x Hx) as [I1 I2 I3 I4]. constructor.
  - intros k2 x2. rewrite send_all_proxies. cbn [set_proxy proxies]. intros E2. assert (Ho : proxy_ok (processes s) k2 x2).
    { apply lookup_insert_Some in E2 as [[<- <-]|[_ E2]]; [by constructor|by apply Sx]. }
    destruct Ho as [J1 J2 J3 J4]. constructor; [done..|]. intros p Hp. rewrite send_all_processes by done. by apply push_ok, J4.
  - intros p P'. rewrite send_all_proxies, send_all_processes by done. cbn [set_proxy proxies processes]. set (px := <[k := _]> (proxies s)).
    assert (Hpx : forall P, process_ok (proxies s) p P -> (forall k2, k2 ∈ m_webUserContentControllerProxies P -> exists x2, px !! k2 = Some x2 /\ p ∈ m_processes x2) /\
      forall k2 x2, px !! k2 = Some x2 -> p ∈ m_processes x2 -> k2 ∈ m_webUserContentControllerProxies P).
    { intros P [_ K2 K3 _]. split.
      - intros k2 [x2 [E2 P2]]%K2. destruct (decide (k2 = k)) as [->|Hk]; [|exists x2; split; [unfold px; by rewrite lookup_insert_ne|done]]. eexists. split; [apply lookup_insert_eq|]. cbn. congruence.
      - intros k2 x2 [[<- <-]|[_ E2]]%lookup_insert_Some; [|by apply K3]. cbn. by apply K3. }
    destruct (decide (p ∈ m_processes x)) as [Hin|Hout].
    + intros (P & HP & ->)%fmap_Some. destruct (Hpx P (Sp p P HP)) as [Q2 Q3]. destruct (Sp p P HP) as [K1 K2 K3 (g & g' & W & L & Tp & Tc)]. constructor; [done..|].
      assert (Hk : k ∈ m_webUserContentControllerProxies P) by (by eapply K3). exists g, (set_extensions g' k l'). split; [done|]. split; [eapply leads_snoc; [done|]; apply Hm; apply Tc; split; [done|by exists x]|].
      split; [done|]. intros k2 l2. cbn [set_extensions g_controllers push m_webUserContentControllerProxies]. unfold px. rewrite lookup_insert_Some. destruct (decide (k2 = k)) as [->|Hk2].
      * rewrite lookup_insert_eq. naive_solver.
      * rewrite lookup_insert_ne by done. rewrite Tc. naive_solver.
    + intros HP. destruct (Hpx P' (Sp p P' HP)) as [Q2 Q3]. destruct (Sp p P' HP) as [K1 K2 K3 (g & g' & W & L & Tp & Tc)]. constructor; [done..|]. exists g, g'. split; [done|]. split; [done|]. split; [done|].
      intros k2 l2. rewrite Tc. assert (Hne : k2 ∈ m_webUserContentControllerProxies P' -> k2 <> k) by (intros (x2 & E2 & P2)%K2 ->; congruence).
      unfold px. split; intros (Hk2 & x2 & E2 & ->); (split; [done|]); exists x2; rewrite lookup_insert_ne in * by (symmetry; auto); done.
Qed.

(** Extensions added and removed. *)
Lemma sm_set_ok l name d : extensions_ok l -> name_ok name -> data_ok files d -> vsize l + 1 < 2 ^ 64 -> extensions_ok (sm_set l name d).
Proof.
  intros (Hl & _ & Hf) Hn Hd Hs. destruct (sm_set_spec l name d Hl) as (S1 & _ & S2 & S3). split; [done|]. split; [lia|]. by apply (S3 name_ok (data_ok files)).
Qed.

Lemma sm_remove_ok l name : extensions_ok l -> extensions_ok (sm_remove l name).
Proof. intros (Hl & Hs & Hf). destruct (sm_remove_spec l name Hl) as (S1 & _ & S2 & S3). split; [done|]. split; [lia|by apply S3]. Qed.

Lemma nothing_ok : extensions_ok [].
Proof. by split_and!; [constructor| |constructor]. Qed.

Lemma add_ok s k name d : system_ok s -> allowed s (AddExtension k name d) -> exists s', exec_event s (AddExtension k name d) = Done s' /\ system_ok s'.
Proof.
  intros Hs (Hn & Hd & x & Hx & Hsize). destruct (so_proxies s Hs k x Hx) as [I1 I2 I3 I4]. set (l := m_userContentExtensions x) in *.
  assert (Hm : forall g, g_controllers g !! k = Some l -> exists m, AddUserContentExtensions garbage k [(name, d)] = Done m /\ delivers (ControllerMessage m) g (set_extensions g k (sm_set l name d))).
  { intros g Hg. apply (delivers_add garbage files g k l [(name, d)]); [lia|done|done|by constructor|done]. }
  destruct (Hm (mkGhost ∅ {[k := l]})) as (m & Em & _); [apply lookup_singleton_eq|].
  assert (Hc : system_ok (send_all (set_proxy s k (mkProxy (sm_set l name d) (m_processes x))) (m_processes x) (ControllerMessage m))).
  { apply change_ok; [done|done|by apply sm_set_ok|]. intros g Hg. destruct (Hm g Hg) as (m' & Em' & Hdel). rewrite Em in Em'. by injection Em' as <-. }
  cbn [exec_event]. unfold proxy_addUserContentExtension. rewrite Hx. fold l. destruct (m_processes x) as [|p to]; [by eexists|]. rewrite Em. by eexists.
Qed.

Lemma remove_ok s k name : system_ok s -> allowed s (RemoveExtension k name) -> exists s', exec_event s (RemoveExtension k name) = Done s' /\ system_ok s'.
Proof.
  intros Hs (Hn & x & Hx). destruct (so_proxies s Hs k x Hx) as [I1 I2 I3 I4]. set (l := m_userContentExtensions x) in *.
  assert (Hm : forall g, g_controllers g !! k = Some l -> exists m, RemoveUserContentExtension garbage k name = Done m /\ delivers (ControllerMessage m) g (set_extensions g k (sm_remove l name))).
  { intros g Hg. apply delivers_remove; [lia|done|done]. }
  destruct (Hm (mkGhost ∅ {[k := l]})) as (m & Em & _); [apply lookup_singleton_eq|].
  cbn [exec_event]. unfold proxy_removeUserContentExtension. rewrite Hx, Em. fold l. cbn [obind]. eexists. split; [done|].
  apply change_ok; [done|done|by apply sm_remove_ok|]. intros g Hg. destruct (Hm g Hg) as (m' & Em' & Hdel). rewrite Em in Em'. by injection Em' as <-.
Qed.

Lemma removeAll_ok s k : system_ok s -> allowed s (RemoveAllExtensions k) -> exists s', exec_event s (RemoveAllExtensions k) = Done s' /\ system_ok s'.
Proof.
  intros Hs (x & Hx). destruct (so_proxies s Hs k x Hx) as [I1 I2 I3 I4]. set (l := m_userContentExtensions x) in *. cbn [exec_event]. unfold proxy_removeAllUserContentExtensions. rewrite Hx. cbn [RemoveAllUserContentExtensions obind].
  eexists. split; [done|]. apply change_ok; [done|done|apply nothing_ok|]. intros g Hg. destruct (delivers_removeAll garbage files g k l) as (m & Em & Hdel); [lia|done|]. by injection Em as <-.
Qed.

(** *** One process changes *)

(** The proxies are the same to a process. *)
Definition same_proxies (p : Z) (px px' : gmap Z controller_proxy) : Prop :=
  forall k, option_Forall2 (fun x x' => m_userContentExtensions x = m_userContentExtensions x' /\ (p ∈ m_processes x <-> p ∈ m_processes x')) (px !! k) (px' !! k).

Lemma same_proxies_l p px px' k x : same_proxies p px px' -> px !! k = Some x -> exists x', px' !! k = Some x' /\ m_userContentExtensions x = m_userContentExtensions x' /\ (p ∈ m_processes x <-> p ∈ m_processes x').
Proof. intros Hs Hx. specialize (Hs k). rewrite Hx in Hs. inversion Hs as [? x' R E1 E2|]; subst. by exists x'. Qed.

Lemma same_proxies_r p px px' k x' : same_proxies p px px' -> px' !! k = Some x' -> exists x, px !! k = Some x /\ m_userContentExtensions x = m_userContentExtensions x' /\ (p ∈ m_processes x <-> p ∈ m_processes x').
Proof. intros Hs Hx. specialize (Hs k). rewrite Hx in Hs. inversion Hs as [x ? R E1 E2|]; subst. by exists x. Qed.

Lemma process_ok_same p px px' P : same_proxies p px px' -> process_ok px p P -> process_ok px' p P.
Proof.
  intros Hs [K1 K2 K3 (g & g' & W & L & Tp & Tc)]. constructor; [done| | |].
  - intros k (x & Hx & Hp)%K2. destruct (same_proxies_l _ _ _ _ _ Hs Hx) as (x' & Hx' & _ & Hi). exists x'. by rewrite <- Hi.
  - intros k x' Hx' Hp. destruct (same_proxies_r _ _ _ _ _ Hs Hx') as (x & Hx & _ & Hi). apply (K3 k x); [done|by apply Hi].
  - exists g, g'. split; [done|]. split; [done|]. split; [done|]. intros k l. rewrite Tc. split; intros (Hk & x & Hx & ->); (split; [done|]).
    + destruct (same_proxies_l _ _ _ _ _ Hs Hx) as (x' & Hx' & E & _). by exists x'.
    + destruct (same_proxies_r _ _ _ _ _ Hs Hx) as (x' & Hx' & E & _). by exists x'.
Qed.

Lemma same_proxies_refl p px : same_proxies p px px.
Proof. intros k. destruct (px !! k); by constructor. Qed.

(** A process is put in the place of [p], and the proxies of it may change. *)
Lemma replace_ok s p P px' : system_ok s -> is_Some (processes s !! p) -> (forall q, q <> p -> same_proxies q (proxies s) px') ->
  (forall k x, px' !! k = Some x -> proxy_ok (processes s) k x) -> process_ok px' p P -> system_ok (mkSystem px' (<[p := P]> (processes s))).
Proof.
  intros [Sx Sp] [P0 HP0] Hq Hx HP. constructor; cbn [proxies processes].
  - intros k x Hk. destruct (Hx k x Hk) as [I1 I2 I3 I4]. constructor; [done..|]. intros q Hin. destruct (decide (q = p)) as [->|Hqp]; [rewrite lookup_insert_eq; by eexists|]. rewrite lookup_insert_ne by done. by apply I4.
  - intros q Q [[<- <-]|[Hqp HQ]]%lookup_insert_Some; [done|]. eapply process_ok_same; [by apply Hq|by apply Sp].
Qed.

Lemma alter_known {A} (f : A -> A) p (m : gmap Z A) a : m !! p = Some a -> alter f p m = <[p := f a]> m.
Proof. intros E. apply map_eq. intros q. destruct (decide (q = p)) as [->|]; [by rewrite lookup_alter_eq, lookup_insert_eq, E|by rewrite lookup_alter_ne, lookup_insert_ne]. Qed.

(** A message is delivered. *)
Lemma deliver_ok s p : system_ok s -> exists s', exec_event s (Deliver p) = Done s' /\ system_ok s'.
Proof.
  intros Hs. cbn [exec_event]. unfold deliver. destruct (processes s !! p) as [[pages known [|m ms] w]|] eqn:HP; [by exists s| |by exists s].
  destruct (so_processes s Hs p _ HP) as [K1 K2 K3 (g & g' & W & L & T)]. cbn [pr_messages pr_web] in *. inversion L as [|? ? ? g1 ? D L1]; subst. destruct (D w W) as (w' & E & W'). rewrite E. cbn [obind].
  eexists. split; [done|]. apply replace_ok; [done|by eexists|intros q _; apply same_proxies_refl|by apply so_proxies|]. constructor; [done..|]. by exists g1, g'.
Qed.

(** A page loads something. *)
Lemma load_ok s p page loader context url document type : system_ok s -> acceptable (mkResourceLoadInfo url document type) ->
  exists s', exec_event s (Load p page loader context url document type) = Done s' /\ system_ok s'.
Proof.
  intros Hs Hi. cbn [exec_event]. unfold load. destruct (processes s !! p) as [P|] eqn:HP; [|by eexists]. destruct (m_pageMap (pr_web P) !! page) as [k|]; [|by eexists]. destruct (userContentControllers (pr_web P) !! k) as [c|] eqn:Hc; [|by eexists].
  destruct (so_processes s Hs p _ HP) as [K1 K2 K3 (g & g' & W & L & T)]. destruct W as [Wp Wc]. pose proof (Wc k) as Hk. rewrite Hc in Hk. inversion Hk as [l ? R E1 E2|]; subst.
  destruct (mirrors_process l c loader context url document type R Hi) as (c' & ls & status & E & Hc' & _). rewrite E. cbn [obind fst]. eexists. split; [done|].
  apply replace_ok; [done|by eexists|intros q _; apply same_proxies_refl|by apply so_proxies|]. constructor; [done..|]. exists g, g'. split; [|done]. split; [done|]. cbn [userContentControllers pr_web].
  rewrite <- (insert_id (g_controllers g) k l) by done. by apply map_Forall2_insert_2.
Qed.

(** *** Pages *)

Lemma known_insert (known known' : list Z) (pages : gmap Z Z) page k : pages !! page = None -> (forall k', k' ∈ known' <-> k' = k /\ k <> 0 \/ k' ∈ known) ->
  (forall k', k' ∈ known <-> k' <> 0 /\ exists pg, pages !! pg = Some k') -> forall k', k' ∈ known' <-> k' <> 0 /\ exists pg, <[page := k]> pages !! pg = Some k'.
Proof.
  intros Hp Hk' Hk k'. rewrite Hk', Hk. split.
  - intros [[-> H0']|[H0' [pg Hpg]]]; (split; [done|]); [exists page; apply lookup_insert_eq|]. exists pg. rewrite lookup_insert_ne by congruence. done.
  - intros [H0' [pg [[<- <-]|[_ Hpg]]%lookup_insert_Some]]; [by left|]. right. split; [done|by exists pg].
Qed.

(** A page of a controller that the process knows, or of none. *)
Lemma open_known s p P page k : system_ok s -> processes s !! p = Some P -> pr_pageMap P !! page = None -> k = 0 \/ k ∈ m_webUserContentControllerProxies P ->
  forall known', (forall k', k' ∈ known' <-> k' ∈ m_webUserContentControllerProxies P) ->
  system_ok (mkSystem (proxies s) (<[p := mkProcess (<[page := k]> (pr_pageMap P)) known' (pr_messages P ++ [CreateWebPage page k]) (pr_web P)]> (processes s))).
Proof.
  intros Hs HP Hpage Hk known' Hkn. destruct (so_processes s Hs p P HP) as [K1 K2 K3 (g & g' & W & L & Tp & Tc)]. apply replace_ok; [done|by eexists|intros q _; apply same_proxies_refl|by apply so_proxies|].
  constructor; cbn [pr_pageMap m_webUserContentControllerProxies pr_messages pr_web].
  - apply (known_insert (m_webUserContentControllerProxies P)); [done| |done]. intros k'. rewrite Hkn. split; [by right|]. intros [[-> H0']|?]; [|done]. by destruct Hk.
  - intros k' Hk'. by apply K2, Hkn.
  - intros k' x Hx Hin. apply Hkn. by eapply K3.
  - exists g, (open_page g' page k). split; [done|]. split; [eapply leads_snoc; [done|]; apply delivers_create; by rewrite Tp|]. split; [cbn; by rewrite Tp|]. intros k' l. cbn [m_webUserContentControllerProxies]. rewrite Hkn, <- Tc.
    cbn [open_page g_controllers]. destruct (Z.eqb_spec k 0); [done|]. destruct Hk as [->|Hk]; [done|]. destruct (K2 k Hk) as (x & Hx & _). assert (E : g_controllers g' !! k = Some (m_userContentExtensions x)) by (apply Tc; split; [done|by exists x]). by rewrite E.
Qed.

(** A page of a controller that the process does not know. *)
Lemma open_unknown s p P page k x : system_ok s -> processes s !! p = Some P -> pr_pageMap P !! page = None -> proxies s !! k = Some x -> p ∉ m_processes x ->
  exists m, AddUserContentExtensions garbage k (m_userContentExtensions x) = Done m /\
    system_ok (mkSystem (<[k := mkProxy (m_userContentExtensions x) (hash_place p (m_processes x))]> (proxies s))
      (<[p := mkProcess (<[page := k]> (pr_pageMap P)) (hs_add (m_webUserContentControllerProxies P) k) (pr_messages P ++ [CreateWebPage page k; ControllerMessage m]) (pr_web P)]> (processes s))).
Proof.
  intros Hs HP Hpage Hx Hout. destruct (so_proxies s Hs k x Hx) as [I1 I2 I3 I4]. destruct (so_processes s Hs p P HP) as [K1 K2 K3 (g & g' & W & L & Tp & Tc)]. set (l := m_userContentExtensions x) in *.
  assert (Hk : k ∉ m_webUserContentControllerProxies P) by (intros (x' & Hx' & ?)%K2; congruence).
  assert (E0 : g_controllers g' !! k = None). { destruct (g_controllers g' !! k) as [l0|] eqn:E; [|done]. by apply Tc in E as [? _]. }
  assert (E1 : g_controllers (open_page g' page k) !! k = Some []). { cbn. destruct (Z.eqb_spec k 0); [lia|]. rewrite E0. apply lookup_insert_eq. }
  destruct I2 as (J1 & J2 & J3). destruct (delivers_add garbage files (open_page g' page k) k [] l l) as (m & Em & Hdel); [lia|done|done|done| |].
  { intros c. apply mirrors_same; [done|]. intros n. destruct (set_all_get l [] n) as [_ ->]; [constructor|done|]. by destruct (sm_get l n). }
  exists m. split; [done|]. apply replace_ok; [done|by eexists| | |].
  - intros q Hq k'. destruct (decide (k' = k)) as [->|Hk']; [rewrite Hx, lookup_insert_eq; constructor; split; [done|]; cbn; rewrite hash_place_perm, elem_of_cons; naive_solver|].
    rewrite lookup_insert_ne by done. destruct (proxies s !! k'); by constructor.
  - intros k' x' [[<- <-]|[_ Hx']]%lookup_insert_Some; [|by apply (so_proxies s Hs)]. constructor; cbn; [done|done|rewrite hash_place_perm; by constructor|]. intros q. rewrite hash_place_perm, elem_of_cons. intros [->|?]; [by eexists|by apply I4].
  - constructor; cbn [pr_pageMap m_webUserContentControllerProxies pr_messages pr_web].
    + apply (known_insert (m_webUserContentControllerProxies P)); [done| |done]. intros k'. rewrite elem_of_hs_add. split; [|naive_solver]. intros [->|?]; [left; split; [done|lia]|by right].
    + intros k'. rewrite elem_of_hs_add. intros Hk'. destruct (decide (k' = k)) as [->|Hne]; [eexists; rewrite lookup_insert_eq; split; [done|]; cbn; rewrite hash_place_perm; left|]. rewrite lookup_insert_ne by done. apply K2. by destruct Hk'.
    + intros k' x'. rewrite elem_of_hs_add. intros [[<- <-]|[Hne Hx']]%lookup_insert_Some Hin; [by left|]. right. by eapply K3.
    + exists g, (set_extensions (open_page g' page k) k l). split; [done|]. split; [|split; [cbn; by rewrite Tp|]].
      * replace (pr_messages P ++ [CreateWebPage page k; ControllerMessage m]) with ((pr_messages P ++ [CreateWebPage page k]) ++ [ControllerMessage m]) by (by rewrite <- app_assoc).
        eapply leads_snoc; [eapply leads_snoc; [done|apply delivers_create; by rewrite Tp]|done].
      * intros k' l'. cbn [set_extensions g_controllers m_webUserContentControllerProxies]. rewrite elem_of_hs_add. destruct (decide (k' = k)) as [->|Hne]; [rewrite !lookup_insert_eq; naive_solver|]. rewrite !lookup_insert_ne by done.
        assert (E2 : g_controllers (open_page g' page k) !! k' = g_controllers g' !! k'). { cbn. destruct (k =? 0); [done|]. rewrite E0. by rewrite lookup_insert_ne. } rewrite E2, Tc. naive_solver.
Qed.

Lemma open_ok s p page k : system_ok s -> allowed s (OpenPage p page k) -> exists s', exec_event s (OpenPage p page k) = Done s' /\ system_ok s'.
Proof.
  intros Hs ((P & HP & Hpage) & Hk). cbn [exec_event]. unfold openPage, initializeWebPage, proxy_createWebPage, finishInitializingWebPageAfterProcessLaunch, addWebUserContentControllerProxy, send, push. cbn [proxies processes].
  rewrite (alter_known _ p (processes s) P HP). rewrite (alter_known _ p _ _ (lookup_insert_eq _ p _)). rewrite insert_insert_eq. cbn [pr_pageMap m_webUserContentControllerProxies pr_messages pr_web]. destruct (Z.eqb_spec k 0) as [->|H0'].
  - eexists. split; [done|]. by apply open_known; [..|left|].
  - destruct Hk as [?|[x Hx]]; [done|]. rewrite (alter_known _ p _ _ (lookup_insert_eq _ p _)). rewrite insert_insert_eq. cbn [pr_pageMap m_webUserContentControllerProxies pr_messages pr_web]. unfold addProcess. cbn [proxies processes]. rewrite Hx.
    case_bool_decide as Hin.
    + assert (Hkn : k ∈ m_webUserContentControllerProxies P) by (by eapply (po_process _ _ _ (so_processes s Hs p P HP))). eexists. split; [done|]. apply open_known; [done..|by right|]. intros k'. rewrite elem_of_hs_add. naive_solver.
    + destruct (open_unknown s p P page k x Hs HP Hpage Hx Hin) as (m & Em & Hok). rewrite Em. cbn [obind]. eexists. split; [done|]. unfold send, set_proxy, push. cbn [proxies processes].
      rewrite (alter_known _ p _ _ (lookup_insert_eq _ p _)). rewrite insert_insert_eq. cbn [pr_pageMap m_webUserContentControllerProxies pr_messages pr_web]. by rewrite <- app_assoc.
Qed.

(** [shutDown] takes the process out of the proxies that it knows. *)
Definition without (p : Z) (ks : list Z) (px px' : gmap Z controller_proxy) : Prop :=
  forall k, option_Forall2 (fun x x' => m_userContentExtensions x' = m_userContentExtensions x /\ (NoDup (m_processes x) -> NoDup (m_processes x')) /\
    forall q, q ∈ m_processes x' <-> q ∈ m_processes x /\ (q = p -> k ∉ ks)) (px !! k) (px' !! k).

Lemma removeProcess_spec s k p : without p [k] (proxies s) (proxies (removeProcess s k p)) /\ processes (removeProcess s k p) = processes s.
Proof.
  unfold removeProcess. destruct (proxies s !! k) as [x|] eqn:Hx; (split; [|done]).
  - intros k'. cbn [set_proxy proxies]. destruct (decide (k' = k)) as [->|Hne].
    + rewrite Hx, lookup_insert_eq. constructor. cbn [m_userContentExtensions m_processes]. split; [done|]. split; [intros Hn; rewrite hash_rehash_perm; by apply base.NoDup_ListNoDup, List.NoDup_filter, base.NoDup_ListNoDup|].
      intros q. rewrite hash_rehash_perm, !list_elem_of_In, filter_In, negb_true_iff, Z.eqb_neq, <- list_elem_of_In. split; [intros [? ?]; split; [done|congruence]|]. intros [? Hq]. split; [done|]. intros ->. apply Hq; [done|by left].
    + rewrite lookup_insert_ne by done. destruct (proxies s !! k'); constructor. split; [done|]. split; [done|]. intros q. split; [intros ?; split; [done|]; by intros _ ->%list_elem_of_singleton|by intros [? _]].
  - intros k'. destruct (proxies s !! k') eqn:E; constructor. split; [done|]. split; [done|]. intros q. split; [intros ?; split; [done|]; intros _ ->%list_elem_of_singleton; congruence|by intros [? _]].
Qed.

Lemma removeProcesses_spec p ks : forall s, without p ks (proxies s) (proxies (foldl (fun s k => removeProcess s k p) s ks)) /\ processes (foldl (fun s k => removeProcess s k p) s ks) = processes s.
Proof.
  induction ks as [|k ks IH]; intros s; cbn [foldl].
  - split; [|done]. intros k. destruct (proxies s !! k); constructor. split; [done|]. split; [done|]. intros q. split; [intros ?; split; [done|]; intros _; apply not_elem_of_nil|by intros [? _]].
  - destruct (removeProcess_spec s k p) as [R1 R2]. destruct (IH (removeProcess s k p)) as [R3 R4]. split; [|congruence]. intros k'. specialize (R1 k'). specialize (R3 k').
    inversion R1 as [x1 x2 (A1 & A2 & A3) Q1 Q2|Q1 Q2]; rewrite <- Q2 in R3; inversion R3 as [y1 x3 (B1 & B2 & B3) Q3 Q4|Q3 Q4]; subst; constructor. split; [congruence|]. split; [auto|]. intros q. rewrite B3, A3, !not_elem_of_cons. pose proof (not_elem_of_nil k'). naive_solver.
Qed.

Lemma shutDown_ok s p P : system_ok s -> processes s !! p = Some P -> system_ok (shutDown s p).
Proof.
  intros [Sx Sp] HP. unfold shutDown. rewrite HP. destruct (removeProcesses_spec p (m_webUserContentControllerProxies P) s) as [R1 R2]. set (s' := foldl _ s _) in *. rewrite R2. constructor; cbn [proxies processes].
  - intros k x' Hx'. pose proof (R1 k) as Rk. rewrite Hx' in Rk. inversion Rk as [x ? (A1 & A2 & A3) E1 E2|]; subst. symmetry in E1. destruct (Sx k x E1) as [I1 I2 I3 I4].
    constructor; [done|by rewrite A1|auto|]. intros q [Hq Hqp]%A3. destruct (decide (q = p)) as [->|Hne]; [|rewrite lookup_delete_ne by done; by apply I4]. destruct Hqp; [done|]. by apply (po_process _ _ _ (Sp p P HP) k x).
  - intros q Q [Hne HQ]%lookup_delete_Some. eapply process_ok_same; [|by apply Sp]. intros k. specialize (R1 k). destruct R1 as [x x' (A1 & A2 & A3)|]; constructor. split; [done|]. rewrite A3. naive_solver.
Qed.

Lemma has_page_spec (pages : gmap Z Z) k : has_page pages k = true <-> exists page, pages !! page = Some k.
Proof.
  unfold has_page. rewrite existsb_exists. split.
  - intros ([page k'] & Hin%list_elem_of_In & E%Z.eqb_eq). cbn in E. subst k'. exists page. by apply elem_of_map_to_list.
  - intros [page Hp]. exists (page, k). split; [by apply list_elem_of_In, elem_of_map_to_list|apply Z.eqb_refl].
Qed.

(** What [shutDown] does does not depend on the pages and messages. *)
Lemma removeProcesses_proxies p ks : forall s1 s2, proxies s1 = proxies s2 -> proxies (foldl (fun s k => removeProcess s k p) s1 ks) = proxies (foldl (fun s k => removeProcess s k p) s2 ks).
Proof. induction ks as [|k ks IH]; intros s1 s2 E; [done|]. cbn [foldl]. apply IH. unfold removeProcess. rewrite E. destruct (proxies s2 !! k); [cbn; by rewrite E|done]. Qed.

Lemma shutDown_replaced s p P P' : processes s !! p = Some P -> m_webUserContentControllerProxies P' = m_webUserContentControllerProxies P ->
  shutDown (mkSystem (proxies s) (<[p := P']> (processes s))) p = shutDown s p.
Proof.
  intros HP E. unfold shutDown. cbn [processes]. rewrite lookup_insert_eq, HP, E. cbv zeta. set (s1 := mkSystem _ (insert _ _ _)). destruct (removeProcesses_spec p (m_webUserContentControllerProxies P) s1) as [_ ->]. destruct (removeProcesses_spec p (m_webUserContentControllerProxies P) s) as [_ ->].
  f_equal; [by apply removeProcesses_proxies|]. apply delete_insert_eq.
Qed.

(** A page is closed that is not the last one of its controller, or has none. *)
Lemma close_known s p P page k : system_ok s -> processes s !! p = Some P -> pr_pageMap P !! page = Some k -> k = 0 \/ has_page (delete page (pr_pageMap P)) k = true ->
  system_ok (mkSystem (proxies s) (<[p := mkProcess (delete page (pr_pageMap P)) (m_webUserContentControllerProxies P) (pr_messages P ++ [ClosePage page]) (pr_web P)]> (processes s))).
Proof.
  intros Hs HP Hpage Hk. destruct (so_processes s Hs p P HP) as [K1 K2 K3 (g & g' & W & L & Tp & Tc)]. apply replace_ok; [done|by eexists|intros q _; apply same_proxies_refl|by apply so_proxies|].
  constructor; cbn [pr_pageMap m_webUserContentControllerProxies pr_messages pr_web].
  - intros k'. rewrite K1. split; intros [H0' [pg Hpg]]; (split; [done|]); [|apply lookup_delete_Some in Hpg as [_ ?]; by exists pg].
    destruct (decide (pg = page)) as [->|Hne]; [|exists pg; by rewrite lookup_delete_ne]. rewrite Hpage in Hpg. injection Hpg as ->. destruct Hk as [?|Hk]; [done|by apply has_page_spec].
  - done.
  - done.
  - exists g, (close_page g' page k). split; [done|]. split; [eapply leads_snoc; [done|]; apply delivers_close; by rewrite Tp|]. split; [cbn; by rewrite Tp|]. intros k' l. cbn [m_webUserContentControllerProxies]. rewrite <- Tc. cbn [close_page g_controllers]. rewrite Tp.
    destruct (has_page _ k) eqn:Eh; [done|]. destruct Hk as [->|?]; [|congruence]. destruct (decide (k' = 0)) as [->|Hne]; [|by rewrite lookup_delete_ne]. rewrite lookup_delete_eq. split; [done|]. intros [Hk0 _]%Tc. by apply K1 in Hk0 as [? _].
Qed.

Lemma close_ok s p page canTerminate : system_ok s -> allowed s (CloseWebPage p page canTerminate) -> exists s', exec_event s (CloseWebPage p page canTerminate) = Done s' /\ system_ok s'.
Proof.
  intros Hs (P & k & HP & Hpage & Hk). cbn [exec_event]. eexists. split; [done|]. unfold closePage, proxy_removeWebPage, send, push. cbn [proxies processes]. rewrite (alter_known _ p (processes s) P HP).
  rewrite (alter_known _ p _ _ (lookup_insert_eq _ p _)). rewrite insert_insert_eq, lookup_insert_eq. cbn [pr_pageMap m_webUserContentControllerProxies pr_messages pr_web].
  destruct (bool_decide (delete page (pr_pageMap P) = ∅) && canTerminate) eqn:Eend.
  - rewrite (shutDown_replaced s p P) by done. by eapply shutDown_ok.
  - apply (close_known s p P page k); [done..|]. destruct Hk as [?|[?|[E ->]]]; [by left|by right|]. rewrite bool_decide_eq_true_2 in Eend by done. done.
Qed.

(** Whatever is allowed happens, and keeps the invariant. *)
Lemma event_ok s e : system_ok s -> allowed s e -> exists s', exec_event s e = Done s' /\ system_ok s'.
Proof.
  intros Hs Ha. destruct e as [k|p|k name d|k name|k|p page k|p page t|p|p page loader context url document type]; [| |by apply add_ok|by apply remove_ok|by apply removeAll_ok|by apply open_ok|by apply close_ok|by apply deliver_ok|by apply load_ok].
  - destruct Ha as [Hk Hr]. eexists. split; [done|]. destruct Hs as [Sx Sp]. constructor; cbn [set_proxy proxies processes].
    + intros k' x [[<- <-]|[_ Hx]]%lookup_insert_Some; [|by apply Sx]. constructor; [done|apply nothing_ok|constructor|by intros p ?%elem_of_nil].
    + intros p P HP. destruct (Sp p P HP) as [K1 K2 K3 (g & g' & W & L & Tp & Tc)]. assert (Hnk : k ∉ m_webUserContentControllerProxies P) by (intros (x & Hx & _)%K2; congruence). constructor; [done| | |].
      * intros k' Hk'. rewrite lookup_insert_ne by congruence. by apply K2.
      * intros k' x [[<- <-]|[_ Hx]]%lookup_insert_Some; [by intros ?%elem_of_nil|by apply K3].
      * exists g, g'. split; [done|]. split; [done|]. split; [done|]. intros k' l. rewrite Tc. split; intros (Hk' & x & Hx & ->); (split; [done|]); exists x; rewrite lookup_insert_ne in * by congruence; done.
  - cbn in Ha. eexists. split; [done|]. destruct Hs as [Sx Sp]. constructor; cbn [proxies processes].
    + intros k x Hx. destruct (Sx k x Hx) as [I1 I2 I3 I4]. constructor; [done..|]. intros q Hq. destruct (decide (q = p)) as [->|]; [rewrite lookup_insert_eq; by eexists|]. rewrite lookup_insert_ne by done. by apply I4.
    + intros q Q [[<- <-]|[_ HQ]]%lookup_insert_Some; [|by apply Sp]. constructor; cbn [pr_pageMap m_webUserContentControllerProxies pr_messages pr_web].
      * intros k. split; [by intros ?%elem_of_nil|]. intros [_ [pg Hpg]]. done.
      * by intros k ?%elem_of_nil.
      * intros k x Hx Hin. destruct (Sx k x Hx) as [_ _ _ I4]. destruct (I4 p Hin). congruence.
      * exists (mkGhost ∅ ∅), (mkGhost ∅ ∅). split; [split; [done|apply map_Forall2_empty]|]. split; [constructor|]. split; [done|]. intros k l. cbn. split; [by rewrite lookup_empty|]. by intros [?%elem_of_nil _].
Qed.

Lemma runs_ok s : rtc system_step no_processes s -> system_ok s.
Proof.
  intros Hr. pose proof initial_ok as H0'. induction Hr as [s|s s1 s2 (e & Ha & He) Hr IH]; [done|]. apply IH. destruct (event_ok s e H0' Ha) as (s' & E & Hs'). congruence.
Qed.

(** All messages on their way are delivered. *)
Definition drain (w : web) (messages : list message) : outcome web := ofold (didReceiveMessage garbage files) w messages.

Lemma leads_drain ms g g' : leads ms g g' -> forall w, web_mirrors g w -> exists w', drain w ms = Done w' /\ web_mirrors g' w'.
Proof.
  induction 1 as [|m ms g g1 g' D L IH]; intros w W; [by exists w|]. destruct (D w W) as (w1 & E & W1). unfold drain. cbn [ofold]. rewrite E. cbn [obind]. by apply IH.
Qed.
End System.
