(* ===== verification/Deployment.v ===== *)
(** * From the store to the loads of a page

    An extension of the store is added to a controller, sent to the processes
    that show its pages, and decides what they load. *)

From stdpp Require Import gmap strings.
From S2P Require Import Prelude Containers Strings ResourceLoad Nfa Term TermTheorems CombinedFilters UrlFilterParse Dfa Bytecode BytecodeInterpreter BytecodeStream Rules RulesSerialize RuleListParser RuleListTheorems.
From S2P Require Import Backend BackendTheorems RuleListCompiler FilterDfas RuleMatching EndToEnd.
From S2P Require Import PosixFiles IpcCoders ExtensionStore StoreSafety StoreSystem StoreTheorems ContentControllers ControllerSync ControllerSystem.

#[local] Arguments vsize {A} v : simpl never.

(** ** Compiled rule lists as extensions *)

(** A rule list and what its compilation has written. *)
Record compiled_rules `{HashOrder} := mkCompiledRules {
  cr_rules : list ContentExtensionRule;
  cr_filters : list url_filter;
  cr_bytes : list Z;
  cr_locations : list Z;
  cr_partition : partition;
  cr_client : client;
  cr_without : list Z;
  cr_with : list Z;
  cr_rules_ok : rules_ok cr_rules;
  cr_serialized : serializeActions cr_rules = Done (cr_bytes, cr_locations);
  cr_size : vsize cr_bytes < 2 ^ 32;
  cr_filtered : Forall2 rule_filter cr_rules cr_filters;
  cr_flags : Forall (fun r => 0 <= t_flags (r_trigger r) < 2 ^ 16) cr_rules;
  cr_partitioned : partitioned (words cr_rules cr_filters cr_locations) (located_rules cr_rules cr_locations cr_filters) cr_partition;
  cr_code : rules_code cr_bytes cr_partition cr_client cr_without cr_with
}.

Section Spec.
Context `{HashOrder} `{Platform}.

Definition info_url (info : ResourceLoadInfo) : list Z := utf8 (s_chars (url_string (resourceURL info))).
Definition info_host (info : ResourceLoadInfo) : list Z := nullable_utf8 (url_host (mainDocumentURL info)).
Definition info_flags (info : ResourceLoadInfo) : Z := getResourceFlags (rli_type info) (isThirdParty (mainDocumentURL info) (resourceURL info)).

Definition ascii_load (info : ResourceLoadInfo) : Prop :=
  ascii_text (info_url info) /\ exists domain, url_host (mainDocumentURL info) = Some domain /\ ascii_text (utf8 (s_chars domain)).

(** Some rule of the list is in effect. *)
Definition rule_in_effect (r : compiled_rules) (info : ResourceLoadInfo) (t : ActionType) : Prop :=
  exists i, effective (cr_rules r) (cr_filters r) (info_url info) (info_flags info) (info_host info) t i.

(** An extension as it was created from its code, whatever its cache holds. *)
Definition extension_state (ce : CompiledContentExtension) (e : ContentExtension) : Prop :=
  exists universalWithout universalWith,
    actionsMatchingEverything (filtersWithoutDomainsBytecode ce) None = Done universalWithout /\
    actionsMatchingEverything (filtersWithDomainsBytecode ce) None = Done universalWith /\
    m_compiledExtension e = ce /\ m_universalActionsWithDomains e = universalWith /\
    (forall l, l ∈ m_universalActionsWithoutDomains e -> l ∈ map u32 universalWithout) /\
    (forall l, l ∈ map u32 universalWithout -> l ∈ m_universalActionsWithoutDomains e \/ deserializeType (c_actions ce) l = Done CSSDisplayNoneSelector) /\
    cache_ok e.

Notation means r := (compiled_extension (cr_client r)).

Lemma state_installed r e : extension_state (means r) e <-> installed_extension (cr_bytes r) (cr_client r) (cr_without r) (cr_with r) e.
Proof.
  destruct r as [rules filters bytes locations p c uo ud Hok Hser Hsize Hf Hfl Hpart Hcode]. cbn [cr_client cr_bytes cr_without cr_with].
  pose proof (gc_universal _ _ _ _ (rc_without _ _ _ _ _ Hcode)) as Eo. pose proof (gc_universal _ _ _ _ (rc_with _ _ _ _ _ Hcode)) as Ed. pose proof (rc_actions _ _ _ _ _ Hcode) as Eb. unfold extension_state. cbn [compiled_extension filtersWithoutDomainsBytecode filtersWithDomainsBytecode c_actions]. split.
  - intros (uo' & ud' & Eo' & Ed' & A1 & A2 & A3 & A4 & A5). rewrite Eo in Eo'. injection Eo' as <-. rewrite Ed in Ed'. injection Ed' as <-. constructor; [done..| |done]. by rewrite <- Eb.
  - intros [A1 A2 A3 A4 A5]. exists uo, ud. rewrite Eb. done.
Qed.

#[export] Instance rules_spec : LoadSpec.
Proof.
  refine {| meaning := compiled_rules; ControllerSync.means r := means r; acceptable := ascii_load; takes_effect := rule_in_effect; state_of := extension_state |}.
  - intros r name. setoid_rewrite state_installed. destruct r. by eapply new_extension.
  - intros r e info [Hurl (domain & Hd & Hhost)] Hs%state_installed. setoid_rewrite state_installed. unfold rule_in_effect, info_host. rewrite Hd. destruct r. by eapply extension_effective.
Defined.
End Spec.

(** Compiling a rule list gives one. *)
Lemma compile_gives_rules `{HashOrder} `{ParserLaws} fuel text rules filters bytes locations p :
  parseRuleList text = Parsed rules -> Forall2 rule_filter rules filters ->
  serializeActions rules = Done (bytes, locations) -> vsize bytes < 2 ^ 32 ->
  partition_rules emptyPartitionedRules (zip rules locations) = Done (Parsed p) -> compilable fuel p ->
  exists r, compileRuleList fuel text = Done (cr_client r, None) /\ cr_rules r = rules /\ cr_filters r = filters.
Proof.
  intros Et Hf Hser Hsize Ep Hc. destruct (parsed_rules_ok text rules Et) as (Hvalid & Hcount & Hok). apply valid_flags in Hvalid as Hflags.
  destruct (partition_located rules filters bytes locations Hok Hser Hsize Hf Hflags) as (p' & Ep' & Hpart). rewrite Ep in Ep'. injection Ep' as <-.
  destruct (compile_rules_code rules filters bytes locations Hok Hser Hsize Hf Hflags fuel p) as (c & uo & ud & Ec & Hcode); [unfold maxRuleCount, UINT16_MAX in *; lia|done|done|].
  exists (mkCompiledRules _ rules filters bytes locations p c uo ud Hok Hser Hsize Hf Hflags Hpart Hcode). split; [unfold compileRuleList; by rewrite Et|done].
Qed.

(** ** Extensions of the store in the web process *)

Section Arrival.
Context `{OS}.
Variables (garbage : Z -> Z) (files : fs).
Implicit Types d : WebCompiledContentExtensionData.

(** The bytes that the UI process has mapped. *)
Definition file_memory (d : WebCompiledContentExtensionData) : list Z :=
  match wc_fileData d with
  | MapData m _ => take (Z.to_nat (map_size m)) (default [] (contents files !! map_inode m))
  | _ => []
  end.

(** The memory was shared when the extension was created, and can be mapped. *)
Definition shared (d : WebCompiledContentExtensionData) : Prop :=
  exists m fd port m', wc_fileData d = MapData m fd /\ SharedMemory_create (wc_fileData d) = Done (wc_data d) /\ 0 <= map_size m /\ round_page (map_size m) < 2 ^ 64 /\
    makeMemoryEntry m (map_size m) = Done (Some port) /\ vm_map port (round_page (round_page (map_size m))) = Some m'.

Definition ranges_fit (d : WebCompiledContentExtensionData) : Prop :=
  Forall (fun v => 0 <= v < 2 ^ 32)
    [wc_actionsOffset d; wc_actionsSize d; wc_filtersWithoutDomainsBytecodeOffset d; wc_filtersWithoutDomainsBytecodeSize d;
     wc_filtersWithDomainsBytecodeOffset d; wc_filtersWithDomainsBytecodeSize d; wc_domainFiltersBytecodeOffset d; wc_domainFiltersBytecodeSize d].

Lemma createExtension_ranges identifier m data e : createExtension identifier m data = Done e -> ranges_fit (uce_compiledExtension e).
Proof. rewrite createExtension_returns. intros [= <-]. unfold ranges_fit. cbn [made_extension extension_with uce_compiledExtension wc_actionsOffset wc_actionsSize wc_filtersWithoutDomainsBytecodeOffset wc_filtersWithoutDomainsBytecodeSize wc_filtersWithDomainsBytecodeOffset wc_filtersWithDomainsBytecodeSize wc_domainFiltersBytecodeOffset wc_domainFiltersBytecodeSize].
  repeat (apply Forall_cons; split; [apply Z.mod_pos_bound; lia|]). constructor. Qed.

Lemma compiled_view_mono d (l l' : list Z) ce : compiled_view d l = Done ce -> compiled_view d (l ++ l') = Done ce.
Proof.
  unfold compiled_view. intros E. apply obind_Done in E as (a & Ea & E). apply obind_Done in E as (b & Eb & E). apply obind_Done in E as (c & Ec & E). apply obind_Done in E as (e & Ee & E).
  unfold filtersWithoutDomains_range, filtersWithDomains_range, domainFilters_range, actions_range in *. rewrite (vslice_mono _ _ _ _ _ Ea). cbn [obind]. rewrite (vslice_mono _ _ _ _ _ Eb). cbn [obind]. rewrite (vslice_mono _ _ _ _ _ Ec). cbn [obind]. by rewrite (vslice_mono _ _ _ _ _ Ee).
Qed.

Lemma shared_handle d : shared d -> ranges_fit d -> data_sendable d /\ forall ce, compiled_view d (file_memory d) = Done ce -> web_view files (data_arrives d) = Done ce.
Proof.
  intros (m & fd & port & m' & Ef & Ed & Hs0 & Hs & Ep & Em) Hr. rewrite Ef, SharedMemory_create_returns in Ed. injection Ed as Ed. symmetry in Ed. rewrite makeMemoryEntry_returns in Ep. injection Ep as Ep.
  assert (Ee : exists n, make_memory_entry m (round_page (map_size m)) = Some (port, n)).
  { unfold memory_port in Ep. apply fmap_Some in Ep as ([port' n] & Ee & ->). by exists n. }
  destruct Ee as (n & Ee). destruct (make_memory_entry_port _ _ _ _ Ee) as [Hport _]. pose proof (vm_map_entry _ _ _ _ _ _ Ee Em) as ->.
  assert (Ed' : wc_data d = Some (mkSharedMemory (map_size m) None port)) by (rewrite Ed; cbn [shared_memory data_size]; by rewrite Ep).
  assert (Eh : memory_handle (mkSharedMemory (map_size m) None port) = mkHandle port (round_page (map_size m))).
  { unfold memory_handle. cbn [sm_port sm_size]. unfold MACH_PORT_NULL. by destruct (Z.eqb_spec port 0). }
  assert (Hn := round_page_bound (map_size m)). split.
  - split; [|done]. exists (mkSharedMemory (map_size m) None port). split; [done|]. rewrite Eh. cbn [h_size]. lia.
  - intros ce Hce. unfold web_view, data_arrives. rewrite Ed', Eh. cbn [wc_data]. unfold SharedMemory_map, handle_isNull. cbn [h_port h_size]. unfold MACH_PORT_NULL. destruct (Z.eqb_spec port 0) as [->|_]; [done|]. rewrite Em. cbn [map_size map_inode].
    unfold file_memory in Hce. rewrite Ef in Hce. set (l := default [] _) in *. assert (Hn2 := round_page_bound (round_page (map_size m))).
    replace (take (Z.to_nat (round_page (round_page (map_size m)))) l) with (take (Z.to_nat (map_size m)) l ++ take (Z.to_nat (round_page (round_page (map_size m))) - Z.to_nat (map_size m)) (drop (Z.to_nat (map_size m)) l)).
    2:{ rewrite take_take_drop. f_equal. lia. }
    apply compiled_view_mono. exact Hce.
Qed.
End Arrival.

(** An extension that the store hands out, whose memory is the compiled rule list,
    is one that may be added to a controller. *)
Lemma stored_extension_ok `{OS} `{HashOrder} `{Platform} files e (r : compiled_rules) : shared (uce_compiledExtension e) -> ranges_fit (uce_compiledExtension e) ->
  compiled_view (uce_compiledExtension e) (extension_memory files e) = Done (compiled_extension (cr_client r)) -> data_ok files (uce_compiledExtension e).
Proof. intros Hs Hr Hv. destruct (shared_handle files _ Hs Hr) as [Hd Ha]. split; [done|]. exists r. by apply Ha. Qed.

(** ** The claims *)

(** C15: A message with extensions of the store carries them to another process.
    Encoding it never crashes; the receiver reads the header and then all of the
    arguments, to the last byte and the last port; the names are the same, and
    the memory that the receiver maps holds the same bytecode and actions as the
    mapped file.  The memory of the files is assumed to be shared and mapped
    without failure. *)
Theorem message_carries_extensions `{OS} garbage files k (l : list (WTFString * WebCompiledContentExtensionData)) :
  0 <= k < 2 ^ 64 -> vsize l < 2 ^ 64 -> Forall (fun x => name_ok x.1 /\ shared x.2 /\ ranges_fit x.2) l ->
  exists m arguments arrived, AddUserContentExtensions garbage k l = Done m /\
    decodeHeader (received m 0) = Some (mkHeader receiver_name name_add k, arguments) /\
    @decode_argument _ (extensions_coder garbage) arguments = Some (arrived, mkArgumentDecoder (e_buffer m) (vsize (e_buffer m)) []) /\
    Forall2 (fun x a => a.1 = Some x.1 /\ forall ce, compiled_view x.2 (file_memory files x.2) = Done ce -> web_view files a.2 = Done ce) l arrived.
Proof.
  intros Hk Hl Hok. destruct (add_message_read garbage k l) as (m & d & Em & Eh & Ed); [done|done| |].
  { eapply Forall_impl; [exact Hok|]. intros x (Hn & Hs & Hr). split; [done|]. by apply (shared_handle files). }
  exists m, d, (map (fun x => (Some x.1, data_arrives x.2)) l). split_and!; [done..|]. clear Hl Em Eh Ed. induction Hok as [|x l (Hn & Hs & Hr) Hok IH]; cbn [map]; constructor; [|done]. split; [done|]. by apply shared_handle.
Qed.

Section Claims.
Context `{OS} `{HashOrder} `{Platform}.
Variables (garbage : Z -> Z) (files : fs).
Notation runs := (rtc (system_step garbage files) no_processes).
Notation arrives_as d r := (web_view files (data_arrives d) = Done (compiled_extension (cr_client r))).

(** The process has received everything and decides as the proxies say. *)
Lemma settled_process s p P page k x : runs s -> processes s !! p = Some P -> pr_messages P = [] -> pr_pageMap P !! page = Some k -> proxies s !! k = Some x ->
  m_pageMap (pr_web P) !! page = Some k /\ exists c, userContentControllers (pr_web P) !! k = Some c /\ mirrors files (m_userContentExtensions x) c.
Proof.
  intros Hr HP Hm Hpage Hx. pose proof (runs_ok garbage files s Hr) as Hs. destruct (so_processes _ _ _ Hs p P HP) as [K1 K2 K3 (g & g' & W & L & Tp & Tc)]. rewrite Hm in L. inversion L; subst.
  pose proof (xo_identifier _ _ _ _ (so_proxies _ _ _ Hs k x Hx)). split; [by rewrite (proj1 W), Tp|].
  apply (mirrored_lookup files _ _ _ _ W). apply Tc. split; [apply K1; split; [lia|by exists page]|by exists x].
Qed.
End Claims.

(** C5: The controllers of the web processes follow the proxies of the UI
    process.  Whatever sequence of events the system goes through, in which no
    page is closed that is the last one of its controller in a process that goes
    on: nothing that may happen next crashes; and in every process, once the
    messages on their way are delivered, which succeeds, the pages are those that
    the UI process knows, and for each page the extensions in its controller are
    exactly the named ones of its proxy, each in a state that its code gives. *)
Theorem controllers_mirror_proxies `{OS} `{HashOrder} `{Platform} garbage files s : rtc (system_step garbage files) no_processes s ->
  (forall e, allowed files s e -> exists s', exec_event garbage files s e = Done s') /\
  forall p P, processes s !! p = Some P -> exists w, drain garbage files (pr_web P) (pr_messages P) = Done w /\ m_pageMap w = pr_pageMap P /\
    forall page k x, pr_pageMap P !! page = Some k -> proxies s !! k = Some x -> exists c, userContentControllers w !! k = Some c /\
      forall name, s_isEmpty name = false ->
        match sm_get (m_userContentExtensions x) name, sm_get (default [] c) name with
        | Some d, Some e => exists r, web_view files (data_arrives d) = Done (compiled_extension (cr_client r)) /\ extension_state (compiled_extension (cr_client r)) e
        | None, None => True
        | _, _ => False
        end.
Proof.
  intros Hr. pose proof (runs_ok garbage files s Hr) as Hs. split; [intros e He; destruct (event_ok garbage files s e Hs He) as (s' & E & _); by exists s'|]. intros p P HP.
  destruct (so_processes _ _ _ Hs p P HP) as [K1 K2 K3 (g & g' & W & L & Tp & Tc)]. destruct (leads_drain garbage files _ _ _ L _ W) as (w & Ew & W'). exists w. split; [done|]. split; [by rewrite (proj1 W')|].
  intros page k x Hpage Hx. pose proof (xo_identifier _ _ _ _ (so_proxies _ _ _ Hs k x Hx)). destruct (mirrored_lookup files g' w k (m_userContentExtensions x) W') as (c & Ec & Hc); [apply Tc; split; [apply K1; split; [lia|by exists page]|by exists x]|].
  exists c. split; [done|]. apply Hc.
Qed.

(** C2: A page loads what the extensions of its controller in the UI process let
    it load.  In such a sequence of events, when no message is on its way to the
    process of a page: a load of the page is processed without a crash; it is
    blocked exactly when content extensions are enabled for its loader, its URL
    is not a [data:] URL, and some named extension of the proxy is the one of a
    rule list with a [block] rule in effect; likewise for cookies.  Assumed are:
    the URL of the load and the host of the document are ASCII and shorter than
    2 GB, and the host is not null; no page is closed that is the last one of
    its controller in a process that goes on; and the extensions that are added
    are shared, mapped, and those of compiled rule lists whose bytecode is exact
    ([compiled_rules]: filters of the syntax, none with both anchors that accepts
    the empty string, automata with end-of-line edges that the bytecode
    expresses, as [compile_gives_rules] shows of compiled texts). *)
Theorem deployed_extensions_decide_loads `{OS} `{HashOrder} `{Platform} garbage files s p P page k x loader context url document type :
  rtc (system_step garbage files) no_processes s -> processes s !! p = Some P -> pr_messages P = [] -> pr_pageMap P !! page = Some k -> proxies s !! k = Some x ->
  ascii_load (mkResourceLoadInfo url document type) ->
  let in_effect t := contentExtensionsEnabled loader = true /\ protocolIsData url = false /\ exists name d r, sm_get (m_userContentExtensions x) name = Some d /\ s_isEmpty name = false /\
    web_view files (data_arrives d) = Done (compiled_extension (cr_client r)) /\ rule_in_effect r (mkResourceLoadInfo url document type) t in
  exists s' l status, load s p page loader context url document type = Done (s', l, status) /\
    (status = Blocked <-> in_effect BlockLoad) /\ (SetAllowCookies false ∈ ls_effects l <-> in_effect BlockCookies).
Proof.
  intros Hr HP Hm Hpage Hx Hi in_effect. destruct (settled_process garbage files s p P page k x Hr HP Hm Hpage Hx) as [Hw (c & Ec & Hc)].
  destruct (mirrors_process files _ c loader context url document type Hc Hi) as (c' & l & status & E & _ & Hdec & Hnot). unfold load. rewrite HP, Hw, Ec, E. cbn [obind].
  eexists _, _, _. split; [done|]. unfold in_effect. destruct (contentExtensionsEnabled loader) eqn:Ee, (protocolIsData url) eqn:Ed.
  1, 3, 4: (destruct Hnot as [-> Hno]; [auto|]; split; split; try done; intros (? & ? & _); done).
  destruct (Hdec eq_refl eq_refl) as [-> ->]. split; split; [intros ?; done|by intros (_ & _ & ?)|intros ?; done|by intros (_ & _ & ?)].
Qed.

(** A process that keeps a page goes on when another one is closed. *)
Lemma closePage_on `{HashOrder} s p page canTerminate pages known messages w : processes s !! p = Some (mkProcess pages known messages w) -> delete page pages <> ∅ ->
  closePage s p page canTerminate = mkSystem (proxies s) (<[p := mkProcess (delete page pages) known (messages ++ [ClosePage page]) w]> (processes s)).
Proof.
  intros HP Hne. unfold closePage, send, proxy_removeWebPage. cbn [proxies processes]. rewrite (alter_known _ _ _ _ HP). cbn [push pr_pageMap m_webUserContentControllerProxies pr_messages pr_web].
  rewrite (alter_known _ _ _ _ (lookup_insert_eq _ _ _)), insert_insert_eq, lookup_insert_eq. cbn [pr_pageMap]. by rewrite bool_decide_eq_false_2.
Qed.

(** A proxy that has the process in its set sends it nothing when a page is
    opened. *)
Lemma openPage_known `{OS} `{HashOrder} garbage s p page k x pages known messages w : processes s !! p = Some (mkProcess pages known messages w) -> k <> 0 ->
  proxies s !! k = Some x -> p ∈ m_processes x ->
  openPage garbage s p page k = Done (mkSystem (proxies s) (<[p := mkProcess (<[page := k]> pages) (hs_add known k) (messages ++ [CreateWebPage page k]) w]> (processes s))).
Proof.
  intros HP Hk Hx Hin. unfold openPage, initializeWebPage, proxy_createWebPage, send, finishInitializingWebPageAfterProcessLaunch, addWebUserContentControllerProxy, addProcess.
  destruct (Z.eqb_spec k 0); [done|]. cbn [proxies processes]. rewrite Hx, bool_decide_eq_true_2 by done. rewrite (alter_known _ _ _ _ HP).
  rewrite (alter_known _ _ _ _ (lookup_insert_eq _ _ _)), insert_insert_eq, (alter_known _ _ _ _ (lookup_insert_eq _ _ _)), insert_insert_eq. done.
Qed.

Lemma deliver_first `{OS} `{HashOrder} `{Platform} garbage files s p pages known m messages w w' : processes s !! p = Some (mkProcess pages known (m :: messages) w) ->
  didReceiveMessage garbage files w m = Done w' -> deliver garbage files s p = Done (mkSystem (proxies s) (<[p := mkProcess pages known messages w']> (processes s))).
Proof. intros HP E. unfold deliver. by rewrite HP, E. Qed.

(** C38: A controller whose last page in a process is closed comes back without
    extensions.  Take a process that has received all its messages, and in which
    one page shows a controller and other pages do not.  That page is closed (the
    process goes on, for the other pages), a page of the same controller is
    opened, and the two messages are delivered: the UI process has the same
    proxies with the same extensions as before, the process has a controller
    for the page, but it is empty, and no load of the page is blocked, whatever
    the extensions are (as long as none is added: no change to the controller is
    made in between). *)
Theorem reopened_controller_is_empty `{OS} `{HashOrder} `{Platform} garbage files s p P page page' k x canTerminate :
  rtc (system_step garbage files) no_processes s -> processes s !! p = Some P -> pr_messages P = [] -> pr_pageMap P !! page = Some k -> proxies s !! k = Some x ->
  has_page (delete page (pr_pageMap P)) k = false -> delete page (pr_pageMap P) <> ∅ -> pr_pageMap P !! page' = None ->
  exists s' P', ofold (exec_event garbage files) s [CloseWebPage p page canTerminate; OpenPage p page' k; Deliver p; Deliver p] = Done s' /\
    proxies s' = proxies s /\ processes s' !! p = Some P' /\ pr_messages P' = [] /\ m_pageMap (pr_web P') !! page' = Some k /\ userContentControllers (pr_web P') !! k = Some None /\
    forall loader context url document type, exists s2 l, load s' p page' loader context url document type = Done (s2, l, NotBlocked).
Proof.
  intros Hr HP Hm Hpage Hx Hlast Hother Hnew. pose proof (runs_ok garbage files s Hr) as Hs. destruct (so_processes _ _ _ Hs p P HP) as [K1 K2 K3 (g & g' & W & L & Tp & Tc)]. rewrite Hm in L. inversion L; subst.
  pose proof (xo_identifier _ _ _ _ (so_proxies _ _ _ Hs k x Hx)) as Hk. assert (Hin : p ∈ m_processes x).
  { destruct (K2 k) as (x' & Hx' & Hin); [apply K1; split; [lia|by exists page]|]. congruence. }
  assert (Hpages : m_pageMap (pr_web P) = pr_pageMap P) by (by rewrite (proj1 W), Tp). clear W L Tc Tp K1 K2 K3 Hs Hr.
  destruct P as [pages known messages [webPages controllers]]. cbn [pr_messages pr_pageMap pr_web m_pageMap] in *. subst messages webPages.
  set (pages1 := delete page pages) in *. set (pages2 := <[page' := k]> pages1). set (controllers' := <[k := None]> (delete k controllers)).
  set (P' := mkProcess pages2 (hs_add known k) [] (mkWeb pages2 controllers')). set (s' := mkSystem (proxies s) (<[p := P']> (processes s))).
  assert (Hp' : page <> page') by congruence. exists s', P'. split.
  { cbn [ofold exec_event obind]. rewrite (closePage_on s p page canTerminate _ _ _ _ HP Hother). cbn [obind app].
    rewrite (openPage_known garbage _ p page' k x pages1 known [ClosePage page] (mkWeb pages controllers)); [|apply lookup_insert_eq|lia|done|done]. cbn [obind proxies processes app]. rewrite insert_insert_eq.
    erewrite deliver_first; [|apply lookup_insert_eq|cbn [didReceiveMessage]; unfold web_removeWebPage; cbn [m_pageMap userContentControllers]; rewrite Hpage; fold pages1; rewrite Hlast; reflexivity].
    cbn [obind proxies processes]. rewrite insert_insert_eq. erewrite deliver_first; [|apply lookup_insert_eq|].
    2:{ cbn [didReceiveMessage]. unfold createWebPage. cbn [m_pageMap userContentControllers]. unfold pages1. rewrite lookup_delete_ne, Hnew by done. destruct (Z.eqb_spec k 0); [lia|]. unfold getOrCreate. cbn [userContentControllers]. rewrite lookup_delete_eq. reflexivity. }
    cbn [obind proxies processes m_pageMap userContentControllers]. by rewrite insert_insert_eq. }
  split; [done|]. split; [apply lookup_insert_eq|]. split; [done|]. split; [apply lookup_insert_eq|]. split; [apply lookup_insert_eq|].
  intros loader context url document type. unfold load, s'. cbn [processes]. rewrite lookup_insert_eq. cbn [P' pr_web m_pageMap userContentControllers]. unfold pages2, controllers'. rewrite !lookup_insert_eq. cbn [controller_processContentExtensionRulesForLoad obind]. by eexists _, _.
Qed.

(** ** Examples *)

Section Examples.
#[local] Existing Instance any_posix.
#[local] Existing Instance text_platform.
#[local] Existing Instance example_parsers.
#[local] Existing Instance example_laws.

(** The compiled rule list of [example_rules], and its file. *)
Definition example_client : client :=
  Eval vm_compute in match compileRuleList 128 (s_literal "[...]") with Done (c, _) => c | _ => emptyClient end.

Definition example_files : fs := mkFs ∅ {[5 := extension_file example_client]} ∅.
Definition example_extension : UserContentExtension :=
  made_extension (literal "id") (client_metaData example_client) (MapData (mkMapping 5 (vsize (extension_file example_client))) 9).
Definition example_data : WebCompiledContentExtensionData := uce_compiledExtension example_extension.
Definition example_name : WTFString := s_literal "id".
Definition zeros : Z -> Z := fun _ => 0.

Lemma example_meaning : exists r, cr_client r = example_client /\ cr_rules r = example_rules /\ cr_filters r = example_filters.
Proof.
  destruct (partition_rules emptyPartitionedRules (zip example_rules [0; 1; 2])) as [[p|err]| |] eqn:Ep; [|vm_compute in Ep; discriminate..].
  destruct (compile_gives_rules 128 (s_literal "[...]") example_rules example_filters [0; 1; 4] [0; 1; 2] p) as (r & E & Hr & Hf).
  - vm_compute. reflexivity.
  - exact example_rule_filters.
  - vm_compute. reflexivity.
  - vm_compute. reflexivity.
  - exact Ep.
  - exact (example_compilable p Ep).
  - exists r. split; [|split; [exact Hr|exact Hf]]. assert (E1 : compileRuleList 128 (s_literal "[...]") = Done (example_client, None)) by (vm_compute; reflexivity). rewrite E1 in E. injection E as E. symmetry. exact E.
Qed.

Lemma example_shared : shared example_data.
Proof. exists (mkMapping 5 (vsize (extension_file example_client))), 9, 6, (mkMapping 5 4096). split_and!; try (vm_compute; reflexivity). vm_compute. discriminate. Qed.

Lemma example_fits : ranges_fit example_data.
Proof. eapply (createExtension_ranges (literal "id")), createExtension_returns. Qed.

Lemma example_name_ok : name_ok example_name.
Proof. split; [vm_compute; reflexivity|]. apply width_okb_sound. vm_compute. reflexivity. Qed.

Lemma example_data_ok : data_ok example_files example_data.
Proof.
  destruct example_meaning as (r & Er & _). apply (stored_extension_ok example_files example_extension r); [exact example_shared|exact example_fits|]. rewrite Er. vm_compute. reflexivity.
Qed.

Lemma message_carries_extensions_witness : exists m arguments arrived, AddUserContentExtensions zeros 1 [(example_name, example_data)] = Done m /\
  decodeHeader (received m 0) = Some (mkHeader receiver_name name_add 1, arguments) /\
  @decode_argument _ (extensions_coder zeros) arguments = Some (arrived, mkArgumentDecoder (e_buffer m) (vsize (e_buffer m)) []) /\
  Forall2 (fun x a => a.1 = Some x.1 /\ forall ce, compiled_view x.2 (file_memory example_files x.2) = Done ce -> web_view example_files a.2 = Done ce) [(example_name, example_data)] arrived.
Proof.
  apply (message_carries_extensions zeros example_files 1 [(example_name, example_data)]); [done|done|].
  constructor; [|constructor]. split; [exact example_name_ok|]. split; [exact example_shared|exact example_fits].
Defined.

(** A page is opened and gets its extension. *)
Definition example_events : list event :=
  [NewController 1; LaunchProcess 7; AddExtension 1 example_name example_data; OpenPage 7 3 1; Deliver 7; Deliver 7].

Definition event_run (es : list event) : outcome system := ofold (exec_event zeros example_files) no_processes es.

Definition example_system : system := match event_run example_events with Done s => s | _ => no_processes end.

Lemma example_run : rtc (system_step zeros example_files) no_processes example_system.
Proof.
  eapply rtc_l; [exists (NewController 1); split; [by split_and!|reflexivity]|].
  eapply rtc_l; [exists (LaunchProcess 7); split; [reflexivity|reflexivity]|].
  eapply rtc_l; [exists (AddExtension 1 example_name example_data); split; [split; [exact example_name_ok|]; split; [exact example_data_ok|]; eexists; split; [vm_compute; reflexivity|vm_compute; reflexivity]|vm_compute; reflexivity]|].
  eapply rtc_l; [exists (OpenPage 7 3 1); split; [split; [eexists; split; [vm_compute; reflexivity|vm_compute; reflexivity]|right; eexists; vm_compute; reflexivity]|vm_compute; reflexivity]|].
  eapply rtc_l; [exists (Deliver 7); split; [done|vm_compute; reflexivity]|].
  eapply rtc_l; [exists (Deliver 7); split; [done|vm_compute; reflexivity]|].
  match goal with |- rtc _ ?s _ => replace example_system with s by (vm_compute; reflexivity) end. apply rtc_refl.
Qed.

Lemma controllers_mirror_proxies_witness : exists P w c, processes example_system !! 7 = Some P /\ drain zeros example_files (pr_web P) (pr_messages P) = Done w /\
  userContentControllers w !! 1 = Some c /\ exists r e, sm_get (default [] c) example_name = Some e /\
    web_view example_files (data_arrives example_data) = Done (compiled_extension (cr_client r)) /\ extension_state (compiled_extension (cr_client r)) e.
Proof.
  destruct (controllers_mirror_proxies zeros example_files example_system example_run) as [_ Hp]. destruct (processes example_system !! 7) as [P|] eqn:EP; [|vm_compute in EP; discriminate].
  destruct (proxies example_system !! 1) as [x|] eqn:Ex; [|vm_compute in Ex; discriminate]. destruct (Hp 7 P EP) as (w & Ew & _ & Hw). destruct (Hw 3 1 x) as (c & Ec & Hc); [vm_compute in EP; injection EP as <-; vm_compute; reflexivity|exact Ex|].
  exists P, w, c. split; [reflexivity|]. split; [exact Ew|]. split; [exact Ec|]. specialize (Hc example_name eq_refl).
  assert (El : sm_get (m_userContentExtensions x) example_name = Some example_data) by (vm_compute in Ex; injection Ex as <-; vm_compute; reflexivity). rewrite El in Hc.
  destruct (sm_get (default [] c) example_name) as [e|]; [|destruct Hc]. destruct Hc as (r & Hv & Hs). exists r, e. split; [reflexivity|]. split; [exact Hv|exact Hs].
Defined.

Definition example_loader : DocumentLoader := mkDocumentLoader true (Some (true, None)).
Definition example_load (s : system) (page : Z) : outcome BlockedStatus :=
  let* (_, status) := load s 7 page example_loader (mkLoadContext true false) example_url example_document RT_Image in Done status.

Lemma example_ascii : ascii_load (mkResourceLoadInfo example_url example_document RT_Image).
Proof.
  split; [|exists (s_literal "f"); split; [reflexivity|]]; (split; [vm_compute; reflexivity|]); repeat (constructor; [vm_compute; split; [discriminate|reflexivity]|]); constructor.
Qed.

Lemma deployed_extensions_decide_loads_witness : example_load example_system 3 = Done Blocked /\
  exists r, web_view example_files (data_arrives example_data) = Done (compiled_extension (cr_client r)) /\ rule_in_effect r (mkResourceLoadInfo example_url example_document RT_Image) BlockLoad.
Proof.
  destruct (processes example_system !! 7) as [P|] eqn:EP; [|vm_compute in EP; discriminate]. destruct (proxies example_system !! 1) as [x|] eqn:Ex; [|vm_compute in Ex; discriminate].
  destruct (deployed_extensions_decide_loads zeros example_files example_system 7 P 3 1 x example_loader (mkLoadContext true false) example_url example_document RT_Image) as (s' & l & status & E & Hb & _).
  - exact example_run.
  - exact EP.
  - vm_compute in EP. injection EP as <-. vm_compute. reflexivity.
  - vm_compute in EP. injection EP as <-. vm_compute. reflexivity.
  - exact Ex.
  - exact example_ascii.
  - assert (Es : example_load example_system 3 = Done Blocked) by (vm_compute; reflexivity). split; [exact Es|].
    assert (Eb : status = Blocked) by (unfold example_load in Es; rewrite E in Es; cbn [obind] in Es; injection Es as Es; exact Es).
    destruct (proj1 Hb Eb) as (_ & _ & name & d & r & Hg & _ & Hv & He). exists r. split; [|exact He].
    assert (Hd : d = example_data); [|rewrite <- Hd; exact Hv]. vm_compute in Ex. injection Ex as <-. cbn [m_userContentExtensions sm_get] in Hg. destruct (s_equal _ name); [|discriminate Hg]. injection Hg as <-. vm_compute. reflexivity.
Defined.

(** Another page, without a controller, keeps the process alive. *)
Definition two_pages : system := match event_run (example_events ++ [OpenPage 7 4 0; Deliver 7]) with Done s => s | _ => no_processes end.

Lemma two_pages_run : rtc (system_step zeros example_files) no_processes two_pages.
Proof.
  etransitivity; [exact example_run|].
  eapply rtc_l; [exists (OpenPage 7 4 0); split; [split; [eexists; split; [vm_compute; reflexivity|vm_compute; reflexivity]|by left]|vm_compute; reflexivity]|].
  eapply rtc_l; [exists (Deliver 7); split; [done|vm_compute; reflexivity]|].
  match goal with |- rtc _ ?s _ => replace two_pages with s by (vm_compute; reflexivity) end. apply rtc_refl.
Qed.

Lemma reopened_controller_is_empty_witness : example_load two_pages 3 = Done Blocked /\
  exists s', ofold (exec_event zeros example_files) two_pages [CloseWebPage 7 3 true; OpenPage 7 5 1; Deliver 7; Deliver 7] = Done s' /\ proxies s' = proxies two_pages /\ example_load s' 5 = Done NotBlocked.
Proof.
  split; [vm_compute; reflexivity|]. destruct (processes two_pages !! 7) as [P|] eqn:EP; [|vm_compute in EP; discriminate]. destruct (proxies two_pages !! 1) as [x|] eqn:Ex; [|vm_compute in Ex; discriminate].
  destruct (reopened_controller_is_empty zeros example_files two_pages 7 P 3 5 1 x true) as (s' & P' & E & Hp & _ & _ & _ & _ & Hl).
  - exact two_pages_run.
  - exact EP.
  - vm_compute in EP. injection EP as <-. reflexivity.
  - vm_compute in EP. injection EP as <-. vm_compute. reflexivity.
  - exact Ex.
  - vm_compute in EP. injection EP as <-. vm_compute. reflexivity.
  - intros E. vm_compute in EP. injection EP as <-. vm_compute in E. discriminate E.
  - vm_compute in EP. injection EP as <-. vm_compute. reflexivity.
  - exists s'. split; [exact E|]. split; [exact Hp|]. unfold example_load. destruct (Hl example_loader (mkLoadContext true false) example_url example_document RT_Image) as (s2 & l & E2). rewrite E2. reflexivity.
Defined.
End Examples.
